(* ===== verification/_CoqProject ===== *)
-Q . S2P
Prelude.v
PyDict.v
PyText.v
Contracts.v
SessionState.v
SessionLedger.v
SessionFacts.v
ConnectionArbiter.v
HandshakeGate.v
WorkTaskLedger.v
SpeechLifecycle.v
SpeechLifecycleFacts.v
SpeechLane.v
SpeechScheduler.v
SpeechSchedulerFacts.v
SpeechAccounting.v
SpeechSystem.v
TurnAckLedger.v
TurnAckFacts.v
Routing.v
WorkItemCoordinator.v
WorkItemFacts.v
Rtvi.v
Observer.v
ObserverFacts.v
Replication.v
WorkStatusPublisher.v
PerfMetrics.v
PerfMetricsFacts.v
WorkerProjection.v
SessionHost.v
SessionHostFacts.v
Delegation.v
HostConnection.v
TurnEpilogue.v
Mailbox.v
TurnProcessor.v
TurnIds.v
PyValue.v
Regex.v
Intent.v
ConfigLayers.v
Config.v
ConfigLoad.v
ConfigFacts.v
ConfigValid.v
ConfigErrors.v
TurnCore.v
TurnHandlers.v
MultiIntent.v
TurnFacts.v
TurnControl.v
Citations.v
CitationsFacts.v
SearchWorker.v
RunnerSupervisor.v
Router.v
Interruption.v
Json.v
EvalCommon.v
EvalMatrix.v
EvalVote.v
EvalManifest.v
EvalRun.v
EvalReport.v
EvalFacts.v
EvalVerdict.v
EvalSpend.v
Evidence.v
EvidenceFixture.v
Transport.v
EvidenceGate.v
EvidenceGateFacts.v
Deployment.v
Release.v
App.v
Setup.v
SpeechCallbacks.v
LocalSpeech.v
EvalProbe.v
