(* ===== verification/Prelude.v ===== *)
(** * Verification of the voice-agent session server

    This library models the server of the repository (Python, [src/server/]): a
    process that holds one session, talks to one browser connection at a time,
    routes each spoken turn to search workers, and speaks and displays their
    results; and the tools beside it ([src/scripts/], [src/evals/]) that compare
    models, check evidence and guard a release.  The models are executable Rocq
    functions translated from the source; the theorems are about those functions.

    ** The program and its models

    - [PyDict.v]: Python's insertion-ordered dictionaries, the data structure most
      of the state is kept in, with their refinement to finite maps.
    - [PyText.v]: Python strings as sequences of code points, with the methods the
      code uses ([strip], [split], [lower], slices).  [PyValue.v]: the dynamic values
      read from files, the environment and providers, with truth, equality and
      conversions.
    - [Regex.v]: the fragment of [re] the code uses, as a backtracking matcher that
      is proved exact against a declarative relation.
    - [ConfigLayers.v], [Config.v], [ConfigLoad.v], [ConfigFacts.v], [ConfigValid.v],
      [ConfigErrors.v] ([config.py]): the layered configuration: merging layers and
      recording where a value comes from, families of keys, role settings, endpoints,
      the validated record and its loading.
    - [Contracts.v] ([contracts.py]): the wire vocabulary with its validators.
    - [SessionState.v], [SessionLedger.v], [SessionFacts.v] ([session_state.py],
      [ResultLog] of [results.py]): the authoritative session: workers, results,
      transcript, delivery records and the work-status ledger, its events, pruning,
      eviction, snapshot and restore.
    - [ConnectionArbiter.v], [HandshakeGate.v] ([connection_arbiter.py],
      [handshake_gate.py]): epochs of connections and resume tokens.
    - [WorkTaskLedger.v] ([work_task_ledger.py], [task_retention.py]): which tasks
      belong to which work item, over an explicit event loop.
    - [SpeechLifecycle.v], [SpeechLifecycleFacts.v], [SpeechLane.v]
      ([speech_lifecycle.py]): the coordinator of the one transport slot with its
      timers and coroutines, and the frame processors around the speech service.
    - [SpeechScheduler.v], [SpeechSchedulerFacts.v], [SpeechAccounting.v]
      ([speech_scheduler.py]): queues, leases, pause and resume.  Proved against two
      interfaces, [ProgressSink] and [SpeechSlot]; [SpeechSystem.v] shows that the
      session state and the coordinator implement them.
    - [TurnAckLedger.v], [TurnAckFacts.v] ([turn_ack_ledger.py]): the early
      acknowledgement of a turn and its admission chains.
    - [Routing.v], [Router.v] ([router.py], [registry.py]): decisions, the worker
      registry; completing and validating what the routing model answers.
    - [Intent.v] ([pipeline.py]): control words, answers to a pending
      question, and splitting a transcript into requests.
    - [WorkItemCoordinator.v], [WorkItemFacts.v] ([work_item_coordinator.py]):
      background work, submission of a turn's items, clarifications, shutdown.
    - [Mailbox.v] ([workers/base.py]): a worker's queue of operations.
    - [Rtvi.v], [Observer.v], [ObserverFacts.v], [Replication.v]
      ([rtvi_messages.py], [observers.py], the snapshot delivery of [app.py], the
      reducer of [src/web/src/state.js]): what a connected browser is sent, up to
      the browser's own copy of the session.
    - [WorkStatusPublisher.v] ([work_status_publisher.py]): statuses of children.
    - [PerfMetrics.v], [PerfMetricsFacts.v] ([perf_metrics.py],
      [recorder_factory.py]): the metric registry and the recorders.
    - [WorkerProjection.v] ([worker_projection.py]): worker states, clarification
      candidates.
    - [SessionHost.v], [SessionHostFacts.v], [Delegation.v], [HostConnection.v],
      [TurnIds.v] ([pipeline.py], [connection_pipeline.py]): the host that composes
      the components above: committing and speaking results, the callback for late
      results, delegation, cancellation, connections and shutdown.
    - [App.v] ([app.py]): the HTTP routes over the host and the handshake gate: the
      origin check, the handshake in the URL, session, offer and candidate.
    - [Setup.v] ([app.py], [connection_pipeline.py], [pipeline.py]): attaching a
      browser connection and taking it down on every path, the gate for results in
      its pipeline, and the logging set-up.
    - [SpeechCallbacks.v] ([pipeline.py], [app.py]): the callbacks [connect] wires
      between host, scheduler, coordinator and speech service.
    - [LocalSpeech.v] ([services/tts.py], [services/stt.py],
      [services/ws_clients.py]): the clients and adapters of the local speech services.
    - [TurnEpilogue.v] ([turn_epilogue.py]): the end of a turn, over any context of
      collaborators.
    - [TurnProcessor.v] ([turns.py]): assembling final transcripts into turns.
    - [TurnCore.v], [TurnHandlers.v], [MultiIntent.v] ([pipeline.py]): the handlers of
      a turn, from [handle_transcript] to the epilogue, as programs of a monad over
      the host and the turn's recorder that can finish, raise or be cancelled at an
      await.  [TurnFacts.v], [TurnControl.v] hold their theorems.
    - [Citations.v], [CitationsFacts.v], [SearchWorker.v]
      ([workers/web_search.py], [workers/base.py]): walking a provider's response for
      citations, matching them with the answer, and the search worker around it.
    - [RunnerSupervisor.v] ([runner_supervisor.py]): registering workers with the
      framework's runner.  [Interruption.v] ([interruptions.py]): the interruption
      controller.
    - [Json.v]: the values of [json.loads].
    - [EvalCommon.v], [EvalMatrix.v], [EvalManifest.v], [EvalVote.v], [EvalRun.v],
      [EvalReport.v] ([scripts/eval_common.py], [scripts/eval_model_comparison.py],
      [evals/]): the comparison of models: redaction, candidates and cells, the
      manifest, the run of a cell against any server, the votes over repetitions, the
      report and the order of [main].  [EvalFacts.v], [EvalVerdict.v], [EvalSpend.v]
      hold their theorems and a sample run.  [EvalProbe.v]
      ([scripts/verify_eval_candidates.py], [structured_outputs.py], the requests of
      [router.py] and [workers/web_search.py]): the probe that writes the manifest.
    - [Evidence.v], [EvidenceFixture.v] ([scripts/evidence_common.py]): reading and
      writing evidence files, the score a fixture gives.  [Transport.v]
      ([scripts/validate_phase2_transport_browser_contract.py]): the browser artifact,
      its lock file and version range.  [EvidenceGate.v], [EvidenceGateFacts.v]
      ([scripts/validate_v013_evidence.py]): the gates and the manifest's drift check,
      with a sample tree.
    - [Deployment.v] ([scripts/emit_v013_deployment_metadata.py],
      [scripts/record_phase3_completion.py]): the digest of a tree, the exported
      variables, the completion record.  [Release.v]
      ([scripts/check_release_metadata.py]): the release checks.

    ** Conventions

    A Python object is a record; [self.f = v] is [s <| f := v |>].  A method is a
    function on the record; one that can raise returns the state it leaves and a
    [result].  Everything the code asks the outside world for is an argument: clock
    readings (rationals), minted identifiers, timestamps, feature switches read
    through a thunk, what an awaited call answers.  The server runs on one event
    loop, so code between two awaits is one step; a coroutine is cut at its awaits
    into a start and resumptions, and a run is an arbitrary sequence of such steps
    ([..run] functions over lists of operations, or a step relation).  Cancelling a
    task follows asyncio.  Sets are [gset]s, dictionaries association lists in
    insertion order.  Epochs and sequence numbers are [N]: the code uses unbounded
    integers with the constraint of being non-negative.

    ** What is shown

    - State: the work-status trace of a key is contiguous, legal and stops at the
      first terminal status; every reachable session state satisfies its invariant;
      snapshots round-trip; events are well typed for the wire.
    - Speech: a generation is terminalized exactly once; the lane lets no frame
      through after an interruption; queued results are spoken, held or settled,
      never dropped silently; teardown follows an interruption in bounded time;
      admission order; acknowledgement chains are bounded.
    - Delivery to the browser: the browser's copy refines the session's history
      without gap or repetition, and replaying a buffer terminates in order.
    - Host: one connection is heard at a time; a replaced connection leaves nothing
      to be heard; a late result is settled once on every branch with a truthful
      status; a foreground result is committed once and spoken only where it may be;
      cancelling a child or a turn removes exactly what it should.
    - Turns: the assembler stays within its limits and loses no speech; the epilogue
      reports every child exactly once; a swept turn is terminal; the turn's metrics
      account for its children.
    - Work: the background budget; every submitted item is accounted for; a
      clarification is answered once; shutdown is final; the mailbox serialises.
    - Turn handlers: however a turn ends, its recorder is finalized exactly once and
      written; a nested turn gives back the ownership it took; a control request is
      reported by what it did.
    - Words: a spoken control command is recognised as the command it names, and a
      named target is passed on verbatim.
    - Configuration: a loaded configuration satisfies every documented limit; role
      settings and endpoints come from the layer that should decide; errors of the
      environment surface as configuration errors.
    - Search: the citation walk visits every reachable value within its bounds and no
      value twice; an answer that cites an unknown address is rejected; what a worker
      remembers is what it answered.
    - Browser: a signaling request is admitted only with a token that was handed out
      for its epoch, once, from an allowed origin; a connection is set up completely or
      leaves nothing behind; an utterance goes to the speech service only where it is
      heard, and the local service's stream always ends in a report.
    - Evaluation: a run passes only when every requirement was met by a majority of
      repetitions, and passes when all were; no paid call without its guards; the
      credential never reaches a report; the manifest lets through exactly what the
      provider accepted, and the printed plan is what is sent.
    - Evidence and release: a manifest without drift binds its files and its verdict; a
      promotion is backed by evidence; the version check is npm's; a workflow that
      passes runs the drift check; exports and records are written whole or not at all.
    - Defects: theorems that state behaviour which contradicts the code's own comments
      or loses work: a second interruption strands the slot, a second pause loses a
      result, a rejected report breaks the ledgers' lockstep, a just-delegated child
      escapes a targeted cancellation, a pause that missed is reported as applied; in
      [Mailbox.v] and [WorkItemFacts.v], the cancellation of queued submissions and
      the overlap of items of one worker.

    ** Fuel and bounds

    Loops over a finite structure recurse on it.  [scan_key] has one more unit of
    fuel than its queue has items, since every round but the last drops the head.
    The replay loop of [Observer.v] is given fuel and proved to end with its result
    for an emitter that raises no events itself.  [cancel_chain] of [Mailbox.v]
    follows awaited tasks, whose indexes decrease; [decimal] of [TurnIds.v] needs one
    round per decimal digit and has one per binary digit.  The citation walk has
    [max_nodes] rounds, since every round visits a node and the loop stops at that
    number.  [Regex.v] recurses on the expression, with one round more than there are
    characters for repetitions and splits, each of which consumes at least one
    character.  The search through a workflow's jobs has two rounds more than there are
    jobs, each of which takes a job not seen before; replacing a text in another has
    one round per character.  The streams of the speech service and the loops over
    read and write calls recurse on the list of what arrives.  The lemmas that a
    theorem's hypotheses can hold use small concrete limits; the theorems hold for all.

    ** Not modelled

    - The construction of the framework's pipelines ([build_pipeline], the bridge,
      [composition.py]) and its runner, workers and transports: calls into the
      framework, whose answers are arguments.
    - [preflight.py], the hosted services, [main_responder.py] and the clients of the
      model provider: input and output or adapters to services; what they answer is an
      argument.
    - Parsing of URLs, TOML, YAML, JSON and shell text, timestamps, digests, log lines,
      the file system and the address classes of [ipaddress]: parameters of the
      definitions that use them.
    - The rest of the browser client; the rendering of the evaluation report;
      the smoke and benchmark scripts, which start a server or call a provider and
      print what happened. *)

From Stdlib Require Export QArith Lqa.
From stdpp Require Export base option numbers strings gmap list.

#[global] Open Scope Z_scope.
#[global] Open Scope string_scope.
#[global] Open Scope list_scope.
#[global] Unset Universe Polymorphism.

(** ** Record update

    Python attribute assignment [self.field = v] is written
    [s <| field := v |>].  A record opts in with one [Eta] instance that lists
    its projections; the setter is computed from it. *)

Class Eta (R : Type) := eta : R → R.

Class Setter {R F : Type} (p : R → F) := setter : (F → F) → R → R.
Arguments setter {R F} p {_} g r /.

Ltac derive_setter :=
  lazymatch goal with
  | |- @Setter ?R ?F ?p =>
      let g := fresh "g" in
      let r := fresh "r" in
      intros g r;
      let b := eval hnf in (@eta R _ r) in
      let t := eval pattern (p r) in b in
      lazymatch t with
      | ?h _ => let u := eval cbv beta in (h (g (p r))) in exact u
      end
  end.

#[export] Hint Extern 0 (Setter _) => derive_setter : typeclass_instances.

Declare Scope py_scope.
Delimit Scope py_scope with py.
Notation "r <| p := v |>" := (setter p (λ _, v) r)
  (at level 1, left associativity, p at level 200, v at level 200) : py_scope.
Notation "r <| p ::= f |>" := (setter p f r)
  (at level 1, left associativity, p at level 200, f at level 200) : py_scope.
#[global] Open Scope py_scope.

(** ** Raising code

    A call that may raise returns [result]; the exception carries its class
    and, where the source tests or documents it, its message. *)

Inductive exn :=
| ValueError (msg : string)
| RuntimeError (msg : string)
| TypeError (msg : string)
| KeyError
| ConfigError (msg : string)                (* of [server.config], a ValueError *)
| RoutingValidationError (msg : string)     (* of [server.router], a ValueError *)
| WorkerClarify (question : string)         (* of [server.workers.base] *)
| WorkerDeclined
| OtherException (cls : string).

#[global] Instance exn_eq_dec : EqDecision exn.
Proof. solve_decision. Defined.

Inductive result (A : Type) :=
| Ret (a : A)
| Raise (e : exn).
Arguments Ret {A} a.
Arguments Raise {A} e.

Definition rbind {A B} (x : result A) (f : A → result B) : result B :=
  match x with Ret a => f a | Raise e => Raise e end.

Notation "x ←? c ;; k" := (rbind c (λ x, k))
  (at level 100, c at next level, right associativity) : py_scope.

Lemma rbind_ret {A B} (x : result A) (f : A → result B) b : (rbind x f) = Ret b → ∃ a, x = Ret a ∧ f a = Ret b.
Proof. destruct x as [a|]; [|done]. cbn [rbind]. by exists a. Qed.

(** Splits the steps of a computation that returned. *)
Ltac ret_steps H := repeat (apply rbind_ret in H as (? & ? & H)).

Definition returns {A} (x : result A) : bool :=
  match x with Ret _ => true | Raise _ => false end.

(** ** Time

    [time.monotonic()] readings, durations and timeouts are exact rationals:
    every Python float is one.  The rounding of float addition is the only
    thing this leaves out. *)

Abbreviation instant := Q (only parsing).

Definition Qltb (a b : Q) : bool := negb (Qle_bool b a).

Lemma Qltb_lt a b : Qltb a b = true ↔ (a < b)%Q.
Proof.
  unfold Qltb. rewrite negb_true_iff, <- not_true_iff_false, Qle_bool_iff.
  split; [apply Qnot_le_lt | apply Qlt_not_le].
Qed.

Lemma Qltb_ge a b : Qltb a b = false ↔ (b <= a)%Q.
Proof. unfold Qltb. by rewrite negb_false_iff, Qle_bool_iff. Qed.

Lemma Qle_bool_lt a b : Qle_bool a b = false ↔ (b < a)%Q.
Proof. rewrite <- Qltb_lt. unfold Qltb. by rewrite negb_true_iff. Qed.

(** ** [min(candidates, key=...)]

    Python's [min] returns the first candidate of least key. *)

Fixpoint argmin_go {A} (best : A * Q) (l : list (A * Q)) : A * Q :=
  match l with
  | [] => best
  | x :: l' => argmin_go (if Qltb x.2 best.2 then x else best) l'
  end.

Definition argmin {A} (l : list (A * Q)) : option A :=
  match l with [] => None | x :: l' => Some (argmin_go x l').1 end.

Lemma argmin_go_elem {A} (l : list (A * Q)) : ∀ b, argmin_go b l ∈ b :: l.
Proof.
  induction l as [|x l IH]; intros b; simpl; [constructor|].
  pose proof (IH (if Qltb x.2 b.2 then x else b)) as Hin.
  destruct (Qltb x.2 b.2); set_solver.
Qed.

Lemma argmin_go_least {A} (l : list (A * Q)) : ∀ b x, x ∈ b :: l → ((argmin_go b l).2 <= x.2)%Q.
Proof.
  induction l as [|y l IH]; intros b x Hx; simpl.
  - apply list_elem_of_singleton in Hx as ->. apply Qle_refl.
  - assert ((argmin_go (if Qltb y.2 b.2 then y else b) l).2 <= (if Qltb y.2 b.2 then y else b).2)%Q
      as Hb by (apply IH; constructor).
    apply elem_of_cons in Hx as [->|[->|Hx]%elem_of_cons]; [| |apply IH; by constructor].
    all: destruct (Qltb y.2 b.2) eqn:E; [apply Qltb_lt in E | apply Qltb_ge in E]; lra.
Qed.

Lemma argmin_None {A} (l : list (A * Q)) : argmin l = None ↔ l = [].
Proof. by destruct l. Qed.

(** The chosen element is a candidate and no candidate is older. *)
Lemma argmin_Some {A} (l : list (A * Q)) a :
  argmin l = Some a → ∃ q, (a, q) ∈ l ∧ ∀ x, x ∈ l → (q <= x.2)%Q.
Proof.
  destruct l as [|b l]; [done|]. intros [= <-]. exists (argmin_go b l).2.
  rewrite <- surjective_pairing. split; [apply argmin_go_elem|]. intros x. apply argmin_go_least.
Qed.

Lemma argmin_go_app {A} (l1 l2 : list (A * Q)) b :
  argmin_go b (l1 ++ l2) = argmin_go (argmin_go b l1) l2.
Proof. revert b. induction l1 as [|x l1 IH]; intros b; simpl; auto. Qed.

(** A last candidate that is no older than the others is not chosen. *)
Lemma argmin_snoc {A} (l : list (A * Q)) y :
  l ≠ [] → (∀ x, x ∈ l → (x.2 <= y.2)%Q) → argmin (l ++ [y]) = argmin l.
Proof.
  destruct l as [|b l]; [done|]. intros _ Hle. simpl. rewrite argmin_go_app. simpl.
  rewrite (proj2 (Qltb_ge y.2 (argmin_go b l).2)); [done|]. apply Hle, argmin_go_elem.
Qed.

(** ** Lists *)

Lemma filter_all {A} (P : A → Prop) `{!∀ x, Decision (P x)} (l : list A) : Forall P l → filter P l = l.
Proof. induction 1; [done|]. rewrite filter_cons_True by done. by f_equal. Qed.

(** ** [collections.deque(maxlen=n)] *)

Definition deque_append {A} (maxlen : nat) (x : A) (l : list A) : list A :=
  let l' := l ++ [x] in drop (length l' - maxlen) l'.

Lemma deque_append_length {A} n (x : A) l : (length (deque_append n x l) ≤ n)%nat.
Proof. unfold deque_append. rewrite length_drop. lia. Qed.

Lemma deque_append_last {A} n (x : A) l : (0 < n)%nat → last (deque_append n x l) = Some x.
Proof.
  intros Hn. unfold deque_append. rewrite length_app. simpl.
  rewrite drop_app_le by lia. apply last_snoc.
Qed.
