(* ===== verification/PyDict.v ===== *)
(** Python's insertion-ordered [dict] and [OrderedDict].

    A dictionary is an association list in insertion order.  Assignment
    updates an existing key in place and appends a new one, [pop] removes the
    key, [move_to_end] reinserts it last and [popitem(last=False)] drops the
    oldest entry.  The order is observable in this code base: snapshots list
    records in insertion order, eviction ties go to the older key and the
    speech scheduler scans its queues in that order.  [dict_get_map] and its
    companions state the refinement to the abstract finite map [gmap]. *)

From S2P Require Import Prelude.

Abbreviation dict K V := (list (K * V)) (only parsing).

Section dict.
Context {K : Type} `{EqDecision K} {V : Type}.
Implicit Types (d : dict K V) (k : K) (v : V).

Fixpoint dict_get (k : K) (d : dict K V) : option V :=
  match d with
  | [] => None
  | (k', v) :: d' => if decide (k = k') then Some v else dict_get k d'
  end.

Fixpoint dict_set (k : K) (v : V) (d : dict K V) : dict K V :=
  match d with
  | [] => [(k, v)]
  | (k', v') :: d' =>
      if decide (k = k') then (k', v) :: d' else (k', v') :: dict_set k v d'
  end.

Definition dict_pop (k : K) (d : dict K V) : dict K V :=
  filter (λ p, p.1 ≠ k) d.

Definition dict_keys (d : dict K V) : list K := d.*1.

Definition dict_values (d : dict K V) : list V := d.*2.

Definition dict_mem (k : K) (d : dict K V) : bool :=
  match dict_get k d with Some _ => true | None => false end.

(** [d.setdefault(k, v)] *)
Definition dict_setdefault (k : K) (v : V) (d : dict K V) : dict K V :=
  match dict_get k d with Some _ => d | None => dict_set k v d end.

(** [d.move_to_end(k)] for a key that is present *)
Definition dict_move_to_end (k : K) (d : dict K V) : dict K V :=
  match dict_get k d with Some v => dict_pop k d ++ [(k, v)] | None => d end.

(** [while len(d) > cap: d.popitem(last=False)] *)
Fixpoint dict_trim (cap : nat) (d : dict K V) : dict K V :=
  if decide (length d ≤ cap)%nat then d
  else match d with [] => [] | _ :: d' => dict_trim cap d' end.

(** No key occurs twice: what Python guarantees of every dictionary. *)
Definition dict_wf (d : dict K V) : Prop := NoDup (dict_keys d).

Lemma dict_get_set_eq k v d : dict_get k (dict_set k v d) = Some v.
Proof. induction d as [|[k' v'] d IH]; simpl; repeat (case_decide; simpl); congruence. Qed.

Lemma dict_get_set_ne k k' v d : k ≠ k' → dict_get k' (dict_set k v d) = dict_get k' d.
Proof.
  intros Hne. induction d as [|[j w] d IH]; simpl; repeat (case_decide; simpl); congruence.
Qed.

Lemma dict_get_set k k' v d :
  dict_get k' (dict_set k v d) = if decide (k = k') then Some v else dict_get k' d.
Proof.
  case_decide; subst; [apply dict_get_set_eq | by apply dict_get_set_ne].
Qed.

Lemma dict_get_pop_eq k d : dict_get k (dict_pop k d) = None.
Proof.
  unfold dict_pop. induction d as [|[j w] d IH]; [done|].
  rewrite filter_cons. case_decide; simpl in *; [case_decide; congruence | done].
Qed.

Lemma dict_get_pop_ne k k' d : k ≠ k' → dict_get k' (dict_pop k d) = dict_get k' d.
Proof.
  intros Hne. unfold dict_pop. induction d as [|[j w] d IH]; [done|].
  rewrite filter_cons. repeat (case_decide; simpl in *); congruence.
Qed.

Lemma dict_get_pop k k' d :
  dict_get k' (dict_pop k d) = if decide (k = k') then None else dict_get k' d.
Proof.
  case_decide; subst; [apply dict_get_pop_eq | by apply dict_get_pop_ne].
Qed.

Lemma dict_get_app k (d1 d2 : dict K V) :
  dict_get k (d1 ++ d2) = match dict_get k d1 with Some v => Some v | None => dict_get k d2 end.
Proof. induction d1 as [|[j w] d1 IH]; simpl; [done|]. case_decide; done. Qed.

Lemma dict_get_elem k v d : dict_get k d = Some v → (k, v) ∈ d.
Proof.
  induction d as [|[j w] d IH]; simpl; [done|].
  case_decide; intros ?; simplify_eq; constructor; auto.
Qed.

Lemma dict_get_None k d : dict_get k d = None ↔ k ∉ dict_keys d.
Proof.
  unfold dict_keys. induction d as [|[j w] d IH]; csimpl.
  - split; [intros _; apply not_elem_of_nil | done].
  - rewrite not_elem_of_cons, <- IH. case_decide; naive_solver.
Qed.

Lemma dict_get_is_Some k d : is_Some (dict_get k d) ↔ k ∈ dict_keys d.
Proof.
  rewrite <- not_eq_None_Some, dict_get_None.
  destruct (decide (k ∈ dict_keys d)); naive_solver.
Qed.

Lemma dict_mem_iff k d : dict_mem k d = true ↔ k ∈ dict_keys d.
Proof.
  rewrite <- dict_get_is_Some. unfold dict_mem, is_Some.
  destruct (dict_get k d); naive_solver.
Qed.

Lemma dict_elem_get k v d : dict_wf d → (k, v) ∈ d → dict_get k d = Some v.
Proof.
  unfold dict_wf, dict_keys. induction d as [|[j w] d IH]; csimpl.
  - intros _ []%not_elem_of_nil.
  - intros [Hj Hnd]%NoDup_cons [?|Hin]%elem_of_cons; simplify_eq.
    + by rewrite decide_True.
    + rewrite decide_False; [by apply IH|].
      intros ->. apply Hj. apply list_elem_of_fmap. by exists (j, v).
Qed.

Lemma dict_set_elem k v d p : p ∈ dict_set k v d → p = (k, v) ∨ p ∈ d.
Proof.
  induction d as [|[j w] d IH]; simpl; [set_solver|]. case_decide; subst; set_solver.
Qed.

Lemma dict_keys_set k v d :
  dict_keys (dict_set k v d) =
  if decide (k ∈ dict_keys d) then dict_keys d else dict_keys d ++ [k].
Proof.
  unfold dict_keys. induction d as [|[j w] d IH]; csimpl; [done|].
  destruct (decide (k = j)) as [->|Hne]; csimpl.
  - rewrite decide_True; [done | constructor].
  - rewrite IH. destruct (decide (k ∈ d.*1)).
    + rewrite decide_True; [done | by constructor].
    + rewrite decide_False; [done|]. rewrite elem_of_cons. naive_solver.
Qed.

Lemma dict_keys_pop k d : dict_keys (dict_pop k d) = filter (λ j, j ≠ k) (dict_keys d).
Proof.
  unfold dict_keys, dict_pop. induction d as [|[j w] d IH]; [done|].
  rewrite filter_cons. csimpl. rewrite filter_cons. csimpl. case_decide; csimpl; congruence.
Qed.

Lemma dict_keys_set_elem k k' v d : k' ∈ dict_keys (dict_set k v d) ↔ k' = k ∨ k' ∈ dict_keys d.
Proof.
  rewrite dict_keys_set. case_decide; [naive_solver|].
  rewrite elem_of_app, list_elem_of_singleton. naive_solver.
Qed.

Lemma dict_keys_pop_elem k k' d : k' ∈ dict_keys (dict_pop k d) ↔ k' ≠ k ∧ k' ∈ dict_keys d.
Proof. by rewrite dict_keys_pop, list_elem_of_filter. Qed.

Lemma dict_wf_nil : dict_wf [].
Proof. constructor. Qed.

Lemma dict_wf_set k v d : dict_wf d → dict_wf (dict_set k v d).
Proof.
  unfold dict_wf. rewrite dict_keys_set. case_decide; [done|].
  intros Hd. apply NoDup_app. split; [done|]. split; [|apply NoDup_singleton].
  intros j Hj ->%list_elem_of_singleton. done.
Qed.

Lemma dict_wf_pop k d : dict_wf d → dict_wf (dict_pop k d).
Proof. unfold dict_wf. rewrite dict_keys_pop. by apply NoDup_filter. Qed.

Lemma dict_wf_setdefault k v d : dict_wf d → dict_wf (dict_setdefault k v d).
Proof. unfold dict_setdefault. case_match; [done|]. apply dict_wf_set. Qed.

Lemma dict_get_setdefault k k' v d :
  dict_get k' (dict_setdefault k v d) =
  if decide (k = k') then Some (default v (dict_get k d)) else dict_get k' d.
Proof.
  unfold dict_setdefault. destruct (dict_get k d) eqn:E; simpl.
  - case_decide; congruence.
  - apply dict_get_set.
Qed.

Lemma dict_keys_nil d : (∀ k, k ∉ dict_keys d) → d = [].
Proof. destruct d as [|[k v] d]; [done|]. intros Hk. destruct (Hk k). constructor. Qed.

Lemma dict_pop_notin k d : k ∉ dict_keys d → dict_pop k d = d.
Proof.
  unfold dict_pop, dict_keys. induction d as [|[j w] d IH]; [done|].
  csimpl. rewrite not_elem_of_cons, filter_cons. intros [Hne Hin].
  rewrite decide_True by (simpl; congruence). by rewrite IH.
Qed.

Lemma dict_set_in_length k v d : k ∈ dict_keys d → length (dict_set k v d) = length d.
Proof.
  unfold dict_keys. induction d as [|[j w] d IH]; csimpl; [by intros ?%not_elem_of_nil|].
  intros Hin. case_decide; simpl; [done|]. f_equal. apply IH.
  apply elem_of_cons in Hin as [|]; [done | done].
Qed.

Lemma dict_set_length k v d : (length (dict_set k v d) ≤ S (length d))%nat.
Proof. induction d as [|[j w] d IH]; simpl; [lia|]. case_decide; simpl; lia. Qed.

Lemma dict_pop_length k d : (length (dict_pop k d) ≤ length d)%nat.
Proof. apply length_filter. Qed.

Lemma dict_pop_length_lt k d : k ∈ dict_keys d → (length (dict_pop k d) < length d)%nat.
Proof.
  intros Hin. unfold dict_pop. unfold dict_keys in Hin. apply list_elem_of_fmap in Hin as [[j w] [-> Hin]].
  eapply length_filter_lt; [exact Hin|]. simpl. naive_solver.
Qed.

Lemma dict_set_get_id k v d : dict_get k d = Some v → dict_set k v d = d.
Proof.
  induction d as [|[j w] d IH]; simpl; [done|].
  case_decide; intros ?; simplify_eq; [done|]. by rewrite IH.
Qed.

Lemma dict_set_notin k v d : k ∉ dict_keys d → dict_set k v d = d ++ [(k, v)].
Proof.
  unfold dict_keys. induction d as [|[j w] d IH]; csimpl; [done|].
  rewrite not_elem_of_cons. intros [? ?]. rewrite decide_False by done. by rewrite IH.
Qed.

Lemma dict_set_set k v w d : dict_set k v (dict_set k w d) = dict_set k v d.
Proof.
  induction d as [|[j u] d IH]; simpl; [by rewrite decide_True|].
  case_decide; simpl; [by rewrite decide_True | rewrite decide_False by done; by rewrite IH].
Qed.

Lemma dict_set_setdefault k v w d : dict_set k v (dict_setdefault k w d) = dict_set k v d.
Proof. unfold dict_setdefault. case_match; [done | apply dict_set_set]. Qed.

Lemma dict_pop_set_notin k v d : k ∉ dict_keys d → dict_pop k (dict_set k v d) = d.
Proof.
  intros Hk. rewrite dict_set_notin by done. unfold dict_pop. rewrite filter_app.
  rewrite filter_cons_False by (simpl; tauto). rewrite filter_nil, app_nil_r.
  by apply dict_pop_notin.
Qed.

Lemma dict_set_neq_nil k v d : dict_set k v d ≠ [].
Proof. destruct d as [|[j u] d]; simpl; [done|]. by case_decide. Qed.

(** *** Trimming *)

Lemma dict_trim_length cap d : (length (dict_trim cap d) ≤ cap)%nat.
Proof.
  induction d as [|p d IH]; simpl; [lia|]. case_decide; simpl in *; lia.
Qed.

Lemma dict_trim_suffix cap d : ∃ dropped, d = dropped ++ dict_trim cap d.
Proof.
  induction d as [|p d IH]; simpl.
  - by exists [].
  - case_decide; [by exists []|]. destruct IH as [l Hl]. exists (p :: l). simpl. by rewrite <- Hl.
Qed.

Lemma dict_trim_small cap d : (length d ≤ cap)%nat → dict_trim cap d = d.
Proof. destruct d; simpl; intros; [done | by rewrite decide_True]. Qed.

Lemma dict_trim_wf cap d : dict_wf d → dict_wf (dict_trim cap d).
Proof.
  destruct (dict_trim_suffix cap d) as [l Hl]. unfold dict_wf, dict_keys. rewrite Hl at 1.
  rewrite fmap_app. rewrite NoDup_app. naive_solver.
Qed.

Lemma dict_trim_get cap d k v : dict_wf d → dict_get k (dict_trim cap d) = Some v → dict_get k d = Some v.
Proof.
  intros Hwf Hg. apply dict_elem_get; [done|].
  destruct (dict_trim_suffix cap d) as [l Hl]. rewrite Hl. apply elem_of_app. right.
  by apply dict_get_elem.
Qed.

Lemma dict_trim_last cap d p : (0 < cap)%nat → p ∈ dict_trim cap (d ++ [p]).
Proof.
  intros Hcap. destruct (dict_trim_suffix cap (d ++ [p])) as [l Hl].
  destruct (dict_trim cap (d ++ [p])) as [|q t] eqn:E using rev_ind.
  - exfalso. clear Hl l. induction d as [|x d IH]; simpl in E.
    + rewrite decide_True in E by lia. done.
    + case_decide; [done|]. by apply IH.
  - clear IHt. rewrite app_assoc in Hl. apply app_inj_tail in Hl as [_ ->].
    apply elem_of_app. right. constructor.
Qed.

(** *** Moving to the end *)

Lemma dict_move_to_end_get k k' d : dict_get k' (dict_move_to_end k d) = dict_get k' d.
Proof.
  unfold dict_move_to_end. destruct (dict_get k d) eqn:E; [|done].
  rewrite dict_get_app, dict_get_pop. simpl. case_decide; subst.
  - by rewrite decide_True.
  - destruct (dict_get k' d); [done|]. by rewrite decide_False by congruence.
Qed.

Lemma dict_move_to_end_wf k d : dict_wf d → dict_wf (dict_move_to_end k d).
Proof.
  intros Hwf. unfold dict_move_to_end. case_match; [|done].
  rewrite <- dict_set_notin; [by apply dict_wf_set, dict_wf_pop|].
  rewrite dict_keys_pop_elem. naive_solver.
Qed.

Lemma dict_set_move_last k v d :
  dict_move_to_end k (dict_set k v d) = dict_pop k (dict_set k v d) ++ [(k, v)].
Proof. unfold dict_move_to_end. by rewrite dict_get_set_eq. Qed.

End dict.

(** *** Refinement to finite maps *)

Section dict_map.
Context {K : Type} `{Countable K} {V : Type}.
Implicit Types (d : dict K V) (k : K) (v : V).

Definition dict_map (d : dict K V) : gmap K V := list_to_map d.

Lemma dict_map_lookup d k : dict_map d !! k = dict_get k d.
Proof.
  unfold dict_map. induction d as [|[j w] d IH]; simpl; [apply lookup_empty|].
  case_decide; subst; [by rewrite lookup_insert_eq | by rewrite lookup_insert_ne by congruence].
Qed.

Lemma dict_map_set d k v : dict_map (dict_set k v d) = <[k := v]> (dict_map d).
Proof.
  apply map_eq. intros j. rewrite dict_map_lookup, dict_get_set, lookup_insert.
  case_decide; [done|]. by rewrite dict_map_lookup.
Qed.

Lemma dict_map_pop d k : dict_map (dict_pop k d) = delete k (dict_map d).
Proof.
  apply map_eq. intros j. rewrite dict_map_lookup, dict_get_pop, lookup_delete.
  case_decide; [done|]. by rewrite dict_map_lookup.
Qed.

End dict_map.

(** *** Automation *)

Create HintDb dict.
#[export] Hint Resolve dict_wf_nil dict_wf_set dict_wf_pop dict_wf_setdefault
  dict_trim_wf dict_move_to_end_wf : dict.
Create Rewrite HintDb dict.
#[export] Hint Rewrite @dict_get_set @dict_get_pop @dict_get_setdefault
  @dict_move_to_end_get : dict.

(** Push every [dict_get] through the updates and split on the key tests. *)
Ltac dict_simp :=
  repeat (rewrite ?dict_get_set_eq, ?dict_get_pop_eq in *);
  autorewrite with dict in *;
  repeat case_decide; simplify_eq; try done.
