(* ===== verification/PyText.v ===== *)
(** Python's [str] as a list of code points: stripping, joining, and decimal
    numerals.

    Beyond ASCII, which code points are digits for [str.isdigit] and which of
    them have a decimal value for [int] is the Unicode database's: two functions
    that the definitions take.  Python refuses to convert a number of more than
    4300 digits. *)

From S2P Require Import Prelude PyDict.

Abbreviation text := (list N) (only parsing).

(** ** Python's [str.strip] and [str.join] *)

Definition py_isspace (c : N) : bool :=
  ((9 <=? c) && (c <=? 13) || (28 <=? c) && (c <=? 32) || (c =? 133) || (c =? 160) || (c =? 5760)
   || (8192 <=? c) && (c <=? 8202) || (c =? 8232) || (c =? 8233) || (c =? 8239) || (c =? 8287) || (c =? 12288))%N.

Fixpoint lstrip (t : text) : text :=
  match t with c :: t' => if py_isspace c then lstrip t' else t | [] => [] end.

Definition strip (t : text) : text := reverse (lstrip (reverse (lstrip t))).

Fixpoint join (l : list text) : text :=
  match l with
  | [] => []
  | [t] => t
  | t :: l' => t ++ 32%N :: join l'
  end.

Class UnicodeDigits := {
  other_digit : N → bool;             (* [isdigit] beyond ASCII *)
  other_decimal : N → option N        (* the value [int] gives the code point *)
}.

Section numerals.
Context `{UnicodeDigits}.
Implicit Types (t : list N) (n : N).

Definition ascii_digit (c : N) : bool := ((48 <=? c) && (c <=? 57))%N.

(** ** Decimal numerals *)

(** [str(n)]; the quotient loses a binary digit per round *)
Fixpoint decimal_digits (fuel : nat) n t : list N :=
  match fuel with
  | O => t
  | S fuel => if (n <? 10)%N then (48 + n)%N :: t else decimal_digits fuel (n / 10) ((48 + n mod 10)%N :: t)
  end.

Definition decimal n : list N := decimal_digits (S (N.to_nat (N.log2 n))) n [].

(** [str.isdigit] *)
Definition isdigit t : bool :=
  negb (bool_decide (t = [])) && forallb (λ c, if (c <? 128)%N then ascii_digit c else other_digit c) t.

Definition digit_value (c : N) : option N :=
  if (c <? 128)%N then if ascii_digit c then Some (c - 48)%N else None else other_decimal c.

Definition MAX_STR_DIGITS : nat := 4300.

(** [int(t)] for a text of digits *)
Fixpoint digits_value (acc : N) t : option N :=
  match t with
  | [] => Some acc
  | c :: t' => match digit_value c with Some d => digits_value (10 * acc + d) t' | None => None end
  end.

Definition py_int t : result N :=
  if decide (MAX_STR_DIGITS < length t)%nat then Raise (ValueError "Exceeds the limit for integer string conversion")
  else match digits_value 0 t with
       | Some n => Ret n
       | None => Raise (ValueError "invalid literal for int() with base 10")
       end.

(** ** Facts *)

Lemma ascii_digit_value c : ascii_digit c = true → (c <? 128)%N = true ∧ digit_value c = Some (c - 48)%N.
Proof.
  intros Hc. pose proof Hc as [H1 H2]%andb_true_iff. apply N.leb_le in H1, H2.
  assert ((c <? 128)%N = true) as E by (apply N.ltb_lt; lia). split; [done|]. unfold digit_value. by rewrite E, Hc.
Qed.

Lemma digit_of n : (n < 10)%N → ascii_digit (48 + n) = true.
Proof. intros Hn. apply andb_true_iff. split; apply N.leb_le; lia. Qed.

Lemma decimal_digits_ok fuel n t :
  Forall (λ c, ascii_digit c = true) t → Forall (λ c, ascii_digit c = true) (decimal_digits fuel n t).
Proof.
  revert n t. induction fuel as [|fuel IH]; intros n t Ht; [done|]. simpl. destruct (n <? 10)%N eqn:E.
  - constructor; [|done]. apply digit_of. by apply N.ltb_lt.
  - apply IH. constructor; [|done]. apply digit_of. apply N.mod_lt. lia.
Qed.

Lemma digits_value_app acc t u :
  Forall (λ c, ascii_digit c = true) t →
  digits_value acc (t ++ u) = match digits_value acc t with Some n => digits_value n u | None => None end.
Proof.
  revert acc. induction t as [|c t IH]; intros acc Ht; [done|]. apply Forall_cons in Ht as [Hc Ht]. simpl.
  destruct (ascii_digit_value c Hc) as [_ ->]. by apply IH.
Qed.

Lemma decimal_digits_app fuel n t : decimal_digits fuel n t = decimal_digits fuel n [] ++ t.
Proof.
  revert n t. induction fuel as [|fuel IH]; intros n t; [done|]. simpl. destruct (n <? 10)%N; [done|].
  rewrite IH, (IH _ [_]), <- app_assoc. done.
Qed.

Lemma log2_div10 n : (10 <= n)%N → (N.to_nat (N.log2 (n / 10)) < N.to_nat (N.log2 n))%nat.
Proof.
  intros Hn. assert (n / 10 <= n / 2)%N as Hle by (apply N.div_le_compat_l; lia).
  assert (N.log2 (n / 2) = N.log2 n - 1)%N as E by (rewrite <- N.shiftr_div_pow2 with (n := 1%N); apply N.log2_shiftr).
  pose proof (N.log2_le_mono _ _ Hle). assert (N.log2 4 <= N.log2 n)%N as H4 by (apply N.log2_le_mono; lia).
  change (N.log2 4) with 2%N in H4. lia.
Qed.

Lemma decimal_digits_value fuel n :
  (N.to_nat (N.log2 n) < fuel)%nat → digits_value 0 (decimal_digits fuel n []) = Some n ∧ decimal_digits fuel n [] ≠ [].
Proof.
  revert n. induction fuel as [|fuel IH]; intros n Hf; [lia|]. simpl. destruct (n <? 10)%N eqn:E.
  - apply N.ltb_lt in E. split; [|done]. cbn [digits_value]. destruct (ascii_digit_value _ (digit_of n E)) as [_ ->]. cbn [digits_value]. f_equal. lia.
  - apply N.ltb_ge in E. rewrite decimal_digits_app. pose proof (log2_div10 n E) as Hs.
    destruct (IH (n / 10)%N ltac:(lia)) as [Hv Hne]. split; [|by destruct (decimal_digits fuel (n / 10) [])].
    rewrite digits_value_app by (apply decimal_digits_ok; constructor). rewrite Hv. cbn [digits_value].
    assert (n mod 10 < 10)%N as Hm by (apply N.mod_lt; lia).
    destruct (ascii_digit_value _ (digit_of _ Hm)) as [_ ->]. cbn [digits_value]. f_equal.
    pose proof (N.div_mod' n 10) as Hdm. rewrite (N.add_comm 48), N.add_sub. by symmetry.
Qed.

Lemma decimal_isdigit n : isdigit (decimal n) = true.
Proof.
  destruct (decimal_digits_value (S (N.to_nat (N.log2 n))) n ltac:(lia)) as [_ Hne]. unfold isdigit.
  rewrite bool_decide_false by exact Hne. apply forallb_forall. intros c Hc%list_elem_of_In.
  pose proof (decimal_digits_ok (S (N.to_nat (N.log2 n))) n [] ltac:(constructor)) as Hd. rewrite Forall_forall in Hd.
  destruct (ascii_digit_value c (Hd c Hc)) as [-> _]. by apply Hd.
Qed.
End numerals.
