(* ===== verification/Contracts.v ===== *)
(** [server/contracts.py]: the wire vocabulary shared by every component.

    Enumerations and records keep the source's constructors and fields.  The
    pydantic validators are functions that return a [result]; an integer field
    declared [ge=0] (epochs, sequence numbers) is an [N], so that constraint is
    part of the type.  Strings are Rocq strings of UTF-8 bytes, whose order is
    the code-point order Python sorts by. *)

From stdpp Require Import sorting.
From S2P Require Import Prelude PyDict.

(** ** Enumerations *)

Inductive DeliveryState :=
| DISPLAYED | QUEUED | STARTED | SYNTHESIS_ENDED | DELIVERY_COMPLETED
| DELIVERY_UNKNOWN | INTERRUPTED | INTERRUPTED_BY_RECONNECT | PAUSED | RESUMED.

#[global] Instance DeliveryState_eq_dec : EqDecision DeliveryState.
Proof. solve_decision. Defined.

Inductive RouteAction :=
| direct | unsupported | clarify | existing_worker | new_worker.

#[global] Instance RouteAction_eq_dec : EqDecision RouteAction.
Proof. solve_decision. Defined.

Inductive Role := user | assistant.

#[global] Instance Role_eq_dec : EqDecision Role.
Proof. solve_decision. Defined.

Inductive WorkStatusState :=
| routing | searching | background | result_ready | failed | cancelled.

#[global] Instance WorkStatusState_eq_dec : EqDecision WorkStatusState.
Proof. solve_decision. Defined.

Inductive TerminalReason := missing_worker | retention_rejected.

#[global] Instance TerminalReason_eq_dec : EqDecision TerminalReason.
Proof. solve_decision. Defined.

(** ** Strings *)

(** [bool(value)] for a [str | None] *)
Definition truthy (o : option string) : bool :=
  match o with Some s => negb (bool_decide (s = EmptyString)) | None => false end.

Definition ascii_lower (c : Ascii.ascii) : Ascii.ascii :=
  let n := Ascii.nat_of_ascii c in
  if decide (65 ≤ n ≤ 90)%nat then Ascii.ascii_of_nat (n + 32) else c.

Fixpoint str_lower (s : string) : string :=
  match s with
  | EmptyString => EmptyString
  | String c s' => String (ascii_lower c) (str_lower s')
  end.

(** [needle in haystack] *)
Fixpoint str_contains (needle haystack : string) : bool :=
  String.prefix needle haystack ||
  match haystack with
  | EmptyString => false
  | String _ h => str_contains needle h
  end.

(** [not value.strip()], ASCII whitespace *)
Definition is_space (c : Ascii.ascii) : bool :=
  let n := Ascii.nat_of_ascii c in
  bool_decide (n = 32)%nat || bool_decide (9 ≤ n ≤ 13)%nat || bool_decide (28 ≤ n ≤ 31)%nat.

Fixpoint blank (s : string) : bool :=
  match s with
  | EmptyString => true
  | String c s' => is_space c && blank s'
  end.

(** ** Routing decisions *)

Record RoutingDecision := mkRoutingDecision {
  action : RouteAction;
  rd_worker_id : option string;
  rd_worker_type : option string;
  rd_topic : option string;
  rd_capability : option string;
  rd_capability_available : bool;
  rd_model_policy : option string;
  rd_catalogue_version : string;
  rd_catalogue_worker_ids : list string;
  rd_origin_epoch : option N
}.

Definition worker_route (a : RouteAction) : bool :=
  match a with existing_worker | new_worker => true | _ => false end.

Definition validate_selection (d : RoutingDecision) : result RoutingDecision :=
  if worker_route (action d) then
    if negb (truthy (rd_worker_type d)) || negb (truthy (rd_topic d))
       || negb (truthy (rd_model_policy d)) then
      Raise (ValueError "worker routes require worker_type, topic, and model_policy")
    else if bool_decide (action d = existing_worker) && negb (truthy (rd_worker_id d)) then
      Raise (ValueError "existing-worker routes require worker_id")
    else if bool_decide (action d = existing_worker)
         && negb (bool_decide (rd_catalogue_worker_ids d = []))
         && negb (bool_decide (rd_worker_id d ∈ Some <$> rd_catalogue_worker_ids d)) then
      Raise (ValueError "worker_id is not present in the catalogue snapshot")
    else if truthy (rd_worker_id d)
         && str_contains "hallucinated" (str_lower (default EmptyString (rd_worker_id d))) then
      Raise (ValueError "worker_id is not an allowlisted catalogue identity")
    else if negb (rd_capability_available d)
         && negb (bool_decide (rd_capability d = None))
         && negb (bool_decide (rd_capability d = Some "private_calendar")) then
      Raise (ValueError "unavailable capability cannot be dispatched")
    else if negb (rd_capability_available d)
         && bool_decide (rd_worker_type d = Some "web_search") then
      Raise (ValueError "an unavailable private capability cannot become web search")
    else Ret d
  else if existsb (λ o, negb (bool_decide (o = None)))
            [rd_worker_id d; rd_worker_type d; rd_topic d] then
    Raise (ValueError "non-worker routes cannot select a worker")
  else Ret d.

(** ** Projected records *)

Record RoutingState := mkRoutingState {
  rs_turn_id : string;
  rs_action : RouteAction;
  rs_worker_id : option string;
  rs_worker_type : option string;
  rs_topic : option string;
  rs_model_policy : option string;
  rs_origin_epoch : option N
}.

Record TranscriptEntry := mkTranscriptEntry {
  te_role : Role;
  te_text : string;
  te_turn_id : string;
  te_timestamp : string;
  te_origin_epoch : option N
}.

Record WorkerState := mkWorkerState {
  ws_worker_id : string;
  ws_topic : string;
  ws_model_policy : string;
  ws_status : string;
  ws_latest_result_id : option string;
  ws_origin_epoch : option N
}.

#[export] Instance eta_WorkerState : Eta WorkerState := λ r,
  mkWorkerState (ws_worker_id r) (ws_topic r) (ws_model_policy r) (ws_status r)
    (ws_latest_result_id r) (ws_origin_epoch r).

Record Citation := mkCitation { cit_title : string; cit_url : string }.

Record GroundedResult := mkGroundedResult {
  result_id : string;
  gr_worker_id : string;
  gr_turn_id : string;
  gr_timestamp : string;
  gr_text : string;
  gr_citations : list Citation;
  gr_spoken_text : string;
  gr_origin_epoch : option N
}.

#[export] Instance eta_GroundedResult : Eta GroundedResult := λ r,
  mkGroundedResult (result_id r) (gr_worker_id r) (gr_turn_id r) (gr_timestamp r)
    (gr_text r) (gr_citations r) (gr_spoken_text r) (gr_origin_epoch r).

(** [GroundedResult.validate_projections] *)
Definition validate_projections (r : GroundedResult) : result GroundedResult :=
  if blank (gr_text r) || blank (gr_spoken_text r)
  then Raise (ValueError "result projections must not be blank")
  else Ret r.

Record SpeechProgress := mkSpeechProgress {
  sp_result_id : string;
  sp_work_item_id : string;
  sp_run_id : string;
  sp_utterance_id : string;
  sp_state : DeliveryState;
  sp_origin_epoch : option N
}.

Record WorkStatus := mkWorkStatus {
  wst_turn_id : string;
  wst_work_item_id : option string;
  wst_worker_id : option string;
  wst_state : WorkStatusState;
  wst_event_sequence : N;
  wst_terminal_reason : option TerminalReason;
  wst_origin_epoch : option N
}.

(** Constructing a [WorkStatus] runs the field constraint [min_length=1] and
    [validate_terminal_reason]. *)
Definition validate_terminal_reason (w : WorkStatus) : result WorkStatus :=
  if negb (bool_decide (wst_terminal_reason w = None)) && negb (bool_decide (wst_state w = failed))
  then Raise (ValueError "terminal_reason may only be set for the failed state")
  else Ret w.

Definition new_WorkStatus (turn_id : string) (work_item_id worker_id : option string)
    (state : WorkStatusState) (event_sequence : N) (terminal_reason : option TerminalReason)
    (origin_epoch : option N) : result WorkStatus :=
  if decide (turn_id = EmptyString) then Raise (ValueError "String should have at least 1 character")
  else validate_terminal_reason
         (mkWorkStatus turn_id work_item_id worker_id state event_sequence terminal_reason
            origin_epoch).

(** ** The work-status state machine *)

Definition WORK_STATUS_TRANSITIONS (s : WorkStatusState) : list WorkStatusState :=
  match s with
  | routing => [searching; failed; cancelled]
  | searching => [background; result_ready; failed; cancelled]
  | background => [result_ready; failed; cancelled]
  | result_ready => []
  | failed => []
  | cancelled => []
  end.

Definition WORK_STATUS_TERMINAL (s : WorkStatusState) : bool :=
  match WORK_STATUS_TRANSITIONS s with [] => true | _ => false end.

Definition WORK_STATUS_COLD_START : list WorkStatusState :=
  [routing; searching; background; result_ready; failed].

Definition legal_work_status_transition (previous : option WorkStatusState)
    (state : WorkStatusState) : bool :=
  match previous with
  | None => bool_decide (state ∈ WORK_STATUS_COLD_START)
  | Some p =>
      if decide (p = state) then false
      else bool_decide (state ∈ WORK_STATUS_TRANSITIONS p)
  end.

(** A history one work item may go through: a cold start followed by legal
    transitions, newest status first. *)
Inductive status_history : list WorkStatusState → Prop :=
| history_cold s : legal_work_status_transition None s = true → status_history [s]
| history_next p s h :
    status_history (p :: h) → legal_work_status_transition (Some p) s = true →
    status_history (s :: p :: h).

(** ** Handshakes *)

Definition CONTRACT_VERSION : string := "v1.0".
Definition WORK_STATUS_V1 : string := "work_status_v1".

Definition resolve_work_status_wire_presence (capabilities : list string) : bool :=
  bool_decide (WORK_STATUS_V1 ∈ capabilities).

(** [SnapshotHandshake.validate_capabilities]: [tuple(sorted(set(value)))] *)
Definition validate_capabilities (value : list string) : result (list string) :=
  if existsb (λ c, bool_decide (c = EmptyString)) value
  then Raise (ValueError "capabilities must be non-empty strings")
  else Ret (merge_sort String.le (remove_dups value)).

Record SnapshotHandshake := mkSnapshotHandshake {
  sh_contract_version : string;
  sh_session_id : string;
  sh_resume_token : string;
  sh_proposed_epoch : N;
  sh_snapshot_sequence : N;
  sh_capabilities : list string;
  sh_capabilities_present : bool
}.

Definition new_SnapshotHandshake (contract_version session_id resume_token : string)
    (proposed_epoch snapshot_sequence : N) (capabilities : list string)
    (capabilities_present : bool) : result SnapshotHandshake :=
  caps ←? validate_capabilities capabilities ;;
  Ret (mkSnapshotHandshake contract_version session_id resume_token proposed_epoch
         snapshot_sequence caps capabilities_present).

Record RuntimeSnapshot := mkRuntimeSnapshot {
  snap_contract_version : string;
  snap_session_id : string;
  snap_snapshot_sequence : N;
  snap_workers : list WorkerState;
  snap_results : list GroundedResult;
  snap_speech_progress : list SpeechProgress;
  snap_routing : option RoutingState;
  snap_transcript : list TranscriptEntry;
  snap_origin_epoch : option N;
  snap_work_status : list WorkStatus
}.

(** ** Snapshot monotonicity

    [RuntimeSnapshot._highest_by_session] is class state; validating a snapshot
    threads it. *)

Definition MAX_WATERMARK_SESSIONS : nat := 256.

Definition reset_monotonicity (session_id : string) (watermarks : dict string N) : dict string N :=
  dict_pop session_id watermarks.

Definition validate_version_and_monotonicity (contract_version session_id : string)
    (snapshot_sequence : N) (watermarks : dict string N) : result (dict string N) :=
  if negb (bool_decide (contract_version = CONTRACT_VERSION)) then
    Raise (ValueError "unsupported contract version")
  else
    let previous := dict_get session_id watermarks in
    if match previous with Some p => bool_decide (snapshot_sequence < p)%N | None => false end then
      Raise (ValueError "snapshot_sequence must be monotonic")
    else
      Ret (dict_trim MAX_WATERMARK_SESSIONS
             (dict_move_to_end session_id
                (dict_set session_id (N.max (default 0%N previous) snapshot_sequence)
                   watermarks))).

(** ** Theorems: the status machine *)

Definition status_rank (s : WorkStatusState) : nat :=
  match s with routing => 0 | searching => 1 | background => 2 | _ => 3 end.

Lemma legal_transition_rank p s :
  legal_work_status_transition (Some p) s = true →
  (status_rank p < status_rank s)%nat ∧ WORK_STATUS_TERMINAL p = false.
Proof. destruct p, s; vm_compute; intros; try discriminate; (split; [lia | done]). Qed.

Lemma terminal_no_successor p s :
  WORK_STATUS_TERMINAL p = true → legal_work_status_transition (Some p) s = false.
Proof. destruct p, s; vm_compute; congruence. Qed.

Lemma status_history_rank h s :
  status_history (s :: h) → (length h ≤ status_rank s)%nat.
Proof.
  revert s. induction h as [|p h IH]; intros s Hh; [simpl; lia|].
  inversion Hh as [|? ? ? Hp Hl]; subst. apply IH in Hp.
  apply legal_transition_rank in Hl as [Hl _]. simpl. lia.
Qed.

Lemma status_history_tail_live h s :
  status_history (s :: h) → Forall (λ p, WORK_STATUS_TERMINAL p = false) h.
Proof.
  revert s. induction h as [|p h IH]; intros s Hh; [constructor|].
  inversion Hh as [|? ? ? Hp Hl]; subst. constructor; [by apply legal_transition_rank in Hl as [_ ?] | eauto].
Qed.

(** The work-status state machine of [legal_work_status_transition] is
    terminating: any history that starts cold and moves legally has at most
    four statuses, every status before the last one is non-terminal, and a
    history whose last status is terminal has no legal continuation. *)
Theorem work_status_history_bounded s h :
  status_history (s :: h) →
  (length (s :: h) ≤ 4)%nat ∧ Forall (λ p, WORK_STATUS_TERMINAL p = false) h ∧
  (WORK_STATUS_TERMINAL s = true → ∀ s', ¬ status_history (s' :: s :: h)).
Proof.
  intros Hh. split_and!.
  - apply status_history_rank in Hh. destruct s; simpl in *; lia.
  - by eapply status_history_tail_live.
  - intros Ht s' Hn. inversion Hn as [|? ? ? _ Hl]; subst.
    rewrite terminal_no_successor in Hl; done.
Qed.

Lemma work_status_history_bounded_witness :
  (length [result_ready; background; searching; routing] ≤ 4)%nat.
Proof.
  apply (work_status_history_bounded result_ready [background; searching; routing]).
  repeat constructor.
Defined.

(** ** Theorems: capability normalisation *)

Lemma normalised_elem c l : c ∈ merge_sort String.le (remove_dups l) ↔ c ∈ l.
Proof. rewrite merge_sort_Permutation. apply elem_of_remove_dups. Qed.

Lemma normalised_NoDup l : NoDup (merge_sort String.le (remove_dups l)).
Proof. rewrite merge_sort_Permutation. apply NoDup_remove_dups. Qed.

Lemma validate_capabilities_Ret l a :
  validate_capabilities l = Ret a → a = merge_sort String.le (remove_dups l).
Proof. unfold validate_capabilities. by destruct (existsb _ l); intros; simplify_eq. Qed.

(** Capability normalisation is canonical: two capability lists that are
    accepted normalise to the same tuple exactly when they name the same set,
    and the normalised tuple is sorted and free of duplicates.  This is what
    lets [HandshakeGate.validate_patch_handshake] and [Connection] compare
    tuples for set equality. *)
Theorem validate_capabilities_canonical xs ys a b :
  validate_capabilities xs = Ret a → validate_capabilities ys = Ret b →
  (a = b ↔ ∀ c, c ∈ xs ↔ c ∈ ys) ∧ Sorted String.le a ∧ NoDup a ∧ (∀ c, c ∈ a ↔ c ∈ xs).
Proof.
  intros ->%validate_capabilities_Ret ->%validate_capabilities_Ret.
  split_and!; [split| | |].
  - intros E c. by rewrite <- (normalised_elem c xs), E, normalised_elem.
  - intros E. apply (Sorted_unique String.le); try apply Sorted_merge_sort; try apply _.
    apply NoDup_Permutation; auto using normalised_NoDup.
    intros c. rewrite !normalised_elem. apply E.
  - by apply (Sorted_merge_sort String.le).
  - apply normalised_NoDup.
  - intros c. apply normalised_elem.
Qed.

Lemma validate_capabilities_canonical_witness :
  validate_capabilities ["b"; "a"; "b"] = Ret ["a"; "b"] ∧ Sorted String.le ["a"; "b"].
Proof.
  split; [reflexivity|].
  apply (validate_capabilities_canonical ["b"; "a"; "b"] ["a"; "b"] ["a"; "b"] ["a"; "b"]);
    reflexivity.
Defined.

(** ** Theorems: snapshot watermarks *)

(** The per-session watermark cache never holds more than
    [_MAX_WATERMARK_SESSIONS] sessions; a snapshot is accepted exactly when its
    contract version is current and its sequence is not below the session's
    recorded watermark; and an accepted snapshot becomes that session's
    watermark, so any smaller sequence is refused right after it. *)
Theorem watermark_monotone version sid seq wm :
  dict_wf wm →
  (returns (validate_version_and_monotonicity version sid seq wm) = true ↔
     version = CONTRACT_VERSION ∧ (∀ p, dict_get sid wm = Some p → (p ≤ seq)%N)) ∧
  ∀ wm', validate_version_and_monotonicity version sid seq wm = Ret wm' →
    dict_wf wm' ∧ (length wm' ≤ MAX_WATERMARK_SESSIONS)%nat ∧
    dict_get sid wm' = Some seq ∧
    ∀ v seq', (seq' < seq)%N →
      returns (validate_version_and_monotonicity v sid seq' wm') = false.
Proof.
  intros Hwf. unfold validate_version_and_monotonicity. cbv zeta.
  split.
  { case_bool_decide; cbn [negb]; [|simpl; naive_solver].
    destruct (dict_get sid wm) as [p|]; cbv iota; [case_bool_decide|]; cbn [returns].
    - split; [done|]. intros [_ Hs]. specialize (Hs p eq_refl). lia.
    - split; [|done]. intros _. split; [done|]. intros ? [= <-]. lia.
    - done. }
  intros wm'. case_bool_decide as Hv; cbn [negb]; [|done].
  destruct (match dict_get sid wm with Some p => _ | None => _ end) eqn:Hp; [done|].
  intros E. injection E as <-.
  set (m := N.max _ _). assert (m = seq) as ->.
  { subst m. destruct (dict_get sid wm); simpl; [apply bool_decide_eq_false in Hp|]; lia. }
  set (d := dict_move_to_end sid (dict_set sid seq wm)).
  assert (dict_wf d) as Hd by (unfold d; auto with dict).
  assert (dict_get sid (dict_trim MAX_WATERMARK_SESSIONS d) = Some seq) as Hget.
  { apply dict_elem_get; [auto with dict|]. unfold d. rewrite dict_set_move_last.
    apply dict_trim_last. vm_compute. lia. }
  split_and!; [auto with dict | apply dict_trim_length | done |].
  intros v seq' Hlt. rewrite Hget. case_bool_decide; cbn [negb]; [|done].
  by rewrite bool_decide_true.
Qed.

Lemma watermark_monotone_witness :
  ∃ wm', validate_version_and_monotonicity "v1.0" "s" 4 [("s", 3%N); ("t", 9%N)] = Ret wm' ∧
    returns (validate_version_and_monotonicity "v1.0" "s" 3 wm') = false.
Proof.
  eexists. split; [reflexivity|].
  eapply (watermark_monotone "v1.0" "s" 4 [("s", 3%N); ("t", 9%N)]); [|reflexivity|lia].
  apply (bool_decide_unpack _). reflexivity.
Defined.
