(* ===== verification/SessionState.v ===== *)
(** [server/session_state.py] (and [ResultLog] of [server/results.py]): the
    authoritative process-lifetime session state.

    One [SessionState] record holds every attribute of the Python object.  The
    module constants read from [shared/work-status-retention.json] are the
    fields of [RetentionConfig].  A clock reading ([time.monotonic()]) is an
    argument [now] of each operation that takes one, a generated identifier an
    argument of the constructor.  Listeners are named by numbers; [outbox]
    records the calls [_emit] makes to them.  An operation that can raise after
    it has mutated the object returns the object and a [result]. *)

From S2P Require Import Prelude PyDict Contracts.

(** ** Result log *)

(** [ResultLog.append] *)
Definition ResultLog_append (result : GroundedResult) (log : list GroundedResult)
    : Prelude.result (list GroundedResult) :=
  if existsb (λ existing, bool_decide (result_id existing = result_id result)) log
  then Raise (ValueError "duplicate result")
  else Ret (log ++ [result]).

(** [ResultLog.for_worker] *)
Definition for_worker (worker_id : string) (log : list GroundedResult) : list GroundedResult :=
  filter (λ r, gr_worker_id r = worker_id) log.

(** ** Data *)

(** [list] of an optional value *)
Definition option_list {A} (o : option A) : list A :=
  match o with Some a => [a] | None => [] end.

Class RetentionConfig := {
  WORK_STATUS_TTL_SECONDS : Q;
  MAX_WORK_STATUS_KEYS : nat
}.

(** [_RETENTION_FALLBACK], equal to the checked-in configuration file *)
Definition RETENTION_FALLBACK : RetentionConfig :=
  {| WORK_STATUS_TTL_SECONDS := 300; MAX_WORK_STATUS_KEYS := 256 |}.

Definition MAX_EVENTS : nat := 2000.

(** [_TERMINAL] and [_RANK] *)
Definition delivery_terminal (s : DeliveryState) : bool :=
  match s with
  | DELIVERY_COMPLETED | DELIVERY_UNKNOWN | INTERRUPTED | INTERRUPTED_BY_RECONNECT => true
  | _ => false
  end.

Definition delivery_rank (s : DeliveryState) : nat :=
  match s with
  | DISPLAYED => 0 | QUEUED => 1 | STARTED => 2 | SYNTHESIS_ENDED => 3 | PAUSED => 3
  | RESUMED => 2 | DELIVERY_UNKNOWN => 5 | DELIVERY_COMPLETED => 6 | INTERRUPTED => 7
  | INTERRUPTED_BY_RECONNECT => 8
  end.

Inductive EventPayload :=
| PWorker (w : WorkerState)
| PRouting (r : RoutingState)
| PTranscript (t : TranscriptEntry)
| PResult (r : GroundedResult)
| PSpeech (p : SpeechProgress)
| PWorkStatus (w : WorkStatus).

Record StateEvent := mkStateEvent {
  ev_sequence : N;
  ev_kind : string;
  ev_payload : EventPayload
}.

Record WorkStatusKey := mkKey {
  key_origin_epoch : option N;
  key_turn_id : string;
  key_parent_key : string
}.

#[global] Instance WorkStatusKey_eq_dec : EqDecision WorkStatusKey.
Proof. solve_decision. Defined.

#[global] Instance WorkStatusKey_countable : Countable WorkStatusKey.
Proof.
  refine (inj_countable' (λ k, (key_origin_epoch k, key_turn_id k, key_parent_key k))
            (λ t, mkKey t.1.1 t.1.2 t.2) _). by intros [].
Defined.

Record WorkStatusRecord := mkRecord {
  rec_status : WorkStatus;
  rec_terminal_at : option Q
}.

Record SessionState := mkSessionState {
  session_id : string;
  resume_token : string;
  sequence : N;
  workers : dict string WorkerState;
  results : list GroundedResult;
  speech : dict string SpeechProgress;
  routing_now : option RoutingState;
  transcript : list TranscriptEntry;
  events : list StateEvent;
  active_epoch : option N;
  speech_log : dict string (list SpeechProgress);
  listeners : list nat;
  outbox : list (nat * StateEvent);
  ws_children : dict WorkStatusKey (dict string WorkStatus);
  ws_parents : dict WorkStatusKey WorkStatusRecord;
  ws_sequence : dict WorkStatusKey N;
  ws_terminal_keys : gset WorkStatusKey;
  ws_nonauthoritative_keys : gset WorkStatusKey;
  ws_nonauthoritative_at : dict WorkStatusKey Q
}.

#[export] Instance eta_SessionState : Eta SessionState := λ r,
  mkSessionState (session_id r) (resume_token r) (sequence r) (workers r) (results r)
    (speech r) (routing_now r) (transcript r) (events r) (active_epoch r) (speech_log r)
    (listeners r) (outbox r) (ws_children r) (ws_parents r) (ws_sequence r)
    (ws_terminal_keys r) (ws_nonauthoritative_keys r) (ws_nonauthoritative_at r).

(** [__init__]: also resets this session's snapshot watermark *)
Definition SessionState_init (sid token : string) (watermarks : dict string N)
    : SessionState * dict string N :=
  (mkSessionState sid token 0 [] [] [] None [] [] None [] [] [] [] [] [] ∅ ∅ [],
   reset_monotonicity sid watermarks).

(** ** Events *)

Definition subscribe (listener : nat) (s : SessionState) : SessionState :=
  s <| listeners := listeners s ++ [listener] |>.

(** [list.remove]: the first occurrence, no effect when absent *)
Fixpoint remove_first (x : nat) (l : list nat) : list nat :=
  match l with
  | [] => []
  | y :: l' => if decide (x = y) then l' else y :: remove_first x l'
  end.

Definition unsubscribe (listener : nat) (s : SessionState) : SessionState :=
  s <| listeners := remove_first listener (listeners s) |>.

Definition emit (kind : string) (payload : EventPayload) (s : SessionState)
    : SessionState * StateEvent :=
  let seq := (sequence s + 1)%N in
  let event := mkStateEvent seq kind payload in
  (s <| sequence := seq |>
     <| events := deque_append MAX_EVENTS event (events s) |>
     <| outbox := outbox s ++ ((λ l, (l, event)) <$> listeners s) |>,
   event).

(** [self.active_epoch is not None and (origin is None or origin != active_epoch)] *)
Definition fenced (s : SessionState) (origin : option N) : bool :=
  match active_epoch s with
  | None => false
  | Some e => negb (bool_decide (origin = Some e))
  end.

Definition emitted {A} (p : SessionState * A) : SessionState * option A := (p.1, Some p.2).

Definition set_worker (worker : WorkerState) (s : SessionState) : SessionState * option StateEvent :=
  if fenced s (ws_origin_epoch worker) then (s, None)
  else emitted (emit "worker" (PWorker worker)
                  (s <| workers := dict_set (ws_worker_id worker) worker (workers s) |>)).

Definition set_routing (r : RoutingState) (s : SessionState) : SessionState * option StateEvent :=
  if fenced s (rs_origin_epoch r) then (s, None)
  else emitted (emit "routing" (PRouting r) (s <| routing_now := Some r |>)).

Definition same_entry (a b : TranscriptEntry) : bool :=
  bool_decide (te_role a = te_role b) && bool_decide (te_turn_id a = te_turn_id b)
  && bool_decide (te_text a = te_text b).

Definition append_transcript (entry : TranscriptEntry) (s : SessionState)
    : SessionState * option StateEvent :=
  if fenced s (te_origin_epoch entry) then (s, None)
  else if existsb (λ item, same_entry item entry) (transcript s) then (s, None)
  else
    let kind := if decide (te_role entry = user) then "user_transcript" else "bot_transcript" in
    emitted (emit kind (PTranscript entry) (s <| transcript := transcript s ++ [entry] |>)).

(** ** Results

    [ResultLog.append] raises on a duplicate identifier; [append_result] has
    already returned in that case. *)

Definition log_result (r : GroundedResult) (s : SessionState)
    : SessionState * Prelude.result (option StateEvent) :=
  match ResultLog_append r (results s) with
  | Raise e => (s, Raise e)
  | Ret log =>
      let (s', ev) := emit "result" (PResult r) (s <| results := log |>) in (s', Ret (Some ev))
  end.

Definition append_result (r : GroundedResult) (seq : option N) (origin : option N)
    (s : SessionState) : SessionState * Prelude.result (option StateEvent) :=
  if negb (bool_decide (active_epoch s = None)) && bool_decide (origin = None) then (s, Ret None)
  else if negb (bool_decide (origin = None)) && negb (bool_decide (gr_origin_epoch r = None))
       && negb (bool_decide (origin = gr_origin_epoch r)) then (s, Ret None)
  else
    let r := if negb (bool_decide (origin = None)) && bool_decide (gr_origin_epoch r = None)
             then r <| gr_origin_epoch := origin |> else r in
    if existsb (λ item, bool_decide (result_id item = result_id r)) (results s)
    then (s, Ret None)
    else
      let effective_epoch := match origin with Some _ => origin | None => gr_origin_epoch r end in
      if negb (bool_decide (active_epoch s = None))
         && negb (bool_decide (effective_epoch = active_epoch s))
      then log_result r s
      else
        let s := match seq with
                 | Some q => if decide (sequence s < q)%N then s <| sequence := (q - 1)%N |> else s
                 | None => s
                 end in
        match ResultLog_append r (results s) with
        | Raise e => (s, Raise e)
        | Ret log =>
            let s := s <| results := log |> in
            let s := match dict_get (gr_worker_id r) (workers s) with
                     | Some w =>
                         s <| workers := dict_set (gr_worker_id r)
                                (w <| ws_latest_result_id := Some (result_id r) |>) (workers s) |>
                     | None => s
                     end in
            let (s', ev) := emit "result" (PResult r) s in (s', Ret (Some ev))
        end.

(** ** Speech delivery *)

Definition speech_progress (rid wid run uid : string) (state : DeliveryState)
    (origin : option N) (allow_stale_reconnect : bool) (s : SessionState)
    : SessionState * SpeechProgress :=
  let progress := mkSpeechProgress rid wid run uid state origin in
  if fenced s origin && negb allow_stale_reconnect
  then (s, default progress (dict_get uid (speech s)))
  else
    match dict_get uid (speech s) with
    | Some previous =>
        if delivery_terminal (sp_state previous) then (s, previous)
        else if decide (delivery_rank state < delivery_rank (sp_state previous))%nat
        then (s, previous)
        else
          let s := s <| speech := dict_set uid progress (speech s) |>
                     <| speech_log := dict_set uid
                          (default [] (dict_get uid (speech_log s)) ++ [progress]) (speech_log s) |>
          in ((emit "speech_progress" (PSpeech progress) s).1, progress)
    | None =>
        let s := s <| speech := dict_set uid progress (speech s) |>
                   <| speech_log := dict_set uid
                        (default [] (dict_get uid (speech_log s)) ++ [progress]) (speech_log s) |>
        in ((emit "speech_progress" (PSpeech progress) s).1, progress)
    end.

Definition apply_speech_progress (p : SpeechProgress) (origin : option N)
    (allow_stale_reconnect : bool) (s : SessionState) : SessionState * SpeechProgress :=
  speech_progress (sp_result_id p) (sp_work_item_id p) (sp_run_id p) (sp_utterance_id p)
    (sp_state p) (match origin with Some _ => origin | None => sp_origin_epoch p end)
    allow_stale_reconnect s.

Definition speech_history (uid : string) (s : SessionState) : list SpeechProgress :=
  default [] (dict_get uid (speech_log s)).

(** ** Progressive work status *)

Section work_status.
Context {retention : RetentionConfig}.

Definition aggregate (children : list WorkStatus) : WorkStatusState * option TerminalReason :=
  if existsb (λ c, bool_decide (wst_state c = routing)) children then (routing, None)
  else if existsb (λ c, bool_decide (wst_state c = searching)) children then (searching, None)
  else if existsb (λ c, negb (WORK_STATUS_TERMINAL (wst_state c))) children then (background, None)
  else
    let failures := filter (λ c, wst_state c = failed) children in
    match failures with
    | _ :: _ => (failed, head (omap wst_terminal_reason failures))
    | [] =>
        if forallb (λ c, bool_decide (wst_state c = cancelled)) children
        then (cancelled, None) else (result_ready, None)
    end.

Definition forget_work_status (key : WorkStatusKey) (s : SessionState) : SessionState :=
  let record := dict_get key (ws_parents s) in
  let s := s <| ws_children := dict_pop key (ws_children s) |>
             <| ws_nonauthoritative_at := dict_pop key (ws_nonauthoritative_at s) |>
             <| ws_parents := dict_pop key (ws_parents s) |> in
  match record with
  | Some r =>
      if WORK_STATUS_TERMINAL (wst_state (rec_status r))
      then s <| ws_terminal_keys := {[key]} ∪ ws_terminal_keys s |> else s
  | None => s
  end.

Definition work_status_expiry_stamp (s : SessionState) (key : WorkStatusKey) : option Q :=
  match dict_get key (ws_parents s) with
  | None => None
  | Some r =>
      match rec_terminal_at r with
      | Some t => Some t
      | None => dict_get key (ws_nonauthoritative_at s)
      end
  end.

Definition eviction_candidates (protect : WorkStatusKey) (s : SessionState)
    : list (WorkStatusKey * Q) :=
  omap (λ item, if decide (item = protect) then None
                else (λ stamp, (item, stamp)) <$> work_status_expiry_stamp s item)
    (dict_keys (ws_parents s)).

(** The [while] loop; [fuel] bounds its iterations, and the number of records
    is enough because each iteration forgets one. *)
Fixpoint evict_loop (fuel : nat) (protect : WorkStatusKey) (s : SessionState) : SessionState :=
  match fuel with
  | O => s
  | S fuel' =>
      if decide (length (ws_parents s) ≤ MAX_WORK_STATUS_KEYS)%nat then s
      else match argmin (eviction_candidates protect s) with
           | None => s
           | Some oldest => evict_loop fuel' protect (forget_work_status oldest s)
           end
  end.

Definition evict_work_status_overflow (protect : WorkStatusKey) (s : SessionState) : SessionState :=
  evict_loop (length (ws_parents s)) protect s.

(** The tail of [_reaggregate_parent]: write and report a new parent record. *)
Definition write_parent (key : WorkStatusKey) (parent_state : WorkStatusState)
    (parent_reason : option TerminalReason) (now : Q) (s : SessionState)
    : SessionState * Prelude.result (option StateEvent) :=
  let next_sequence := (default 0 (dict_get key (ws_sequence s)) + 1)%N in
  let s := s <| ws_sequence := dict_set key next_sequence (ws_sequence s) |> in
  match new_WorkStatus (key_turn_id key) (Some (key_parent_key key)) None parent_state
          next_sequence parent_reason (key_origin_epoch key) with
  | Raise e => (s, Raise e)
  | Ret status =>
      let terminal_at := if WORK_STATUS_TERMINAL parent_state then Some now else None in
      let s := if bool_decide (key ∈ ws_nonauthoritative_keys s)
               then s <| ws_nonauthoritative_at :=
                           dict_setdefault key now (ws_nonauthoritative_at s) |>
               else s in
      let s := s <| ws_parents := dict_set key (mkRecord status terminal_at) (ws_parents s) |> in
      let s := evict_work_status_overflow key s in
      let (s', ev) := emit "work_status" (PWorkStatus status) s in (s', Ret (Some ev))
  end.

Definition reaggregate_parent (key : WorkStatusKey) (now : Q) (s : SessionState)
    : SessionState * Prelude.result (option StateEvent) :=
  let children := dict_values (default [] (dict_get key (ws_children s))) in
  match children with
  | [] => (s, Ret None)
  | _ :: _ =>
      let (parent_state, parent_reason) := aggregate children in
      let record := dict_get key (ws_parents s) in
      if bool_decide (record = None) && bool_decide (key ∈ ws_terminal_keys s)
      then (s <| ws_children := dict_pop key (ws_children s) |>, Ret None)
      else if match record with
              | Some r => bool_decide (wst_state (rec_status r) = parent_state)
              | None => false end
      then (s, Ret None)
      else if match record with
              | Some r => WORK_STATUS_TERMINAL (wst_state (rec_status r))
              | None => false end
      then (s, Ret None)
      else if bool_decide (key ∈ ws_nonauthoritative_keys s) && WORK_STATUS_TERMINAL parent_state
      then (match record with
            | None => s <| ws_children := dict_pop key (ws_children s) |>
            | Some _ => s
            end, Ret None)
      else
        write_parent key parent_state parent_reason now s
  end.

(** [parent_work_item_id or work_item_id] *)
Definition py_or (o : option string) (d : string) : string :=
  if truthy o then default d o else d.

Definition set_child_work_status (turn_id work_item_id : string)
    (parent_work_item_id worker_id : option string) (state : WorkStatusState)
    (origin_epoch : option N) (terminal_reason : option TerminalReason) (now : Q)
    (s : SessionState) : SessionState * Prelude.result (option StateEvent) :=
  let key := mkKey origin_epoch turn_id (py_or parent_work_item_id work_item_id) in
  let existing := dict_get key (ws_children s) in
  let previous := match existing with Some c => dict_get work_item_id c | None => None end in
  if negb (legal_work_status_transition (wst_state <$> previous) state) then (s, Ret None)
  else
    let s := s <| ws_children := dict_setdefault key [] (ws_children s) |> in
    match new_WorkStatus turn_id (Some work_item_id) worker_id state 0 terminal_reason
            origin_epoch with
    | Raise e => (s, Raise e)
    | Ret child =>
        let children := default [] existing in
        reaggregate_parent key now
          (s <| ws_children := dict_set key (dict_set work_item_id child children)
                                 (ws_children s) |>)
    end.

Definition expired (now : Q) (s : SessionState) (key : WorkStatusKey) : bool :=
  match work_status_expiry_stamp s key with
  | Some stamp => Qle_bool WORK_STATUS_TTL_SECONDS (now - stamp)
  | None => false
  end.

Definition expired_keys (now : Q) (s : SessionState) : list WorkStatusKey :=
  filter (λ key, expired now s key = true) (dict_keys (ws_parents s)).

Definition prune_expired_work_status (now : Q) (s : SessionState) : SessionState :=
  foldl (λ s key, forget_work_status key s) s (expired_keys now s).

Definition work_status_snapshot (now : Q) (s : SessionState) : SessionState * list WorkStatus :=
  let s := prune_expired_work_status now s in (s, rec_status <$> dict_values (ws_parents s)).

(** ** Snapshots *)

Definition restore_status (restored_at : Q) (s : SessionState) (status : WorkStatus)
    : SessionState :=
  let key := mkKey (wst_origin_epoch status) (wst_turn_id status)
               (py_or (wst_work_item_id status) EmptyString) in
  s <| ws_children := dict_setdefault key [] (ws_children s) |>
    <| ws_sequence := dict_set key (wst_event_sequence status) (ws_sequence s) |>
    <| ws_parents := dict_set key
         (mkRecord status (if WORK_STATUS_TERMINAL (wst_state status)
                           then Some restored_at else None)) (ws_parents s) |>
    <| ws_nonauthoritative_keys := {[key]} ∪ ws_nonauthoritative_keys s |>
    <| ws_nonauthoritative_at := dict_set key restored_at (ws_nonauthoritative_at s) |>.

Fixpoint append_results (rs : list GroundedResult) (log : list GroundedResult)
    : Prelude.result (list GroundedResult) :=
  match rs with
  | [] => Ret log
  | r :: rs' => log' ←? ResultLog_append r log ;; append_results rs' log'
  end.

Definition from_snapshot (token : string) (restored_at : Q) (snap : RuntimeSnapshot)
    (watermarks : dict string N) : Prelude.result (SessionState * dict string N) :=
  let (state, wm) := SessionState_init (snap_session_id snap) token watermarks in
  let state := state <| sequence := snap_snapshot_sequence snap |> in
  let state := foldl (λ st w, st <| workers := dict_set (ws_worker_id w) w (workers st) |>)
                 state (snap_workers snap) in
  log ←? append_results (snap_results snap) (results state) ;;
  let state := state <| results := log |> in
  let state := foldl (λ st p, st <| speech := dict_set (sp_utterance_id p) p (speech st) |>
                                 <| speech_log := dict_set (sp_utterance_id p) [p] (speech_log st) |>)
                 state (snap_speech_progress snap) in
  let state := state <| routing_now := snap_routing snap |>
                     <| transcript := transcript state ++ snap_transcript snap |> in
  Ret (foldl (restore_status restored_at) state (snap_work_status snap), wm).

Definition snapshot (origin_epoch : option N) (include_work_status : bool) (now : Q)
    (watermarks : dict string N) (s : SessionState)
    : SessionState * Prelude.result (RuntimeSnapshot * dict string N) :=
  let (s, statuses) := if include_work_status then work_status_snapshot now s else (s, []) in
  let snap := mkRuntimeSnapshot CONTRACT_VERSION (session_id s) (sequence s)
                (dict_values (workers s)) (results s) (dict_values (speech s)) (routing_now s)
                (transcript s) origin_epoch statuses in
  (s, wm ←? validate_version_and_monotonicity (snap_contract_version snap) (snap_session_id snap)
              (snap_snapshot_sequence snap) watermarks ;;
      Ret (snap, wm)).

(** ** Runs

    Every call a client of the class can make, in any order.  [OpPromote] is
    the host's assignment to [active_epoch]. *)

Inductive op :=
| OpSubscribe (listener : nat)
| OpUnsubscribe (listener : nat)
| OpPromote (epoch : option N)
| OpWorker (w : WorkerState)
| OpRouting (r : RoutingState)
| OpTranscript (t : TranscriptEntry)
| OpResult (r : GroundedResult) (seq origin : option N)
| OpSpeech (p : SpeechProgress) (origin : option N) (allow_stale_reconnect : bool)
| OpChild (turn_id work_item_id : string) (parent_work_item_id worker_id : option string)
    (state : WorkStatusState) (origin_epoch : option N) (terminal_reason : option TerminalReason)
    (now : Q)
| OpSnapshot (include_work_status : bool) (now : Q).

Definition raised_none {A} (r : Prelude.result (option A)) : option A :=
  match r with Ret o => o | Raise _ => None end.

(** The next state and the event the call emitted, if any. *)
Definition exec (o : op) (s : SessionState) : SessionState * option StateEvent :=
  match o with
  | OpSubscribe l => (subscribe l s, None)
  | OpUnsubscribe l => (unsubscribe l s, None)
  | OpPromote e => (s <| active_epoch := e |>, None)
  | OpWorker w => set_worker w s
  | OpRouting r => set_routing r s
  | OpTranscript t => append_transcript t s
  | OpResult r q e => let (s', ev) := append_result r q e s in (s', raised_none ev)
  | OpSpeech p e allow =>
      let s' := (apply_speech_progress p e allow s).1 in
      (s', if decide (sequence s' = sequence s) then None else last (events s'))
  | OpChild t w p k st e reason now =>
      let (s', ev) := set_child_work_status t w p k st e reason now s in (s', raised_none ev)
  | OpSnapshot include now => (if include then (work_status_snapshot now s).1 else s, None)
  end.

(** The events emitted by a sequence of calls, oldest first. *)
Fixpoint run (ops : list op) (s : SessionState) : SessionState * list StateEvent :=
  match ops with
  | [] => (s, [])
  | o :: ops' =>
      let (s1, ev) := exec o s in
      let (s2, evs) := run ops' s1 in
      (s2, option_list ev ++ evs)
  end.

End work_status.
