(* ===== verification/SessionLedger.v ===== *)
(** The progressive work-status ledger of [SessionState]: its invariant, the
    eviction and pruning loops, and the trace of work-status events a client
    sees. *)

From S2P Require Import Prelude PyDict Contracts SessionState.

Section ledger.
Context {retention : RetentionConfig}.
Implicit Types (s : SessionState) (k key : WorkStatusKey) (now : Q).

(** ** The part of the state the ledger owns *)

Definition ledger_of s :=
  (ws_children s, ws_parents s, ws_sequence s, ws_terminal_keys s,
   ws_nonauthoritative_keys s, ws_nonauthoritative_at s).

(** Two states agree on the ledger. *)
Definition same_ledger s s' : Prop := ledger_of s = ledger_of s'.

#[global] Instance same_ledger_equiv : Equivalence same_ledger.
Proof. unfold same_ledger. split; [done | by intros ?? | by intros ??? -> ]. Qed.

Definition record_terminal (r : WorkStatusRecord) : bool :=
  WORK_STATUS_TERMINAL (wst_state (rec_status r)).

(** The key under which [from_snapshot] files a status. *)
Definition status_key (w : WorkStatus) : WorkStatusKey :=
  mkKey (wst_origin_epoch w) (wst_turn_id w) (py_or (wst_work_item_id w) EmptyString).

(** The last event sequence handed out for a key. *)
Definition counter k s : N := default 0%N (dict_get k (ws_sequence s)).

(** The client has been told a terminal state of this key. *)
Definition closed k s : Prop :=
  k ∈ ws_terminal_keys s ∨
  ∃ r, dict_get k (ws_parents s) = Some r ∧ record_terminal r = true.

(** What the children of a live authoritative record say about it. *)
Definition aggregate_current k (r : WorkStatusRecord) s : Prop :=
  k ∉ ws_nonauthoritative_keys s →
  ∃ c, dict_get k (ws_children s) = Some c ∧ c ≠ [] ∧
       (wst_state (rec_status r) = (aggregate (dict_values c)).1 ∨ record_terminal r = true).

(** ** The invariant *)

Record ledger_inv s : Prop := {
  li_wf_parents : dict_wf (ws_parents s);
  li_wf_children : dict_wf (ws_children s);
  li_lockstep : ∀ k, is_Some (dict_get k (ws_children s)) ↔ is_Some (dict_get k (ws_parents s));
  li_record : ∀ k r, dict_get k (ws_parents s) = Some r →
    (is_Some (rec_terminal_at r) ↔ record_terminal r = true) ∧
    dict_get k (ws_sequence s) = Some (wst_event_sequence (rec_status r)) ∧
    status_key (rec_status r) = k ∧ aggregate_current k r s;
  li_tombstone : ∀ k, k ∈ ws_terminal_keys s → dict_get k (ws_parents s) = None;
  li_clock : ∀ k r, dict_get k (ws_parents s) = Some r → k ∈ ws_nonauthoritative_keys s →
    is_Some (dict_get k (ws_nonauthoritative_at s))
}.

Lemma same_ledger_fields s s' :
  same_ledger s s' →
  ws_children s = ws_children s' ∧ ws_parents s = ws_parents s' ∧
  ws_sequence s = ws_sequence s' ∧ ws_terminal_keys s = ws_terminal_keys s' ∧
  ws_nonauthoritative_keys s = ws_nonauthoritative_keys s' ∧
  ws_nonauthoritative_at s = ws_nonauthoritative_at s'.
Proof. unfold same_ledger, ledger_of. intros E. by simplify_eq. Qed.

#[global] Instance ledger_inv_proper : Proper (same_ledger ==> iff) ledger_inv.
Proof.
  assert (∀ s s', same_ledger s s' → ledger_inv s → ledger_inv s') as H.
  { intros s s' (Ec & Ep & Es & Et & En & Ea)%same_ledger_fields [].
    split; unfold aggregate_current in *; rewrite <- ?Ec, <- ?Ep, <- ?Es, <- ?Et, <- ?En, <- ?Ea; done. }
  intros s s' E. split; apply H; [done | by symmetry].
Qed.

#[global] Instance closed_proper k : Proper (same_ledger ==> iff) (closed k).
Proof.
  intros s s' (Ec & Ep & Es & Et & En & Ea)%same_ledger_fields.
  unfold closed. by rewrite Ep, Et.
Qed.

#[global] Instance counter_proper k : Proper (same_ledger ==> eq) (counter k).
Proof.
  intros s s' (Ec & Ep & Es & Et & En & Ea)%same_ledger_fields. unfold counter. by rewrite Es.
Qed.

(** ** Forgetting one key *)

Lemma forget_parents k s : ws_parents (forget_work_status k s) = dict_pop k (ws_parents s).
Proof. unfold forget_work_status. by repeat case_match. Qed.

Lemma forget_children k s : ws_children (forget_work_status k s) = dict_pop k (ws_children s).
Proof. unfold forget_work_status. by repeat case_match. Qed.

Lemma forget_sequence k s : ws_sequence (forget_work_status k s) = ws_sequence s.
Proof. unfold forget_work_status. by repeat case_match. Qed.

Lemma forget_nonauth k s :
  ws_nonauthoritative_keys (forget_work_status k s) = ws_nonauthoritative_keys s.
Proof. unfold forget_work_status. by repeat case_match. Qed.

Lemma forget_clock k s :
  ws_nonauthoritative_at (forget_work_status k s) = dict_pop k (ws_nonauthoritative_at s).
Proof. unfold forget_work_status. by repeat case_match. Qed.

Lemma forget_tombstones k j s :
  j ∈ ws_terminal_keys (forget_work_status k s) ↔
  j ∈ ws_terminal_keys s ∨
  (j = k ∧ ∃ r, dict_get k (ws_parents s) = Some r ∧ record_terminal r = true).
Proof.
  unfold forget_work_status, record_terminal.
  destruct (dict_get k (ws_parents s)) as [r|] eqn:E; simpl; [|naive_solver].
  destruct (WORK_STATUS_TERMINAL _) eqn:T; simpl; [set_solver|]. naive_solver congruence.
Qed.

Lemma forget_inv k s : ledger_inv s → ledger_inv (forget_work_status k s).
Proof.
  intros [Hp Hc Hl Hr Ht Hk]. split.
  - rewrite forget_parents. auto with dict.
  - rewrite forget_children. auto with dict.
  - intros j. rewrite forget_parents, forget_children, !dict_get_pop.
    case_decide; [|apply Hl]. split; intros []; done.
  - intros j r. rewrite forget_parents, dict_get_pop. case_decide as Hne; [done|].
    intros Hj. destruct (Hr j r Hj) as (? & ? & ? & Ha).
    split_and!; [done | by rewrite forget_sequence | done |].
    intros Hn. rewrite forget_nonauth in Hn. destruct (Ha Hn) as (c & ? & ?).
    exists c. by rewrite forget_children, dict_get_pop_ne.
  - intros j. rewrite forget_parents, forget_tombstones, dict_get_pop.
    intros [Hj|[-> _]]; case_decide; auto; congruence.
  - intros j r. rewrite forget_parents, forget_nonauth, forget_clock, !dict_get_pop.
    case_decide; [done | apply Hk].
Qed.

Lemma forget_closed k j s : closed k s → closed k (forget_work_status j s).
Proof.
  unfold closed. rewrite forget_tombstones, forget_parents. intros [?|(r & Hr & Ht)]; [by auto|].
  destruct (decide (j = k)) as [->|Hne]; [left; eauto|].
  right. exists r. by rewrite dict_get_pop_ne.
Qed.

Lemma forget_counter k j s : counter k (forget_work_status j s) = counter k s.
Proof. unfold counter. by rewrite forget_sequence. Qed.

(** ** Eviction *)

Lemma eviction_candidates_elem protect s k q :
  (k, q) ∈ eviction_candidates protect s ↔
  k ∈ dict_keys (ws_parents s) ∧ k ≠ protect ∧ work_status_expiry_stamp s k = Some q.
Proof.
  unfold eviction_candidates. rewrite list_elem_of_omap. split.
  - intros (j & Hj & E). case_decide; [done|].
    destruct (work_status_expiry_stamp s j) eqn:Es; simpl in E; simplify_eq. done.
  - intros (Hk & Hne & E). exists k. split; [done|]. rewrite decide_False by done. by rewrite E.
Qed.

(** Whatever every eviction step keeps, the loop keeps. *)
Lemma evict_loop_keeps (P : SessionState → Prop) protect fuel s :
  (∀ s k q, k ≠ protect → work_status_expiry_stamp s k = Some q → P s →
            P (forget_work_status k s)) →
  P s → P (evict_loop fuel protect s).
Proof.
  intros Hstep. revert s. induction fuel as [|fuel IH]; intros s HP; simpl; [done|].
  case_decide; [done|]. destruct (argmin _) as [k|] eqn:E; [|done].
  apply argmin_Some in E as (q & (_ & ? & ?)%eviction_candidates_elem & _). eauto.
Qed.

Lemma evict_loop_bound protect fuel s :
  (length (ws_parents s) ≤ fuel)%nat →
  let s' := evict_loop fuel protect s in
  (length (ws_parents s') ≤ MAX_WORK_STATUS_KEYS)%nat ∨ eviction_candidates protect s' = [].
Proof.
  revert s. induction fuel as [|fuel IH]; intros s Hlen; simpl; [left; lia|].
  case_decide; [by left|].
  destruct (argmin (eviction_candidates protect s)) as [k|] eqn:E.
  - apply IH. apply argmin_Some in E as (q & (Hk & _)%eviction_candidates_elem & _).
    rewrite forget_parents. apply dict_pop_length_lt in Hk. lia.
  - right. by apply argmin_None.
Qed.

Lemma evict_protected protect s :
  dict_get protect (ws_parents (evict_work_status_overflow protect s)) =
  dict_get protect (ws_parents s).
Proof.
  unfold evict_work_status_overflow.
  apply (evict_loop_keeps (λ t, dict_get protect (ws_parents t) = dict_get protect (ws_parents s)));
    [|done].
  intros t k q Hne _ Ht. by rewrite forget_parents, dict_get_pop_ne.
Qed.

(** Overflow eviction terminates and does its job: after it runs the
    ledger holds at most [_MAX_WORK_STATUS_KEYS] records, or else every record
    other than the protected one is live (has no expiry clock), the case in
    which the ledger deliberately exceeds the cap; the protected record is
    still there. *)
Theorem eviction_bounds_ledger protect s :
  let s' := evict_work_status_overflow protect s in
  ((length (ws_parents s') ≤ MAX_WORK_STATUS_KEYS)%nat ∨
   ∀ k, k ∈ dict_keys (ws_parents s') → k ≠ protect → work_status_expiry_stamp s' k = None) ∧
  dict_get protect (ws_parents s') = dict_get protect (ws_parents s).
Proof.
  intros s'. split.
  - destruct (evict_loop_bound protect (length (ws_parents s)) s) as [?|E]; [done | by left |].
    right. intros k Hk Hne. destruct (work_status_expiry_stamp s' k) as [q|] eqn:Eq; [|done].
    assert ((k, q) ∈ eviction_candidates protect s') as Hin by by apply eviction_candidates_elem.
    unfold s', evict_work_status_overflow in Hin. rewrite E in Hin. by apply not_elem_of_nil in Hin.
  - apply evict_protected.
Qed.

Lemma evict_inv protect s : ledger_inv s → ledger_inv (evict_work_status_overflow protect s).
Proof. apply evict_loop_keeps. intros; by apply forget_inv. Qed.

Lemma evict_closed k protect s : closed k s → closed k (evict_work_status_overflow protect s).
Proof. apply evict_loop_keeps. intros; by apply forget_closed. Qed.

Lemma evict_counter k protect s : counter k (evict_work_status_overflow protect s) = counter k s.
Proof.
  unfold evict_work_status_overflow.
  apply (evict_loop_keeps (λ t, counter k t = counter k s)); [|done].
  intros t j q _ _ Ht. by rewrite forget_counter.
Qed.

Lemma evict_nonauth protect s :
  ws_nonauthoritative_keys (evict_work_status_overflow protect s) = ws_nonauthoritative_keys s.
Proof.
  unfold evict_work_status_overflow.
  apply (evict_loop_keeps (λ t, ws_nonauthoritative_keys t = ws_nonauthoritative_keys s)); [|done].
  intros t j q _ _ <-. apply forget_nonauth.
Qed.

(** ** Re-aggregation *)

Lemma aggregate_reason l : (aggregate l).2 ≠ None → (aggregate l).1 = failed.
Proof. unfold aggregate. by repeat case_match. Qed.

(** The status a re-aggregation writes always passes validation. *)
Lemma aggregate_status_valid key c q :
  key_turn_id key ≠ EmptyString →
  new_WorkStatus (key_turn_id key) (Some (key_parent_key key)) None (aggregate c).1 q (aggregate c).2
    (key_origin_epoch key) =
  Ret (mkWorkStatus (key_turn_id key) (Some (key_parent_key key)) None (aggregate c).1 q
         (aggregate c).2 (key_origin_epoch key)).
Proof.
  intros Hne. unfold new_WorkStatus, validate_terminal_reason. rewrite decide_False by done. simpl.
  destruct (decide ((aggregate c).2 = None)) as [->|E]; [done|].
  by rewrite (bool_decide_true _ (aggregate_reason _ E)), andb_false_r.
Qed.

Definition event_status (ev : option StateEvent) : option WorkStatus :=
  match ev with Some (mkStateEvent _ _ (PWorkStatus w)) => Some w | _ => None end.

(** What one operation may do to the ledger: keep the invariant, never reopen a
    closed key, and hand out the next number of exactly the key it reports. *)
Definition ledger_step s (ev : option StateEvent) s' : Prop :=
  ledger_inv s' ∧ ws_nonauthoritative_keys s' = ws_nonauthoritative_keys s ∧
  (∀ k, closed k s → closed k s') ∧
  match event_status ev with
  | None => ∀ k, counter k s' = counter k s
  | Some w =>
      let key := status_key w in
      ¬ closed key s ∧ wst_event_sequence w = (counter key s + 1)%N ∧
      counter key s' = wst_event_sequence w ∧
      (WORK_STATUS_TERMINAL (wst_state w) = true →
         closed key s' ∧ key ∉ ws_nonauthoritative_keys s) ∧
      ∀ k, k ≠ key → counter k s' = counter k s
  end.

Lemma ledger_step_quiet s s' ev :
  event_status ev = None → same_ledger s s' → ledger_inv s → ledger_step s ev s'.
Proof.
  intros E Hs Hi. unfold ledger_step. rewrite E. split_and!.
  - by rewrite <- Hs.
  - by apply same_ledger_fields in Hs as (_ & _ & _ & _ & -> & _).
  - intros k. by rewrite Hs.
  - intros k. by rewrite Hs.
Qed.

(** A child report was filed under [key]: the state [reaggregate_parent] sees. *)
Definition filed key c s := s <| ws_children := dict_set key c (ws_children s) |>.

Lemma filed_record_inv key c s k r :
  ledger_inv s → c ≠ [] → dict_get k (ws_parents s) = Some r →
  (k = key → wst_state (rec_status r) = (aggregate (dict_values c)).1 ∨ record_terminal r = true
             ∨ key ∈ ws_nonauthoritative_keys s) →
  aggregate_current k r (filed key c s).
Proof.
  intros Hi Hc Hr Hk Hn. destruct (li_record _ Hi k r Hr) as (_ & _ & _ & Ha).
  simpl in *. rewrite dict_get_set. case_decide; subst.
  - exists c. split; [done|]. split; [done|]. by destruct (Hk eq_refl) as [?|[?|?]]; auto.
  - destruct (Ha Hn) as (c' & ? & ? & ?). eauto.
Qed.

(** Nothing is written: the report left the parent as it was. *)
Lemma filed_inv key c s :
  ledger_inv s → c ≠ [] →
  (∃ r, dict_get key (ws_parents s) = Some r ∧
     (wst_state (rec_status r) = (aggregate (dict_values c)).1 ∨ record_terminal r = true
      ∨ key ∈ ws_nonauthoritative_keys s)) →
  ledger_inv (filed key c s).
Proof.
  intros Hi Hc (r0 & Hr0 & Hag). pose proof Hi as [Hp Hch Hl Hr Ht Hk]. split; simpl; auto with dict.
  - intros k. rewrite dict_get_set. case_decide; subst; [|apply Hl].
    split; intros _; [by eexists | eauto].
  - intros k r Hkr. destruct (Hr k r Hkr) as (? & ? & ? & _). split_and!; try done.
    apply filed_record_inv; [done..|]. intros ->. by simplify_eq.
Qed.

(** The report is dropped because the key has a tombstone and no record. *)
Lemma unfiled_same key c s :
  ledger_inv s → dict_get key (ws_parents s) = None →
  same_ledger s ((filed key c s) <| ws_children := dict_pop key (ws_children (filed key c s)) |>).
Proof.
  intros Hi Hn. unfold same_ledger, ledger_of. simpl.
  assert (key ∉ dict_keys (ws_children s)) as Hk.
  { rewrite <- dict_get_None. rewrite eq_None_not_Some, (li_lockstep _ Hi), Hn. by intros []. }
  by rewrite dict_pop_set_notin.
Qed.

(** The state just before eviction when a new parent record is written. *)
Definition written key c q now s :=
  let status := mkWorkStatus (key_turn_id key) (Some (key_parent_key key)) None
                  (aggregate (dict_values c)).1 q (aggregate (dict_values c)).2
                  (key_origin_epoch key) in
  let at_ := if WORK_STATUS_TERMINAL (aggregate (dict_values c)).1 then Some now else None in
  (filed key c s)
    <| ws_sequence := dict_set key q (ws_sequence s) |>
    <| ws_nonauthoritative_at :=
         if bool_decide (key ∈ ws_nonauthoritative_keys s)
         then dict_setdefault key now (ws_nonauthoritative_at s) else ws_nonauthoritative_at s |>
    <| ws_parents := dict_set key (mkRecord status at_) (ws_parents s) |>.

Lemma key_of_written key st q re :
  status_key (mkWorkStatus (key_turn_id key) (Some (key_parent_key key)) None st q re
                (key_origin_epoch key)) = key.
Proof.
  destruct key as [e t p]. unfold status_key, py_or, truthy. simpl. f_equal.
  case_bool_decide; by subst.
Qed.

Lemma written_inv key c q now s :
  ledger_inv s → c ≠ [] → key ∉ ws_terminal_keys s → ledger_inv (written key c q now s).
Proof.
  intros Hi Hc Ht. destruct Hi as [Hp Hch Hl Hr Htb Hk]. split; simpl; auto with dict.
  - intros k. rewrite !dict_get_set. case_decide; subst; [|apply Hl]. by split; eexists.
  - intros k r. rewrite dict_get_set. case_decide as E; subst.
    + intros [= <-]. unfold record_terminal. simpl. split_and!.
      * case_match; (split; [by intros [] | by eauto]).
      * apply dict_get_set_eq.
      * apply key_of_written.
      * intros _. exists c. simpl. rewrite dict_get_set_eq. auto.
    + intros Hkr. destruct (Hr k r Hkr) as (? & ? & ? & Ha). split_and!; try done.
      * by rewrite dict_get_set_ne.
      * intros Hn. destruct (Ha Hn) as (c' & ? & ?). exists c'. simpl. by rewrite dict_get_set_ne.
  - intros k Hkt. rewrite dict_get_set_ne by congruence. auto.
  - intros k r. rewrite dict_get_set. case_bool_decide as Hb; case_decide; subst.
    + intros _ _. rewrite dict_get_setdefault, decide_True by done. by eexists.
    + intros Hkr Hn. rewrite dict_get_setdefault, decide_False by done. eauto.
    + intros _ Hn. done.
    + intros Hkr Hn. eauto.
Qed.

Lemma write_parent_spec key c now s :
  key_turn_id key ≠ EmptyString →
  let q := (counter key s + 1)%N in
  ∃ status ev s',
    write_parent key (aggregate (dict_values c)).1 (aggregate (dict_values c)).2 now (filed key c s)
      = (s', Ret (Some ev)) ∧
    dict_get key (ws_parents (written key c q now s)) =
      Some (mkRecord status (if WORK_STATUS_TERMINAL (wst_state status) then Some now else None)) ∧
    status_key status = key ∧ wst_event_sequence status = q ∧
    wst_state status = (aggregate (dict_values c)).1 ∧ ev_payload ev = PWorkStatus status ∧
    same_ledger (evict_work_status_overflow key (written key c q now s)) s'.
Proof.
  intros Hne q. unfold write_parent. cbv zeta.
  change (default 0%N (dict_get key (ws_sequence (filed key c s))) + 1)%N with q.
  rewrite aggregate_status_valid by done.
  exists (mkWorkStatus (key_turn_id key) (Some (key_parent_key key)) None
            (aggregate (dict_values c)).1 q (aggregate (dict_values c)).2 (key_origin_epoch key)).
  eexists _, _. split; [|split_and!].
  - unfold emit. reflexivity.
  - simpl. rewrite dict_get_set_eq. reflexivity.
  - apply key_of_written.
  - done.
  - done.
  - done.
  - unfold written. simpl. by case_bool_decide.
Qed.

Lemma write_parent_step key c now s :
  ledger_inv s → c ≠ [] → key_turn_id key ≠ EmptyString → ¬ closed key s →
  (key ∈ ws_nonauthoritative_keys s → WORK_STATUS_TERMINAL (aggregate (dict_values c)).1 = false) →
  let '(s', r) := write_parent key (aggregate (dict_values c)).1 (aggregate (dict_values c)).2 now
                    (filed key c s) in
  ∃ ev, r = Ret (Some ev) ∧ ledger_step s (Some ev) s'.
Proof.
  intros Hi Hc Hne Hcl Hna. destruct (write_parent_spec key c now s Hne)
    as (status & ev & s' & -> & Hg & Hk & Hq & Hst & Hp & Hs).
  exists ev. split; [done|]. unfold ledger_step. destruct ev as [? ? p]. simpl in Hp. subst p. simpl.
  assert (key ∉ ws_terminal_keys s) as Htk by (intros ?; apply Hcl; by left).
  rewrite Hk. split_and!; [by rewrite <- Hs; apply evict_inv, written_inv | | | done | done | | |].
  - apply same_ledger_fields in Hs as (_ & _ & _ & _ & <- & _). by rewrite evict_nonauth.
  - intros k Hkc. rewrite <- Hs. apply evict_closed. destruct Hkc as [?|(r & ? & ?)]; [by left|].
    destruct (decide (key = k)) as [->|]; [exfalso; apply Hcl; right; eauto|].
    right. exists r. simpl. by rewrite dict_get_set_ne.
  - rewrite <- Hs, evict_counter. unfold counter. simpl. by rewrite dict_get_set_eq.
  - intros Ht. split; [|intros Hn; apply Hna in Hn; congruence].
    rewrite <- Hs. apply evict_closed. right. eexists. by split; [exact Hg|].
  - intros k Hkn. rewrite <- Hs, evict_counter. unfold counter. simpl.
    by rewrite dict_get_set_ne by congruence.
Qed.

Lemma filed_step key c s :
  ledger_inv s → ledger_inv (filed key c s) → ledger_step s None (filed key c s).
Proof. intros Hi Hf. split_and!; [done | done | by intros | by intros]. Qed.

Lemma reaggregate_step key c now s :
  ledger_inv s → c ≠ [] → key_turn_id key ≠ EmptyString →
  let '(s', r) := reaggregate_parent key now (filed key c s) in
  ∃ ev, r = Ret ev ∧ ledger_step s ev s'.
Proof.
  intros Hi Hc Hne. unfold reaggregate_parent. cbv zeta.
  replace (dict_get key (ws_children (filed key c s))) with (Some c)
    by (simpl; by rewrite dict_get_set_eq).
  cbn [default from_option id].
  destruct (dict_values c) as [|x l] eqn:Ec; [by destruct c|]. rewrite <- Ec. clear x l Ec.
  rewrite (surjective_pairing (aggregate (dict_values c))).
  pose proof (write_parent_step key c now s Hi Hc Hne) as Hw.
  pose proof (unfiled_same key c s Hi) as Hu.
  change (ws_parents (filed key c s)) with (ws_parents s).
  change (ws_terminal_keys (filed key c s)) with (ws_terminal_keys s).
  change (ws_nonauthoritative_keys (filed key c s)) with (ws_nonauthoritative_keys s).
  destruct (dict_get key (ws_parents s)) as [r|] eqn:Er.
  - rewrite bool_decide_false by done. cbn [andb]. case_bool_decide as Hst;
      [|destruct (WORK_STATUS_TERMINAL (wst_state (rec_status r))) eqn:Hrt;
        [|case_bool_decide as Hna; [destruct (WORK_STATUS_TERMINAL (aggregate _).1) eqn:Hpt|];
          cbn [andb]]].
    1,2,3: exists None; split; [done|]; apply filed_step, filed_inv; [done..|]; eauto 6.
    all: destruct (write_parent _ _ _ _ _) as [s' r'];
      destruct Hw as (ev & -> & ?); [| congruence || done |by exists (Some ev)].
    all: intros [Htk|(r0 & Hr0 & Ht0)]; [|unfold record_terminal in Ht0; congruence].
    all: apply (li_tombstone _ Hi) in Htk; congruence.
  - rewrite bool_decide_true by done. cbn [andb]. specialize (Hu eq_refl).
    case_bool_decide as Htk; [exists None; split; [done|]; by apply ledger_step_quiet|].
    case_bool_decide as Hna; [destruct (WORK_STATUS_TERMINAL (aggregate _).1) eqn:Hpt|]; cbn [andb].
    { exists None. split; [done|]. by apply ledger_step_quiet. }
    all: destruct (write_parent _ _ _ _ _) as [s' r'];
      destruct Hw as (ev & -> & ?); [| congruence || done |by exists (Some ev)].
    all: intros [?|(r0 & Hr0 & _)]; congruence.
Qed.

(** ** Reporting a child *)

Definition child_args_ok (turn_id : string) (state : WorkStatusState)
    (terminal_reason : option TerminalReason) : Prop :=
  turn_id ≠ EmptyString ∧ (terminal_reason ≠ None → state = failed).

Lemma child_status_valid turn wid worker st reason e :
  child_args_ok turn st reason →
  new_WorkStatus turn wid worker st 0 reason e = Ret (mkWorkStatus turn wid worker st 0 reason e).
Proof.
  intros [Ht Hr]. unfold new_WorkStatus, validate_terminal_reason. rewrite decide_False by done.
  simpl. destruct (decide (reason = None)) as [->|E]; [done|].
  by rewrite (bool_decide_true _ (Hr E)), andb_false_r.
Qed.

Lemma set_child_step turn wid parent worker st e reason now s :
  ledger_inv s → child_args_ok turn st reason →
  let '(s', r) := set_child_work_status turn wid parent worker st e reason now s in
  ∃ ev, r = Ret ev ∧ ledger_step s ev s'.
Proof.
  intros Hi Hok. unfold set_child_work_status. cbv zeta.
  destruct (negb _); [exists None; split; [done|]; by apply ledger_step_quiet|].
  rewrite child_status_valid by done. simpl.
  rewrite dict_set_setdefault. apply (reaggregate_step (mkKey e turn (py_or parent wid))).
  - done.
  - apply dict_set_neq_nil.
  - apply Hok.
Qed.

(** ** Pruning *)

Lemma fold_forget_keeps (P : SessionState → Prop) ks s :
  (∀ s k, P s → P (forget_work_status k s)) →
  P s → P (foldl (λ s key, forget_work_status key s) s ks).
Proof. intros Hf. revert s. induction ks as [|k ks IH]; simpl; auto. Qed.

Lemma prune_step now s : ledger_inv s → ledger_step s None (prune_expired_work_status now s).
Proof.
  intros Hi. unfold prune_expired_work_status. split_and!.
  - apply fold_forget_keeps; [intros; by apply forget_inv | done].
  - apply (fold_forget_keeps (λ t, ws_nonauthoritative_keys t = ws_nonauthoritative_keys s)); [|done].
    intros t j <-. apply forget_nonauth.
  - intros k. apply (fold_forget_keeps (closed k)). intros; by apply forget_closed.
  - intros k. apply (fold_forget_keeps (λ t, counter k t = counter k s)); [|done].
    intros t j <-. apply forget_counter.
Qed.

(** ** Every call *)

Definition op_ok (o : op) : Prop :=
  match o with OpChild t _ _ _ st _ reason _ => child_args_ok t st reason | _ => True end.

Lemma append_result_ledger r q e s :
  same_ledger s (append_result r q e s).1 ∧
  event_status (raised_none (append_result r q e s).2) = None.
Proof.
  unfold append_result, log_result.
  destruct (_ && _); [done|]. destruct (_ && _ && _); [done|].
  set (r' := if _ && _ then _ else r). clearbody r'. cbv zeta.
  destruct (existsb _ _); [done|]. destruct (_ && _).
  - by destruct (ResultLog_append _ _).
  - set (s1 := match q with Some _ => _ | None => s end).
    assert (same_ledger s s1) as Hs by (unfold s1; destruct q; [by case_decide | done]).
    clearbody s1. destruct (ResultLog_append _ _); [|done].
    by destruct (dict_get _ _).
Qed.

Lemma speech_ledger p e allow s :
  same_ledger s (apply_speech_progress p e allow s).1 ∧
  (sequence (apply_speech_progress p e allow s).1 ≠ sequence s →
   event_status (last (events (apply_speech_progress p e allow s).1)) = None).
Proof.
  unfold apply_speech_progress, speech_progress. cbv zeta.
  destruct (fenced _ _ && _); [done|].
  destruct (dict_get _ _) as [prev|]; [destruct (delivery_terminal _); [done|]; case_decide; [done|]|].
  all: split; [done|]; intros _; unfold emit; cbn [events fst setter eta]; simpl;
    by rewrite deque_append_last by (vm_compute; lia).
Qed.

Lemma exec_step o s :
  ledger_inv s → op_ok o → ledger_step s (exec o s).2 (exec o s).1.
Proof.
  intros Hi Hok. destruct o; simpl in Hok |- *.
  1-3: by apply ledger_step_quiet.
  - unfold set_worker. destruct (fenced _ _); by apply ledger_step_quiet.
  - unfold set_routing. destruct (fenced _ _); by apply ledger_step_quiet.
  - unfold append_transcript. repeat case_match; by apply ledger_step_quiet.
  - pose proof (append_result_ledger r seq origin s) as [??].
    destruct (append_result _ _ _ _). by apply ledger_step_quiet.
  - pose proof (speech_ledger p origin allow_stale_reconnect s) as [? He].
    apply ledger_step_quiet; [|done..]. case_decide; [done | by apply He].
  - pose proof (set_child_step turn_id work_item_id parent_work_item_id worker_id state origin_epoch
      terminal_reason now s Hi Hok) as Hs.
    destruct (set_child_work_status _ _ _ _ _ _ _ _ _) as [s' r]. destruct Hs as (ev & -> & ?). done.
  - destruct include_work_status; [by apply prune_step | by apply ledger_step_quiet].
Qed.

Lemma run_cons o ops s :
  run (o :: ops) s =
  ((run ops (exec o s).1).1, option_list (exec o s).2 ++ (run ops (exec o s).1).2).
Proof. simpl. destruct (exec o s) as [s1 ev]. simpl. by destruct (run ops s1). Qed.

(** The statuses reported for one key, oldest first. *)
Definition statuses_of k (evs : list StateEvent) : list WorkStatus :=
  omap (λ ev, w ← event_status (Some ev); if decide (status_key w = k) then Some w else None) evs.

Lemma statuses_of_app k l1 l2 : statuses_of k (l1 ++ l2) = statuses_of k l1 ++ statuses_of k l2.
Proof. unfold statuses_of. apply omap_app. Qed.

(** A number is handed out in order, and none after a terminal report. *)
Fixpoint report_chain (q : N) (l : list WorkStatus) : Prop :=
  match l with
  | [] => True
  | w :: l' =>
      wst_event_sequence w = (q + 1)%N ∧
      (WORK_STATUS_TERMINAL (wst_state w) = true → l' = []) ∧
      report_chain (wst_event_sequence w) l'
  end.


Lemma run_ledger_inv ops s : ledger_inv s → Forall op_ok ops → ledger_inv (run ops s).1.
Proof.
  revert s. induction ops as [|o ops IH]; intros s Hi Hok; [done|].
  apply Forall_cons in Hok as [Ho Hok]. rewrite run_cons. simpl.
  apply IH; [apply exec_step; done | done].
Qed.

(** A key rehydrated by [from_snapshot] never announces a terminal state:
    its child set is known to be incomplete, so over any sequence of calls every
    status reported for it is non-terminal, whether or not its record was
    dropped in between. *)
Theorem restored_key_never_terminalizes k ops s :
  ledger_inv s → Forall op_ok ops → k ∈ ws_nonauthoritative_keys s →
  Forall (λ w, WORK_STATUS_TERMINAL (wst_state w) = false) (statuses_of k (run ops s).2).
Proof.
  revert s. induction ops as [|o ops IH]; intros s Hi Hok Hk; [constructor|].
  apply Forall_cons in Hok as [Ho Hok]. rewrite run_cons. simpl.
  destruct (exec_step o s Hi Ho) as (Hi1 & Hna & _ & Hev).
  rewrite statuses_of_app. apply Forall_app. split; [|apply IH; [done..|by rewrite Hna]].
  destruct (exec o s).2 as [ev|]; [|constructor]. unfold statuses_of. cbn [option_list omap list_omap].
  destruct (event_status (Some ev)) as [w|]; simpl; [|constructor].
  case_decide as E; simpl; [|constructor]. constructor; [|constructor].
  destruct (WORK_STATUS_TERMINAL _) eqn:T; [|done]. destruct Hev as (_ & _ & _ & Ht & _).
  destruct (Ht eq_refl) as [_ Hn]. congruence.
Qed.

(** ** Aggregation *)

Lemma existsb_spec {A} (f : A → bool) (l : list A) : reflect (∃ x, x ∈ l ∧ f x = true) (existsb f l).
Proof.
  apply iff_reflect. rewrite existsb_exists. by setoid_rewrite list_elem_of_In.
Qed.

Lemma has_state_spec st (l : list WorkStatus) :
  reflect (∃ c, c ∈ l ∧ wst_state c = st) (existsb (λ c, bool_decide (wst_state c = st)) l).
Proof.
  apply iff_reflect. destruct (existsb_spec (λ c, bool_decide (wst_state c = st)) l) as [(c & ? & Hc)|H].
  - split; [done|]. intros _. exists c. split; [done|]. by apply bool_decide_eq_true in Hc.
  - split; [|done]. intros (c & ? & Hc). exfalso. apply H. exists c. by rewrite bool_decide_true.
Qed.

Lemma filter_failed_nil (l : list WorkStatus) :
  filter (λ c, wst_state c = failed) l = [] → ¬ ∃ c, c ∈ l ∧ wst_state c = failed.
Proof.
  intros E (c & Hc & Hs).
  assert (c ∈ filter (λ c, wst_state c = failed) l) as Hin by by apply list_elem_of_filter.
  rewrite E in Hin. by apply not_elem_of_nil in Hin.
Qed.

Definition has (l : list WorkStatus) st : Prop := ∃ c, c ∈ l ∧ wst_state c = st.

Definition all_terminal (l : list WorkStatus) : Prop :=
  ∀ c, c ∈ l → WORK_STATUS_TERMINAL (wst_state c) = true.

(** The exhaustive join documented on [set_child_work_status]. *)
Inductive joined (l : list WorkStatus) : WorkStatusState → Prop :=
| join_routing : has l routing → joined l routing
| join_searching : ¬ has l routing → has l searching → joined l searching
| join_background :
    ¬ has l routing → ¬ has l searching → has l background → joined l background
| join_failed : all_terminal l → has l failed → joined l failed
| join_cancelled : (∀ c, c ∈ l → wst_state c = cancelled) → joined l cancelled
| join_ready :
    all_terminal l → ¬ has l failed → (∃ c, c ∈ l ∧ wst_state c ≠ cancelled) →
    joined l result_ready.

Lemma all_terminal_not_has l st :
  all_terminal l → WORK_STATUS_TERMINAL st = false → ¬ has l st.
Proof. intros Ha Hs (c & Hc & <-). apply Ha in Hc. congruence. Qed.

Lemma aggregate_joined l : joined l (aggregate l).1.
Proof.
  unfold aggregate.
  destruct (has_state_spec routing l) as [Hr|Hr]; [by constructor|].
  destruct (has_state_spec searching l) as [Hs|Hs]; [by constructor|].
  destruct (existsb_spec (λ c, negb (WORK_STATUS_TERMINAL (wst_state c))) l) as [(c & Hc & Hn)|Hb].
  { apply negb_true_iff in Hn. constructor; [done..|]. exists c. split; [done|].
    destruct (wst_state c) eqn:E; try done; exfalso; eauto. }
  assert (all_terminal l) as Hall.
  { intros c Hc. destruct (WORK_STATUS_TERMINAL (wst_state c)) eqn:E; [done|].
    exfalso. apply Hb. exists c. by rewrite E. }
  destruct (filter _ l) as [|f fs] eqn:Ef.
  - apply filter_failed_nil in Ef. destruct (forallb _ l) eqn:Efa; constructor; try done.
    + intros c Hc. rewrite forallb_forall in Efa.
      by apply list_elem_of_In, Efa, bool_decide_eq_true in Hc.
    + apply not_true_iff_false in Efa. rewrite forallb_forall in Efa.
      destruct (existsb_spec (λ c, negb (bool_decide (wst_state c = cancelled))) l) as [(c & ? & E)|H].
      * exists c. by apply negb_true_iff, bool_decide_eq_false in E.
      * exfalso. apply Efa. intros c Hc%list_elem_of_In. destruct (bool_decide _) eqn:E; [done|].
        exfalso. apply H. exists c. by rewrite E.
  - constructor; [done|]. exists f.
    assert (f ∈ filter (λ c, wst_state c = failed) l) as Hin by (rewrite Ef; constructor).
    by apply list_elem_of_filter in Hin as [??].
Qed.

Lemma joined_terminal l st : joined l st → (WORK_STATUS_TERMINAL st = true ↔ all_terminal l).
Proof.
  intros Hj. split.
  - intros Ht. destruct Hj as [| | | |H|]; try done. intros c Hc. by rewrite (H c Hc).
  - intros Ha. destruct Hj as [H|_ H|_ _ H| | |]; try done.
    all: by apply (all_terminal_not_has l) in H.
Qed.

Lemma joined_unique l st st' : joined l st → joined l st' → st = st'.
Proof.
  intros H H'. pose proof (joined_terminal _ _ H) as Ht. rewrite <- (joined_terminal _ _ H') in Ht.
  destruct H as [| | |Ha (c & Hc & E)|Hall|Ha Hf (c & Hc & E)],
    H' as [| | |Ha' (c' & Hc' & E')|Hall'|Ha' Hf' (c' & Hc' & E')];
    try done; try (by vm_compute in Ht; destruct Ht as [Ht1 Ht2]; first [by specialize (Ht1 eq_refl) | by specialize (Ht2 eq_refl)]); exfalso.
  - by rewrite (Hall' c Hc) in E.
  - apply Hf'. by exists c.
  - by rewrite (Hall c' Hc') in E'.
  - by rewrite (Hall c' Hc') in E'.
  - apply Hf. by exists c'.
  - by rewrite (Hall' c Hc) in E.
Qed.

(** [_aggregate] computes the exhaustive join of the contract and nothing
    else: routing while any child is routing, else searching while any is
    searching, else background while any is retained, else failed when one
    failed, cancelled when all are cancelled and result_ready otherwise.  It is
    terminal exactly when every child is, and a reason it returns is that of a
    failed child. *)
Theorem aggregate_join (l : list WorkStatus) :
  (∀ st, joined l st ↔ st = (aggregate l).1) ∧
  (WORK_STATUS_TERMINAL (aggregate l).1 = true ↔ all_terminal l) ∧
  (∀ reason, (aggregate l).2 = Some reason →
     ∃ c, c ∈ l ∧ wst_state c = failed ∧ wst_terminal_reason c = Some reason).
Proof.
  pose proof (aggregate_joined l) as Hj. split_and!.
  - intros st. split; [intros H; by eapply joined_unique | by intros ->].
  - by apply joined_terminal.
  - intros reason Hr. unfold aggregate in Hr. repeat (destruct (existsb _ l); [done|]).
    destruct (filter _ l) as [|f fs] eqn:Ef; [by destruct (forallb _ l)|]. cbn [snd] in Hr.
    assert (reason ∈ omap wst_terminal_reason (f :: fs)) as Hin.
    { destruct (omap wst_terminal_reason (f :: fs)); simplify_eq/=; constructor. }
    rewrite <- Ef in Hin. apply list_elem_of_omap in Hin as (c & [??]%list_elem_of_filter & ?). eauto.
Qed.

(** ** Expiry *)

Lemma fold_forget_parents k ks s :
  dict_get k (ws_parents (foldl (λ s key, forget_work_status key s) s ks)) =
  if decide (k ∈ ks) then None else dict_get k (ws_parents s).
Proof.
  revert s. induction ks as [|j ks IH]; intros s; cbn [foldl].
  - by rewrite decide_False by apply not_elem_of_nil.
  - rewrite IH, forget_parents, dict_get_pop. repeat case_decide; set_solver.
Qed.

Lemma fold_forget_clock k ks s :
  k ∉ ks →
  dict_get k (ws_nonauthoritative_at (foldl (λ s key, forget_work_status key s) s ks)) =
  dict_get k (ws_nonauthoritative_at s).
Proof.
  revert s. induction ks as [|j ks IH]; intros s; simpl; [done|].
  rewrite not_elem_of_cons. intros [??]. rewrite IH by done.
  by rewrite forget_clock, dict_get_pop_ne.
Qed.

Lemma fold_forget_closed_tomb k ks s r :
  k ∈ ks → dict_get k (ws_parents s) = Some r → record_terminal r = true →
  k ∈ ws_terminal_keys (foldl (λ s key, forget_work_status key s) s ks).
Proof.
  intros Hk Hr Ht.
  assert (closed k (foldl (λ s key, forget_work_status key s) s ks)) as [?|(r' & Hr' & _)]; [|done|].
  - apply (fold_forget_keeps (closed k)); [intros; by apply forget_closed | right; eauto].
  - by rewrite fold_forget_parents, decide_True in Hr' by done.
Qed.

Lemma expired_keys_elem now s k : k ∈ expired_keys now s ↔ expired now s k = true.
Proof.
  unfold expired_keys. rewrite list_elem_of_filter. split; [by intros []|].
  intros He. split; [done|]. unfold expired, work_status_expiry_stamp in He.
  apply dict_get_is_Some. destruct (dict_get k (ws_parents s)); [by eexists | done].
Qed.

(** [prune_expired_work_status] forgets exactly the records whose retention
    clock is at least the TTL old, inclusively: an expired record is gone (and
    tombstoned if it was terminal), every other record and its clock are
    untouched, and nothing expired is left. *)
Theorem prune_exact now s k :
  let s' := prune_expired_work_status now s in
  (expired now s k = true →
     dict_get k (ws_parents s') = None ∧
     ∀ r, dict_get k (ws_parents s) = Some r → record_terminal r = true →
       k ∈ ws_terminal_keys s') ∧
  (expired now s k = false → dict_get k (ws_parents s') = dict_get k (ws_parents s)) ∧
  expired now s' k = false.
Proof.
  cbv zeta. unfold prune_expired_work_status. split_and!.
  - rewrite <- expired_keys_elem. intros He. split.
    + by rewrite fold_forget_parents, decide_True.
    + intros r. by apply fold_forget_closed_tomb.
  - rewrite <- not_true_iff_false, <- expired_keys_elem. intros He.
    by rewrite fold_forget_parents, decide_False.
  - unfold expired at 1, work_status_expiry_stamp at 1. rewrite fold_forget_parents.
    case_decide as He; [done|]. rewrite fold_forget_clock by done.
    rewrite expired_keys_elem in He. apply not_true_iff_false in He. done.
Qed.

(** ** Initial and restored sessions *)

Lemma init_inv sid token wm : ledger_inv (SessionState_init sid token wm).1.
Proof. split; simpl; try apply dict_wf_nil; try done; by intros k; split; intros []. Qed.

Lemma restore_inv at_ s w :
  ledger_inv s → ws_terminal_keys s = ∅ → ledger_inv (restore_status at_ s w).
Proof.
  intros [Hp Hch Hl Hr Htb Hk] Ht. unfold restore_status. fold (status_key w).
  split; simpl; auto with dict.
  - intros k. rewrite dict_get_setdefault, dict_get_set. case_decide; [by split; eexists | apply Hl].
  - intros k r. rewrite !dict_get_set. case_decide as E.
    + intros [= <-]. unfold record_terminal. simpl. split_and!; try done.
      * case_match; (split; [by intros [] | by eauto]).
      * intros Hn. simpl in Hn. set_solver.
    + intros Hkr. destruct (Hr k r Hkr) as (? & ? & ? & Ha). split_and!; try done.
      intros Hn. simpl in Hn. destruct Ha as (c & ? & ?); [set_solver|].
      exists c. simpl. by rewrite dict_get_setdefault, decide_False.
  - intros k. rewrite Ht. set_solver.
  - intros k r. rewrite !dict_get_set. case_decide; [by eexists|].
    intros Hkr Hn. eapply Hk; [done|]. set_solver.
Qed.

Lemma restore_all_inv at_ ws s :
  ledger_inv s → ws_terminal_keys s = ∅ →
  let s' := foldl (restore_status at_) s ws in
  ledger_inv s' ∧ ∀ w, w ∈ ws → status_key w ∈ ws_nonauthoritative_keys s'.
Proof.
  intros Hi Ht. cbv zeta.
  assert (∀ ws s, ws_nonauthoritative_keys s ⊆ ws_nonauthoritative_keys (foldl (restore_status at_) s ws)) as Hmono.
  { clear. induction ws as [|w ws IH]; intros s; simpl; [done|]. etrans; [|apply IH]. simpl. set_solver. }
  revert s Hi Ht. induction ws as [|w ws IH]; intros s Hi Ht; simpl.
  - split; [done|]. intros w Hw. by apply not_elem_of_nil in Hw.
  - destruct (IH (restore_status at_ s w)) as [Hi' Hw']; [by apply restore_inv | done|].
    split; [done|]. intros w' [->|Hin]%elem_of_cons; [|by apply Hw'].
    apply Hmono. simpl. unfold status_key. set_solver.
Qed.

Lemma fold_same_ledger {A} (f : SessionState → A → SessionState) l s :
  (∀ s a, same_ledger s (f s a)) → same_ledger s (foldl f s l).
Proof.
  intros Hf. revert s. induction l as [|a l IH]; intros s; simpl; [done|].
  etrans; [apply (Hf s a) | apply IH].
Qed.

(** A session rehydrated by [from_snapshot] satisfies the ledger invariant,
    and every restored key is marked non-authoritative. *)
Theorem from_snapshot_inv token at_ snap wm s' wm' :
  from_snapshot token at_ snap wm = Ret (s', wm') →
  ledger_inv s' ∧ ∀ w, w ∈ snap_work_status snap → status_key w ∈ ws_nonauthoritative_keys s'.
Proof.
  unfold from_snapshot. pose proof (init_inv (snap_session_id snap) token wm) as Hi.
  assert (ws_terminal_keys (SessionState_init (snap_session_id snap) token wm).1 = ∅) as Ht by done.
  destruct (SessionState_init _ _ _) as [s0 wm0]. cbv zeta in Hi, Ht |- *. cbn [fst] in Hi, Ht.
  set (s1 := foldl _ (s0 <| _ := _ |>) (snap_workers snap)).
  destruct (append_results _ _) as [log|]; [|done]. cbn [rbind].
  set (s2 := foldl _ (s1 <| results := log |>) (snap_speech_progress snap)). intros [= <- <-].
  assert (same_ledger s0 s2) as Hs.
  { etrans; [|apply fold_same_ledger; done]. change (same_ledger s0 s1).
    unfold s1. etrans; [|apply fold_same_ledger; done]. done. }
  apply restore_all_inv.
  - change (ledger_inv (s2 <| routing_now := snap_routing snap |> <| transcript := transcript s2 ++ snap_transcript snap |>)).
    assert (same_ledger s2 (s2 <| routing_now := snap_routing snap |> <| transcript := transcript s2 ++ snap_transcript snap |>)) as <- by done.
    by rewrite <- Hs.
  - apply same_ledger_fields in Hs as (_ & _ & _ & Htk & _). simpl. congruence.
Qed.

(** ** A report that fails validation *)

(** A child report whose arguments fail [WorkStatus] validation (a
    [terminal_reason] on a state other than failed) on a key with no record
    raises after an empty child map was already inserted: the state then has a
    child entry without a parent, so the documented lockstep of the two maps
    is broken. *)
Theorem rejected_report_breaks_lockstep turn wid parent worker st e reason now s :
  let key := mkKey e turn (py_or parent wid) in
  reason ≠ None → st ≠ failed → legal_work_status_transition None st = true →
  dict_get key (ws_children s) = None → dict_get key (ws_parents s) = None →
  let '(s', r) := set_child_work_status turn wid parent worker st e reason now s in
  returns r = false ∧
  is_Some (dict_get key (ws_children s')) ∧ dict_get key (ws_parents s') = None.
Proof.
  intros key Hre Hst Hl Hc Hp. unfold set_child_work_status. fold key. cbv zeta.
  rewrite Hc. cbn [fmap option_fmap option_map]. rewrite Hl. cbn [negb].
  unfold new_WorkStatus. case_decide; [|unfold validate_terminal_reason; cbn [wst_terminal_reason wst_state]].
  2: rewrite !bool_decide_false by done; cbn [negb andb].
  all: simpl; rewrite dict_get_setdefault, decide_True by done; split_and!; [done | by eexists | done].
Qed.

End ledger.

(** ** Witnesses *)

#[local] Existing Instance RETENTION_FALLBACK.

Definition w_key : WorkStatusKey := mkKey (Some 1%N) "turn-1" "work-1".
Definition w_init : SessionState := (SessionState_init "s" "tok" []).1.
Definition w_child (st : WorkStatusState) : op :=
  OpChild "turn-1" "work-1" None None st (Some 1%N) None 0.
Definition w_ops : list op :=
  [w_child routing; w_child searching; w_child background; w_child result_ready; w_child failed].

Lemma w_ops_ok : Forall op_ok w_ops.
Proof. repeat constructor; done. Qed.


(** A snapshot with one restored, still searching record. *)
Definition w_status : WorkStatus :=
  mkWorkStatus "turn-1" (Some "work-1") None searching 7 None (Some 1%N).
Definition w_snap : RuntimeSnapshot :=
  mkRuntimeSnapshot "v1.0" "s" 4 [] [] [] None [] None [w_status].
Definition w_restored : SessionState := restore_status 0 (w_init <| sequence := 4%N |>) w_status.

Lemma w_restored_inv : ledger_inv w_restored.
Proof.
  apply restore_inv; [|done].
  assert (same_ledger w_init (w_init <| sequence := 4%N |>)) as <- by done. apply init_inv.
Qed.

Lemma restored_key_never_terminalizes_witness :
  Forall (λ w, WORK_STATUS_TERMINAL (wst_state w) = false)
    (statuses_of w_key (run w_ops w_restored).2) ∧
  wst_event_sequence <$> statuses_of w_key (run w_ops w_restored).2 = [8; 9; 10]%N.
Proof.
  split; [|vm_compute; reflexivity].
  apply (restored_key_never_terminalizes w_key w_ops w_restored w_restored_inv w_ops_ok).
  apply (bool_decide_unpack _). vm_compute. exact I.
Defined.

Lemma from_snapshot_inv_witness : ledger_inv w_restored.
Proof.
  eapply (from_snapshot_inv "tok" 0 w_snap [] w_restored []). vm_compute. reflexivity.
Defined.

Lemma rejected_report_breaks_lockstep_witness :
  let '(s', r) := set_child_work_status "turn-1" "work-1" None None searching (Some 1%N)
                    (Some missing_worker) 0 w_init in
  returns r = false ∧
  is_Some (dict_get w_key (ws_children s')) ∧ dict_get w_key (ws_parents s') = None.
Proof.
  apply (rejected_report_breaks_lockstep "turn-1" "work-1" None None searching (Some 1%N)
           (Some missing_worker) 0 w_init); done.
Defined.
