(* ===== verification/SessionFacts.v ===== *)
(** The rest of [SessionState]: event numbering, the delivery state machine, the
    result log, epoch fencing, and the snapshot round trip. *)

From stdpp Require Import sorting.
From S2P Require Import Prelude PyDict Contracts SessionState SessionLedger.

Section facts.
Context {retention : RetentionConfig}.
Implicit Types (s : SessionState) (o : op).

(** ** Well-formed sessions *)

Record session_wf s : Prop := {
  sw_workers : dict_wf (workers s);
  sw_worker_keys : ∀ k w, (k, w) ∈ workers s → ws_worker_id w = k;
  sw_speech : dict_wf (speech s);
  sw_speech_keys : ∀ k p, (k, p) ∈ speech s → sp_utterance_id p = k;
  sw_results : NoDup (result_id <$> results s)
}.

(** Delivery: the current record is the last of its history, each step of a
    history starts from a non-terminal state and does not lower the rank. *)
Definition progress_le (a b : SpeechProgress) : Prop :=
  delivery_terminal (sp_state a) = false ∧
  (delivery_rank (sp_state a) ≤ delivery_rank (sp_state b))%nat.

Definition delivery_inv s : Prop :=
  ∀ u, dict_get u (speech s) = last (speech_history u s) ∧
       Sorted progress_le (speech_history u s).

(** The parts of the state an operation on another part leaves alone. *)
Definition same_core s s' : Prop :=
  workers s' = workers s ∧ speech s' = speech s ∧ results s' = results s ∧
  speech_log s' = speech_log s.

(** ** Helpers *)

Lemma Sorted_snoc {A} (R : relation A) l x :
  Sorted R l → (∀ a, last l = Some a → R a x) → Sorted R (l ++ [x]).
Proof.
  induction l as [|a l IH]; simpl; intros Hs Hl; [repeat constructor|].
  apply Sorted_inv in Hs as [Hs Hr]. constructor.
  - apply IH; [done|]. intros b Hb. apply Hl. by destruct l.
  - destruct l as [|b l]; simpl; constructor; [by apply Hl | by apply HdRel_inv in Hr].
Qed.

Lemma forget_core k s :
  same_core s (forget_work_status k s) ∧ sequence (forget_work_status k s) = sequence s.
Proof. unfold forget_work_status, same_core. by repeat case_match. Qed.

Definition quiet_rel s t : Prop := same_core s t ∧ sequence t = sequence s.

Lemma quiet_trans s t u : quiet_rel s t → quiet_rel t u → quiet_rel s u.
Proof. unfold quiet_rel, same_core. intros ((-> & -> & -> & ->) & ->) H. done. Qed.

Lemma evict_core k s : quiet_rel s (evict_work_status_overflow k s).
Proof.
  unfold evict_work_status_overflow. apply (evict_loop_keeps (quiet_rel s)); [|done].
  intros t j q _ _ Ht. eapply quiet_trans; [exact Ht | apply forget_core].
Qed.

Lemma prune_core now s : quiet_rel s (prune_expired_work_status now s).
Proof.
  unfold prune_expired_work_status. apply (fold_forget_keeps (quiet_rel s)); [|done].
  intros t j Ht. eapply quiet_trans; [exact Ht | apply forget_core].
Qed.

(** A child report touches the ledger and, if it emits, the event counter. *)
Definition reported s (p : SessionState * Prelude.result (option StateEvent)) : Prop :=
  same_core s p.1 ∧
  match p.2 with
  | Ret (Some e) => ev_sequence e = sequence p.1 ∧ sequence p.1 = (sequence s + 1)%N
  | _ => sequence p.1 = sequence s
  end.

Lemma write_parent_core key st re now s : reported s (write_parent key st re now s).
Proof.
  unfold write_parent. cbv zeta. destruct (new_WorkStatus _ _ _ _ _ _ _) as [status|]; [|done].
  set (s2 := _ <| ws_parents := _ |>).
  assert (quiet_rel s s2) as H2 by (unfold s2; by case_bool_decide). clearbody s2.
  pose proof (quiet_trans _ _ _ H2 (evict_core key s2)) as [(? & ? & ? & ?) Hq].
  unfold reported, same_core. simpl. by rewrite Hq.
Qed.

Lemma reaggregate_core key now s : reported s (reaggregate_parent key now s).
Proof.
  unfold reaggregate_parent. cbv zeta. destruct (dict_values _); [done|].
  destruct (aggregate _) as [st re]. pose proof (write_parent_core key st re now s) as Hw.
  destruct (_ && _); [done|]. destruct (dict_get key (ws_parents s)) as [r|].
  - destruct (bool_decide _); [done|]. destruct (WORK_STATUS_TERMINAL _); [done|].
    by destruct (_ && _).
  - by destruct (_ && _).
Qed.

Lemma set_child_core t w p k st e re now s :
  reported s (set_child_work_status t w p k st e re now s).
Proof.
  unfold set_child_work_status. cbv zeta. destruct (negb _); [done|].
  destruct (new_WorkStatus _ _ _ _ _ _ _); [|done].
  match goal with |- reported s (reaggregate_parent ?key now ?s1) =>
    pose proof (reaggregate_core key now s1) as H end.
  destruct (reaggregate_parent _ _ _). exact H.
Qed.

(** ** Event numbering *)

(** A call that lets its caller choose the next sequence number. *)
Definition chooses_sequence o : bool :=
  match o with OpResult _ (Some _) _ => true | _ => false end.

Definition numbered o s (p : SessionState * option StateEvent) : Prop :=
  match p.2 with
  | None => sequence p.1 = sequence s
  | Some e =>
      ev_sequence e = sequence p.1 ∧ (sequence s < sequence p.1)%N ∧
      (chooses_sequence o = false → sequence p.1 = (sequence s + 1)%N)
  end.

Lemma existsb_log r log :
  existsb (λ i, bool_decide (result_id i = result_id r)) log = false →
  ResultLog_append r log = Ret (log ++ [r]).
Proof. unfold ResultLog_append. by intros ->. Qed.

(** The three ways [append_result] ends. *)
Lemma append_result_cases r q e s :
  append_result r q e s = (s, Ret None) ∨
  ∃ r' s1 s' ev, append_result r q e s = (s', Ret (Some ev)) ∧
    ev_sequence ev = sequence s' ∧ ev_payload ev = PResult r' ∧
    result_id r' = result_id r ∧ gr_worker_id r' = gr_worker_id r ∧
    (result_id r ∉ (result_id <$> results s)) ∧
    results s' = results s ++ [r'] ∧ speech s' = speech s ∧ speech_log s' = speech_log s ∧
    sequence s' = (sequence s1 + 1)%N ∧
    (sequence s1 = sequence s ∨ (∃ n, q = Some n ∧ sequence s < n ∧ sequence s1 = n - 1)%N) ∧
    (workers s' = workers s ∨
     ((active_epoch s = None ∨
       (match e with Some _ => e | None => gr_origin_epoch r end) = active_epoch s) ∧
     ∃ w, dict_get (gr_worker_id r) (workers s) = Some w ∧
       workers s' = dict_set (gr_worker_id r)
                      (w <| ws_latest_result_id := Some (result_id r) |>) (workers s))).
Proof.
  unfold append_result, log_result.
  destruct (_ && _); [by left|]. destruct (_ && _ && _); [by left|].
  set (r' := if _ && _ then _ else r).
  assert (result_id r' = result_id r ∧ gr_worker_id r' = gr_worker_id r ∧
          (match e with Some _ => e | None => gr_origin_epoch r' end) =
          (match e with Some _ => e | None => gr_origin_epoch r end)) as (Hid & Hwk & Hep).
  { unfold r'. destruct e; [by destruct (_ && _) | done]. }
  clearbody r'. cbv zeta. rewrite Hep. destruct (existsb _ _) eqn:Ex; [by left|]. right.
  assert (result_id r ∉ (result_id <$> results s)) as Hfresh.
  { intros (i & Hi & Hin)%list_elem_of_fmap. apply not_true_iff_false in Ex. apply Ex, existsb_exists.
    exists i. rewrite <- list_elem_of_In, bool_decide_eq_true. split; [done | congruence]. }
  destruct (_ && _) eqn:Eact.
  - rewrite existsb_log by done. exists r', s. eexists _, _. split; [unfold emit; reflexivity|].
    split_and!; try done; by left.
  - set (s1 := match q with Some _ => _ | None => s end).
    assert (results s1 = results s ∧ workers s1 = workers s ∧ speech s1 = speech s ∧
            speech_log s1 = speech_log s ∧
            (sequence s1 = sequence s ∨ (∃ n, q = Some n ∧ sequence s < n ∧ sequence s1 = n - 1)%N))
      as (Hr1 & Hw1 & Hs1 & Hl1 & Hq1).
    { unfold s1. destruct q as [n|]; [|by split_and!; auto].
      destruct (decide (sequence s < n)%N); simpl; split_and!; try done; [right; eauto | by left]. }
    clearbody s1. rewrite Hr1, existsb_log by done. cbv zeta.
    cbn [workers setter eta]. exists r', s1. rewrite Hwk, Hid, Hw1.
    assert (active_epoch s = None ∨
            (match e with Some _ => e | None => gr_origin_epoch r end) = active_epoch s) as Ha.
    { apply andb_false_iff in Eact as [Ea|Ea]; apply negb_false_iff, bool_decide_eq_true in Ea; auto. }
    destruct (dict_get (gr_worker_id r) (workers s)) as [w|]; eexists _, _; (split; [unfold emit; reflexivity|]);
      split_and!; simpl; try done; eauto.
Qed.

(** What a speech report does: nothing, or one record appended. *)
Lemma speech_cases p e allow s :
  let s' := (apply_speech_progress p e allow s).1 in
  (s' = s) ∨
  (∃ p' ev, sp_utterance_id p' = sp_utterance_id p ∧ sp_state p' = sp_state p ∧
     speech s' = dict_set (sp_utterance_id p) p' (speech s) ∧
     speech_log s' = dict_set (sp_utterance_id p)
                       (speech_history (sp_utterance_id p) s ++ [p']) (speech_log s) ∧
     workers s' = workers s ∧ results s' = results s ∧
     sequence s' = (sequence s + 1)%N ∧ last (events s') = Some ev ∧ ev_sequence ev = sequence s' ∧
     ev_kind ev = "speech_progress" ∧ ev_payload ev = PSpeech p' ∧
     (∀ prev, dict_get (sp_utterance_id p) (speech s) = Some prev → progress_le prev p')).
Proof.
  cbv zeta. unfold apply_speech_progress, speech_progress. cbv zeta.
  destruct (fenced _ _ && _); [by left|].
  set (p' := mkSpeechProgress _ _ _ _ _ _).
  destruct (dict_get _ (speech s)) as [prev|] eqn:Ep;
    [destruct (delivery_terminal _) eqn:Et; [by left|]; case_decide; [by left|]|].
  all: right; exists p', (mkStateEvent (sequence s + 1) "speech_progress" (PSpeech p'));
    split_and!; try done; try (simpl; apply deque_append_last; vm_compute; lia).
  intros ? [= <-]. split; [done|]. simpl. lia.
Qed.

Lemma exec_numbered o s : numbered o s (exec o s).
Proof.
  destruct o; unfold numbered; simpl; try done.
  - unfold set_worker. destruct (fenced _ _); simpl; [done | split_and!; [done | lia | done]].
  - unfold set_routing. destruct (fenced _ _); simpl; [done | split_and!; [done | lia | done]].
  - unfold append_transcript. destruct (fenced _ _); [done|]. destruct (existsb _ _); [done|].
    simpl. split_and!; [done | lia | done].
  - destruct (append_result_cases r seq origin s) as [->|(r' & s1 & s' & ev & -> & Hev & _ & H)]; [done|]. simpl.
    destruct H as (_ & _ & _ & _ & _ & _ & Hs' & Hs1 & _).
    destruct Hs1 as [E|(n & -> & ? & ?)]; (split_and!; [done | lia | intros ?; try done; lia]).
  - destruct (speech_cases p origin allow_stale_reconnect s)
      as [->|(p' & ev & _ & _ & _ & _ & _ & _ & Hs & Hl & Hev & _)].
    + by rewrite decide_True.
    + rewrite decide_False by lia. rewrite Hl. split_and!; [done | lia | done].
  - pose proof (set_child_core turn_id work_item_id parent_work_item_id worker_id state
      origin_epoch terminal_reason now s) as [_ H].
    destruct (set_child_work_status _ _ _ _ _ _ _ _ _) as [s' [[ev|]|]]; simpl in *; try done.
    destruct H as [? ?]. split_and!; [done | lia | done].
  - destruct include_work_status; [|done]. apply prune_core.
Qed.

(** Event numbers: over any sequence of calls the emitted events have
    strictly increasing sequence numbers above the starting one, the state's
    sequence is that of the last event, and as long as no caller supplies an
    explicit sequence they are consecutive, so a client can detect a gap. *)
Theorem event_sequences ops s :
  let '(s', evs) := run ops s in
  StronglySorted (λ a b, ev_sequence a < ev_sequence b)%N evs ∧
  Forall (λ e, sequence s < ev_sequence e ≤ sequence s')%N evs ∧
  (sequence s ≤ sequence s')%N ∧
  (Forall (λ o, chooses_sequence o = false) ops →
     sequence s' = (sequence s + N.of_nat (length evs))%N).
Proof.
  revert s. induction ops as [|o ops IH]; intros s.
  { simpl. split_and!; try constructor; [lia | intros; lia]. }
  rewrite run_cons. pose proof (exec_numbered o s) as Hn. unfold numbered in Hn.
  specialize (IH (exec o s).1). destruct (run ops (exec o s).1) as [s' evs].
  destruct IH as (Hss & Hf & Hle & Hc). cbn [fst snd].
  destruct (exec o s).2 as [e|]; cbn [option_list app].
  - destruct Hn as (He & Hlt & Hc1). split_and!.
    + constructor; [done|]. eapply Forall_impl; [exact Hf|]. cbv beta. intros. lia.
    + constructor; [lia|]. eapply Forall_impl; [exact Hf|]. cbv beta. intros. lia.
    + lia.
    + intros [Ho Hops]%Forall_cons. rewrite (Hc Hops), (Hc1 Ho). cbn [length]. lia.
  - rewrite Hn in *. split_and!; try done. intros [_ Hops]%Forall_cons. by apply Hc.
Qed.

(** ** Delivery *)

Lemma delivery_same s s' :
  speech s' = speech s → speech_log s' = speech_log s →
  (delivery_inv s → delivery_inv s') ∧ ∀ u, speech_history u s' = speech_history u s.
Proof.
  intros E1 E2. unfold delivery_inv, speech_history. rewrite E1, E2. done.
Qed.

(** Either nothing of the speech record changes, or the call is a report. *)
Lemma exec_speech_frame o s :
  (speech (exec o s).1 = speech s ∧ speech_log (exec o s).1 = speech_log s) ∨
  ∃ p e allow, o = OpSpeech p e allow.
Proof.
  destruct o; try by left.
  - left. unfold exec, set_worker. by destruct (fenced _ _).
  - left. unfold exec, set_routing. by destruct (fenced _ _).
  - left. unfold exec, append_transcript. by repeat case_match.
  - left. simpl. destruct (append_result_cases r seq origin s) as [->|(r' & s1 & s' & ev & -> & Hev & _ & H)]; [done|].
    simpl. naive_solver.
  - right. eauto.
  - left. simpl. pose proof (set_child_core turn_id work_item_id parent_work_item_id worker_id state
      origin_epoch terminal_reason now s) as [(_ & ? & _ & ?) _].
    by destruct (set_child_work_status _ _ _ _ _ _ _ _ _).
  - left. simpl. destruct include_work_status; [|done].
    by destruct (prune_core now s) as [(_ & ? & _ & ?) _].
Qed.

Lemma exec_delivery o s :
  delivery_inv s →
  delivery_inv (exec o s).1 ∧
  ∀ u, speech_history u s `prefix_of` speech_history u (exec o s).1 ∧
       (∀ p, dict_get u (speech s) = Some p → delivery_terminal (sp_state p) = true →
             speech_history u (exec o s).1 = speech_history u s).
Proof.
  intros Hi. destruct (exec_speech_frame o s) as [[E1 E2]|(p & e & allow & ->)].
  { destruct (delivery_same _ _ E1 E2) as [H1 H2]. split; [auto|]. intros u. rewrite H2. done. }
  cbn [exec fst]. destruct (speech_cases p e allow s) as
    [->|(p' & ev & Hu & Hst & Hsp & Hlog & _ & _ & _ & _ & _ & _ & _ & Hprev)]; [done|].
  set (s' := (apply_speech_progress p e allow s).1) in *. set (u0 := sp_utterance_id p) in *.
  assert (∀ u, speech_history u s' =
            if decide (u0 = u) then speech_history u s ++ [p'] else speech_history u s) as Hh.
  { intros u. unfold speech_history at 1. rewrite Hlog, dict_get_set. case_decide; by subst. }
  destruct (Hi u0) as [Hlast _]. rewrite Hlast in Hprev.
  split; intros u; rewrite Hh.
  - rewrite Hsp, dict_get_set. destruct (Hi u) as [Hlu Hso]. case_decide; [subst u|done].
    rewrite last_snoc. split; [done|]. by apply Sorted_snoc.
  - case_decide; [subst u|done]. split; [by eexists|]. intros q Hq Ht. rewrite <- Hlast in Hprev.
    destruct (Hprev q Hq) as [Hf _]. congruence.
Qed.

(** Delivery is a forward state machine: over any sequence of calls each
    utterance's history only grows, the current record is its last entry, every
    step of it leaves a non-terminal state for one of no lower rank, and once
    an utterance is delivered, unknown or interrupted its history never changes
    again, whatever epoch or reconnect bypass a later report carries. *)
Theorem delivery_forward ops s :
  delivery_inv s →
  delivery_inv (run ops s).1 ∧
  ∀ u, speech_history u s `prefix_of` speech_history u (run ops s).1 ∧
       (∀ p, dict_get u (speech s) = Some p → delivery_terminal (sp_state p) = true →
             speech_history u (run ops s).1 = speech_history u s).
Proof.
  revert s. induction ops as [|o ops IH]; intros s Hi; [done|].
  rewrite run_cons. cbn [fst]. destruct (exec_delivery o s Hi) as [Hi1 H1].
  destruct (IH _ Hi1) as [Hi2 H2]. split; [done|]. intros u.
  destruct (H1 u) as [Hp1 Ht1], (H2 u) as [Hp2 Ht2]. split; [by etrans|].
  intros p Hp Ht. rewrite (Ht2 p); [by eapply Ht1 | |done].
  rewrite (proj1 (Hi1 u)), (Ht1 p Hp Ht), <- (proj1 (Hi u)). done.
Qed.

(** ** Results *)

(** [append_result] is total, idempotent per result identifier and fenced:
    it never raises (the duplicate check precedes [ResultLog.append]); either it
    changes nothing, or it appends exactly one result with a fresh identifier;
    and a commit whose effective epoch is not the active one leaves every worker
    pointer and all speech state untouched. *)
Theorem append_result_commits r q e s :
  let '(s', out) := append_result r q e s in
  (out = Ret None ∧ s' = s) ∨
  (∃ ev r', out = Ret (Some ev) ∧ ev_payload ev = PResult r' ∧ result_id r' = result_id r ∧
     (result_id r ∉ (result_id <$> results s)) ∧ results s' = results s ++ [r'] ∧
     speech s' = speech s ∧
     (active_epoch s ≠ None → (match e with Some _ => e | None => gr_origin_epoch r end) ≠ active_epoch s →
        workers s' = workers s)).
Proof.
  destruct (append_result_cases r q e s) as [->|(r' & s1 & s' & ev & -> & Hev & Hp & H)]; [by left|].
  right. destruct H as (Hid & _ & Hf & Hr & Hsp & _ & _ & _ & Hw).
  exists ev, r'. split_and!; try done. intros Ha He.
  destruct Hw as [?|([?|?] & _)]; done.
Qed.

(** Epoch fencing: while an epoch is active, a worker, routing, transcript
    or speech report that originates from any other epoch (or from none)
    changes nothing and emits nothing, and a result with no origin is refused. *)
Theorem stale_epoch_is_inert s active w r t p res q allow :
  active_epoch s = Some active →
  (ws_origin_epoch w ≠ Some active → set_worker w s = (s, None)) ∧
  (rs_origin_epoch r ≠ Some active → set_routing r s = (s, None)) ∧
  (te_origin_epoch t ≠ Some active → append_transcript t s = (s, None)) ∧
  (sp_origin_epoch p ≠ Some active → allow = false → (apply_speech_progress p None allow s).1 = s) ∧
  append_result res q None s = (s, Ret None).
Proof.
  intros Ha. assert (∀ x, x ≠ Some active → fenced s x = true) as Hf.
  { intros x Hx. unfold fenced. rewrite Ha. by rewrite bool_decide_false. }
  split_and!.
  - intros H. unfold set_worker. by rewrite Hf.
  - intros H. unfold set_routing. by rewrite Hf.
  - intros H. unfold append_transcript. by rewrite Hf.
  - intros H ->. unfold apply_speech_progress, speech_progress. cbv zeta. by rewrite Hf.
  - unfold append_result. by rewrite Ha.
Qed.

(** ** Well-formedness is kept *)

Lemma session_wf_same s s' :
  workers s' = workers s → speech s' = speech s → results s' = results s →
  session_wf s → session_wf s'.
Proof. intros E1 E2 E3 []. split; by rewrite ?E1, ?E2, ?E3. Qed.

Lemma dict_set_keyed {V} (f : V → string) k v (d : dict string V) :
  (∀ k' v', (k', v') ∈ d → f v' = k') → f v = k → ∀ k' v', (k', v') ∈ dict_set k v d → f v' = k'.
Proof. intros Hd Hv k' v' [?|?]%dict_set_elem; [by simplify_eq | eauto]. Qed.

Lemma exec_wf o s : session_wf s → session_wf (exec o s).1.
Proof.
  intros Hwf. destruct o; simpl.
  1-3: by eapply session_wf_same; [..|exact Hwf].
  - unfold set_worker. destruct (fenced _ _); [done|]. destruct Hwf. split; simpl; auto with dict.
    by apply dict_set_keyed.
  - unfold set_routing. destruct (fenced _ _); [done|]. by eapply session_wf_same; [..|exact Hwf].
  - unfold append_transcript. repeat case_match; try done; by eapply session_wf_same; [..|exact Hwf].
  - destruct (append_result_cases r seq origin s) as [->|(r' & s1 & s' & ev & -> & _ & _ & H)]; [done|].
    destruct H as (Hid & _ & Hf & Hr & Hsp & _ & _ & _ & Hw). simpl.
    pose proof Hwf as [Hw1 Hw2 Hw3 Hw4 Hw5]. split; rewrite ?Hsp, ?Hr; try done.
    + destruct Hw as [->|(_ & w & _ & ->)]; auto with dict.
    + destruct Hw as [->|(_ & w & Hg & ->)]; [done|]. apply dict_set_keyed; [done|]. simpl.
      apply dict_get_elem in Hg. eauto.
    + rewrite fmap_app. apply NoDup_app. split; [done|]. split; [|apply NoDup_singleton].
      intros x Hx ->%list_elem_of_singleton. congruence.
  - destruct (speech_cases p origin allow_stale_reconnect s)
      as [->|(p' & ev & Hu & _ & Hsp & _ & Hw & Hr & _)]; [done|].
    destruct Hwf. split; rewrite ?Hsp, ?Hw, ?Hr; auto with dict. by apply dict_set_keyed.
  - pose proof (set_child_core turn_id work_item_id parent_work_item_id worker_id state
      origin_epoch terminal_reason now s) as [(? & ? & ? & ?) _].
    destruct (set_child_work_status _ _ _ _ _ _ _ _ _). by eapply session_wf_same; [..|exact Hwf].
  - destruct include_work_status; [|done]. destruct (prune_core now s) as [(? & ? & ? & ?) _].
    by eapply session_wf_same; [..|exact Hwf].
Qed.

Lemma run_wf ops s : session_wf s → session_wf (run ops s).1.
Proof.
  revert s. induction ops as [|o ops IH]; intros s Hs; [done|].
  rewrite run_cons. by apply IH, exec_wf.
Qed.

Lemma init_wf sid token wm : session_wf (SessionState_init sid token wm).1.
Proof. split; simpl; try constructor; intros ?? H; by apply not_elem_of_nil in H. Qed.

Lemma init_delivery sid token wm : delivery_inv (SessionState_init sid token wm).1.
Proof. intros u. split; [done | constructor]. Qed.

Lemma run_delivery_inv ops s : delivery_inv s → delivery_inv (run ops s).1.
Proof.
  revert s. induction ops as [|o ops IH]; intros s Hi; [done|].
  rewrite run_cons. by apply IH, exec_delivery.
Qed.


(** ** Snapshot round trip *)

Lemma foldl_dict_set {K V W} `{EqDecision K} (f : W → K) (g : W → V) (l : list W) (d : dict K V) :
  NoDup (f <$> l) → (∀ w, w ∈ l → f w ∉ dict_keys d) →
  foldl (λ d w, dict_set (f w) (g w) d) d l = d ++ ((λ w, (f w, g w)) <$> l).
Proof.
  revert d. induction l as [|w l IH]; intros d; csimpl; [by rewrite app_nil_r|].
  intros [Hw Hnd]%NoDup_cons Hd. rewrite dict_set_notin by (apply Hd; constructor).
  rewrite IH; [by rewrite <- app_assoc | done |].
  intros w' Hw'. unfold dict_keys. rewrite fmap_app, not_elem_of_app. split; [apply Hd; by constructor|].
  csimpl. rewrite list_elem_of_singleton. intros E. apply Hw. rewrite <- E.
  apply list_elem_of_fmap. eauto.
Qed.

Lemma keyed_values {K V} `{EqDecision K} (f : V → K) (d : dict K V) :
  (∀ k v, (k, v) ∈ d → f v = k) → f <$> dict_values d = dict_keys d.
Proof.
  unfold dict_values, dict_keys. induction d as [|[k v] d IH]; csimpl; [done|]. intros H.
  rewrite (H k v) by constructor. f_equal. apply IH. intros k' v' Hin. apply H. by constructor.
Qed.

(** Refiling a dictionary's values under their own keys rebuilds it. *)
Lemma dict_rebuild {K V} `{EqDecision K} (f : V → K) (d : dict K V) :
  dict_wf d → (∀ k v, (k, v) ∈ d → f v = k) →
  foldl (λ d v, dict_set (f v) v d) [] (dict_values d) = d.
Proof.
  intros Hwf Hk. rewrite (foldl_dict_set f (λ v, v)).
  - unfold dict_values. rewrite <- list_fmap_compose. simpl. transitivity (id <$> d); [|apply list_fmap_id].
    apply list_fmap_ext. intros i [k v] Hi. simpl. f_equal. apply Hk. by eapply list_elem_of_lookup_2.
  - by rewrite keyed_values.
  - intros ? _. apply not_elem_of_nil.
Qed.

(** The fields the wire projection reads. *)
Definition same_wire s s' : Prop :=
  session_id s' = session_id s ∧ sequence s' = sequence s ∧ workers s' = workers s ∧
  results s' = results s ∧ speech s' = speech s ∧ routing_now s' = routing_now s ∧
  transcript s' = transcript s.

Lemma same_wire_trans s t u : same_wire s t → same_wire t u → same_wire s u.
Proof. unfold same_wire. intros (-> & -> & -> & -> & -> & -> & ->). done. Qed.

Lemma forget_wire k s : same_wire s (forget_work_status k s).
Proof. unfold forget_work_status. by repeat case_match. Qed.

Lemma prune_wire now s : same_wire s (prune_expired_work_status now s).
Proof.
  unfold prune_expired_work_status. apply (fold_forget_keeps (same_wire s)); [|done].
  intros t k Ht. eapply same_wire_trans; [exact Ht | apply forget_wire].
Qed.

Lemma fold_workers l s :
  let s' := foldl (λ st w, st <| workers := dict_set (ws_worker_id w) w (workers st) |>) s l in
  same_wire (s <| workers := foldl (λ d w, dict_set (ws_worker_id w) w d) (workers s) l |>) s' ∧
  same_ledger s s'.
Proof.
  cbv zeta. revert s. induction l as [|w l IH]; intros s; simpl; [split; [done | reflexivity]|].
  destruct (IH (s <| workers := dict_set (ws_worker_id w) w (workers s) |>)) as [H1 H2].
  split; [exact H1|]. etransitivity; [|exact H2]. by repeat split.
Qed.

Lemma fold_speech l s :
  let s' := foldl (λ st p, st <| speech := dict_set (sp_utterance_id p) p (speech st) |>
                              <| speech_log := dict_set (sp_utterance_id p) [p] (speech_log st) |>) s l in
  same_wire (s <| speech := foldl (λ d p, dict_set (sp_utterance_id p) p d) (speech s) l |>) s' ∧
  same_ledger s s'.
Proof.
  cbv zeta. revert s. induction l as [|p l IH]; intros s; simpl; [split; [done | reflexivity]|].
  destruct (IH (s <| speech := dict_set (sp_utterance_id p) p (speech s) |>
                  <| speech_log := dict_set (sp_utterance_id p) [p] (speech_log s) |>)) as [H1 H2].
  split; [exact H1|]. etransitivity; [|exact H2]. by repeat split.
Qed.

Lemma append_results_ok rs log :
  NoDup (result_id <$> log ++ rs) → append_results rs log = Ret (log ++ rs).
Proof.
  revert log. induction rs as [|r rs IH]; intros log Hnd; simpl; [by rewrite app_nil_r|].
  rewrite existsb_log.
  - simpl. rewrite IH; rewrite <- app_assoc; done.
  - apply not_true_iff_false. rewrite existsb_exists. intros (x & Hx & Hb).
    apply bool_decide_eq_true in Hb. rewrite fmap_app in Hnd. apply NoDup_app in Hnd as (_ & Hd & _).
    apply (Hd (result_id x)); [apply list_elem_of_fmap; exists x; by rewrite list_elem_of_In|].
    rewrite Hb. csimpl. constructor.
Qed.

Definition restored_record (at_ : Q) (w : WorkStatus) : WorkStatusRecord :=
  mkRecord w (if WORK_STATUS_TERMINAL (wst_state w) then Some at_ else None).

(** Every retention clock of a restored ledger reads the restore instant. *)
Definition clocks_at (at_ : Q) s : Prop :=
  (∀ k r t, dict_get k (ws_parents s) = Some r → rec_terminal_at r = Some t → t = at_) ∧
  (∀ k t, dict_get k (ws_nonauthoritative_at s) = Some t → t = at_).

Lemma fold_restore at_ ws s :
  clocks_at at_ s →
  let s' := foldl (restore_status at_) s ws in
  same_wire s s' ∧ clocks_at at_ s' ∧
  ws_parents s' = foldl (λ d w, dict_set (status_key w) (restored_record at_ w) d) (ws_parents s) ws.
Proof.
  cbv zeta. revert s. induction ws as [|w ws IH]; intros s Hc; simpl; [done|].
  destruct (IH (restore_status at_ s w)) as (H1 & H2 & H3).
  - destruct Hc as [Hp Hn]. split; simpl.
    + intros k r t. rewrite dict_get_set. case_decide; [|apply Hp]. intros [= <-]. simpl. case_match; congruence.
    + intros k t. rewrite dict_get_set. case_decide; [congruence | apply Hn].
  - split; [|done]. eapply same_wire_trans; [|exact H1]. done.
Qed.

Lemma clocks_fresh at_ now s :
  clocks_at at_ s → (now - at_ < WORK_STATUS_TTL_SECONDS)%Q → prune_expired_work_status now s = s.
Proof.
  intros [Hp Hn] Hlt. unfold prune_expired_work_status.
  destruct (expired_keys now s) as [|k ks] eqn:E; [done|]. exfalso.
  assert (k ∈ expired_keys now s) as Hk by (rewrite E; constructor).
  apply expired_keys_elem in Hk. unfold expired, work_status_expiry_stamp in Hk.
  destruct (dict_get k (ws_parents s)) as [r|] eqn:Er; [|done].
  destruct (rec_terminal_at r) as [t|] eqn:Et.
  - rewrite (Hp _ _ _ Er Et) in Hk. apply Qle_bool_iff in Hk. lra.
  - destruct (dict_get k (ws_nonauthoritative_at s)) as [t|] eqn:Ea; [|done].
    rewrite (Hn _ _ Ea) in Hk. apply Qle_bool_iff in Hk. lra.
Qed.

Lemma restored_statuses at_ s :
  ledger_inv s →
  let ws := rec_status <$> dict_values (ws_parents s) in
  rec_status <$> dict_values
    (foldl (λ d w, dict_set (status_key w) (restored_record at_ w) d) [] ws) = ws.
Proof.
  intros Hi ws. rewrite (foldl_dict_set status_key (restored_record at_)).
  - unfold dict_values. simpl. rewrite <- !list_fmap_compose.
    transitivity (id <$> ws); [|apply list_fmap_id]. by apply list_fmap_ext.
  - unfold ws. rewrite <- list_fmap_compose, keyed_values; [apply (li_wf_parents _ Hi)|].
    intros k r Hin. apply dict_elem_get in Hin; [|apply (li_wf_parents _ Hi)].
    by destruct (li_record _ Hi k r Hin) as (_ & _ & ? & _).
  - intros ? _. apply not_elem_of_nil.
Qed.

Lemma init_fields sid token wm :
  let s := (SessionState_init sid token wm).1 in
  session_id s = sid ∧ workers s = [] ∧ results s = [] ∧ speech s = [] ∧ transcript s = [] ∧
  ws_parents s = [] ∧ ws_nonauthoritative_at s = [].
Proof. done. Qed.

Lemma ledger_empty at_ s s' :
  same_ledger s s' → ws_parents s = [] → ws_nonauthoritative_at s = [] →
  ws_parents s' = [] ∧ clocks_at at_ s'.
Proof.
  unfold same_ledger, ledger_of, clocks_at. intros E Hp Hn. simplify_eq.
  replace (ws_parents s') with (ws_parents s) by congruence.
  replace (ws_nonauthoritative_at s') with (ws_nonauthoritative_at s) by congruence.
  by rewrite Hp, Hn.
Qed.

Lemma from_snapshot_spec token at_ snap wm (ws : dict string WorkerState) (sp : dict string SpeechProgress) :
  dict_wf ws → (∀ k w, (k, w) ∈ ws → ws_worker_id w = k) →
  dict_wf sp → (∀ k p, (k, p) ∈ sp → sp_utterance_id p = k) →
  NoDup (result_id <$> snap_results snap) →
  snap_workers snap = dict_values ws → snap_speech_progress snap = dict_values sp →
  ∃ s', from_snapshot token at_ snap wm = Ret (s', reset_monotonicity (snap_session_id snap) wm) ∧
    clocks_at at_ s' ∧
    session_id s' = snap_session_id snap ∧ sequence s' = snap_snapshot_sequence snap ∧
    workers s' = ws ∧ results s' = snap_results snap ∧ speech s' = sp ∧
    routing_now s' = snap_routing snap ∧ transcript s' = snap_transcript snap ∧
    ws_parents s' = foldl (λ d w, dict_set (status_key w) (restored_record at_ w) d) []
                      (snap_work_status snap).
Proof.
  intros Hw Hwk Hsp Hspk Hr Ew Es. unfold from_snapshot.
  destruct (init_fields (snap_session_id snap) token wm) as (I1 & I2 & I3 & I4 & I5 & I6 & I7).
  change (SessionState_init (snap_session_id snap) token wm)
    with ((SessionState_init (snap_session_id snap) token wm).1, reset_monotonicity (snap_session_id snap) wm).
  set (s0 := (SessionState_init _ _ _).1) in *. clearbody s0. cbv iota beta zeta.
  destruct (fold_workers (snap_workers snap) (s0 <| sequence := snap_snapshot_sequence snap |>)) as [W L].
  set (s1 := foldl (A:=SessionState) _ _ (snap_workers snap)) in *. clearbody s1.
  destruct W as (W1 & W2 & W3 & W4 & W5 & W6 & W7). simpl in *.
  rewrite Ew, I2 in W3. rewrite (dict_rebuild ws_worker_id ws Hw Hwk) in W3. rewrite W4, I3, append_results_ok by done. cbn [rbind app].
  destruct (fold_speech (snap_speech_progress snap) (s1 <| results := snap_results snap |>)) as [P L'].
  set (s2 := foldl (A:=SessionState) _ _ (snap_speech_progress snap)) in *. clearbody s2.
  destruct P as (P1 & P2 & P3 & P4 & P5 & P6 & P7). simpl in *.
  rewrite Es, W5, I4 in P5; rewrite (dict_rebuild sp_utterance_id sp Hsp Hspk) in P5.
  destruct (ledger_empty at_ s0 s2) as [E1 E2]; [|done|done|].
  { etransitivity; [|exact L']. etransitivity; [|exact L]. by repeat split. }
  destruct (fold_restore at_ (snap_work_status snap)
              (s2 <| routing_now := snap_routing snap |> <| transcript := transcript s2 ++ snap_transcript snap |>))
    as (R & Hc & Hp); [exact E2|].
  eexists. split; [reflexivity|]. set (s3 := foldl (A:=SessionState) _ _ (snap_work_status snap)) in *. clearbody s3.
  destruct R as (R1 & R2 & R3 & R4 & R5 & R6 & R7). simpl in *.
  rewrite E1 in Hp. split; [done|]. rewrite P7, W7, I5 in R7. simpl in R7. split_and!; congruence.
Qed.

Lemma snapshot_fields e now wm s s1 snap wm1 :
  snapshot e true now wm s = (s1, Ret (snap, wm1)) →
  s1 = prune_expired_work_status now s ∧
  snap = mkRuntimeSnapshot CONTRACT_VERSION (session_id s1) (sequence s1)
           (dict_values (workers s1)) (results s1) (dict_values (speech s1)) (routing_now s1)
           (transcript s1) e (rec_status <$> dict_values (ws_parents s1)).
Proof.
  unfold snapshot, work_status_snapshot. cbv iota beta zeta.
  set (s' := prune_expired_work_status now s). clearbody s'.
  intros E. injection E as -> E. split; [done|].
  match type of E with (rbind ?c _) = _ => destruct c end; simpl in E; [congruence|done].
Qed.

Lemma snapshot_ok e now wm s :
  dict_get (session_id s) wm = None → prune_expired_work_status now s = s →
  ∃ wm', snapshot e true now wm s =
    (s, Ret (mkRuntimeSnapshot CONTRACT_VERSION (session_id s) (sequence s)
           (dict_values (workers s)) (results s) (dict_values (speech s)) (routing_now s)
           (transcript s) e (rec_status <$> dict_values (ws_parents s)), wm')).
Proof.
  intros Hwm Hp. unfold snapshot, work_status_snapshot. cbv iota beta zeta. rewrite Hp.
  unfold validate_version_and_monotonicity. cbn [snap_contract_version snap_session_id].
  rewrite bool_decide_true, Hwm by done. cbn [negb rbind]. by eexists.
Qed.

(** C35.  Snapshot round trip: the snapshot a reachable session exports is
    accepted by [from_snapshot], and the restored session exports exactly the
    same snapshot again, without losing a record, at every instant before the
    work-status retention time has passed since the restore. *)
Theorem snapshot_roundtrip token at_ e now wm s s1 snap wm1 :
  ledger_inv s → session_wf s →
  snapshot e true now wm s = (s1, Ret (snap, wm1)) →
  ∃ s' wm', from_snapshot token at_ snap wm1 = Ret (s', wm') ∧
    ∀ now2, (now2 - at_ < WORK_STATUS_TTL_SECONDS)%Q →
    ∃ wm2, snapshot e true now2 wm' s' = (s', Ret (snap, wm2)).
Proof.
  intros Hi Hwf (E1 & E2)%snapshot_fields.
  assert (ledger_inv s1) as Hi1 by (rewrite E1; apply (prune_step now s Hi)).
  assert (session_wf s1) as [].
  { pose proof (prune_wire now s) as (_ & _ & ? & ? & ? & _). rewrite E1.
    by eapply session_wf_same; [..|exact Hwf]. }
  destruct (from_snapshot_spec token at_ snap wm1 (workers s1) (speech s1))
    as (s' & Hs' & Hc & F1 & F2 & F3 & F4 & F5 & F6 & F7 & F8); try done.
  { by rewrite E2. } { by rewrite E2. } { by rewrite E2. }
  exists s', (reset_monotonicity (snap_session_id snap) wm1). split; [done|]. intros now2 Hlt.
  destruct (snapshot_ok e now2 (reset_monotonicity (snap_session_id snap) wm1) s') as [wm2 Hs2].
  { rewrite F1. apply dict_get_pop_eq. }
  { by apply (clocks_fresh at_). }
  exists wm2. rewrite Hs2. rewrite E2 in F8. cbn [snap_work_status] in F8.
  rewrite F8, (restored_statuses at_ s1 Hi1), F1, F2, F3, F4, F5, F6, F7, E2. done.
Qed.

End facts.

(** ** Witnesses *)

#[local] Existing Instance RETENTION_FALLBACK.

Definition w_speech (st : DeliveryState) : op :=
  OpSpeech (mkSpeechProgress "r1" "work-1" "run" "u1" st (Some 1%N)) (Some 1%N) false.

Definition w_session_ops : list op :=
  OpPromote (Some 1%N) ::
  OpWorker (mkWorkerState "w1" "rust" "search" "idle" None (Some 1%N)) ::
  w_speech STARTED :: w_speech DELIVERY_COMPLETED :: w_speech INTERRUPTED :: w_ops.

Definition w_session : SessionState := (run w_session_ops w_init).1.

Lemma w_session_ops_ok : Forall op_ok w_session_ops.
Proof. repeat constructor; done. Qed.

Lemma w_session_inv : ledger_inv w_session.
Proof. apply run_ledger_inv; [apply init_inv | apply w_session_ops_ok]. Qed.

Lemma w_session_wf : session_wf w_session.
Proof. apply run_wf, init_wf. Qed.


Lemma delivery_forward_witness :
  sp_state <$> speech_history "u1" w_session = [STARTED; DELIVERY_COMPLETED] ∧ delivery_inv w_session.
Proof.
  split; [vm_compute; reflexivity|].
  exact (proj1 (delivery_forward w_session_ops w_init (init_delivery "s" "tok" []))).
Defined.

Lemma stale_epoch_is_inert_witness :
  set_routing (mkRoutingState "t" direct None None None None (Some 2%N)) w_session = (w_session, None).
Proof.
  assert (active_epoch w_session = Some 1%N) as Ha by (vm_compute; reflexivity).
  destruct (stale_epoch_is_inert w_session 1%N (mkWorkerState "w1" "rust" "p" "idle" None None)
    (mkRoutingState "t" direct None None None None (Some 2%N)) (mkTranscriptEntry user "hi" "t" "0" None)
    (mkSpeechProgress "r" "w" "n" "u" STARTED None)
    (mkGroundedResult "r" "w" "t" "0" "x" [] "x" None) None false Ha) as (_ & H & _).
  by apply H.
Defined.

Lemma snapshot_roundtrip_witness :
  ∃ snap wm1 s' wm', (snapshot None true 1 [] w_session).2 = Ret (snap, wm1) ∧
    from_snapshot "tok" 5 snap wm1 = Ret (s', wm') ∧
    ∃ wm2, snapshot None true 6 wm' s' = (s', Ret (snap, wm2)).
Proof.
  destruct (snapshot None true 1 [] w_session) as [s1 [[snap wm1]|]] eqn:E; [|vm_compute in E; discriminate].
  destruct (snapshot_roundtrip "tok" 5 None 1 [] w_session s1 snap wm1 w_session_inv w_session_wf E)
    as (s' & wm' & H1 & H2).
  exists snap, wm1, s', wm'. split_and!; [done | done | apply H2; vm_compute; reflexivity].
Defined.
