(* ===== verification/ConnectionArbiter.v ===== *)
(** Connection epoch fencing ([src/server/connection_arbiter.py]).

    [ConnectionArbiter] holds the epoch of the one promoted browser transport;
    [ConnectionEpochArbiter] adds the client identifier and the history of
    replaced connections.  The subclass extends the base state, so one record
    models both and the base operations act on its first part.  Epochs are
    non-negative once validated; [activate] receives an unvalidated integer. *)

From Stdlib Require Import Sorting.Sorted.
From S2P Require Import Prelude PyDict Contracts.

Record Connection := mkConnection {
  cn_epoch : N;
  cn_session_id : string;
  cn_resume_token : string;
  cn_capabilities : list string
}.

Record ActiveConnection := mkActiveConnection {
  ac_client_id : string;
  ac_epoch : N
}.

Record ConnectionArbiter := mkArbiter {
  arb_session_id : string;
  arb_resume_token : string;
  arb_epoch : N;
  arb_active : option Connection
}.

#[export] Instance eta_ConnectionArbiter : Eta ConnectionArbiter := λ r,
  mkArbiter (arb_session_id r) (arb_resume_token r) (arb_epoch r) (arb_active r).

Record ConnectionEpochArbiter := mkEpochArbiter {
  ea_base : ConnectionArbiter;
  ea_active_client_id : option string;
  ea_previous : list ActiveConnection
}.

#[export] Instance eta_ConnectionEpochArbiter : Eta ConnectionEpochArbiter := λ r,
  mkEpochArbiter (ea_base r) (ea_active_client_id r) (ea_previous r).

(** ** ConnectionArbiter *)

Definition ConnectionArbiter_init (session_id resume_token : string) : ConnectionArbiter :=
  mkArbiter session_id resume_token 0 None.

Definition promote (value : SnapshotHandshake) (a : ConnectionArbiter)
    : ConnectionArbiter * result Connection :=
  if negb (bool_decide (sh_contract_version value = CONTRACT_VERSION)) then
    (a, Raise (ValueError "unsupported contract version"))
  else if negb (bool_decide (sh_session_id value = arb_session_id a))
          || negb (bool_decide (sh_resume_token value = arb_resume_token a)) then
    (a, Raise (ValueError "session identity or resume token is invalid"))
  else if bool_decide (arb_active a ≠ None) && (sh_proposed_epoch value <=? arb_epoch a)%N then
    (a, Raise (ValueError "connection epoch is stale"))
  else
    let connection := mkConnection (sh_proposed_epoch value) (arb_session_id a)
                        (arb_resume_token a) (sh_capabilities value) in
    (a <| arb_epoch := sh_proposed_epoch value |> <| arb_active := Some connection |>,
     Ret connection).

Definition accepts (epoch : option N) (a : ConnectionArbiter) : bool :=
  match arb_active a with
  | Some c => bool_decide (epoch = Some (cn_epoch c))
  | None => false
  end.

Definition require_active (epoch : option N) (a : ConnectionArbiter) : result unit :=
  if negb (accepts epoch a) then Raise (ValueError "stale or missing connection epoch")
  else Ret tt.

Definition fence (epoch : option N) (a : ConnectionArbiter) : bool := accepts epoch a.

(** The callback is any effect on some world [W]; a stale one does not run. *)
Definition route_callback {W A} (epoch : option N) (callback : W → W * result A)
    (a : ConnectionArbiter) (w : W) : W * result A :=
  match require_active epoch a with
  | Raise e => (w, Raise e)
  | Ret _ => callback w
  end.

(** ** ConnectionEpochArbiter *)

Definition ConnectionEpochArbiter_init (session_id resume_token : string) : ConnectionEpochArbiter :=
  mkEpochArbiter (ConnectionArbiter_init session_id resume_token) None [].

Definition validate_handshake (session_id resume_token : string) (proposed_epoch : Z)
    (s : ConnectionEpochArbiter) : bool :=
  let a := ea_base s in
  if negb (bool_decide (session_id = arb_session_id a))
     || negb (bool_decide (resume_token = arb_resume_token a)) then false
  else bool_decide (arb_active a = None) || (Z.of_N (arb_epoch a) <? proposed_epoch)%Z.

(** [SnapshotHandshake.model_validate] of the dictionary [activate] builds:
    [proposed_epoch] is declared [ge=0]. *)
Definition activate_handshake (proposed_epoch : Z) (a : ConnectionArbiter) : result SnapshotHandshake :=
  if (proposed_epoch <? 0)%Z
  then Raise (ValueError "Input should be greater than or equal to 0")
  else new_SnapshotHandshake CONTRACT_VERSION (arb_session_id a) (arb_resume_token a)
         (Z.to_N proposed_epoch) 0 [] false.

Definition activate (client_id : string) (proposed_epoch : Z) (s : ConnectionEpochArbiter)
    : ConnectionEpochArbiter * result ActiveConnection :=
  let previous_client := ea_active_client_id s in
  let previous_epoch := arb_active (ea_base s) in
  match activate_handshake proposed_epoch (ea_base s) with
  | Raise e => (s, Raise e)
  | Ret h =>
      let (a, out) := promote h (ea_base s) in
      let s := s <| ea_base := a |> in
      match out with
      | Raise e => (s, Raise e)
      | Ret connection =>
          let s := match previous_epoch with
                   | Some p => s <| ea_previous ::= (λ l, l ++
                                 [mkActiveConnection (default EmptyString previous_client) (cn_epoch p)]) |>
                   | None => s
                   end in
          (s <| ea_active_client_id := Some client_id |>,
           Ret (mkActiveConnection client_id (cn_epoch connection)))
      end
  end.

Definition accepts_input (client_id : string) (epoch : N) (s : ConnectionEpochArbiter) : bool :=
  bool_decide (ea_active_client_id s = Some client_id) && accepts (Some epoch) (ea_base s).

Definition snapshot_allowed (client_id : string) (epoch : N) (s : ConnectionEpochArbiter) : bool :=
  accepts_input client_id epoch s.

Definition accepts_callback (epoch : N) (s : ConnectionEpochArbiter) : bool :=
  accepts (Some epoch) (ea_base s).

Definition replacement_interruptions (s : ConnectionEpochArbiter) : list (N * string) :=
  (λ c, (ac_epoch c, "interrupted_by_reconnect")) <$> ea_previous s.

(** ** Runs

    Any sequence of attempted promotions, with the epochs of those that
    succeeded. *)

Inductive attempt :=
| Promote (h : SnapshotHandshake)
| Activate (client_id : string) (proposed_epoch : Z).

Definition try (t : attempt) (s : ConnectionEpochArbiter) : ConnectionEpochArbiter * list (string * N) :=
  match t with
  | Promote h =>
      let (a, out) := promote h (ea_base s) in
      (s <| ea_base := a |>,
       match out with Ret c => [(default EmptyString (ea_active_client_id s), cn_epoch c)] | Raise _ => [] end)
  | Activate c e =>
      let (s', out) := activate c e s in
      (s', match out with Ret a => [(ac_client_id a, ac_epoch a)] | Raise _ => [] end)
  end.

Fixpoint try_all (ts : list attempt) (s : ConnectionEpochArbiter)
    : ConnectionEpochArbiter * list (string * N) :=
  match ts with
  | [] => (s, [])
  | t :: ts =>
      let (s1, p1) := try t s in
      let (s2, p2) := try_all ts s1 in (s2, p1 ++ p2)
  end.

(** ** Lemmas *)

(** The base state after a promotion to [e]. *)
Definition promoted_to (a : ConnectionArbiter) (e : N) : Prop :=
  arb_epoch a = e ∧ (cn_epoch <$> arb_active a) = Some e.

Definition arbiter_inv (a : ConnectionArbiter) : Prop :=
  arb_active a = None ∨ promoted_to a (arb_epoch a).

Definition newer (a : ConnectionArbiter) (e : N) : Prop :=
  arb_active a ≠ None → (arb_epoch a < e)%N.

Lemma promote_cases h a :
  (∃ e, promote h a = (a, Raise e)) ∨
  (∃ a' c, promote h a = (a', Ret c) ∧ newer a (cn_epoch c) ∧ promoted_to a' (cn_epoch c) ∧
     cn_capabilities c = sh_capabilities h ∧ cn_epoch c = sh_proposed_epoch h ∧
     arb_session_id a' = arb_session_id a ∧ arb_resume_token a' = arb_resume_token a).
Proof.
  unfold promote. do 2 (case_match; [by left; eexists|]).
  destruct (_ && _) eqn:E; [by left; eexists|]. right. eexists _, _. split; [done|].
  split; [|done]. intros Ha. rewrite bool_decide_true in E by done. apply N.leb_gt in E. done.
Qed.

Lemma activate_cases c e s :
  (∃ x, activate c e s = (s, Raise x)) ∨
  (∃ s' n, activate c e s = (s', Ret (mkActiveConnection c n)) ∧ newer (ea_base s) n ∧
     promoted_to (ea_base s') n ∧ ea_active_client_id s' = Some c ∧ Z.of_N n = e ∧
     ac_epoch <$> ea_previous s' =
       (ac_epoch <$> ea_previous s) ++ option_list (cn_epoch <$> arb_active (ea_base s))).
Proof.
  unfold activate, activate_handshake. destruct (e <? 0)%Z eqn:En; [by left; eexists|].
  cbn [new_SnapshotHandshake validate_capabilities existsb rbind].
  match goal with |- context [promote ?h ?a] => destruct (promote_cases h a)
    as [[x ->]|(a' & cn & -> & Hn & Hp & _ & He & _)] end.
  { left. exists x. by destruct s. }
  right. eexists _, (cn_epoch cn). split; [reflexivity|].
  simpl in He. destruct (arb_active (ea_base s)) eqn:Ea; simpl.
  all: split_and!; try done; rewrite ?He; try lia; rewrite ?fmap_app, ?app_nil_r; done.
Qed.

Lemma try_cases t s :
  (try t s = (s, [])) ∨
  (∃ s' c n, try t s = (s', [(c, n)]) ∧ newer (ea_base s) n ∧ promoted_to (ea_base s') n ∧
     match t with
     | Activate _ _ =>
         ea_active_client_id s' = Some c ∧
         ac_epoch <$> ea_previous s' =
           (ac_epoch <$> ea_previous s) ++ option_list (cn_epoch <$> arb_active (ea_base s))
     | Promote _ => ea_previous s' = ea_previous s
     end).
Proof.
  destruct t as [h|c e]; simpl.
  - destruct (promote_cases h (ea_base s)) as [[x ->]|(a' & cn & -> & Hn & Hp & _)].
    + left. by destruct s.
    + right. eexists _, _, _. split_and!; try done.
  - destruct (activate_cases c e s) as [[x ->]|(s' & n & -> & Hn & Hp & Hc & _ & Hh)]; [by left|].
    right. eexists _, _, _. split_and!; done.
Qed.

(** The epoch a state accepts, as an option. *)
Definition current (s : ConnectionEpochArbiter) : option N := cn_epoch <$> arb_active (ea_base s).

Lemma accepts_current s e : accepts (Some e) (ea_base s) = true ↔ current s = Some e.
Proof.
  unfold accepts, current. destruct (arb_active (ea_base s)) as [c|]; simpl; [|done].
  rewrite bool_decide_eq_true. split; congruence.
Qed.

Lemma sorted_snoc_last (l : list N) n :
  StronglySorted N.lt l → (∀ m, last l = Some m → (m < n)%N) → StronglySorted N.lt (l ++ [n]).
Proof.
  intros Hs Hl. induction Hs as [|x l Hs IH Hf]; simpl; [repeat constructor|].
  constructor.
  - apply IH. intros m Hm. apply Hl. destruct l; [done | exact Hm].
  - apply Forall_app. split; [done|]. constructor; [|done].
    destruct (last l) as [m|] eqn:E.
    + assert (m < n)%N by (apply Hl; destruct l; [done | exact E]).
      apply last_Some in E as [l' ->]. apply Forall_app in Hf as [_ [Hm _]%Forall_cons]. eapply N.lt_trans; [exact Hm | done].
    + apply last_None in E as ->. by apply Hl.
Qed.

(** Every attempt extends the list of promoted epochs by at most one larger
    epoch, which becomes the current one. *)
Lemma try_all_spec ts : ∀ s l,
  arbiter_inv (ea_base s) → StronglySorted N.lt l → current s = last l →
  let '(s', ps) := try_all ts s in
  StronglySorted N.lt (l ++ ps.*2) ∧ current s' = last (l ++ ps.*2).
Proof.
  induction ts as [|t ts IH]; intros s l Hi Hl Hc; cbn [try_all].
  { cbn [fmap list_fmap]. by rewrite app_nil_r. }
  destruct (try_cases t s) as [->|(s' & c & n & -> & Hn & [Hp1 Hp2] & _)].
  { specialize (IH s l Hi Hl Hc). destruct (try_all ts s). exact IH. }
  specialize (IH s' (l ++ [n])). destruct (try_all ts s') as [s2 p2].
  cbn [fmap list_fmap app fst snd]. change (n :: p2.*2) with ([n] ++ p2.*2).
  rewrite app_assoc. apply IH.
  - right. split; congruence.
  - apply sorted_snoc_last; [done|]. intros m Hm. rewrite Hm in Hc. unfold current in Hc.
    destruct Hi as [Hi|[_ Hi]]; [by rewrite Hi in Hc|]. rewrite Hi in Hc. simplify_eq.
    apply Hn. intros E. by rewrite E in Hi.
  - by rewrite last_snoc.
Qed.

Definition is_activate (t : attempt) : bool := match t with Activate _ _ => true | _ => false end.

Lemma activations_spec ts : ∀ s l,
  Forall (λ t, is_activate t = true) ts → current s = last (l.*2) →
  ac_epoch <$> ea_previous s = removelast (l.*2) →
  (∀ p, last l = Some p → ea_active_client_id s = Some p.1) →
  let '(s', ps) := try_all ts s in
  current s' = last ((l ++ ps).*2) ∧
  ac_epoch <$> ea_previous s' = removelast ((l ++ ps).*2) ∧
  (∀ p, last (l ++ ps) = Some p → ea_active_client_id s' = Some p.1).
Proof.
  induction ts as [|t ts IH]; intros s l Hts Hc Hp Ha; cbn [try_all].
  { by rewrite app_nil_r. }
  apply Forall_cons in Hts as [Ht Hts].
  destruct (try_cases t s) as [->|(s' & c & n & -> & _ & [_ Hn] & H)].
  { specialize (IH s l Hts Hc Hp Ha). destruct (try_all ts s). exact IH. }
  destruct t as [?|c' e]; [done|]. destruct H as [H1 H2].
  specialize (IH s' (l ++ [(c, n)])). destruct (try_all ts s') as [s2 p2].
  cbn [app]. change ((c, n) :: p2) with ([(c, n)] ++ p2). rewrite app_assoc. apply IH; [done| | |].
  - unfold current. rewrite fmap_app. csimpl. by rewrite last_snoc.
  - rewrite fmap_app. csimpl. rewrite removelast_last, H2, Hp.
    unfold current in Hc. rewrite Hc. destruct (last l.*2) as [m|] eqn:E.
    + apply last_Some in E as [l' ->]. by rewrite removelast_last.
    + by apply last_None in E as ->.
  - intros p. rewrite last_snoc. by intros [= <-].
Qed.

(** ** Theorems *)

(** Fencing: over any sequence of attempted promotions, valid or not, the
    epochs that get promoted strictly increase, and exactly the last of them
    is accepted; an epoch once replaced is never accepted again, and a report
    with no epoch is never accepted. *)
Theorem promotions_fence sid token ts :
  let '(s, ps) := try_all ts (ConnectionEpochArbiter_init sid token) in
  StronglySorted N.lt ps.*2 ∧
  (∀ e, accepts (Some e) (ea_base s) = true ↔ last ps.*2 = Some e) ∧
  accepts None (ea_base s) = false.
Proof.
  pose proof (try_all_spec ts (ConnectionEpochArbiter_init sid token) []) as H.
  destruct (try_all ts _) as [s ps]. destruct H as [H1 H2]; [by left | constructor | done |].
  split; [exact H1|]. split.
  - intros e. rewrite accepts_current, H2. done.
  - unfold accepts. by destruct (arb_active (ea_base s)).
Qed.

(** The client-tracking facade: after any sequence of activations the
    only admitted client and epoch are those of the last successful one, and
    the reconnect interruptions are exactly the epochs it replaced, in order. *)
Theorem activation_history sid token ts :
  Forall (λ t, is_activate t = true) ts →
  let '(s, ps) := try_all ts (ConnectionEpochArbiter_init sid token) in
  (∀ c e, accepts_input c e s = true ↔ last ps = Some (c, e)) ∧
  replacement_interruptions s = (λ e, (e, "interrupted_by_reconnect")) <$> removelast ps.*2.
Proof.
  intros Hts. pose proof (activations_spec ts (ConnectionEpochArbiter_init sid token) [] Hts) as H.
  destruct (try_all ts _) as [s ps]. destruct H as (H1 & H2 & H3); [done..|]. simpl in *.
  split.
  - intros c e. unfold accepts_input. rewrite andb_true_iff, bool_decide_eq_true, accepts_current, H1.
    rewrite fmap_last. destruct (last ps) as [[c' e']|] eqn:E; simpl; [|by split; [intros [_ ?]|]].
    rewrite (H3 _ eq_refl). simpl. split; [intros [? ?] | intros ?]; by simplify_eq.
  - unfold replacement_interruptions. rewrite <- H2, <- list_fmap_compose. done.
Qed.

(** The facade's handshake check and the promotion it guards agree: for a
    non-negative epoch [validate_handshake] says yes exactly when [activate]
    would succeed, so the two stale checks have not drifted apart. *)
Theorem validate_agrees_with_activate c (e : Z) s :
  (0 ≤ e)%Z →
  validate_handshake (arb_session_id (ea_base s)) (arb_resume_token (ea_base s)) e s
  = returns (activate c e s).2.
Proof.
  intros He. unfold validate_handshake, activate, activate_handshake, promote.
  rewrite !bool_decide_true by done.
  replace (e <? 0)%Z with false by (symmetry; apply Z.ltb_ge; lia).
  cbn [new_SnapshotHandshake validate_capabilities existsb rbind negb orb
       sh_contract_version sh_session_id sh_resume_token sh_proposed_epoch].
  rewrite (bool_decide_true (CONTRACT_VERSION = _)), (bool_decide_true (arb_session_id _ = _)),
    (bool_decide_true (arb_resume_token _ = _)) by done. cbn [negb orb].
  destruct (arb_active (ea_base s)) as [a|]; simpl; [|done].
  destruct (Z.ltb_spec (Z.of_N (arb_epoch (ea_base s))) e) as [H|H].
  - replace (Z.to_N e <=? arb_epoch (ea_base s))%N with false; [done|].
    symmetry. apply N.leb_gt. lia.
  - replace (Z.to_N e <=? arb_epoch (ea_base s))%N with true; [done|].
    symmetry. apply N.leb_le. lia.
Qed.

(** ** Witnesses *)

Definition w_attempts : list attempt := [Activate "a" 3; Activate "b" 2; Activate "c" 7].

Lemma activation_history_witness :
  replacement_interruptions (try_all w_attempts (ConnectionEpochArbiter_init "s" "t")).1
  = [(3%N, "interrupted_by_reconnect")].
Proof.
  assert (Forall (λ t, is_activate t = true) w_attempts) as H by by repeat constructor.
  exact (proj2 (activation_history "s" "t" w_attempts H)).
Defined.

Lemma validate_agrees_with_activate_witness :
  validate_handshake "s" "t" 2 (try_all w_attempts (ConnectionEpochArbiter_init "s" "t")).1 = false.
Proof.
  etransitivity; [apply (validate_agrees_with_activate "d" 2
    (try_all w_attempts (ConnectionEpochArbiter_init "s" "t")).1); lia | vm_compute; reflexivity].
Defined.
