(* ===== verification/HandshakeGate.v ===== *)
(** Resume-token issuance and redemption ([src/server/handshake_gate.py]).

    The store maps a token to its epoch, its expiry and whether it was
    redeemed.  Every [time.monotonic()] reading the code takes is an argument:
    [issue_token] and [validate_handshake_token] read the clock once in the
    pruning pass ([now]) and once afterwards ([now']).  The minted token
    ([uuid4().hex]) is an argument too; no theorem assumes it fresh unless it
    says so. *)

From S2P Require Import Prelude PyDict Contracts ConnectionArbiter.

Definition entry : Type := N * Q * bool.

Definition expires_at (e : entry) : Q := e.1.2.

Definition HandshakeGate : Type := list (string * entry).

Definition MAX_HANDSHAKE_TOKENS : nat := 32.

Definition HandshakeGate_init : HandshakeGate := [].

Definition prune_handshake_tokens (now : Q) (g : HandshakeGate) : HandshakeGate :=
  let expired := (filter (λ p, Qle_bool (expires_at p.2) now = true) g).*1 in
  foldl (λ g token, dict_pop token g) g expired.

(** [while len(tokens) > 32: pop the token nearest expiry]; each round removes
    one entry, so the length is enough fuel. *)
Fixpoint evict_tokens (fuel : nat) (g : HandshakeGate) : HandshakeGate :=
  match fuel with
  | O => g
  | S fuel =>
      if (MAX_HANDSHAKE_TOKENS <? length g)%nat then
        match argmin ((λ p, (p.1, expires_at p.2)) <$> g) with
        | Some oldest => evict_tokens fuel (dict_pop oldest g)
        | None => g
        end
      else g
  end.

Definition issue_token (epoch : N) (token : string) (now now' : Q) (g : HandshakeGate)
    : HandshakeGate :=
  let g := prune_handshake_tokens now g in
  let g := dict_set token (epoch, now' + 60, false)%Q g in
  evict_tokens (length g) g.

Definition validate_handshake_token (token : string) (proposed_epoch : N) (redeem : bool)
    (now now' : Q) (g : HandshakeGate) : HandshakeGate * bool :=
  let g := prune_handshake_tokens now g in
  match dict_get token g with
  | None => (g, false)
  | Some (epoch, expires, redeemed) =>
      if Qle_bool expires now' || negb (bool_decide (epoch = proposed_epoch)) then
        (dict_pop token g, false)
      else if redeem then
        if redeemed then (g, false)
        else (dict_set token (epoch, expires, true) g, true)
      else (g, redeemed)
  end.

(** [connection.capabilities], or the empty set when nothing was promoted *)
Definition validate_patch_handshake (connection : option Connection) (h : SnapshotHandshake)
    : result unit :=
  if negb (sh_capabilities_present h) then Ret tt
  else
    let bound : gset string := match connection with
                               | Some c => list_to_set (cn_capabilities c)
                               | None => ∅
                               end in
    let presented : gset string := list_to_set (sh_capabilities h) in
    if negb (bool_decide (presented = bound))
    then Raise (ValueError "capabilities cannot change after connection promotion")
    else Ret tt.

(** ** Runs *)

Inductive call :=
| Issue (epoch : N) (token : string) (now now' : Q)
| Validate (token : string) (proposed_epoch : N) (redeem : bool) (now now' : Q).

Definition exec_call (c : call) (g : HandshakeGate) : HandshakeGate * bool :=
  match c with
  | Issue e t now now' => (issue_token e t now now' g, false)
  | Validate t e r now now' => validate_handshake_token t e r now now' g
  end.

(** The final store and each call with its answer. *)
Fixpoint exec_calls (cs : list call) (g : HandshakeGate) : HandshakeGate * list (call * bool) :=
  match cs with
  | [] => (g, [])
  | c :: cs =>
      let (g1, b) := exec_call c g in
      let (g2, bs) := exec_calls cs g1 in (g2, (c, b) :: bs)
  end.

Definition issues (tok : string) (c : call) : nat :=
  match c with Issue _ t _ _ => if decide (t = tok) then 1 else 0 | _ => 0 end.

Definition redemption (tok : string) (c : call * bool) : nat :=
  match c with (Validate t _ true _ _, true) => if decide (t = tok) then 1 else 0 | _ => 0 end.

(** An unredeemed entry for [tok] is stored. *)
Definition live (tok : string) (g : HandshakeGate) : nat :=
  match dict_get tok g with Some (_, _, false) => 1 | _ => 0 end.

(** ** Lemmas *)

Lemma foldl_pop_get ks (g : HandshakeGate) t :
  dict_get t (foldl (λ g k, dict_pop k g) g ks) = if decide (t ∈ ks) then None else dict_get t g.
Proof.
  revert g. induction ks as [|k ks IH]; intros g; cbn [foldl].
  { rewrite decide_False; [done | apply not_elem_of_nil]. }
  rewrite IH, dict_get_pop. repeat case_decide; set_solver.
Qed.

Lemma foldl_pop_wf ks (g : HandshakeGate) : dict_wf g → dict_wf (foldl (λ g k, dict_pop k g) g ks).
Proof. revert g. induction ks; intros g Hg; simpl; auto with dict. Qed.

(** Pruning keeps exactly the entries that have not expired. *)
Lemma prune_get now g t : dict_wf g →
  dict_get t (prune_handshake_tokens now g) =
  match dict_get t g with
  | Some e => if Qle_bool (expires_at e) now then None else Some e
  | None => None
  end.
Proof.
  intros Hg. unfold prune_handshake_tokens. rewrite foldl_pop_get.
  case_decide as Hin.
  - apply list_elem_of_fmap in Hin as ([k e] & -> & [He Hk]%list_elem_of_filter).
    simpl in *. by rewrite (dict_elem_get _ _ _ Hg Hk), He.
  - destruct (dict_get t g) as [e|] eqn:E; [|done]. destruct (Qle_bool _ _) eqn:Ee; [|done].
    exfalso. apply Hin, list_elem_of_fmap. exists (t, e). split; [done|].
    apply list_elem_of_filter. split; [done | by apply dict_get_elem].
Qed.

Lemma prune_wf now g : dict_wf g → dict_wf (prune_handshake_tokens now g).
Proof. apply foldl_pop_wf. Qed.

Lemma evict_wf fuel g : dict_wf g → dict_wf (evict_tokens fuel g).
Proof.
  revert g. induction fuel as [|n IH]; intros g Hg; simpl; [done|].
  repeat case_match; auto with dict.
Qed.

Lemma evict_get fuel g t e : dict_get t (evict_tokens fuel g) = Some e → dict_get t g = Some e.
Proof.
  revert g. induction fuel as [|n IH]; intros g; simpl; [done|].
  repeat case_match; try done. intros H2%IH. rewrite dict_get_pop in H2. by case_decide.
Qed.

Lemma evict_length fuel g :
  (length g ≤ fuel)%nat → (length (evict_tokens fuel g) ≤ MAX_HANDSHAKE_TOKENS)%nat.
Proof.
  revert g. induction fuel as [|n IH]; intros g Hl; simpl; [lia|].
  case_match eqn:E; [|apply Nat.ltb_ge in E; done]. apply Nat.ltb_lt in E.
  destruct (argmin _) as [k|] eqn:Ea.
  - apply IH. apply argmin_Some in Ea as (q & Hin & _).
    apply list_elem_of_fmap in Hin as ([k' e'] & [= -> ->] & Hin).
    pose proof (dict_pop_length_lt k' g). assert (k' ∈ dict_keys g) as Hk; [|specialize (H Hk); lia].
    apply list_elem_of_fmap. by exists (k', e').
  - apply argmin_None, fmap_nil_inv in Ea. subst. simpl in E. lia.
Qed.

Lemma issue_wf e t now now' g : dict_wf g → dict_wf (issue_token e t now now' g).
Proof. intros Hg. apply evict_wf, dict_wf_set, prune_wf, Hg. Qed.

Lemma validate_wf t e r now now' g :
  dict_wf g → dict_wf (validate_handshake_token t e r now now' g).1.
Proof.
  intros Hg%(prune_wf now). unfold validate_handshake_token. repeat case_match; simpl; auto with dict.
Qed.

Lemma exec_call_wf c g : dict_wf g → dict_wf (exec_call c g).1.
Proof. destruct c; simpl; [apply issue_wf | apply validate_wf]. Qed.

(** What a validation call answers, on a well-formed store. *)
Lemma validate_answer t e r now now' g : dict_wf g →
  (validate_handshake_token t e r now now' g).2 = true ↔
  ∃ x, dict_get t g = Some (e, x, negb r) ∧ (now < x)%Q ∧ (now' < x)%Q.
Proof.
  intros Hg. unfold validate_handshake_token. rewrite prune_get by done.
  destruct (dict_get t g) as [[[e' x] b]|]; [|by split; [|intros (? & ? & _)]].
  cbn [expires_at fst snd].
  destruct (Qle_bool x now) eqn:E1.
  { split; [done|]. intros (x' & [= -> -> ->] & H & _). apply Qle_bool_iff in E1. lra. }
  assert (now < x)%Q as H1 by (by apply Qle_bool_lt).
  destruct (Qle_bool x now') eqn:E2; simpl.
  { split; [done|]. intros (x' & [= -> -> ->] & _ & H). apply Qle_bool_iff in E2. lra. }
  assert (now' < x)%Q as H2 by (by apply Qle_bool_lt).
  case_bool_decide as He; simpl; [|split; [done|]; intros (x' & [= -> -> ->] & _); done].
  subst e'. destruct r, b; simpl; split; intros H; try done; try (by exists x).
  all: destruct H as (? & ? & _); congruence.
Qed.

(** Tokens change from live only by redemption, and become live only by being
    issued. *)
Lemma exec_call_budget tok c g : dict_wf g →
  let '(g', b) := exec_call c g in
  (redemption tok (c, b) + live tok g' ≤ live tok g + issues tok c)%nat.
Proof.
  intros Hg. destruct c as [e t now now'|t e r now now']; cbn [exec_call].
  - unfold live at 1. destruct (dict_get tok (issue_token e t now now' g)) as [[[e' x] b]|] eqn:E; simpl; [|lia].
    destruct b; [lia|]. apply evict_get in E. rewrite dict_get_set in E.
    unfold issues. case_decide; [lia|].
    rewrite prune_get in E by done. unfold live.
    destruct (dict_get tok g) as [[[? ?] []]|]; repeat case_match; simplify_eq; simpl; lia.
  - pose proof (prune_get now g) as Hp. unfold validate_handshake_token, live.
    rewrite Hp by done. destruct (dict_get t g) as [[[e' x] b]|] eqn:Et; cbn [expires_at fst snd].
    2: { rewrite Hp by done. destruct r; simpl; repeat case_match; simplify_eq; lia. }
    destruct (Qle_bool x now) eqn:E1.
    { rewrite Hp by done. destruct r; simpl; repeat case_match; simplify_eq; lia. }
    destruct (_ || _).
    { rewrite dict_get_pop, Hp by done. destruct r; simpl; repeat case_match; simplify_eq; lia. }
    destruct r; [destruct b|].
    + simpl. rewrite Hp by done. repeat case_match; simplify_eq; lia.
    + simpl. rewrite dict_get_set, Hp by done. repeat case_match; simplify_eq; lia.
    + replace (redemption tok (Validate t e false now now', b)) with 0%nat by done.
      rewrite Hp by done. repeat case_match; simplify_eq; lia.
Qed.

Lemma exec_calls_budget tok cs g : dict_wf g →
  let '(g', bs) := exec_calls cs g in
  (sum_list_with (redemption tok) bs + live tok g'
   ≤ live tok g + sum_list_with (issues tok) cs)%nat.
Proof.
  revert g. induction cs as [|c cs IH]; intros g Hg; cbn [exec_calls]; [simpl; lia|].
  pose proof (exec_call_budget tok c g Hg) as Hb. pose proof (exec_call_wf c g Hg) as Hw.
  destruct (exec_call c g) as [g1 b]. specialize (IH g1 Hw). destruct (exec_calls cs g1) as [g2 bs].
  cbn [sum_list_with]. lia.
Qed.

(** The clock: no stored expiry is more than the lifetime ahead of [now]. *)
Definition clock_inv (now : Q) (g : HandshakeGate) : Prop :=
  dict_wf g ∧ ∀ t e, dict_get t g = Some e → (expires_at e <= now + 60)%Q.

(** The readings of a call do not go backwards. *)
Definition reads_from (now : Q) (c : call) : Prop :=
  match c with
  | Issue _ _ a b | Validate _ _ _ a b => (now <= a)%Q ∧ (a <= b)%Q
  end.

Definition last_read (c : call) : Q :=
  match c with Issue _ _ _ b | Validate _ _ _ _ b => b end.

Fixpoint clock_forward (now : Q) (cs : list call) : Prop :=
  match cs with [] => True | c :: cs => reads_from now c ∧ clock_forward (last_read c) cs end.

Definition clock_end (now : Q) (cs : list call) : Q := foldl (λ _ c, last_read c) now cs.

Lemma clock_inv_later now now' g : (now <= now')%Q → clock_inv now g → clock_inv now' g.
Proof. intros Hle [Hw Hg]. split; [done|]. intros t e He. specialize (Hg t e He). lra. Qed.

Lemma clock_inv_prune n now g : clock_inv n g → clock_inv n (prune_handshake_tokens now g).
Proof.
  intros [Hw Hg]. split; [by apply prune_wf|]. intros t e. rewrite prune_get by done.
  destruct (dict_get t g) as [e'|] eqn:E; [|done]. case_match; [done|]. intros [= ->]. eauto.
Qed.

Lemma clock_inv_set n t e g :
  (expires_at e <= n + 60)%Q → clock_inv n g → clock_inv n (dict_set t e g).
Proof.
  intros He [Hw Hg]. split; [auto with dict|]. intros t' e'. rewrite dict_get_set.
  case_decide; [by intros [= <-] | apply Hg].
Qed.

Lemma exec_clock_inv now c g :
  clock_inv now g → reads_from now c → clock_inv (last_read c) (exec_call c g).1.
Proof.
  intros Hg. destruct c as [e t a b|t e r a b]; intros [Ha Hb]; simpl.
  all: apply (clock_inv_later _ b), (clock_inv_prune _ a) in Hg; [|lra].
  - assert (clock_inv b (dict_set t (e, b + 60, false)%Q (prune_handshake_tokens a g))) as [Hw Hc].
    { apply clock_inv_set; [apply Qle_refl | done]. }
    split; [by apply evict_wf|]. intros t' e' He%evict_get. eauto.
  - unfold validate_handshake_token. set (g' := prune_handshake_tokens a g) in *.
    destruct (dict_get t g') as [[[e' x] d]|] eqn:E; [|done].
    destruct (_ || _); simpl.
    + destruct Hg as [Hw Hg]. split; [auto with dict|]. intros t' e''. rewrite dict_get_pop.
      case_decide; [done | apply Hg].
    + destruct r; [destruct d|]; simpl; try done. apply clock_inv_set; [|done].
      by apply (proj2 Hg t (e', x, false)).
Qed.

Lemma exec_calls_clock_inv now cs g :
  clock_inv now g → clock_forward now cs → clock_inv (clock_end now cs) (exec_calls cs g).1.
Proof.
  revert now g. induction cs as [|c cs IH]; intros now g Hg; cbn [exec_calls]; [done|].
  intros [Hc Hcs]. pose proof (exec_clock_inv now c g Hg Hc) as H1.
  destruct (exec_call c g) as [g1 b]. specialize (IH _ g1 H1 Hcs).
  destruct (exec_calls cs g1). exact IH.
Qed.

(** Eviction never takes the newest entry while no other expires later. *)
Lemma evict_keeps_last fuel d tok e :
  dict_wf (d ++ [(tok, e)]) → (∀ p, p ∈ d → (expires_at p.2 <= expires_at e)%Q) →
  dict_get tok (evict_tokens fuel (d ++ [(tok, e)])) = Some e.
Proof.
  revert d. induction fuel as [|n IH]; intros d Hw Hle; cbn [evict_tokens].
  { apply dict_elem_get; [done|]. set_solver. }
  case_match eqn:E; [|apply dict_elem_get; [done | set_solver]].
  apply Nat.ltb_lt in E. rewrite length_app in E. simpl in E.
  rewrite fmap_app. csimpl. rewrite argmin_snoc.
  2: { destruct d; [simpl in E; unfold MAX_HANDSHAKE_TOKENS in E; lia | done]. }
  2: { intros x (p & -> & Hp)%list_elem_of_fmap. simpl. by apply Hle. }
  destruct (argmin _) as [k|] eqn:Ea.
  2: { apply argmin_None, fmap_nil_inv in Ea. subst. simpl in E. unfold MAX_HANDSHAKE_TOKENS in E. lia. }
  apply argmin_Some in Ea as (q & Hin & _).
  apply list_elem_of_fmap in Hin as ([k' e'] & [= -> ->] & Hin).
  assert (k' ≠ tok) as Hne.
  { intros ->. unfold dict_wf, dict_keys in Hw. rewrite fmap_app in Hw.
    apply NoDup_app in Hw as (_ & Hd & _). apply (Hd tok); [|set_solver].
    apply list_elem_of_fmap. by exists (tok, e'). }
  pose proof (dict_wf_pop k' _ Hw) as Hw'. unfold dict_pop in *.
  rewrite filter_app, (filter_cons_True _ (tok, e)) in * by done. rewrite filter_nil in *.
  apply IH; [done|]. intros p [_ Hp]%list_elem_of_filter. by apply Hle.
Qed.

Lemma issue_stores e tok a b g :
  clock_inv a g → (a <= b)%Q → dict_get tok g = None →
  dict_get tok (issue_token e tok a b g) = Some (e, b + 60, false)%Q.
Proof.
  intros Hg Hab Hn. unfold issue_token.
  pose proof (clock_inv_prune a a g Hg) as [Hw Hc].
  assert (dict_get tok (prune_handshake_tokens a g) = None) as Hn'.
  { rewrite prune_get by apply Hg. by rewrite Hn. }
  pose proof (dict_wf_set tok (e, b + 60, false)%Q _ Hw) as Hw'.
  rewrite dict_set_notin in * by (by apply dict_get_None).
  apply evict_keeps_last; [done|]. intros [t e'] Hp. apply dict_elem_get in Hp; [|done].
  specialize (Hc t e' Hp). cbn [expires_at fst snd] in *. lra.
Qed.

(** ** Theorems *)

(** Single use: over any sequence of calls, at any times, a resume token is
    redeemed successfully no more often than it was minted.  Tokens are
    [uuid4] values, so each is redeemed at most once. *)
Theorem redeemed_at_most_once tok cs :
  (sum_list_with (redemption tok) (exec_calls cs HandshakeGate_init).2
   ≤ sum_list_with (issues tok) cs)%nat.
Proof.
  pose proof (exec_calls_budget tok cs HandshakeGate_init dict_wf_nil) as H.
  destruct (exec_calls cs _) as [g bs]. simpl in *. lia.
Qed.

(** Redemption window: on every store reached by calls whose clock
    readings never go backwards, a token that is not yet stored and is minted
    for [epoch] redeems for that epoch at any moment of the sixty seconds after
    it was minted, however full the store is; it then answers the presence
    check, refuses a second redemption and is refused for any other epoch. *)
Theorem issue_redeem_roundtrip cs tok epoch other a b c d :
  let g := (exec_calls cs HandshakeGate_init).1 in
  clock_forward 0 cs → (clock_end 0 cs <= a)%Q → (a <= b)%Q → (c < b + 60)%Q → (d < b + 60)%Q →
  dict_get tok g = None → other ≠ epoch →
  let g1 := issue_token epoch tok a b g in
  let '(g2, ok) := validate_handshake_token tok epoch true c d g1 in
  ok = true ∧
  (validate_handshake_token tok epoch false c d g2).2 = true ∧
  (validate_handshake_token tok epoch true c d g2).2 = false ∧
  (validate_handshake_token tok other true c d g1).2 = false.
Proof.
  intros g Hcs Ha Hab Hc Hd Hn Ho g1.
  assert (clock_inv a g) as Hg.
  { eapply clock_inv_later; [exact Ha|]. apply exec_calls_clock_inv; [|done]. by split; [apply dict_wf_nil|]. }
  assert (dict_wf g1) as Hw1 by apply issue_wf, Hg.
  assert (dict_get tok g1 = Some (epoch, b + 60, false)%Q) as H1 by (by apply issue_stores).
  pose proof (validate_wf tok epoch true c d g1 Hw1) as Hw2.
  pose proof (proj2 (validate_answer tok epoch true c d g1 Hw1)) as Hans.
  assert (dict_get tok (validate_handshake_token tok epoch true c d g1).1
          = Some (epoch, b + 60, true)%Q) as H2.
  { unfold validate_handshake_token. rewrite prune_get, H1 by done. cbn [expires_at fst snd].
    rewrite !(proj2 (Qle_bool_lt _ _)) by done.
    rewrite bool_decide_true by done. simpl. by rewrite dict_get_set_eq. }
  destruct (validate_handshake_token tok epoch true c d g1) as [g2 ok]. simpl in *. split_and!.
  - apply Hans. exists (b + 60)%Q. split_and!; done.
  - apply validate_answer; [done|]. exists (b + 60)%Q. split_and!; done.
  - apply not_true_iff_false. rewrite validate_answer by done. intros (x & Hx & _). simpl in Hx. congruence.
  - apply not_true_iff_false. rewrite validate_answer by done. intros (x & Hx & _). simpl in Hx. congruence.
Qed.

(** The store is bounded: after every mint it holds at most 32 tokens,
    whatever it held before. *)
Theorem tokens_bounded epoch tok now now' g :
  (length (issue_token epoch tok now now' g) ≤ MAX_HANDSHAKE_TOKENS)%nat.
Proof. unfold issue_token. by apply evict_length. Qed.

(** Capabilities are bound at promotion: a PATCH handshake passes exactly
    when it names no capabilities or names the same set the promoted
    connection was bound to (the empty set when there is none). *)
Theorem patch_capabilities connection h :
  returns (validate_patch_handshake connection h) = true ↔
  sh_capabilities_present h = false ∨
  ∀ c, c ∈ sh_capabilities h ↔ c ∈ (match connection with Some k => cn_capabilities k | None => [] end).
Proof.
  unfold validate_patch_handshake. destruct (sh_capabilities_present h); simpl; [|by split; [left|]].
  case_bool_decide as E; simpl.
  - split; [|done]. intros _. right. intros c.
    apply (f_equal (λ X, c ∈ X)) in E.
    rewrite <- (elem_of_list_to_set (C:=gset string)), E.
    destruct connection; [by rewrite elem_of_list_to_set | set_solver].
  - split; [done|]. intros [?|H]; [done|]. destruct E. apply set_eq. intros c.
    rewrite elem_of_list_to_set, H. destruct connection; [by rewrite elem_of_list_to_set | set_solver].
Qed.

(** ** Witnesses *)

Definition w_calls : list call := [Issue 1 "t0" 0 0; Issue 2 "t1" 1 1; Validate "t0" 1 true 2 3].

Lemma issue_redeem_roundtrip_witness :
  let g := (exec_calls w_calls HandshakeGate_init).1 in
  let '(g2, ok) := validate_handshake_token "t2" 3 true 60 63 (issue_token 3 "t2" 4 5 g) in
  ok = true ∧ (validate_handshake_token "t2" 3 true 60 63 g2).2 = false.
Proof.
  cbv zeta. pose proof (issue_redeem_roundtrip w_calls "t2" 3 4 4 5 60 63) as H. cbv zeta in H.
  destruct (validate_handshake_token _ _ _ _ _ (issue_token 3 "t2" 4 5 _)) as [g2 ok].
  destruct H as (H1 & _ & H3 & _); [..|by split].
  all: vm_compute; repeat split; discriminate || reflexivity.
Defined.
