(* ===== verification/WorkTaskLedger.v ===== *)
(** Task bookkeeping ([src/server/work_task_ledger.py] and
    [src/server/task_retention.py]).

    A task is its identity.  The event loop holds, for each unfinished task,
    the done callbacks registered on it in order; completing a task moves them
    to the ready queue, from which the loop runs them one at a time, so other
    code may run between a completion and its callbacks.  A callback added to
    a finished task goes to the ready queue at once, as in asyncio. *)

From S2P Require Import Prelude PyDict.

Abbreviation task := nat (only parsing).

Record WorkTaskLedger := mkLedger {
  turn_tasks : dict string task;
  work_tasks : dict string (gset task);
  known_ids : gset string;
  cancelled_ids : gset string
}.

#[export] Instance eta_WorkTaskLedger : Eta WorkTaskLedger := λ r,
  mkLedger (turn_tasks r) (work_tasks r) (known_ids r) (cancelled_ids r).

(** The closures handed to [add_done_callback]. *)
Inductive callback :=
| WorkCompleted (work_item_id : string)
| TurnCompleted (work_item_id : string)
| RetainCompleted (has_on_done : bool).

#[global] Instance callback_eq_dec : EqDecision callback.
Proof. solve_decision. Defined.

Record World := mkWorld {
  ledger : WorkTaskLedger;
  tracking : gset task;              (* a caller-owned set of [retain_until_done] *)
  observed : list task;              (* the tasks handed to [on_done] so far *)
  finished : gset task;
  callbacks : dict task (list callback);
  ready : list (task * callback);
  cancel_requests : list task        (* [Task.cancel()] calls so far *)
}.

#[export] Instance eta_World : Eta World := λ r,
  mkWorld (ledger r) (tracking r) (observed r) (finished r) (callbacks r) (ready r)
    (cancel_requests r).

Definition WorkTaskLedger_init : WorkTaskLedger := mkLedger [] [] ∅ ∅.
Definition World_init : World := mkWorld WorkTaskLedger_init ∅ [] ∅ [] [] [].

(** ** The event loop *)

Definition add_done_callback (t : task) (c : callback) (w : World) : World :=
  if bool_decide (t ∈ finished w) then w <| ready ::= (λ r, r ++ [(t, c)]) |>
  else w <| callbacks := dict_set t (default [] (dict_get t (callbacks w)) ++ [c]) (callbacks w) |>.

Definition complete (t : task) (w : World) : World :=
  if bool_decide (t ∈ finished w) then w
  else w <| finished ::= (λ f, {[t]} ∪ f) |>
         <| ready ::= (λ r, r ++ ((λ c, (t, c)) <$> default [] (dict_get t (callbacks w)))) |>
         <| callbacks ::= dict_pop t |>.

(** ** Ledger operations *)

Definition register_work_task (work_item_id : string) (t : task) (w : World) : World :=
  let l := ledger w in
  let l := l <| known_ids ::= (λ s, {[work_item_id]} ∪ s) |> in
  let tasks := default ∅ (dict_get work_item_id (work_tasks l)) in
  let l := l <| work_tasks := dict_set work_item_id ({[t]} ∪ tasks) (work_tasks l) |> in
  add_done_callback t (WorkCompleted work_item_id) (w <| ledger := l |>).

Definition work_completed (work_item_id : string) (completed_task : task) (l : WorkTaskLedger)
    : WorkTaskLedger :=
  match dict_get work_item_id (work_tasks l) with
  | None => l
  | Some tasks =>
      let tasks := tasks ∖ {[completed_task]} in
      if decide (tasks = ∅) then l <| work_tasks ::= dict_pop work_item_id |>
      else l <| work_tasks := dict_set work_item_id tasks (work_tasks l) |>
  end.

Definition register_turn_task (work_item_id : string) (t : task) (w : World) : World :=
  let l := ledger w in
  let l := l <| known_ids ::= (λ s, {[work_item_id]} ∪ s) |>
             <| turn_tasks := dict_set work_item_id t (turn_tasks l) |> in
  add_done_callback t (TurnCompleted work_item_id) (w <| ledger := l |>).

Definition turn_completed (work_item_id : string) (completed_task : task) (l : WorkTaskLedger)
    : WorkTaskLedger :=
  if negb (bool_decide (dict_get work_item_id (turn_tasks l) = Some completed_task)) then l
  else
    let l := l <| turn_tasks ::= dict_pop work_item_id |> in
    if dict_mem work_item_id (work_tasks l) then l
    else l <| known_ids ::= (λ s, s ∖ {[work_item_id]}) |>
           <| cancelled_ids ::= (λ s, s ∖ {[work_item_id]}) |>.

Definition register_known (work_item_id : string) (l : WorkTaskLedger) : WorkTaskLedger :=
  l <| known_ids ::= (λ s, {[work_item_id]} ∪ s) |>.

Definition retire (work_item_id : string) (l : WorkTaskLedger) : WorkTaskLedger :=
  l <| known_ids ::= (λ s, s ∖ {[work_item_id]}) |>.

Definition clear_cancelled (work_item_id : string) (l : WorkTaskLedger) : WorkTaskLedger :=
  l <| cancelled_ids ::= (λ s, s ∖ {[work_item_id]}) |>.

Definition live_ids (l : WorkTaskLedger) : gset string :=
  list_to_set (dict_keys (turn_tasks l)) ∪ list_to_set (dict_keys (work_tasks l)) ∪ known_ids l.

(** [dict.fromkeys] over the turn keys followed by the work keys *)
Definition local_ids (l : WorkTaskLedger) : list string :=
  dict_keys (foldl (λ d k, dict_setdefault k tt d) []
               (dict_keys (turn_tasks l) ++ dict_keys (work_tasks l))).

Definition pending_tasks (l : WorkTaskLedger) : list task :=
  dict_values (turn_tasks l) ++ concat (elements <$> dict_values (work_tasks l)).

(** The tasks [cancel_selected] cancels for one selected id. *)
Definition tasks_of (item_id : string) (l : WorkTaskLedger) : list task :=
  option_list (dict_get item_id (turn_tasks l)) ++
  elements (default ∅ (dict_get item_id (work_tasks l))).

Definition cancel_selected (ids : list string) (w : World) : World :=
  let l := (ledger w) <| cancelled_ids ::= (λ s, s ∪ list_to_set ids) |> in
  w <| ledger := l |>
    <| cancel_requests ::= (λ c, c ++ concat ((λ i, tasks_of i l) <$> ids)) |>.

(** ** [retain_until_done] *)

Definition retain_until_done (t : task) (has_on_done : bool) (w : World) : World :=
  add_done_callback t (RetainCompleted has_on_done)
    (w <| tracking ::= (λ s, {[t]} ∪ s) |>).

Definition retain_completed (has_on_done : bool) (t : task) (w : World) : World :=
  let w := w <| tracking ::= (λ s, s ∖ {[t]}) |> in
  if has_on_done then w <| observed ::= (λ o, o ++ [t]) |> else w.

(** ** Running callbacks *)

Definition run_callback (t : task) (c : callback) (w : World) : World :=
  match c with
  | WorkCompleted i => w <| ledger ::= work_completed i t |>
  | TurnCompleted i => w <| ledger ::= turn_completed i t |>
  | RetainCompleted b => retain_completed b t w
  end.

Definition run_ready (w : World) : World :=
  match ready w with
  | [] => w
  | (t, c) :: r => run_callback t c (w <| ready := r |>)
  end.

Inductive event :=
| RegisterWork (i : string) (t : task)
| RegisterTurn (i : string) (t : task)
| RegisterKnown (i : string)
| Retire (i : string)
| ClearCancelled (i : string)
| CancelSelected (ids : list string)
| RetainUntilDone (t : task) (has_on_done : bool)
| Complete (t : task)
| RunReady.

Definition step (e : event) (w : World) : World :=
  match e with
  | RegisterWork i t => register_work_task i t w
  | RegisterTurn i t => register_turn_task i t w
  | RegisterKnown i => w <| ledger ::= register_known i |>
  | Retire i => w <| ledger ::= retire i |>
  | ClearCancelled i => w <| ledger ::= clear_cancelled i |>
  | CancelSelected ids => cancel_selected ids w
  | RetainUntilDone t b => retain_until_done t b w
  | Complete t => complete t w
  | RunReady => run_ready w
  end.

Definition steps (es : list event) (w : World) : World := foldl (λ w e, step e w) w es.

(** The loop runs until the ready queue is empty; a callback adds none. *)
Definition drain (w : World) : World := Nat.iter (length (ready w)) run_ready w.

(** ** The invariant *)

(** A callback [c] of task [t] is still to run. *)
Definition armed (w : World) (t : task) (c : callback) : Prop :=
  c ∈ default [] (dict_get t (callbacks w)) ∨ (t, c) ∈ ready w.

Record world_inv (w : World) : Prop := {
  wi_turn_wf : dict_wf (turn_tasks (ledger w));
  wi_work_wf : dict_wf (work_tasks (ledger w));
  wi_turn : ∀ i t, dict_get i (turn_tasks (ledger w)) = Some t → armed w t (TurnCompleted i);
  wi_work : ∀ i ts, dict_get i (work_tasks (ledger w)) = Some ts →
    ts ≠ ∅ ∧ ∀ t, t ∈ ts → armed w t (WorkCompleted i);
  wi_track : ∀ t, t ∈ tracking w → ∃ b, armed w t (RetainCompleted b);
  wi_done : ∀ t, t ∈ finished w → dict_get t (callbacks w) = None;
  wi_ready : ∀ t c, (t, c) ∈ ready w → t ∈ finished w
}.

(** [w'] keeps every armed callback of [w] but possibly one. *)
Definition keeps (w w' : World) : Prop := ∀ t c, armed w t c → armed w' t c.

(** ** Lemmas *)

Lemma armed_add t c w : armed (add_done_callback t c w) t c.
Proof.
  unfold add_done_callback, armed. case_bool_decide; simpl.
  - right. apply elem_of_app. right. constructor.
  - left. rewrite dict_get_set_eq. simpl. apply elem_of_app. right. constructor.
Qed.

Lemma keeps_add t c w : keeps w (add_done_callback t c w).
Proof.
  intros t' c' [H|H]; unfold add_done_callback, armed; case_bool_decide; simpl; auto.
  - left. rewrite dict_get_set. case_decide; [|done]. subst. simpl. apply elem_of_app. by left.
  - right. apply elem_of_app. by left.
Qed.

Lemma keeps_complete t w : keeps w (complete t w).
Proof.
  intros t' c' H. unfold complete. case_bool_decide; [done|]. unfold armed in *. simpl.
  destruct H as [H|H]; [|right; apply elem_of_app; by left].
  rewrite dict_get_pop. case_decide; [|by left]. subst. right. apply elem_of_app. right.
  apply list_elem_of_fmap. eauto.
Qed.

Lemma add_done_fields t c w :
  let w' := add_done_callback t c w in
  ledger w' = ledger w ∧ tracking w' = tracking w ∧ finished w' = finished w.
Proof. unfold add_done_callback. by case_bool_decide. Qed.

Lemma add_done_loop t c w :
  (∀ t, t ∈ finished w → dict_get t (callbacks w) = None) →
  (∀ t c, (t, c) ∈ ready w → t ∈ finished w) →
  let w' := add_done_callback t c w in
  (∀ t, t ∈ finished w' → dict_get t (callbacks w') = None) ∧
  (∀ t c, (t, c) ∈ ready w' → t ∈ finished w').
Proof.
  intros Hd Hr. unfold add_done_callback. case_bool_decide as Hf; simpl; split; try done.
  - intros t' c' [Hin|Hin]%elem_of_app; [by eapply Hr|]. apply list_elem_of_singleton in Hin. by simplify_eq.
  - intros t' Ht'. rewrite dict_get_set. case_decide; [by subst | by apply Hd].
Qed.

(** Registering: the ledger and the tracking set may change as long as every
    new entry is covered by the callback being added. *)
Lemma inv_register t c w l tr :
  world_inv w → dict_wf (turn_tasks l) → dict_wf (work_tasks l) →
  (∀ i u, dict_get i (turn_tasks l) = Some u →
     dict_get i (turn_tasks (ledger w)) = Some u ∨ (u = t ∧ c = TurnCompleted i)) →
  (∀ i us, dict_get i (work_tasks l) = Some us → us ≠ ∅ ∧ ∀ u, u ∈ us →
     (∃ vs, dict_get i (work_tasks (ledger w)) = Some vs ∧ u ∈ vs) ∨ (u = t ∧ c = WorkCompleted i)) →
  (∀ u, u ∈ tr → u ∈ tracking w ∨ (u = t ∧ ∃ b, c = RetainCompleted b)) →
  world_inv (add_done_callback t c (w <| ledger := l |> <| tracking := tr |>)).
Proof.
  intros Hi Hw1 Hw2 H1 H2 H3. set (w1 := w <| ledger := l |> <| tracking := tr |>).
  pose proof (add_done_fields t c w1) as (E1 & E2 & E3).
  pose proof (armed_add t c w1) as Ha. pose proof (keeps_add t c w1) as Hk.
  destruct (add_done_loop t c w1 (wi_done _ Hi) (wi_ready _ Hi)) as [Hd Hr].
  split; rewrite ?E1, ?E2; try done.
  - intros i u [Hu|[-> ->]]%H1; [|done]. apply Hk, (wi_turn _ Hi _ _ Hu).
  - intros i us Hus. destruct (H2 i us Hus) as [Hne Hall]. split; [done|].
    intros u [(vs & Hv & Huv)|[-> ->]]%Hall; [|done]. apply Hk.
    destruct (wi_work _ Hi _ _ Hv) as [_ Hvs]. by apply Hvs.
  - intros u [Hu|[-> [b ->]]]%H3; [|eauto]. destruct (wi_track _ Hi _ Hu) as [b Hb]. exists b. by apply Hk.
Qed.

Lemma inv_ledger w l :
  world_inv w → turn_tasks l = turn_tasks (ledger w) → work_tasks l = work_tasks (ledger w) →
  world_inv (w <| ledger := l |>).
Proof. intros [] E1 E2. split; simpl; rewrite ?E1, ?E2; try done. Qed.

Lemma inv_complete t w : world_inv w → world_inv (complete t w).
Proof.
  intros Hi. pose proof (keeps_complete t w) as Hk. unfold complete in *.
  case_bool_decide as Hf; [done|]. split; simpl; try apply Hi.
  - intros i u Hu. apply Hk, (wi_turn _ Hi _ _ Hu).
  - intros i us Hus. destruct (wi_work _ Hi _ _ Hus) as [? Ha]. split; [done|]. intros u Hu. by apply Hk, Ha.
  - intros u [b Hb]%(wi_track _ Hi). exists b. by apply Hk.
  - intros u. rewrite elem_of_union, elem_of_singleton, dict_get_pop. intros [->|Hu].
    + by rewrite decide_True.
    + case_decide; [done | by apply (wi_done _ Hi)].
  - intros u c [Hin|(c' & [= -> ->] & _)%list_elem_of_fmap]%elem_of_app; [|set_solver].
    apply (wi_ready _ Hi) in Hin. set_solver.
Qed.

(** Popping the head of the ready queue disarms at most that callback. *)
Lemma armed_pop w t c r u d :
  ready w = (t, c) :: r → armed w u d → (u, d) ≠ (t, c) → armed (w <| ready := r |>) u d.
Proof.
  intros E [H|H] Hne; [by left|]. right. simpl. rewrite E in H.
  apply elem_of_cons in H as [H|H]; [congruence | done].
Qed.

Lemma work_completed_spec i t l j us :
  dict_get j (work_tasks (work_completed i t l)) = Some us →
  if decide (i = j) then us ≠ ∅ ∧ ∃ vs, dict_get i (work_tasks l) = Some vs ∧ us = vs ∖ {[t]}
  else dict_get j (work_tasks l) = Some us.
Proof.
  unfold work_completed. destruct (dict_get i (work_tasks l)) as [vs|] eqn:E.
  - destruct (decide (vs ∖ {[t]} = ∅)); simpl; rewrite ?dict_get_pop, ?dict_get_set;
      case_decide; try done. intros [= <-]. eauto.
  - intros H. case_decide; [by subst; rewrite E in H | done].
Qed.

Lemma work_completed_same i t l :
  turn_tasks (work_completed i t l) = turn_tasks l ∧
  (dict_wf (work_tasks l) → dict_wf (work_tasks (work_completed i t l))).
Proof. unfold work_completed. repeat case_match; split; simpl; auto with dict. Qed.

Lemma turn_completed_spec i t l j u :
  dict_get j (turn_tasks (turn_completed i t l)) = Some u →
  dict_get j (turn_tasks l) = Some u ∧ (i, t) ≠ (j, u).
Proof.
  unfold turn_completed. case_bool_decide as E; simpl.
  - case_match; simpl; rewrite dict_get_pop; case_decide; try done; intros ?; split; congruence.
  - intros H. split; [done|]. intros ?. simplify_eq.
Qed.

Lemma turn_completed_same i t l :
  work_tasks (turn_completed i t l) = work_tasks l ∧
  (dict_wf (turn_tasks l) → dict_wf (turn_tasks (turn_completed i t l))).
Proof. unfold turn_completed. repeat case_match; split; simpl; auto with dict. Qed.

Lemma inv_run_ready w : world_inv w → world_inv (run_ready w).
Proof.
  intros Hi. unfold run_ready. destruct (ready w) as [|[t c] r] eqn:E; [done|].
  pose proof (λ u d, armed_pop w t c r u d E) as Hp.
  assert (∀ u d, (u, d) ∈ r → u ∈ finished w) as Hr.
  { intros u d Hin. apply (wi_ready _ Hi u d). rewrite E. by constructor. }
  destruct c as [i|i|b]; simpl;
    [| |unfold retain_completed; destruct b]; split; simpl; try apply Hi; try done.
  - rewrite (proj1 (work_completed_same i t _)). apply Hi.
  - apply work_completed_same, Hi.
  - rewrite (proj1 (work_completed_same i t _)). intros j u Hu. apply Hp; [|done]. by apply (wi_turn _ Hi).
  - intros j us Hus%work_completed_spec. case_decide as Hij.
    + destruct Hus as (Hne & vs & Hv & ->). split; [done|]. intros u [Hu Hut]%elem_of_difference.
      subst j. apply Hp; [by apply (wi_work _ Hi _ _ Hv)|]. intros [= ->]. set_solver.
    + destruct (wi_work _ Hi _ _ Hus) as [Hne Ha]. split; [done|]. intros u Hu.
      apply Hp; [by apply Ha | congruence].
  - intros u [b Hb]%(wi_track _ Hi). exists b. by apply Hp.
  - apply turn_completed_same, Hi.
  - rewrite (proj1 (turn_completed_same i t _)). apply Hi.
  - intros j u [Hu Hne]%turn_completed_spec. apply Hp; [by apply (wi_turn _ Hi)|]. congruence.
  - rewrite (proj1 (turn_completed_same i t _)). intros j us Hus.
    destruct (wi_work _ Hi _ _ Hus) as [Hne Ha]. split; [done|]. intros u Hu. apply Hp; [by apply Ha | done].
  - intros u [b Hb]%(wi_track _ Hi). exists b. by apply Hp.
  - intros j u Hu. apply Hp; [by apply (wi_turn _ Hi) | done].
  - intros j us Hus. destruct (wi_work _ Hi _ _ Hus) as [Hne Ha]. split; [done|].
    intros u Hu. apply Hp; [by apply Ha | done].
  - intros u [Hu Hne]%elem_of_difference. destruct (wi_track _ Hi _ Hu) as [b Hb].
    exists b. apply Hp; [done | set_solver].
  - intros j u Hu. apply Hp; [by apply (wi_turn _ Hi) | done].
  - intros j us Hus. destruct (wi_work _ Hi _ _ Hus) as [Hne Ha]. split; [done|].
    intros u Hu. apply Hp; [by apply Ha | done].
  - intros u [Hu Hne]%elem_of_difference. destruct (wi_track _ Hi _ Hu) as [b Hb].
    exists b. apply Hp; [done | set_solver].
Qed.

Lemma step_inv e w : world_inv w → world_inv (step e w).
Proof.
  intros Hi. destruct e as [i t|i t|i|i|i|ids|t b|t|]; simpl.
  - unfold register_work_task.
    assert (∀ l, w <| ledger := l |> = w <| ledger := l |> <| tracking := tracking w |>) as E by (by destruct w).
    rewrite E. apply inv_register; simpl; try done; try apply Hi; eauto with dict.
    + apply dict_wf_set, Hi.
    + intros j us. rewrite dict_get_set. case_decide as Hij.
      * intros [= <-]. subst j. split; [set_solver|]. intros u [->%elem_of_singleton|Hu]%elem_of_union; [by right|].
        left. destruct (dict_get i (work_tasks (ledger w))); [eauto | set_solver].
      * intros Hus. split; [by apply (wi_work _ Hi _ _ Hus)|]. eauto.
  - unfold register_turn_task.
    assert (∀ l, w <| ledger := l |> = w <| ledger := l |> <| tracking := tracking w |>) as E by (by destruct w).
    rewrite E. apply inv_register; simpl; try done; try apply Hi.
    + apply dict_wf_set, Hi.
    + intros j u. rewrite dict_get_set. case_decide; [|by left]. intros [= <-]. subst. by right.
    + intros j us Hus. split; [by apply (wi_work _ Hi _ _ Hus)|]. eauto.
    + auto.
  - by apply (inv_ledger w (register_known i (ledger w))).
  - by apply (inv_ledger w (retire i (ledger w))).
  - by apply (inv_ledger w (clear_cancelled i (ledger w))).
  - unfold cancel_selected. destruct Hi. by split.
  - unfold retain_until_done.
    assert (∀ s, w <| tracking := s |> = w <| ledger := ledger w |> <| tracking := s |>) as E by (by destruct w).
    change (w <| tracking ::= (λ s, {[t]} ∪ s) |>) with (w <| tracking := {[t]} ∪ tracking w |>).
    rewrite E. apply inv_register; simpl; try done; try apply Hi; eauto.
    + intros j us Hus. split; [by apply (wi_work _ Hi _ _ Hus)|]. eauto.
    + intros u [->%elem_of_singleton|Hu]%elem_of_union; [right | by left]. eauto.
  - by apply inv_complete.
  - by apply inv_run_ready.
Qed.

Lemma init_world_inv : world_inv World_init.
Proof. split; simpl; try apply dict_wf_nil; set_solver. Qed.

Lemma steps_inv es w : world_inv w → world_inv (steps es w).
Proof. revert w. induction es as [|e es IH]; intros w Hw; simpl; [done|]. by apply IH, step_inv. Qed.

Lemma run_ready_queue w : ready (run_ready w) = tail (ready w) ∧ callbacks (run_ready w) = callbacks w.
Proof.
  unfold run_ready. destruct (ready w) as [|[t c] r] eqn:E; [by rewrite E|].
  destruct c as [?|?|b]; simpl; try done. unfold retain_completed. by destruct b.
Qed.

Lemma drain_spec w : world_inv w →
  world_inv (drain w) ∧ ready (drain w) = [] ∧ callbacks (drain w) = callbacks w.
Proof.
  unfold drain. intros Hi.
  assert (∀ n, world_inv (Nat.iter n run_ready w) ∧ ready (Nat.iter n run_ready w) = drop n (ready w) ∧
    callbacks (Nat.iter n run_ready w) = callbacks w) as H.
  { induction n as [|n (IH1 & IH2 & IH3)]; [done|]. cbn [Nat.iter nat_rect].
    change (nat_rect (λ _, World) w (λ _, run_ready) n) with (Nat.iter n run_ready w).
    destruct (run_ready_queue (Nat.iter n run_ready w)) as [E1 E2].
    rewrite E1, E2, IH2, IH3. split_and!; [by apply inv_run_ready | | done].
    change (tail (drop n (ready w))) with (drop 1 (drop n (ready w))). rewrite drop_drop. f_equal. lia. }
  destruct (H (length (ready w))) as (H1 & H2 & H3). rewrite H2, drop_all. done.
Qed.

Lemma dict_empty {K V} `{EqDecision K} (d : dict K V) : (∀ k v, dict_get k d ≠ Some v) → d = [].
Proof. destruct d as [|[k v] d]; [done|]. intros H. exfalso. apply (H k v). simpl. by rewrite decide_True. Qed.

Lemma complete_all ts w :
  (∀ t, t ∈ ts → t ∈ finished (steps (Complete <$> ts) w)) ∧
  finished w ⊆ finished (steps (Complete <$> ts) w).
Proof.
  revert w. induction ts as [|t ts IH]; intros w; simpl; [split; [set_solver | done]|].
  destruct (IH (complete t w)) as [H1 H2].
  assert (t ∈ finished (complete t w) ∧ finished w ⊆ finished (complete t w)) as [H3 H4].
  { unfold complete. case_bool_decide; [done|]. simpl. set_solver. }
  split; [|set_solver]. intros u [->|Hu]%elem_of_cons; [set_solver | auto].
Qed.

Lemma complete_callbacks ts w t :
  dict_get t (callbacks w) = None → dict_get t (callbacks (steps (Complete <$> ts) w)) = None.
Proof.
  revert w. induction ts as [|u ts IH]; intros w H; simpl; [done|]. apply IH.
  unfold complete. case_bool_decide; [done|]. simpl. rewrite dict_get_pop. by case_decide.
Qed.

Lemma step_finished e w : finished w ⊆ finished (step e w).
Proof.
  destruct e as [i t|i t|i|i|i|ids|t b|t|]; simpl; try done.
  - unfold register_work_task. rewrite (proj2 (proj2 (add_done_fields _ _ _))). done.
  - unfold register_turn_task. rewrite (proj2 (proj2 (add_done_fields _ _ _))). done.
  - unfold retain_until_done. rewrite (proj2 (proj2 (add_done_fields _ _ _))). done.
  - unfold complete. case_bool_decide; [done|]. simpl. set_solver.
  - unfold run_ready. destruct (ready w) as [|[t [?|?|[]]] r]; done.
Qed.

Lemma steps_finished es w : finished w ⊆ finished (steps es w).
Proof.
  revert w. induction es as [|e es IH]; intros w; simpl; [done|].
  etrans; [apply step_finished | apply IH].
Qed.

(** [t] is tracked under [i], as the turn task or as one of the work tasks. *)
Definition turn_of (i : string) (t : task) (w : World) : Prop :=
  dict_get i (turn_tasks (ledger w)) = Some t.

Definition work_of (i : string) (t : task) (w : World) : Prop :=
  ∃ ts, dict_get i (work_tasks (ledger w)) = Some ts ∧ t ∈ ts.

Lemma step_turn_kept i t e w :
  world_inv w → t ∉ finished (step e w) → (∀ u, e ≠ RegisterTurn i u) →
  turn_of i t w → turn_of i t (step e w).
Proof.
  intros Hi Hf He H. unfold turn_of in *. destruct e as [j u|j u|j|j|j|ids|u b|u|]; simpl; try done.
  - unfold register_work_task. by rewrite (proj1 (add_done_fields _ _ _)).
  - unfold register_turn_task. rewrite (proj1 (add_done_fields _ _ _)). simpl.
    rewrite dict_get_set_ne; [done|]. intros ->. by destruct (He u).
  - unfold retain_until_done. by rewrite (proj1 (add_done_fields _ _ _)).
  - unfold complete. by case_bool_decide.
  - assert (t ∉ finished w) as Hn by (intros Ht; apply Hf, step_finished, Ht).
    unfold run_ready. destruct (ready w) as [|[u c] r] eqn:E; [done|].
    destruct c as [j|j|b]; simpl.
    + by rewrite (proj1 (work_completed_same _ _ _)).
    + assert (u ∈ finished w) as Hu. { apply (wi_ready _ Hi u (TurnCompleted j)). rewrite E. constructor. }
      unfold turn_completed. case_bool_decide as Eu; simpl; [|done].
      assert (j ≠ i) as Hne. { intros ->. rewrite Eu in H. simplify_eq. done. }
      case_match; simpl; by rewrite dict_get_pop_ne.
    + unfold retain_completed. by destruct b.
Qed.

Lemma step_work_kept i t e w :
  world_inv w → t ∉ finished (step e w) → work_of i t w → work_of i t (step e w).
Proof.
  intros Hi Hf (ts & H & Ht). unfold work_of in *.
  destruct e as [j u|j u|j|j|j|ids|u b|u|]; simpl; try (by eauto).
  - unfold register_work_task. rewrite (proj1 (add_done_fields _ _ _)). simpl.
    setoid_rewrite dict_get_set. case_decide; [|eauto]. subst. rewrite H. eexists. split; [done|]. set_solver.
  - unfold register_turn_task. rewrite (proj1 (add_done_fields _ _ _)). eauto.
  - unfold retain_until_done. rewrite (proj1 (add_done_fields _ _ _)). eauto.
  - unfold complete. case_bool_decide; eauto.
  - assert (t ∉ finished w) as Hn by (intros Hx; apply Hf, step_finished, Hx).
    unfold run_ready. destruct (ready w) as [|[u c] r] eqn:E; [eauto|].
    destruct c as [j|j|b]; simpl.
    + assert (u ∈ finished w) as Hu. { apply (wi_ready _ Hi u (WorkCompleted j)). rewrite E. constructor. }
      unfold work_completed. destruct (decide (j = i)) as [->|Hne].
      * rewrite H. rewrite decide_False by (intros Hx; assert (t ∈ ts ∖ {[u]}) as Hy by set_solver;
          rewrite Hx in Hy; set_solver). simpl. rewrite dict_get_set_eq. eexists. split; [done|]. set_solver.
      * repeat case_match; simpl; rewrite ?dict_get_pop_ne, ?dict_get_set_ne by done; eauto.
    + rewrite (proj1 (turn_completed_same _ _ _)). eauto.
    + unfold retain_completed. destruct b; eauto.
Qed.

Lemma fromkeys_elem ks (d : dict string unit) k :
  k ∈ dict_keys (foldl (λ d k, dict_setdefault k tt d) d ks) ↔ k ∈ dict_keys d ∨ k ∈ ks.
Proof.
  revert d. induction ks as [|j ks IH]; intros d; cbn [foldl]; [set_solver|].
  rewrite IH, <- !dict_get_is_Some, dict_get_setdefault, elem_of_cons.
  case_decide; subst; [|naive_solver]. split; intros _; [tauto|]. left.
  destruct (dict_get k d); eauto.
Qed.

Lemma tasks_of_elem i t l :
  t ∈ tasks_of i l ↔ dict_get i (turn_tasks l) = Some t ∨
    ∃ ts, dict_get i (work_tasks l) = Some ts ∧ t ∈ ts.
Proof.
  unfold tasks_of. rewrite elem_of_app, elem_of_elements. f_equiv.
  - destruct (dict_get i (turn_tasks l)); simpl; [|set_solver].
    rewrite list_elem_of_singleton. naive_solver.
  - destruct (dict_get i (work_tasks l)); simpl; naive_solver set_solver.
Qed.

Lemma pending_tasks_elem l t :
  dict_wf (turn_tasks l) → dict_wf (work_tasks l) →
  t ∈ pending_tasks l ↔ ∃ i, t ∈ tasks_of i l.
Proof.
  intros H1 H2. unfold pending_tasks, dict_values. setoid_rewrite tasks_of_elem.
  rewrite elem_of_app, list_elem_of_fmap. split.
  - intros [([i u] & -> & Hin)|Hin].
    + exists i. left. by apply dict_elem_get.
    + apply list_elem_of_In, in_concat in Hin as (us & Hus%list_elem_of_In & Ht%list_elem_of_In).
      apply list_elem_of_fmap in Hus as (ts & -> & ([i ts'] & -> & Hin)%list_elem_of_fmap).
      exists i. right. exists ts'. rewrite elem_of_elements in Ht. split; [by apply dict_elem_get | done].
  - intros (i & [Hi|(ts & Hi & Ht)]).
    + left. exists (i, t). split; [done | by apply dict_get_elem].
    + right. apply list_elem_of_In, in_concat. exists (elements ts). rewrite <- !list_elem_of_In. split.
      * apply list_elem_of_fmap. exists ts. split; [done|]. apply list_elem_of_fmap.
        exists (i, ts). split; [done | by apply dict_get_elem].
      * by rewrite elem_of_elements.
Qed.

Lemma local_ids_elem l i : i ∈ local_ids l ↔ ∃ t, t ∈ tasks_of i l ∨ dict_get i (work_tasks l) = Some ∅.
Proof.
  unfold local_ids. rewrite fromkeys_elem, elem_of_app, <- !dict_get_is_Some.
  setoid_rewrite tasks_of_elem. split.
  - intros [[? ?]|[[t Ht]|[ts Hts]]]; [done | eauto |].
    destruct (decide (ts = ∅)) as [->|Hne]; [exists O; by right|].
    apply set_choose_L in Hne as [t Ht]. exists t. left. right. eauto.
  - intros (t & [[Ht|(ts & Hts & _)]|Ht]); eauto.
Qed.

(** ** Theorems *)

(** No task leaks: after any history of registrations, completions,
    cancellations and callbacks in any order, once every unfinished task
    finishes and the loop has run the ready callbacks, the ledger tracks
    nothing and the retention set is empty. *)
Theorem no_task_leak es :
  let w := steps es World_init in
  let w' := drain (steps (Complete <$> dict_keys (callbacks w)) w) in
  turn_tasks (ledger w') = [] ∧ work_tasks (ledger w') = [] ∧
  pending_tasks (ledger w') = [] ∧ tracking w' = ∅.
Proof.
  intros w. set (w1 := steps (Complete <$> _) w). intros w'.
  assert (world_inv w1) as Hi1 by (apply steps_inv, steps_inv, init_world_inv).
  destruct (drain_spec w1 Hi1) as (Hi & Hr & Hc). fold w' in Hi, Hr, Hc.
  assert (∀ t c, ¬ armed w' t c) as Hno.
  { intros t c [H|H]; [|rewrite Hr in H; set_solver]. rewrite Hc in H.
    assert (dict_get t (callbacks w1) = None) as E; [|rewrite E in H; set_solver].
    destruct (dict_get t (callbacks w)) eqn:E.
    - apply (wi_done _ Hi1), (proj1 (complete_all _ _)). apply dict_get_is_Some. eauto.
    - by apply complete_callbacks. }
  assert (turn_tasks (ledger w') = []) as E1.
  { apply dict_empty. intros i t Ht. by eapply Hno, (wi_turn _ Hi). }
  assert (work_tasks (ledger w') = []) as E2.
  { apply dict_empty. intros i ts Hts. destruct (wi_work _ Hi _ _ Hts) as [Hne Ha].
    apply set_choose_L in Hne as [t Ht]. by eapply Hno, Ha. }
  unfold pending_tasks. rewrite E1, E2. split_and!; try done.
  apply set_eq. intros t. split; [|set_solver]. intros [b Hb]%(wi_track _ Hi). by apply Hno in Hb.
Qed.

(** A registered task stays reachable until it finishes: whatever happens
    in between, including the completion of the turn task it replaced, the
    latest turn task of an item and every work task of it are still tracked
    under that item as long as they have not finished. *)
Theorem tracked_until_finished es es' i t :
  let w := steps es World_init in
  (∀ u, RegisterTurn i u ∉ es') →
  (t ∉ finished (steps es' (register_turn_task i t w)) →
     turn_of i t (steps es' (register_turn_task i t w))) ∧
  (t ∉ finished (steps es' (register_work_task i t w)) →
     work_of i t (steps es' (register_work_task i t w))).
Proof.
  intros w Hes.
  assert (world_inv (register_turn_task i t w) ∧ world_inv (register_work_task i t w)) as [H1 H2].
  { split; [apply (step_inv (RegisterTurn i t)) | apply (step_inv (RegisterWork i t))];
      apply steps_inv, init_world_inv. }
  split; intros Hf.
  - assert (turn_of i t (register_turn_task i t w)) as Ht.
    { unfold turn_of, register_turn_task. rewrite (proj1 (add_done_fields _ _ _)). simpl. apply dict_get_set_eq. }
    revert H1 Ht Hf. generalize (register_turn_task i t w). clear H2.
    induction es' as [|e es' IH]; intros v Hv Ht Hf; simpl in *; [done|].
    apply IH; [set_solver | by apply step_inv | | done].
    apply step_turn_kept; [done | | set_solver | done]. intros Hx. apply Hf. by apply steps_finished.
  - assert (work_of i t (register_work_task i t w)) as Ht.
    { unfold work_of, register_work_task. rewrite (proj1 (add_done_fields _ _ _)). simpl.
      rewrite dict_get_set_eq. eexists. split; [done | set_solver]. }
    revert H2 Ht Hf. generalize (register_work_task i t w). clear H1.
    induction es' as [|e es' IH]; intros v Hv Ht Hf; simpl in *; [done|].
    apply IH; [set_solver | by apply step_inv | | done].
    apply step_work_kept; [done | | done]. intros Hx. apply Hf. by apply steps_finished.
Qed.

(** Cancelling reaches everything: [cancel_selected] marks the selected
    ids cancelled and requests cancellation of exactly the tasks tracked under
    them; selecting [local_ids] requests exactly [pending_tasks]. *)
Theorem cancel_selected_exact es ids :
  let w := steps es World_init in
  (∃ new, cancel_requests (cancel_selected ids w) = cancel_requests w ++ new ∧
     ∀ t, t ∈ new ↔ ∃ i, i ∈ ids ∧ (turn_of i t w ∨ work_of i t w)) ∧
  cancelled_ids (ledger (cancel_selected ids w)) = cancelled_ids (ledger w) ∪ list_to_set ids ∧
  (∃ new, cancel_requests (cancel_selected (local_ids (ledger w)) w) = cancel_requests w ++ new ∧
     ∀ t, t ∈ new ↔ t ∈ pending_tasks (ledger w)).
Proof.
  intros w. assert (world_inv w) as Hi by apply steps_inv, init_world_inv.
  assert (∀ ids t, t ∈ concat ((λ i, tasks_of i (ledger w)) <$> ids) ↔
                   ∃ i, i ∈ ids ∧ t ∈ tasks_of i (ledger w)) as Hin.
  { intros js t. rewrite list_elem_of_In, in_concat. split.
    - intros (us & Hus%list_elem_of_In & Ht%list_elem_of_In).
      apply list_elem_of_fmap in Hus as (i & -> & Hi'). eauto.
    - intros (i & Hi' & Ht). exists (tasks_of i (ledger w)). rewrite <- !list_elem_of_In.
      split; [apply list_elem_of_fmap; eauto | done]. }
  split_and!; [|done|].
  - eexists. split; [done|]. intros t. rewrite Hin. by setoid_rewrite tasks_of_elem.
  - eexists. split; [done|]. intros t. rewrite Hin, pending_tasks_elem by apply Hi. split.
    + intros (i & _ & Ht). eauto.
    + intros (i & Ht). exists i. split; [|done]. apply local_ids_elem. eauto.
Qed.

(** ** Witnesses *)

Lemma tracked_until_finished_witness :
  turn_of "w" 2%nat (steps [Complete 1%nat; RunReady] (register_turn_task "w" 2
    (steps [RegisterTurn "w" 1%nat] World_init))).
Proof.
  apply (tracked_until_finished [RegisterTurn "w" 1%nat] [Complete 1%nat; RunReady] "w" 2%nat).
  - intros u. rewrite !not_elem_of_cons. split_and!; try done. apply not_elem_of_nil.
  - apply (bool_decide_unpack _). vm_compute. exact I.
Defined.
