(* ===== verification/SpeechLifecycle.v ===== *)
(** The speech lifecycle coordinator ([src/server/speech_lifecycle.py]).

    [SpeechLifecycleCoordinator] owns the one transport slot, the admitted
    generation, its timer, the context fences and the terminal notification.

    The coordinator runs on one event loop.  Its synchronous methods are
    functions on the state.  Each of its coroutines is cut at its await points,
    which are exactly the calls of the three injected callbacks
    ([on_terminal], [dispatch_cleanup], [dispatch_teardown]): [coroutine] has a
    constructor for a coroutine that has not started and one per suspension
    point, [start] and [resume] run the code up to the next suspension.
    A callback's own behaviour is the environment's: it may call back into the
    coordinator (other steps of the run happen while it is suspended) and it
    returns or raises ([outcome]).  The callbacks are wired, as in production,
    and a loop is running, so [_schedule] always creates a task.

    A timer handle stays in [_timer_handles] after it fired; [tm_fired] tells
    the two apart.  Clock readings are arguments, tokens ([uuid4().hex]) are
    arguments of admission. *)

From S2P Require Import Prelude PyDict.

Inductive GenerationPhase :=
| GP_ADMITTED | GP_HANDED_TO_TTS | GP_SYNTHESIZING | GP_SYNTHESIS_ENDED
| GP_TRANSPORT_STARTED | GP_TRANSPORT_STOPPED.

Inductive DeliveryDisposition :=
| DD_PAUSED | DD_INTERRUPTED | DD_CANCELLED | DD_DELIVERY_COMPLETED | DD_DELIVERY_UNKNOWN.

Inductive GenerationRole := role_result | role_ack.

Inductive PreAdmissionTerminalReason :=
| NO_TTS | UNAVAILABLE_TRANSPORT | CONNECTION_CLOSED | PRE_CANCELLED.

#[global] Instance GenerationPhase_eq_dec : EqDecision GenerationPhase.
Proof. solve_decision. Defined.
#[global] Instance DeliveryDisposition_eq_dec : EqDecision DeliveryDisposition.
Proof. solve_decision. Defined.
#[global] Instance GenerationRole_eq_dec : EqDecision GenerationRole.
Proof. solve_decision. Defined.
#[global] Instance PreAdmissionTerminalReason_eq_dec : EqDecision PreAdmissionTerminalReason.
Proof. solve_decision. Defined.

Record GenerationIdentity := mkIdentity {
  gi_utterance_id : string;
  gi_work_item_id : string;
  gi_origin_epoch : option N;
  gi_role : GenerationRole;
  gi_turn_id : option string;
  gi_ack_id : option string
}.

#[global] Instance GenerationIdentity_eq_dec : EqDecision GenerationIdentity.
Proof. solve_decision. Defined.

Record SpeechGeneration := mkGeneration {
  gen_identity : GenerationIdentity;
  phase : GenerationPhase;
  disposition : option DeliveryDisposition;
  context_id : option string;
  audio_duration_seconds : Q;
  audio_submitted : bool;
  synthesis_ended_at : option Q;
  cleanup_pending : bool;
  teardown_pending : bool;
  tombstoned : bool;
  terminalized : bool
}.

#[export] Instance eta_SpeechGeneration : Eta SpeechGeneration := λ r,
  mkGeneration (gen_identity r) (phase r) (disposition r) (context_id r)
    (audio_duration_seconds r) (audio_submitted r) (synthesis_ended_at r) (cleanup_pending r)
    (teardown_pending r) (tombstoned r) (terminalized r).

Definition SpeechGeneration_init (identity : GenerationIdentity) : SpeechGeneration :=
  mkGeneration identity GP_ADMITTED None None 0 false None false false false false.

Inductive PreAdmission :=
| PreAdmissionAdmit (token : string)
| PreAdmissionTerminal (reason : PreAdmissionTerminalReason)
| PreAdmissionBusy.

(** The coroutine a timer schedules when it fires. *)
Inductive timer_kind := StartTimeout | DrainTimeout | InterruptionTimeout | FlushAckTimeout.

Record Timer := mkTimer { tm_when : Q; tm_kind : timer_kind; tm_fired : bool }.

(** Coroutines not yet started, then the suspension points. *)
Inductive coroutine :=
| CNoop
| CTimeout (kind : timer_kind) (token : string)
| CTerminalize (token : string) (d : DeliveryDisposition)
| CNotify (token : string) (identity : GenerationIdentity) (d : option DeliveryDisposition)
| CFinalizeUncontexted (token : string) (d : DeliveryDisposition)
| KCleanup (token : string)                            (* in [_begin_cleanup] *)
| KFinalize (token : string) (d : DeliveryDisposition) (* in [_finalize_uncontexted_interruption] *)
| KTeardown                                            (* in [_request_teardown] *)
| KTerminal (bump : bool).                             (* in [_terminalize]; [bump] from [_teardown_complete] *)

(** The calls of the injected callbacks, in order. *)
Inductive effect :=
| OnTerminal (token : string) (identity : GenerationIdentity) (d : option DeliveryDisposition)
| DispatchCleanup (token : string) (identity : GenerationIdentity)
| DispatchTeardown (token : string) (identity : GenerationIdentity).

Class LifecycleConfig := {
  speech_start_timeout_seconds : Q;
  speech_transport_grace_seconds : Q;
  context_tombstone_limit : nat;
  tts_available : bool
}.

Record Coordinator := mkCoordinator {
  generations : dict string SpeechGeneration;
  slot_token : option string;
  context_tokens : dict string string;
  context_tombstones : dict string unit;
  timer_handles : dict string Timer;
  transition_tasks : list coroutine;   (* tasks created by [_schedule] *)
  awaited : list coroutine;            (* coroutines awaited by callers *)
  is_closed : bool;
  teardown_generation : nat;
  effects : list effect
}.

#[export] Instance eta_Coordinator : Eta Coordinator := λ r,
  mkCoordinator (generations r) (slot_token r) (context_tokens r) (context_tombstones r)
    (timer_handles r) (transition_tasks r) (awaited r) (is_closed r) (teardown_generation r)
    (effects r).

Definition Coordinator_init : Coordinator := mkCoordinator [] None [] [] [] [] [] false 0 [].

Section coordinator.
Context `{LifecycleConfig}.
Implicit Types (s : Coordinator) (token : string) (now : Q).

(** ** Internal helpers *)

Definition emit_effect (e : effect) s : Coordinator := s <| effects ::= (λ l, l ++ [e]) |>.

Definition put (token : string) (g : SpeechGeneration) s : Coordinator :=
  s <| generations := dict_set token g (generations s) |>.

Definition live (token : string) s : option SpeechGeneration :=
  match dict_get token (generations s) with
  | Some g => if terminalized g then None else Some g
  | None => None
  end.

(** The occupant's token with its generation. *)
Definition occupied_generation s : option (string * SpeechGeneration) :=
  match slot_token s with
  | None => None
  | Some t => (λ g, (t, g)) <$> dict_get t (generations s)
  end.

Definition cancel_timer (token : string) s : Coordinator := s <| timer_handles ::= dict_pop token |>.

Definition arm (token : string) (when : Q) (k : timer_kind) s : Coordinator :=
  let s := cancel_timer token s in
  s <| timer_handles := dict_set token (mkTimer when k false) (timer_handles s) |>.

Definition schedule (c : coroutine) s : Coordinator := s <| transition_tasks ::= (λ l, l ++ [c]) |>.

Definition d_or (d : option DeliveryDisposition) (e : DeliveryDisposition) : DeliveryDisposition :=
  default e d.

(** [_context_tombstones[c] = None; move_to_end; trim] *)
Definition bury (c : string) s : Coordinator :=
  if decide (context_tombstone_limit = 0%nat) then s
  else s <| context_tombstones := dict_trim context_tombstone_limit
              (dict_move_to_end c (dict_set c tt (context_tombstones s))) |>.

Definition terminalize_state (token : string) (d : DeliveryDisposition) s
    : Coordinator * option SpeechGeneration :=
  match live token s with
  | None => (s, None)
  | Some g =>
      let g := g <| terminalized := true |> <| disposition := Some (d_or (disposition g) d) |> in
      let s := put token g s in
      let s := cancel_timer token s in
      let s := if decide (slot_token s = Some token) then s <| slot_token := None |> else s in
      let s := match context_id g with
               | None => s
               | Some c =>
                   let s := if decide (dict_get c (context_tokens s) = Some token)
                            then s <| context_tokens ::= dict_pop c |> else s in
                   bury c s
               end in
      (s <| generations ::= dict_pop token |>, Some g)
  end.

(** ** Coroutine bodies, up to their next suspension

    [None] means the coroutine returned. *)

Definition terminalize (token : string) (d : DeliveryDisposition) (bump : bool) s
    : Coordinator * option coroutine :=
  match terminalize_state token d s with
  | (s, None) => (if bump then s <| teardown_generation ::= S |> else s, None)
  | (s, Some g) => (emit_effect (OnTerminal token (gen_identity g) (disposition g)) s,
                    Some (KTerminal bump))
  end.

Definition request_teardown (token : string) s : Coordinator * option coroutine :=
  match live token s with
  | None => (s, None)
  | Some g =>
      if teardown_pending g then (s, None)
      else
        let s := put token (g <| teardown_pending := true |>) s in
        let s := cancel_timer token s in
        (emit_effect (DispatchTeardown token (gen_identity g)) s, Some KTeardown)
  end.

Definition begin_cleanup (token : string) (g : SpeechGeneration) s
    : Coordinator * option coroutine :=
  if cleanup_pending g then (s, None)
  else
    let s := put token (g <| cleanup_pending := true |>) s in
    (emit_effect (DispatchCleanup token (gen_identity g)) s, Some (KCleanup token)).

Definition begin_delivery_unknown (token : string) s : Coordinator * option coroutine :=
  match live token s with
  | None => (s, None)
  | Some g =>
      let g := g <| disposition := Some (d_or (disposition g) DD_DELIVERY_UNKNOWN) |>
                 <| tombstoned := true |> in
      begin_cleanup token g (put token g s)
  end.

Definition on_interruption_timeout (token : string) s : Coordinator * option coroutine :=
  match live token s with
  | None => (s, None)
  | Some g => begin_cleanup token g s
  end.

Definition on_timeout (k : timer_kind) (token : string) s : Coordinator * option coroutine :=
  match k with
  | StartTimeout | DrainTimeout => begin_delivery_unknown token s
  | InterruptionTimeout => on_interruption_timeout token s
  | FlushAckTimeout => request_teardown token s
  end.

Definition acknowledge_tts_lane_flush (token : string) s : Coordinator * option coroutine :=
  match dict_get token (generations s) with
  | None => (s, None)
  | Some g =>
      if negb (cleanup_pending g || tombstoned g) || audio_submitted g || teardown_pending g
      then (s, None)
      else terminalize token (d_or (disposition g) DD_DELIVERY_UNKNOWN) false s
  end.

Definition teardown_complete (token : string) s : Coordinator * option coroutine :=
  match dict_get token (generations s) with
  | None => (s, None)
  | Some g => terminalize token (d_or (disposition g) DD_DELIVERY_UNKNOWN) true s
  end.

Definition finalize_uncontexted_interruption (token : string) (d : DeliveryDisposition) s
    : Coordinator * option coroutine :=
  match live token s with
  | None => (s, None)
  | Some g => (emit_effect (DispatchCleanup token (gen_identity g)) s, Some (KFinalize token d))
  end.

(** ** Starting and resuming *)

Definition start (c : coroutine) s : Coordinator * option coroutine :=
  match c with
  | CNoop => (s, None)
  | CTimeout k t => on_timeout k t s
  | CTerminalize t d => terminalize t d false s
  | CNotify t i d => (emit_effect (OnTerminal t i d) s, Some (KTerminal false))
  | CFinalizeUncontexted t d => finalize_uncontexted_interruption t d s
  | k => (s, Some k)
  end.

Inductive outcome := Returned | Raised.

(** The callback a suspended coroutine awaits returned or raised. *)
Definition resume (c : coroutine) (o : outcome) now s : Coordinator * option coroutine :=
  match c, o with
  | KCleanup t, Raised => request_teardown t s
  | KCleanup t, Returned =>
      match live t s with
      | None => (s, None)
      | Some g =>
          if audio_submitted g then request_teardown t s
          else (arm t (now + speech_transport_grace_seconds)%Q FlushAckTimeout s, None)
      end
  | KFinalize t d, Raised => request_teardown t s
  | KFinalize t d, Returned => terminalize t d false s
  | KTeardown, _ => (s, None)
  | KTerminal b, Returned => (if b then s <| teardown_generation ::= S |> else s, None)
  | KTerminal _, Raised => (s, None)
  | c, _ => start c s
  end.

(** ** Admission and TTS handoff *)

Definition occupied s : bool := bool_decide (slot_token s ≠ None).

Definition try_admit (identity : GenerationIdentity) (token : string) s
    : Coordinator * option string :=
  if is_closed s || occupied s then (s, None)
  else ((put token (SpeechGeneration_init identity) s) <| slot_token := Some token |>, Some token).

(** [transport_acceptance] is the predicate's answer, [None] when none was
    injected. *)
Definition pre_admission_disposition (identity : GenerationIdentity)
    (transport_acceptance : option bool) (token : string) s : Coordinator * PreAdmission :=
  if negb tts_available then (s, PreAdmissionTerminal NO_TTS)
  else if bool_decide (gi_role identity = role_ack)
          && match transport_acceptance with Some ok => negb ok | None => false end then
    (s, PreAdmissionTerminal UNAVAILABLE_TRANSPORT)
  else if is_closed s then (s, PreAdmissionTerminal CONNECTION_CLOSED)
  else match try_admit identity token s with
       | (s, None) => (s, PreAdmissionBusy)
       | (s, Some t) => (s, PreAdmissionAdmit t)
       end.

Definition mark_handed_to_tts (token : string) now s : Coordinator :=
  match live token s with
  | None => s
  | Some g =>
      if tombstoned g then s
      else
        let s := put token (g <| phase := GP_HANDED_TO_TTS |>) s in
        arm token (now + speech_start_timeout_seconds)%Q StartTimeout s
  end.

Definition bind_context (token context : string) s : Coordinator * bool :=
  match live token s with
  | None => (s, false)
  | Some g =>
      if tombstoned g then (s, false)
      else if negb (bool_decide (context = gi_utterance_id (gen_identity g))) then (s, false)
      else match context_id g with
           | Some c => (s, bool_decide (c = context)
                           && bool_decide (dict_get context (context_tokens s) = Some token))
           | None =>
               if match dict_get context (context_tokens s) with
                  | Some owner => negb (bool_decide (owner = token))
                  | None => false
                  end then (s, false)
               else if dict_mem context (context_tombstones s) then (s, false)
               else
                 let s := put token (g <| context_id := Some context |>) s in
                 (s <| context_tokens := dict_set context token (context_tokens s) |>, true)
           end
  end.

(** ** Provider synthesis lifecycle *)

Definition on_tts_started (context : string) s : Coordinator * bool :=
  match dict_get context (context_tokens s) with
  | None => (s, false)
  | Some token =>
      match live token s with
      | None => (s, false)
      | Some g =>
          if tombstoned g then (s, false)
          else
            let s := cancel_timer token s in
            (put token (g <| phase := GP_SYNTHESIZING |>) s, true)
      end
  end.

(** Sixteen-bit samples: [len(audio) / (max(num_channels, 1) * 2)] frames. *)
Definition audio_seconds (audio_len : nat) (sample_rate num_channels : Z) : Q :=
  (inject_Z (Z.of_nat audio_len) / inject_Z (Z.max num_channels 1 * 2)
   / inject_Z (Z.max sample_rate 1))%Q.

Definition on_tts_audio (context : string) (audio_len : nat) (sample_rate num_channels : Z) s
    : Coordinator * bool :=
  match dict_get context (context_tokens s) with
  | None => (s, false)
  | Some token =>
      match live token s with
      | None => (s, false)
      | Some g =>
          if tombstoned g then (s, false)
          else (put token
                  (g <| audio_duration_seconds ::= (λ q, q + audio_seconds audio_len sample_rate num_channels)%Q |>
                     <| audio_submitted := true |>) s, true)
      end
  end.

Definition on_tts_stopped (context : string) now s : Coordinator * bool :=
  match dict_get context (context_tokens s) with
  | None => (s, false)
  | Some token =>
      match live token s with
      | None => (s, false)
      | Some g =>
          if tombstoned g then (s, false)
          else
            let g := g <| phase := GP_SYNTHESIS_ENDED |> <| synthesis_ended_at := Some now |> in
            let deadline := (now + audio_duration_seconds g + speech_transport_grace_seconds)%Q in
            (arm token deadline DrainTimeout (put token g s), true)
      end
  end.

(** ** Transport lifecycle *)

Definition on_transport_bot_started s : Coordinator :=
  match occupied_generation s with
  | None => s
  | Some (t, g) => put t (g <| phase := GP_TRANSPORT_STARTED |>) s
  end.

Definition on_transport_bot_stopped s : Coordinator :=
  match occupied_generation s with
  | None => schedule CNoop s
  | Some (t, g) =>
      let s := cancel_timer t s in
      let s := put t (g <| phase := GP_TRANSPORT_STOPPED |>) s in
      schedule (CTerminalize t DD_DELIVERY_UNKNOWN) s
  end.

(** ** Interruption, release and close *)

Definition record_interruption (token : string) (pause : bool) now s : Coordinator :=
  match live token s with
  | None => s
  | Some g =>
      let s := cancel_timer token s in
      let d := if pause then DD_PAUSED else DD_INTERRUPTED in
      let s := put token (g <| disposition := Some d |> <| tombstoned := true |>) s in
      match context_id g with
      | None => schedule (CFinalizeUncontexted token d) s
      | Some _ => arm token (now + speech_transport_grace_seconds)%Q InterruptionTimeout s
      end
  end.

Definition release_generation (token : string) (notify : bool) (d : DeliveryDisposition) s
    : Coordinator :=
  match terminalize_state token d s with
  | (s, Some g) =>
      if notify then schedule (CNotify token (gen_identity g) (disposition g)) s else s
  | (s, None) => s
  end.

Definition drop_stale_frame (context : string) s : bool :=
  if dict_mem context (context_tombstones s) then true
  else match dict_get context (context_tokens s) with
       | None => false
       | Some token =>
           match dict_get token (generations s) with
           | None => true
           | Some g => terminalized g || tombstoned g
           end
       end.

Definition connection_closed s : Coordinator :=
  s <| timer_handles := [] |> <| transition_tasks := [] |> <| context_tokens := [] |>
    <| context_tombstones := [] |> <| generations := [] |> <| slot_token := None |>
    <| is_closed := true |>.

(** ** Runs *)

Inductive lstep :=
| LAdmit (identity : GenerationIdentity) (transport_acceptance : option bool) (token : string)
| LHanded (token : string) (now : Q)
| LBind (token context : string)
| LTtsStarted (context : string)
| LTtsAudio (context : string) (audio_len : nat) (sample_rate num_channels : Z)
| LTtsStopped (context : string) (now : Q)
| LBotStarted
| LBotStopped
| LInterrupt (token : string) (pause : bool) (now : Q)
| LRelease (token : string) (notify : bool) (d : DeliveryDisposition)
| LProviderError (token : string)
| LAckFlush (token : string)
| LTeardownComplete (token : string)
| LClosed
| LFire (token : string) (now : Q)
| LRunTask (i : nat) (o : outcome) (now : Q)
| LRunAwaited (i : nat) (o : outcome) (now : Q).

(** A caller awaits the coroutine, which starts at once. *)
Definition await (r : Coordinator * option coroutine) : Coordinator :=
  match r with
  | (s, None) => s
  | (s, Some k) => s <| awaited ::= (λ l, l ++ [k]) |>
  end.

(** A due timer runs [lambda: self._schedule(callback(token))]. *)
Definition fire (token : string) now s : Coordinator :=
  match dict_get token (timer_handles s) with
  | None => s
  | Some t =>
      if tm_fired t || Qltb now (tm_when t) then s
      else schedule (CTimeout (tm_kind t) token)
             (s <| timer_handles := dict_set token (mkTimer (tm_when t) (tm_kind t) true)
                                      (timer_handles s) |>)
  end.

Definition requeue (k : option coroutine) (l : list coroutine) : list coroutine :=
  match k with Some k => l ++ [k] | None => l end.

Definition run_task (i : nat) (o : outcome) now s : Coordinator :=
  match transition_tasks s !! i with
  | None => s
  | Some c =>
      let s := s <| transition_tasks ::= list_delete i |> in
      let (s, k) := resume c o now s in
      s <| transition_tasks ::= requeue k |>
  end.

Definition run_awaited (i : nat) (o : outcome) now s : Coordinator :=
  match awaited s !! i with
  | None => s
  | Some c =>
      let s := s <| awaited ::= list_delete i |> in
      let (s, k) := resume c o now s in
      s <| awaited ::= requeue k |>
  end.

Definition lexec (e : lstep) s : Coordinator :=
  match e with
  | LAdmit i a t => (pre_admission_disposition i a t s).1
  | LHanded t now => mark_handed_to_tts t now s
  | LBind t c => (bind_context t c s).1
  | LTtsStarted c => (on_tts_started c s).1
  | LTtsAudio c n r ch => (on_tts_audio c n r ch s).1
  | LTtsStopped c now => (on_tts_stopped c now s).1
  | LBotStarted => on_transport_bot_started s
  | LBotStopped => on_transport_bot_stopped s
  | LInterrupt t p now => record_interruption t p now s
  | LRelease t n d => release_generation t n d s
  | LProviderError t => await (begin_delivery_unknown t s)
  | LAckFlush t => await (acknowledge_tts_lane_flush t s)
  | LTeardownComplete t => await (teardown_complete t s)
  | LClosed => connection_closed s
  | LFire t now => fire t now s
  | LRunTask i o now => run_task i o now s
  | LRunAwaited i o now => run_awaited i o now s
  end.

Definition lrun (es : list lstep) s : Coordinator := foldl (λ s e, lexec e s) s es.

End coordinator.
