(* ===== verification/SpeechLifecycleFacts.v ===== *)
(** Theorems about the speech lifecycle coordinator of [SpeechLifecycle].

    Every public method and coroutine segment is a composition of a few
    primitive updates (write the occupant, arm or cancel its timer, schedule,
    terminalize, admit, bind, close); the invariant and the two counting
    arguments are proved for the primitives and lifted to runs. *)

From S2P Require Import Prelude PyDict SpeechLifecycle.

Section facts.
Context `{LifecycleConfig}.
Implicit Types (s : Coordinator) (t c : string).

(** ** The invariant *)

Record coord_inv s : Prop := {
  ci_slot : dict_keys (generations s) = option_list (slot_token s);
  ci_live : ∀ t g, dict_get t (generations s) = Some g → terminalized g = false;
  ci_timers : ∀ t, t ∈ dict_keys (timer_handles s) → t ∈ dict_keys (generations s);
  ci_timers_wf : dict_wf (timer_handles s);
  ci_bound : ∀ c t, dict_get c (context_tokens s) = Some t →
    ∃ g, dict_get t (generations s) = Some g ∧ context_id g = Some c;
  ci_context : ∀ t g c, dict_get t (generations s) = Some g → context_id g = Some c →
    c = gi_utterance_id (gen_identity g) ∧ dict_get c (context_tokens s) = Some t;
  ci_disposed : ∀ t g, dict_get t (generations s) = Some g → tombstoned g = true → disposition g ≠ None;
  ci_tombstones : (length (context_tombstones s) ≤ context_tombstone_limit)%nat;
  ci_closed : is_closed s = true → slot_token s = None
}.

(** How a live generation may change. *)
Record gen_le (g g' : SpeechGeneration) : Prop := {
  gl_identity : gen_identity g' = gen_identity g;
  gl_tombstoned : tombstoned g = true → tombstoned g' = true;
  gl_audio : audio_submitted g = true → audio_submitted g' = true;
  gl_cleanup : cleanup_pending g = true → cleanup_pending g' = true;
  gl_teardown : teardown_pending g = true → teardown_pending g' = true;
  gl_disposed : disposition g ≠ None → disposition g' ≠ None
}.

(** A write the invariant allows. *)
Definition gen_ok (g g' : SpeechGeneration) : Prop :=
  gen_le g g' ∧ context_id g' = context_id g ∧ terminalized g' = terminalized g ∧
  (tombstoned g' = true → disposition g' ≠ None).

Lemma live_get t s g : live t s = Some g → dict_get t (generations s) = Some g.
Proof. unfold live. repeat case_match; congruence. Qed.

Lemma live_inv t s : coord_inv s → live t s = dict_get t (generations s).
Proof.
  intros Hi. unfold live. destruct (dict_get t (generations s)) eqn:E; [|done].
  by rewrite (ci_live _ Hi _ _ E).
Qed.

(** The occupant is the only generation. *)
Lemma only_occupant s t : coord_inv s → t ∈ dict_keys (generations s) → slot_token s = Some t.
Proof.
  intros Hi. rewrite (ci_slot _ Hi). destruct (slot_token s); simpl; [|set_solver].
  rewrite list_elem_of_singleton. congruence.
Qed.

Lemma get_occupant s t g : coord_inv s → dict_get t (generations s) = Some g → slot_token s = Some t.
Proof. intros Hi Hg. apply only_occupant; [done|]. apply dict_get_is_Some. eauto. Qed.

Lemma occupant_get s t : coord_inv s → slot_token s = Some t → ∃ g, generations s = [(t, g)].
Proof.
  intros Hi Hs. pose proof (ci_slot _ Hi) as Hk. rewrite Hs in Hk. simpl in Hk.
  destruct (generations s) as [|[t' g] [|]]; try done. unfold dict_keys in Hk. csimpl in Hk.
  simplify_eq. eauto.
Qed.

(** ** Primitive updates keep the invariant *)

Lemma keys_put_in t g g' s :
  dict_get t (generations s) = Some g → dict_keys (dict_set t g' (generations s)) = dict_keys (generations s).
Proof. intros Hg. rewrite dict_keys_set, decide_True; [done|]. apply dict_get_is_Some. eauto. Qed.

Lemma inv_put t g g' s :
  coord_inv s → dict_get t (generations s) = Some g → gen_ok g g' → coord_inv (put t g' s).
Proof.
  intros Hi Hg (Hle & Hc & Ht & Hd). unfold put. split; simpl; try apply Hi.
  - rewrite (keys_put_in t g) by done. apply Hi.
  - intros u h. rewrite dict_get_set. case_decide; [|apply (ci_live _ Hi)].
    intros [= <-]. rewrite Ht. by eapply (ci_live _ Hi).
  - intros u Hu. rewrite (keys_put_in t g) by done. by apply (ci_timers _ Hi).
  - intros c u (h & Hh & Hch)%(ci_bound _ Hi). setoid_rewrite dict_get_set. case_decide; [|eauto].
    subst. simplify_eq. exists g'. split; [done|congruence].
  - intros u h c. rewrite dict_get_set. case_decide; [|apply (ci_context _ Hi)].
    intros [= <-]. subst. rewrite Hc, (gl_identity _ _ Hle). by apply (ci_context _ Hi).
  - intros u h. rewrite dict_get_set. case_decide; [intros [= <-]; done | apply (ci_disposed _ Hi)].
Qed.

Lemma inv_cancel_timer t s : coord_inv s → coord_inv (cancel_timer t s).
Proof.
  intros Hi. split; simpl; try apply Hi; [|apply dict_wf_pop, Hi].
  intros u [_ Hu]%dict_keys_pop_elem. by apply (ci_timers _ Hi).
Qed.

Lemma inv_arm t w k s :
  coord_inv s → t ∈ dict_keys (generations s) → coord_inv (arm t w k s).
Proof.
  intros Hi%(inv_cancel_timer t) Ht. unfold arm. split; simpl; try apply Hi; [|apply dict_wf_set, Hi].
  intros u [->|Hu]%dict_keys_set_elem; [done | by apply (ci_timers _ Hi)].
Qed.

(** Fields the invariant does not read. *)
Definition quiet s s' : Prop :=
  generations s' = generations s ∧ slot_token s' = slot_token s ∧
  context_tokens s' = context_tokens s ∧ context_tombstones s' = context_tombstones s ∧
  timer_handles s' = timer_handles s ∧ is_closed s' = is_closed s.

Lemma inv_quiet s s' : quiet s s' → coord_inv s → coord_inv s'.
Proof.
  intros (E1 & E2 & E3 & E4 & E5 & E6) []. split; rewrite ?E1, ?E2, ?E3, ?E4, ?E5, ?E6; done.
Qed.

Lemma bury_fields c s :
  generations (bury c s) = generations s ∧ slot_token (bury c s) = slot_token s ∧
  context_tokens (bury c s) = context_tokens s ∧ timer_handles (bury c s) = timer_handles s ∧
  is_closed (bury c s) = is_closed s ∧ transition_tasks (bury c s) = transition_tasks s ∧
  awaited (bury c s) = awaited s ∧ effects (bury c s) = effects s.
Proof. unfold bury. by case_decide. Qed.

Lemma bury_length c s :
  (length (context_tombstones s) ≤ context_tombstone_limit)%nat →
  (length (context_tombstones (bury c s)) ≤ context_tombstone_limit)%nat.
Proof. unfold bury. case_decide; [done|]. intros _. simpl. apply dict_trim_length. Qed.

Lemma dict_pop_only {V} t (v : V) : dict_pop t [(t, v)] = [].
Proof. unfold dict_pop. rewrite filter_cons_False by naive_solver. done. Qed.

(** Terminalizing a live generation empties the slot and every map keyed by it;
    of the other fields only the tombstones change. *)
Lemma terminalize_state_spec t d s :
  coord_inv s →
  match live t s with
  | None => terminalize_state t d s = (s, None)
  | Some g => ∃ s', terminalize_state t d s =
        (s', Some (g <| terminalized := true |> <| disposition := Some (d_or (disposition g) d) |>)) ∧
      generations s' = [] ∧ slot_token s' = None ∧ timer_handles s' = [] ∧ context_tokens s' = [] ∧
      is_closed s' = is_closed s ∧
      (length (context_tombstones s') ≤ context_tombstone_limit)%nat ∧
      transition_tasks s' = transition_tasks s ∧ awaited s' = awaited s ∧ effects s' = effects s
  end.
Proof.
  intros Hi. unfold terminalize_state. destruct (live t s) as [g|] eqn:El; [|done].
  apply live_get in El as Hg. pose proof (get_occupant _ _ _ Hi Hg) as Hs.
  destruct (occupant_get _ _ Hi Hs) as [g' Eg]. rewrite Eg in Hg. simpl in Hg.
  rewrite decide_True in Hg by done. simplify_eq.
  assert (dict_pop t (timer_handles s) = []) as Et.
  { apply dict_keys_nil. intros u [Hne Hu%(ci_timers _ Hi)]%dict_keys_pop_elem.
    apply (only_occupant _ _ Hi) in Hu. congruence. }
  assert (∀ c u, dict_get c (context_tokens s) = Some u → u = t ∧ context_id g = Some c) as Hc.
  { intros c u (h & Hh & ?)%(ci_bound _ Hi). rewrite Eg in Hh. simpl in Hh. by case_decide; simplify_eq. }
  pose proof (ci_context _ Hi t g) as Hctx. rewrite Eg in Hctx. simpl in Hctx.
  pose proof (ci_tombstones _ Hi) as Htb.
  destruct s as [gs sl ct tb th tasks aw cl tg ef]. cbn in *. subst gs sl.
  unfold put, cancel_timer. cbn. rewrite !(decide_True (P := t = t)) by done.
  rewrite (decide_True (P := Some t = Some t)) by done. rewrite Et. cbn.
  eexists. split; [reflexivity|].
  destruct (context_id g) as [c|] eqn:Ec; cbn.
  - destruct (Hctx c) as [_ E]; [by rewrite decide_True | done|].
    rewrite (decide_True (P := dict_get c ct = Some t)) by done.
    match goal with |- context [bury c ?x] => pose proof (bury_fields c x) as (E1 & E2 & E3 & E4 & E5 & E6 & E7 & E8);
      pose proof (bury_length c x Htb) as E9; set (b := bury c x) in * end.
    clearbody b. cbn in *. rewrite ?E1, ?E2, ?E3, ?E4, ?E5, ?E6, ?E7, ?E8, dict_pop_only.
    split_and!; try done. change (dict_pop c ct = []). apply dict_keys_nil. intros k [Hne [u Hu]%dict_get_is_Some]%dict_keys_pop_elem.
    destruct (Hc k u Hu). congruence.
  - split_and!; try done; [exact (dict_pop_only t _)|]. apply dict_keys_nil. intros k [u Hu]%dict_get_is_Some. by destruct (Hc k u Hu).
Qed.

(** ** Counting notifications

    [mass u s] counts the generation [u] while it lives and its terminal
    notification once it is issued or queued. *)

Definition note_task (u : string) (c : coroutine) : nat :=
  match c with CNotify t _ _ => if decide (t = u) then 1 else 0 | _ => 0 end.

Definition note_effect (u : string) (e : effect) : nat :=
  match e with OnTerminal t _ _ => if decide (t = u) then 1 else 0 | _ => 0 end.

Definition notices (u : string) s : nat :=
  sum_list_with (note_effect u) (effects s) + sum_list_with (note_task u) (transition_tasks s) +
  sum_list_with (note_task u) (awaited s).

Definition alive (u : string) s : nat := if dict_mem u (generations s) then 1 else 0.

Definition mass (u : string) s : nat := alive u s + notices u s.

(** The occupant afterwards is the occupant before, possibly advanced. *)
Definition gens_le s s' : Prop :=
  ∀ u g', dict_get u (generations s') = Some g' →
  ∃ g, dict_get u (generations s) = Some g ∧ gen_le g g'.

(** A change that keeps the invariant, the mass and the identity of the
    occupant. *)
Definition evolves s s' : Prop :=
  coord_inv s → coord_inv s' ∧ (∀ u, mass u s' = mass u s) ∧ gens_le s s'.

#[global] Instance gen_le_preorder : PreOrder gen_le.
Proof. split; [by split|]. intros a b c [] []. split; eauto. congruence. Qed.

#[global] Instance evolves_preorder : PreOrder evolves.
Proof.
  split.
  - intros s Hi. split_and!; [done..|]. intros u g Hg. by exists g.
  - intros s1 s2 s3 H12 H23 Hi. destruct (H12 Hi) as (Hi2 & Hm2 & Hg2).
    destruct (H23 Hi2) as (Hi3 & Hm3 & Hg3). split_and!; [done | intros u; by rewrite Hm3 |].
    intros u g3 (g2 & Hu2 & Hle2)%Hg3. destruct (Hg2 u g2 Hu2) as (g1 & Hu1 & Hle1).
    exists g1. split; [done | by etrans].
Qed.

Lemma evolves_refl s : evolves s s.
Proof. reflexivity. Qed.

Lemma evolves_trans s1 s2 s3 : evolves s1 s2 → evolves s2 s3 → evolves s1 s3.
Proof. apply transitivity. Qed.

Lemma evolves_quiet s s' : quiet s s' → (∀ u, notices u s' = notices u s) → evolves s s'.
Proof.
  intros Hq Hn Hi. split; [by eapply inv_quiet|]. destruct Hq as (E & _). unfold mass, alive, gens_le.
  rewrite E. split; [intros u; by rewrite Hn|]. intros u g Hg. by exists g.
Qed.

Lemma evolves_put t g g' s :
  dict_get t (generations s) = Some g → gen_ok g g' → evolves s (put t g' s).
Proof.
  intros Hg Hok Hi. split; [by eapply inv_put|]. split.
  - intros u. unfold mass, notices, alive, dict_mem, put. simpl. rewrite dict_get_set.
    case_decide; [subst; by rewrite Hg | done].
  - intros u h. unfold put. simpl. rewrite dict_get_set. case_decide; [|by exists h].
    intros [= <-]. subst. exists g. split; [done | apply Hok].
Qed.

Lemma evolves_timers s th :
  (∀ t, t ∈ dict_keys th → t ∈ dict_keys (generations s)) → dict_wf th →
  evolves s (s <| timer_handles := th |>).
Proof.
  intros Hk Hw Hi. split; [|split; [done|]; intros u g Hg; by exists g].
  destruct Hi. by split.
Qed.

Lemma evolves_cancel_timer t s : evolves s (cancel_timer t s).
Proof.
  intros Hi. apply (evolves_timers s (dict_pop t (timer_handles s))); [|apply dict_wf_pop, Hi|done].
  intros u [_ Hu]%dict_keys_pop_elem. by apply (ci_timers _ Hi).
Qed.

Lemma evolves_arm t w k s g : dict_get t (generations s) = Some g → evolves s (arm t w k s).
Proof.
  intros Hg Hi.
  apply (evolves_timers s (dict_set t (mkTimer w k false) (dict_pop t (timer_handles s)))); [| |done].
  - intros u [->|[_ Hu]%dict_keys_pop_elem]%dict_keys_set_elem; [|by apply (ci_timers _ Hi)].
    apply dict_get_is_Some. eauto.
  - apply dict_wf_set, dict_wf_pop, Hi.
Qed.

Lemma evolves_schedule (k : coroutine) s : (∀ u, note_task u k = 0%nat) → evolves s (schedule k s).
Proof.
  intros Hc. apply evolves_quiet; [done|]. intros u. unfold notices, schedule. simpl.
  rewrite sum_list_with_app. simpl. rewrite Hc. lia.
Qed.

Lemma evolves_emit e s : (∀ u, note_effect u e = 0%nat) → evolves s (emit_effect e s).
Proof.
  intros Hc. apply evolves_quiet; [done|]. intros u. unfold notices, emit_effect. simpl.
  rewrite sum_list_with_app. simpl. rewrite Hc. lia.
Qed.

Lemma inv_empty s :
  generations s = [] → slot_token s = None → timer_handles s = [] → context_tokens s = [] →
  (length (context_tombstones s) ≤ context_tombstone_limit)%nat → coord_inv s.
Proof.
  intros E1 E2 E3 E4 E5. split; rewrite ?E1, ?E2, ?E3, ?E4; simpl; try done; try set_solver.
  apply dict_wf_nil.
Qed.

Lemma alive_get u s : alive u s = match dict_get u (generations s) with Some _ => 1%nat | None => 0%nat end.
Proof. unfold alive, dict_mem. by destruct (dict_get u (generations s)). Qed.

Lemma occupant_alone s t g u :
  coord_inv s → dict_get t (generations s) = Some g → alive u s = if decide (t = u) then 1%nat else 0%nat.
Proof.
  intros Hi Hg. rewrite alive_get. case_decide; [subst; by rewrite Hg|].
  destruct (dict_get u (generations s)) eqn:E; [|done].
  apply (get_occupant _ _ _ Hi) in E, Hg. congruence.
Qed.

(** Terminalization trades the live generation for its notification. *)
Lemma evolves_terminalize t d b s : evolves s (terminalize t d b s).1.
Proof.
  intros Hi. pose proof (terminalize_state_spec t d s Hi) as Hs. unfold terminalize.
  destruct (live t s) as [g|] eqn:El.
  - destruct Hs as (s' & -> & E1 & E2 & E3 & E4 & _ & E6 & E7 & E8 & E9). cbn [fst].
    split; [by apply inv_empty|]. split.
    + intros u. unfold mass. rewrite (occupant_alone s t g u Hi (live_get _ _ _ El)).
      unfold notices, emit_effect, alive. simpl. rewrite E1, E7, E8, E9, sum_list_with_app. simpl. lia.
    + intros u g'. simpl. by rewrite E1.
  - rewrite Hs. cbn [fst]. destruct b; [|by apply evolves_refl].
    by apply (evolves_quiet s (s <| teardown_generation ::= S |>)).
Qed.

(** The invariant may be used to justify a change. *)
Lemma evolves_from s s' : (coord_inv s → evolves s s') → evolves s s'.
Proof. intros Hf Hi. by apply Hf. Qed.

Lemma live_disposed t g s : coord_inv s → live t s = Some g →
  dict_get t (generations s) = Some g ∧ (tombstoned g = true → disposition g ≠ None) ∧
  terminalized g = false.
Proof.
  intros Hi Hl%live_get. split_and!; [done | by apply (ci_disposed _ Hi t) |
    by apply (ci_live _ Hi t)].
Qed.

(** [case_live t s g Hg]: case on [live t s]; the absent case changes nothing. *)
Ltac case_live t s g Hg :=
  apply evolves_from; intros Hi; destruct (live t s) as [g|] eqn:Hg; [|apply evolves_refl];
  apply (live_disposed _ _ _ Hi) in Hg as (Hg & ? & ?).

Ltac gen_ok_tac :=
  unfold gen_ok; split; [by split|]; split; [done|]; split; [done|]; simpl; first [done | congruence].

Lemma get_put_eq t g s : dict_get t (generations (put t g s)) = Some g.
Proof. apply dict_get_set_eq. Qed.

Lemma evolves_request_teardown t s : evolves s (request_teardown t s).1.
Proof.
  unfold request_teardown. case_live t s g Hg. destruct (teardown_pending g); [apply evolves_refl|]. cbn [fst].
  eapply evolves_trans; [eapply (evolves_put t g (g <| teardown_pending := true |>)); [done | gen_ok_tac]|].
  eapply evolves_trans; [apply (evolves_cancel_timer t)|]. by apply evolves_emit.
Qed.

Lemma evolves_begin_cleanup t g s :
  dict_get t (generations s) = Some g → evolves s (begin_cleanup t g s).1.
Proof.
  intros Hg. unfold begin_cleanup. destruct (cleanup_pending g) eqn:Ec; [apply evolves_refl|]. cbn [fst].
  apply evolves_from. intros Hi. pose proof (ci_disposed _ Hi t g Hg).
  eapply evolves_trans; [eapply (evolves_put t g (g <| cleanup_pending := true |>)); [done | gen_ok_tac]|].
  by apply evolves_emit.
Qed.

Lemma evolves_begin_delivery_unknown t s : evolves s (begin_delivery_unknown t s).1.
Proof.
  unfold begin_delivery_unknown. case_live t s g Hg.
  eapply evolves_trans; [|apply evolves_begin_cleanup, get_put_eq].
  apply (evolves_put t g); [done | gen_ok_tac].
Qed.

Lemma evolves_on_interruption_timeout t s : evolves s (on_interruption_timeout t s).1.
Proof. unfold on_interruption_timeout. case_live t s g Hg. by apply evolves_begin_cleanup. Qed.

Lemma evolves_on_timeout k t s : evolves s (on_timeout k t s).1.
Proof.
  destruct k; simpl; auto using evolves_begin_delivery_unknown, evolves_on_interruption_timeout,
    evolves_request_teardown.
Qed.

Lemma evolves_acknowledge t s : evolves s (acknowledge_tts_lane_flush t s).1.
Proof.
  unfold acknowledge_tts_lane_flush. destruct (dict_get _ _); [|apply evolves_refl].
  case_match; [apply evolves_refl | apply evolves_terminalize].
Qed.

Lemma evolves_teardown_complete t s : evolves s (teardown_complete t s).1.
Proof. unfold teardown_complete. destruct (dict_get _ _); [apply evolves_terminalize | apply evolves_refl]. Qed.

Lemma evolves_finalize t d s : evolves s (finalize_uncontexted_interruption t d s).1.
Proof.
  unfold finalize_uncontexted_interruption. case_live t s g Hg. by apply evolves_emit.
Qed.

Definition is_notify (c : coroutine) : bool := match c with CNotify _ _ _ => true | _ => false end.

Lemma note_task_not_notify u (k : coroutine) : is_notify k = false → note_task u k = 0%nat.
Proof. by destruct k. Qed.

Lemma evolves_start k s : is_notify k = false → evolves s (start k s).1.
Proof.
  destruct k; simpl; intros Hn; try done; auto using evolves_refl, evolves_on_timeout, evolves_terminalize,
    evolves_finalize.
Qed.

Lemma evolves_resume k o now s : is_notify k = false → evolves s (resume k o now s).1.
Proof.
  destruct k, o; simpl; intros Hn; try done;
    auto using evolves_refl, evolves_on_timeout, evolves_terminalize, evolves_finalize, evolves_request_teardown.
  - case_live token s g Hg. destruct (audio_submitted g); [apply evolves_request_teardown|]. by eapply evolves_arm.
  - destruct bump; [|apply evolves_refl]. by apply evolves_quiet.
Qed.

(** What a coroutine suspends at is a suspension point, never a queued
    notification. *)
Lemma suspends_not_notify k o now s j : (resume k o now s).2 = Some j → is_notify j = false.
Proof.
  assert (∀ t s j, (request_teardown t s).2 = Some j → is_notify j = false) as Hr.
  { intros t s' j'. unfold request_teardown. repeat case_match; intros [= <-]; done. }
  assert (∀ t d b s j, (terminalize t d b s).2 = Some j → is_notify j = false) as Ht.
  { intros t d b s' j'. unfold terminalize. repeat case_match; intros [= <-]; done. }
  assert (∀ t g s j, (begin_cleanup t g s).2 = Some j → is_notify j = false) as Hb.
  { intros t g s' j'. unfold begin_cleanup. repeat case_match; intros [= <-]; done. }
  destruct k as [|k' t|t d|t i d|t d|t|t d| |b], o; simpl; eauto; try (by intros [= <-]); try done.
  1-2: destruct k'; simpl; eauto; unfold begin_delivery_unknown, on_interruption_timeout;
       (destruct (live t s); [eauto | done]).
  1-2: unfold finalize_uncontexted_interruption; destruct (live t s); [by intros [= <-] | done].
  destruct (live t s) as [g|]; [|done]. destruct (audio_submitted g); [eauto | done].
Qed.

Lemma sum_delete {A} (f : A → nat) (l : list A) i x :
  l !! i = Some x → sum_list_with f l = (f x + sum_list_with f (delete i l))%nat.
Proof.
  revert i. induction l as [|y l IH]; intros [|i] Hl; simpl in *; simplify_eq; [done|].
  rewrite (IH i Hl). change (list_delete i l) with (delete i l). lia.
Qed.

Lemma sum_requeue u k l :
  (∀ j, k = Some j → is_notify j = false) →
  sum_list_with (note_task u) (requeue k l) = sum_list_with (note_task u) l.
Proof.
  intros Hk. destruct k as [k|]; simpl; [|done]. rewrite sum_list_with_app. simpl.
  rewrite note_task_not_notify by eauto. lia.
Qed.

(** Taking a coroutine out of a queue and running it. *)
Lemma evolves_run (del que : Coordinator → Coordinator) k o now s :
  (∀ s, quiet s (del s)) → (∀ s, quiet s (que s)) →
  (∀ u, notices u s = (note_task u k + notices u (del s))%nat) →
  (∀ u s, notices u (que s) = notices u s) →
  evolves s (que (resume k o now (del s)).1).
Proof.
  intros Hd Hq Hnd Hnq. destruct (is_notify k) eqn:Ek.
  - destruct k as [| | |t i d| | | | |]; try done.
    apply evolves_quiet.
    + destruct o; cbn; destruct (Hd s) as (? & ? & ? & ? & ? & ?);
      match goal with |- quiet s (que ?x) => destruct (Hq x) as (? & ? & ? & ? & ? & ?) end;
      split_and!; etrans; try eassumption; done.
    + intros u. rewrite Hnq, Hnd. destruct o; cbn; unfold notices, emit_effect; simpl;
        rewrite sum_list_with_app; simpl; lia.
  - eapply evolves_trans; [|eapply evolves_trans; [apply (evolves_resume k o now (del s) Ek)|]].
    + apply evolves_quiet; [apply Hd|]. intros u. rewrite Hnd, note_task_not_notify by done. done.
    + apply evolves_quiet; [apply Hq|]. auto.
Qed.

Lemma evolves_run_task i o now s : evolves s (run_task i o now s).
Proof.
  unfold run_task. destruct (transition_tasks s !! i) as [k|] eqn:Ek; [|apply evolves_refl].
  pose proof (suspends_not_notify k o now (s <| transition_tasks ::= list_delete i |>)) as Hs.
  pose proof (evolves_run (λ s, s <| transition_tasks ::= list_delete i |>)
    (λ s', s' <| transition_tasks ::= requeue (resume k o now (s <| transition_tasks ::= list_delete i |>)).2 |>)
    k o now s) as H1.
  cbv beta in H1. destruct (resume _ _ _ _) as [s' j]. apply H1; try done.
  - intros u. unfold notices. simpl. rewrite (sum_delete (note_task u) _ _ _ Ek).
    change (list_delete i (transition_tasks s)) with (delete i (transition_tasks s)). lia.
  - intros u s''. unfold notices. simpl. rewrite sum_requeue by done. done.
Qed.

Lemma evolves_run_awaited i o now s : evolves s (run_awaited i o now s).
Proof.
  unfold run_awaited. destruct (awaited s !! i) as [k|] eqn:Ek; [|apply evolves_refl].
  pose proof (suspends_not_notify k o now (s <| awaited ::= list_delete i |>)) as Hs.
  pose proof (evolves_run (λ s, s <| awaited ::= list_delete i |>)
    (λ s', s' <| awaited ::= requeue (resume k o now (s <| awaited ::= list_delete i |>)).2 |>)
    k o now s) as H1.
  cbv beta in H1. destruct (resume _ _ _ _) as [s' j]. apply H1; try done.
  - intros u. unfold notices. simpl. rewrite (sum_delete (note_task u) _ _ _ Ek).
    change (list_delete i (awaited s)) with (delete i (awaited s)). lia.
  - intros u s''. unfold notices. simpl. rewrite sum_requeue by done. done.
Qed.

Lemma evolves_await r s :
  evolves s r.1 → (∀ j, r.2 = Some j → is_notify j = false) → evolves s (await r).
Proof.
  destruct r as [s' [k|]]; simpl; intros Hs Hk; [|done]. eapply evolves_trans; [exact Hs|].
  apply evolves_quiet; [done|]. intros u. unfold notices. simpl. rewrite sum_list_with_app. simpl.
  rewrite note_task_not_notify by eauto. lia.
Qed.

(** ** The synchronous methods *)

Lemma evolves_mark_handed t now s : evolves s (mark_handed_to_tts t now s).
Proof.
  unfold mark_handed_to_tts. case_live t s g Hg. destruct (tombstoned g) eqn:Et; [apply evolves_refl|].
  eapply evolves_trans; [|eapply evolves_arm, get_put_eq]. apply (evolves_put t g); [done|].
  gen_ok_tac.
Qed.

Lemma evolves_bind t c s : evolves s (bind_context t c s).1.
Proof.
  unfold bind_context. case_live t s g Hg. destruct (tombstoned g) eqn:Et; [apply evolves_refl|].
  case_bool_decide as Eu; [cbn [negb]|apply evolves_refl].
  destruct (context_id g) as [c'|] eqn:Ec; [apply evolves_refl|].
  destruct (dict_get c (context_tokens s)) as [o|] eqn:Eo.
  { destruct (ci_bound _ Hi _ _ Eo) as (h & Hh & Hc).
    pose proof (get_occupant _ _ _ Hi Hh). pose proof (get_occupant _ _ _ Hi Hg). simplify_eq. }
  cbv iota. destruct (dict_mem c (context_tombstones s)); [apply evolves_refl|]. cbn [fst].
  intros _. split_and!.
  - unfold put. split; simpl; try apply Hi.
    + rewrite (keys_put_in t g) by done. apply Hi.
    + intros u h. rewrite dict_get_set. case_decide; [by intros [= <-] | apply (ci_live _ Hi)].
    + intros u Hu. rewrite (keys_put_in t g) by done. by apply (ci_timers _ Hi).
    + intros c' u. rewrite dict_get_set. case_decide.
      * intros [= <-]. subst. rewrite dict_get_set_eq. eauto.
      * intros (h & Hh & Hc)%(ci_bound _ Hi). pose proof (get_occupant _ _ _ Hi Hh).
        pose proof (get_occupant _ _ _ Hi Hg). simplify_eq.
    + intros u h c'. rewrite dict_get_set. case_decide.
      * intros [= <-]. simpl. intros [= <-]. subst. by rewrite dict_get_set_eq.
      * intros Hh. pose proof (get_occupant _ _ _ Hi Hh). pose proof (get_occupant _ _ _ Hi Hg). simplify_eq.
    + intros u h. rewrite dict_get_set. case_decide; [intros [= <-]; simpl; congruence | apply (ci_disposed _ Hi)].
  - intros u. unfold mass, notices, alive, dict_mem, put. simpl. rewrite dict_get_set.
    case_decide; [subst; by rewrite Hg | done].
  - intros u h. unfold put. simpl. rewrite dict_get_set. case_decide; [|by exists h].
    intros [= <-]. subst. exists g. split; [done | by split].
Qed.

(** A context of the occupant. *)
Ltac case_context c s t g Hg :=
  destruct (dict_get c (context_tokens s)) as [t|]; [|apply evolves_refl]; case_live t s g Hg;
  let Et := fresh "Et" in destruct (tombstoned g) eqn:Et; [apply evolves_refl|]; cbn [fst].

Lemma evolves_tts_started c s : evolves s (on_tts_started c s).1.
Proof.
  unfold on_tts_started. case_context c s t g Hg.
  eapply evolves_trans; [apply (evolves_cancel_timer t)|]. apply (evolves_put t g); [done | gen_ok_tac].
Qed.

Lemma evolves_tts_audio c n r ch s : evolves s (on_tts_audio c n r ch s).1.
Proof. unfold on_tts_audio. case_context c s t g Hg. apply (evolves_put t g); [done | gen_ok_tac]. Qed.

Lemma evolves_tts_stopped c now s : evolves s (on_tts_stopped c now s).1.
Proof.
  unfold on_tts_stopped. case_context c s t g Hg.
  eapply evolves_trans; [|eapply evolves_arm, get_put_eq]. apply (evolves_put t g); [done | gen_ok_tac].
Qed.

Lemma evolves_bot_started s : evolves s (on_transport_bot_started s).
Proof.
  unfold on_transport_bot_started, occupied_generation. destruct (slot_token s) as [t|]; [|apply evolves_refl].
  apply evolves_from. intros Hi. destruct (dict_get t (generations s)) as [g|] eqn:Hg; simpl; [|apply evolves_refl].
  pose proof (ci_disposed _ Hi t g Hg). apply (evolves_put t g); [done | gen_ok_tac].
Qed.

Lemma evolves_bot_stopped s : evolves s (on_transport_bot_stopped s).
Proof.
  unfold on_transport_bot_stopped, occupied_generation.
  destruct (slot_token s) as [t|]; [|by apply evolves_schedule].
  apply evolves_from. intros Hi.
  destruct (dict_get t (generations s)) as [g|] eqn:Hg; simpl; [|by apply evolves_schedule].
  pose proof (ci_disposed _ Hi t g Hg).
  eapply evolves_trans; [apply (evolves_cancel_timer t)|].
  eapply evolves_trans; [|by apply evolves_schedule]. apply (evolves_put t g); [done | gen_ok_tac].
Qed.

Lemma evolves_interrupt t p now s : evolves s (record_interruption t p now s).
Proof.
  unfold record_interruption. case_live t s g Hg.
  eapply evolves_trans; [apply (evolves_cancel_timer t)|].
  eapply evolves_trans;
    [apply (evolves_put t g (g <| disposition := Some (if p then DD_PAUSED else DD_INTERRUPTED) |>
                               <| tombstoned := true |>)); [done | gen_ok_tac]|].
  destruct (context_id g); [eapply evolves_arm, get_put_eq | by apply evolves_schedule].
Qed.

Lemma evolves_fire t now s : evolves s (fire t now s).
Proof.
  unfold fire. destruct (dict_get t (timer_handles s)) as [tm|] eqn:E; [|apply evolves_refl].
  destruct (_ || _); [apply evolves_refl|]. eapply evolves_trans; [|by apply evolves_schedule].
  apply evolves_from. intros Hi. apply evolves_timers; [|apply dict_wf_set, Hi].
  intros u. rewrite dict_keys_set, decide_True; [apply (ci_timers _ Hi)|]. apply dict_get_is_Some. eauto.
Qed.

Lemma evolves_release_loud t d s : evolves s (release_generation t true d s).
Proof.
  intros Hi. pose proof (terminalize_state_spec t d s Hi) as Hs. unfold release_generation.
  destruct (live t s) as [g|] eqn:El; [|rewrite Hs; by apply evolves_refl].
  destruct Hs as (s' & -> & E1 & E2 & E3 & E4 & _ & E6 & E7 & E8 & E9).
  split; [by apply inv_empty|]. split.
  - intros u. unfold mass. rewrite (occupant_alone s t g u Hi (live_get _ _ _ El)).
    unfold notices, schedule, alive. simpl. rewrite E1, E7, E8, E9, sum_list_with_app. simpl. lia.
  - intros u g'. simpl. by rewrite E1.
Qed.

(** ** Runs *)

(** The step admitted a generation with token [u]. *)
Definition admits (u : string) (e : lstep) s : nat :=
  match e with
  | LAdmit i a t =>
      match (pre_admission_disposition i a t s).2 with
      | PreAdmissionAdmit t' => if decide (t' = u) then 1 else 0
      | _ => 0
      end
  | _ => 0
  end.

Fixpoint admissions (u : string) (es : list lstep) s : nat :=
  match es with [] => 0 | e :: es => admits u e s + admissions u es (lexec e s) end.

(** Steps after which no terminal notification is owed: everything but closing
    the connection and a release that asks for none. *)
Definition loud (e : lstep) : bool :=
  match e with LClosed | LRelease _ false _ => false | _ => true end.

Definition admits_utterance (c : string) (e : lstep) : bool :=
  match e with LAdmit i _ _ => bool_decide (gi_utterance_id i = c) | _ => false end.

Record step_spec (e : lstep) s s' : Prop := {
  ss_inv : coord_inv s';
  ss_mass : ∀ u, (mass u s' ≤ mass u s + admits u e s)%nat;
  ss_loud : loud e = true → ∀ u, mass u s' = (mass u s + admits u e s)%nat;
  ss_gens : ∀ u g', dict_get u (generations s') = Some g' →
    (∃ g, dict_get u (generations s) = Some g ∧ gen_le g g') ∨
    (∃ i a, e = LAdmit i a u ∧ g' = SpeechGeneration_init i)
}.

Lemma evolves_step e s s' :
  coord_inv s → evolves s s' → (∀ u, admits u e s = 0%nat) → step_spec e s s'.
Proof.
  intros Hi Hs Ha. destruct (Hs Hi) as (Hi' & Hm & Hg).
  split; [done | | |]; try (intros; rewrite Hm, Ha; lia). intros u g' Hu. left. by apply Hg.
Qed.

Lemma admit_cases i a t s :
  (∃ r, pre_admission_disposition i a t s = (s, r) ∧ (∀ u, r ≠ PreAdmissionAdmit u)) ∨
  (pre_admission_disposition i a t s =
     ((put t (SpeechGeneration_init i) s) <| slot_token := Some t |>, PreAdmissionAdmit t) ∧
   is_closed s = false ∧ slot_token s = None).
Proof.
  unfold pre_admission_disposition, try_admit.
  destruct (negb tts_available); [left; by eexists|].
  destruct (_ && _); [left; by eexists|]. destruct (is_closed s); [left; by eexists|].
  unfold occupied. case_bool_decide as E; simpl; [left; by eexists|]. right.
  split_and!; [done | done |]. destruct (slot_token s); [|done]. by destruct E.
Qed.

Lemma step_admit i a t s : coord_inv s → step_spec (LAdmit i a t) s (lexec (LAdmit i a t) s).
Proof.
  intros Hi. simpl. destruct (admit_cases i a t s) as [(r & E & Hr)|(E & Hc & Hs)].
  - rewrite E. apply evolves_step; [done | apply evolves_refl |]. intros u. simpl. rewrite E. simpl.
    destruct r; [by destruct (Hr token) | done | done].
  - pose proof (ci_slot _ Hi) as Hk. rewrite Hs in Hk. simpl in Hk.
    assert (generations s = []) as Eg by (by destruct (generations s)).
    assert (timer_handles s = []) as Et.
    { apply dict_keys_nil. intros u Hu%(ci_timers _ Hi). rewrite Hk in Hu. set_solver. }
    assert (context_tokens s = []) as Ec.
    { apply dict_keys_nil. intros c [u (g & Hg & _)%(ci_bound _ Hi)]%dict_get_is_Some. by rewrite Eg in Hg. }
    rewrite E. cbn [fst].
    assert (∀ u, mass u ((put t (SpeechGeneration_init i) s) <| slot_token := Some t |>)
                 = (mass u s + admits u (LAdmit i a t) s)%nat) as Hm.
    { intros u. unfold mass, admits, notices. rewrite E, !alive_get. unfold put. simpl. rewrite Eg. simpl.
      repeat case_decide; try congruence; lia. }
    split; [|intros u; rewrite Hm; lia | done |].
    + unfold put. split; simpl; rewrite ?Eg, ?Et, ?Ec; simpl; try done; try set_solver.
      * intros u g. case_decide; [by intros [= <-] | done].
      * apply dict_wf_nil.
      * intros u g c. case_decide; [by intros [= <-] | done].
      * intros u g. case_decide; [by intros [= <-] | done].
      * apply (ci_tombstones _ Hi).
      * by rewrite Hc.
    + intros u g'. unfold put. simpl. rewrite Eg. simpl. case_decide; [|done]. intros [= <-]. subst. right. eauto.
Qed.

Lemma step_silent_release t d s :
  coord_inv s → step_spec (LRelease t false d) s (lexec (LRelease t false d) s).
Proof.
  intros Hi. pose proof (terminalize_state_spec t d s Hi) as Hs. simpl. unfold release_generation.
  destruct (live t s) as [g|] eqn:El.
  - destruct Hs as (s' & -> & E1 & E2 & E3 & E4 & _ & E6 & E7 & E8 & E9). split.
    + by apply inv_empty.
    + intros u. unfold mass, notices. rewrite !alive_get, E1, E7, E8, E9. simpl. lia.
    + done.
    + intros u g'. by rewrite E1.
  - rewrite Hs. apply evolves_step; [done | apply evolves_refl | done].
Qed.

Lemma step_closed s : coord_inv s → step_spec LClosed s (connection_closed s).
Proof.
  intros Hi. split; [apply inv_empty; simpl; lia || done | | done |].
  - intros u. unfold mass, notices. rewrite !alive_get. simpl. lia.
  - intros u g'. done.
Qed.

Lemma started_not_notify r (t : string) s :
  r = begin_delivery_unknown t s ∨ r = acknowledge_tts_lane_flush t s ∨ r = teardown_complete t s →
  ∀ j, r.2 = Some j → is_notify j = false.
Proof.
  assert (∀ t d b s j, (terminalize t d b s).2 = Some j → is_notify j = false) as Ht.
  { intros t' d b s' j'. unfold terminalize. repeat case_match; intros [= <-]; done. }
  intros [->|[->| ->]] j.
  - unfold begin_delivery_unknown, begin_cleanup. repeat case_match; intros [= <-]; done.
  - unfold acknowledge_tts_lane_flush. destruct (dict_get _ _); [case_match; [done | apply Ht] | done].
  - unfold teardown_complete. destruct (dict_get _ _); [apply Ht | done].
Qed.

Lemma lexec_spec e s : coord_inv s → step_spec e s (lexec e s).
Proof.
  intros Hi. destruct e; try match goal with |- step_spec (LRelease _ ?n _) _ _ => destruct n end;
    first [by apply step_admit | by apply step_closed | by apply step_silent_release |
           apply evolves_step; [done | | done]]; simpl;
    auto using evolves_mark_handed, evolves_bind, evolves_tts_started, evolves_tts_audio,
      evolves_tts_stopped, evolves_bot_started, evolves_bot_stopped, evolves_interrupt,
      evolves_fire, evolves_run_task, evolves_run_awaited, evolves_release_loud.
  - apply evolves_await; [apply evolves_begin_delivery_unknown | by eapply started_not_notify; eauto].
  - apply evolves_await; [apply evolves_acknowledge | by eapply started_not_notify; eauto].
  - apply evolves_await; [apply evolves_teardown_complete | by eapply started_not_notify; eauto].
Qed.

Lemma init_coord_inv : coord_inv Coordinator_init.
Proof. apply inv_empty; simpl; lia || done. Qed.

Lemma lrun_inv es s : coord_inv s → coord_inv (lrun es s).
Proof.
  revert s. induction es as [|e es IH]; intros s Hi; simpl; [done|]. by apply IH, (ss_inv e s), lexec_spec.
Qed.

Lemma lrun_mass u es s : coord_inv s →
  (mass u (lrun es s) ≤ mass u s + admissions u es s)%nat ∧
  (Forall (λ e, loud e = true) es → mass u (lrun es s) = (mass u s + admissions u es s)%nat).
Proof.
  revert s. induction es as [|e es IH]; intros s Hi; simpl; [split; intros; lia|].
  pose proof (lexec_spec e s Hi) as Hs. destruct (IH _ (ss_inv _ _ _ Hs)) as [IH1 IH2].
  pose proof (ss_mass _ _ _ Hs u). split; [lia|]. intros [He Hes]%Forall_cons.
  rewrite (IH2 Hes), (ss_loud _ _ _ Hs He u). lia.
Qed.

(** Every generation of the utterance [c] is tombstoned. *)
Definition silenced (c : string) s : Prop :=
  ∀ t g, dict_get t (generations s) = Some g → gi_utterance_id (gen_identity g) = c → tombstoned g = true.

Lemma silenced_run c es s :
  coord_inv s → silenced c s → Forall (λ e, admits_utterance c e = false) es → silenced c (lrun es s).
Proof.
  revert s. induction es as [|e es IH]; intros s Hi Hs Hes; simpl; [done|].
  apply Forall_cons in Hes as [He Hes]. pose proof (lexec_spec e s Hi) as Hsp.
  apply IH; [by eapply ss_inv | | done]. intros t g Hg Hc.
  destruct (ss_gens _ _ _ Hsp t g Hg) as [(g0 & Hg0 & Hle)|(i & a & -> & ->)].
  - apply (gl_tombstoned _ _ Hle), (Hs t g0 Hg0). by rewrite <- (gl_identity _ _ Hle).
  - simpl in *. by rewrite bool_decide_true in He.
Qed.

Lemma silenced_refuses c s n r ch now : coord_inv s → silenced c s →
  on_tts_audio c n r ch s = (s, false) ∧ on_tts_started c s = (s, false) ∧ on_tts_stopped c now s = (s, false).
Proof.
  intros Hi Hs. unfold on_tts_audio, on_tts_started, on_tts_stopped.
  destruct (dict_get c (context_tokens s)) as [t|] eqn:E; [|done].
  destruct (ci_bound _ Hi _ _ E) as (g & Hg & Hc). destruct (ci_context _ Hi _ _ _ Hg Hc) as [Hu _].
  rewrite live_inv, Hg, (Hs t g Hg) by done. done.
Qed.

Lemma tombstone_silences t g g' s s' :
  coord_inv s → dict_get t (generations s) = Some g → gens_le s s' →
  dict_get t (generations s') = Some g' → tombstoned g' = true →
  silenced (gi_utterance_id (gen_identity g)) s'.
Proof.
  intros Hi Hg Hle Hg' Ht u h Hh Hc. destruct (Hle u h Hh) as (h0 & Hh0 & _).
  pose proof (get_occupant _ _ _ Hi Hg). pose proof (get_occupant _ _ _ Hi Hh0). by simplify_eq.
Qed.

Lemma interrupt_get t g p now s :
  live t s = Some g →
  dict_get t (generations (record_interruption t p now s)) =
    Some (g <| disposition := Some (if p then DD_PAUSED else DD_INTERRUPTED) |> <| tombstoned := true |>).
Proof.
  intros Hl. unfold record_interruption. rewrite Hl. destruct (context_id g); apply dict_get_set_eq.
Qed.

Lemma unknown_get t g s :
  live t s = Some g →
  ∃ g', dict_get t (generations (await (begin_delivery_unknown t s))) = Some g' ∧ tombstoned g' = true.
Proof.
  intros Hl. unfold begin_delivery_unknown, begin_cleanup. rewrite Hl.
  destruct (cleanup_pending g) eqn:E; cbn; rewrite E; cbn; rewrite dict_get_set_eq; eauto.
Qed.

(** ** Theorems *)

(** C7.  The transport slot: in every reachable state, over every interleaving
    of calls, timers and suspended coroutines, there is at most one generation
    and it is the occupant; only the occupant has a timer; a bound context
    belongs to the occupant and is its utterance; a tombstoned generation has
    a disposition; the tombstones stay within their limit; and a closed
    connection has no occupant. *)
Theorem lifecycle_invariant es : coord_inv (lrun es Coordinator_init).
Proof. apply lrun_inv, init_coord_inv. Qed.


(** No audio after an interruption: once a live generation is interrupted,
    paused or failed by its provider, every later start, audio or stop frame of
    its utterance is refused, in every continuation that does not admit that
    utterance again, whatever timers and coroutines run in between. *)
Theorem interrupted_audio_dropped es0 t g p now es n r ch now' :
  let s := lrun es0 Coordinator_init in
  let c := gi_utterance_id (gen_identity g) in
  live t s = Some g → Forall (λ e, admits_utterance c e = false) es →
  let refused s' := on_tts_audio c n r ch s' = (s', false) ∧ on_tts_started c s' = (s', false) ∧
                    on_tts_stopped c now' s' = (s', false) in
  refused (lrun es (record_interruption t p now s)) ∧
  refused (lrun es (lexec (LProviderError t) s)).
Proof.
  intros s c Hl Hes refused. assert (coord_inv s) as Hi by apply lrun_inv, init_coord_inv.
  apply live_get in Hl as Hg.
  destruct (evolves_interrupt t p now s Hi) as (Hi1 & _ & Hg1).
  assert (evolves s (lexec (LProviderError t) s)) as He.
  { apply evolves_await; [apply evolves_begin_delivery_unknown | by eapply started_not_notify; eauto]. }
  destruct (He Hi) as (Hi2 & _ & Hg2). destruct (unknown_get t g s Hl) as (g' & Hg' & Ht').
  split; (apply silenced_refuses; [by apply lrun_inv|]; apply silenced_run; [done | | done]).
  - by apply (tombstone_silences t g _ s _ Hi Hg Hg1 (interrupt_get t g p now s Hl)).
  - by apply (tombstone_silences t g g' s _ Hi Hg Hg2).
Qed.

(** Pre-admission: the check admits exactly when there is a TTS lane, the
    transport accepts an acknowledgement, the connection is open and the slot
    is free; a terminal or busy answer changes nothing (no token, no timer);
    busy is answered only for an occupied slot of an open connection. *)
Theorem pre_admission_table i a t s :
  let '(s', r) := pre_admission_disposition i a t s in
  let refused := gi_role i = role_ack ∧ a = Some false in
  match r with
  | PreAdmissionAdmit u => u = t ∧ tts_available = true ∧ ¬ refused ∧ is_closed s = false ∧
      slot_token s = None ∧ slot_token s' = Some t ∧ live t s' = Some (SpeechGeneration_init i) ∧
      timer_handles s' = timer_handles s
  | PreAdmissionTerminal NO_TTS => s' = s ∧ tts_available = false
  | PreAdmissionTerminal UNAVAILABLE_TRANSPORT => s' = s ∧ tts_available = true ∧ refused
  | PreAdmissionTerminal CONNECTION_CLOSED => s' = s ∧ tts_available = true ∧ ¬ refused ∧ is_closed s = true
  | PreAdmissionTerminal PRE_CANCELLED => False
  | PreAdmissionBusy => s' = s ∧ tts_available = true ∧ ¬ refused ∧ is_closed s = false ∧ slot_token s ≠ None
  end.
Proof.
  unfold pre_admission_disposition. destruct tts_available; [|done]. cbn [negb].
  destruct (_ && _) eqn:E.
  { apply andb_true_iff in E as [E1%bool_decide_eq_true E2]. destruct a as [[]|]; done. }
  assert (¬ (gi_role i = role_ack ∧ a = Some false)) as Hr.
  { intros [Hi ->]. rewrite bool_decide_true in E by done. done. }
  destruct (is_closed s) eqn:Ec; [by eauto 10|]. unfold try_admit. rewrite Ec. cbn [orb].
  clear E. unfold occupied. case_bool_decide as Es; simpl; [by eauto 10|].
  split_and!; try done.
  unfold live, put. simpl. by rewrite dict_get_set_eq.
Qed.

(** ** Interruption cleanup *)

(** What the cleanup of generation [t] depends on. *)
Definition view (t : string) s : option SpeechGeneration * option Timer * list coroutine :=
  (live t s, dict_get t (timer_handles s), transition_tasks s).

Lemma run_last_task l k o now s :
  transition_tasks s = l ++ [k] →
  run_task (length l) o now s =
    (let (s', j) := resume k o now (s <| transition_tasks := l |>) in s' <| transition_tasks ::= requeue j |>).
Proof.
  intros E. unfold run_task. rewrite E, list_lookup_middle by done.
  assert (list_delete (length l) (l ++ [k]) = l) as El.
  { change (delete (length l) (l ++ [k]) = l). rewrite delete_middle. apply app_nil_r. }
  replace (s <| transition_tasks ::= list_delete (length l) |>) with (s <| transition_tasks := l |>); [done|].
  destruct s; simpl in *. subst. by rewrite El.
Qed.

Lemma run_no_task l o now s : transition_tasks s = l → run_task (length l) o now s = s.
Proof. intros <-. unfold run_task. by rewrite lookup_ge_None_2. Qed.

Lemma live_put t g s : terminalized g = false → live t (put t g s) = Some g.
Proof. intros Hg. unfold live, put. simpl. by rewrite dict_get_set_eq, Hg. Qed.

Lemma fire_view t now s g w k b l :
  view t s = (Some g, Some (mkTimer w k b), l) →
  view t (fire t now s) =
    if b || Qltb now w then view t s
    else (Some g, Some (mkTimer w k true), l ++ [CTimeout k t]).
Proof.
  unfold view. intros [= E1 E2 E3]. unfold fire. rewrite E2. cbn [tm_fired tm_when tm_kind].
  destruct (b || _); [by rewrite E1, E2|]. simpl. rewrite dict_get_set_eq, E3.
  unfold live in *. simpl. by rewrite E1.
Qed.

Lemma fire_no_timer t now s : dict_get t (timer_handles s) = None → fire t now s = s.
Proof. unfold fire. by intros ->. Qed.

Lemma requeue_view t k s g tm l :
  view t s = (g, tm, l) → view t (s <| transition_tasks ::= requeue k |>) = (g, tm, requeue k l).
Proof. unfold view. intros [= <- <- <-]. done. Qed.

Lemma request_teardown_view t s g tm l :
  view t s = (Some g, tm, l) → terminalized g = false →
  let '(s', k) := request_teardown t s in
  if teardown_pending g then view t s' = (Some g, tm, l) ∧ k = None
  else view t s' = (Some (g <| teardown_pending := true |>), None, l) ∧ k = Some KTeardown.
Proof.
  intros E Ht. pose proof E as [= E1 E2 E3]. unfold request_teardown. rewrite E1.
  destruct (teardown_pending g); [done|]. split; [|done]. unfold view.
  unfold emit_effect, cancel_timer, live, put. simpl. rewrite dict_get_set_eq, dict_get_pop_eq. simpl. by rewrite Ht, E3.
Qed.

(** Whatever state the timer is in, once the flush barrier is overdue or has
    failed the teardown is asked for. *)
Lemma teardown_requested t s g tm l s' k n3 :
  view t s = (Some g, tm, l) → terminalized g = false → request_teardown t s = (s', k) →
  (teardown_pending g = true → match tm with Some x => tm_fired x = true | None => True end) →
  let s'' := s' <| transition_tasks ::= requeue k |> in
  ∃ g', live t (run_task (length l) Returned n3 (fire t n3 s'')) = Some g' ∧ teardown_pending g' = true.
Proof.
  intros E Ht Er Hf s''. pose proof (request_teardown_view t s g tm l E Ht) as Hv. rewrite Er in Hv.
  destruct (teardown_pending g) eqn:Eg; destruct Hv as [Hv ->].
  - apply (requeue_view _ None) in Hv as Hv'. fold s'' in Hv'. clearbody s''.
    destruct tm as [[w kd b]|].
    + simpl in Hf. rewrite Hf in Hv' by done. pose proof (fire_view _ n3 _ _ _ _ _ _ Hv') as Hw.
      cbn [orb] in Hw. rewrite Hv' in Hw. injection Hw as H1 H2 H3. rewrite run_no_task by done. eauto.
    + injection Hv' as H1 H2 H3. rewrite fire_no_timer, run_no_task by done. eauto.
  - apply (requeue_view _ (Some KTeardown)) in Hv as Hv'. fold s'' in Hv'. clearbody s''. injection Hv' as H1 H2 H3.
    rewrite fire_no_timer, (run_last_task l KTeardown) by done. cbn. eexists. split; [exact H1 | done].
Qed.

(** The cleanup dispatch came back ([o]) while generation [t] was waiting on it. *)
Lemma cleanup_outcome t s g tm l o n2 n3 :
  view t s = (Some g, Some tm, l) → terminalized g = false → tm_fired tm = true →
  (n2 + speech_transport_grace_seconds <= n3)%Q →
  let '(s', j) := resume (KCleanup t) o n2 s in
  ∃ g', live t (run_task (length l) Returned n3 (fire t n3 (s' <| transition_tasks ::= requeue j |>))) = Some g' ∧
        teardown_pending g' = true.
Proof.
  intros V Ht Hf Hn. pose proof V as [= L T Hq].
  destruct (match o with Raised => true | Returned => audio_submitted g end) eqn:Eo.
  - assert (resume (KCleanup t) o n2 s = request_teardown t s) as ->.
    { destruct o; [|done]. simpl. by rewrite L, Eo. }
    destruct (request_teardown t s) as [s6 j] eqn:Er. by eapply (teardown_requested t s).
  - destruct o; [|done]. cbn [resume]. rewrite L, Eo. cbv iota.
    set (s6 := (arm t (n2 + speech_transport_grace_seconds)%Q FlushAckTimeout s) <| transition_tasks ::= requeue None |>).
    assert (view t s6 = (Some g, Some (mkTimer (n2 + speech_transport_grace_seconds)%Q FlushAckTimeout false), l)) as V6.
    { unfold view, s6, arm, cancel_timer. simpl. rewrite dict_get_set_eq, Hq. unfold live in *. simpl. by rewrite L. }
    clearbody s6. apply (fire_view t n3) in V6. rewrite (proj2 (Qltb_ge _ _)) in V6 by done. cbn [orb] in V6.
    set (s7 := fire t n3 s6) in *. clearbody s7. injection V6 as L7 T7 Q7.
    rewrite (run_last_task l _ _ _ _ Q7). cbn [resume start on_timeout].
    assert (view t (s7 <| transition_tasks := l |>) =
      (Some g, Some (mkTimer (n2 + speech_transport_grace_seconds)%Q FlushAckTimeout true), l)) as V8.
    { unfold view. simpl. rewrite T7. unfold live in *. simpl. by rewrite L7. }
    pose proof (request_teardown_view _ _ _ _ _ V8 Ht) as Hv.
    destruct (request_teardown t _) as [s9 j].
    destruct (teardown_pending g) eqn:E2; destruct Hv as [[= L9 _ _] ->]; eexists; (split; [exact L9 | done]).
Qed.


(** ** An interruption during cleanup *)

(** A coroutine that cannot free the slot of a generation in cleanup. *)
Definition inert (k : coroutine) : bool :=
  match k with
  | CNoop | CNotify _ _ _ | KTeardown | KTerminal _ => true
  | CTimeout FlushAckTimeout _ => false
  | CTimeout _ _ => true
  | _ => false
  end.

(** In cleanup, with no teardown requested. *)
Definition waiting (g : SpeechGeneration) : Prop :=
  cleanup_pending g = true ∧ tombstoned g = true ∧ context_id g ≠ None ∧ teardown_pending g = false.

Record stuck (t : string) s : Prop := {
  st_gen : ∃ g, dict_get t (generations s) = Some g ∧ waiting g;
  st_timer : ∀ tm, dict_get t (timer_handles s) = Some tm → tm_kind tm ≠ FlushAckTimeout;
  st_tasks : Forall (λ k, inert k = true) (transition_tasks s);
  st_awaited : Forall (λ k, inert k = true) (awaited s)
}.

(** The outside events that can still free the slot. *)
Definition rescues (e : lstep) : bool :=
  match e with
  | LAckFlush _ | LBotStopped | LTeardownComplete _ | LRelease _ _ _ | LClosed => true
  | _ => false
  end.

Lemma stuck_put t g s : stuck t s → waiting g → stuck t (put t g s).
Proof. intros [] Hw. split; try done. exists g. split; [apply get_put_eq | done]. Qed.

Lemma stuck_live t s u g : coord_inv s → stuck t s → live u s = Some g → u = t ∧ waiting g.
Proof.
  intros Hi [(h & Hh & Hw) _ _ _] Hu%live_get.
  pose proof (get_occupant _ _ _ Hi Hu). pose proof (get_occupant _ _ _ Hi Hh). by simplify_eq.
Qed.

Lemma stuck_unknown t s u : coord_inv s → stuck t s →
  ∃ s', begin_delivery_unknown u s = (s', None) ∧ stuck t s'.
Proof.
  intros Hi Hs. unfold begin_delivery_unknown. destruct (live u s) as [g|] eqn:E; [|by eexists].
  destruct (stuck_live t s u g Hi Hs E) as [-> (W1 & W2 & W3 & W4)].
  unfold begin_cleanup. simpl. rewrite W1. eexists. split; [done|]. by apply stuck_put.
Qed.

Lemma stuck_resume t s k o now : coord_inv s → stuck t s → inert k = true →
  ∃ s' j, resume k o now s = (s', j) ∧ stuck t s' ∧ match j with Some j => inert j = true | None => True end.
Proof.
  intros Hi Hs Hk. destruct k as [|kd u|u d|u i d|u d|u|u d| |b]; try done.
  - destruct o; by eexists _, None.
  - destruct kd; try done.
    3: { assert (resume (CTimeout InterruptionTimeout u) o now s = (s, None)) as ->; [|by eexists _, None].
         destruct o; simpl; unfold on_interruption_timeout, begin_cleanup;
         (destruct (live u s) as [g|] eqn:E; [|done]);
         by destruct (stuck_live t s u g Hi Hs E) as [-> (-> & _)]. }
    all: destruct (stuck_unknown t s u Hi Hs) as (s' & E & Hs'); exists s', None; by destruct o.
  - destruct o; (eexists _, (Some (KTerminal false)); split; [done | split; [by destruct Hs | done]]).
  - destruct o; by eexists _, None.
  - destruct o; [destruct b|]; (eexists _, None; split; [done | split; [by destruct Hs | done]]).
Qed.

Lemma Forall_delete {A} (P : A → Prop) i (l : list A) : Forall P l → Forall P (list_delete i l).
Proof.
  revert i. induction l as [|x l IH]; intros [|i] Hl; simpl; try done; apply Forall_cons in Hl as [? ?]; [done|].
  constructor; [done|]. by apply IH.
Qed.

Lemma Forall_requeue (P : coroutine → Prop) j l :
  match j with Some j => P j | None => True end → Forall P l → Forall P (requeue j l).
Proof. destruct j; simpl; [|done]. intros ? ?. apply Forall_app. split; [done | by constructor]. Qed.

Lemma stuck_run_task t s i o now : coord_inv s → stuck t s → stuck t (run_task i o now s).
Proof.
  intros Hi Hs. unfold run_task. destruct (transition_tasks s !! i) as [k|] eqn:E; [|done].
  assert (inert k = true) as Hk. { eapply Forall_lookup_1 in E; [|apply (st_tasks _ _ Hs)]. done. }
  assert (stuck t (s <| transition_tasks ::= list_delete i |>)) as Hs1.
  { destruct Hs. split; try done. simpl. by apply Forall_delete. }
  assert (coord_inv (s <| transition_tasks ::= list_delete i |>)) as Hi1 by (by apply (inv_quiet s)).
  destruct (stuck_resume t _ k o now Hi1 Hs1 Hk) as (s' & j & -> & [] & Hj). split; try done.
  simpl. by apply (Forall_requeue (λ k, inert k = true)).
Qed.

Lemma stuck_run_awaited t s i o now : coord_inv s → stuck t s → stuck t (run_awaited i o now s).
Proof.
  intros Hi Hs. unfold run_awaited. destruct (awaited s !! i) as [k|] eqn:E; [|done].
  assert (inert k = true) as Hk. { eapply Forall_lookup_1 in E; [|apply (st_awaited _ _ Hs)]. done. }
  assert (stuck t (s <| awaited ::= list_delete i |>)) as Hs1.
  { destruct Hs. split; try done. simpl. by apply Forall_delete. }
  assert (coord_inv (s <| awaited ::= list_delete i |>)) as Hi1 by (by apply (inv_quiet s)).
  destruct (stuck_resume t _ k o now Hi1 Hs1 Hk) as (s' & j & -> & [] & Hj). split; try done.
  simpl. by apply (Forall_requeue (λ k, inert k = true)).
Qed.

Lemma stuck_arm t g w k s :
  stuck t s → waiting g → k ≠ FlushAckTimeout → stuck t (arm t w k (put t g (cancel_timer t s))).
Proof.
  intros [] Hw Hk. split; try done; simpl.
  - exists g. by rewrite dict_get_set_eq.
  - intros tm. rewrite dict_get_set_eq. by intros [= <-].
Qed.

Lemma stuck_step t e s : coord_inv s → stuck t s → rescues e = false → stuck t (lexec e s).
Proof.
  intros Hi Hs Hr.
  assert (∀ c u, dict_get c (context_tokens s) = Some u → ∃ g, live u s = Some g ∧ tombstoned g = true) as Hc.
  { intros c u (g & Hg & _)%(ci_bound _ Hi). rewrite <- live_inv in Hg by done. exists g. split; [done|].
    by destruct (stuck_live t s u g Hi Hs Hg) as [_ (_ & ? & _)]. }
  destruct e as [i a u|u n|u c|c|c n r ch|c n| | |u p n|u n d|u|u|u| |u n|i o n|i o n]; try done; simpl.
  - destruct (admit_cases i a u s) as [(r & -> & _)|(_ & _ & Hn)]; [done|].
    destruct (st_gen _ _ Hs) as (g & Hg & _). by rewrite (get_occupant _ _ _ Hi Hg) in Hn.
  - unfold mark_handed_to_tts. destruct (live u s) as [g|] eqn:E; [|done].
    by destruct (stuck_live t s u g Hi Hs E) as [-> (_ & -> & _)].
  - unfold bind_context. destruct (live u s) as [g|] eqn:E; [|done].
    by destruct (stuck_live t s u g Hi Hs E) as [-> (_ & -> & _)].
  - unfold on_tts_started. destruct (dict_get c _) as [u|] eqn:E; [|done].
    by destruct (Hc c u E) as (g & -> & ->).
  - unfold on_tts_audio. destruct (dict_get c _) as [u|] eqn:E; [|done].
    by destruct (Hc c u E) as (g & -> & ->).
  - unfold on_tts_stopped. destruct (dict_get c _) as [u|] eqn:E; [|done].
    by destruct (Hc c u E) as (g & -> & ->).
  - unfold on_transport_bot_started, occupied_generation. destruct (st_gen _ _ Hs) as (g & Hg & Hw).
    rewrite (get_occupant _ _ _ Hi Hg), Hg. simpl. by apply stuck_put.
  - unfold record_interruption. destruct (live u s) as [g|] eqn:E; [|done].
    destruct (stuck_live t s u g Hi Hs E) as [-> (W1 & W2 & W3 & W4)].
    destruct (context_id g) as [c|] eqn:Ec; [|done]. apply stuck_arm; try done. split_and!; try done; simpl; congruence.
  - destruct (stuck_unknown t s u Hi Hs) as (s' & -> & Hs'). done.
  - unfold fire. destruct (dict_get u (timer_handles s)) as [tm|] eqn:E; [|done]. destruct (_ || _); [done|].
    assert (u = t) as ->.
    { destruct (st_gen _ _ Hs) as (g & Hg & _). pose proof (get_occupant _ _ _ Hi Hg).
      assert (u ∈ dict_keys (timer_handles s)) as Hu by (apply dict_get_is_Some; eauto).
      apply (ci_timers _ Hi), (only_occupant _ _ Hi) in Hu. congruence. }
    pose proof (st_timer _ _ Hs tm E) as Hk. destruct Hs. split; simpl; try done.
    + intros tm'. rewrite dict_get_set_eq. by intros [= <-].
    + apply Forall_app. split; [done|]. constructor; [|done]. by destruct (tm_kind tm).
  - by apply stuck_run_task.
  - by apply stuck_run_awaited.
Qed.

Lemma stuck_run t es s :
  coord_inv s → stuck t s → Forall (λ e, rescues e = false) es → stuck t (lrun es s).
Proof.
  revert s. induction es as [|e es IH]; intros s Hi Hs Hes; simpl; [done|]. apply Forall_cons in Hes as [He Hes].
  apply IH; [by eapply ss_inv, lexec_spec | by apply stuck_step | done].
Qed.

(** A second interruption disarms the fallback: when a generation is
    waiting for its flush barrier (cleanup begun, no teardown requested, no
    other coroutine in flight), recording another interruption replaces the
    flush timer by an interruption timer that does nothing for it.  From then
    on no timer and no coroutine ever frees the slot or requests the teardown:
    unless an outside event rescues it, the slot stays occupied for good. *)
Theorem second_interruption_strands_slot es0 t g p now es :
  let s := lrun es0 Coordinator_init in
  live t s = Some g → waiting g → transition_tasks s = [] → awaited s = [] →
  Forall (λ e, rescues e = false) es →
  let s' := lrun es (record_interruption t p now s) in
  slot_token s' = Some t ∧
  ∃ g', live t s' = Some g' ∧ teardown_pending g' = false.
Proof.
  intros s Hl (W1 & W2 & W3 & W4) Ht Ha Hes s'. assert (coord_inv s) as Hi by apply lrun_inv, init_coord_inv.
  assert (coord_inv s') as Hi' by (apply lrun_inv, (ss_inv (LInterrupt t p now) s), lexec_spec, Hi).
  assert (stuck t s') as Hs.
  { apply stuck_run; [apply (ss_inv (LInterrupt t p now) s), lexec_spec, Hi | | done].
    unfold record_interruption. rewrite Hl. destruct (context_id g) as [c|] eqn:Ec; [|done].
    split; simpl; rewrite ?Ht, ?Ha; try done.
    - rewrite dict_get_set_eq. eexists. split; [done|]. split_and!; try done. simpl. congruence.
    - intros tm. rewrite dict_get_set_eq. by intros [= <-]. }
  destruct (st_gen _ _ Hs) as (g' & Hg' & (_ & _ & _ & ?)). split; [by eapply get_occupant|].
  exists g'. rewrite live_inv by done. done.
Qed.

End facts.
