(* ===== verification/SpeechLane.v ===== *)
(** The frame processors around the TTS lane
    ([TransportSpeechLifecycleProcessor] and [GenericProviderErrorObserver] in
    [src/server/speech_lifecycle.py]).

    Frames are the ones the processors test for; any other frame is [FOther].
    The observer sits before the TTS service, the lifecycle processor after it
    and directly before the transport output.  A run interleaves frames at
    either processor with any other coordinator step; [output] is what the
    lifecycle processor pushed on, in order.  Awaiting the future of a bot-stop
    only delays that frame's push. *)

From S2P Require Import Prelude PyDict SpeechLifecycle SpeechLifecycleFacts.

Inductive direction := Downstream | Upstream.

#[global] Instance direction_eq_dec : EqDecision direction.
Proof. solve_decision. Defined.

Inductive frame :=
| FMarker (token : string)
| FFlushAck (token : string)
| FTtsStarted (context : option string)
| FTtsAudio (context : option string) (audio_len : nat) (sample_rate num_channels : Z)
| FTtsStopped (context : option string)
| FBotStarted
| FBotStopped
| FError (processor : nat)
| FOther (n : nat).

Record Lane := mkLane {
  coord : Coordinator;
  pending_token : option string;     (* [TransportSpeechLifecycleProcessor._pending_token] *)
  captured_token : option string;    (* [GenericProviderErrorObserver._captured_token] *)
  output : list (frame * direction)
}.

#[export] Instance eta_Lane : Eta Lane := λ r,
  mkLane (coord r) (pending_token r) (captured_token r) (output r).

Definition Lane_init : Lane := mkLane Coordinator_init None None [].

Section lane.
Context `{LifecycleConfig} (tts_processor : nat).
Implicit Types (l : Lane).

(** [if not frame.context_id] *)
Definition present (context : option string) : option string :=
  match context with
  | Some c => if decide (c = EmptyString) then None else Some c
  | None => None
  end.

Definition push (f : frame) (d : direction) l : Lane := l <| output ::= (λ o, o ++ [(f, d)]) |>.

(** Bind the pending marker to a started context. *)
Definition bind_pending (c : string) l : Lane :=
  match pending_token l with
  | None => l
  | Some t =>
      let (s, ok) := bind_context t c (coord l) in
      let l := l <| coord := s |> in
      if ok then l <| pending_token := None |> else l
  end.

(** The downstream TTS frames: whether the frame goes on. *)
Definition tts_frame (f : frame) (now : Q) l : Lane * bool :=
  match f with
  | FTtsStarted c =>
      match present c with
      | None => (l, false)
      | Some c =>
          let l := bind_pending c l in
          let (s, ok) := on_tts_started c (coord l) in (l <| coord := s |>, ok)
      end
  | FTtsAudio c n r ch =>
      match present c with
      | None => (l, false)
      | Some c => let (s, ok) := on_tts_audio c n r ch (coord l) in (l <| coord := s |>, ok)
      end
  | FTtsStopped c =>
      match present c with
      | None => (l, false)
      | Some c => let (s, ok) := on_tts_stopped c now (coord l) in (l <| coord := s |>, ok)
      end
  | _ => (l, true)
  end.

Definition process_frame (f : frame) (d : direction) (now : Q) l : Lane :=
  match f with
  | FMarker t => l <| pending_token := Some t |>
  | FFlushAck t => l <| coord ::= (λ s, await (acknowledge_tts_lane_flush t s)) |>
  | _ =>
      let (l, go) := if decide (d = Downstream) then tts_frame f now l else (l, true) in
      if negb go then l
      else
        let l := match f with
                 | FBotStarted => l <| coord ::= on_transport_bot_started |>
                 | FBotStopped => l <| coord ::= on_transport_bot_stopped |>
                 | _ => l
                 end in
        push f d l
  end.

(** [GenericProviderErrorObserver.process_frame] *)
Definition observe_frame (f : frame) (d : direction) l : Lane :=
  match f with
  | FMarker t => l <| captured_token := Some t |>
  | FError p =>
      match captured_token l with
      | Some t =>
          if decide (d = Upstream ∧ p = tts_processor) then
            l <| coord ::= (λ s, await (begin_delivery_unknown t s)) |> <| captured_token := None |>
          else l
      | None => l
      end
  | _ => l
  end.

Inductive lane_step :=
| Frame (f : frame) (d : direction) (now : Q)
| Observe (f : frame) (d : direction)
| Step (e : lstep).

Definition lane_exec (e : lane_step) l : Lane :=
  match e with
  | Frame f d now => process_frame f d now l
  | Observe f d => observe_frame f d l
  | Step e => l <| coord ::= lexec e |>
  end.

Definition lane_run (es : list lane_step) l : Lane := foldl (λ l e, lane_exec e l) l es.

(** ** Lemmas *)

Definition lane_admits (c : string) (e : lane_step) : bool :=
  match e with Step e => admits_utterance c e | _ => false end.

(** A TTS frame of context [c] on its way to the transport. *)
Definition speech_of (c : string) (x : frame * direction) : bool :=
  match x with
  | (FTtsStarted (Some c'), Downstream) | (FTtsAudio (Some c') _ _ _, Downstream)
  | (FTtsStopped (Some c'), Downstream) => bool_decide (c' = c)
  | _ => false
  end.

Definition private (x : frame * direction) : bool :=
  match x.1 with FMarker _ | FFlushAck _ => true | _ => false end.

(** A lane step acts on the coordinator as a sequence of coordinator steps. *)
Lemma lane_coord e l :
  ∃ es, coord (lane_exec e l) = lrun es (coord l) ∧
    ∀ c, lane_admits c e = false → Forall (λ x, admits_utterance c x = false) es.
Proof.
  destruct e as [f d now|f d|e]; simpl.
  - destruct f as [t|t|c|c n r ch|c| | |p|n]; simpl;
      try (by destruct (decide (d = Downstream)); exists []); try (by exists []).
    + exists [LAckFlush t]. split; [done|]. intros; by repeat constructor.
    + destruct (decide (d = Downstream)); [|by exists []]. destruct (present c) as [c'|]; [|by exists []].
      unfold bind_pending. destruct (pending_token l) as [t|]; simpl.
      * exists [LBind t c'; LTtsStarted c']. split; [|intros; by repeat constructor]. simpl.
        destruct (bind_context t c' (coord l)) as [s []]; simpl;
          (destruct (on_tts_started c' s) as [s' []]; done).
      * exists [LTtsStarted c']. split; [|intros; by repeat constructor]. simpl.
        by destruct (on_tts_started c' (coord l)) as [s' []].
    + destruct (decide (d = Downstream)); [|by exists []]. destruct (present c) as [c'|]; [|by exists []].
      exists [LTtsAudio c' n r ch]. split; [|intros; by repeat constructor]. simpl.
      by destruct (on_tts_audio c' n r ch (coord l)) as [s' []].
    + destruct (decide (d = Downstream)); [|by exists []]. destruct (present c) as [c'|]; [|by exists []].
      exists [LTtsStopped c' now]. split; [|intros; by repeat constructor]. simpl.
      by destruct (on_tts_stopped c' now (coord l)) as [s' []].
    + exists [LBotStarted]. split; [by destruct (decide (d = Downstream))|]. intros; by repeat constructor.
    + exists [LBotStopped]. split; [by destruct (decide (d = Downstream))|]. intros; by repeat constructor.
  - unfold observe_frame. destruct f; try (by exists []). destruct (captured_token l) as [t|]; [|by exists []].
    case_decide; [|by exists []]. exists [LProviderError t]. split; [done|]. intros; by repeat constructor.
  - exists [e]. split; [done|]. intros c Hc. by repeat constructor.
Qed.

(** [out] extends the lane's output by frames that are not private and are not
    speech of an utterance silenced in [l]. *)
Definition pushes (l : Lane) (out : list (frame * direction)) : Prop :=
  ∃ new, out = output l ++ new ∧ Forall (λ x, private x = false) new ∧
    ∀ c, silenced c (coord l) → Forall (λ x, speech_of c x = false) new.

Lemma pushes_nothing l : pushes l (output l).
Proof. exists []. by rewrite app_nil_r. Qed.

Lemma pushes_one l x :
  private x = false → (∀ c, silenced c (coord l) → speech_of c x = false) → pushes l (output l ++ [x]).
Proof. intros H1 H2. exists [x]. split; [done|]. split; [by constructor|]. intros c Hc. constructor; auto. Qed.

(** A frame of the utterance [c] is pushed only when the coordinator took it. *)
Lemma pushes_speech l x c (ok : bool) :
  private x = false → (∀ c', speech_of c' x = bool_decide (c = c')) → (silenced c (coord l) → ok = false) →
  pushes l (if ok then output l ++ [x] else output l).
Proof.
  intros H1 H2 H3. destruct ok; [|apply pushes_nothing]. apply pushes_one; [done|]. intros c' Hc. rewrite H2.
  apply bool_decide_eq_false. intros <-. by apply H3 in Hc.
Qed.

(** Binding the pending token changes no output and silences no less. *)
Lemma bind_pending_lane c l : coord_inv (coord l) →
  coord_inv (coord (bind_pending c l)) ∧ output (bind_pending c l) = output l ∧
  ∀ x, silenced x (coord l) → silenced x (coord (bind_pending c l)).
Proof.
  intros Hi. unfold bind_pending. destruct (pending_token l) as [t|]; [|done].
  assert (coord_inv (bind_context t c (coord l)).1) as Hb by (apply (lrun_inv [LBind t c] (coord l) Hi)).
  assert (∀ x, silenced x (coord l) → silenced x (bind_context t c (coord l)).1) as Hsil.
  { intros x Hx. apply (silenced_run x [LBind t c] (coord l) Hi Hx). by repeat constructor. }
  by destruct (bind_context t c (coord l)) as [s []].
Qed.

Lemma present_Some c c' : present c = Some c' → c = Some c'.
Proof. unfold present. destruct c; [|done]. by case_decide. Qed.

(** The output grows by at most one frame, never a private one, and a speech
    frame of a silenced utterance is not pushed. *)
Lemma lane_output e l : coord_inv (coord l) → pushes l (output (lane_exec e l)).
Proof.
  intros Hi. destruct e as [f d now|f d|e]; simpl; [| |exact (pushes_nothing l)].
  2: { unfold observe_frame. repeat case_match; exact (pushes_nothing l). }
  destruct f as [t|t|c|c n r ch|c| | |p|n]; simpl; try exact (pushes_nothing l);
    destruct (decide (d = Downstream)) as [->|Hd].
  - destruct (present c) as [c'|] eqn:Ep; [apply present_Some in Ep as ->|exact (pushes_nothing l)].
    destruct (bind_pending_lane c' l Hi) as (Hi' & Ho & Hs).
    destruct (on_tts_started c' (coord (bind_pending c' l))) as [s ok] eqn:E.
    assert (pushes l (if ok then output l ++ [(FTtsStarted (Some c'), Downstream)] else output l)) as Hp.
    { apply (pushes_speech l _ c'); [done | done |]. intros Hc.
      destruct (silenced_refuses c' _ 0 0 0 0 Hi' (Hs c' Hc)) as (_ & E' & _). congruence. }
    destruct ok; simpl; by rewrite Ho.
  - apply (pushes_one l (FTtsStarted c, d)); [done|]. intros; by destruct c, d.
  - destruct (present c) as [c'|] eqn:Ep; [apply present_Some in Ep as ->|exact (pushes_nothing l)].
    destruct (on_tts_audio c' n r ch (coord l)) as [s ok] eqn:E.
    assert (pushes l (if ok then output l ++ [(FTtsAudio (Some c') n r ch, Downstream)] else output l)) as Hp.
    { apply (pushes_speech l _ c'); [done | done |]. intros Hc.
      destruct (silenced_refuses c' _ n r ch 0 Hi Hc) as (E' & _). congruence. }
    by destruct ok.
  - apply (pushes_one l (FTtsAudio c n r ch, d)); [done|]. intros; by destruct c, d.
  - destruct (present c) as [c'|] eqn:Ep; [apply present_Some in Ep as ->|exact (pushes_nothing l)].
    destruct (on_tts_stopped c' now (coord l)) as [s ok] eqn:E.
    assert (pushes l (if ok then output l ++ [(FTtsStopped (Some c'), Downstream)] else output l)) as Hp.
    { apply (pushes_speech l _ c'); [done | done |]. intros Hc.
      destruct (silenced_refuses c' _ 0 0 0 now Hi Hc) as (_ & _ & E'). congruence. }
    by destruct ok.
  - apply (pushes_one l (FTtsStopped c, d)); [done|]. intros; by destruct c, d.
  - exact (pushes_one l (FBotStarted, Downstream) eq_refl (λ _ _, eq_refl)).
  - exact (pushes_one l (FBotStarted, d) eq_refl (λ _ _, eq_refl)).
  - exact (pushes_one l (FBotStopped, Downstream) eq_refl (λ _ _, eq_refl)).
  - exact (pushes_one l (FBotStopped, d) eq_refl (λ _ _, eq_refl)).
  - exact (pushes_one l (FError p, Downstream) eq_refl (λ _ _, eq_refl)).
  - exact (pushes_one l (FError p, d) eq_refl (λ _ _, eq_refl)).
  - exact (pushes_one l (FOther n, Downstream) eq_refl (λ _ _, eq_refl)).
  - exact (pushes_one l (FOther n, d) eq_refl (λ _ _, eq_refl)).
Qed.

Lemma lrun_app es es' s : lrun (es ++ es') s = lrun es' (lrun es s).
Proof. apply foldl_app. Qed.

Lemma lane_run_coord es l : ∃ ls, coord (lane_run es l) = lrun ls (coord l).
Proof.
  revert l. induction es as [|e es IH]; intros l; simpl; [by exists []|].
  destruct (lane_coord e l) as (ls & E & _). destruct (IH (lane_exec e l)) as [ls' E'].
  exists (ls ++ ls'). by rewrite E', E, lrun_app.
Qed.

Lemma lane_run_output es l : coord_inv (coord l) →
  ∃ new, output (lane_run es l) = output l ++ new ∧ Forall (λ x, private x = false) new ∧
    ∀ c, silenced c (coord l) → Forall (λ e, lane_admits c e = false) es →
      Forall (λ x, speech_of c x = false) new.
Proof.
  revert l. induction es as [|e es IH]; intros l Hi; simpl.
  { exists []. by rewrite app_nil_r. }
  destruct (lane_output e l Hi) as (n1 & E1 & P1 & S1). destruct (lane_coord e l) as (ls & Ec & Hc).
  destruct (IH (lane_exec e l)) as (n2 & E2 & P2 & S2). { rewrite Ec. by apply lrun_inv. }
  exists (n1 ++ n2). rewrite E2, E1, app_assoc. split; [done|]. split; [by apply Forall_app|].
  intros c Hs [He Hes]%Forall_cons. apply Forall_app. split; [by apply S1|]. apply S2; [|done].
  rewrite Ec. apply silenced_run; auto.
Qed.

(** ** Theorems *)

(** C8.  The lane never leaks: over every interleaving of frames and
    coordinator steps no marker and no flush barrier ever reaches the transport
    output, and once a live generation is interrupted no start, audio or stop
    frame of its utterance is pushed to the transport again unless that
    utterance is admitted anew. *)
Theorem lane_fences_output es t g p now es' :
  let l := lane_run es Lane_init in
  Forall (λ x, private x = false) (output l) ∧
  (live t (coord l) = Some g →
   Forall (λ e, lane_admits (gi_utterance_id (gen_identity g)) e = false) es' →
   ∃ new, output (lane_run es' (lane_exec (Step (LInterrupt t p now)) l)) = output l ++ new ∧
     Forall (λ x, speech_of (gi_utterance_id (gen_identity g)) x = false) new).
Proof.
  intros l. destruct (lane_run_coord es Lane_init) as [ls El].
  assert (coord_inv (coord l)) as Hi. { unfold l. rewrite El. apply lrun_inv, init_coord_inv. }
  split.
  - destruct (lane_run_output es Lane_init init_coord_inv) as (new & E & P & _). unfold l. by rewrite E.
  - intros Hl Hes. set (l1 := lane_exec _ l).
    destruct (evolves_interrupt t p now (coord l) Hi) as (Hi1 & _ & Hg1).
    destruct (lane_run_output es' l1 Hi1) as (new & E & _ & S). exists new. split; [exact E|].
    apply S; [|done].
    by apply (tombstone_silences t g _ (coord l) _ Hi (live_get _ _ _ Hl) Hg1 (interrupt_get t g p now _ Hl)).
Qed.

End lane.
