(* ===== verification/SpeechScheduler.v ===== *)
(** The speech scheduler ([src/server/speech_scheduler.py]).

    [SpeechScheduler] keeps one FIFO queue per work item, the paused items, the
    active lease and the provider contexts.  It depends on two components
    through the interfaces below: the session state that records delivery
    progress ([ProgressSink]) and the lifecycle coordinator that owns the
    transport slot ([SpeechSlot]).  The theorems are proved against the
    interfaces; [SpeechSystem] shows that [SessionState] and the coordinator
    satisfy them.

    [start_next] suspends where it awaits [speak] and, when that raised, where
    it awaits [provider_error]; the suspended calls are [flights].  A call the
    scheduler cancels observes the cancellation as [speak] raising.  The
    [speak], [stop] and [on_ack_terminal] callbacks are wired; each call of
    one is recorded in [trace], together with every progress report.  Freshly
    minted utterance ids and the answers of the environment are arguments. *)

From S2P Require Import Prelude PyDict Contracts SessionState SpeechLifecycle.

Inductive SpeechRole := ROLE_RESULT | ROLE_TIMEOUT_NOTICE | ROLE_ACK.

#[global] Instance SpeechRole_eq_dec : EqDecision SpeechRole.
Proof. solve_decision. Defined.

Record SpeechItem := mkItem {
  si_result_id : option string;
  si_work_item_id : string;
  si_run_id : string;
  si_text : string;
  si_utterance_id : string;
  si_origin_epoch : option N;
  si_role : SpeechRole;
  si_ack_id : option string;
  si_turn_id : option string
}.

#[global] Instance SpeechItem_eq_dec : EqDecision SpeechItem.
Proof. solve_decision. Defined.

(** [SpeechItem.__post_init__] *)
Definition new_SpeechItem (i : SpeechItem) : result SpeechItem :=
  if decide (si_role i = ROLE_ACK) then
    if decide (si_ack_id i = None) then Raise (ValueError "an ack SpeechItem requires ack_id")
    else if decide (si_result_id i = None) then Ret i
    else Raise (ValueError "an ack SpeechItem must not carry result_id")
  else if decide (si_result_id i = None) then Raise (ValueError "a SpeechItem requires result_id")
  else Ret i.

Record UtteranceLease := mkLease { lease_item : SpeechItem; lease_token : string }.

(** ** Interfaces *)

(** Where delivery progress is recorded.  A terminal report that bypasses the
    epoch fence settles its utterance, and nothing unsettles it. *)
Class ProgressSink (W : Type) := {
  report : SpeechItem → DeliveryState → option N → bool → W → W;
  settled : string → W → Prop;
  report_settles i st origin w :
    delivery_terminal st = true → settled (si_utterance_id i) (report i st origin true w);
  settled_stable u i st origin allow w :
    settled u w → settled u (report i st origin allow w)
}.

(** The transport slot.  [slot_env] is what the environment answers during an
    admission: the transport predicate and the token minted. *)
Record slot_env := mkSlotEnv { se_acceptance : option bool; se_token : string }.

Class SpeechSlot (L : Type) := {
  slot_occupied : L → bool;
  slot_admission : GenerationIdentity → slot_env → L → L * PreAdmission;
  slot_handed : string → Q → L → L;
  slot_interrupt : string → bool → Q → L → L;
  slot_release : string → bool → DeliveryDisposition → L → L;
  slot_provider_error : string → L → L;
  slot_terminal i e l l' r : slot_admission i e l = (l', PreAdmissionTerminal r) → l' = l;
  slot_busy i e l l' : slot_admission i e l = (l', PreAdmissionBusy) → slot_occupied l = true;
  slot_admit i e l l' t : slot_admission i e l = (l', PreAdmissionAdmit t) →
    slot_occupied l = false ∧ slot_occupied l' = true
}.

(** ** State *)

Inductive flight :=
| Advancing (exclude : string)                       (* [advance()] not yet started *)
| Speaking (item : SpeechItem) (token : string)      (* awaiting [speak] *)
| Failing (item : SpeechItem) (token : string).      (* awaiting [provider_error] *)

Inductive sched_event :=
| EProgress (item : SpeechItem) (st : DeliveryState) (origin : option N) (allow : bool)
| EAckTerminal (identity : GenerationIdentity) (reason : PreAdmissionTerminalReason)
| ESpeak (item : SpeechItem)
| EStop (item : SpeechItem).

Record Scheduler (W L : Type) := mkScheduler {
  sink : W;
  slot : L;
  queues : dict string (list SpeechItem);
  active : option UtteranceLease;
  paused_items : dict string SpeechItem;
  provider_contexts : dict string string;
  flights : list flight;
  discarded : bool;
  trace : list sched_event
}.
Arguments mkScheduler {W L}.
Arguments sink {W L}. Arguments slot {W L}. Arguments queues {W L}. Arguments active {W L}.
Arguments paused_items {W L}. Arguments provider_contexts {W L}. Arguments flights {W L}.
Arguments discarded {W L}. Arguments trace {W L}.

#[export] Instance eta_Scheduler W L : Eta (Scheduler W L) := λ r,
  mkScheduler (sink r) (slot r) (queues r) (active r) (paused_items r) (provider_contexts r)
    (flights r) (discarded r) (trace r).

Section scheduler.
Context {W L : Type} `{!ProgressSink W} `{!SpeechSlot L}.
Implicit Types (s : Scheduler W L) (i : SpeechItem) (now : Q).

Definition Scheduler_init (w : W) (l : L) : Scheduler W L :=
  mkScheduler w l [] None [] [] [] false [].

(** ** Helpers *)

Definition log_event (e : sched_event) s : Scheduler W L := s <| trace ::= (λ t, t ++ [e]) |>.

Definition identity_of (i : SpeechItem) : GenerationIdentity :=
  mkIdentity (si_utterance_id i) (si_work_item_id i) (si_origin_epoch i)
    (if decide (si_role i = ROLE_ACK) then role_ack else role_result) (si_turn_id i) (si_ack_id i).

(** [_emit_progress]; [epoch] is the [origin_epoch] override of [extra]. *)
Definition emit_progress (i : SpeechItem) (st : DeliveryState) (epoch : option N) (allow : bool) s
    : Scheduler W L :=
  if decide (si_role i = ROLE_ACK) then s
  else
    let origin := match epoch with Some _ => epoch | None => si_origin_epoch i end in
    log_event (EProgress i st origin allow) (s <| sink := report i st origin allow (sink s) |>).

Definition notify_ack_swept (reason : PreAdmissionTerminalReason) (i : SpeechItem) s : Scheduler W L :=
  if decide (si_role i = ROLE_ACK) then log_event (EAckTerminal (identity_of i) reason) s else s.

Definition signal_stop (i : SpeechItem) s : Scheduler W L := log_event (EStop i) s.

Definition queued (key : string) s : list SpeechItem := default [] (dict_get key (queues s)).

Definition set_queue (key : string) (items : list SpeechItem) s : Scheduler W L :=
  match items with
  | [] => s <| queues ::= dict_pop key |>
  | _ => s <| queues := dict_set key items (queues s) |>
  end.

Definition release_lease (utterance : string) s : Scheduler W L :=
  match active s with
  | Some a =>
      if decide (si_utterance_id (lease_item a) = utterance) then
        s <| provider_contexts ::= filter (λ p, p.2 ≠ lease_token a) |> <| active := None |>
      else s
  | None => s
  end.

(** ** Reads *)

Definition pending_work_item_ids (exclude : option string) s : list string :=
  (filter (λ p, p.2 ≠ [] ∧ Some p.1 ≠ exclude) (queues s)).*1.

Definition queued_roles s : list SpeechRole := si_role <$> concat (dict_values (queues s)).

Definition all_queued_items s : list SpeechItem := concat (dict_values (queues s)).

Definition paused (key : option string) s : option SpeechItem :=
  match key with
  | Some k => dict_get k (paused_items s)
  | None => snd <$> last (paused_items s)
  end.

Definition active_item (utterance : string) s : option SpeechItem :=
  match active s with
  | Some a => if decide (si_utterance_id (lease_item a) = utterance) then Some (lease_item a) else None
  | None => None
  end.

Definition provider_item (context : string) s : option SpeechItem :=
  match active s with
  | Some a => if decide (dict_get context (provider_contexts s) = Some (lease_token a))
              then Some (lease_item a) else None
  | None => None
  end.

(** ** Queue operations *)

(** [utterance] is the caller's id or the minted [utt-...]. *)
Definition enqueue (result_id : option string) (work_item_id run_id text : string)
    (origin_epoch : option N) (utterance : string) (role : SpeechRole) (ack_id turn_id : option string) s
    : Scheduler W L * result SpeechItem :=
  let checked := if decide (role = ROLE_ACK) then
                   match ack_id with
                   | None => Ret (Some work_item_id)
                   | Some a => if decide (a = work_item_id) then Ret (Some a)
                               else Raise (ValueError "ack_id must equal work_item_id or be omitted")
                   end
                 else Ret ack_id in
  match ack ←? checked ;;
        new_SpeechItem (mkItem result_id work_item_id run_id text utterance origin_epoch role ack turn_id) with
  | Raise e => (s, Raise e)
  | Ret item =>
      let s := s <| queues := dict_set work_item_id (queued work_item_id s ++ [item]) (queues s) |> in
      let s := emit_progress item DISPLAYED None false s in
      (emit_progress item QUEUED None false s, Ret item)
  end.

Definition discard_queued (key : string) (matches : SpeechItem → bool) s
    : Scheduler W L * list SpeechItem :=
  let queue := queued key s in
  match filter (λ i, matches i = true) queue with
  | [] => (s, [])
  | gone => (set_queue key (filter (λ i, matches i = false) queue) s, gone)
  end.

Definition discard_queued_ack (ack_id : string) s : Scheduler W L * option SpeechItem :=
  let (s, gone) := discard_queued ack_id
                     (λ i, bool_decide (si_role i = ROLE_ACK) && bool_decide (si_ack_id i = Some ack_id)) s in
  (s, head gone).

Definition discard_queued_notice (key : string) s : Scheduler W L * list SpeechItem :=
  let (s, gone) := discard_queued key (λ i, bool_decide (si_role i = ROLE_TIMEOUT_NOTICE)) s in
  (foldl (λ s i, emit_progress i INTERRUPTED None false s) s gone, gone).

Definition discard_from_queue (i : SpeechItem) s : Scheduler W L :=
  match dict_get (si_work_item_id i) (queues s) with
  | Some (j :: q) => if decide (j = i) then set_queue (si_work_item_id i) q s else s
  | _ => s
  end.

(** ** Admission *)

Inductive scan_result := Exhausted | Busy | Chosen (item : SpeechItem) (token : string).

(** A candidate that is terminal before admission. *)
Definition drop_candidate (i : SpeechItem) (reason : PreAdmissionTerminalReason) s : Scheduler W L :=
  let s := discard_from_queue i s in
  if decide (si_role i = ROLE_ACK) then log_event (EAckTerminal (identity_of i) reason) s
  else emit_progress i DELIVERY_UNKNOWN None false s.

(** The [while True] loop over one key: every round but the last drops the head
    of the queue, so one more than its length is enough fuel. *)
Fixpoint scan_key (fuel : nat) (key : string) (env : slot_env) s : Scheduler W L * scan_result :=
  match fuel with
  | O => (s, Exhausted)
  | S fuel =>
      match queued key s with
      | [] => (s, Exhausted)
      | candidate :: _ =>
          let (l, d) := slot_admission (identity_of candidate) env (slot s) in
          let s := s <| slot := l |> in
          match d with
          | PreAdmissionTerminal reason => scan_key fuel key env (drop_candidate candidate reason s)
          | PreAdmissionBusy => (s, Busy)
          | PreAdmissionAdmit token => (s, Chosen candidate token)
          end
      end
  end.

Fixpoint scan_keys (keys : list string) (env : slot_env) s : Scheduler W L * scan_result :=
  match keys with
  | [] => (s, Exhausted)
  | key :: keys =>
      match scan_key (S (length (queued key s))) key env s with
      | (s, Exhausted) => scan_keys keys env s
      | r => r
      end
  end.

(** [start_next] up to its first await; the item is being spoken when the
    result is [Some]. *)
Definition start_next (key : option string) (env : slot_env) now s
    : Scheduler W L * option SpeechItem :=
  if bool_decide (active s ≠ None) || slot_occupied (slot s) then (s, None)
  else
    let keys := match key with Some k => [k] | None => dict_keys (queues s) end in
    match scan_keys keys env s with
    | (s, Chosen item token) =>
        let s := set_queue (si_work_item_id item) (tail (queued (si_work_item_id item) s)) s in
        let s := s <| active := Some (mkLease item token) |> in
        let s := emit_progress item STARTED None false s in
        let s := s <| slot ::= slot_handed token now |> in
        let s := log_event (ESpeak item) s in
        (s <| flights ::= (λ f, f ++ [Speaking item token]) |>, Some item)
    | (s, _) => (s, None)
    end.

Definition schedule_queue_advance (exclude : string) s : Scheduler W L :=
  if discarded s then s else s <| flights ::= (λ f, f ++ [Advancing exclude]) |>.

(** [advance()]: the first other key with a queue. *)
Definition run_advance (exclude : string) (env : slot_env) now s : Scheduler W L :=
  match head (pending_work_item_ids (Some exclude) s) with
  | None => s
  | Some key => (start_next (Some key) env now s).1
  end.

(** A suspended call is resumed: [speak] returned or raised, [provider_error]
    finished, or the advance task gets its turn. *)
Definition resume_flight (n : nat) (o : outcome) (env : slot_env) now s : Scheduler W L :=
  match flights s !! n with
  | None => s
  | Some f =>
      let s := s <| flights ::= list_delete n |> in
      match f with
      | Advancing exclude => run_advance exclude env now s
      | Speaking item token =>
          match o with
          | Returned => s
          | Raised =>
              let s := emit_progress item DELIVERY_UNKNOWN None false s in
              let s := s <| slot ::= slot_provider_error token |> in
              s <| flights ::= (λ f, f ++ [Failing item token]) |>
          end
      | Failing item token =>
          let s := s <| slot ::= slot_release token false DD_DELIVERY_UNKNOWN |> in
          let s := release_lease (si_utterance_id item) s in
          schedule_queue_advance (si_work_item_id item) s
      end
  end.

(** ** Provider correlation and delivery *)

Definition provider_started (context : string) s : Scheduler W L :=
  if dict_mem context (provider_contexts s) then s
  else match active s with
       | Some a => if decide (context = si_utterance_id (lease_item a))
                   then s <| provider_contexts := dict_set context (lease_token a) (provider_contexts s) |>
                   else s
       | None => s
       end.

Definition synthesis_ended (utterance : string) s : Scheduler W L :=
  match active_item utterance s with
  | None => s
  | Some i => emit_progress i SYNTHESIS_ENDED None false s
  end.

(** [delivery_completed] and [delivery_unknown] *)
Definition delivery_finished (st : DeliveryState) (d : DeliveryDisposition) (utterance : string) s
    : Scheduler W L :=
  match active_item utterance s, active s with
  | Some i, Some a =>
      let s := emit_progress i st None false s in
      let s := s <| slot ::= slot_release (lease_token a) true d |> in
      release_lease utterance s
  | _, _ => s
  end.

Definition delivery_completed : string → Scheduler W L → Scheduler W L :=
  delivery_finished DELIVERY_COMPLETED DD_DELIVERY_COMPLETED.

Definition delivery_unknown : string → Scheduler W L → Scheduler W L :=
  delivery_finished DELIVERY_UNKNOWN DD_DELIVERY_UNKNOWN.

Definition provider_synthesis_ended (context : string) s : Scheduler W L * bool :=
  match provider_item context s with
  | None => (s, false)
  | Some i => (synthesis_ended (si_utterance_id i) s, true)
  end.

Definition provider_delivery_completed (context : string) s : Scheduler W L * bool :=
  match provider_item context s with
  | None => (s, false)
  | Some i => ((delivery_completed (si_utterance_id i) s) <| provider_contexts ::= dict_pop context |>, true)
  end.

Definition provider_delivery_unknown (context : string) s : Scheduler W L * bool :=
  match provider_item context s with
  | None => (s, false)
  | Some i => ((delivery_unknown (si_utterance_id i) s) <| provider_contexts ::= dict_pop context |>, true)
  end.

(** ** Interruption *)

(** One item of the [reconnect]/[full_stop] sweep. *)
Definition sweep_item (st : DeliveryState) (epoch : option N) s i : Scheduler W L :=
  notify_ack_swept CONNECTION_CLOSED i (emit_progress i st epoch true s).

Definition is_advancing (f : flight) : bool := match f with Advancing _ => true | _ => false end.

Definition interrupt (epoch : option N) (reconnect full_stop : bool) now s
    : Scheduler W L * option SpeechItem :=
  let st := if reconnect then INTERRUPTED_BY_RECONNECT else INTERRUPTED in
  let gone := reconnect || full_stop in
  let item := lease_item <$> active s in
  let s := match active s with
           | None => s
           | Some a =>
               let s := s <| slot ::= slot_interrupt (lease_token a) false now |> in
               let s := signal_stop (lease_item a) s in
               let s := emit_progress (lease_item a) st epoch gone s in
               release_lease (si_utterance_id (lease_item a)) s
           end in
  let s := if gone then
             let s := s <| discarded := true |> in
             let s := foldl (sweep_item st epoch) s (all_queued_items s) in
             let s := s <| queues := [] |> in
             let s := s <| flights ::= filter (λ f, is_advancing f = false) |> in
             let s := foldl (sweep_item st epoch) s (dict_values (paused_items s)) in
             s <| paused_items := [] |>
           else s in
  (s, item).

Definition pause (key : string) now s : Scheduler W L :=
  match active s with
  | None => s
  | Some a =>
      let item := lease_item a in
      if decide (si_work_item_id item = key) then
        let s := s <| slot ::= slot_interrupt (lease_token a) true now |> in
        let s := s <| paused_items := dict_set key item (paused_items s) |> in
        let s := signal_stop item s in
        let s := emit_progress item PAUSED None false s in
        release_lease (si_utterance_id item) s
      else s
  end.

(** [resume(target)] with no target, a work item id or a speech item. *)
Inductive resume_target := TNone | TKey (key : string) | TItem (item : SpeechItem).

Definition resume_speech (target : resume_target) (utterance : string) s
    : Scheduler W L * result (option SpeechItem) :=
  let key := match target with TNone => None | TKey k => Some k | TItem i => Some (si_work_item_id i) end in
  let found := paused key s in
  let item := match found, target with
              | Some i, _ => Some i
              | None, TItem i => Some i
              | None, _ => None
              end in
  match item with
  | None => (s, Ret None)
  | Some i =>
      let s := if decide (dict_get (si_work_item_id i) (paused_items s) = Some i)
               then s <| paused_items ::= dict_pop (si_work_item_id i) |> else s in
      if decide (si_role i = ROLE_ACK) then
        (log_event (EAckTerminal (identity_of i) UNAVAILABLE_TRANSPORT) s, Ret None)
      else
        let s := match found with Some _ => emit_progress i INTERRUPTED None false s | None => s end in
        match enqueue (si_result_id i) (si_work_item_id i) (si_run_id i) (si_text i) (si_origin_epoch i)
                utterance (si_role i) (si_ack_id i) (si_turn_id i) s with
        | (s, Ret replay) => (emit_progress replay RESUMED None false s, Ret (Some replay))
        | (s, Raise e) => (s, Raise e)
        end
  end.

(** One queued or paused item swept by [cancel]. *)
Definition cancel_item s i : Scheduler W L :=
  notify_ack_swept PRE_CANCELLED i (emit_progress i INTERRUPTED None false s).

Definition cancel_queue s (key : string) : Scheduler W L :=
  let items := queued key s in
  foldl cancel_item (s <| queues ::= dict_pop key |>) items.

Definition cancel_paused s (key : string) : Scheduler W L :=
  match dict_get key (paused_items s) with
  | None => s
  | Some i => cancel_item (s <| paused_items ::= dict_pop key |>) i
  end.

(** The active lease is cancelled when it matches. *)
Definition cancel_active (key : option string) now s : Scheduler W L * list SpeechItem :=
  match active s with
  | None => (s, [])
  | Some a =>
      let item := lease_item a in
      if decide (key = None ∨ key = Some (si_work_item_id item)) then
        let s := s <| slot ::= slot_interrupt (lease_token a) false now |> in
        let s := signal_stop item s in
        let s := emit_progress item INTERRUPTED None false s in
        (release_lease (si_utterance_id item) s, [item])
      else (s, [])
  end.

Definition cancel (key : option string) now s : Scheduler W L * list SpeechItem :=
  let (s, first) := cancel_active key now s in
  let keys := match key with Some k => [k] | None => dict_keys (queues s) end in
  let paused_keys := match key with Some k => [k] | None => dict_keys (paused_items s) end in
  let cancelled := first ++ concat ((λ k, queued k s) <$> keys)
                         ++ omap (λ k, dict_get k (paused_items s)) paused_keys in
  (foldl cancel_paused (foldl cancel_queue s keys) paused_keys, cancelled).

(** ** Runs *)

Inductive sched_op :=
| SEnqueue (result_id : option string) (work_item_id run_id text : string) (origin : option N)
    (utterance : string) (role : SpeechRole) (ack_id turn_id : option string)
| SStartNext (key : option string) (env : slot_env) (now : Q)
| SResumeFlight (n : nat) (o : outcome) (env : slot_env) (now : Q)
| SProviderStarted (context : string)
| SProviderSynthesisEnded (context : string)
| SProviderCompleted (context : string)
| SProviderUnknown (context : string)
| SSynthesisEnded (utterance : string)
| SCompleted (utterance : string)
| SUnknown (utterance : string)
| SInterrupt (epoch : option N) (reconnect full_stop : bool) (now : Q)
| SPause (key : string) (now : Q)
| SResume (target : resume_target) (utterance : string)
| SCancel (key : option string) (now : Q)
| SDiscardAck (ack_id : string)
| SDiscardNotice (key : string)
| SSlot (f : L → L)      (* any other change of the coordinator *)
| SSink (f : W → W).     (* any other change of the session state *)

Definition sexec (o : sched_op) s : Scheduler W L :=
  match o with
  | SEnqueue r w n t e u ro a ti => (enqueue r w n t e u ro a ti s).1
  | SStartNext k env now => (start_next k env now s).1
  | SResumeFlight n o env now => resume_flight n o env now s
  | SProviderStarted c => provider_started c s
  | SProviderSynthesisEnded c => (provider_synthesis_ended c s).1
  | SProviderCompleted c => (provider_delivery_completed c s).1
  | SProviderUnknown c => (provider_delivery_unknown c s).1
  | SSynthesisEnded u => synthesis_ended u s
  | SCompleted u => delivery_completed u s
  | SUnknown u => delivery_unknown u s
  | SInterrupt e r f now => (interrupt e r f now s).1
  | SPause k now => pause k now s
  | SResume t u => (resume_speech t u s).1
  | SCancel k now => (cancel k now s).1
  | SDiscardAck a => (discard_queued_ack a s).1
  | SDiscardNotice k => (discard_queued_notice k s).1
  | SSlot f => s <| slot ::= f |>
  | SSink f => s <| sink ::= f |>
  end.

Definition srun (os : list sched_op) s : Scheduler W L := foldl (λ s o, sexec o s) s os.

End scheduler.
