(* ===== verification/SpeechSchedulerFacts.v ===== *)
(** Theorems about the speech scheduler, proved against its two interfaces. *)

From S2P Require Import Prelude PyDict Contracts SessionState SpeechLifecycle SpeechScheduler.

Section facts.
Context {W L : Type} `{!ProgressSink W} `{!SpeechSlot L}.
Implicit Types (s : Scheduler W L) (i : SpeechItem).

(** ** Well-formed state *)

(** What [enqueue] guarantees of an item. *)
Definition valid (i : SpeechItem) : Prop :=
  if decide (si_role i = ROLE_ACK) then si_ack_id i = Some (si_work_item_id i) ∧ si_result_id i = None
  else si_result_id i ≠ None.

Record sched_inv s : Prop := {
  sv_wf : dict_wf (queues s);
  sv_queues : ∀ k q, dict_get k (queues s) = Some q →
    q ≠ [] ∧ Forall (λ i, si_work_item_id i = k ∧ valid i) q;
  sv_paused_wf : dict_wf (paused_items s);
  sv_paused : ∀ k i, dict_get k (paused_items s) = Some i → si_work_item_id i = k ∧ valid i;
  sv_active : ∀ a, active s = Some a → valid (lease_item a)
}.

(** The fields the invariant reads. *)
Definition shape s := (queues s, paused_items s, active s).

Lemma inv_shape s s' : shape s' = shape s → sched_inv s → sched_inv s'.
Proof. unfold shape. intros [= E1 E2 E3] []. split; by rewrite ?E1, ?E2, ?E3. Qed.

Lemma emit_shape i st e a s : shape (emit_progress i st e a s) = shape s.
Proof. unfold emit_progress. by case_decide. Qed.

Lemma emit_fields i st e a s :
  queues (emit_progress i st e a s) = queues s ∧ paused_items (emit_progress i st e a s) = paused_items s ∧
  active (emit_progress i st e a s) = active s.
Proof. unfold emit_progress. by case_decide. Qed.

Lemma notify_shape r i s : shape (notify_ack_swept r i s) = shape s.
Proof. unfold notify_ack_swept. by case_decide. Qed.

Lemma cancel_item_shape s i : shape (cancel_item s i) = shape s.
Proof. unfold cancel_item. by rewrite notify_shape, emit_shape. Qed.

Lemma sweep_item_shape st e s i : shape (sweep_item st e s i) = shape s.
Proof. unfold sweep_item. by rewrite notify_shape, emit_shape. Qed.

Lemma fold_shape {A} (f : Scheduler W L → A → Scheduler W L) l s :
  (∀ s a, shape (f s a) = shape s) → shape (foldl f s l) = shape s.
Proof. intros Hf. revert s. induction l as [|a l IH]; intros s; simpl; [done|]. by rewrite IH, Hf. Qed.

Lemma queued_valid k s i : sched_inv s → i ∈ queued k s → si_work_item_id i = k ∧ valid i.
Proof.
  intros Hi. unfold queued. destruct (dict_get k (queues s)) as [q|] eqn:E; [|set_solver].
  simpl. intros Hin. destruct (sv_queues _ Hi _ _ E) as [_ Hq]. rewrite Forall_forall in Hq. auto.
Qed.

Lemma inv_set_queue k q s :
  sched_inv s → Forall (λ i, si_work_item_id i = k ∧ valid i) q → sched_inv (set_queue k q s).
Proof.
  intros Hi Hq. destruct q as [|i q]; simpl; split; simpl; try apply Hi; auto with dict.
  - apply dict_wf_pop, Hi.
  - intros k' q'. rewrite dict_get_pop. case_decide; [done | apply Hi].
  - apply dict_wf_set, Hi.
  - intros k' q'. rewrite dict_get_set. case_decide; [|apply Hi]. intros [= <-]. by subst.
Qed.

Lemma inv_release u s : sched_inv s → sched_inv (release_lease u s).
Proof.
  intros Hi. unfold release_lease. destruct (active s) as [a|]; [|done]. case_decide; [|done].
  split; simpl; try apply Hi. done.
Qed.

Lemma inv_emit i st e a s : sched_inv s → sched_inv (emit_progress i st e a s).
Proof. apply inv_shape, emit_shape. Qed.

Lemma new_item_spec i :
  new_SpeechItem i = Ret i ∧
    (if decide (si_role i = ROLE_ACK) then si_ack_id i ≠ None ∧ si_result_id i = None
     else si_result_id i ≠ None) ∨
  ∃ e, new_SpeechItem i = Raise e.
Proof. unfold new_SpeechItem. repeat case_decide; eauto. Qed.

(** [enqueue] either raises and changes nothing, or appends one valid item. *)
Lemma enqueue_cases r w n t e u ro a ti s :
  (∃ x, enqueue r w n t e u ro a ti s = (s, Raise x)) ∨
  (∃ i, valid i ∧ si_work_item_id i = w ∧ si_utterance_id i = u ∧ si_role i = ro ∧ si_text i = t ∧
     enqueue r w n t e u ro a ti s =
       (emit_progress i QUEUED None false (emit_progress i DISPLAYED None false
          (s <| queues := dict_set w (queued w s ++ [i]) (queues s) |>)), Ret i)).
Proof.
  unfold enqueue. cbv zeta.
  destruct (if decide (ro = ROLE_ACK) then _ else _) as [ack|x] eqn:Ec; simpl; [|left; by eexists].
  destruct (new_item_spec (mkItem r w n t u e ro ack ti)) as [[-> Hv]|[x ->]]; [|left; by eexists].
  right. exists (mkItem r w n t u e ro ack ti). split; [|by split_and!]. unfold valid. simpl in *. case_decide; [|done].
  destruct Hv as [Ha Hr]. split; [|done]. destruct a as [a|]; [case_decide|]; congruence.
Qed.

Lemma inv_enqueue r w n t e u ro a ti s : sched_inv s → sched_inv (enqueue r w n t e u ro a ti s).1.
Proof.
  intros Hi. destruct (enqueue_cases r w n t e u ro a ti s) as [[x ->]|(i & Hv & Hw & _ & _ & _ & ->)]; [done|].
  simpl. do 2 apply inv_emit.
  assert (sched_inv (set_queue w (queued w s ++ [i]) s)) as Hq.
  { apply inv_set_queue; [done|]. apply Forall_app. split; [|by constructor].
    apply Forall_forall. intros j Hj. by eapply queued_valid. }
  destruct (queued w s); exact Hq.
Qed.

Lemma inv_discard_queued k m s : sched_inv s → sched_inv (discard_queued k m s).1.
Proof.
  intros Hi. unfold discard_queued. destruct (filter _ _); [done|]. apply inv_set_queue; [done|].
  apply Forall_forall. intros i [_ Hin]%list_elem_of_filter. by eapply queued_valid.
Qed.

Lemma inv_discard_from_queue i s : sched_inv s → sched_inv (discard_from_queue i s).
Proof.
  intros Hi. unfold discard_from_queue. destruct (dict_get _ _) as [[|j q]|] eqn:E; [done | | done].
  case_decide; [|done]. subst j. apply inv_set_queue; [done|].
  destruct (sv_queues _ Hi _ _ E) as [_ Hq]. by apply Forall_cons in Hq as [_ ?].
Qed.

Lemma inv_log e s : sched_inv s → sched_inv (log_event e s).
Proof. by apply inv_shape. Qed.

Lemma inv_slot l s : sched_inv s → sched_inv (s <| slot := l |>).
Proof. by apply inv_shape. Qed.

Lemma inv_drop_candidate i r s : sched_inv s → sched_inv (drop_candidate i r s).
Proof.
  intros Hi%(inv_discard_from_queue i). unfold drop_candidate.
  case_decide; [by apply (inv_shape (discard_from_queue i s)) | by apply inv_emit].
Qed.

Lemma inv_scan_key fuel k env s : sched_inv s → sched_inv (scan_key fuel k env s).1.
Proof.
  revert s. induction fuel as [|n IH]; intros s Hi; simpl; [done|].
  destruct (queued k s) as [|c q]; [done|]. destruct (slot_admission _ _ _) as [l []]; simpl.
  - by apply (inv_slot l s).
  - by apply IH, inv_drop_candidate, (inv_slot l s).
  - by apply (inv_slot l s).
Qed.

Lemma inv_scan_keys ks env s : sched_inv s → sched_inv (scan_keys ks env s).1.
Proof.
  revert s. induction ks as [|k ks IH]; intros s Hi; cbn [scan_keys]; [done|].
  pose proof (inv_scan_key (S (length (queued k s))) k env s Hi) as H1.
  destruct (scan_key _ k env s) as [s1 []]; auto.
Qed.

(** What a scan found is the head of its key's queue. *)
Lemma scan_key_head fuel k env s s' i t :
  scan_key fuel k env s = (s', Chosen i t) → head (queued k s') = Some i.
Proof.
  revert s. induction fuel as [|n IH]; intros s; simpl; [done|].
  destruct (queued k s) as [|c q] eqn:E; [done|]. destruct (slot_admission _ _ _) as [l []].
  - intros [= <- <- <-]. unfold queued in *. simpl. by rewrite E.
  - apply IH.
  - done.
Qed.

Lemma scan_keys_head ks env s s' i t :
  scan_keys ks env s = (s', Chosen i t) → ∃ k, k ∈ ks ∧ head (queued k s') = Some i.
Proof.
  revert s. induction ks as [|k ks IH]; intros s; cbn [scan_keys]; [done|].
  destruct (scan_key _ k env s) as [s1 [| |j u]] eqn:E; [|done|].
  - intros (k' & ? & ?)%IH. exists k'. split; [by constructor | done].
  - intros [= -> -> ->]. exists k. split; [constructor|]. by eapply scan_key_head.
Qed.

Lemma head_elem {A} (l : list A) x : head l = Some x → x ∈ l.
Proof. destruct l; simpl; [done|]. intros [= ->]. constructor. Qed.

Lemma tail_Forall {A} (P : A → Prop) (l : list A) : Forall P l → Forall P (tail l).
Proof. destruct 1; [constructor | done]. Qed.

Lemma queued_Forall k s : sched_inv s → Forall (λ i, si_work_item_id i = k ∧ valid i) (queued k s).
Proof. intros Hi. apply Forall_forall. intros i. by apply queued_valid. Qed.

Lemma inv_start_next k env now s : sched_inv s → sched_inv (start_next k env now s).1.
Proof.
  intros Hi. unfold start_next. destruct (_ || _); [done|]. cbv zeta.
  set (ks := match k with Some k => _ | None => _ end).
  pose proof (inv_scan_keys ks env s Hi) as H1. pose proof (scan_keys_head ks env s) as H2.
  destruct (scan_keys ks env s) as [s1 [| |i t]]; [done..|]. simpl in H1. cbn [fst].
  destruct (H2 s1 i t eq_refl) as (k' & _ & Hh%head_elem).
  destruct (queued_valid _ _ _ H1 Hh) as [Hw Hv].
  match goal with |- sched_inv (setter flights _ (log_event _ (setter slot _ ?x))) => apply (inv_shape x); [done|] end.
  apply inv_emit. assert (sched_inv (set_queue (si_work_item_id i) (tail (queued (si_work_item_id i) s1)) s1)) as [].
  { apply inv_set_queue; [done|]. by apply tail_Forall, queued_Forall. }
  split; simpl; try done. by intros a [= <-].
Qed.

Lemma inv_resume_flight n o env now s : sched_inv s → sched_inv (resume_flight n o env now s).
Proof.
  intros Hi. unfold resume_flight. destruct (flights s !! n) as [f|]; [|done]. cbv zeta.
  assert (sched_inv (s <| flights ::= list_delete n |>)) as H1 by (by apply (inv_shape s)).
  set (s1 := s <| flights ::= list_delete n |>) in *. clearbody s1.
  destruct f as [k|i t|i t].
  - unfold run_advance. destruct (head _); [by apply inv_start_next | done].
  - destruct o; [done|].
    match goal with |- sched_inv (setter flights _ (setter slot _ ?x)) => apply (inv_shape x); [done|] end.
    by apply inv_emit.
  - unfold schedule_queue_advance.
    assert (sched_inv (release_lease (si_utterance_id i) (s1 <| slot ::= slot_release t false DD_DELIVERY_UNKNOWN |>))) as H2.
    { apply inv_release. by apply (inv_shape s1). }
    destruct (discarded _); [done|]. by eapply inv_shape; [|exact H2].
Qed.

Lemma inv_finished st d u s : sched_inv s → sched_inv (delivery_finished st d u s).
Proof.
  intros Hi. unfold delivery_finished. destruct (active_item u s) as [i|]; [|done].
  destruct (active s) as [a|]; [|done]. apply inv_release.
  eapply (inv_shape (emit_progress i st None false s)); [done | by apply inv_emit].
Qed.

Lemma inv_cancel_active k now s : sched_inv s → sched_inv (cancel_active k now s).1.
Proof.
  intros Hi. unfold cancel_active. destruct (active s) as [a|]; [|done]. case_decide; [|done].
  apply inv_release, inv_emit. by apply (inv_shape s).
Qed.

Lemma inv_cancel_queue s k : sched_inv s → sched_inv (cancel_queue s k).
Proof.
  intros Hi. unfold cancel_queue. cbv zeta.
  eapply inv_shape; [apply fold_shape, cancel_item_shape|]. by apply (inv_set_queue k []).
Qed.

Lemma inv_paused_pop k s : sched_inv s → sched_inv (s <| paused_items ::= dict_pop k |>).
Proof.
  intros Hi. split; simpl; try apply Hi; [apply dict_wf_pop, Hi|].
  intros k' i. rewrite dict_get_pop. case_decide; [done | apply Hi].
Qed.

Lemma inv_cancel_paused s k : sched_inv s → sched_inv (cancel_paused s k).
Proof.
  intros Hi. unfold cancel_paused. destruct (dict_get k (paused_items s)); [|done].
  eapply inv_shape; [apply cancel_item_shape | by apply inv_paused_pop].
Qed.

Lemma inv_fold {A} (f : Scheduler W L → A → Scheduler W L) l s :
  (∀ s a, sched_inv s → sched_inv (f s a)) → sched_inv s → sched_inv (foldl f s l).
Proof. intros Hf. revert s. induction l as [|a l IH]; intros s Hs; simpl; auto. Qed.

Lemma inv_cancel k now s : sched_inv s → sched_inv (cancel k now s).1.
Proof.
  intros Hi%(inv_cancel_active k now). unfold cancel. destruct (cancel_active k now s) as [s1 first]. cbn [fst].
  apply inv_fold; [apply inv_cancel_paused|]. apply inv_fold; [apply inv_cancel_queue | done].
Qed.

(** The active half of [interrupt]. *)
Definition interrupt_active (st : DeliveryState) (epoch : option N) (gone : bool) (now : Q) s : Scheduler W L :=
  match active s with
  | None => s
  | Some a =>
      release_lease (si_utterance_id (lease_item a))
        (emit_progress (lease_item a) st epoch gone
           (signal_stop (lease_item a) (s <| slot ::= slot_interrupt (lease_token a) false now |>)))
  end.

(** The sweep of [interrupt]. *)
Definition sweep (st : DeliveryState) (epoch : option N) s : Scheduler W L :=
  let s1 := foldl (sweep_item st epoch) (s <| discarded := true |>) (all_queued_items s) in
  let s2 := s1 <| queues := [] |> <| flights ::= filter (λ f, is_advancing f = false) |> in
  (foldl (sweep_item st epoch) s2 (dict_values (paused_items s2))) <| paused_items := [] |>.

Lemma interrupt_split e r f now s :
  (interrupt e r f now s).1 =
  let st := if r then INTERRUPTED_BY_RECONNECT else INTERRUPTED in
  let s1 := interrupt_active st e (r || f) now s in
  if r || f then sweep st e s1 else s1.
Proof. unfold interrupt, interrupt_active, sweep. cbv zeta. cbn [fst]. by destruct (r || f). Qed.

Lemma inv_interrupt_active st e g now s : sched_inv s → sched_inv (interrupt_active st e g now s).
Proof.
  intros Hi. unfold interrupt_active. destruct (active s) as [a|]; [|done].
  apply inv_release, inv_emit. by apply (inv_shape s).
Qed.

Lemma sweep_shape st e s : shape (sweep st e s) = ([], [], active s).
Proof.
  unfold sweep. cbv zeta.
  pose proof (fold_shape (sweep_item st e) (all_queued_items s) (s <| discarded := true |>) (sweep_item_shape st e)) as H1.
  set (s1 := foldl (sweep_item st e) (s <| discarded := true |>) (all_queued_items s)) in *. clearbody s1.
  set (s2 := s1 <| queues := [] |> <| flights ::= filter (λ f, is_advancing f = false) |>).
  assert (shape s2 = ([], paused_items s1, active s1)) as H2 by done. clearbody s2.
  pose proof (fold_shape (sweep_item st e) (dict_values (paused_items s2)) s2 (sweep_item_shape st e)) as H3.
  set (s3 := foldl (sweep_item st e) s2 _) in *. clearbody s3. unfold shape in *. simpl in *. congruence.
Qed.

Lemma sweep_fields st e s :
  queues (sweep st e s) = [] ∧ paused_items (sweep st e s) = [] ∧ active (sweep st e s) = active s.
Proof. pose proof (sweep_shape st e s) as Hs. unfold shape in Hs. split_and!; congruence. Qed.

Lemma inv_interrupt e r f now s : sched_inv s → sched_inv (interrupt e r f now s).1.
Proof.
  intros Hi. rewrite interrupt_split. cbv zeta.
  set (st := if r then _ else _). apply (inv_interrupt_active st e (r || f) now) in Hi.
  destruct (r || f); [|done]. set (s1 := interrupt_active _ _ _ _ _) in *. clearbody s1.
  destruct (sweep_fields st e s1) as (E1 & E2 & E3).
  split; rewrite ?E1, ?E2, ?E3; try apply dict_wf_nil; try done. apply Hi.
Qed.

Lemma inv_pause k now s : sched_inv s → sched_inv (pause k now s).
Proof.
  intros Hi. unfold pause. destruct (active s) as [a|] eqn:Ea; [|done]. case_decide as Hk; [|done].
  apply inv_release, inv_emit. unfold signal_stop. apply inv_log. destruct Hi. split; simpl; auto with dict.
  - intros k' i. rewrite dict_get_set. case_decide; [|auto]. intros [= <-]. subst. eauto.
Qed.

Lemma inv_resume t u s : sched_inv s → sched_inv (resume_speech t u s).1.
Proof.
  intros Hi. unfold resume_speech. cbv zeta.
  destruct (match paused _ s with Some i => Some i | None => _ end) as [i|]; [|done].
  set (s1 := if decide (dict_get _ _ = _) then _ else s).
  assert (sched_inv s1) as H1. { unfold s1. case_decide; [by apply inv_paused_pop | done]. }
  clearbody s1. case_decide; [by apply inv_log|].
  set (s2 := match paused _ s with Some _ => _ | None => s1 end).
  assert (sched_inv s2) as H2. { unfold s2. case_match; [by apply inv_emit | done]. }
  clearbody s2. pose proof (inv_enqueue (si_result_id i) (si_work_item_id i) (si_run_id i) (si_text i)
    (si_origin_epoch i) u (si_role i) (si_ack_id i) (si_turn_id i) s2 H2) as H3.
  destruct (enqueue _ _ _ _ _ _ _ _ _ s2) as [s3 [r|e]]; simpl in *; [by apply inv_emit | done].
Qed.

Lemma sexec_inv o s : sched_inv s → sched_inv (sexec o s).
Proof.
  intros Hi. destruct o; cbn [sexec]; auto using inv_enqueue, inv_start_next, inv_resume_flight, inv_interrupt,
    inv_pause, inv_resume, inv_cancel, inv_finished.
  - unfold provider_started. repeat case_match; try done; by apply (inv_shape s).
  - unfold provider_synthesis_ended, synthesis_ended. repeat case_match; simpl; try done. by apply inv_emit.
  - unfold provider_delivery_completed, delivery_completed. destruct (provider_item _ s) as [i|]; [|done]. simpl.
    by eapply inv_shape; [|apply inv_finished; exact Hi].
  - unfold provider_delivery_unknown, delivery_unknown. destruct (provider_item _ s) as [i|]; [|done]. simpl.
    by eapply inv_shape; [|apply inv_finished; exact Hi].
  - unfold synthesis_ended. case_match; [by apply inv_emit | done].
  - by apply inv_finished.
  - by apply inv_finished.
  - unfold discard_queued_ack. pose proof (inv_discard_queued ack_id
      (λ i, bool_decide (si_role i = ROLE_ACK) && bool_decide (si_ack_id i = Some ack_id)) s Hi) as H1.
    by destruct (discard_queued _ _ _).
  - unfold discard_queued_notice. pose proof (inv_discard_queued key
      (λ i, bool_decide (si_role i = ROLE_TIMEOUT_NOTICE)) s Hi) as H1.
    destruct (discard_queued _ _ _) as [s1 gone]. simpl in *.
    apply (inv_fold (λ s i, emit_progress i INTERRUPTED None false s)); [|done]. intros; by apply inv_emit.
  - by apply (inv_shape s).
  - by apply (inv_shape s).
Qed.

Lemma init_sched_inv w l : sched_inv (Scheduler_init w l : Scheduler W L).
Proof. split; simpl; try apply dict_wf_nil; done. Qed.

Lemma srun_inv os s : sched_inv s → sched_inv (srun os s).
Proof. revert s. induction os as [|o os IH]; intros s Hs; simpl; [done|]. by apply IH, sexec_inv. Qed.


(** ** Admission in queue order *)

Lemma queued_set_queue k k' q s : queued k' (set_queue k q s) = if decide (k = k') then q else queued k' s.
Proof.
  unfold queued, set_queue. destruct q as [|i q]; simpl; rewrite ?dict_get_pop, ?dict_get_set; by case_decide.
Qed.

Lemma drop_candidate_queue c r q k s :
  sched_inv s → queued k s = c :: q →
  (∀ k', queued k' (drop_candidate c r s) = if decide (k = k') then q else queued k' s) ∧
  slot (drop_candidate c r s) = slot s.
Proof.
  intros Hi Hq. destruct (queued_valid k s c Hi) as [Hw _]; [rewrite Hq; constructor|].
  assert (discard_from_queue c s = set_queue k q s) as E.
  { unfold discard_from_queue. rewrite Hw. unfold queued in Hq. destruct (dict_get k (queues s)) as [q'|]; simpl in Hq;
      [subst q'; by rewrite decide_True | done]. }
  unfold drop_candidate. rewrite E. split.
  - intros k'. rewrite <- queued_set_queue. case_decide; [done|]. unfold queued.
    by pose proof (emit_shape c DELIVERY_UNKNOWN None false (set_queue k q s)) as [= -> _ _].
  - case_decide; simpl; [by destruct q|]. unfold emit_progress. case_decide; by destruct q.
Qed.

Lemma scan_key_spec fuel k env s :
  sched_inv s → slot_occupied (slot s) = false → (length (queued k s) < fuel)%nat →
  let '(s', r) := scan_key fuel k env s in
  (∃ dropped, queued k s = dropped ++ queued k s') ∧
  (∀ k', k' ≠ k → queued k' s' = queued k' s) ∧
  match r with
  | Exhausted => queued k s' = [] ∧ slot s' = slot s
  | Busy => False
  | Chosen i t => head (queued k s') = Some i ∧ slot_occupied (slot s') = true
  end.
Proof.
  revert s. induction fuel as [|n IH]; intros s Hi Ho Hf; [lia|]. cbn [scan_key].
  destruct (queued k s) as [|c q] eqn:Eq; [by rewrite Eq; split; [exists []|]|].
  destruct (slot_admission (identity_of c) env (slot s)) as [l d] eqn:Ed.
  destruct d as [t|r|].
  - apply slot_admit in Ed as [_ Hl]. change (queued k (s <| slot := l |>)) with (queued k s). rewrite Eq.
    split; [by exists []|]. done.
  - apply slot_terminal in Ed as ->.
    assert (sched_inv (s <| slot := slot s |>)) as Hi1 by (by apply inv_slot).
    destruct (drop_candidate_queue c r q k (s <| slot := slot s |>) Hi1 Eq) as [Hq Hs].
    specialize (IH (drop_candidate c r (s <| slot := slot s |>))).
    rewrite Hs, Hq, decide_True in IH by done. destruct (scan_key n k env _) as [s' r'].
    destruct IH as ((dr & E) & Hother & Hr); [by apply inv_drop_candidate | done | simpl in Hf; lia |].
    split; [exists (c :: dr); simpl; by rewrite E|]. split; [|done].
    intros k' Hne. rewrite Hother, Hq, decide_False by done. done.
  - apply slot_busy in Ed. congruence.
Qed.

Lemma scan_keys_spec ks env s :
  sched_inv s → slot_occupied (slot s) = false →
  let '(s', r) := scan_keys ks env s in
  (∀ k, ∃ dropped, queued k s = dropped ++ queued k s') ∧
  match r with
  | Exhausted => ∀ k, k ∈ ks → queued k s' = []
  | Busy => False
  | Chosen i t => (∃ k, k ∈ ks ∧ head (queued k s') = Some i) ∧ slot_occupied (slot s') = true
  end.
Proof.
  revert s. induction ks as [|k ks IH]; intros s Hi Ho; cbn [scan_keys].
  { split; [by exists [] | set_solver]. }
  pose proof (scan_key_spec (S (length (queued k s))) k env s Hi Ho (Nat.lt_succ_diag_r _)) as Hs.
  pose proof (inv_scan_key (S (length (queued k s))) k env s Hi) as Hi1.
  destruct (scan_key _ k env s) as [s1 r]. destruct Hs as ((dr & E) & Hother & Hr). simpl in Hi1.
  assert (∀ k', ∃ dropped, queued k' s = dropped ++ queued k' s1) as Hd.
  { intros k'. destruct (decide (k' = k)) as [->|Hne]; [eauto|]. exists []. by rewrite Hother. }
  destruct r as [| |i t]; [|done|].
  - destruct Hr as [Hk Hsl]. specialize (IH s1 Hi1). rewrite Hsl in IH. specialize (IH Ho).
    destruct (scan_keys ks env s1) as [s2 r2]. destruct IH as [Hd2 Hr2]. split.
    + intros k'. destruct (Hd k') as [d1 E1], (Hd2 k') as [d2 E2]. exists (d1 ++ d2). by rewrite E1, E2, app_assoc.
    + destruct r2 as [| |i t]; [|done|].
      * intros k' [->|Hk']%elem_of_cons; [|auto]. destruct (Hd2 k) as [d2 E2]. rewrite Hk in E2.
        symmetry in E2. by apply app_eq_nil in E2 as [_ ?].
      * destruct Hr2 as [(k' & ? & ?) ?]. split; [exists k'; split; [by constructor | done] | done].
  - split; [done|]. destruct Hr as [? ?]. split; [|done]. exists k. split; [constructor | done].
Qed.

(** ** Theorems *)

(** Admission keeps each queue first-in first-out and never stalls a free
    slot: from every reachable state, [start_next] does nothing while a lease
    is active or the slot is occupied; otherwise it either starts an item or
    leaves every requested queue empty.  In both cases each queue only loses a
    prefix, and a started item is the first one after the items of its queue
    that were terminal before admission. *)
Theorem start_next_in_order w l os k env now :
  let s := srun os (Scheduler_init w l : Scheduler W L) in
  let '(s', r) := start_next k env now s in
  if bool_decide (active s ≠ None) || slot_occupied (slot s) then s' = s ∧ r = None
  else match r with
       | Some i =>
           lease_item <$> active s' = Some i ∧
           (match k with Some k => si_work_item_id i = k | None => True end) ∧
           (∃ dropped, queued (si_work_item_id i) s = dropped ++ i :: queued (si_work_item_id i) s') ∧
           (∀ k', ∃ dropped, queued k' s = dropped ++ queued k' s')
       | None =>
           (∀ k', k' ∈ match k with Some k => [k] | None => dict_keys (queues s) end → queued k' s' = []) ∧
           (∀ k', ∃ dropped, queued k' s = dropped ++ queued k' s')
       end.
Proof.
  intros s. assert (sched_inv s) as Hi by apply srun_inv, init_sched_inv. clearbody s.
  unfold start_next. destruct (_ || _) eqn:Eg; [done|]. apply orb_false_iff in Eg as [_ Ho]. cbv zeta.
  set (ks := match k with Some k => _ | None => _ end).
  pose proof (scan_keys_spec ks env s Hi Ho) as Hs. pose proof (inv_scan_keys ks env s Hi) as Hi1.
  destruct (scan_keys ks env s) as [s1 [| |i t]]; destruct Hs as [Hd Hr]; [done | done |]. simpl in Hi1.
  destruct Hr as [(k0 & Hk0 & Hh) _]. destruct (queued_valid k0 s1 i Hi1) as [Hw _]; [by apply head_elem|].
  set (s2 := set_queue _ _ s1).
  assert (∀ k', queued k' (emit_progress i STARTED None false (s2 <| active := Some (mkLease i t) |>)) = queued k' s2) as Hq.
  { intros k'. unfold queued. by rewrite (proj1 (emit_fields _ _ _ _ _)). }
  assert (∀ k', queued k' s2 = if decide (k0 = k') then tail (queued k0 s1) else queued k' s1) as Hq2.
  { intros k'. unfold s2. by rewrite queued_set_queue, Hw. }
  assert (queued k0 s1 = i :: tail (queued k0 s1)) as Ehd by (destruct (queued k0 s1); simpl in *; [done | congruence]).
  assert (∀ k', ∃ dropped, queued k' s = dropped ++ queued k' s2) as Hall.
  { intros k'. destruct (Hd k') as [dr E]. rewrite Hq2. case_decide; [|eauto]. subst k'.
    exists (dr ++ [i]). by rewrite E, Ehd at 1; rewrite <- app_assoc. }
  split_and!.
  - change (lease_item <$> active (emit_progress i STARTED None false (s2 <| active := Some (mkLease i t) |>)) = Some i).
    by rewrite (proj2 (proj2 (emit_fields _ _ _ _ _))).
  - destruct k as [k|]; [|done]. unfold ks in Hk0. apply list_elem_of_singleton in Hk0. congruence.
  - destruct (Hd k0) as [dr E]. exists dr. rewrite Hw. etransitivity; [exact E|]. f_equal.
    change (queued k0 s1 = i :: queued k0 (emit_progress i STARTED None false (s2 <| active := Some (mkLease i t) |>))).
    by rewrite Hq, Hq2, decide_True.
  - intros k'. destruct (Hall k') as [dr E]. exists dr. etransitivity; [exact E|]. f_equal. symmetry. apply Hq.
Qed.

End facts.
