(* ===== verification/SpeechAccounting.v ===== *)
(** No result utterance is ever dropped silently by the scheduler: the
    accounting invariant and the theorems that follow from it.

    An utterance is accounted for while its item is queued, paused or active,
    and afterwards by a terminal progress report for its utterance id.  The
    lemmas follow the scheduler's primitive moves: an item that leaves the
    queues is owed (the list [X]) until its terminal report is emitted. *)

From S2P Require Import Prelude PyDict Contracts SessionState SpeechLifecycle SpeechScheduler SpeechSchedulerFacts.

Section accounting.
Context {W L : Type} `{!ProgressSink W} `{!SpeechSlot L}.
(** Whether an utterance id belongs to an acknowledgement. *)
Context (is_ack_id : string → bool).
Implicit Types (s : Scheduler W L) (i : SpeechItem).

Definition is_ack (i : SpeechItem) : Prop := si_role i = ROLE_ACK.

Definition holds i s : Prop :=
  (∃ k, i ∈ queued k s) ∨ (∃ k, dict_get k (paused_items s) = Some i) ∨
  (∃ a, active s = Some a ∧ lease_item a = i).

Definition was_queued i s : Prop := ∃ o a, EProgress i QUEUED o a ∈ trace s.

(** A terminal report for the utterance id was emitted. *)
Definition closed_out (u : string) s : Prop :=
  ∃ i st o a, EProgress i st o a ∈ trace s ∧ si_utterance_id i = u ∧ delivery_terminal st = true.

Definition flight_item (f : flight) : option SpeechItem :=
  match f with Speaking i _ | Failing i _ => Some i | Advancing _ => None end.

Record acct (X : list SpeechItem) s : Prop := {
  ac_owed : ∀ i, ¬ is_ack i → was_queued i s → holds i s ∨ closed_out (si_utterance_id i) s ∨ i ∈ X;
  ac_wire : ∀ i st o a, EProgress i st o a ∈ trace s → ¬ is_ack i;
  ac_kind : ∀ i, holds i s → (is_ack i ↔ is_ack_id (si_utterance_id i) = true);
  ac_flight : ∀ f i, f ∈ flights s → flight_item f = Some i → (is_ack i ↔ is_ack_id (si_utterance_id i) = true);
  ac_failing : ∀ i t, Failing i t ∈ flights s → ¬ is_ack i → closed_out (si_utterance_id i) s
}.

Lemma acct_subset X Y s : (∀ i, i ∈ X → ¬ is_ack i → i ∈ Y) → acct X s → acct Y s.
Proof. intros Hsub []. split; try done. intros i Hi Hq. destruct (ac_owed0 i Hi Hq) as [?|[?|?]]; auto. Qed.

(** A change of the shape only: what is no longer held is owed. *)
Lemma acct_move Y X s s' :
  trace s' = trace s → flights s' = flights s →
  (∀ i, holds i s → holds i s' ∨ i ∈ Y ∨ closed_out (si_utterance_id i) s) →
  (∀ i, holds i s' → holds i s) →
  acct X s → acct (Y ++ X) s'.
Proof.
  intros Et Ef Hh Hh' []. unfold closed_out, was_queued in *.
  split; unfold closed_out, was_queued; rewrite ?Et, ?Ef; eauto.
  intros i Hi Hq. rewrite elem_of_app. destruct (ac_owed0 i Hi Hq) as [?|[?|?]]; [|by eauto..].
  destruct (Hh i) as [?|[?|?]]; auto.
Qed.

Lemma acct_keep X s s' :
  trace s' = trace s → flights s' = flights s → shape s' = shape s → acct X s → acct X s'.
Proof.
  intros Et Ef [= E1 E2 E3]. apply (acct_move []); [done | done | |]; unfold holds, queued;
    rewrite E1, E2, E3; auto.
Qed.

Lemma closed_log u e s : closed_out u s → closed_out u (log_event e s).
Proof. intros (i & st & o & a & Hin & H1 & H2). exists i, st, o, a. split; [|done]. apply elem_of_app. by left. Qed.

Lemma acct_log e X s : (∀ i st o a, e ≠ EProgress i st o a) → acct X s → acct X (log_event e s).
Proof.
  intros He []. split.
  - intros i Hi (o & a & [Hin|Hin%list_elem_of_singleton]%elem_of_app); [|by edestruct He].
    destruct (ac_owed0 i Hi) as [?|[?|?]]; [by exists o, a | by left | right; left; by apply closed_log | auto].
  - intros i st o a [Hin|Hin%list_elem_of_singleton]%elem_of_app; [eauto|]. by edestruct He.
  - exact ac_kind0.
  - exact ac_flight0.
  - intros i t Hin Hi. apply closed_log. eauto.
Qed.

Lemma acct_emit i st e a X s :
  (st = QUEUED → ¬ is_ack i → holds i s) → acct X s → acct X (emit_progress i st e a s).
Proof.
  intros Hq Ha. unfold emit_progress. destruct (decide (si_role i = ROLE_ACK)) as [|Hn]; [done|]. cbv zeta.
  set (s1 := s <| sink := _ |>). assert (acct X s1) as H1 by (by apply (acct_keep X s)).
  assert (∀ j, holds j s → holds j s1) as Hh by done. clearbody s1. destruct H1. split.
  - intros j Hj (o & b & [Hin|Hin%list_elem_of_singleton]%elem_of_app).
    + destruct (ac_owed0 j Hj) as [?|[?|?]]; [by exists o, b | by left | right; left; by apply closed_log | auto].
    + simplify_eq. left. apply Hh. auto.
  - intros j st' o b [Hin|Hin%list_elem_of_singleton]%elem_of_app; [eauto|]. by simplify_eq.
  - exact ac_kind0.
  - exact ac_flight0.
  - intros j t Hin Hj. apply closed_log. eauto.
Qed.

Lemma emit_closes i st e a s :
  delivery_terminal st = true → ¬ is_ack i → closed_out (si_utterance_id i) (emit_progress i st e a s).
Proof.
  intros Ht Hi. unfold emit_progress. rewrite decide_False by done. eexists i, st, _, a. split; [|done].
  apply elem_of_app. right. constructor.
Qed.

(** A terminal report pays what is owed. *)
Lemma acct_settle i st e a X s :
  delivery_terminal st = true → acct (i :: X) s → acct X (emit_progress i st e a s).
Proof.
  intros Ht Ha. assert (acct (i :: X) (emit_progress i st e a s)) as H1.
  { apply acct_emit; [|done]. intros ->. done. }
  destruct H1. split; try done. intros j Hj Hq. destruct (ac_owed0 j Hj Hq) as [?|[?|Hin]]; [auto..|].
  apply elem_of_cons in Hin as [->|?]; [|auto]. right. left. by apply emit_closes.
Qed.

Lemma acct_notify r i X s : acct X s → acct X (notify_ack_swept r i s).
Proof. unfold notify_ack_swept. case_decide; [by apply acct_log | done]. Qed.

Lemma acct_cancel_item i X s : acct (i :: X) s → acct X (cancel_item s i).
Proof. intros Ha. apply acct_notify. by apply acct_settle. Qed.

Lemma acct_cancel_items l X s : acct (l ++ X) s → acct X (foldl cancel_item s l).
Proof. revert s. induction l as [|i l IH]; intros s; simpl; [done|]. intros Ha. by apply IH, acct_cancel_item. Qed.

(** ** How the primitives change what is held *)

Lemma set_queue_fields k q s :
  trace (set_queue k q s) = trace s ∧ flights (set_queue k q s) = flights s ∧
  paused_items (set_queue k q s) = paused_items s ∧ active (set_queue k q s) = active s.
Proof. by destruct q. Qed.

(** Replacing a queue by a part of it: the rest is owed. *)
Lemma acct_set_queue k q Y X s :
  (∀ i, i ∈ queued k s → i ∈ q ∨ i ∈ Y) → (∀ i, i ∈ q → i ∈ queued k s) →
  acct X s → acct (Y ++ X) (set_queue k q s).
Proof.
  intros H1 H2. destruct (set_queue_fields k q s) as (E1 & E2 & E3 & E4). apply acct_move; [done | done | |].
  - intros i [[k' Hi]|[?|?]]; [|left; right; rewrite E3, E4; auto..].
    destruct (decide (k = k')) as [->|Hne].
    + destruct (H1 i Hi); [left; left; exists k'; by rewrite queued_set_queue, decide_True | auto].
    + left. left. exists k'. by rewrite queued_set_queue, decide_False.
  - intros i. unfold holds. rewrite E3, E4. intros [[k' Hi]|?]; [left|by right].
    rewrite queued_set_queue in Hi. case_decide; [subst|]; eauto.
Qed.

Lemma acct_pop_queue k X s : acct X s → acct (queued k s ++ X) (s <| queues ::= dict_pop k |>).
Proof. apply (acct_set_queue k []); set_solver. Qed.

Lemma acct_pop_paused k i X s :
  dict_get k (paused_items s) = Some i → acct X s → acct (i :: X) (s <| paused_items ::= dict_pop k |>).
Proof.
  intros Hk. apply (acct_move [i]); [done | done | |].
  - intros j [?|[[k' Hj]|?]]; [left; by left | | left; right; by right].
    destruct (decide (k = k')) as [->|Hne]; [right; left; simplify_eq; set_solver|].
    left. right. left. exists k'. simpl. by rewrite dict_get_pop_ne.
  - intros j [?|[[k' Hj]|?]]; [by left | | by right; right].
    right. left. exists k'. simpl in Hj. rewrite dict_get_pop in Hj. by case_decide.
Qed.

(** Releasing the lease of an utterance that is closed out or held elsewhere. *)
Lemma acct_release u X s :
  (∀ a, active s = Some a → si_utterance_id (lease_item a) = u → ¬ is_ack (lease_item a) →
     closed_out u s ∨ ∃ k, dict_get k (paused_items s) = Some (lease_item a)) →
  acct X s → acct X (release_lease u s).
Proof.
  intros Hr Ha. unfold release_lease. destruct (active s) as [a|] eqn:E; [|done].
  case_decide as Hu; [|done].
  assert (acct ((if decide (is_ack (lease_item a)) then [lease_item a] else []) ++ X)
    (s <| provider_contexts ::= filter (λ p, p.2 ≠ lease_token a) |> <| active := None |>)) as H1.
  { apply (acct_move _ X s); [done | done | | |done].
    - intros i [?|[?|(b & Hb & <-)]]; [left; by left | left; right; by left|].
      rewrite E in Hb. simplify_eq. destruct (decide (is_ack (lease_item b))) as [|Hn]; [right; left; set_solver|].
      destruct (Hr b eq_refl eq_refl Hn) as [?|?]; [by right; right | left; right; by left].
    - intros i [?|[?|(b & Hb & _)]]; [by left | by right; left | done]. }
  eapply acct_subset; [|exact H1]. intros i Hin Hn. apply elem_of_app in Hin as [Hin|?]; [|done].
  case_decide; [|set_solver]. apply list_elem_of_singleton in Hin. by subst.
Qed.

(** Report and release the active lease. *)
Lemma acct_finish_active a st e al X s :
  active s = Some a → delivery_terminal st = true → acct X s →
  acct X (release_lease (si_utterance_id (lease_item a)) (emit_progress (lease_item a) st e al s)).
Proof.
  intros E Ht Ha. apply acct_release; [|apply acct_emit; [by intros ->|done]].
  intros b Hb Hu Hn. pose proof (emit_shape (lease_item a) st e al s) as [= _ _ Es].
  rewrite Es, E in Hb. simplify_eq. left. by apply emit_closes.
Qed.

Lemma tail_elem {A} (l : list A) x : x ∈ tail l → x ∈ l.
Proof. destruct l; [done|]. by constructor. Qed.

Definition kind_ok i : Prop := is_ack i ↔ is_ack_id (si_utterance_id i) = true.

(** More is held. *)
Lemma acct_grow X s s' :
  trace s' = trace s → flights s' = flights s →
  (∀ i, holds i s → holds i s') → (∀ i, holds i s' → holds i s ∨ kind_ok i) → acct X s → acct X s'.
Proof.
  intros Et Ef Hh Hh' []. unfold closed_out, was_queued in *.
  split; unfold closed_out, was_queued; rewrite ?Et, ?Ef; eauto.
  - intros i Hi Hq. destruct (ac_owed0 i Hi Hq) as [?|[?|?]]; auto.
  - intros i [?|?]%Hh'; [eauto | done].
Qed.

(** The suspended calls change. *)
Lemma acct_flights X fs s :
  (∀ f, f ∈ fs → f ∈ flights s ∨
     ∃ i, flight_item f = Some i ∧ kind_ok i ∧
       match f with Failing _ _ => ¬ is_ack i → closed_out (si_utterance_id i) s | _ => True end ∨ flight_item f = None) →
  acct X s → acct X (s <| flights := fs |>).
Proof.
  intros Hf []. split; try done; simpl.
  - intros f i Hin Hi. destruct (Hf f Hin) as [?|(j & [(Hj & Hk & _)|Hj])]; [eauto | by simplify_eq | congruence].
  - intros i t Hin Hn. destruct (Hf _ Hin) as [?|(j & [(Hj & _ & Hc)|Hj])]; [by eauto | | done].
    simpl in Hj. simplify_eq. auto.
Qed.

Lemma acct_enqueue r w n t e u ro a ti X s :
  (ro = ROLE_ACK ↔ is_ack_id u = true) → acct X s → acct X (enqueue r w n t e u ro a ti s).1.
Proof.
  intros Hk Ha. destruct (enqueue_cases r w n t e u ro a ti s) as [[x ->]|(i & _ & Hw & Hu & Hr & _ & ->)]; [done|].
  cbn [fst]. set (s1 := s <| queues := dict_set w (queued w s ++ [i]) (queues s) |>).
  assert (∀ k', queued k' s1 = if decide (w = k') then queued w s ++ [i] else queued k' s) as Hq.
  { intros k'. unfold s1, queued at 1. simpl. rewrite dict_get_set. by case_decide. }
  assert (acct X s1) as H1.
  { apply (acct_grow X s); [done | done | | |done].
    - intros j [[k' Hj]|?]; [left|by right]. exists k'. rewrite Hq. case_decide; [subst; set_solver | done].
    - intros j [[k' Hj]|?]; [|left; by right]. rewrite Hq in Hj. case_decide; [|left; left; eauto].
      apply elem_of_app in Hj as [Hj| ->%list_elem_of_singleton]; [left; left; eauto|].
      right. unfold kind_ok, is_ack. by rewrite Hu, Hr. }
  assert (holds i s1) as Hi.
  { left. exists w. rewrite Hq, decide_True by done. set_solver. }
  apply acct_emit; [|by apply acct_emit]. intros _ _.
  pose proof (emit_shape i DISPLAYED None false s1) as [= E1 E2 E3]. unfold holds, queued in *. by rewrite E1, E2, E3.
Qed.

Lemma acct_discard_queued k m X s :
  acct X s → acct ((discard_queued k m s).2 ++ X) (discard_queued k m s).1.
Proof.
  intros Ha. unfold discard_queued. destruct (filter (λ i, m i = true) (queued k s)) as [|j gone] eqn:E; [done|].
  rewrite <- E. cbn [fst snd]. apply acct_set_queue; [| |done].
  - intros i Hi. destruct (m i) eqn:Em; [right | left]; apply list_elem_of_filter; done.
  - intros i [_ Hi]%list_elem_of_filter. done.
Qed.

Lemma discard_queued_match k m s i : i ∈ (discard_queued k m s).2 → m i = true.
Proof.
  unfold discard_queued. destruct (filter (λ i, m i = true) (queued k s)) as [|j gone] eqn:E; [set_solver|].
  rewrite <- E. cbn [snd]. by intros [? _]%list_elem_of_filter.
Qed.

Lemma acct_drop_candidate c r q k X s :
  sched_inv s → queued k s = c :: q → acct X s → acct X (drop_candidate c r s).
Proof.
  intros Hi Hq Ha. destruct (queued_valid k s c Hi) as [Hw _]; [rewrite Hq; constructor|].
  assert (acct (c :: X) (discard_from_queue c s)) as H1.
  { unfold discard_from_queue. rewrite Hw. unfold queued in Hq.
    destruct (dict_get k (queues s)) as [q'|] eqn:E; simpl in Hq; [subst q' | done].
    rewrite decide_True by done. apply (acct_set_queue k q [c]); [| |done]; unfold queued; rewrite E; set_solver. }
  unfold drop_candidate. case_decide as Hr; [|by apply acct_settle].
  apply acct_log; [done|]. eapply acct_subset; [|exact H1].
  intros i [->|?]%elem_of_cons Hn; [by destruct Hn | done].
Qed.

Lemma drop_candidate_active c r s : active (drop_candidate c r s) = active s.
Proof.
  assert (active (discard_from_queue c s) = active s) as E.
  { unfold discard_from_queue. repeat case_match; try done. apply set_queue_fields. }
  unfold drop_candidate. case_decide; [done|]. rewrite <- E.
  by pose proof (emit_shape c DELIVERY_UNKNOWN None false (discard_from_queue c s)) as [= _ _ ->].
Qed.

Lemma acct_scan_key fuel k env X s : sched_inv s → acct X s →
  acct X (scan_key fuel k env s).1 ∧ active (scan_key fuel k env s).1 = active s.
Proof.
  revert s. induction fuel as [|n IH]; intros s Hi Ha; cbn [scan_key]; [done|].
  destruct (queued k s) as [|c q] eqn:Eq; [done|]. destruct (slot_admission _ _ _) as [l d].
  assert (sched_inv (s <| slot := l |>)) as Hi1 by (by apply inv_slot).
  assert (acct X (s <| slot := l |>)) as Ha1 by (by apply (acct_keep X s)).
  destruct d as [t|r|]; [done | | done].
  destruct (IH (drop_candidate c r (s <| slot := l |>))) as [H1 H2].
  - by apply inv_drop_candidate.
  - by eapply acct_drop_candidate.
  - split; [done|]. by rewrite H2, drop_candidate_active.
Qed.

Lemma acct_scan_keys ks env X s : sched_inv s → acct X s →
  acct X (scan_keys ks env s).1 ∧ active (scan_keys ks env s).1 = active s.
Proof.
  revert s. induction ks as [|k ks IH]; intros s Hi Ha; cbn [scan_keys]; [done|].
  pose proof (inv_scan_key (S (length (queued k s))) k env s Hi) as Hi1.
  destruct (acct_scan_key (S (length (queued k s))) k env X s Hi Ha) as [H1 H2].
  destruct (scan_key _ k env s) as [s1 []]; try done. simpl in *. rewrite <- H2. by apply IH.
Qed.

Lemma acct_start_next k env now X s : sched_inv s → acct X s → acct X (start_next k env now s).1.
Proof.
  intros Hi Ha. unfold start_next. destruct (_ || _) eqn:Eg; [done|]. cbv zeta.
  apply orb_false_iff in Eg as [Eg%bool_decide_eq_false _].
  set (ks := match k with Some k => _ | None => _ end).
  pose proof (inv_scan_keys ks env s Hi) as Hi1. pose proof (scan_keys_head ks env s) as Hh.
  destruct (acct_scan_keys ks env X s Hi Ha) as [H1 H2].
  destruct (scan_keys ks env s) as [s1 [| |i t]]; [done..|]. simpl in Hi1, H1, H2. cbn [fst].
  destruct (Hh s1 i t eq_refl) as (k' & _ & Hq). apply head_elem in Hq as Hq'.
  destruct (queued_valid _ _ _ Hi1 Hq') as [Hw _].
  assert (active s1 = None) as En. { rewrite H2. destruct (active s); [by destruct Eg | done]. }
  set (s2 := set_queue _ _ s1).
  assert (acct X (s2 <| active := Some (mkLease i t) |>)) as H3.
  { destruct (set_queue_fields (si_work_item_id i) (tail (queued (si_work_item_id i) s1)) s1) as (E1 & E2 & E3 & _).
    fold s2 in E1, E2, E3. apply (acct_grow X s1); [done | done | | |done].
    - intros j [[k2 Hj]|[[k2 Hj]|(a & Hj & _)]]; [| |congruence].
      + destruct (decide (si_work_item_id i = k2)) as [<-|Hne].
        * rewrite Hw in Hj. destruct (queued k' s1) as [|j0 q] eqn:Ek; [set_solver|]. simpl in Hq. simplify_eq.
          apply elem_of_cons in Hj as [->|Hj]; [right; right; by eexists|].
          left. exists (si_work_item_id i). change (j ∈ queued (si_work_item_id i) s2). unfold s2.
          by rewrite queued_set_queue, decide_True, Ek by done.
        * left. exists k2. change (j ∈ queued k2 s2). unfold s2. by rewrite queued_set_queue, decide_False.
      + right. left. exists k2. simpl. by rewrite E3.
    - intros j [[k2 Hj]|[[k2 Hj]|(a & Hj & <-)]].
      + left. left. change (j ∈ queued k2 s2) in Hj. unfold s2 in Hj. rewrite queued_set_queue in Hj.
        case_decide; [|eauto]. exists (si_work_item_id i). by apply tail_elem.
      + left. right. left. exists k2. simpl in Hj. by rewrite E3 in Hj.
      + left. left. simpl in Hj. simplify_eq. eauto. }
  assert (kind_ok i) as Hki by (apply (ac_kind _ _ H1); left; eauto).
  clearbody s2. set (s3 := s2 <| active := Some (mkLease i t) |>) in *. clearbody s3.
  apply (acct_emit i STARTED None false) in H3; [|done].
  set (s4 := emit_progress i STARTED None false s3) in *. clearbody s4.
  assert (acct X (log_event (ESpeak i) (s4 <| slot ::= slot_handed t now |>))) as H5.
  { apply acct_log; [done|]. by apply (acct_keep X s4). }
  set (s5 := log_event _ _) in *. clearbody s5.
  apply (acct_flights X (flights s5 ++ [Speaking i t])); [|done].
  intros f [?| ->%list_elem_of_singleton]%elem_of_app; [by left|]. right. exists i. left. done.
Qed.


Lemma closed_keep u s s' : trace s' = trace s → closed_out u s → closed_out u s'.
Proof. unfold closed_out. by intros ->. Qed.

Lemma acct_delete_flight n X s : acct X s → acct X (s <| flights ::= list_delete n |>).
Proof.
  intros Ha. apply (acct_flights X (list_delete n (flights s))); [|done]. intros f Hf. left.
  eapply elem_of_submseteq; [exact Hf|]. apply sublist_submseteq. apply sublist_delete.
Qed.

Lemma acct_resume_flight n o env now s :
  sched_inv s → acct [] s → acct [] (resume_flight n o env now s).
Proof.
  intros Hi Ha. unfold resume_flight. destruct (flights s !! n) as [f|] eqn:Ef; [|done]. cbv zeta.
  apply list_elem_of_lookup_2 in Ef.
  assert (sched_inv (s <| flights ::= list_delete n |>)) as Hi1 by (by apply (inv_shape s)).
  pose proof (acct_delete_flight n [] s Ha) as H1.
  destruct f as [k|i t|i t].
  - unfold run_advance. destruct (head _); [by apply acct_start_next | done].
  - destruct o; [done|]. pose proof (ac_flight _ _ Ha _ i Ef eq_refl) as Hk.
    apply (acct_emit i DELIVERY_UNKNOWN None false) in H1; [|done].
    pose proof (emit_closes i DELIVERY_UNKNOWN None false (s <| flights ::= list_delete n |>) eq_refl) as Hc.
    set (s2 := emit_progress i DELIVERY_UNKNOWN None false (s <| flights ::= list_delete n |>)) in *. clearbody s2.
    apply (acct_flights [] (flights s2 ++ [Failing i t]) (s2 <| slot ::= slot_provider_error t |>)).
    + intros f [?| ->%list_elem_of_singleton]%elem_of_app; [by left|]. right. exists i. by left.
    + by apply (acct_keep [] s2).
  - pose proof (ac_flight _ _ Ha _ i Ef eq_refl) as Hk. pose proof (ac_failing _ _ Ha i t Ef) as Hc.
    set (s2 := (s <| flights ::= list_delete n |>) <| slot ::= slot_release t false DD_DELIVERY_UNKNOWN |>).
    assert (acct [] (release_lease (si_utterance_id i) s2)) as H2.
    { apply acct_release; [|by apply (acct_keep [] (s <| flights ::= list_delete n |>))].
      intros a Ea Eu Hn. left. apply (closed_keep _ s); [done|]. apply Hc. intros Hia. apply Hn.
      apply (ac_kind _ _ Ha); [right; right; by exists a|]. rewrite Eu. by apply Hk. }
    clearbody s2. unfold schedule_queue_advance. destruct (discarded _); [done|].
    set (s3 := release_lease _ s2) in *. clearbody s3.
    apply (acct_flights [] (flights s3 ++ [Advancing (si_work_item_id i)])); [|done].
    intros f [?| ->%list_elem_of_singleton]%elem_of_app; [by left|]. right. exists i. by right.
Qed.

Lemma acct_finished st d u X s :
  delivery_terminal st = true → acct X s → acct X (delivery_finished st d u s).
Proof.
  intros Ht Ha. unfold delivery_finished, active_item. destruct (active s) as [a|] eqn:Ea; [|done].
  case_decide as Hu; [|done]. subst u.
  pose proof (acct_emit (lease_item a) st None false X s) as H1.
  pose proof (emit_shape (lease_item a) st None false s) as [= _ _ E3].
  pose proof (emit_closes (lease_item a) st None false s Ht) as Hc.
  set (s1 := emit_progress _ _ _ _ s) in *.
  apply acct_release; [|apply (acct_keep X s1); [done..|]; apply H1; [by intros ->|done]].
  simpl. intros b Hb Hu Hn. left. apply (closed_keep _ s1); [done|]. apply Hc.
  rewrite E3, Ea in Hb. by simplify_eq.
Qed.

Lemma acct_interrupt_active st e g now X s :
  delivery_terminal st = true → acct X s → acct X (interrupt_active st e g now s).
Proof.
  intros Ht Ha. unfold interrupt_active. destruct (active s) as [a|] eqn:Ea; [|done].
  apply acct_finish_active; [done | done |]. apply acct_log; [done|]. by apply (acct_keep X s).
Qed.

Lemma acct_cancel_active k now X s : acct X s → acct X (cancel_active k now s).1.
Proof.
  intros Ha. unfold cancel_active. destruct (active s) as [a|] eqn:Ea; [|done]. case_decide; [|done].
  apply acct_finish_active; [done | done |]. apply acct_log; [done|]. by apply (acct_keep X s).
Qed.

Lemma acct_cancel_queue X s k : acct X s → acct X (cancel_queue s k).
Proof. intros Ha. unfold cancel_queue. cbv zeta. apply acct_cancel_items. by apply acct_pop_queue. Qed.

Lemma acct_cancel_paused X s k : acct X s → acct X (cancel_paused s k).
Proof.
  intros Ha. unfold cancel_paused. destruct (dict_get k (paused_items s)) eqn:E; [|done].
  apply acct_cancel_item. by apply acct_pop_paused.
Qed.

Lemma acct_fold {A} (f : Scheduler W L → A → Scheduler W L) l X s :
  (∀ s a, acct X s → acct X (f s a)) → acct X s → acct X (foldl f s l).
Proof. intros Hf. revert s. induction l as [|a l IH]; intros s Hs; simpl; auto. Qed.

Lemma acct_cancel k now X s : acct X s → acct X (cancel k now s).1.
Proof.
  intros Ha%(acct_cancel_active k now). unfold cancel. destruct (cancel_active k now s) as [s1 first]. cbn [fst].
  apply acct_fold; [apply acct_cancel_paused|]. apply acct_fold; [apply acct_cancel_queue | done].
Qed.

(** The sweep reports every item before it forgets it. *)
Lemma acct_sweep_item st e X s i : delivery_terminal st = true → acct X s → acct X (sweep_item st e s i).
Proof. intros Ht Ha. apply acct_notify, acct_emit; [|done]. by intros ->. Qed.

Lemma emit_keeps_closed u i st e a s : closed_out u s → closed_out u (emit_progress i st e a s).
Proof.
  intros Hc. unfold emit_progress. case_decide; [done|]. cbv zeta. apply closed_log. by eapply closed_keep.
Qed.

Lemma notify_keeps_closed u r i s : closed_out u s → closed_out u (notify_ack_swept r i s).
Proof. intros Hc. unfold notify_ack_swept. case_decide; [by apply closed_log | done]. Qed.

Lemma sweep_items_close st e l s : delivery_terminal st = true →
  (∀ u, closed_out u s → closed_out u (foldl (sweep_item st e) s l)) ∧
  (∀ i, i ∈ l → ¬ is_ack i → closed_out (si_utterance_id i) (foldl (sweep_item st e) s l)).
Proof.
  intros Ht. revert s. induction l as [|j l IH]; intros s; simpl; [split; [done | set_solver]|].
  destruct (IH (sweep_item st e s j)) as [H1 H2]. split.
  - intros u Hu. apply H1. by apply notify_keeps_closed, emit_keeps_closed.
  - intros i [->|Hi]%elem_of_cons Hn; [|auto]. apply H1, notify_keeps_closed. by apply emit_closes.
Qed.

Lemma all_queued_elem s i k : i ∈ queued k s → i ∈ all_queued_items s.
Proof.
  unfold queued, all_queued_items, dict_values. destruct (dict_get k (queues s)) as [q|] eqn:E; [|set_solver].
  simpl. intros Hi. apply list_elem_of_In, in_concat. exists q. rewrite <- !list_elem_of_In. split; [|done].
  apply list_elem_of_fmap. exists (k, q). split; [done | by apply dict_get_elem].
Qed.

Lemma paused_value s i k : dict_get k (paused_items s) = Some i → i ∈ dict_values (paused_items s).
Proof. intros Hk. apply list_elem_of_fmap. exists (k, i). split; [done | by apply dict_get_elem]. Qed.

Lemma acct_sweep st e X s : delivery_terminal st = true → acct X s → acct X (sweep st e s).
Proof.
  intros Ht Ha. unfold sweep. cbv zeta.
  assert (acct X (s <| discarded := true |>)) as H0 by (by apply (acct_keep X s)).
  set (s0 := s <| discarded := true |>) in *.
  destruct (sweep_items_close st e (all_queued_items s) s0 Ht) as [_ Hc].
  pose proof (fold_shape (sweep_item st e) (all_queued_items s) s0 (sweep_item_shape st e)) as [= E1 E2 E3].
  assert (acct X (foldl (sweep_item st e) s0 (all_queued_items s))) as H1
    by (apply acct_fold; [intros; by apply acct_sweep_item | done]).
  set (s1 := foldl (sweep_item st e) s0 (all_queued_items s)) in *. clearbody s1.
  assert (acct X (s1 <| queues := [] |> <| flights ::= filter (λ f, is_advancing f = false) |>)) as H2.
  { apply (acct_flights X _ (s1 <| queues := [] |>)); [intros f [_ ?]%list_elem_of_filter; by left|].
    assert (acct (filter is_ack (all_queued_items s) ++ X) (s1 <| queues := [] |>)) as H2.
    { apply (acct_move _ X s1); [done | done | | |done].
      - intros i [[k Hi]|?]; [|left; by right]. assert (i ∈ all_queued_items s) as Hin.
        { apply (all_queued_elem _ _ k). unfold queued in *. rewrite E1 in Hi. exact Hi. }
        right. destruct (decide (is_ack i)); [left; by apply list_elem_of_filter | right; by apply Hc].
      - intros i [[k Hi]|?]; [by apply not_elem_of_nil in Hi | by right]. }
    eapply acct_subset; [|exact H2]. intros i [[? _]%list_elem_of_filter|?]%elem_of_app Hn; done. }
  set (s2 := s1 <| queues := [] |> <| flights ::= filter (λ f, is_advancing f = false) |>) in *. clearbody s2.
  destruct (sweep_items_close st e (dict_values (paused_items s2)) s2 Ht) as [_ Hc2].
  pose proof (fold_shape (sweep_item st e) (dict_values (paused_items s2)) s2 (sweep_item_shape st e)) as [= F1 F2 F3].
  assert (acct X (foldl (sweep_item st e) s2 (dict_values (paused_items s2)))) as H3
    by (apply acct_fold; [intros; by apply acct_sweep_item | done]).
  set (s3 := foldl (sweep_item st e) s2 _) in *. clearbody s3.
  assert (acct (filter is_ack (dict_values (paused_items s2)) ++ X) (s3 <| paused_items := [] |>)) as H4.
  { apply (acct_move _ X s3); [done | done | | |done].
    - intros i [?|[[k Hi]|?]]; [left; by left | | left; by right; right].
      rewrite F2 in Hi. apply paused_value in Hi.
      right. destruct (decide (is_ack i)); [left; by apply list_elem_of_filter | right; by apply Hc2].
    - intros i [?|[[k Hi]|?]]; [by left | done | by right; right]. }
  eapply acct_subset; [|exact H4]. intros i [[? _]%list_elem_of_filter|?]%elem_of_app Hn; done.
Qed.


Lemma acct_interrupt e r f now X s : acct X s → acct X (interrupt e r f now s).1.
Proof.
  intros Ha. rewrite interrupt_split. cbv zeta.
  assert (delivery_terminal (if r then INTERRUPTED_BY_RECONNECT else INTERRUPTED) = true) as Ht by (by destruct r).
  apply (acct_interrupt_active _ e (r || f) now X s Ht) in Ha. destruct (r || f); [by apply acct_sweep | done].
Qed.

(** [pause] keeps the item, provided nothing is paused under its key yet. *)
Lemma acct_pause k now X s :
  (∀ a, active s = Some a → si_work_item_id (lease_item a) = k → dict_get k (paused_items s) = None) →
  acct X s → acct X (pause k now s).
Proof.
  intros Hp Ha. unfold pause. destruct (active s) as [a|] eqn:Ea; [|done]. case_decide as Hk; [|done].
  specialize (Hp a eq_refl Hk). cbv zeta. unfold signal_stop.
  match goal with |- context [log_event (EStop _) ?x] => set (s1 := x) end.
  assert (acct X s1) as H1.
  { apply (acct_grow X s); [done | done | | |done].
    - intros i [?|[[k' Hi]|?]]; [by left | | by right; right]. right. left. exists k'. simpl.
      rewrite dict_get_set_ne; [done|]. intros ->. congruence.
    - intros i [?|[[k' Hi]|?]]; [left; by left | | left; by right; right]. simpl in Hi. rewrite dict_get_set in Hi.
      case_decide; [|left; right; left; eauto]. simplify_eq. left. right. right. eauto. }
  assert (active s1 = Some a ∧ dict_get k (paused_items s1) = Some (lease_item a)) as [E1 E2].
  { split; [done|]. simpl. apply dict_get_set_eq. }
  clearbody s1. apply (acct_log (EStop (lease_item a))) in H1; [|done].
  set (s2 := log_event _ s1) in *. assert (paused_items s2 = paused_items s1 ∧ active s2 = active s1) as [F2 F3] by done. clearbody s2.
  pose proof (emit_shape (lease_item a) PAUSED None false s2) as [= G1 G2 G3].
  apply acct_release; [|by apply (acct_emit (lease_item a) PAUSED None false)].
  intros b Hb _ _. right. exists k. rewrite G2, F2. congruence.
Qed.

Lemma acct_resume t u X s :
  sched_inv s → is_ack_id u = false → acct X s → acct X (resume_speech t u s).1.
Proof.
  intros Hi Hu Ha. unfold resume_speech. cbv zeta.
  set (key := match t with TNone => None | TKey k => Some k | TItem i => Some (si_work_item_id i) end).
  set (item := match paused key s with Some i => Some i | None => _ end).
  destruct item as [i|] eqn:Ei; [|done].
  set (s1 := if decide (dict_get _ _ = _) then _ else s).
  assert (acct ((if decide (dict_get (si_work_item_id i) (paused_items s) = Some i) then [i] else []) ++ X) s1) as H1.
  { unfold s1. case_decide; [by apply acct_pop_paused | done]. }
  assert (∀ j, paused key s = Some j →
            dict_get (si_work_item_id j) (paused_items s) = Some j) as Hp.
  { intros j. unfold paused. destruct key as [k|].
    - intros Hj. by destruct (sv_paused _ Hi _ _ Hj) as [-> _].
    - destruct (last (paused_items s)) as [[k j']|] eqn:El; [|done]. intros [= ->].
      apply last_Some in El as [l El]. assert (dict_get k (paused_items s) = Some j) as Hj.
      { apply dict_elem_get; [apply Hi|]. rewrite El. set_solver. }
      by destruct (sv_paused _ Hi _ _ Hj) as [-> _]. }
  clearbody s1. destruct (decide (si_role i = ROLE_ACK)) as [Hr|Hr].
  { apply acct_log; [done|]. eapply acct_subset; [|exact H1].
    intros j [Hj|?]%elem_of_app Hn; [|done]. case_decide; [|set_solver].
    apply list_elem_of_singleton in Hj. by subst. }
  set (s2 := match paused key s with Some _ => _ | None => s1 end).
  assert (acct X s2) as H2.
  { unfold s2. destruct (paused key s) as [j|] eqn:Ej.
    - unfold item in Ei. simplify_eq. apply acct_settle; [done|]. eapply acct_subset; [|exact H1].
      intros j Hj _. case_decide; set_solver.
    - rewrite decide_False in H1; [exact H1|]. intros Hget. unfold item, key in *.
      destruct t as [|k|i']; simplify_eq. unfold paused in Ej. congruence. }
  clearbody s2.
  pose proof (acct_enqueue (si_result_id i) (si_work_item_id i) (si_run_id i) (si_text i)
    (si_origin_epoch i) u (si_role i) (si_ack_id i) (si_turn_id i) X s2) as H3.
  destruct (enqueue _ _ _ _ _ _ _ _ _ s2) as [s3 [r|e]]; simpl in *.
  - apply acct_emit; [done|]. apply H3; [|done]. rewrite Hu. done.
  - apply H3; [|done]. rewrite Hu. done.
Qed.

(** What the callers must respect: an acknowledgement's utterance id is never
    that of a result, and [pause] is not used on a work item that already has
    a paused utterance. *)
Definition careful (o : @sched_op W L) s : Prop :=
  match o with
  | SEnqueue _ _ _ _ _ u ro _ _ => ro = ROLE_ACK ↔ is_ack_id u = true
  | SResume _ u => is_ack_id u = false
  | SPause k _ => ∀ a, active s = Some a → si_work_item_id (lease_item a) = k →
                  dict_get k (paused_items s) = None
  | _ => True
  end.

Fixpoint all_careful (os : list (@sched_op W L)) s : Prop :=
  match os with [] => True | o :: os => careful o s ∧ all_careful os (sexec o s) end.

Lemma sexec_acct o s : sched_inv s → careful o s → acct [] s → acct [] (sexec o s).
Proof.
  intros Hi Hc Ha. destruct o; cbn [sexec];
    eauto using acct_enqueue, acct_start_next, acct_resume_flight, acct_interrupt, acct_pause, acct_resume,
      acct_cancel.
  - unfold provider_started. repeat case_match; try done; by apply (acct_keep [] s).
  - unfold provider_synthesis_ended, synthesis_ended. repeat case_match; cbn [fst]; try done. by apply acct_emit.
  - unfold provider_delivery_completed. destruct (provider_item context s) as [i|]; [|done]. cbn [fst].
    eapply (acct_keep [] (delivery_completed (si_utterance_id i) s)); [done..|]. by apply acct_finished.
  - unfold provider_delivery_unknown. destruct (provider_item context s) as [i|]; [|done]. cbn [fst].
    eapply (acct_keep [] (delivery_unknown (si_utterance_id i) s)); [done..|]. by apply acct_finished.
  - unfold synthesis_ended. case_match; [by apply acct_emit | done].
  - by apply acct_finished.
  - by apply acct_finished.
  - unfold discard_queued_ack.
    pose proof (acct_discard_queued ack_id
      (λ i, bool_decide (si_role i = ROLE_ACK) && bool_decide (si_ack_id i = Some ack_id)) [] s Ha) as H1.
    pose proof (discard_queued_match ack_id
      (λ i, bool_decide (si_role i = ROLE_ACK) && bool_decide (si_ack_id i = Some ack_id)) s) as H2.
    destruct (discard_queued _ _ _) as [s1 gone]. cbn [fst snd] in *. eapply acct_subset; [|exact H1].
    intros i Hin Hn. rewrite app_nil_r in Hin. apply H2, andb_true_iff in Hin as [Hin%bool_decide_eq_true _]. done.
  - unfold discard_queued_notice.
    pose proof (acct_discard_queued key (λ i, bool_decide (si_role i = ROLE_TIMEOUT_NOTICE)) [] s Ha) as H1.
    destruct (discard_queued _ _ _) as [s1 gone]. cbn [fst snd] in *. rewrite app_nil_r in H1.
    revert s1 H1. induction gone as [|i gone IH]; intros s1 H1; [done|]. apply IH. by apply acct_settle.
  - by apply (acct_keep [] s).
  - by apply (acct_keep [] s).
Qed.

Lemma srun_acct os s : sched_inv s → all_careful os s → acct [] s → acct [] (srun os s).
Proof.
  revert s. induction os as [|o os IH]; intros s Hi Hc Ha; simpl; [done|]. destruct Hc as [Hc Hcs].
  apply IH; [by apply sexec_inv | done | by apply sexec_acct].
Qed.

Lemma init_acct w l : acct [] (Scheduler_init w l : Scheduler W L).
Proof.
  split; simpl.
  - intros i _ (o & a & Hin). set_solver.
  - set_solver.
  - intros i [[k Hi]|[[k Hi]|(a & Hi & _)]]; [by apply not_elem_of_nil in Hi | done | done].
  - set_solver.
  - set_solver.
Qed.


(** ** Settling in the sink *)

Lemma emit_settled u i st e a s : settled u (sink s) → settled u (sink (emit_progress i st e a s)).
Proof. intros Hs. unfold emit_progress. case_decide; [done|]. simpl. by apply settled_stable. Qed.

Lemma emit_settles i st e s :
  delivery_terminal st = true → ¬ is_ack i → settled (si_utterance_id i) (sink (emit_progress i st e true s)).
Proof. intros Ht Hi. unfold emit_progress. rewrite decide_False by done. simpl. by apply report_settles. Qed.

Lemma notify_sink r i s : sink (notify_ack_swept r i s) = sink s.
Proof. unfold notify_ack_swept. by case_decide. Qed.

(** An acknowledgement was notified, a result is settled. *)
Definition swept (i : SpeechItem) s : Prop :=
  if decide (is_ack i) then EAckTerminal (identity_of i) CONNECTION_CLOSED ∈ trace s
  else settled (si_utterance_id i) (sink s).

Lemma emit_trace e i st o a s : e ∈ trace s → e ∈ trace (emit_progress i st o a s).
Proof. intros He. unfold emit_progress. case_decide; [done|]. simpl. apply elem_of_app. by left. Qed.

Lemma sweep_item_swept st e s j : delivery_terminal st = true →
  swept j (sweep_item st e s j) ∧ ∀ i, swept i s → swept i (sweep_item st e s j).
Proof.
  intros Ht. unfold sweep_item, swept. split.
  - rewrite notify_sink. case_decide as Hj; [|by apply emit_settles].
    unfold notify_ack_swept. rewrite decide_True by done. simpl. apply elem_of_app. right. constructor.
  - intros i. rewrite notify_sink. case_decide; [|apply emit_settled]. intros He.
    unfold notify_ack_swept. case_decide; [|by apply emit_trace]. simpl. apply elem_of_app. left. by apply emit_trace.
Qed.

Lemma sweep_items_swept st e l s : delivery_terminal st = true →
  (∀ i, i ∈ l → swept i (foldl (sweep_item st e) s l)) ∧
  (∀ i, swept i s → swept i (foldl (sweep_item st e) s l)).
Proof.
  intros Ht. revert s. induction l as [|j l IH]; intros s; simpl; [split; [set_solver | done]|].
  destruct (IH (sweep_item st e s j)) as [H1 H2], (sweep_item_swept st e s j Ht) as [H3 H4]. split; [|auto].
  intros i [->|Hi]%elem_of_cons; auto.
Qed.

Lemma swept_keep i s s' : trace s' = trace s → sink s' = sink s → swept i s → swept i s'.
Proof. unfold swept. by intros -> ->. Qed.

Lemma sweep_swept st e s : delivery_terminal st = true →
  (∀ i k, i ∈ queued k s → swept i (sweep st e s)) ∧
  (∀ i k, dict_get k (paused_items s) = Some i → swept i (sweep st e s)) ∧
  (∀ i, swept i s → swept i (sweep st e s)).
Proof.
  intros Ht. unfold sweep. cbv zeta.
  destruct (sweep_items_swept st e (all_queued_items s) (s <| discarded := true |>) Ht) as [H1 H2].
  pose proof (fold_shape (sweep_item st e) (all_queued_items s) (s <| discarded := true |>) (sweep_item_shape st e))
    as [= _ E2 _].
  assert (∀ i, swept i s → swept i (s <| discarded := true |>)) as H0 by done.
  set (s1 := foldl (sweep_item st e) _ (all_queued_items s)) in *. clearbody s1.
  set (s2 := s1 <| queues := [] |> <| flights ::= filter (λ f, is_advancing f = false) |>).
  assert (∀ i, swept i s1 → swept i s2) as H3 by done.
  assert (paused_items s2 = paused_items s) as E3 by (simpl; by rewrite E2). clearbody s2.
  destruct (sweep_items_swept st e (dict_values (paused_items s2)) s2 Ht) as [H4 H5].
  split_and!; intros i.
  - intros k Hi. apply (swept_keep i (foldl (sweep_item st e) s2 (dict_values (paused_items s2)))); [done..|].
    by eapply H5, H3, H1, all_queued_elem.
  - intros k Hi. apply (swept_keep i (foldl (sweep_item st e) s2 (dict_values (paused_items s2)))); [done..|].
    apply H4. rewrite E3. by eapply paused_value.
  - intros Hs. apply (swept_keep i (foldl (sweep_item st e) s2 (dict_values (paused_items s2)))); [done..|]. auto.
Qed.

Lemma interrupt_active_fields st e now s :
  delivery_terminal st = true →
  let s' := interrupt_active st e true now s in
  queues s' = queues s ∧ paused_items s' = paused_items s ∧ active s' = None ∧
  (∀ i, swept i s → swept i s') ∧
  (∀ a, active s = Some a → ¬ is_ack (lease_item a) → settled (si_utterance_id (lease_item a)) (sink s')).
Proof.
  intros Ht. unfold interrupt_active. destruct (active s) as [a|] eqn:Ea; [|done].
  set (s1 := signal_stop _ _).
  assert (queues s1 = queues s ∧ paused_items s1 = paused_items s ∧ active s1 = Some a) as (E1 & E2 & E3) by done.
  assert (∀ i, swept i s → swept i s1) as H1.
  { intros i. unfold swept. case_decide; [|done]. intros He. simpl. apply elem_of_app. by left. }
  clearbody s1. pose proof (emit_shape (lease_item a) st e true s1) as [= F1 F2 F3].
  unfold release_lease. rewrite F3, E3, decide_True by done. simpl. split_and!; [congruence..|done| |].
  - intros i Hi%H1. unfold swept in *. simpl. case_decide; [by apply emit_trace | by apply emit_settled].
  - intros b [= <-] Hn. by apply emit_settles.
Qed.

(** A reconnect or a full stop empties the scheduler and settles what it held. *)
Lemma interrupt_settles e r f now s :
  r || f = true →
  let s' := (interrupt e r f now s).1 in
  queues s' = [] ∧ paused_items s' = [] ∧ active s' = None ∧
  (∀ i, holds i s → ¬ is_ack i → settled (si_utterance_id i) (sink s')) ∧
  (∀ i, is_ack i → (∃ k, i ∈ queued k s) ∨ (∃ k, dict_get k (paused_items s) = Some i) →
     EAckTerminal (identity_of i) CONNECTION_CLOSED ∈ trace s').
Proof.
  intros Hrf s'. unfold s'. rewrite interrupt_split, Hrf. cbv zeta.
  assert (delivery_terminal (if r then INTERRUPTED_BY_RECONNECT else INTERRUPTED) = true) as Ht by (by destruct r).
  set (st := if r then INTERRUPTED_BY_RECONNECT else INTERRUPTED) in *. clearbody st.
  destruct (interrupt_active_fields st e now s Ht) as (E1 & E2 & E3 & Hk & Ha).
  set (s1 := interrupt_active st e true now s) in *. clearbody s1.
  destruct (sweep_fields st e s1) as (F1 & F2 & F3). destruct (sweep_swept st e s1 Ht) as (G1 & G2 & G3).
  split_and!; [done | done | congruence | |].
  - assert (∀ i, ¬ is_ack i → swept i (sweep st e s1) → settled (si_utterance_id i) (sink (sweep st e s1))) as Hs.
    { intros i Hn. unfold swept. by rewrite decide_False. }
    intros i [[k Hi]|[[k Hi]|(a & Hi & <-)]] Hn; apply Hs; try done.
    + apply (G1 i k). unfold queued in *. by rewrite E1.
    + apply (G2 i k). by rewrite E2.
    + apply G3. unfold swept. rewrite decide_False by done. auto.
  - intros i Hi Hh. assert (swept i (sweep st e s1)) as Hs.
    { destruct Hh as [[k Hk']|[k Hk']]; [apply (G1 i k); unfold queued in *; by rewrite E1 | apply (G2 i k); by rewrite E2]. }
    unfold swept in Hs. by rewrite decide_True in Hs.
Qed.

(** ** Theorems *)


(** C9.  A discarded scheduler leaves nothing behind: from any reachable state, a
    reconnect or a full stop empties the queues, the paused items and the
    lease, marks the scheduler discarded, settles the record of every result it
    held in the session state past the epoch fence, and notifies every queued
    or paused acknowledgement as closed with the connection. *)
Theorem discard_settles_everything w l os e r f now :
  r || f = true →
  let s := srun os (Scheduler_init w l : Scheduler W L) in
  let s' := (interrupt e r f now s).1 in
  queues s' = [] ∧ paused_items s' = [] ∧ active s' = None ∧
  (∀ i, holds i s → ¬ is_ack i → settled (si_utterance_id i) (sink s')) ∧
  (∀ i, is_ack i → (∃ k, i ∈ queued k s) ∨ (∃ k, dict_get k (paused_items s) = Some i) →
     EAckTerminal (identity_of i) CONNECTION_CLOSED ∈ trace s').
Proof. intros Hrf s s'. by apply interrupt_settles. Qed.

(** Pausing twice loses an utterance: when a work item already has a paused
    result and another of its utterances is active, pausing again overwrites
    the paused entry.  The earlier result is then neither queued, paused nor
    active, and no terminal report was emitted for it, so its PAUSED record can
    never be closed. *)
Theorem second_pause_loses_result k now i j t s :
  sched_inv s → active s = Some (mkLease i t) → si_work_item_id i = k →
  dict_get k (paused_items s) = Some j → j ≠ i → (∀ k', j ∉ queued k' s) →
  ¬ closed_out (si_utterance_id j) s →
  ¬ holds j (pause k now s) ∧ ¬ closed_out (si_utterance_id j) (pause k now s).
Proof.
  clear is_ack_id. intros Hi Ha Hk Hp Hne Hq Hc. unfold pause. rewrite Ha. simpl. rewrite (decide_True (P := si_work_item_id i = k)) by done.
  match goal with |- context [signal_stop _ ?x] => set (s1 := x) end.
  assert (queues s1 = queues s ∧ paused_items s1 = dict_set k i (paused_items s) ∧ active s1 = active s ∧
          trace s1 = trace s) as (E1 & E2 & E3 & E4) by done.
  clearbody s1. unfold signal_stop. set (s2 := log_event _ s1).
  pose proof (emit_shape i PAUSED None false s2) as [= F1 F2 F3].
  unfold release_lease. rewrite F3. change (active s2) with (active s1). rewrite E3, Ha. simpl.
  rewrite (decide_True (P := si_utterance_id i = si_utterance_id i)) by done. split.
  - intros [[k' Hj]|[[k' Hj]|(a & Hj & _)]]; [| |done].
    + apply (Hq k'). unfold queued in *. simpl in Hj. rewrite F1 in Hj. simpl in Hj. by rewrite E1 in Hj.
    + simpl in Hj. rewrite F2 in Hj. simpl in Hj. rewrite E2, dict_get_set in Hj. case_decide; [congruence|].
      destruct (sv_paused _ Hi _ _ Hj), (sv_paused _ Hi _ _ Hp). congruence.
  - intros (x & st & o & a & Hin & Hu & Ht). apply Hc. exists x, st, o, a. split; [|done].
    simpl in Hin. unfold emit_progress in Hin. case_decide; simpl in Hin; rewrite E4 in Hin; [set_solver|].
    apply elem_of_app in Hin as [Hin|Hin]; [set_solver|]. apply list_elem_of_singleton in Hin. by simplify_eq.
Qed.

End accounting.
