(* ===== verification/SpeechSystem.v ===== *)
(** The speech system: the scheduler over the session state and the lifecycle
    coordinator.

    The two instances discharge the scheduler's interfaces; every property of
    [SpeechAccounting] then holds of the wired system.  [sexec_components] is
    the other direction: the scheduler drives both components only through
    their own operations, so their invariants survive any run of it. *)

From S2P Require Import Prelude PyDict Contracts SessionState SessionLedger SessionFacts SpeechLifecycle SpeechLifecycleFacts SpeechScheduler SpeechSchedulerFacts SpeechAccounting.

(** ** Discharging the interfaces *)

(** [SessionState.speech_progress] with the fields of [_progress]. *)
Definition report_progress (i : SpeechItem) (st : DeliveryState) (origin : option N) (allow : bool)
    (s : SessionState) : SessionState :=
  (speech_progress (default EmptyString (si_result_id i)) (si_work_item_id i) (si_run_id i)
     (si_utterance_id i) st origin allow s).1.

(** The utterance's record is terminal. *)
Definition record_terminal_for (u : string) (s : SessionState) : Prop :=
  ∃ p, dict_get u (speech s) = Some p ∧ delivery_terminal (sp_state p) = true.

Lemma terminal_rank st st' :
  delivery_terminal st = true → delivery_terminal st' = false → (delivery_rank st' ≤ delivery_rank st)%nat.
Proof. destruct st, st'; simpl; intros; try done; lia. Qed.

#[export, refine] Instance SessionState_sink : ProgressSink SessionState :=
  {| report := report_progress; settled := record_terminal_for |}.
Proof.
  - intros i st origin s Ht. unfold record_terminal_for, report_progress, speech_progress. cbv zeta.
    rewrite andb_false_r. destruct (dict_get (si_utterance_id i) (speech s)) as [p|] eqn:E.
    + destruct (delivery_terminal (sp_state p)) eqn:Ep; [by eauto|].
      rewrite decide_False by (pose proof (terminal_rank _ _ Ht Ep); lia). simpl. rewrite dict_get_set_eq. eauto.
    + simpl. rewrite dict_get_set_eq. eauto.
  - intros u i st origin allow s (p & Hp & Ht).
    unfold record_terminal_for, report_progress, speech_progress. cbv zeta.
    destruct (fenced s origin && negb allow); [by eauto|].
    destruct (dict_get (si_utterance_id i) (speech s)) as [q|] eqn:E.
    + destruct (delivery_terminal (sp_state q)) eqn:Eq; [by eauto|].
      case_decide; [by eauto|]. simpl. rewrite dict_get_set. case_decide; [congruence | eauto].
    + simpl. rewrite dict_get_set. case_decide; [congruence | eauto].
Defined.

Section system.
Context `{LifecycleConfig}.

#[export, refine] Instance Coordinator_slot : SpeechSlot Coordinator :=
  {| slot_occupied := occupied;
     slot_admission i e c := pre_admission_disposition i (se_acceptance e) (se_token e) c;
     slot_handed := mark_handed_to_tts;
     slot_interrupt := record_interruption;
     slot_release := release_generation;
     slot_provider_error t c := await (begin_delivery_unknown t c) |}.
Proof.
  - intros i e c c' r E. destruct (admit_cases i (se_acceptance e) (se_token e) c) as [(r' & E' & _)|[E' _]]; congruence.
  - intros i e c c' E. destruct (occupied c) eqn:Eo; [done|]. exfalso. revert E.
    unfold pre_admission_disposition, try_admit. rewrite Eo.
    destruct (negb tts_available); [done|]. destruct (_ && _); [done|]. by destruct (is_closed c).
  - intros i e c c' t E.
    destruct (admit_cases i (se_acceptance e) (se_token e) c) as [(r' & E' & Hr)|(E' & _ & Hs)].
    + rewrite E' in E. simplify_eq. by destruct (Hr t).
    + rewrite E' in E. simplify_eq. unfold occupied. by rewrite Hs.
Defined.

End system.

(** ** The components under the scheduler *)

Section components.
Context {W L : Type} `{!ProgressSink W} `{!SpeechSlot L}.
(** Properties of the two components that their operations keep. *)
Context (P : L → Prop) (Q : W → Prop).
Context (HQ : ∀ i st o a w, Q w → Q (report i st o a w)).
Context (Hadmit : ∀ i e l, P l → P (slot_admission i e l).1).
Context (Hhanded : ∀ t n l, P l → P (slot_handed t n l)).
Context (Hinterrupt : ∀ t p n l, P l → P (slot_interrupt t p n l)).
Context (Hrelease : ∀ t n d l, P l → P (slot_release t n d l)).
Context (Herror : ∀ t l, P l → P (slot_provider_error t l)).
Implicit Types (s : Scheduler W L).

Definition both s : Prop := P (slot s) ∧ Q (sink s).

Definition outside (o : @sched_op W L) : Prop :=
  match o with
  | SSlot f => ∀ l, P l → P (f l)
  | SSink f => ∀ w, Q w → Q (f w)
  | _ => True
  end.

Lemma both_keep s s' : slot s' = slot s → sink s' = sink s → both s → both s'.
Proof. unfold both. by intros -> ->. Qed.

Lemma both_emit i st e a s : both s → both (emit_progress i st e a s).
Proof. intros [H1 H2]. unfold emit_progress. case_decide; [by split|]. split; simpl; auto. Qed.

Lemma both_notify r i s : both s → both (notify_ack_swept r i s).
Proof. intros Hb. unfold notify_ack_swept. by case_decide. Qed.

Lemma both_set_queue k q s : both s → both (set_queue k q s).
Proof. by destruct q. Qed.

Lemma both_release u s : both s → both (release_lease u s).
Proof. intros Hb. unfold release_lease. destruct (active s); [|done]. by case_decide. Qed.

Lemma both_fold {A} (f : Scheduler W L → A → Scheduler W L) l s :
  (∀ s a, both s → both (f s a)) → both s → both (foldl f s l).
Proof. intros Hf. revert s. induction l as [|a l IH]; intros s Hs; simpl; auto. Qed.

Lemma both_enqueue r w n t e u ro a ti s : both s → both (enqueue r w n t e u ro a ti s).1.
Proof.
  intros Hb. destruct (enqueue_cases r w n t e u ro a ti s) as [[x ->]|(i & _ & _ & _ & _ & _ & ->)]; [done|].
  cbn [fst]. do 2 apply both_emit. exact Hb.
Qed.

Lemma both_drop c r s : both s → both (drop_candidate c r s).
Proof.
  intros Hb. unfold drop_candidate.
  assert (both (discard_from_queue c s)) as H1.
  { unfold discard_from_queue. repeat case_match; try done. by apply both_set_queue. }
  case_decide; [exact H1 | by apply both_emit].
Qed.

Lemma both_scan_key fuel k env s : both s → both (scan_key fuel k env s).1.
Proof.
  revert s. induction fuel as [|n IH]; intros s Hb; cbn [scan_key]; [done|].
  destruct (queued k s) as [|c q]; [done|]. pose proof (Hadmit (identity_of c) env (slot s) (proj1 Hb)) as Hl.
  destruct (slot_admission _ _ _) as [l d]. assert (both (s <| slot := l |>)) as H1 by (split; [done | apply Hb]).
  destruct d; [done | by apply IH, both_drop | done].
Qed.

Lemma both_scan_keys ks env s : both s → both (scan_keys ks env s).1.
Proof.
  revert s. induction ks as [|k ks IH]; intros s Hb; cbn [scan_keys]; [done|].
  pose proof (both_scan_key (S (length (queued k s))) k env s Hb) as H1.
  destruct (scan_key _ k env s) as [s1 []]; auto.
Qed.

Lemma both_start_next k env now s : both s → both (start_next k env now s).1.
Proof.
  intros Hb. unfold start_next. destruct (_ || _); [done|]. cbv zeta.
  set (ks := match k with Some k => _ | None => _ end). pose proof (both_scan_keys ks env s Hb) as H1.
  destruct (scan_keys ks env s) as [s1 [| |i t]]; [done..|]. cbn [fst] in *.
  assert (both (emit_progress i STARTED None false ((set_queue (si_work_item_id i)
    (tail (queued (si_work_item_id i) s1)) s1) <| active := Some (mkLease i t) |>))) as [H2 H3].
  { apply both_emit. by apply (both_set_queue (si_work_item_id i) (tail (queued (si_work_item_id i) s1)) s1) in H1. }
  split; simpl; [by apply Hhanded | exact H3].
Qed.

Lemma both_resume_flight n o env now s : both s → both (resume_flight n o env now s).
Proof.
  intros Hb. unfold resume_flight. destruct (flights s !! n) as [f|]; [|done]. cbv zeta.
  assert (both (s <| flights ::= list_delete n |>)) as H1 by exact Hb.
  destruct f as [k|i t|i t].
  - unfold run_advance. destruct (head _); [by apply both_start_next | done].
  - destruct o; [done|]. apply (both_emit i DELIVERY_UNKNOWN None false) in H1 as [H2 H3].
    split; [simpl; by apply Herror | exact H3].
  - assert (both (release_lease (si_utterance_id i)
      ((s <| flights ::= list_delete n |>) <| slot ::= slot_release t false DD_DELIVERY_UNKNOWN |>))) as H2.
    { apply both_release. split; [simpl; by apply Hrelease, Hb | apply Hb]. }
    unfold schedule_queue_advance. by destruct (discarded _).
Qed.

Lemma both_finished st d u s : both s → both (delivery_finished st d u s).
Proof.
  intros Hb. unfold delivery_finished. destruct (active_item u s) as [i|]; [|done].
  destruct (active s) as [a|]; [|done]. apply both_release.
  destruct (both_emit i st None false s Hb) as [H1 H2]. split; [simpl; by apply Hrelease | exact H2].
Qed.

Lemma both_stop_active (a : UtteranceLease) p st e al now s :
  both s →
  both (emit_progress (lease_item a) st e al
          (signal_stop (lease_item a) (s <| slot ::= slot_interrupt (lease_token a) p now |>))).
Proof. intros [H1 H2]. apply both_emit. split; [simpl; by apply Hinterrupt | exact H2]. Qed.

Lemma both_sweep_item st e s i : both s → both (sweep_item st e s i).
Proof. intros Hb. by apply both_notify, both_emit. Qed.

Lemma both_cancel_item s i : both s → both (cancel_item s i).
Proof. intros Hb. by apply both_notify, both_emit. Qed.

Lemma both_interrupt e r f now s : both s → both (interrupt e r f now s).1.
Proof.
  intros Hb. rewrite interrupt_split. cbv zeta. set (st := if r then _ else _).
  assert (both (interrupt_active st e (r || f) now s)) as H1.
  { unfold interrupt_active. destruct (active s) as [a|]; [|done]. by apply both_release, both_stop_active. }
  destruct (r || f); [|done]. set (s1 := interrupt_active _ _ _ _ _) in *. clearbody s1.
  unfold sweep. cbv zeta.
  match goal with |- both (setter paused_items _ ?x) => apply (both_keep x); [done | done |] end.
  apply both_fold; [by intros; apply both_sweep_item|].
  match goal with |- both (setter flights _ (setter queues _ ?x)) => apply (both_keep x); [done | done |] end.
  apply both_fold; [by intros; apply both_sweep_item | exact H1].
Qed.

Lemma both_cancel k now s : both s → both (cancel k now s).1.
Proof.
  intros Hb. unfold cancel. assert (both (cancel_active k now s).1) as H1.
  { unfold cancel_active. destruct (active s) as [a|]; [|done]. case_decide; [|done].
    by apply both_release, both_stop_active. }
  destruct (cancel_active k now s) as [s1 first]. cbn [fst] in *.
  apply both_fold; [|apply both_fold; [|done]].
  - intros x key Hx. unfold cancel_paused. destruct (dict_get key _); [|done]. by apply both_cancel_item.
  - intros x key Hx. unfold cancel_queue. apply both_fold; [by intros; apply both_cancel_item | exact Hx].
Qed.

Lemma both_pause k now s : both s → both (pause k now s).
Proof.
  intros Hb. unfold pause. destruct (active s) as [a|]; [|done]. case_decide; [|done]. cbv zeta.
  apply both_release, both_emit. destruct Hb as [H1 H2]. split; [simpl; by apply Hinterrupt | exact H2].
Qed.

Lemma both_resume t u s : both s → both (resume_speech t u s).1.
Proof.
  intros Hb. unfold resume_speech. cbv zeta.
  destruct (match paused _ s with Some i => Some i | None => _ end) as [i|]; [|done].
  set (s1 := if decide (dict_get _ _ = _) then _ else s).
  assert (both s1) as H1. { unfold s1. by case_decide. } clearbody s1.
  case_decide; [exact H1|]. set (s2 := match paused _ s with Some _ => _ | None => s1 end).
  assert (both s2) as H2. { unfold s2. case_match; [by apply both_emit | done]. } clearbody s2.
  pose proof (both_enqueue (si_result_id i) (si_work_item_id i) (si_run_id i) (si_text i)
    (si_origin_epoch i) u (si_role i) (si_ack_id i) (si_turn_id i) s2 H2) as H3.
  destruct (enqueue _ _ _ _ _ _ _ _ _ s2) as [s3 [r|e]]; cbn [fst] in *; [by apply both_emit | done].
Qed.

Lemma both_discard k m s : both s → both (discard_queued k m s).1.
Proof. intros Hb. unfold discard_queued. destruct (filter _ _); [done|]. by apply both_set_queue. Qed.

Lemma sexec_components o s : outside o → both s → both (sexec o s).
Proof.
  intros Ho Hb. destruct o; cbn [sexec]; auto using both_enqueue, both_start_next, both_resume_flight,
    both_finished, both_interrupt, both_pause, both_resume, both_cancel.
  - unfold provider_started. by repeat case_match.
  - unfold provider_synthesis_ended, synthesis_ended. repeat case_match; cbn [fst]; try done. by apply both_emit.
  - unfold provider_delivery_completed. destruct (provider_item context s) as [i|]; [|done]. cbn [fst].
    by apply (both_keep (delivery_completed (si_utterance_id i) s)), both_finished.
  - unfold provider_delivery_unknown. destruct (provider_item context s) as [i|]; [|done]. cbn [fst].
    by apply (both_keep (delivery_unknown (si_utterance_id i) s)), both_finished.
  - unfold synthesis_ended. case_match; [by apply both_emit | done].
  - by apply both_finished.
  - by apply both_finished.
  - unfold discard_queued_ack. pose proof (both_discard ack_id
      (λ i, bool_decide (si_role i = ROLE_ACK) && bool_decide (si_ack_id i = Some ack_id)) s Hb) as H1.
    by destruct (discard_queued _ _ _).
  - unfold discard_queued_notice. pose proof (both_discard key
      (λ i, bool_decide (si_role i = ROLE_TIMEOUT_NOTICE)) s Hb) as H1.
    destruct (discard_queued _ _ _) as [s1 gone]. cbn [fst] in *.
    apply (both_fold (λ s i, emit_progress i INTERRUPTED None false s)); [|done]. intros; by apply both_emit.
  - destruct Hb. split; [by apply Ho | done].
  - destruct Hb. split; [done | by apply Ho].
Qed.

Lemma srun_components os s : Forall outside os → both s → both (srun os s).
Proof.
  revert s. induction os as [|o os IH]; intros s Hos Hb; simpl; [done|]. apply Forall_cons in Hos as [Ho Hos].
  apply IH; [done | by apply sexec_components].
Qed.

End components.

(** ** The wired system *)

Section wired.
Context `{LifecycleConfig} `{RetentionConfig}.

(** Besides the scheduler's own calls, the coordinator takes any of its steps
    and the session state any of its calls. *)
Definition system_op (o : @sched_op SessionState Coordinator) : Prop :=
  match o with
  | SSlot f => ∃ e, f = lexec e
  | SSink f => ∃ c, op_ok c ∧ f = (λ s, (exec c s).1)
  | _ => True
  end.

Definition session_ok (s : SessionState) : Prop := ledger_inv s ∧ session_wf s ∧ delivery_inv s.

Lemma exec_session_ok c s : op_ok c → session_ok s → session_ok (exec c s).1.
Proof.
  intros Hc (H1 & H2 & H3). split_and!.
  - pose proof (run_ledger_inv [c] s H1) as Hr. rewrite run_cons in Hr. apply Hr. by constructor.
  - by apply exec_wf.
  - by apply exec_delivery.
Qed.

Lemma report_is_exec i st o a s :
  report_progress i st o a s =
  (exec (OpSpeech (mkSpeechProgress (default EmptyString (si_result_id i)) (si_work_item_id i) (si_run_id i)
          (si_utterance_id i) st o) None a) s).1.
Proof. done. Qed.

(** The wired speech system keeps every component's invariant: over any
    interleaving of scheduler calls, coordinator steps, timers, suspended
    coroutines and session-state calls, the coordinator has at most one
    generation and it occupies the slot, the session's ledgers are consistent,
    and the scheduler's queues are well formed. *)
Theorem speech_system_invariant sid token wm os :
  Forall system_op os →
  let s := srun os (Scheduler_init (SessionState_init sid token wm).1 Coordinator_init) in
  coord_inv (slot s) ∧ session_ok (sink s) ∧ sched_inv s.
Proof.
  intros Hos s. assert (both coord_inv session_ok s) as [H1 H2].
  { apply srun_components.
    - intros i st o a w Hw. rewrite report_is_exec. by apply exec_session_ok.
    - intros i e l Hl. apply (ss_inv _ _ _ (lexec_spec (LAdmit i (se_acceptance e) (se_token e)) l Hl)).
    - intros t n l Hl. apply (ss_inv _ _ _ (lexec_spec (LHanded t n) l Hl)).
    - intros t p n l Hl. apply (ss_inv _ _ _ (lexec_spec (LInterrupt t p n) l Hl)).
    - intros t n d l Hl. apply (ss_inv _ _ _ (lexec_spec (LRelease t n d) l Hl)).
    - intros t l Hl. apply (ss_inv _ _ _ (lexec_spec (LProviderError t) l Hl)).
    - eapply Forall_impl; [exact Hos|]. intros [] Ho; simpl in *; try done.
      + destruct Ho as [e ->]. intros l Hl. apply (ss_inv _ _ _ (lexec_spec e l Hl)).
      + destruct Ho as (c & Hc & ->). intros w Hw. by apply exec_session_ok.
    - split; [apply init_coord_inv|]. split_and!; [apply init_inv | apply init_wf | apply init_delivery]. }
  split_and!; [done | apply H2.. |]. apply srun_inv, init_sched_inv.
Qed.

End wired.

(** ** Witnesses *)

Definition w_config : LifecycleConfig :=
  {| speech_start_timeout_seconds := 10; speech_transport_grace_seconds := 1;
     context_tombstone_limit := 256; tts_available := true |}.

#[local] Existing Instance w_config.
#[local] Existing Instance RETENTION_FALLBACK.

Definition w_identity : GenerationIdentity := mkIdentity "u1" "w" None role_result None None.

(** One generation, handed over and synthesizing. *)
Definition w_speaking : list lstep :=
  [LAdmit w_identity None "t"; LHanded "t" 0; LBind "t" "u1"; LTtsStarted "u1"].

Definition w_generation : SpeechGeneration :=
  (SpeechGeneration_init w_identity) <| phase := GP_SYNTHESIZING |> <| context_id := Some "u1" |>.

Lemma w_speaking_live : live "t" (lrun w_speaking Coordinator_init) = Some w_generation.
Proof. vm_compute. reflexivity. Qed.

Lemma interrupted_audio_dropped_witness :
  let s := lrun [LFire "t" 9; LRunTask 0 Returned 9]
             (record_interruption "t" false 5 (lrun w_speaking Coordinator_init)) in
  on_tts_audio "u1" 640 16000 1 s = (s, false).
Proof.
  assert (Forall (λ e, admits_utterance "u1" e = false) [LFire "t" 9; LRunTask 0 Returned 9]) as Hes
    by by repeat constructor.
  exact (proj1 (proj1 (interrupted_audio_dropped w_speaking "t" w_generation false 5
    [LFire "t" 9; LRunTask 0 Returned 9] 640 16000 1 0 w_speaking_live Hes))).
Defined.


(** The provider fails, the cleanup is dispatched and the flush barrier is awaited. *)
Definition w_waiting : list lstep := w_speaking ++ [LProviderError "t"; LRunAwaited 0 Returned 5].

Definition w_waiting_generation : SpeechGeneration :=
  w_generation <| disposition := Some DD_DELIVERY_UNKNOWN |> <| tombstoned := true |> <| cleanup_pending := true |>.

Lemma second_interruption_strands_slot_witness :
  let s := lrun [LFire "t" 8; LRunTask 0 Returned 8; LFire "t" 100; LProviderError "t"]
             (record_interruption "t" false 6 (lrun w_waiting Coordinator_init)) in
  slot_token s = Some "t".
Proof.
  apply (second_interruption_strands_slot w_waiting "t" w_waiting_generation false 6
    [LFire "t" 8; LRunTask 0 Returned 8; LFire "t" 100; LProviderError "t"]).
  - vm_compute. reflexivity.
  - by split_and!.
  - vm_compute. reflexivity.
  - vm_compute. reflexivity.
  - by repeat constructor.
Defined.

(** *** The scheduler *)

Definition w_scheduler : Scheduler SessionState Coordinator :=
  Scheduler_init (SessionState_init "s" "tok" []).1 Coordinator_init.

Definition w_say (u : string) : @sched_op SessionState Coordinator :=
  SEnqueue (Some "r") "w" "run" "text" None u ROLE_RESULT None None.

Definition w_env (t : string) : slot_env := mkSlotEnv None t.

Definition w_sched_ops : list (@sched_op SessionState Coordinator) :=
  [w_say "u1"; w_say "u2"; SStartNext None (w_env "t1") 0; SPause "w" 1;
   SEnqueue None "ack-1" "run" "one moment" None "ua" ROLE_ACK None (Some "turn")].

Definition w_is_ack (u : string) : bool := bool_decide (u = "ua").

Lemma w_all_careful : all_careful w_is_ack w_sched_ops w_scheduler.
Proof.
  cbn [all_careful w_sched_ops]. split_and!; try exact I.
  - vm_compute. split; discriminate.
  - vm_compute. split; discriminate.
  - intros a _ _. vm_compute. reflexivity.
  - vm_compute. done.
Qed.

Definition w_item (u : string) : SpeechItem :=
  mkItem (Some "r") "w" "run" "text" u None ROLE_RESULT None None.


Lemma discard_settles_everything_witness :
  let s := srun w_sched_ops w_scheduler in
  queues (interrupt None false true 2 s).1 = [] ∧
  holds (w_item "u2") s ∧ record_terminal_for "u2" (sink (interrupt None false true 2 s).1).
Proof.
  assert (holds (w_item "u2") (srun w_sched_ops w_scheduler)) as Hh.
  { left. exists "w". vm_compute. by left. }
  destruct (discard_settles_everything (SessionState_init "s" "tok" []).1 Coordinator_init w_sched_ops
    None false true 2 eq_refl) as (H1 & _ & _ & H4 & _).
  split_and!; [exact H1 | exact Hh | apply (H4 (w_item "u2") Hh); discriminate].
Defined.

(** The first utterance is paused, its cleanup runs to the end, and the next
    utterance of the same work item is spoken. *)
Definition w_two_pauses : list (@sched_op SessionState Coordinator) :=
  [w_say "u1"; SStartNext None (w_env "t1") 0; SPause "w" 1;
   SSlot (lexec (LRunTask 0 Returned 1)); SSlot (lexec (LRunTask 0 Returned 1));
   w_say "u2"; SStartNext None (w_env "t2") 2].

Lemma second_pause_loses_result_witness :
  let s := srun w_two_pauses w_scheduler in
  ¬ holds (w_item "u1") (pause "w" 3 s) ∧ ¬ closed_out "u1" (pause "w" 3 s).
Proof.
  apply (second_pause_loses_result "w" 3 (w_item "u2") (w_item "u1") "t2" (srun w_two_pauses w_scheduler)).
  - apply srun_inv, init_sched_inv.
  - vm_compute. reflexivity.
  - reflexivity.
  - vm_compute. reflexivity.
  - discriminate.
  - intros k' Hin. assert (queues (srun w_two_pauses w_scheduler) = []) as E by (vm_compute; reflexivity).
    unfold queued in Hin. rewrite E in Hin. by apply not_elem_of_nil in Hin.
  - intros (i & st & o & a & Hin & Hu & Ht).
    assert (Forall (λ e, match e with EProgress j x _ _ => delivery_terminal x = false | _ => True end)
              (trace (srun w_two_pauses w_scheduler))) as Hf by (vm_compute; repeat constructor).
    rewrite Forall_forall in Hf. specialize (Hf _ Hin). simpl in Hf. congruence.
Defined.

Lemma speech_system_invariant_witness : coord_inv (slot (srun w_two_pauses w_scheduler)).
Proof.
  assert (Forall system_op w_two_pauses) as Hos.
  { repeat constructor; by eexists. }
  exact (proj1 (speech_system_invariant "s" "tok" [] w_two_pauses Hos)).
Defined.
