(* ===== verification/TurnAckLedger.v ===== *)
(** The turn acknowledgement ledger ([src/server/turn_ack_ledger.py]).

    [TurnAckLedger] owns the one-ack-per-turn latch, the registry of a turn's
    delegated children, the turn id sequence and the admission chains that try
    to get a queued acknowledgement spoken.  It reads the host through
    callables, so the host's side is part of the state here: the connection
    pipelines ever attached (an origin is its index), which one is current, and
    what [accepts], the feature policy and the acknowledgement text answer.

    A chain's suspended continuations are [tasks]: [Admit] is [admit()] before
    its first step, [Admitting] is [admit()] inside [await start_next], and
    [RetryAfterDelay] is the sleeping [retry_after_delay()].  The wait for the
    0.25 s delay is an arbitrary wait: a step may resume any task.
    [emit_early_ack] suspended in its [sleep(0)] is an entry of [emits].
    A call on a pipeline's scheduler delivers the [on_ack_terminal] callbacks
    it makes, read off the scheduler's trace, and a scheduler step that ends
    [start_next] resumes the task that awaits it. *)

From S2P Require Import Prelude PyDict Contracts SessionState SpeechLifecycle SpeechScheduler.
From stdpp Require Import pretty.

Definition ACK_ADMISSION_MAX_ATTEMPTS : N := 4.
Definition MAX_ACK_GENERATION_TURNS : nat := 2048.

(** ** Ledger state and its own operations *)

Record TurnAckLedger := mkAckLedger {
  turn_sequence : N;
  ack_emitted_turns : gset string;
  ack_admission_generation : dict string N;
  ack_generation_sequence : N;
  turn_work_items : dict string (gset string)
}.

#[export] Instance eta_TurnAckLedger : Eta TurnAckLedger := λ r,
  mkAckLedger (turn_sequence r) (ack_emitted_turns r) (ack_admission_generation r)
    (ack_generation_sequence r) (turn_work_items r).

Definition TurnAckLedger_init : TurnAckLedger := mkAckLedger 0 ∅ [] 0 [].

Definition turn_id_of (n : N) : string := "turn-" +:+ pretty n.

Definition next_turn_id (l : TurnAckLedger) : TurnAckLedger * string :=
  let l := l <| turn_sequence ::= N.succ |> in (l, turn_id_of (turn_sequence l)).

Definition ack_work_item_id (turn : string) : string := "ack-" +:+ turn.

Definition clear_ack_latch (turn : string) (l : TurnAckLedger) : TurnAckLedger :=
  l <| ack_emitted_turns ::= (λ t, t ∖ {[turn]}) |>.

Definition has_emitted_ack (turn : string) (l : TurnAckLedger) : bool :=
  bool_decide (turn ∈ ack_emitted_turns l).

Definition admission_generation (turn : string) (l : TurnAckLedger) : option N :=
  dict_get turn (ack_admission_generation l).

Definition admission_generation_count (l : TurnAckLedger) : nat := length (ack_admission_generation l).

Definition children_of (turn : string) (l : TurnAckLedger) : gset string :=
  default ∅ (dict_get turn (turn_work_items l)).

Definition register_turn_work_item (turn work_item : string) (l : TurnAckLedger) : TurnAckLedger :=
  l <| turn_work_items := dict_set turn ({[work_item]} ∪ children_of turn l) (turn_work_items l) |>.

Definition release_all_turn_work_items (turn : string) (l : TurnAckLedger) : TurnAckLedger :=
  clear_ack_latch turn (l <| turn_work_items ::= dict_pop turn |>).

Definition release_turn_work_item (turn work_item : string) (l : TurnAckLedger) : TurnAckLedger :=
  match dict_get turn (turn_work_items l) with
  | None => l
  | Some items =>
      let items := items ∖ {[work_item]} in
      if decide (items = ∅) then release_all_turn_work_items turn l
      else l <| turn_work_items := dict_set turn items (turn_work_items l) |>
  end.

Definition ack_turn_for_work_item (work_item : string) (l : TurnAckLedger) : option string :=
  fst <$> head (filter (λ p, work_item ∈ p.2 ∧ p.1 ∈ ack_emitted_turns l) (turn_work_items l)).

Definition on_ack_terminal (identity : GenerationIdentity) (l : TurnAckLedger) : TurnAckLedger :=
  match gi_turn_id identity with
  | Some turn => clear_ack_latch turn l
  | None => l
  end.

Definition claim_ack_admission_generation (turn : string) (l : TurnAckLedger) : TurnAckLedger * N :=
  let l := l <| ack_generation_sequence ::= N.succ |> in
  let generation := ack_generation_sequence l in
  let l := l <| ack_admission_generation ::= dict_set turn generation |> in
  let l := l <| ack_admission_generation ::= dict_move_to_end turn |> in
  (l <| ack_admission_generation ::= dict_trim MAX_ACK_GENERATION_TURNS |>, generation).

Definition clear_all (l : TurnAckLedger) : TurnAckLedger :=
  l <| turn_work_items := [] |> <| ack_emitted_turns := ∅ |> <| ack_admission_generation := [] |>.

(** ** The host's side and the suspended continuations *)

Record Pipeline (W L : Type) := mkPipeline {
  pl_tts : bool;
  pl_active : bool;
  pl_epoch : N;
  pl_scheduler : Scheduler W L
}.
Arguments mkPipeline {W L}. Arguments pl_tts {W L}. Arguments pl_active {W L}.
Arguments pl_epoch {W L}. Arguments pl_scheduler {W L}.

#[export] Instance eta_Pipeline W L : Eta (Pipeline W L) := λ r,
  mkPipeline (pl_tts r) (pl_active r) (pl_epoch r) (pl_scheduler r).

Record chain := mkChain {
  ch_origin : nat;
  ch_turn : string;
  ch_epoch : N;
  ch_generation : N;
  ch_attempt : N
}.

Inductive ack_task :=
| Admit (c : chain)
| Admitting (c : chain) (token : string)
| RetryAfterDelay (c : chain).

Definition task_chain (t : ack_task) : chain :=
  match t with Admit c | Admitting c _ | RetryAfterDelay c => c end.

Record emit_frame := mkEmit { em_origin : nat; em_turn : string; em_epoch : N }.

(** One call of [start_next] by a chain. *)
Record start_call := mkStart { st_turn : string; st_generation : N; st_attempt : N }.

Record AckSystem (W L : Type) := mkAckSystem {
  ledger : TurnAckLedger;
  pipelines : list (Pipeline W L);
  connection : option nat;
  accepts_epoch : N → bool;
  enable_early_ack : bool;
  early_ack_text : string;
  tasks : list ack_task;
  emits : list emit_frame;
  starts : list start_call
}.
Arguments mkAckSystem {W L}. Arguments ledger {W L}. Arguments pipelines {W L}.
Arguments connection {W L}. Arguments accepts_epoch {W L}. Arguments enable_early_ack {W L}.
Arguments early_ack_text {W L}. Arguments tasks {W L}. Arguments emits {W L}. Arguments starts {W L}.

#[export] Instance eta_AckSystem W L : Eta (AckSystem W L) := λ r,
  mkAckSystem (ledger r) (pipelines r) (connection r) (accepts_epoch r) (enable_early_ack r)
    (early_ack_text r) (tasks r) (emits r) (starts r).

Section ack_system.
Context {W L : Type} `{!ProgressSink W} `{!SpeechSlot L}.
Implicit Types (y : AckSystem W L) (now : Q).

Definition AckSystem_init (text : string) : AckSystem W L :=
  mkAckSystem TurnAckLedger_init [] None (λ _, false) true text [] [] [].

(** The callbacks among the events a scheduler call added. *)
Definition ack_event (l : TurnAckLedger) (e : sched_event) : TurnAckLedger :=
  match e with EAckTerminal identity _ => on_ack_terminal identity l | _ => l end.

Definition sched_call {A} (p : nat) (f : Scheduler W L → Scheduler W L * A) y : AckSystem W L * option A :=
  match pipelines y !! p with
  | None => (y, None)
  | Some pl =>
      let r := f (pl_scheduler pl) in
      let events := drop (length (trace (pl_scheduler pl))) (trace r.1) in
      (y <| pipelines ::= <[p := pl <| pl_scheduler := r.1 |>]> |>
         <| ledger ::= (λ l, foldl ack_event l events) |>, Some r.2)
  end.

Definition settle_turn_ack (p : nat) (turn : string) (cancel_admitted : bool) now y : AckSystem W L :=
  let key := ack_work_item_id turn in
  let y := if cancel_admitted then (sched_call p (SpeechScheduler.cancel (Some key) now) y).1 else y in
  let y := (sched_call p (discard_queued_ack key) y).1 in
  y <| ledger ::= clear_ack_latch turn |>.

(** [enqueue_ack()], with the utterance id [mint] *)
Definition enqueue_ack (p : nat) (turn : string) (epoch : N) (mint : string) y : AckSystem W L :=
  let key := ack_work_item_id turn in
  (sched_call p (enqueue None key ("run-" +:+ key) (early_ack_text y) (Some epoch) mint ROLE_ACK
                   (Some key) (Some turn)) y).1.

Definition schedule_ack_admission (p : nat) (turn : string) (epoch attempt : N) (generation : option N) y
    : AckSystem W L :=
  let (l, g) := match generation with
                | None => claim_ack_admission_generation turn (ledger y)
                | Some g => (ledger y, g)
                end in
  y <| ledger := l |> <| tasks ::= (λ t, t ++ [Admit (mkChain p turn epoch g attempt)]) |>.

(** The entry holds a number that is not this chain's. *)
Definition superseded (c : chain) y : bool :=
  match admission_generation (ch_turn c) (ledger y) with
  | Some g => negb (g =? ch_generation c)%N
  | None => false
  end.

Definition chain_live (c : chain) y : bool :=
  has_emitted_ack (ch_turn c) (ledger y) &&
  bool_decide (connection y = Some (ch_origin c)) &&
  match pipelines y !! ch_origin c with
  | None => false
  | Some pl => pl_active pl && (pl_epoch pl =? ch_epoch c)%N
  end &&
  accepts_epoch y (ch_epoch c).

Definition retry_or_abandon (c : chain) (needs_requeue : bool) (mint : string) now y : AckSystem W L :=
  if superseded c y then y
  else if negb (chain_live c y) then settle_turn_ack (ch_origin c) (ch_turn c) false now y
  else if (ACK_ADMISSION_MAX_ATTEMPTS <=? ch_attempt c)%N then
    settle_turn_ack (ch_origin c) (ch_turn c) false now y
  else
    let y := if needs_requeue then enqueue_ack (ch_origin c) (ch_turn c) (ch_epoch c) mint y else y in
    y <| tasks ::= (λ t, t ++ [RetryAfterDelay c]) |>.

(** [admit()] from its start to its await, or to its end when the scheduler
    answers [None]. *)
Definition admit_step (c : chain) (env : slot_env) (mint : string) now y : AckSystem W L :=
  if superseded c y then y
  else
    let y := y <| starts ::= (λ l, l ++ [mkStart (ch_turn c) (ch_generation c) (ch_attempt c)]) |> in
    let (y, admitted) := sched_call (ch_origin c) (start_next (Some (ack_work_item_id (ch_turn c))) env now) y in
    match admitted with
    | Some (Some _) => y <| tasks ::= (λ t, t ++ [Admitting c (se_token env)]) |>
    | _ => retry_or_abandon c false mint now y
    end.

Definition run_task (n : nat) (env : slot_env) (mint : string) now y : AckSystem W L :=
  match tasks y !! n with
  | Some (Admit c) => admit_step c env mint now (y <| tasks ::= list_delete n |>)
  | Some (RetryAfterDelay c) =>
      schedule_ack_admission (ch_origin c) (ch_turn c) (ch_epoch c) (ch_attempt c + 1)
        (Some (ch_generation c)) (y <| tasks ::= list_delete n |>)
  | _ => y
  end.

(** The task that awaits the flight with this token on pipeline [p]. *)
Definition awaits (p : nat) (token : string) (t : ack_task) : bool :=
  match t with
  | Admitting c k => bool_decide (ch_origin c = p) && bool_decide (k = token)
  | _ => false
  end.

(** [start_next] returned the item ([true]) or raised. *)
Definition wake (p : nat) (token : string) (returned : bool) (mint : string) now y : AckSystem W L :=
  match list_find (λ t, awaits p token t = true) (tasks y) with
  | None => y
  | Some (n, t) =>
      let y := y <| tasks ::= list_delete n |> in
      if returned then y else retry_or_abandon (task_chain t) true mint now y
  end.

(** The [start_next] call a scheduler step ends, with whether it returned. *)
Definition ended_flight (o : @sched_op W L) (s : Scheduler W L) : option (string * bool) :=
  match o with
  | SResumeFlight n o _ _ =>
      match flights s !! n, o with
      | Some (Speaking _ token), Returned => Some (token, true)
      | Some (Failing _ token), _ => Some (token, false)
      | _, _ => None
      end
  | _ => None
  end.

(** Any call on the scheduler of pipeline [p]. *)
Definition sched_step (p : nat) (o : sched_op) (mint : string) now y : AckSystem W L :=
  let ended := pl ← pipelines y !! p; ended_flight o (pl_scheduler pl) in
  let y := (sched_call p (λ s, (sexec o s, tt)) y).1 in
  match ended with
  | Some (token, returned) => wake p token returned mint now y
  | None => y
  end.

(** The enqueueing end of [emit_early_ack]. *)
Definition emit_ack (p : nat) (turn : string) (epoch : N) (mint : string) y : AckSystem W L :=
  let y := enqueue_ack p turn epoch mint y in
  let y := y <| ledger ::= (λ l, l <| ack_emitted_turns ::= ({[turn]} ∪.) |>) |> in
  schedule_ack_admission p turn epoch 1 None y.

(** [emit_early_ack]; [search_task] is whether a handle is passed. *)
Definition emit_early_ack (p : nat) (turn : string) (epoch : N) (dispatched search_task : bool)
    (mint : string) y : AckSystem W L * result unit :=
  if dispatched && negb search_task then (y, Ret tt)
  else if negb dispatched && search_task then
    (y, Raise (ValueError "search_task may only be supplied on an already-dispatched path"))
  else if negb (enable_early_ack y) || has_emitted_ack turn (ledger y) then (y, Ret tt)
  else match pipelines y !! p with
       | None => (y, Ret tt)
       | Some pl =>
           if negb (pl_tts pl) || negb (bool_decide (connection y = Some p)) || negb (pl_active pl)
              || negb (accepts_epoch y epoch) then (y, Ret tt)
           else if search_task then (y <| emits ::= (λ l, l ++ [mkEmit p turn epoch]) |>, Ret tt)
           else (emit_ack p turn epoch mint y, Ret tt)
       end.

(** After [sleep(0)]; [finished] is [search_task.done()]. *)
Definition resume_emit (n : nat) (finished : bool) (mint : string) y : AckSystem W L :=
  match emits y !! n with
  | None => y
  | Some f =>
      let y := y <| emits ::= list_delete n |> in
      if finished then y else emit_ack (em_origin f) (em_turn f) (em_epoch f) mint y
  end.

(** ** Runs *)

Inductive ack_op :=
| ANextTurn
| AClearLatch (turn : string)
| ASettle (p : nat) (turn : string) (cancel_admitted : bool) (now : Q)
| ARegister (turn work_item : string)
| ARelease (turn work_item : string)
| AReleaseAll (turn : string)
| AEmit (p : nat) (turn : string) (epoch : N) (dispatched search_task : bool) (mint : string)
| AResumeEmit (n : nat) (finished : bool) (mint : string)
| ARunTask (n : nat) (env : slot_env) (mint : string) (now : Q)
| ASched (p : nat) (o : @sched_op W L) (mint : string) (now : Q)
| ACancelTask (n : nat)
| AClearAll
| AConnect (tts : bool) (epoch : N) (s : Scheduler W L)
| ASetActive (p : nat) (active : bool)
| ASetConnection (p : option nat)
| ASetAccepts (f : N → bool)
| ASetPolicy (enable : bool) (text : string).

Definition aexec (o : ack_op) y : AckSystem W L :=
  match o with
  | ANextTurn => y <| ledger ::= (λ l, (next_turn_id l).1) |>
  | AClearLatch t => y <| ledger ::= clear_ack_latch t |>
  | ASettle p t c now => settle_turn_ack p t c now y
  | ARegister t w => y <| ledger ::= register_turn_work_item t w |>
  | ARelease t w => y <| ledger ::= release_turn_work_item t w |>
  | AReleaseAll t => y <| ledger ::= release_all_turn_work_items t |>
  | AEmit p t e d h mint => (emit_early_ack p t e d h mint y).1
  | AResumeEmit n finished mint => resume_emit n finished mint y
  | ARunTask n env mint now => run_task n env mint now y
  | ASched p o mint now => sched_step p o mint now y
  | ACancelTask n => y <| tasks ::= list_delete n |>
  | AClearAll => y <| ledger ::= clear_all |>
  | AConnect tts epoch s =>
      y <| pipelines ::= (λ l, l ++ [mkPipeline tts true epoch s]) |> <| connection := Some (length (pipelines y)) |>
  | ASetActive p b => y <| pipelines ::= alter (λ pl, pl <| pl_active := b |>) p |>
  | ASetConnection c => y <| connection := c |>
  | ASetAccepts f => y <| accepts_epoch := f |>
  | ASetPolicy b text => y <| enable_early_ack := b |> <| early_ack_text := text |>
  end.

Definition arun (os : list ack_op) y : AckSystem W L := foldl (λ y o, aexec o y) y os.

End ack_system.
