(* ===== verification/TurnAckFacts.v ===== *)
(** Facts about the turn acknowledgement ledger.

    The admission chains are abstracted to a small state machine
    ([chain_step]): the generation entries, the ledger-wide sequence, the
    pending continuations and the calls of [start_next] made so far.  Every
    operation of the ledger, and every call on a scheduler with its callbacks,
    is one of its steps or, for [clear_all], drops the entries ([aexec_step]); the theorems on chains are inductions
    on the steps. *)

From S2P Require Import Prelude PyDict Contracts SessionState SpeechLifecycle SpeechScheduler SpeechSchedulerFacts SpeechSystem TurnAckLedger.
From stdpp Require Import pretty sorting.

(** ** The machine *)

Record chains := mkChains {
  k_entries : dict string N;
  k_sequence : N;
  k_tasks : list ack_task;
  k_starts : list start_call
}.

Definition entry_superseded (entries : dict string N) (c : chain) : bool :=
  match dict_get (ch_turn c) entries with
  | Some g => negb (g =? ch_generation c)%N
  | None => false
  end.

(** What a finished attempt leaves: nothing, or one continuation. *)
Definition continues (c : chain) (next : option ack_task) : Prop :=
  next = None ∨ (∃ token, next = Some (Admitting c token)) ∨
  (next = Some (RetryAfterDelay c) ∧ (ch_attempt c < ACK_ADMISSION_MAX_ATTEMPTS)%N).

Definition claimed (turn : string) (g : N) (entries : dict string N) : dict string N :=
  dict_trim MAX_ACK_GENERATION_TURNS (dict_move_to_end turn (dict_set turn g entries)).

Inductive chain_step : chains → chains → Prop :=
| step_idle k : chain_step k k
| step_drop e q ts t rest st :
    ts ≡ₚ t :: rest → chain_step (mkChains e q ts st) (mkChains e q rest st)
| step_retry e q ts c token rest st :
    ts ≡ₚ Admitting c token :: rest → (ch_attempt c < ACK_ADMISSION_MAX_ATTEMPTS)%N →
    chain_step (mkChains e q ts st) (mkChains e q (rest ++ [RetryAfterDelay c]) st)
| step_wakeup e q ts c rest st :
    ts ≡ₚ RetryAfterDelay c :: rest →
    chain_step (mkChains e q ts st)
      (mkChains e q (rest ++ [Admit (mkChain (ch_origin c) (ch_turn c) (ch_epoch c) (ch_generation c)
                                       (ch_attempt c + 1))]) st)
| step_start e q ts c rest st next :
    ts ≡ₚ Admit c :: rest → entry_superseded e c = false → continues c next →
    chain_step (mkChains e q ts st)
      (mkChains e q (rest ++ option_list next)
         (st ++ [mkStart (ch_turn c) (ch_generation c) (ch_attempt c)]))
| step_claim e q ts st p turn epoch :
    chain_step (mkChains e q ts st)
      (mkChains (claimed turn (N.succ q) e) (N.succ q)
         (ts ++ [Admit (mkChain p turn epoch (N.succ q) 1)]) st).

(** [clear_all] *)
Definition cleared (k : chains) : chains := mkChains [] (k_sequence k) (k_tasks k) (k_starts k).

Section simulation.
Context {W L : Type} `{!ProgressSink W} `{!SpeechSlot L}.
Implicit Types (y : AckSystem W L) (now : Q).

Definition chains_of y : chains :=
  mkChains (ack_admission_generation (ledger y)) (ack_generation_sequence (ledger y)) (tasks y) (starts y).

Lemma superseded_entries c y : superseded c y = entry_superseded (k_entries (chains_of y)) c.
Proof. done. Qed.

(** ** What leaves the chains alone *)

Definition generations (l : TurnAckLedger) := (ack_admission_generation l, ack_generation_sequence l).

Lemma ack_events_generations es l : generations (foldl ack_event l es) = generations l.
Proof.
  revert l. induction es as [|e es IH]; intros l; simpl; [done|]. rewrite IH.
  destruct e; simpl; [done | | done..]. unfold on_ack_terminal. by destruct (gi_turn_id _).
Qed.

Lemma sched_call_chains {A} p (f : Scheduler W L → Scheduler W L * A) y :
  chains_of (sched_call p f y).1 = chains_of y.
Proof.
  unfold sched_call. destruct (pipelines y !! p) as [pl|]; [|done]. unfold chains_of. simpl.
  pose proof (ack_events_generations (drop (length (trace (pl_scheduler pl))) (trace (f (pl_scheduler pl)).1))
    (ledger y)) as E.
  injection E as -> ->. done.
Qed.

Lemma settle_chains p t b now y : chains_of (settle_turn_ack p t b now y) = chains_of y.
Proof.
  unfold settle_turn_ack. cbv zeta.
  transitivity (chains_of (sched_call p (discard_queued_ack (ack_work_item_id t))
    (if b then (sched_call p (SpeechScheduler.cancel (Some (ack_work_item_id t)) now) y).1 else y)).1); [done|].
  rewrite sched_call_chains. destruct b; [apply sched_call_chains | done].
Qed.

Lemma enqueue_ack_chains p t e mint y : chains_of (enqueue_ack p t e mint y) = chains_of y.
Proof. apply sched_call_chains. Qed.

Definition more_tasks (ts : list ack_task) (k : chains) : chains :=
  mkChains (k_entries k) (k_sequence k) (k_tasks k ++ ts) (k_starts k).

Lemma more_tasks_nil k : more_tasks [] k = k.
Proof. destruct k. unfold more_tasks. simpl. by rewrite app_nil_r. Qed.

(** An attempt that failed ends the chain or schedules its retry. *)
Lemma retry_chains c b mint now y :
  chains_of (retry_or_abandon c b mint now y) = chains_of y ∨
  (ch_attempt c < ACK_ADMISSION_MAX_ATTEMPTS)%N ∧
  chains_of (retry_or_abandon c b mint now y) = more_tasks [RetryAfterDelay c] (chains_of y).
Proof.
  unfold retry_or_abandon. destruct (superseded c y); [by left|].
  destruct (negb _); [left; apply settle_chains|].
  destruct (_ <=? _)%N eqn:E; [left; apply settle_chains|]. right. apply N.leb_gt in E. split; [done|]. cbv zeta.
  set (y1 := if b then _ else _). assert (chains_of y1 = chains_of y) as <-; [|done].
  unfold y1. destruct b; [apply enqueue_ack_chains | done].
Qed.

(** ** Simulation *)

Lemma admit_step_chains c env mint now y rest :
  tasks y ≡ₚ Admit c :: rest →
  chain_step (chains_of y) (chains_of (admit_step c env mint now (y <| tasks := rest |>))).
Proof.
  intros Hp. unfold admit_step. change (superseded c (y <| tasks := rest |>)) with (superseded c y).
  destruct (superseded c y) eqn:Es; [by eapply step_drop|].
  match goal with |- context [let (_, _) := sched_call ?p ?f ?y2 in _] =>
    pose proof (sched_call_chains p f y2) as Ec; destruct (sched_call p f y2) as [y1 a] end.
  cbn [fst] in Ec.
  assert (chain_step (chains_of y) (more_tasks [] (chains_of y1))) as Hnone.
  { rewrite Ec. apply (step_start _ _ _ _ _ _ None); [done.. | by left]. }
  assert ((ch_attempt c < ACK_ADMISSION_MAX_ATTEMPTS)%N →
    chain_step (chains_of y) (more_tasks [RetryAfterDelay c] (chains_of y1))) as Hretry.
  { intros Ha. rewrite Ec. apply (step_start _ _ _ _ _ _ (Some (RetryAfterDelay c))); [done.. | by right; right]. }
  rewrite more_tasks_nil in Hnone.
  destruct a as [[i|]|]; [| destruct (retry_chains c false mint now y1) as [->|[Ha ->]]; auto ..].
  change (chain_step (chains_of y) (more_tasks [Admitting c (se_token env)] (chains_of y1))). rewrite Ec.
  apply (step_start _ _ _ _ _ _ (Some (Admitting c (se_token env)))); [done.. |]. right; left; eauto.
Qed.

Lemma run_task_step n env mint now y : chain_step (chains_of y) (chains_of (run_task n env mint now y)).
Proof.
  unfold run_task. destruct (tasks y !! n) as [t|] eqn:E; [|constructor].
  apply delete_Permutation in E. destruct t as [c|c k|c]; [| constructor |].
  - by apply admit_step_chains.
  - by apply step_wakeup.
Qed.

Lemma wake_step p k b mint now y : chain_step (chains_of y) (chains_of (wake p k b mint now y)).
Proof.
  unfold wake. destruct (list_find _ _) as [[n t]|] eqn:E; [|constructor].
  apply list_find_Some in E as (El & Ht & _). apply delete_Permutation in El. cbv zeta.
  destruct b; [by eapply step_drop|]. destruct t as [|c k'|]; try done. simpl task_chain.
  destruct (retry_chains c true mint now (y <| tasks ::= list_delete n |>)) as [->|[Ha ->]].
  - by eapply step_drop.
  - by eapply step_retry.
Qed.

Lemma emit_ack_step p t e mint y : chain_step (chains_of y) (chains_of (emit_ack p t e mint y)).
Proof.
  pose proof (enqueue_ack_chains p t e mint y) as E. rewrite <- E. apply step_claim.
Qed.

Lemma emit_step p t e d h mint y : chain_step (chains_of y) (chains_of (emit_early_ack p t e d h mint y).1).
Proof.
  unfold emit_early_ack. destruct (d && negb h); [constructor|]. destruct (negb d && h); [constructor|].
  destruct (_ || _); [constructor|]. destruct (pipelines y !! p); [|constructor].
  destruct (_ || _); [constructor|]. destruct h; [constructor | apply emit_ack_step].
Qed.

Lemma release_generations t w l : generations (release_turn_work_item t w l) = generations l.
Proof. unfold release_turn_work_item. destruct (dict_get _ _); [|done]. by case_decide. Qed.

Definition is_clear (o : @ack_op W L) : bool := match o with AClearAll => true | _ => false end.

Lemma aexec_step o y :
  if is_clear o then chains_of (aexec o y) = cleared (chains_of y)
  else chain_step (chains_of y) (chains_of (aexec o y)).
Proof.
  destruct o; simpl is_clear; cbv iota; try constructor; simpl aexec.
  - rewrite settle_chains. constructor.
  - unfold chains_of. simpl. pose proof (release_generations turn work_item (ledger y)) as E.
    injection E as -> ->. constructor.
  - apply emit_step.
  - unfold resume_emit. destruct (emits y !! n); [|constructor]. destruct finished; [constructor|].
    match goal with |- chain_step _ (chains_of (emit_ack _ _ _ _ ?z)) => exact (emit_ack_step _ _ _ _ z) end.
  - apply run_task_step.
  - unfold sched_step. cbv zeta. rewrite <- (sched_call_chains p (λ s, (sexec o s, tt)) y).
    destruct (_ ≫= _) as [[k b]|]; [apply wake_step | constructor].
  - destruct (tasks y !! n) as [t|] eqn:E.
    + apply delete_Permutation in E. by eapply step_drop.
    + apply lookup_ge_None in E. unfold chains_of. simpl. change (list_delete n (tasks y)) with (delete n (tasks y)).
      rewrite delete_take_drop, take_ge, drop_ge, app_nil_r by lia. constructor.
Qed.

End simulation.

(** ** Generation entries *)

Definition older (p q : string * N) : Prop := (p.2 < q.2)%N.

(** Entries are in the order their generations were claimed. *)
Record entries_inv (e : dict string N) (q : N) : Prop := {
  ei_wf : dict_wf e;
  ei_order : StronglySorted older e;
  ei_range p : p ∈ e → (1 ≤ p.2 ≤ q)%N;
  ei_cap : (length e ≤ MAX_ACK_GENERATION_TURNS)%nat
}.

Lemma filter_order {A} (R : relation A) (P : A → Prop) `{∀ x, Decision (P x)} (l : list A) :
  StronglySorted R l → StronglySorted R (filter P l).
Proof.
  induction 1 as [|x l Hl IH Hx]; [constructor|]. rewrite filter_cons. case_decide; [|done].
  constructor; [done|]. rewrite Forall_forall in *. intros z [_ Hz]%list_elem_of_filter. auto.
Qed.

Lemma pop_set t g (e : dict string N) : dict_pop t (dict_set t g e) = dict_pop t e.
Proof.
  unfold dict_pop. induction e as [|[k v] e IH]; simpl.
  - rewrite filter_cons, decide_False by (simpl; congruence). done.
  - case_decide; subst; [|rewrite !filter_cons, IH; done].
    rewrite !filter_cons, !decide_False by (simpl; congruence). done.
Qed.

Lemma claimed_eq t g e : claimed t g e = dict_trim MAX_ACK_GENERATION_TURNS (dict_pop t e ++ [(t, g)]).
Proof. unfold claimed. by rewrite dict_set_move_last, pop_set. Qed.

Lemma claim_order t e q :
  entries_inv e q → StronglySorted older (dict_pop t e ++ [(t, N.succ q)]).
Proof.
  intros He. apply StronglySorted_app. split_and!.
  - intros a b [_ Ha]%list_elem_of_filter ->%list_elem_of_singleton. apply (ei_range _ _ He) in Ha.
    unfold older. simpl. lia.
  - apply filter_order, He.
  - repeat constructor.
Qed.

Lemma entries_claim t e q : entries_inv e q → entries_inv (claimed t (N.succ q) e) (N.succ q).
Proof.
  intros He. pose proof (claim_order t e q He) as Ho. rewrite claimed_eq.
  destruct (dict_trim_suffix MAX_ACK_GENERATION_TURNS (dict_pop t e ++ [(t, N.succ q)])) as [gone Hg].
  split.
  - rewrite <- claimed_eq. pose proof (ei_wf _ _ He). unfold claimed. auto with dict.
  - rewrite Hg in Ho. by apply StronglySorted_app_1_r in Ho.
  - intros p Hp.
    assert (p ∈ dict_pop t e ++ [(t, N.succ q)]) as Hin by (rewrite Hg; apply elem_of_app; by right).
    apply elem_of_app in Hin as [[_ Hin]%list_elem_of_filter| ->%list_elem_of_singleton]; simpl; [|lia].
    apply (ei_range _ _ He) in Hin. lia.
  - apply dict_trim_length.
Qed.

Lemma entries_nil q : entries_inv [] q.
Proof. split; [constructor.. | by intros p ?%not_elem_of_nil | simpl; lia]. Qed.

(** Entries newer than [g] are numbered from [g + 1] to [q]. *)
Lemma newer_length (e : dict string N) (q g : N) :
  StronglySorted older e → (∀ p, p ∈ e → (g < p.2 ≤ q)%N) → (N.of_nat (length e) ≤ q - g)%N.
Proof.
  intros Ho. revert g. induction Ho as [|p e Ho IH Hp]; intros g Hr; simpl; [lia|].
  rewrite Forall_forall in Hp.
  assert (g < p.2 ≤ q)%N by (apply Hr; constructor).
  assert (N.of_nat (length e) ≤ q - p.2)%N; [|lia].
  apply IH. intros r Hin. split; [by apply Hp | apply Hr; by right].
Qed.

Lemma trim_keeps cap (d1 d2 : dict string N) p :
  (length d2 < cap)%nat → p ∈ dict_trim cap (d1 ++ p :: d2).
Proof.
  intros Hc. induction d1 as [|r d1 IH]; simpl app.
  - rewrite dict_trim_small by (simpl; lia). constructor.
  - simpl dict_trim. case_decide; [|done]. right. apply elem_of_app. right. constructor.
Qed.

(** An entry survives the claims of the next [MAX_ACK_GENERATION_TURNS - 1]
    generations by other turns. *)
Lemma claim_keeps t t' g e q :
  entries_inv e q → t ≠ t' → dict_get t e = Some g → (N.succ q < g + N.of_nat MAX_ACK_GENERATION_TURNS)%N →
  dict_get t (claimed t' (N.succ q) e) = Some g.
Proof.
  intros He Hne Hg Hq. pose proof (claim_order t' e q He) as Ho.
  apply dict_elem_get; [apply entries_claim, He|]. rewrite claimed_eq.
  assert ((t, g) ∈ dict_pop t' e ++ [(t', N.succ q)]) as Hin.
  { apply elem_of_app. left. apply list_elem_of_filter. split; [done | by apply dict_get_elem]. }
  assert (∀ p, p ∈ dict_pop t' e ++ [(t', N.succ q)] → (p.2 ≤ N.succ q)%N) as Hr.
  { intros p [[_ Hp]%list_elem_of_filter| ->%list_elem_of_singleton]%elem_of_app; simpl; [|lia].
    apply (ei_range _ _ He) in Hp. lia. }
  apply list_elem_of_split in Hin as (d1 & d2 & E). rewrite E in *. apply trim_keeps.
  apply StronglySorted_app_1_r in Ho. inversion Ho as [|? ? Ho2 Hf]; subst. rewrite Forall_forall in Hf.
  assert (g ≤ N.succ q)%N by (apply (Hr (t, g)); apply elem_of_app; right; constructor).
  assert (N.of_nat (length d2) ≤ N.succ q - g)%N; [|lia].
  apply newer_length; [done|]. intros p Hp. split; [by apply (Hf p)|].
  apply Hr. apply elem_of_app. right. by right.
Qed.

(** ** Continuations and attempts *)

Definition next_attempt (t : ack_task) : N :=
  match t with
  | Admit c => ch_attempt c
  | Admitting c _ | RetryAfterDelay c => ch_attempt c + 1
  end.

Definition last_attempt (t : ack_task) : N :=
  match t with
  | Admit _ | Admitting _ _ => ACK_ADMISSION_MAX_ATTEMPTS
  | RetryAfterDelay _ => ACK_ADMISSION_MAX_ATTEMPTS - 1
  end.

Definition task_generation (t : ack_task) : N := ch_generation (task_chain t).

(** A continuation's chain was claimed, and it has made only the attempts
    before its next one. *)
Definition task_ok (q : N) (st : list start_call) (t : ack_task) : Prop :=
  (1 ≤ task_generation t ≤ q)%N ∧ (1 ≤ ch_attempt (task_chain t) ≤ last_attempt t)%N ∧
  ∀ s, s ∈ st → st_generation s = task_generation t → (st_attempt s < next_attempt t)%N.

Definition start_id (s : start_call) : N * N := (st_generation s, st_attempt s).

Record chains_inv (k : chains) : Prop := {
  ki_entries : entries_inv (k_entries k) (k_sequence k);
  ki_tasks : NoDup (task_generation <$> k_tasks k);
  ki_ok : Forall (task_ok (k_sequence k) (k_starts k)) (k_tasks k);
  ki_starts : Forall (λ s, st_generation s ≤ k_sequence k ∧ 1 ≤ st_attempt s ≤ ACK_ADMISSION_MAX_ATTEMPTS)%N
                (k_starts k);
  ki_once : NoDup (start_id <$> k_starts k)
}.

Lemma inv_perm e q ts ts' st : ts ≡ₚ ts' → chains_inv (mkChains e q ts st) → chains_inv (mkChains e q ts' st).
Proof.
  intros Hp [He Hn Hf Hs Ho]. split; simpl in *; try done.
  - by rewrite <- Hp.
  - by rewrite <- Hp.
Qed.

Lemma inv_drop e q t ts st : chains_inv (mkChains e q (t :: ts) st) → chains_inv (mkChains e q ts st).
Proof.
  intros [He Hn Hf Hs Ho]. simpl in *. apply NoDup_cons in Hn as [_ Hn]. apply Forall_cons in Hf as [_ Hf].
  by split.
Qed.

Ltac chain_arith :=
  unfold task_ok, task_generation, last_attempt, next_attempt, ACK_ADMISSION_MAX_ATTEMPTS in *; simpl in *;
  split_and!; try done; lia.

(** A continuation is replaced by the next one of its chain. *)
Lemma inv_replace e q t t' ts rest st :
  ts ≡ₚ t :: rest → chains_inv (mkChains e q ts st) → task_generation t' = task_generation t →
  (task_ok q st t → task_ok q st t') → chains_inv (mkChains e q (rest ++ [t']) st).
Proof.
  intros Hp Hi%(inv_perm _ _ _ _ _ Hp) Hg Hok. apply (inv_perm _ _ (t' :: rest)); [apply Permutation_cons_append|].
  destruct Hi as [He Hn Hf Hs Ho]. split; simpl in *; try done.
  - by rewrite Hg.
  - apply Forall_cons in Hf as [Ht Hf]. constructor; auto.
Qed.

Lemma retry_ok q st c token :
  (ch_attempt c < ACK_ADMISSION_MAX_ATTEMPTS)%N → task_ok q st (Admitting c token) → task_ok q st (RetryAfterDelay c).
Proof.
  intros Ha (H1 & H2 & H3). chain_arith.
Qed.

Lemma wakeup_ok q st c :
  task_ok q st (RetryAfterDelay c) →
  task_ok q st (Admit (mkChain (ch_origin c) (ch_turn c) (ch_epoch c) (ch_generation c) (ch_attempt c + 1))).
Proof.
  intros (H1 & H2 & H3). chain_arith.
Qed.

(** A continuation calls [start_next]. *)
Lemma inv_start e q c ts st :
  chains_inv (mkChains e q (Admit c :: ts) st) →
  ∃ token, chains_inv (mkChains e q (Admitting c token :: ts)
    (st ++ [mkStart (ch_turn c) (ch_generation c) (ch_attempt c)])).
Proof.
  intros [He Hn Hf Hs Ho]. exists EmptyString. simpl in *. apply Forall_cons in Hf as [(Hg & Ha & Hc) Hf].
  apply NoDup_cons in Hn as Hn'. destruct Hn' as [Hfresh _]. simpl in *. split; simpl; try done.
  - constructor.
    + split; [done|]. split; [done|]. intros s [Hin| ->%list_elem_of_singleton]%elem_of_app E; simpl; [|lia].
      specialize (Hc s Hin E). lia.
    + rewrite Forall_forall in *. intros t Ht. destruct (Hf t Ht) as (H1 & H2 & H3).
      split; [done|]. split; [done|].
      intros s [Hin| ->%list_elem_of_singleton]%elem_of_app E; [auto|]. exfalso. apply Hfresh.
      change (task_generation (Admit c)) with (ch_generation c). simpl in E. rewrite E.
      by apply (list_elem_of_fmap_2 task_generation).
  - apply Forall_app. split; [done|]. constructor; [unfold task_generation in Hg; simpl in *; lia | done].
  - rewrite fmap_app. apply NoDup_app. split_and!; [done | | repeat constructor; apply not_elem_of_nil].
    intros x (s & -> & Hin)%list_elem_of_fmap Hx%list_elem_of_singleton. unfold start_id in Hx. simpl in Hx.
    injection Hx as E1 E2. specialize (Hc s Hin E1). lia.
Qed.

Lemma inv_claim e q ts st p t ep :
  chains_inv (mkChains e q ts st) →
  chains_inv (mkChains (claimed t (N.succ q) e) (N.succ q) (Admit (mkChain p t ep (N.succ q) 1) :: ts) st).
Proof.
  intros [He Hn Hf Hs Ho]. simpl in *. split; simpl.
  - by apply entries_claim.
  - constructor; [|done]. intros (t1 & E & Hin)%list_elem_of_fmap. rewrite Forall_forall in Hf.
    destruct (Hf t1 Hin) as (H1 & _). unfold task_generation in E at 1. simpl in E. lia.
  - constructor.
    + split; [unfold task_generation; simpl; lia|]. split; [simpl; unfold ACK_ADMISSION_MAX_ATTEMPTS; lia|].
      intros s Hin E. exfalso. unfold task_generation in E. simpl in E.
      rewrite Forall_forall in Hs. destruct (Hs s Hin) as [H _]. lia.
    + eapply Forall_impl; [exact Hf|]. intros t1 (H1 & H2 & H3). split; [lia | done].
  - eapply Forall_impl; [exact Hs|]. simpl. intros s Hin. lia.
  - done.
Qed.

Lemma chain_step_inv k k' : chain_step k k' → chains_inv k → chains_inv k'.
Proof.
  intros Hs. destruct Hs as [| e q ts t r st Hp | e q ts c tok r st Hp Ha | e q ts c r st Hp
    | e q ts c r st next Hp Hsup Hn | e q ts st p t ep]; intros Hi; [done | ..].
  - by apply (inv_perm _ _ _ _ _ Hp), inv_drop in Hi.
  - eapply inv_replace; [done | done | done |]. by apply retry_ok.
  - eapply inv_replace; [done | done | done |]. apply wakeup_ok.
  - apply (inv_perm _ _ _ _ _ Hp), inv_start in Hi as [tok Hi].
    destruct Hn as [->|[[tok' ->]|[-> Ha]]]; simpl option_list.
    + rewrite app_nil_r. by eapply inv_drop.
    + by apply (inv_replace e q (Admitting c tok) _ _ r _ (Permutation_refl _) Hi).
    + apply (inv_replace e q (Admitting c tok) _ _ r _ (Permutation_refl _) Hi); [done|]. by apply retry_ok.
  - eapply inv_perm; [apply Permutation_cons_append|]. by apply inv_claim.
Qed.

Lemma cleared_inv k : chains_inv k → chains_inv (cleared k).
Proof. intros [He Hn Hf Hst Ho]. split; simpl in *; try done. apply entries_nil. Qed.

Lemma init_chains_inv : chains_inv (mkChains [] 0 [] []).
Proof. split; simpl; [apply entries_nil | constructor..]. Qed.

(** ** Supersession *)

(** The turn's entry is held by generation [g] or a later one. *)
Definition held_from (t : string) (g : N) (k : chains) : Prop :=
  ∃ g', (g ≤ g')%N ∧ dict_get t (k_entries k) = Some g'.

Definition starts_after (t : string) (g : N) (k k' : chains) : Prop :=
  ∃ new, k_starts k' = k_starts k ++ new ∧ Forall (λ s, st_turn s = t → (g ≤ st_generation s)%N) new.

Lemma starts_after_same t g k k' : k_starts k' = k_starts k → starts_after t g k k'.
Proof. exists []. by rewrite app_nil_r. Qed.

Lemma starts_after_trans t g k1 k2 k3 : starts_after t g k1 k2 → starts_after t g k2 k3 → starts_after t g k1 k3.
Proof.
  intros (n1 & E1 & H1) (n2 & E2 & H2). exists (n1 ++ n2). rewrite E2, E1, app_assoc. split; [done|].
  by apply Forall_app.
Qed.

Lemma step_sequence k k' : chain_step k k' → (k_sequence k ≤ k_sequence k')%N.
Proof. destruct 1; simpl; lia. Qed.

Lemma step_held t g k k' :
  chain_step k k' → chains_inv k → held_from t g k →
  (k_sequence k' < g + N.of_nat MAX_ACK_GENERATION_TURNS)%N → held_from t g k' ∧ starts_after t g k k'.
Proof.
  intros Hs Hi (g' & Hg & Ht) Hq.
  destruct Hs as [| | | | e q ts c r st next Hp Hsup Hn | e q ts st p t' ep];
    try (split; [by exists g' | by apply starts_after_same]).
  - split; [by exists g'|]. eexists. split; [done|]. constructor; [|constructor]. simpl. intros <-.
    unfold entry_superseded in Hsup. simpl in Ht. rewrite Ht in Hsup.
    apply negb_false_iff, N.eqb_eq in Hsup. lia.
  - split; [|by apply starts_after_same]. simpl in *. destruct (decide (t = t')) as [<-|Ht'].
    + exists (N.succ q). split.
      * apply dict_get_elem, (ei_range _ _ (ki_entries _ Hi)) in Ht. simpl in Ht. lia.
      * apply dict_elem_get; [apply entries_claim, Hi|]. rewrite claimed_eq. apply dict_trim_last.
        unfold MAX_ACK_GENERATION_TURNS. lia.
    + exists g'. split; [done|]. apply claim_keeps; [apply Hi | done.. | lia].
Qed.

(** ** Runs of the ledger *)

Section runs.
Context {W L : Type} `{!ProgressSink W} `{!SpeechSlot L}.
Implicit Types (y : AckSystem W L) (os : list (@ack_op W L)) (now : Q).

Lemma aexec_inv (o : @ack_op W L) y : chains_inv (chains_of y) → chains_inv (chains_of (aexec o y)).
Proof.
  pose proof (aexec_step o y) as H. destruct (is_clear o); [rewrite H; apply cleared_inv | by apply chain_step_inv].
Qed.

Lemma arun_inv os y : chains_inv (chains_of y) → chains_inv (chains_of (arun os y)).
Proof. revert y. induction os as [|o os IH]; intros y Hi; simpl; [done|]. by apply IH, aexec_inv. Qed.

Lemma arun_init_inv os text : chains_inv (chains_of (arun os (AckSystem_init text))).
Proof. apply arun_inv, init_chains_inv. Qed.

Lemma aexec_sequence (o : @ack_op W L) y :
  (k_sequence (chains_of y) ≤ k_sequence (chains_of (aexec o y)))%N.
Proof.
  pose proof (aexec_step o y) as H. destruct (is_clear o); [by rewrite H | by apply step_sequence].
Qed.

Lemma arun_sequence os y : (k_sequence (chains_of y) ≤ k_sequence (chains_of (arun os y)))%N.
Proof.
  revert y. induction os as [|o os IH]; intros y; simpl; [done|].
  etransitivity; [apply (aexec_sequence o) | apply IH].
Qed.

Lemma arun_held t g os y :
  chains_inv (chains_of y) → held_from t g (chains_of y) → Forall (λ o, is_clear o = false) os →
  (k_sequence (chains_of (arun os y)) < g + N.of_nat MAX_ACK_GENERATION_TURNS)%N →
  starts_after t g (chains_of y) (chains_of (arun os y)).
Proof.
  intros Hi Hh Hos. revert y Hi Hh. induction Hos as [|o os Ho Hos IH]; intros y Hi Hh Hq.
  { by apply starts_after_same. }
  change (arun (o :: os) y) with (arun os (aexec o y)) in *.
  pose proof (aexec_step o y) as Hs. rewrite Ho in Hs.
  pose proof (arun_sequence os (aexec o y)) as Hle.
  destruct (step_held t g _ _ Hs Hi Hh) as [Hh' Ha]; [lia|].
  eapply starts_after_trans; [exact Ha|]. apply IH; [by apply aexec_inv | done | done].
Qed.

(** *** Queued acknowledgements *)

Definition is_turn_ack (t : string) (i : SpeechItem) : Prop :=
  si_role i = ROLE_ACK ∧ si_ack_id i = Some (ack_work_item_id t).

(** The origin's scheduler holds a queued acknowledgement of the turn. *)
Definition ack_queued (p : nat) (t : string) y : Prop :=
  ∃ pl i, pipelines y !! p = Some pl ∧ i ∈ queued (ack_work_item_id t) (pl_scheduler pl) ∧ is_turn_ack t i.

Lemma discard_queued_none k m (s : Scheduler W L) i :
  i ∈ queued k (discard_queued k m s).1 → m i = false.
Proof.
  unfold discard_queued. destruct (filter (λ i, m i = true) (queued k s)) as [|x gone] eqn:E; simpl.
  - intros Hin. destruct (m i) eqn:Em; [|done]. exfalso.
    assert (i ∈ filter (λ i, m i = true) (queued k s)) as H by (by apply list_elem_of_filter).
    rewrite E in H. by apply not_elem_of_nil in H.
  - rewrite queued_set_queue, decide_True by done. by intros [? _]%list_elem_of_filter.
Qed.

Lemma discard_queued_ack_none t (s : Scheduler W L) i :
  i ∈ queued (ack_work_item_id t) (discard_queued_ack (ack_work_item_id t) s).1 → ¬ is_turn_ack t i.
Proof.
  unfold discard_queued_ack.
  match goal with |- context [discard_queued ?k ?m s] =>
    pose proof (discard_queued_none k m s i) as H; destruct (discard_queued k m s) as [s1 gone] end.
  simpl in *. intros Hin [E1 E2]. specialize (H Hin). by rewrite E1, E2, !bool_decide_true in H.
Qed.

Lemma settle_settles p t b now y :
  has_emitted_ack t (ledger (settle_turn_ack p t b now y)) = false ∧
  ¬ ack_queued p t (settle_turn_ack p t b now y).
Proof.
  split.
  - apply bool_decide_eq_false. unfold settle_turn_ack. simpl. set_solver.
  - unfold settle_turn_ack. cbv zeta. set (y0 := if b then _ else _). clearbody y0.
    intros (pl & i & Hp & Hin & Ha). revert Hp. simpl. unfold sched_call.
    destruct (pipelines y0 !! p) as [pl0|] eqn:E; [|simpl; congruence]. simpl.
    rewrite list_lookup_insert_eq by (by eapply lookup_lt_Some). intros [= <-].
    by apply discard_queued_ack_none in Hin.
Qed.

Lemma enqueue_ack_spec p t e mint y pl :
  pipelines y !! p = Some pl →
  ledger (enqueue_ack p t e mint y) = ledger y ∧ tasks (enqueue_ack p t e mint y) = tasks y ∧
  ack_queued p t (enqueue_ack p t e mint y).
Proof.
  intros Hp. unfold enqueue_ack, sched_call. rewrite Hp.
  unfold enqueue. rewrite (decide_True _ _ (eq_refl ROLE_ACK)), decide_True by done. simpl rbind.
  unfold new_SpeechItem, emit_progress. simpl. rewrite drop_all. split_and!; [done..|].
  eexists _, _. simpl. rewrite list_lookup_insert_eq by (by eapply lookup_lt_Some). split; [done|].
  unfold queued. simpl. rewrite dict_get_set_eq. simpl. split; [apply elem_of_app; right; constructor | done].
Qed.

(** *** The registry of delegated children *)

Definition registry y : dict string (gset string) := turn_work_items (ledger y).

Definition registry_wf (d : dict string (gset string)) : Prop :=
  dict_wf d ∧ ∀ t ws, dict_get t d = Some ws → ws ≠ ∅.

Lemma ack_events_registry es l : turn_work_items (foldl ack_event l es) = turn_work_items l.
Proof.
  revert l. induction es as [|e es IH]; intros l; simpl; [done|]. rewrite IH.
  destruct e; simpl; [done | | done..]. unfold on_ack_terminal. by destruct (gi_turn_id _).
Qed.

Lemma sched_call_registry {A} p (f : Scheduler W L → Scheduler W L * A) y :
  registry (sched_call p f y).1 = registry y.
Proof.
  unfold sched_call. destruct (pipelines y !! p) as [pl|]; [|done]. apply ack_events_registry.
Qed.

Lemma settle_registry p t b now y : registry (settle_turn_ack p t b now y) = registry y.
Proof.
  unfold settle_turn_ack. cbv zeta. etransitivity; [apply sched_call_registry|].
  destruct b; [apply sched_call_registry | done].
Qed.

Lemma retry_registry c b mint now y : registry (retry_or_abandon c b mint now y) = registry y.
Proof.
  unfold retry_or_abandon. destruct (superseded c y); [done|]. destruct (negb _); [apply settle_registry|].
  destruct (_ <=? _)%N; [apply settle_registry|]. destruct b; [apply sched_call_registry | done].
Qed.

Lemma run_task_registry n env mint now y : registry (run_task n env mint now y) = registry y.
Proof.
  unfold run_task. destruct (tasks y !! n) as [[c| |c]|]; try done.
  unfold admit_step. destruct (superseded _ _); [done|].
  match goal with |- context [let (_, _) := sched_call ?p ?f ?y2 in _] =>
    pose proof (sched_call_registry p f y2) as E; destruct (sched_call p f y2) as [y1 a] end.
  cbn [fst] in E. destruct a as [[i|]|]; [exact E | rewrite retry_registry; exact E ..].
Qed.

Lemma sched_step_registry p o mint now y : registry (sched_step p o mint now y) = registry y.
Proof.
  unfold sched_step. cbv zeta. rewrite <- (sched_call_registry p (λ s, (sexec o s, tt)) y).
  destruct (_ ≫= _) as [[k b]|]; [|done]. unfold wake. destruct (list_find _ _) as [[n t]|]; [|done].
  destruct b; [done | by rewrite retry_registry].
Qed.

Lemma emit_registry p t e d h mint y : registry (emit_early_ack p t e d h mint y).1 = registry y.
Proof.
  unfold emit_early_ack. repeat match goal with |- context [if ?b then _ else _] => destruct b; [done|] end.
  destruct (pipelines y !! p); [|done]. destruct (_ || _); [done|]. destruct h; [done|].
  exact (sched_call_registry _ _ _).
Qed.

Lemma registry_wf_pop t d : registry_wf d → registry_wf (dict_pop t d).
Proof. intros [H1 H2]. split; [by apply dict_wf_pop|]. intros t' ws. rewrite dict_get_pop. case_decide; [done | apply H2]. Qed.

Lemma registry_wf_set t ws d : ws ≠ ∅ → registry_wf d → registry_wf (dict_set t ws d).
Proof.
  intros Hne [H1 H2]. split; [by apply dict_wf_set|]. intros t' ws'. rewrite dict_get_set. case_decide; [|apply H2].
  by intros [= <-].
Qed.

Lemma aexec_registry_wf (o : @ack_op W L) y : registry_wf (registry y) → registry_wf (registry (aexec o y)).
Proof.
  intros Hw. destruct o; try exact Hw; simpl aexec.
  - by rewrite settle_registry.
  - apply registry_wf_set; [set_solver | done].
  - unfold registry. simpl. unfold release_turn_work_item. fold (registry y).
    destruct (dict_get _ _); [|done]. case_decide; [by apply registry_wf_pop | by apply registry_wf_set].
  - by apply registry_wf_pop.
  - by rewrite emit_registry.
  - unfold resume_emit. destruct (emits y !! n); [|done]. destruct finished; [done|].
    unfold emit_ack, enqueue_ack. match goal with |- context [sched_call ?p ?f ?z] =>
      change (registry_wf (registry z)) in Hw; rewrite <- (sched_call_registry p f z) in Hw end. exact Hw.
  - by rewrite run_task_registry.
  - by rewrite sched_step_registry.
  - split; [constructor | done].
Qed.

Lemma arun_registry_wf os y : registry_wf (registry y) → registry_wf (registry (arun os y)).
Proof. revert y. induction os as [|o os IH]; intros y Hw; simpl; [done|]. by apply IH, aexec_registry_wf. Qed.

End runs.

(** ** Consequences of the invariants *)

Lemma order_distinct e : StronglySorted older e → NoDup (dict_values e).
Proof.
  unfold dict_values. induction 1 as [|p e Ho IH Hp]; simpl; constructor; [|done].
  intros (r & E & Hin)%list_elem_of_fmap. rewrite Forall_forall in Hp. specialize (Hp r Hin).
  unfold older in Hp. lia.
Qed.

Lemma task_attempts t :
  (1 ≤ ch_attempt (task_chain t) ≤ last_attempt t)%N → (ch_attempt (task_chain t) ≤ ACK_ADMISSION_MAX_ATTEMPTS)%N.
Proof. unfold ACK_ADMISSION_MAX_ATTEMPTS. destruct t; simpl; unfold ACK_ADMISSION_MAX_ATTEMPTS; lia. Qed.

(** Attempts of one chain are distinct numbers from 1 to 4. *)
Lemma starts_count (st : list start_call) (P : N → Prop) g :
  Forall (λ s, P (st_generation s) ∧ 1 ≤ st_attempt s ≤ ACK_ADMISSION_MAX_ATTEMPTS)%N st →
  NoDup (start_id <$> st) → (length (filter (λ s, st_generation s = g) st) ≤ 4)%nat.
Proof.
  intros Hf Hn. change 4%nat with (length ((λ a, (g, a)) <$> [1; 2; 3; 4]%N)).
  rewrite <- (length_fmap start_id). apply submseteq_length, NoDup_submseteq.
  - clear Hf. induction st as [|s st IH]; [constructor|]. apply NoDup_cons in Hn as [Hs Hn].
    rewrite filter_cons. case_decide; [|auto]. simpl. constructor; [|auto].
    intros (r & E & [_ Hin]%list_elem_of_filter)%list_elem_of_fmap. apply Hs. rewrite E. by apply list_elem_of_fmap_2.
  - intros x (s & -> & [Hg Hin]%list_elem_of_filter)%list_elem_of_fmap. rewrite Forall_forall in Hf.
    destruct (Hf s Hin) as [_ Ha]. unfold ACK_ADMISSION_MAX_ATTEMPTS in Ha. unfold start_id. rewrite Hg.
    apply list_elem_of_fmap_2.
    assert (st_attempt s = 1 ∨ st_attempt s = 2 ∨ st_attempt s = 3 ∨ st_attempt s = 4)%N as [->|[->|[->| ->]]]
      by lia; set_solver.
Qed.

Lemma owner_sound w t l :
  registry_wf (turn_work_items l) → ack_turn_for_work_item w l = Some t →
  w ∈ children_of t l ∧ has_emitted_ack t l = true.
Proof.
  intros [Hw _]. unfold ack_turn_for_work_item, children_of. destruct (filter _ _) as [|[k ws] r] eqn:E; [done|].
  intros [= <-]. assert ((k, ws) ∈ turn_work_items l ∧ w ∈ ws ∧ k ∈ ack_emitted_turns l) as (H1 & H2 & H3).
  { assert ((k, ws) ∈ (k, ws) :: r) as Hin by constructor. rewrite <- E in Hin.
    apply list_elem_of_filter in Hin. simpl in Hin. tauto. }
  rewrite (dict_elem_get _ _ _ Hw H1). split; [done | by apply bool_decide_eq_true].
Qed.

Lemma owner_complete w t l :
  registry_wf (turn_work_items l) → ack_turn_for_work_item w l = None → w ∈ children_of t l →
  has_emitted_ack t l = false.
Proof.
  intros _. unfold ack_turn_for_work_item, children_of. destruct (filter _ _) as [|p r] eqn:E; [|done].
  intros _ Hin. apply bool_decide_eq_false. intros Ht.
  destruct (dict_get t (turn_work_items l)) as [ws|] eqn:Eg; simpl in Hin; [|set_solver].
  apply dict_get_elem in Eg.
  assert ((t, ws) ∈ filter (λ p, w ∈ p.2 ∧ p.1 ∈ ack_emitted_turns l) (turn_work_items l)) as H.
  { by apply list_elem_of_filter. }
  rewrite E in H. by apply not_elem_of_nil in H.
Qed.

Lemma release_children t w l :
  registry_wf (turn_work_items l) → children_of t (release_turn_work_item t w l) = children_of t l ∖ {[w]}.
Proof.
  intros _. unfold release_turn_work_item, children_of.
  destruct (dict_get t (turn_work_items l)) as [ws|] eqn:E; [|rewrite E; simpl; set_solver].
  case_decide as Hd; simpl.
  - by rewrite dict_get_pop_eq, Hd.
  - by rewrite dict_get_set_eq.
Qed.

Lemma release_latch t w l :
  registry_wf (turn_work_items l) →
  has_emitted_ack t (release_turn_work_item t w l) = true ↔
  has_emitted_ack t l = true ∧ (children_of t l ≠ ∅ → children_of t l ∖ {[w]} ≠ ∅).
Proof.
  intros [_ Hne]. unfold release_turn_work_item, children_of, has_emitted_ack. rewrite !bool_decide_eq_true.
  destruct (dict_get t (turn_work_items l)) as [ws|] eqn:E; simpl; [|by naive_solver].
  specialize (Hne t ws E). case_decide as Hd; simpl; set_solver.
Qed.

(** ** Theorems *)

Section theorems.
Context {W L : Type} `{!ProgressSink W} `{!SpeechSlot L}.
Implicit Types (y : AckSystem W L) (os : list (@ack_op W L)) (now : Q).

(** C38.  Admission chains never collide and never run away: in every reachable
    state of the ledger at most 2048 turns hold a generation, no two turns hold
    the same one, no two pending continuations belong to the same chain, every
    pending chain was claimed from the sequence and is at one of its first four
    attempts, and over the whole run no chain has called [start_next] more than
    four times. *)
Theorem admission_chains_bounded text os :
  let y := arun os (AckSystem_init text : AckSystem W L) in
  (admission_generation_count (ledger y) ≤ MAX_ACK_GENERATION_TURNS)%nat ∧
  NoDup (dict_values (ack_admission_generation (ledger y))) ∧
  NoDup (task_generation <$> tasks y) ∧
  Forall (λ t, (task_generation t ≤ ack_generation_sequence (ledger y))%N ∧
               (ch_attempt (task_chain t) ≤ ACK_ADMISSION_MAX_ATTEMPTS)%N) (tasks y) ∧
  ∀ g, (length (filter (λ s, st_generation s = g) (starts y)) ≤ 4)%nat.
Proof.
  intros y. destruct (arun_init_inv os text) as [He Hn Hf Hs Ho]. fold y in He, Hn, Hf, Hs, Ho.
  split_and!; [apply He | by eapply order_distinct, He | exact Hn | |].
  - eapply Forall_impl; [exact Hf|]. intros t (H1 & H2 & _). split; [apply H1|]. by apply task_attempts.
  - intros g. exact (starts_count _ (λ n, n ≤ _)%N g Hs Ho).
Qed.

(** A superseded chain never reaches the scheduler again: once a turn's
    entry is held by generation [g], every later [start_next] call made for
    that turn comes from generation [g] or a later one, as long as the ledger
    is not cleared and fewer than 2048 generations have been claimed since. *)
Theorem superseded_chain_is_inert text os os' t g :
  let y := arun os (AckSystem_init text : AckSystem W L) in
  let y' := arun os' y in
  admission_generation t (ledger y) = Some g →
  Forall (λ o, is_clear o = false) os' →
  (ack_generation_sequence (ledger y') < g + N.of_nat MAX_ACK_GENERATION_TURNS)%N →
  ∃ new, starts y' = starts y ++ new ∧ Forall (λ s, st_turn s = t → (g ≤ st_generation s)%N) new.
Proof.
  intros y y' Hg Hos Hq. apply (arun_held t g os' y); [apply arun_init_inv | | done..].
  exists g. split; [done | exact Hg].
Qed.

(** A failed admission attempt has exactly three outcomes.  A superseded
    chain changes nothing.  A chain whose turn, connection or epoch is no
    longer live, or whose attempts are spent, leaves the turn without a latch
    and without a queued acknowledgement.  Any other chain keeps its latch, is
    scheduled for one more attempt and, when [start_next] had raised, has its
    acknowledgement queued again. *)
Theorem failed_attempt_outcome c requeue mint now y :
  let y' := retry_or_abandon c requeue mint now y in
  let spent := negb (chain_live c y) || (ACK_ADMISSION_MAX_ATTEMPTS <=? ch_attempt c)%N in
  (superseded c y = true → y' = y) ∧
  (superseded c y = false → spent = true →
     has_emitted_ack (ch_turn c) (ledger y') = false ∧ ¬ ack_queued (ch_origin c) (ch_turn c) y') ∧
  (superseded c y = false → spent = false →
     has_emitted_ack (ch_turn c) (ledger y') = true ∧ tasks y' = tasks y ++ [RetryAfterDelay c] ∧
     (requeue = true → ack_queued (ch_origin c) (ch_turn c) y')).
Proof.
  cbv zeta. unfold retry_or_abandon. destruct (superseded c y); [by split_and!|]. split; [done|].
  destruct (chain_live c y) eqn:El; cbn [negb orb]; [|split; [intros _ _; apply settle_settles | done]].
  destruct (_ <=? _)%N; [split; [intros _ _; apply settle_settles | done]|]. split; [done|]. intros _ _.
  apply andb_prop in El as [[[Hl _]%andb_prop Hp]%andb_prop _].
  destruct (pipelines y !! ch_origin c) as [pl|] eqn:Ep; [|done].
  destruct requeue; [|done]. destruct (enqueue_ack_spec (ch_origin c) (ch_turn c) (ch_epoch c) mint y pl Ep) as (E1 & E2 & E3).
  cbn [setter]. simpl. rewrite E1, E2. by split_and!.
Qed.

(** Acknowledgement ownership is answered exactly by the registry: in every
    reachable state [ack_turn_for_work_item] names a latched turn the work item
    is registered under, and finds one whenever there is one; and releasing a
    child drops just that child, clearing the turn's latch only together with
    its last child. *)
Theorem ack_ownership text os work_item t :
  let l := ledger (arun os (AckSystem_init text : AckSystem W L)) in
  (∀ t', ack_turn_for_work_item work_item l = Some t' →
     work_item ∈ children_of t' l ∧ has_emitted_ack t' l = true) ∧
  (ack_turn_for_work_item work_item l = None →
     work_item ∈ children_of t l → has_emitted_ack t l = false) ∧
  children_of t (release_turn_work_item t work_item l) = children_of t l ∖ {[work_item]} ∧
  (has_emitted_ack t (release_turn_work_item t work_item l) = true ↔
     has_emitted_ack t l = true ∧ (children_of t l ≠ ∅ → children_of t l ∖ {[work_item]} ≠ ∅)).
Proof.
  intros l. assert (registry_wf (turn_work_items l)) as Hw.
  { apply (arun_registry_wf os (AckSystem_init text)). split; [constructor | done]. }
  clearbody l. split_and!; [intros t'; by apply owner_sound | by apply owner_complete | by apply release_children | by apply release_latch].
Qed.

End theorems.

(** ** Witness *)

#[local] Existing Instance w_config.
#[local] Existing Instance RETENTION_FALLBACK.

(** A turn is acknowledged, its latch is cleared and a sibling acknowledges it
    again: two chains are pending and the second one holds the turn. *)
Definition w_ack_ops : list (@ack_op SessionState Coordinator) :=
  [ASetAccepts (λ _, true); AConnect true 1 w_scheduler; AEmit 0 "turn-1" 1 false false "u1";
   AClearLatch "turn-1"; AEmit 0 "turn-1" 1 false false "u2"].

Definition w_ack_run : list (@ack_op SessionState Coordinator) :=
  [ARunTask 0 (w_env "k1") "u3" 0; ARunTask 0 (w_env "k2") "u4" 0].

Lemma superseded_chain_is_inert_witness :
  let y := arun w_ack_ops (AckSystem_init "one moment") in
  starts (arun w_ack_run y) = [mkStart "turn-1" 2 1] ∧
  ∃ new, starts (arun w_ack_run y) = starts y ++ new ∧
    Forall (λ s, st_turn s = "turn-1" → (2 ≤ st_generation s)%N) new.
Proof.
  split; [vm_compute; reflexivity|].
  apply (superseded_chain_is_inert "one moment" w_ack_ops w_ack_run "turn-1" 2).
  - vm_compute. reflexivity.
  - by repeat constructor.
  - vm_compute. reflexivity.
Defined.
