(* ===== verification/Routing.v ===== *)
(** Routing policy and the worker registry ([src/server/router.py],
    [src/server/registry.py] and [WorkItemCoordinator.dispatch]).

    [WorkerRegistry] keeps the registered workers in insertion order and a
    version that names its catalogue snapshots; [validate_decision] checks a
    routing decision against a snapshot; [dispatch] turns an accepted decision
    into a worker.  A worker object is what the registry reads of it: whether
    [search] is callable, its metadata and its capabilities.  The factory is a
    parameter; without one the registry builds a [WebSearchWorker], whose
    metadata is modelled and whose provider client is not. *)

From S2P Require Import Prelude PyDict Contracts.
From stdpp Require Import pretty sorting.

Record WorkerMetadata := mkMetadata {
  wm_worker_id : string;
  wm_worker_type : string;
  wm_topic : string;
  wm_topic_summary : string;
  wm_model_policy : string;
  wm_capabilities : dict string bool
}.

(** [WorkerMetadata.__post_init__] *)
Definition new_WorkerMetadata (m : WorkerMetadata) : result WorkerMetadata :=
  if blank (wm_worker_id m) then Raise (ValueError "worker_id must not be empty") else Ret m.

Record WorkerObject := mkWorkerObject {
  wo_search : bool;                          (* [search] is callable *)
  wo_metadata : option WorkerMetadata;       (* [getattr(worker, "metadata", None)] *)
  wo_status : string
}.

Record RegisteredWorker := mkRegistered { rw_metadata : WorkerMetadata; rw_worker : WorkerObject }.

Record WorkerRegistry := mkRegistry {
  worker_model_policy : dict string string;  (* [config.worker_model_policy] *)
  worker_factory : option (string → WorkerObject);
  workers : dict string RegisteredWorker;
  version : N
}.

#[export] Instance eta_WorkerRegistry : Eta WorkerRegistry := λ r,
  mkRegistry (worker_model_policy r) (worker_factory r) (workers r) (version r).

Definition WorkerRegistry_init (policy : dict string string) (factory : option (string → WorkerObject))
    : WorkerRegistry := mkRegistry policy factory [] 0.

(** ** Registration *)

Definition UnsupportedWorkerType : exn := OtherException "UnsupportedWorkerType".

Definition resolve_worker_model (r : WorkerRegistry) (policy : string) : result string :=
  match dict_get policy (worker_model_policy r) with
  | Some m => Ret m
  | None => Raise (ConfigError "unknown worker model policy")
  end.

Definition require_web_search_capability (w : WorkerObject) : result WorkerObject :=
  if wo_search w then Ret w
  else Raise (TypeError "web_search worker must define a callable search method").

(** The first differing field decides; all of them raise [ValueError]. *)
Definition require_matching_identity (w : WorkerObject) (expected : WorkerMetadata) : result unit :=
  match wo_metadata w with
  | None => Raise (TypeError "web_search worker must define metadata")
  | Some m =>
      if decide (wm_worker_id m = wm_worker_id expected ∧ wm_worker_type m = wm_worker_type expected ∧
                 wm_topic m = wm_topic expected ∧ wm_model_policy m = wm_model_policy expected)
      then Ret tt
      else Raise (ValueError "web_search worker metadata mismatch")
  end.

(** [WebSearchWorker.__init__]: the metadata of a worker the registry builds. *)
Definition web_search_worker (worker_id topic model model_policy : string) : result WorkerObject :=
  m ←? new_WorkerMetadata (mkMetadata worker_id "web_search" topic topic
         (if decide (model_policy = EmptyString) then model else model_policy) [("public_web", true)]) ;;
  Ret (mkWorkerObject true (Some m) "idle").

Definition create_web_search_worker (m : WorkerMetadata) (r : WorkerRegistry) : result WorkerObject :=
  match worker_factory r with
  | Some f => require_web_search_capability (f (wm_worker_id m))
  | None =>
      model ←? resolve_worker_model r (wm_model_policy m) ;;
      web_search_worker (wm_worker_id m) (wm_topic m) model (wm_model_policy m)
  end.

Definition register (worker_id worker_type topic topic_summary model_policy : string)
    (capabilities : option (dict string bool)) (worker : option WorkerObject) (r : WorkerRegistry)
    : WorkerRegistry * result RegisteredWorker :=
  let checked :=
    if negb (bool_decide (worker_type = "web_search")) then Raise UnsupportedWorkerType
    else if dict_mem worker_id (workers r) then Raise (ValueError "worker ID already registered")
    else
      _m ←? resolve_worker_model r model_policy ;;
      metadata ←? new_WorkerMetadata (mkMetadata worker_id worker_type topic topic_summary model_policy
                                        (default [] capabilities)) ;;
      w ←? match worker with Some w => Ret w | None => create_web_search_worker metadata r end ;;
      w ←? require_web_search_capability w ;;
      _u ←? require_matching_identity w metadata ;;
      Ret (mkRegistered
             (match capabilities with
              | Some _ => metadata
              | None => mkMetadata worker_id worker_type topic topic_summary model_policy
                          (default [] (wm_capabilities <$> wo_metadata w))
              end) w) in
  match checked with
  | Raise e => (r, Raise e)
  | Ret registered =>
      (r <| workers := dict_set worker_id registered (workers r) |> <| version ::= N.succ |>, Ret registered)
  end.

Definition get (worker_id : string) (r : WorkerRegistry) : result RegisteredWorker :=
  match dict_get worker_id (workers r) with
  | Some w => Ret w
  | None => Raise (ValueError "unknown worker")
  end.

Definition generated_id (n : nat) : string := "worker-" +:+ pretty (N.of_nat n).

(** The worker already registered for a topic. *)
Definition for_topic (topic worker_type : string) (r : WorkerRegistry) : option RegisteredWorker :=
  head (filter (λ w, wm_topic (rw_metadata w) = topic ∧ wm_worker_type (rw_metadata w) = worker_type)
          (dict_values (workers r))).

Definition get_or_create (topic worker_type model_policy : string) (r : WorkerRegistry)
    : WorkerRegistry * result RegisteredWorker :=
  if negb (bool_decide (worker_type = "web_search")) then (r, Raise UnsupportedWorkerType)
  else match for_topic topic worker_type r with
       | Some w =>
           if decide (wm_model_policy (rw_metadata w) = model_policy) then (r, Ret w)
           else (r, Raise (ValueError "existing worker has an incompatible model policy; refusing to reuse it"))
       | None => register (generated_id (S (length (workers r)))) worker_type topic EmptyString model_policy
                   None None r
       end.

(** ** Catalogue snapshots *)

(** [tuple(sorted(set(l)))] *)
Definition sorted_set (l : list string) : list string := merge_sort String.le (remove_dups l).

Record WorkerCatalogueEntry := mkEntry {
  ce_worker_id : string;
  ce_worker_type : string;
  ce_topic : string;
  ce_status : string;
  ce_capabilities : dict string bool;
  ce_model_policies : list string;
  ce_topic_summary : string;
  ce_model_policy : string
}.

Record WorkerCatalogue := mkCatalogue {
  cat_version : string;
  cat_workers : list WorkerCatalogueEntry;
  cat_capability_labels : list string;
  cat_model_policies : list string
}.

Definition cat_worker_ids (c : WorkerCatalogue) : list string := ce_worker_id <$> cat_workers c.

Definition catalogue_version (n : N) : string := "catalogue-" +:+ pretty n.

Definition entry_of (w : RegisteredWorker) : WorkerCatalogueEntry :=
  let m := rw_metadata w in
  mkEntry (wm_worker_id m) (wm_worker_type m) (wm_topic m) (wo_status (rw_worker w)) (wm_capabilities m)
    [wm_model_policy m] (wm_topic_summary m) (wm_model_policy m).

Definition catalogue (r : WorkerRegistry) : WorkerCatalogue :=
  let entries := entry_of <$> dict_values (workers r) in
  let labels := entries ≫= (λ e, dict_keys (ce_capabilities e)) in
  mkCatalogue (catalogue_version (version r)) entries
    (sorted_set (if decide (labels = []) then ["public_web"] else labels))
    (sorted_set (dict_keys (worker_model_policy r))).

(** ** Policy validation *)

(** [o in labels] for a [str | None] *)
Definition listed (o : option string) (l : list string) : bool := bool_decide (o ∈ Some <$> l).

Definition validate_new_worker (d : RoutingDecision) (c : WorkerCatalogue) : result RoutingDecision :=
  if listed (rd_worker_id d) (cat_worker_ids c) then
    Raise (RoutingValidationError "new-worker proposals cannot select an existing worker")
  else if decide (cat_workers c = []) then
    if negb (bool_decide (rd_worker_type d = Some "web_search"))
       || (negb (bool_decide (cat_model_policies c = [])) && negb (listed (rd_model_policy d) (cat_model_policies c)))
       || negb (truthy (rd_capability d))
       || (negb (bool_decide (cat_capability_labels c = [])) && negb (listed (rd_capability d) (cat_capability_labels c)))
       || negb (rd_capability_available d)
    then Raise (RoutingValidationError "first worker must request an available capability")
    else Ret d
  else if negb (listed (rd_worker_type d) (ce_worker_type <$> cat_workers c)) then
    Raise (RoutingValidationError "new worker type is not allowlisted")
  else if negb (listed (rd_model_policy d) (cat_model_policies c))
       || negb (listed (rd_capability d) (cat_capability_labels c)) || negb (rd_capability_available d) then
    Raise (RoutingValidationError "new worker policy or capability is not allowlisted")
  else Ret d.

Definition entry_for (worker_id : option string) (c : WorkerCatalogue) : option WorkerCatalogueEntry :=
  head (filter (λ e, Some (ce_worker_id e) = worker_id) (cat_workers c)).

Definition validate_existing_worker (d : RoutingDecision) (c : WorkerCatalogue) : result RoutingDecision :=
  match entry_for (rd_worker_id d) c with
  | None => Raise (RoutingValidationError "worker selection does not match the catalogue snapshot")
  | Some e =>
      if negb (bool_decide (rd_worker_type d = Some (ce_worker_type e)))
         || negb (bool_decide (rd_topic d = Some (ce_topic e))) then
        Raise (RoutingValidationError "worker selection does not match the catalogue snapshot")
      else
        let policies := if decide (ce_model_policies e = []) then [ce_model_policy e] else ce_model_policies e in
        if negb (listed (rd_model_policy d) policies) || negb (listed (rd_capability d) (cat_capability_labels c)) then
          Raise (RoutingValidationError "worker policy or capability is not allowlisted")
        else
          let offered := default false (k ← rd_capability d; dict_get k (ce_capabilities e)) in
          if negb (eqb (rd_capability_available d) offered) || negb (rd_capability_available d) then
            Raise (RoutingValidationError "capability is unavailable for the selected worker")
          else Ret d
  end.

Definition validate_decision (d : RoutingDecision) (c : WorkerCatalogue) : result RoutingDecision :=
  if negb (bool_decide (rd_catalogue_version d = cat_version c))
     || negb (bool_decide (rd_catalogue_worker_ids d = cat_worker_ids c)) then
    Raise (RoutingValidationError "routing decision does not match the catalogue snapshot")
  else match action d with
       | direct | unsupported | clarify =>
           if existsb (λ o, negb (bool_decide (o = None))) [rd_worker_id d; rd_worker_type d; rd_topic d] then
             Raise (RoutingValidationError "non-worker routes cannot select a worker")
           else Ret d
       | new_worker => validate_new_worker d c
       | existing_worker => validate_existing_worker d c
       end.

(** [WorkItemCoordinator.dispatch] on an open coordinator with a registry,
    before the caller's [operation]. *)
Definition dispatch (d : RoutingDecision) (c : option WorkerCatalogue) (r : WorkerRegistry)
    : WorkerRegistry * result (option RegisteredWorker) :=
  match validate_decision d (default (catalogue r) c) with
  | Raise e => (r, Raise e)
  | Ret _ =>
      match action d with
      | new_worker =>
          let (r, w) := get_or_create (default EmptyString (rd_topic d)) (default EmptyString (rd_worker_type d))
                          (default EmptyString (rd_model_policy d)) r in
          (r, w ←? w ;; Ret (Some w))
      | _ =>
          if truthy (rd_worker_id d) then
            (r, w ←? get (default EmptyString (rd_worker_id d)) r ;; Ret (Some w))
          else (r, Ret None)
      end
  end.

(** ** Runs *)

Inductive registry_op :=
| RRegister (worker_id worker_type topic summary policy : string)
    (capabilities : option (dict string bool)) (worker : option WorkerObject)
| RGetOrCreate (topic worker_type policy : string)
| RDispatch (d : RoutingDecision) (c : option WorkerCatalogue).

Definition rexec (o : registry_op) (r : WorkerRegistry) : WorkerRegistry :=
  match o with
  | RRegister i t topic s p c w => (register i t topic s p c w r).1
  | RGetOrCreate topic t p => (get_or_create topic t p r).1
  | RDispatch d c => (dispatch d c r).1
  end.

Definition rrun (os : list registry_op) (r : WorkerRegistry) : WorkerRegistry := foldl (λ r o, rexec o r) r os.

(** ** Registry invariant *)

Record registry_inv (r : WorkerRegistry) : Prop := {
  ri_wf : dict_wf (workers r);
  ri_worker k w : dict_get k (workers r) = Some w →
    wm_worker_id (rw_metadata w) = k ∧ wm_worker_type (rw_metadata w) = "web_search" ∧
    wo_search (rw_worker w) = true;
  ri_version : version r = N.of_nat (length (workers r))
}.

Definition with_worker (i : string) (w : RegisteredWorker) (r : WorkerRegistry) : WorkerRegistry :=
  mkRegistry (worker_model_policy r) (worker_factory r) (workers r ++ [(i, w)]) (N.succ (version r)).

(** A registration is refused and changes nothing, or appends a fresh worker. *)
Lemma register_cases i t topic su p caps wo r :
  (∃ e, register i t topic su p caps wo r = (r, Raise e)) ∨
  (∃ w, (i ∉ dict_keys (workers r)) ∧ t = "web_search" ∧ wm_worker_id (rw_metadata w) = i ∧
     wm_worker_type (rw_metadata w) = t ∧ wm_topic (rw_metadata w) = topic ∧
     wm_model_policy (rw_metadata w) = p ∧ wo_search (rw_worker w) = true ∧
     register i t topic su p caps wo r =
       (with_worker i w r, Ret w)).
Proof.
  unfold register. cbv zeta. case_bool_decide as Ht; cbn [negb]; [|eauto].
  destruct (dict_mem i (workers r)) eqn:Em; [eauto|].
  assert (i ∉ dict_keys (workers r)) as Hf by (by rewrite <- dict_mem_iff, Em).
  destruct (resolve_worker_model r p); simpl rbind; [|eauto].
  unfold new_WorkerMetadata. simpl. destruct (blank i); simpl rbind; [eauto|].
  destruct (match wo with Some w => _ | None => _ end) as [w|]; simpl rbind; [|eauto].
  unfold require_web_search_capability. destruct (wo_search w) eqn:Es; simpl rbind; [|eauto].
  unfold require_matching_identity. destruct (wo_metadata w) as [m|]; simpl rbind; [|eauto].
  case_decide; simpl rbind; [|eauto]. right. rewrite dict_set_notin by done.
  eexists. split_and!; try done; by destruct caps.
Qed.

Lemma get_or_create_cases topic t p r :
  (∃ e, get_or_create topic t p r = (r, Raise e)) ∨
  (∃ w, for_topic topic t r = Some w ∧ wm_model_policy (rw_metadata w) = p ∧
     get_or_create topic t p r = (r, Ret w)) ∨
  (for_topic topic t r = None ∧ ∃ w,
     (generated_id (S (length (workers r))) ∉ dict_keys (workers r)) ∧ t = "web_search" ∧
     wm_worker_id (rw_metadata w) = generated_id (S (length (workers r))) ∧
     wm_worker_type (rw_metadata w) = t ∧ wm_topic (rw_metadata w) = topic ∧
     wm_model_policy (rw_metadata w) = p ∧ wo_search (rw_worker w) = true ∧
     get_or_create topic t p r =
       (with_worker (generated_id (S (length (workers r)))) w r, Ret w)).
Proof.
  unfold get_or_create. case_bool_decide; cbn [negb]; [|by left; eauto].
  destruct (for_topic topic t r) as [w|] eqn:E.
  - case_decide; [right; left; eauto | left; eauto].
  - match goal with |- context [register ?i ?t ?tp ?su ?p ?c ?w r] =>
      destruct (register_cases i t tp su p c w r) as [?|?] end; [by left | by right; right].
Qed.

(** What one call does to the registry: nothing, or one fresh worker. *)
Definition grows (r r' : WorkerRegistry) : Prop :=
  r' = r ∨ ∃ i w, (i ∉ dict_keys (workers r)) ∧ wm_worker_id (rw_metadata w) = i ∧
    wm_worker_type (rw_metadata w) = "web_search" ∧ wo_search (rw_worker w) = true ∧
    r' = with_worker i w r.

Lemma get_or_create_grows topic t p r : grows r (get_or_create topic t p r).1.
Proof.
  destruct (get_or_create_cases topic t p r) as [[e ->]|[(w & _ & _ & ->)|(_ & w & Hf & -> & Hi & Ht & _ & _ & Hs & ->)]];
    [by left | by left | right; by eauto 10].
Qed.

Lemma rexec_grows o r : grows r (rexec o r).
Proof.
  destruct o; simpl.
  - destruct (register_cases worker_id worker_type topic summary policy capabilities worker r)
      as [[e ->]|(w & Hf & -> & Hi & Ht & _ & _ & Hs & ->)]; [by left | right; by eauto 10].
  - apply get_or_create_grows.
  - unfold dispatch. destruct (validate_decision _ _); [|by left]. destruct (action d); [by destruct (truthy _); left ..|].
    match goal with |- context [get_or_create ?a ?b ?c r] =>
      pose proof (get_or_create_grows a b c r) as H; destruct (get_or_create a b c r) end. exact H.
Qed.

Lemma grows_inv r r' : grows r r' → registry_inv r → registry_inv r'.
Proof.
  intros [->|(i & w & Hf & Hi & Ht & Hs & ->)]; [done|]. intros [Hw Hk Hv]. split; simpl.
  - rewrite <- dict_set_notin by done. by apply dict_wf_set.
  - intros k w'. rewrite <- dict_set_notin by done. rewrite dict_get_set. case_decide as E; [|apply Hk].
    intros [= <-]. subst. done.
  - rewrite length_app. simpl. lia.
Qed.

Lemma rrun_inv os r : registry_inv r → registry_inv (rrun os r).
Proof. revert r. induction os as [|o os IH]; intros r Hi; simpl; [done|]. apply IH. by eapply grows_inv, Hi; apply rexec_grows. Qed.

Lemma init_registry_inv p f : registry_inv (WorkerRegistry_init p f).
Proof. split; [constructor | done | done]. Qed.

Lemma rrun_prefix os r : ∃ new, workers (rrun os r) = workers r ++ new.
Proof.
  revert r. induction os as [|o os IH]; intros r; simpl; [exists []; by rewrite app_nil_r|].
  destruct (IH (rexec o r)) as [new ->]. destruct (rexec_grows o r) as [->|(i & w & _ & _ & _ & _ & ->)]; [eauto|].
  simpl. rewrite <- app_assoc. eauto.
Qed.

Lemma for_topic_app topic t r new w r' :
  for_topic topic t r = Some w → workers r' = workers r ++ new → for_topic topic t r' = Some w.
Proof.
  unfold for_topic, dict_values. intros H ->. rewrite fmap_app, filter_app.
  by destruct (filter _ (workers r).*2).
Qed.

Lemma for_topic_new topic t r i w r' :
  for_topic topic t r = None → wm_topic (rw_metadata w) = topic → wm_worker_type (rw_metadata w) = t →
  workers r' = workers r ++ [(i, w)] → for_topic topic t r' = Some w.
Proof.
  unfold for_topic, dict_values. intros H Ht Hy ->. rewrite fmap_app, filter_app.
  destruct (filter _ (workers r).*2); [|done]. simpl. by rewrite filter_cons, decide_True.
Qed.

Lemma get_or_create_found topic p r w :
  for_topic topic "web_search" r = Some w → wm_model_policy (rw_metadata w) = p →
  get_or_create topic "web_search" p r = (r, Ret w).
Proof. intros H1 H2. unfold get_or_create. rewrite bool_decide_true by done. simpl. by rewrite H1, decide_True. Qed.

(** ** Generated ids *)

#[global] Instance generated_id_inj : Inj (=) (=) generated_id.
Proof. intros n m E. unfold generated_id in E. apply (inj (String.app "worker-")) in E. apply (inj pretty) in E. lia. Qed.

#[global] Instance catalogue_version_inj : Inj (=) (=) catalogue_version.
Proof. intros n m E. unfold catalogue_version in E. by apply (inj (String.app "catalogue-")), (inj pretty) in E. Qed.

(** Workers come from routing alone: they were created by the registry, under
    consecutive generated ids. *)
Definition routed_only (os : list registry_op) : Prop :=
  Forall (λ o, match o with RRegister _ _ _ _ _ _ _ => False | _ => True end) os.

Definition sequential (r : WorkerRegistry) : Prop :=
  dict_keys (workers r) = (λ n, generated_id (S n)) <$> seq 0 (length (workers r)).

Lemma sequential_fresh r : sequential r → generated_id (S (length (workers r))) ∉ dict_keys (workers r).
Proof.
  intros ->. intros (n & E & Hin)%list_elem_of_fmap. apply (inj generated_id) in E. apply elem_of_seq in Hin. lia.
Qed.

Lemma get_or_create_sequential topic t p r : sequential r → sequential (get_or_create topic t p r).1.
Proof.
  intros Hs. destruct (get_or_create_cases topic t p r) as [[e ->]|[(w & _ & _ & ->)|(_ & w & _ & _ & _ & _ & _ & _ & _ & ->)]];
    [done | done |]. unfold sequential. simpl. unfold dict_keys in *. rewrite fmap_app, length_app, seq_app, fmap_app.
  simpl. f_equal. exact Hs.
Qed.

Lemma rexec_sequential o r :
  match o with RRegister _ _ _ _ _ _ _ => False | _ => True end → sequential r → sequential (rexec o r).
Proof.
  intros Ho Hs. destruct o; [done | by apply get_or_create_sequential |]. simpl. unfold dispatch.
  destruct (validate_decision _ _); [|done]. destruct (action d); [by destruct (truthy _) ..|].
  match goal with |- context [get_or_create ?a ?b ?c r] =>
    pose proof (get_or_create_sequential a b c r Hs) as H; destruct (get_or_create a b c r) end. exact H.
Qed.

Lemma rrun_sequential os r : routed_only os → sequential r → sequential (rrun os r).
Proof.
  intros Hos. revert r. induction Hos as [|o os Ho Hos IH]; intros r Hs; simpl; [done|].
  by apply IH, rexec_sequential.
Qed.

Lemma grows_config r r' :
  grows r r' → worker_model_policy r' = worker_model_policy r ∧ worker_factory r' = worker_factory r.
Proof. by intros [->|(i & w & _ & _ & _ & _ & ->)]. Qed.

Lemma rrun_config os r :
  worker_model_policy (rrun os r) = worker_model_policy r ∧ worker_factory (rrun os r) = worker_factory r.
Proof.
  revert r. induction os as [|o os IH]; intros r; simpl; [done|].
  destruct (IH (rexec o r)) as [-> ->]. apply grows_config, rexec_grows.
Qed.

(** ** Accepted decisions *)

Lemma listed_elem o l : listed o l = true ↔ ∃ x, o = Some x ∧ x ∈ l.
Proof. unfold listed. rewrite bool_decide_eq_true, list_elem_of_fmap. naive_solver. Qed.

Lemma sorted_set_elem x l : x ∈ sorted_set l ↔ x ∈ l.
Proof. apply normalised_elem. Qed.

Lemma entry_for_elem i c e : entry_for i c = Some e → e ∈ cat_workers c ∧ Some (ce_worker_id e) = i.
Proof.
  unfold entry_for. destruct (filter _ _) as [|x l] eqn:E; [done|]. intros [= <-].
  assert (x ∈ x :: l) as H by constructor. rewrite <- E in H. apply list_elem_of_filter in H. tauto.
Qed.

(** An accepted existing-worker decision names a worker of the snapshot. *)
Lemma validate_existing_inv d c d' :
  validate_existing_worker d c = Ret d' →
  ∃ e, e ∈ cat_workers c ∧ rd_worker_id d = Some (ce_worker_id e) ∧ rd_worker_type d = Some (ce_worker_type e) ∧
    rd_topic d = Some (ce_topic e) ∧ rd_capability_available d = true.
Proof.
  unfold validate_existing_worker. destruct (entry_for (rd_worker_id d) c) as [e|] eqn:E; [|done].
  apply entry_for_elem in E as [H1 H2]. case_bool_decide; simpl; [|done]. case_bool_decide; simpl; [|done].
  destruct (_ || _); [done|]. destruct (rd_capability_available d); [|by rewrite orb_true_r].
  intros _. exists e. by split_and!.
Qed.

(** An accepted new-worker decision asks for a listed type and policy. *)
Lemma validate_new_inv d c d' :
  validate_new_worker d c = Ret d' →
  (rd_worker_type d = Some "web_search" ∨ listed (rd_worker_type d) (ce_worker_type <$> cat_workers c) = true) ∧
  (cat_model_policies c = [] ∨ listed (rd_model_policy d) (cat_model_policies c) = true) ∧
  rd_capability_available d = true.
Proof.
  unfold validate_new_worker. destruct (listed (rd_worker_id d) _); [done|]. case_decide.
  - case_bool_decide; simpl; [|done]. destruct (rd_capability_available d); [|by rewrite !orb_true_r].
    case_bool_decide; simpl; [by eauto|]. destruct (listed (rd_model_policy d) _); [by eauto | done].
  - destruct (listed (rd_worker_type d) _); simpl; [|done]. destruct (listed (rd_model_policy d) _); simpl; [|done].
    destruct (rd_capability_available d); [by eauto | by rewrite orb_true_r].
Qed.

Lemma for_topic_elem topic t r w : for_topic topic t r = Some w → wm_topic (rw_metadata w) = topic.
Proof.
  unfold for_topic. destruct (filter _ _) as [|x l] eqn:E; [done|]. intros [= <-].
  assert (x ∈ x :: l) as H by constructor. rewrite <- E in H. apply list_elem_of_filter in H. tauto.
Qed.

Lemma get_or_create_creates topic p r :
  worker_factory r = None → p ∈ dict_keys (worker_model_policy r) → p ≠ EmptyString → sequential r →
  for_topic topic "web_search" r = None →
  ∃ w, wm_topic (rw_metadata w) = topic ∧ wm_model_policy (rw_metadata w) = p ∧
    wm_capabilities (rw_metadata w) = [("public_web", true)] ∧
    get_or_create topic "web_search" p r = (with_worker (generated_id (S (length (workers r)))) w r, Ret w).
Proof.
  intros Hf Hp Hne Hs Ht. unfold get_or_create. rewrite bool_decide_true by done. simpl. rewrite Ht.
  pose proof (sequential_fresh r Hs) as Hfresh. unfold register. cbv zeta. rewrite bool_decide_true by done. simpl.
  destruct (dict_mem _ _) eqn:Em; [by apply dict_mem_iff in Em|].
  apply dict_get_is_Some in Hp as [m Hp]. unfold create_web_search_worker, resolve_worker_model. rewrite Hf.
  simpl. rewrite Hp. simpl. rewrite decide_False by done. simpl.
  unfold require_matching_identity. simpl. rewrite decide_True by done. simpl.
  rewrite dict_set_notin by done. unfold with_worker. rewrite Hf. eexists. split_and!; [| | | reflexivity]; done.
Qed.

Lemma entry_registered r e :
  registry_inv r → e ∈ cat_workers (catalogue r) →
  ∃ w, dict_get (ce_worker_id e) (workers r) = Some w ∧ e = entry_of w ∧ ce_worker_type e = "web_search".
Proof.
  intros Hi (w & -> & Hin)%list_elem_of_fmap. apply list_elem_of_fmap in Hin as ([k w'] & -> & Hin).
  apply dict_elem_get in Hin; [|apply Hi]. destruct (ri_worker _ Hi _ _ Hin) as (E & Ht & _).
  exists w'. simpl. by rewrite E.
Qed.

(** A constructed worker route has its fields. *)
Lemma selection_fields d :
  validate_selection d = Ret d → worker_route (action d) = true →
  ∃ t tp p, rd_worker_type d = Some t ∧ rd_topic d = Some tp ∧ rd_model_policy d = Some p ∧ p ≠ EmptyString.
Proof.
  unfold validate_selection. intros H Hr. rewrite Hr in H.
  destruct (truthy (rd_worker_type d)) eqn:E1; [|done]. destruct (truthy (rd_topic d)) eqn:E2; [|done].
  destruct (truthy (rd_model_policy d)) eqn:E3; [|done]. clear H.
  destruct (rd_worker_type d) as [t|], (rd_topic d) as [tp|], (rd_model_policy d) as [p|]; try done.
  exists t, tp, p. split_and!; try done. by intros ->.
Qed.

Lemma existing_selection_id d :
  validate_selection d = Ret d → action d = existing_worker → truthy (rd_worker_id d) = true.
Proof.
  unfold validate_selection. intros H E. rewrite E in H. simpl in H.
  destruct (_ || _); [done|]. by destruct (truthy (rd_worker_id d)).
Qed.

(** What dispatch makes of a new-worker decision with these fields. *)
Lemma new_worker_outcome policies tp p r :
  worker_model_policy r = policies → worker_factory r = None → policies ≠ [] → p ≠ EmptyString → sequential r →
  cat_model_policies (catalogue r) = [] ∨ listed (Some p) (cat_model_policies (catalogue r)) = true →
  (∃ w, get_or_create tp "web_search" p r =
      (r, Raise (ValueError "existing worker has an incompatible model policy; refusing to reuse it")) ∧
     for_topic tp "web_search" r = Some w ∧ wm_model_policy (rw_metadata w) ≠ p) ∨
  (∃ r' w, get_or_create tp "web_search" p r = (r', Ret w) ∧
     wm_topic (rw_metadata w) = tp ∧ wm_model_policy (rw_metadata w) = p).
Proof.
  intros Ep Ef Hne Hp Hs Hl.
  assert (p ∈ dict_keys (worker_model_policy r)) as Hin.
  { destruct Hl as [Hl|(x & [= <-] & Hl)%listed_elem]; [|by apply (proj1 (sorted_set_elem _ _)) in Hl].
    exfalso. destruct policies as [|[k v] l]; [done|]. 
    assert (k ∈ cat_model_policies (catalogue r)) as H.
    { apply sorted_set_elem. rewrite Ep. constructor. }
    rewrite Hl in H. by apply not_elem_of_nil in H. }
  destruct (for_topic tp "web_search" r) as [w|] eqn:E.
  - destruct (decide (wm_model_policy (rw_metadata w) = p)) as [Hm|Hm].
    + right. exists r, w. split_and!; [by apply get_or_create_found | | done].
      by apply for_topic_elem in E.
    + left. exists w. split_and!; [|done..]. unfold get_or_create. rewrite bool_decide_true by done. simpl.
      by rewrite E, decide_False.
  - right. destruct (get_or_create_creates tp p r Ef Hin Hp Hs E) as (w & H1 & H2 & _ & H4). eauto.
Qed.

(** ** Theorems *)

(** Every registry reached by registrations, lookups and dispatches keeps
    its workers under their own distinct ids, all of them executable web-search
    workers, and its version counts the registrations; a refused registration
    changes nothing and an accepted one only appends. *)
Theorem registry_invariant policy factory os o :
  let r := rrun os (WorkerRegistry_init policy factory) in
  registry_inv r ∧ grows r (rexec o r).
Proof. intros r. split; [apply rrun_inv, init_registry_inv | apply rexec_grows]. Qed.

(** Worker identity is stable for the life of the process: once a topic has
    been given a worker, asking for that topic and policy returns the same
    registered worker after any further calls, and changes nothing. *)
Theorem worker_identity_stable topic policy r r' w os :
  get_or_create topic "web_search" policy r = (r', Ret w) →
  get_or_create topic "web_search" policy (rrun os r') = (rrun os r', Ret w).
Proof.
  intros H. destruct (rrun_prefix os r') as [new Hn].
  assert (for_topic topic "web_search" r' = Some w ∧ wm_model_policy (rw_metadata w) = policy) as [Hf Hp].
  { destruct (get_or_create_cases topic "web_search" policy r)
      as [[e E]|[(w' & Hf & Hp & E)|(Hf & w' & _ & _ & _ & Hy & Ht & Hp & _ & E)]];
      rewrite E in H; simplify_eq; [done|]. split; [|done]. by eapply for_topic_new. }
  apply get_or_create_found; [|done]. by eapply for_topic_app.
Qed.

(** A routing decision that passes the policy check on the registry's own
    snapshot is executable.  On a registry filled by routing alone and building
    its own workers, dispatching it never fails for an unknown worker, type,
    policy or id: an existing-worker decision resolves to the registered worker
    it names, a new-worker decision to a worker for its topic and policy --
    unless that topic already has a worker under another policy, the one
    refusal -- and the other actions to none. *)
Theorem accepted_decision_dispatches policies os d :
  let r := rrun os (WorkerRegistry_init policies None) in
  routed_only os → policies ≠ [] → validate_selection d = Ret d → validate_decision d (catalogue r) = Ret d →
  match action d with
  | existing_worker => ∃ w, dispatch d None r = (r, Ret (Some w)) ∧
      Some (wm_worker_id (rw_metadata w)) = rd_worker_id d ∧ Some (wm_topic (rw_metadata w)) = rd_topic d
  | new_worker =>
      (∃ w, dispatch d None r = (r, Raise (ValueError "existing worker has an incompatible model policy; refusing to reuse it")) ∧
         for_topic (default EmptyString (rd_topic d)) "web_search" r = Some w ∧
         Some (wm_model_policy (rw_metadata w)) ≠ rd_model_policy d) ∨
      (∃ r' w, dispatch d None r = (r', Ret (Some w)) ∧
         Some (wm_topic (rw_metadata w)) = rd_topic d ∧ Some (wm_model_policy (rw_metadata w)) = rd_model_policy d)
  | _ => dispatch d None r = (r, Ret None)
  end.
Proof.
  intros r Hos Hpol Hsel Hval.
  assert (registry_inv r) as Hi by apply rrun_inv, init_registry_inv.
  assert (sequential r) as Hs by (by apply rrun_sequential).
  destruct (rrun_config os (WorkerRegistry_init policies None)) as [Ep Ef]. fold r in Ep, Ef. simpl in Ep, Ef.
  clearbody r. unfold dispatch. change (default (catalogue r) None) with (catalogue r). rewrite Hval.
  pose proof Hval as Hv. unfold validate_decision in Hv. destruct (_ || _); [done|].
  destruct (action d) eqn:Ea.
  1-3: by destruct (rd_worker_id d).
  - apply validate_existing_inv in Hv as (e & He & E1 & E2 & E3 & _).
    rewrite (existing_selection_id d Hsel Ea). destruct (entry_registered r e Hi He) as (w & Hw & -> & _).
    rewrite E1. cbn [default from_option id]. unfold get. rewrite Hw. exists w. by rewrite E3.
  - destruct (selection_fields d Hsel) as (t & tp & p & E1 & E2 & E3 & Hne); [by rewrite Ea|].
    apply validate_new_inv in Hv as (Ht & Hp & _). rewrite E1 in Ht. rewrite E3 in Hp.
    rewrite E1, E2, E3. cbn [default from_option id].
    assert (t = "web_search") as ->.
    { destruct Ht as [[= ->]|(x & [= <-] & (e & -> & He)%list_elem_of_fmap)%listed_elem]; [done|].
      by destruct (entry_registered r e Hi He) as (_ & _ & _ & ->). }
    destruct (new_worker_outcome policies tp p r) as [(w & -> & H1 & H2)|(r' & w & -> & H1 & H2)]; try done.
    + left. exists w. split_and!; [done | done | congruence].
    + right. exists r', w. split_and!; [done | congruence | congruence].
Qed.

(** A decision is bound to the snapshot it was made on: once a worker has
    been registered since, the registry's own check refuses it and nothing is
    dispatched. *)
Theorem stale_decision_refused policies factory os os' d :
  let r := rrun os (WorkerRegistry_init policies factory) in
  let r' := rrun os' r in
  validate_decision d (catalogue r) = Ret d → length (workers r') ≠ length (workers r) →
  dispatch d None r' = (r', Raise (RoutingValidationError "routing decision does not match the catalogue snapshot")).
Proof.
  intros r r' Hv Hne.
  assert (registry_inv r) as Hi by apply rrun_inv, init_registry_inv.
  assert (registry_inv r') as Hi' by (by apply rrun_inv).
  unfold dispatch. change (default (catalogue r') None) with (catalogue r').
  unfold validate_decision in *. case_bool_decide as E; [|done]. clear Hv. simpl in E.
  rewrite bool_decide_false; [done|]. simpl. rewrite E. intros Ev%(inj catalogue_version).
  rewrite (ri_version _ Hi), (ri_version _ Hi') in Ev. lia.
Qed.

(** ** Witnesses *)

Definition w_policies : dict string string := [("deep", "gpt-5")].

Definition w_decision (a : RouteAction) (i : option string) (topic : string) (v : string) (ids : list string)
    : RoutingDecision :=
  mkRoutingDecision a i (Some "web_search") (Some topic) (Some "public_web") true (Some "deep") v ids None.

Definition w_first : RoutingDecision := w_decision new_worker None "weather" "catalogue-0" [].
Definition w_second : RoutingDecision :=
  w_decision existing_worker (Some "worker-1") "weather" "catalogue-1" ["worker-1"].

Lemma accepted_decision_dispatches_witness :
  let r := rrun [RDispatch w_first None] (WorkerRegistry_init w_policies None) in
  ∃ w, dispatch w_second None r = (r, Ret (Some w)) ∧
    Some (wm_worker_id (rw_metadata w)) = rd_worker_id w_second ∧ Some (wm_topic (rw_metadata w)) = rd_topic w_second.
Proof.
  apply (accepted_decision_dispatches w_policies [RDispatch w_first None] w_second).
  - by repeat constructor.
  - discriminate.
  - vm_compute. reflexivity.
  - vm_compute. reflexivity.
Defined.

Lemma worker_identity_stable_witness :
  let '(r, w) := get_or_create "weather" "web_search" "deep" (WorkerRegistry_init w_policies None) in
  get_or_create "weather" "web_search" "deep" (rrun [RGetOrCreate "news" "web_search" "deep"] r) =
    (rrun [RGetOrCreate "news" "web_search" "deep"] r, w).
Proof.
  exact (worker_identity_stable "weather" "deep" (WorkerRegistry_init w_policies None) _ _
    [RGetOrCreate "news" "web_search" "deep"] eq_refl).
Defined.

Lemma stale_decision_refused_witness :
  let r := rrun [RDispatch w_first None] (WorkerRegistry_init w_policies None) in
  dispatch w_first None r =
    (r, Raise (RoutingValidationError "routing decision does not match the catalogue snapshot")).
Proof.
  apply (stale_decision_refused w_policies None [] [RDispatch w_first None] w_first).
  - vm_compute. reflexivity.
  - vm_compute. discriminate.
Defined.
