(* ===== verification/WorkItemCoordinator.v ===== *)
(** Work-item dispatch ([src/server/work_item_coordinator.py]).

    [WorkItemCoordinator] owns background tasks within a capacity budget,
    retains timed-out work, runs the items of one turn ([submit]), arbitrates
    replies to a pending clarification and shuts all of it down.

    A task is an index into [tasks].  Its done callbacks run from the [ready]
    queue, one per step, after it has ended, so other code may run in between.
    The coroutine [one] is cut at its awaits; provider calls, callbacks and
    foreign operations are opaque tasks that end at an arbitrary step.
    [submit] is cut at its awaits into [submit_begin], [submit_collect] and the
    ends of a cancelled submission; [shutdown] into its two halves.  What
    the regular expressions of [control_intent] and [pending_intent] make of a
    transcript is an argument of [arbitrate]; routing is in [Routing]. *)

From S2P Require Import Prelude PyDict.
From stdpp Require Import pretty.

(** ** Data *)

Record PendingDialogue := mkPending {
  pd_session_id : string;
  pd_owner_kind : string;
  pd_owner_id : string;
  pd_turn_id : string;
  pd_result_id : string;
  pd_expires_at : Q;
  pd_original_query : string;
  pd_question : string
}.

Inductive FailureKind := capacity_rejected | retention_rejected | failure_cancelled | failure_failed.
Inductive TerminalKind := terminal_completed | terminal_failed | terminal_cancelled.

#[global] Instance TerminalKind_eq_dec : EqDecision TerminalKind.
Proof. solve_decision. Defined.

Record WorkItemFailure := mkFailure {
  wf_work_item_id : string;
  wf_worker_id : string;
  wf_error_type : string;
  wf_error_message : string;
  wf_kind : FailureKind
}.

(** How a task ended. *)
Inductive task_end (V : Type) := EndResult (v : V) | EndError (cls msg : string) | EndCancelled.
Arguments EndResult {V}. Arguments EndError {V}. Arguments EndCancelled {V}.

Definition terminal_kind {V} (e : task_end V) : TerminalKind :=
  match e with EndCancelled => terminal_cancelled | EndError _ _ => terminal_failed | EndResult _ => terminal_completed end.

Record LateResult (V : Type) := mkLate {
  lr_work_item_id : string;
  lr_worker_id : string;
  lr_result : option V;
  lr_error : option string;
  lr_terminal_kind : TerminalKind
}.
Arguments mkLate {V}. Arguments lr_work_item_id {V}. Arguments lr_worker_id {V}. Arguments lr_result {V}.
Arguments lr_error {V}. Arguments lr_terminal_kind {V}.

Record SubmittedOutcome (V : Type) := mkSubmitted {
  so_work_items : list string;
  so_results : list V;
  so_pending_work_item_ids : list string;
  so_failures : list WorkItemFailure
}.
Arguments mkSubmitted {V}. Arguments so_work_items {V}. Arguments so_results {V}.
Arguments so_pending_work_item_ids {V}. Arguments so_failures {V}.

(** ** Tasks *)

(** Where the coroutine of a task stands. *)
Inductive body :=
| Opaque
| Provider (worker_id text : string)
| OneQueued (worker_id text : string)
| OneWaiting (worker_id text : string) (previous : nat)
| OneAwaiting (worker_id : string) (provider : nat).

(** What a late result's [on_complete] is: absent, a function, or a function
    that returns an awaitable. *)
Inductive on_complete := NoCallback | SyncCallback | AsyncCallback.

#[global] Instance on_complete_eq_dec : EqDecision on_complete.
Proof. solve_decision. Defined.

(** The closures handed to [add_done_callback]. *)
Inductive callback :=
| DiscardOwned
| DiscardMandatory
| DiscardCancelling
| DiscardSubmit
| CallbackCompleted
| WorkTaskCompleted (work_item_id : string)
| LateCompleted (work_item_id worker_id : string) (on_done : on_complete).

#[global] Instance callback_eq_dec : EqDecision callback.
Proof. solve_decision. Defined.

Record Task (V : Type) := mkTask {
  tk_body : body;
  tk_end : option (task_end V);
  tk_callbacks : list callback;
  tk_must_cancel : bool
}.
Arguments mkTask {V}. Arguments tk_body {V}. Arguments tk_end {V}.
Arguments tk_callbacks {V}. Arguments tk_must_cancel {V}.

#[export] Instance eta_Task V : Eta (Task V) := λ r,
  mkTask (tk_body r) (tk_end r) (tk_callbacks r) (tk_must_cancel r).

(** One started item of a submission. *)
Record started := mkStarted { sd_item : string; sd_worker : string; sd_task : nat }.

(** A suspended [submit]. *)
Record frame := mkFrame {
  fr_submission : nat;
  fr_work : list string;
  fr_started : list started;
  fr_capacity_failures : list WorkItemFailure;
  fr_on_late : on_complete;
  fr_cancelled : bool
}.

Inductive co_event (V : Type) :=
| ELateTerminal (work_item_id : string) (kind : TerminalKind)   (* [on_late_terminal] *)
| EComplete (late : LateResult V)                               (* [on_complete] *)
| EAsked (p : PendingDialogue)                                  (* [add_pending] *)
| EAnswered (p : PendingDialogue) (session_id : string) (now : Q). (* handed out by [arbitrate] *)
Arguments ELateTerminal {V}. Arguments EComplete {V}. Arguments EAsked {V}. Arguments EAnswered {V}.

Record WorkItemCoordinator (V : Type) := mkCo {
  is_shutdown : bool;
  pending_dialogues : dict string PendingDialogue;
  late_results : list (LateResult V);
  late_tasks : gset nat;
  callback_tasks : gset nat;
  cancelling_tasks : gset nat;
  owned_tasks : gset nat;
  mandatory_tasks : gset nat;
  submission_tasks : gset nat;
  submit_tasks : gset nat;
  provider_tasks : gset nat;
  work_tasks : dict string nat;
  background_task_order : list nat;
  tails : dict string nat;
  tasks : list (Task V);
  ready : list (nat * callback);
  frames : list frame;
  events : list (co_event V)
}.
Arguments mkCo {V}. Arguments is_shutdown {V}. Arguments pending_dialogues {V}. Arguments late_results {V}.
Arguments late_tasks {V}. Arguments callback_tasks {V}. Arguments cancelling_tasks {V}.
Arguments owned_tasks {V}. Arguments mandatory_tasks {V}. Arguments submission_tasks {V}.
Arguments submit_tasks {V}. Arguments provider_tasks {V}. Arguments work_tasks {V}.
Arguments background_task_order {V}. Arguments tails {V}. Arguments tasks {V}. Arguments ready {V}.
Arguments frames {V}. Arguments events {V}.

#[export] Instance eta_WorkItemCoordinator V : Eta (WorkItemCoordinator V) := λ r,
  mkCo (is_shutdown r) (pending_dialogues r) (late_results r) (late_tasks r) (callback_tasks r)
    (cancelling_tasks r) (owned_tasks r) (mandatory_tasks r) (submission_tasks r) (submit_tasks r)
    (provider_tasks r) (work_tasks r) (background_task_order r) (tails r) (tasks r) (ready r) (frames r) (events r).

Definition WorkItemCoordinator_init {V} : WorkItemCoordinator V :=
  mkCo false [] [] ∅ ∅ ∅ ∅ ∅ ∅ ∅ ∅ [] [] [] [] [] [] [].

(** The constructor's configuration; [max_background_tasks] defaults to
    [max(4, 2 * max_work_items_per_turn)] and must be positive. *)
Class CoordinatorConfig := {
  max_background_tasks : nat;
  max_work_items_per_turn : nat;
  pending_dialogue_timeout : Q;
  max_background_positive : (0 < max_background_tasks)%nat
}.

Section coordinator.
Context {V : Type} `{CoordinatorConfig}.
(** A dictionary becomes a [Result]; any other value is passed on *)
Context (materialize_result : V → V).
Implicit Types (c : WorkItemCoordinator V) (t : nat).

Definition ensure_open c : result unit :=
  if is_shutdown c then Raise (RuntimeError "work item coordinator is shut down") else Ret tt.

(** *** The event loop *)

Definition log (e : co_event V) c : WorkItemCoordinator V := c <| events ::= (λ l, l ++ [e]) |>.

Definition ended t c : option (task_end V) := tk ← tasks c !! t; tk_end tk.

Definition is_running (tk : Task V) : bool := match tk_end tk with None => true | Some _ => false end.

Definition running t c : bool := match tasks c !! t with Some tk => is_running tk | None => false end.

Definition create_task (b : body) c : WorkItemCoordinator V * nat :=
  (c <| tasks ::= (λ l, l ++ [mkTask b None [] false]) |>, length (tasks c)).

Definition add_done_callback t (k : callback) c : WorkItemCoordinator V :=
  if running t c then c <| tasks ::= alter (λ tk, tk <| tk_callbacks ::= (λ l, l ++ [k]) |>) t |>
  else c <| ready ::= (λ l, l ++ [(t, k)]) |>.

Definition callbacks_of t c : list callback :=
  match tasks c !! t with Some tk => tk_callbacks tk | None => [] end.

Definition end_task t (e : task_end V) c : WorkItemCoordinator V :=
  if running t c then
    c <| ready ::= (λ l, l ++ ((λ k, (t, k)) <$> callbacks_of t c)) |>
      <| tasks ::= alter (λ tk, tk <| tk_end := Some e |> <| tk_callbacks := [] |>) t |>
  else c.

(** [Task.cancel()]: forwarded to the provider task a running [one] awaits. *)
Definition cancel_task t c : WorkItemCoordinator V :=
  let target := match tk_body <$> tasks c !! t with
                | Some (OneAwaiting _ p) => if running p c then p else t
                | _ => t
                end in
  if running t c then c <| tasks ::= alter (λ tk, tk <| tk_must_cancel := true |>) target |> else c.

(** *** Ownership *)

Definition has_background_capacity c : bool :=
  bool_decide (size (owned_tasks c ∖ mandatory_tasks c) < max_background_tasks)%nat.

Definition adopt_task t (force : bool) c : WorkItemCoordinator V * bool :=
  if bool_decide (t ∈ owned_tasks c) then (c, true)
  else if negb force && negb (has_background_capacity c) then (c, false)
  else (add_done_callback t DiscardOwned (c <| owned_tasks ::= ({[t]} ∪.) |>), true).

Definition start_task (b : body) (mandatory : bool) c : WorkItemCoordinator V * option nat :=
  if is_shutdown c || (negb mandatory && negb (has_background_capacity c)) then (c, None)
  else
    let (c, t) := create_task b c in
    let c := (adopt_task t true c).1 in
    let c := if mandatory then add_done_callback t DiscardMandatory (c <| mandatory_tasks ::= ({[t]} ∪.) |>) else c in
    (c, Some t).

Definition track_cancelling_task t c : WorkItemCoordinator V :=
  let c := (adopt_task t true c).1 in
  let c := add_done_callback t DiscardCancelling (c <| cancelling_tasks ::= ({[t]} ∪.) |>) in
  cancel_task t c.

Definition track_callback_task t c : WorkItemCoordinator V :=
  let (c, adopted) := adopt_task t false c in
  if negb adopted then track_cancelling_task t c
  else
    let c := c <| callback_tasks ::= ({[t]} ∪.) |> <| background_task_order ::= (λ l, l ++ [t]) |> in
    add_done_callback t CallbackCompleted c.

(** [deque.remove]: the first occurrence. *)
Fixpoint remove_first t (l : list nat) : list nat :=
  match l with
  | [] => []
  | x :: l => if decide (x = t) then l else x :: remove_first t l
  end.

Definition retain_late_task t (work_item_id worker_id : string) (on_done : on_complete) c
    : WorkItemCoordinator V * bool :=
  if is_shutdown c then (track_cancelling_task t c, false)
  else
    let (c, adopted) := adopt_task t false c in
    if negb adopted then (track_cancelling_task t c, false)
    else
      let c := c <| late_tasks ::= ({[t]} ∪.) |> <| background_task_order ::= (λ l, l ++ [t]) |> in
      (add_done_callback t (LateCompleted work_item_id worker_id on_done) c, true).

Definition drain_late_results c : WorkItemCoordinator V * list (LateResult V) :=
  (c <| late_results := [] |>, late_results c).

(** *** Done callbacks *)

Definition late_result_of (work_item_id worker_id : string) (e : task_end V) : LateResult V :=
  match e with
  | EndCancelled => mkLate work_item_id worker_id None (Some "CancelledError: worker task was cancelled") terminal_cancelled
  | EndError cls msg => mkLate work_item_id worker_id None (Some (cls +:+ ": " +:+ msg)) terminal_failed
  | EndResult v => mkLate work_item_id worker_id (Some (materialize_result v)) None terminal_completed
  end.

(** [completed] of [retain_late_task] *)
Definition late_completed t (work_item_id worker_id : string) (on_done : on_complete) (e : task_end V) c
    : WorkItemCoordinator V :=
  let c := log (ELateTerminal work_item_id (terminal_kind e)) c in
  let c := c <| late_tasks ::= (λ s, s ∖ {[t]}) |> <| background_task_order ::= remove_first t |> in
  if is_shutdown c then c
  else
    let late := late_result_of work_item_id worker_id e in
    match on_done with
    | NoCallback => c <| late_results ::= deque_append max_background_tasks late |>
    | SyncCallback => log (EComplete late) c
    | AsyncCallback =>
        match start_task Opaque true (log (EComplete late) c) with
        | (c, Some k) => track_callback_task k c
        | (c, None) => c
        end
    end.

Definition run_callback t (k : callback) c : WorkItemCoordinator V :=
  match k with
  | DiscardOwned => c <| owned_tasks ::= (λ s, s ∖ {[t]}) |>
  | DiscardMandatory => c <| mandatory_tasks ::= (λ s, s ∖ {[t]}) |>
  | DiscardCancelling => c <| cancelling_tasks ::= (λ s, s ∖ {[t]}) |>
  | DiscardSubmit => c <| submit_tasks ::= (λ s, s ∖ {[t]}) |>
  | CallbackCompleted =>
      c <| callback_tasks ::= (λ s, s ∖ {[t]}) |> <| background_task_order ::= remove_first t |>
  | WorkTaskCompleted i =>
      if decide (dict_get i (work_tasks c) = Some t) then c <| work_tasks ::= dict_pop i |> else c
  | LateCompleted i w d =>
      match ended t c with Some e => late_completed t i w d e c | None => c end
  end.

Definition run_ready c : WorkItemCoordinator V :=
  match ready c with
  | [] => c
  | (t, k) :: r => run_callback t k (c <| ready := r |>)
  end.

(** *** The coroutine [one] *)

Definition set_body t (b : body) c : WorkItemCoordinator V :=
  c <| tasks ::= alter (λ tk, tk <| tk_body := b |>) t |>.

Definition launch t (worker_id text : string) c : WorkItemCoordinator V :=
  let (c, p) := create_task (Provider worker_id text) c in
  let c := c <| provider_tasks ::= ({[p]} ∪.) |> <| tails ::= dict_set worker_id p |> in
  set_body t (OneAwaiting worker_id p) c.

(** One step of the coroutine of task [t], when what it awaits is there. *)
Definition run_one t c : WorkItemCoordinator V :=
  match tasks c !! t with
  | None => c
  | Some tk =>
      if negb (is_running tk) then c
      else match tk_body tk with
           | OneQueued w text =>
               if tk_must_cancel tk then end_task t EndCancelled c
               else match dict_get w (tails c) with
                    | None => launch t w text c
                    | Some previous => set_body t (OneWaiting w text previous) c
                    end
           | OneWaiting w text previous =>
               if tk_must_cancel tk then end_task t EndCancelled c
               else if running previous c then c else launch t w text c
           | OneAwaiting w p =>
               match ended p c with
               | None => c
               | Some e =>
                   let c := c <| provider_tasks ::= (λ s, s ∖ {[p]}) |> in
                   let c := if decide (dict_get w (tails c) = Some p) then c <| tails ::= dict_pop w |> else c in
                   end_task t (if tk_must_cancel tk then EndCancelled else e) c
               end
           | _ => c
           end
  end.

(** An opaque task ends. *)
Definition end_opaque t (e : task_end V) c : WorkItemCoordinator V :=
  match tk_body <$> tasks c !! t with
  | Some Opaque | Some (Provider _ _) => end_task t e c
  | _ => c
  end.

(** *** [submit] *)

Definition start_item (item worker_id text : string) c
    : WorkItemCoordinator V * (started + WorkItemFailure) :=
  match start_task (OneQueued worker_id text) false c with
  | (c, None) => (c, inr (mkFailure item worker_id "CapacityError" "worker execution capacity is exhausted"
                              capacity_rejected))
  | (c, Some t) =>
      let c := c <| work_tasks ::= dict_set item t |> in
      let c := add_done_callback t DiscardSubmit (c <| submit_tasks ::= ({[t]} ∪.) |>) in
      (add_done_callback t (WorkTaskCompleted item) c, inl (mkStarted item worker_id t))
  end.

Fixpoint start_items (items : list (string * (string * string))) c
    : WorkItemCoordinator V * list started * list WorkItemFailure :=
  match items with
  | [] => (c, [], [])
  | (item, (worker_id, text)) :: items =>
      let (c, r) := start_item item worker_id text c in
      let '(c, ss, fs) := start_items items c in
      match r with
      | inl s => (c, s :: ss, fs)
      | inr f => (c, ss, f :: fs)
      end
  end.

Definition default_ids (turn_id : string) (n : nat) : list string :=
  (λ i, turn_id +:+ "-" +:+ pretty (N.of_nat i)) <$> seq 0 n.

(** [submit] up to its wait, run by the task [sub]. *)
Definition submit_begin (sub : nat) (turn_id : string) (items : list (string * string))
    (work_item_ids : option (list string)) (on_late : on_complete) c : WorkItemCoordinator V * result unit :=
  match ensure_open c with
  | Raise e => (c, Raise e)
  | Ret _ =>
      let selected := take max_work_items_per_turn items in
      let ids := match work_item_ids with
                 | Some ids => take (length selected) ids
                 | None => default_ids turn_id (length selected)
                 end in
      if decide (length ids = length selected) then
        let c := c <| submission_tasks ::= ({[sub]} ∪.) |> in
        let '(c, ss, fs) := start_items (zip ids selected) c in
        (c <| frames ::= (λ l, l ++ [mkFrame sub ids ss fs on_late false]) |>, Ret tt)
      else (c <| submission_tasks ::= (λ s, ({[sub]} ∪ s) ∖ {[sub]}) |>,
            Raise (ValueError "work_item_ids must cover every selected item"))
  end.

Definition execution_failure (s : started) c : option WorkItemFailure :=
  match ended (sd_task s) c with
  | Some EndCancelled => Some (mkFailure (sd_item s) (sd_worker s) "CancelledError" "worker execution was cancelled"
                                failure_cancelled)
  | Some (EndError cls _) => Some (mkFailure (sd_item s) (sd_worker s) cls "worker execution failed" failure_failed)
  | _ => None
  end.

Definition item_result (s : started) c : option V :=
  match ended (sd_task s) c with Some (EndResult v) => Some (materialize_result v) | _ => None end.

(** The items still running are retained in the background, in order. *)
Fixpoint retain_items (ss : list started) (on_late : on_complete) c
    : WorkItemCoordinator V * list string * list WorkItemFailure :=
  match ss with
  | [] => (c, [], [])
  | s :: ss =>
      let (c, accepted) := retain_late_task (sd_task s) (sd_item s) (sd_worker s) on_late c in
      let '(c, ps, fs) := retain_items ss on_late c in
      if (accepted : bool) then (c, sd_item s :: ps, fs)
      else (c, ps, mkFailure (sd_item s) (sd_worker s) "RetentionCapacityError"
                    "worker execution could not continue in background" retention_rejected :: fs)
  end.

(** The end of [submit]: all tasks are done or the wait timed out. *)
Definition submit_collect (n : nat) c : WorkItemCoordinator V * option (SubmittedOutcome V) :=
  match frames c !! n with
  | None => (c, None)
  | Some f =>
      if fr_cancelled f then (c, None)
      else
        let c := c <| frames ::= list_delete n |> in
        let results := omap (λ s, item_result s c) (fr_started f) in
        let failures := fr_capacity_failures f ++ omap (λ s, execution_failure s c) (fr_started f) in
        let late := filter (λ s, running (sd_task s) c = true) (fr_started f) in
        let '(c, pending, rejected) := retain_items late (fr_on_late f) c in
        let c := c <| submission_tasks ::= (λ s, s ∖ {[fr_submission f]}) |> in
        (c, Some (mkSubmitted (fr_work f) results pending (failures ++ rejected)))
  end.

(** The submission is cancelled during its wait: its items are cancelled, and
    it raises once all of them have ended. *)
Definition submit_cancelled (n : nat) c : WorkItemCoordinator V :=
  match frames c !! n with
  | None => c
  | Some f =>
      let c := foldl (λ c s, cancel_task (sd_task s) c) c (fr_started f) in
      c <| frames ::= alter (λ f, mkFrame (fr_submission f) (fr_work f) (fr_started f) (fr_capacity_failures f)
                                    (fr_on_late f) true) n |>
  end.

Definition submit_raise (n : nat) c : WorkItemCoordinator V :=
  match frames c !! n with
  | None => c
  | Some f =>
      if fr_cancelled f && forallb (λ s, negb (running (sd_task s) c)) (fr_started f) then
        c <| frames ::= list_delete n |> <| submission_tasks ::= (λ s, s ∖ {[fr_submission f]}) |>
      else c
  end.

(** The submission is cancelled in the [sleep(0)] after its wait. *)
Definition submit_abandon (n : nat) c : WorkItemCoordinator V :=
  match frames c !! n with
  | None => c
  | Some f => c <| frames ::= list_delete n |> <| submission_tasks ::= (λ s, s ∖ {[fr_submission f]}) |>
  end.

(** *** Cancellation and shutdown *)

Definition cancel (work_item_id : option string) c : WorkItemCoordinator V * list string :=
  let selected := filter (λ i, work_item_id = None ∨ work_item_id = Some i) (dict_keys (work_tasks c)) in
  (foldl (λ c i, match dict_get i (work_tasks c) with Some t => cancel_task t c | None => c end) c selected, selected).

Definition live_work_item_ids c : list string := dict_keys (work_tasks c).

Definition shutdown_begin (current : option nat) c : WorkItemCoordinator V :=
  let c := c <| is_shutdown := true |> <| pending_dialogues := [] |> <| late_results := [] |> in
  let targets := elements ((owned_tasks c ∪ submission_tasks c ∪ provider_tasks c)
                           ∖ match current with Some t => {[t]} | None => ∅ end) in
  foldl (λ c t, cancel_task t c) c targets.

Definition shutdown_finish c : WorkItemCoordinator V :=
  if is_shutdown c then
    c <| late_tasks := ∅ |> <| callback_tasks := ∅ |> <| cancelling_tasks := ∅ |> <| owned_tasks := ∅ |>
      <| mandatory_tasks := ∅ |> <| submission_tasks := ∅ |> <| submit_tasks := ∅ |> <| provider_tasks := ∅ |>
      <| work_tasks := [] |> <| background_task_order := [] |> <| tails := [] |>
  else c.

(** *** Pending dialogue *)

Definition add_pending (p : PendingDialogue) c : WorkItemCoordinator V * result unit :=
  match ensure_open c with
  | Raise e => (c, Raise e)
  | Ret _ => (log (EAsked p) (c <| pending_dialogues ::= dict_set (pd_session_id p) p |>), Ret tt)
  end.

Definition add_worker_clarification (session worker turn result_id original question : string) (now : Q) c
    : WorkItemCoordinator V * result unit :=
  add_pending (mkPending session "worker" worker turn result_id (now + pending_dialogue_timeout) original question) c.

Definition pending (session : string) (now : Q) c : WorkItemCoordinator V * option PendingDialogue :=
  match dict_get session (pending_dialogues c) with
  | None => (c, None)
  | Some p =>
      if Qle_bool (pd_expires_at p) now then (c <| pending_dialogues ::= dict_pop session |>, None)
      else (c, Some p)
  end.

Inductive pending_intent := new_topic | multi_intent | steer_same_topic | continue_pending.

(** The kinds of [DispatchOutcome]; [Routed] continues with the router. *)
Inductive DispatchOutcome :=
| Control (action : string) (target : option string)
| ContinuePending (p : PendingDialogue) (consent : bool)
| MultiIntent (p : PendingDialogue) (parts : list string)
| Routed.

(** Handing the candidate out. *)
Definition answer (session : string) (p : PendingDialogue) (now : Q) c : WorkItemCoordinator V :=
  log (EAnswered p session now) (c <| pending_dialogues ::= dict_pop session |>).

(** [control] is [control_intent(transcript)], [intent] is
    [pending_intent(transcript)] and [parts] the transcript split at the
    multi-intent separators; the clock is read once. *)
Definition arbitrate (session : string) (control : option (string * option string)) (intent : pending_intent)
    (parts : list string) (now : Q) c : WorkItemCoordinator V * result DispatchOutcome :=
  match ensure_open c with
  | Raise e => (c, Raise e)
  | Ret _ =>
      let (c, p) := pending session now c in
      match control, p with
      | Some (action, target), Some p =>
          if decide (action = "consent") then (answer session p now c, Ret (ContinuePending p true))
          else (c, Ret (Control action target))
      | Some (action, target), None => (c, Ret (Control action target))
      | None, Some p =>
          match intent with
          | multi_intent => (answer session p now c, Ret (MultiIntent p (take max_work_items_per_turn parts)))
          | continue_pending | steer_same_topic => (answer session p now c, Ret (ContinuePending p false))
          | new_topic => (c, Ret Routed)
          end
      | None, None => (c, Ret Routed)
      end
  end.

(** *** Runs *)

Inductive co_op :=
| OStart (mandatory : bool)
| ORetain (t : nat) (work_item_id worker_id : string) (on_done : on_complete)
| ODrain
| OReady
| ORunOne (t : nat)
| OEnd (t : nat) (e : task_end V)
| OSubmit (sub : nat) (turn : string) (items : list (string * string)) (ids : option (list string)) (on_late : on_complete)
| OCollect (n : nat)
| OSubmitCancelled (n : nat)
| OSubmitRaise (n : nat)
| OSubmitAbandon (n : nat)
| OCancel (work_item_id : option string)
| OShutdownBegin (current : option nat)
| OShutdownFinish
| OAsk (p : PendingDialogue)
| OArbitrate (session : string) (control : option (string * option string)) (intent : pending_intent)
    (parts : list string) (now : Q).

(** Callers retain only tasks that are still running. *)
Definition cexec (o : co_op) c : WorkItemCoordinator V :=
  match o with
  | OStart m => (start_task Opaque m c).1
  | ORetain t i w d => if running t c then (retain_late_task t i w d c).1 else c
  | ODrain => (drain_late_results c).1
  | OReady => run_ready c
  | ORunOne t => run_one t c
  | OEnd t e => end_opaque t e c
  | OSubmit sub turn items ids d => (submit_begin sub turn items ids d c).1
  | OCollect n => (submit_collect n c).1
  | OSubmitCancelled n => submit_cancelled n c
  | OSubmitRaise n => submit_raise n c
  | OSubmitAbandon n => submit_abandon n c
  | OCancel i => (cancel i c).1
  | OShutdownBegin cur => shutdown_begin cur c
  | OShutdownFinish => shutdown_finish c
  | OAsk p => (add_pending p c).1
  | OArbitrate s k i ps now => (arbitrate s k i ps now c).1
  end.

Definition crun (os : list co_op) c : WorkItemCoordinator V := foldl (λ c o, cexec o c) c os.

End coordinator.
