(* ===== verification/WorkItemFacts.v ===== *)
(** Facts about the work-item coordinator: its capacity budget, the accounting
    of a submission, pending dialogues and shutdown. *)

From S2P Require Import Prelude PyDict WorkItemCoordinator.

Section facts.
Context {V : Type} `{CoordinatorConfig} (materialize : V → V).
Implicit Types (c : WorkItemCoordinator V) (t : nat).

(** ** Callbacks still to run *)

Definition ready_of t c : list callback := (filter (λ p, p.1 = t) (ready c)).*2.

(** The callbacks of [t] in the order they will run. *)
Definition cb_seq t c : list callback := callbacks_of t c ++ ready_of t c.

(** The tasks kept out of the budget leave their set by these callbacks. *)
Definition exempting (k : callback) : Prop := k = DiscardMandatory ∨ k = DiscardCancelling.

(** Ownership is given up before any exemption is. *)
Definition owned_first (l : list callback) : Prop :=
  ∃ pre post, l = pre ++ DiscardOwned :: post ∧ Forall (λ k, ¬ exempting k) pre.

Record seq_inv c : Prop := {
  si_first t : t ∈ owned_tasks c → owned_first (cb_seq t c);
  si_ready t : running t c = true → ready_of t c = [];
  si_exempt t k : running t c = true → k ∈ callbacks_of t c → exempting k → t ∈ owned_tasks c;
  si_owned t : t ∈ owned_tasks c → (t < length (tasks c))%nat;
  si_alloc t k : (t, k) ∈ ready c → (t < length (tasks c))%nat;
  si_idle t : running t c = false → callbacks_of t c = []
}.

(** ** Steps that leave the callbacks alone *)

Record quiet c c' : Prop := {
  q_owned : owned_tasks c' = owned_tasks c;
  q_mandatory : mandatory_tasks c' = mandatory_tasks c;
  q_cancelling : cancelling_tasks c' = cancelling_tasks c;
  q_ready : ready c' = ready c;
  q_length : length (tasks c') = length (tasks c);
  q_running t : running t c' = running t c;
  q_callbacks t : callbacks_of t c' = callbacks_of t c
}.

#[global] Instance quiet_refl : Reflexive quiet.
Proof. intros c. by split. Qed.

#[global] Instance quiet_trans : Transitive quiet.
Proof. intros c1 c2 c3 [] []. split; intros; congruence. Qed.

Lemma quiet_seq c c' t : quiet c c' → cb_seq t c' = cb_seq t c.
Proof. intros []. unfold cb_seq, ready_of. congruence. Qed.

Lemma seq_quiet c c' : quiet c c' → seq_inv c → seq_inv c'.
Proof.
  intros Hq [H1 H2 H3 H4 H5 H6]. pose proof (λ t, quiet_seq c c' t Hq) as Hs. destruct Hq as [E1 E2 E3 E4 E5 E6 E7]. split.
  - intros t. rewrite E1, Hs. apply H1.
  - intros t. rewrite E6. unfold ready_of. rewrite E4. apply H2.
  - intros t k. rewrite E6, E7, E1. apply H3.
  - intros t. rewrite E1, E5. apply H4.
  - intros t k. rewrite E4, E5. apply H5.
  - intros t. rewrite E6, E7. apply H6.
Qed.

(** A change of the tasks that keeps ends and callbacks. *)
Lemma quiet_tasks (f : Task V → Task V) t c :
  (∀ tk, tk_end (f tk) = tk_end tk ∧ tk_callbacks (f tk) = tk_callbacks tk) →
  quiet c (c <| tasks ::= alter f t |>).
Proof.
  intros Hf. split; try done; simpl.
  - apply length_alter.
  - intros t'. unfold running. simpl. rewrite list_lookup_alter. case_decide; [subst|done].
    destruct (tasks c !! t'); [|done]. simpl. unfold is_running. by rewrite (proj1 (Hf _)).
  - intros t'. unfold callbacks_of. simpl. rewrite list_lookup_alter. case_decide; [subst|done].
    destruct (tasks c !! t'); [|done]. apply Hf.
Qed.

Lemma quiet_cancel t c : quiet c (cancel_task t c).
Proof. unfold cancel_task. cbv zeta. destruct (running t c); [by apply quiet_tasks | reflexivity]. Qed.

Lemma quiet_set_body t b c : quiet c (set_body t b c).
Proof. by apply quiet_tasks. Qed.

Lemma quiet_fold {A} (f : WorkItemCoordinator V → A → WorkItemCoordinator V) l c :
  (∀ c a, quiet c (f c a)) → quiet c (foldl f c l).
Proof. intros Hf. revert c. induction l as [|a l IH]; intros c; simpl; [reflexivity|]. by etransitivity; [|apply IH]. Qed.

(** ** The primitives *)

Lemma running_lt t c : running t c = true → (t < length (tasks c))%nat.
Proof. unfold running. destruct (tasks c !! t) eqn:E; [intros _; by eapply lookup_lt_Some | done]. Qed.

Lemma add_cb_running t k t' c : running t' (add_done_callback t k c) = running t' c.
Proof.
  unfold add_done_callback. destruct (running t c); [|done]. unfold running. simpl. rewrite list_lookup_alter.
  case_decide; [subst|done]. by destruct (tasks c !! t').
Qed.

Lemma add_cb_length t k c : length (tasks (add_done_callback t k c)) = length (tasks c).
Proof. unfold add_done_callback. destruct (running t c); simpl; [apply length_alter | done]. Qed.

Lemma add_cb_callbacks t k t' c :
  callbacks_of t' (add_done_callback t k c) =
  if decide (t' = t ∧ running t c = true) then callbacks_of t' c ++ [k] else callbacks_of t' c.
Proof.
  unfold add_done_callback. destruct (running t c) eqn:Er.
  - unfold callbacks_of. simpl. rewrite list_lookup_alter. unfold running in Er.
    destruct (decide (t = t')) as [<-|Hne]; [|by rewrite decide_False by naive_solver].
    rewrite decide_True by done. by destruct (tasks c !! t).
  - by rewrite decide_False by naive_solver.
Qed.

Lemma add_cb_ready t k t' c :
  ready_of t' (add_done_callback t k c) =
  if decide (t' = t ∧ running t c = false) then ready_of t' c ++ [k] else ready_of t' c.
Proof.
  unfold add_done_callback. destruct (running t c) eqn:Er; [by rewrite decide_False by naive_solver|].
  unfold ready_of. simpl. rewrite filter_app, fmap_app. simpl. rewrite filter_cons.
  destruct (decide (t = t')) as [<-|Hne].
  - by rewrite !decide_True.
  - rewrite !decide_False by naive_solver. simpl. by rewrite app_nil_r.
Qed.

Lemma add_cb_seq t k t' c :
  seq_inv c → cb_seq t' (add_done_callback t k c) = if decide (t' = t) then cb_seq t' c ++ [k] else cb_seq t' c.
Proof.
  intros Hi. unfold cb_seq. rewrite add_cb_callbacks, add_cb_ready. destruct (decide (t' = t)) as [->|Hne].
  - destruct (running t c) eqn:Er.
    + rewrite (si_ready _ Hi t Er), decide_True, decide_False by naive_solver. by rewrite !app_nil_r.
    + rewrite decide_False, decide_True by naive_solver. by rewrite app_assoc.
  - by rewrite !decide_False by naive_solver.
Qed.

Lemma add_cb_fields t k c :
  owned_tasks (add_done_callback t k c) = owned_tasks c ∧ mandatory_tasks (add_done_callback t k c) = mandatory_tasks c ∧
  cancelling_tasks (add_done_callback t k c) = cancelling_tasks c ∧ is_shutdown (add_done_callback t k c) = is_shutdown c ∧
  frames (add_done_callback t k c) = frames c.
Proof. unfold add_done_callback. by destruct (running t c). Qed.

Lemma owned_first_app l k : owned_first l → owned_first (l ++ [k]).
Proof. intros (pre & post & -> & Hf). exists pre, (post ++ [k]). by rewrite <- app_assoc. Qed.

Lemma seq_add_cb t k c :
  seq_inv c → (t < length (tasks c))%nat → (exempting k → t ∈ owned_tasks c) → seq_inv (add_done_callback t k c).
Proof.
  intros Hi Hl Hk. destruct (add_cb_fields t k c) as (E1 & _). split.
  - intros t' Ht. rewrite E1 in Ht. rewrite add_cb_seq by done. pose proof (si_first _ Hi t' Ht).
    case_decide; [by apply owned_first_app | done].
  - intros t'. rewrite add_cb_running, add_cb_ready. intros Hr. rewrite decide_False by (intros [-> ?]; congruence). by apply Hi.
  - intros t' k'. rewrite add_cb_running, add_cb_callbacks, E1. intros Hr.
    case_decide as Hd; [|by apply Hi]. destruct Hd as [-> _].
    intros [Hin| ->%list_elem_of_singleton]%elem_of_app; [by eapply Hi | exact Hk].
  - intros t'. rewrite E1, add_cb_length. apply Hi.
  - intros t' k'. rewrite add_cb_length. unfold add_done_callback. destruct (running t c); simpl; [apply Hi|].
    intros [Hin|Hin%list_elem_of_singleton]%elem_of_app; [exact (si_alloc _ Hi _ _ Hin) | by simplify_eq].
  - intros t'. rewrite add_cb_running, add_cb_callbacks. intros Hr. rewrite decide_False; [by apply Hi|].
    intros [-> ?]. congruence.
Qed.

(** [t] is owned from now on. *)
Lemma seq_own t c :
  seq_inv c → running t c = true → t ∉ owned_tasks c →
  seq_inv (add_done_callback t DiscardOwned (c <| owned_tasks ::= ({[t]} ∪.) |>)).
Proof.
  intros Hi Hr Hn. set (c1 := c <| owned_tasks ::= ({[t]} ∪.) |>).
  assert (callbacks_of t c1 = callbacks_of t c ∧ ready_of t c1 = [] ∧ running t c1 = true) as (E1 & E2 & E3).
  { split_and!; [done | by apply (si_ready _ Hi) | done]. }
  assert (Forall (λ k, ¬ exempting k) (callbacks_of t c)) as Hf.
  { apply Forall_forall. intros k Hin He. apply Hn. by eapply Hi. }
  pose proof (add_cb_fields t DiscardOwned c1) as (F1 & _). split.
  - intros t' Ht. rewrite F1 in Ht. unfold cb_seq. rewrite add_cb_callbacks, add_cb_ready.
    destruct (decide (t' = t)) as [->|Hne].
    + rewrite decide_True, decide_False, E1, E2 by (done || (intros [_ ?]; congruence)). exists (callbacks_of t c), []. by rewrite app_nil_r.
    + rewrite !decide_False by (by intros [? _]). apply (si_first _ Hi). simpl in Ht. set_solver.
  - intros t'. rewrite add_cb_running, add_cb_ready. intros Hr'. rewrite decide_False; [by apply Hi|]. intros [-> Hx]. unfold c1, running in Hx. simpl in Hx. unfold running in Hr. congruence.
  - intros t' k'. rewrite add_cb_running, add_cb_callbacks, F1. intros Hr'. simpl.
    case_decide as Hd; [destruct Hd as [-> _]; set_solver|]. intros Hin He. apply elem_of_union_r. by eapply (si_exempt _ Hi).
  - intros t'. rewrite F1, add_cb_length. simpl. intros [->%elem_of_singleton|Hin]%elem_of_union; [by apply running_lt | by apply Hi].
  - intros t' k'. rewrite add_cb_length. unfold add_done_callback. rewrite E3. simpl. apply Hi.
  - intros t'. rewrite add_cb_running, add_cb_callbacks. intros Hr'. rewrite decide_False; [by apply (si_idle _ Hi)|].
    intros [-> _]. congruence.
Qed.

Lemma seq_create b c : seq_inv c → seq_inv (create_task b c).1 ∧ running (length (tasks c)) (create_task b c).1 = true ∧
  length (tasks c) ∉ owned_tasks c.
Proof.
  intros Hi. assert (∀ t, callbacks_of t (create_task b c).1 = callbacks_of t c) as Ec.
  { intros t. unfold callbacks_of. simpl. destruct (decide (t < length (tasks c))%nat).
    - by rewrite lookup_app_l.
    - rewrite lookup_app_r, (lookup_ge_None_2 (tasks c)) by lia. by destruct (t - length (tasks c))%nat as [|[|]]. }
  assert (∀ t, running t (create_task b c).1 = bool_decide (t = length (tasks c)) || running t c) as Er.
  { intros t. unfold running. simpl. destruct (decide (t < length (tasks c))%nat).
    - rewrite lookup_app_l by lia. by rewrite bool_decide_false by lia.
    - rewrite lookup_app_r, (lookup_ge_None_2 (tasks c)) by lia. rewrite orb_false_r.
      destruct (t - length (tasks c))%nat as [|m] eqn:E; simpl.
      + by rewrite bool_decide_true by lia.
      + by rewrite bool_decide_false by lia. }
  assert (callbacks_of (length (tasks c)) c = []) as Hn.
  { unfold callbacks_of. by rewrite lookup_ge_None_2. }
  split_and!.
  - split.
    + intros t Ht. unfold cb_seq. rewrite Ec. by apply (si_first _ Hi).
    + intros t. rewrite Er. intros [->%bool_decide_eq_true|Hr]%orb_true_iff; [|by apply Hi].
      unfold ready_of. simpl. destruct (filter _ (ready c)) as [|[t' k] l] eqn:E; [done|]. exfalso.
      assert ((t', k) ∈ (t', k) :: l) as Hin by constructor. rewrite <- E in Hin.
      apply list_elem_of_filter in Hin as [Ht Hin]. simpl in Ht. apply (si_alloc _ Hi) in Hin. lia.
    + intros t k. rewrite Er, Ec. intros [->%bool_decide_eq_true|Hr]%orb_true_iff; [by rewrite Hn; intros ?%not_elem_of_nil|by apply Hi].
    + intros t Ht. simpl. rewrite length_app. simpl. apply (si_owned _ Hi) in Ht. lia.
    + intros t k Hin. simpl. rewrite length_app. simpl. apply (si_alloc _ Hi) in Hin. lia.
    + intros t. rewrite Er, Ec. intros [_ Hr]%orb_false_elim. by apply Hi.
  - rewrite Er. by rewrite bool_decide_true.
  - intros Hin%(si_owned _ Hi). lia.
Qed.

(** ** The budget *)

Definition budget c : gset nat := owned_tasks c ∖ (mandatory_tasks c ∪ cancelling_tasks c).

Record cap_inv c : Prop := {
  cp_seq : seq_inv c;
  cp_budget : (size (budget c) ≤ max_background_tasks)%nat
}.

Lemma cap_quiet c c' : quiet c c' → cap_inv c → cap_inv c'.
Proof.
  intros Hq [Hs Hb]. split; [by eapply seq_quiet|]. unfold budget in *. destruct Hq as [-> -> -> _ _ _ _]. done.
Qed.

Lemma size_le (X Y : gset nat) : X ⊆ Y → (size X ≤ size Y)%nat.
Proof. apply subseteq_size. Qed.

Lemma size_add t (X : gset nat) : (size ({[t]} ∪ X) ≤ S (size X))%nat.
Proof.
  rewrite size_union_alt, size_singleton. assert (size (X ∖ {[t]}) ≤ size X)%nat by (apply size_le; set_solver). lia.
Qed.

Lemma cap_add_cb t k c :
  cap_inv c → (t < length (tasks c))%nat → ¬ exempting k → cap_inv (add_done_callback t k c).
Proof.
  intros [Hs Hb] Hl Hk. split; [by apply seq_add_cb|]. unfold budget. by destruct (add_cb_fields t k c) as (-> & -> & -> & _).
Qed.

(** Ownership is taken in three ways. *)
Lemma cap_adopt t c :
  cap_inv c → running t c = true → has_background_capacity c = true →
  cap_inv (add_done_callback t DiscardOwned (c <| owned_tasks ::= ({[t]} ∪.) |>)) ∨ t ∈ owned_tasks c.
Proof.
  intros [Hs Hb] Hr Hc. destruct (decide (t ∈ owned_tasks c)) as [Hin|Hn]; [by right|]. left.
  split; [by apply seq_own|]. unfold budget.
  destruct (add_cb_fields t DiscardOwned (c <| owned_tasks ::= ({[t]} ∪.) |>)) as (-> & -> & -> & _). simpl.
  apply bool_decide_eq_true in Hc.
  transitivity (size ({[t]} ∪ owned_tasks c ∖ mandatory_tasks c)); [apply size_le; set_solver|].
  etransitivity; [apply size_add | lia].
Qed.

(** Forced ownership of a task that is exempted at once. *)
Definition own c t : WorkItemCoordinator V := (adopt_task t true c).1.

Lemma own_spec t c :
  seq_inv c → running t c = true →
  seq_inv (own c t) ∧ owned_tasks (own c t) = {[t]} ∪ owned_tasks c ∧ mandatory_tasks (own c t) = mandatory_tasks c ∧
  cancelling_tasks (own c t) = cancelling_tasks c ∧ running t (own c t) = true ∧
  length (tasks (own c t)) = length (tasks c).
Proof.
  intros Hs Hr. unfold own, adopt_task. case_bool_decide as Hin; simpl.
  - split_and!; try done. set_solver.
  - destruct (add_cb_fields t DiscardOwned (c <| owned_tasks ::= ({[t]} ∪.) |>)) as (E1 & E2 & E3 & _).
    split_and!; [by apply seq_own | done | done | done | by rewrite add_cb_running | by rewrite add_cb_length].
Qed.

Lemma seq_sets c m k : seq_inv c → seq_inv (c <| mandatory_tasks := m |> <| cancelling_tasks := k |>).
Proof. intros []. by split. Qed.

Lemma cap_track_cancelling t c : cap_inv c → running t c = true → cap_inv (track_cancelling_task t c).
Proof.
  intros [Hs Hb] Hr. unfold track_cancelling_task. cbv zeta. fold (own c t).
  destruct (own_spec t c Hs Hr) as (H1 & E1 & E2 & E3 & H2 & _).
  apply (cap_quiet _ _ (quiet_cancel _ _)).
  set (c1 := (own c t) <| cancelling_tasks ::= ({[t]} ∪.) |>).
  assert (seq_inv c1) as H3 by (apply (seq_sets (own c t) (mandatory_tasks (own c t))); done).
  split.
  - apply seq_add_cb; [done | by apply running_lt | intros _; simpl; rewrite E1; set_solver].
  - unfold budget. destruct (add_cb_fields t DiscardCancelling c1) as (-> & -> & -> & _). simpl.
    rewrite E1, E2, E3. etransitivity; [|exact Hb]. apply size_le. unfold budget. set_solver.
Qed.

Lemma cap_start b m c : cap_inv c → cap_inv (start_task b m c).1.
Proof.
  intros [Hs Hb]. unfold start_task. destruct (_ || _) eqn:E; [done|].
  apply orb_false_elim in E as [_ E]. destruct (seq_create b c Hs) as (H1 & Hr & Hn).
  unfold create_task in *. cbn [fst] in H1, Hr. set (c0 := c <| tasks ::= _ |>) in *. fold (own c0 (length (tasks c))).
  destruct (own_spec _ _ H1 Hr) as (H2 & E1 & E2 & E3 & H3 & E4). set (t := length (tasks c)) in *.
  change (owned_tasks c0) with (owned_tasks c) in E1. change (mandatory_tasks c0) with (mandatory_tasks c) in E2.
  change (cancelling_tasks c0) with (cancelling_tasks c) in E3.
  assert (size (({[t]} ∪ owned_tasks c) ∖ (({[t]} ∪ mandatory_tasks c) ∪ cancelling_tasks c)) ≤ max_background_tasks)%nat as Hm.
  { etransitivity; [|exact Hb]. apply size_le. unfold budget. set_solver. }
  destruct m; cbn [fst snd negb andb] in *.
  - set (c1 := (own c0 t) <| mandatory_tasks ::= ({[t]} ∪.) |>).
    assert (seq_inv c1) as H4 by (apply (seq_sets (own c0 t) _ (cancelling_tasks (own c0 t))); done).
    split.
    + apply seq_add_cb; [done | by apply running_lt | intros _; simpl; rewrite E1; set_solver].
    + unfold budget. destruct (add_cb_fields t DiscardMandatory c1) as (-> & -> & -> & _). simpl. by rewrite E1, E2, E3.
  - split; [done|]. unfold budget. rewrite E1, E2, E3. apply negb_false_iff, bool_decide_eq_true in E.
    transitivity (size ({[t]} ∪ owned_tasks c ∖ mandatory_tasks c)); [apply size_le; set_solver|].
    etransitivity; [apply size_add | lia].
Qed.

Lemma start_spec b m c c' t :
  start_task b m c = (c', Some t) → cap_inv c → running t c' = true ∧ t ∈ owned_tasks c'.
Proof.
  intros E [Hs _]. unfold start_task in E. destruct (_ || _); [done|]. destruct (seq_create b c Hs) as (H1 & Hr & _).
  unfold create_task in *. cbn [fst] in H1, Hr. set (c0 := c <| tasks ::= _ |>) in *.
  fold (own c0 (length (tasks c))) in E. destruct (own_spec _ _ H1 Hr) as (_ & E1 & _ & _ & H3 & _).
  destruct m; simplify_eq.
  - rewrite add_cb_running. destruct (add_cb_fields (length (tasks c)) DiscardMandatory
      ((own c0 (length (tasks c))) <| mandatory_tasks ::= ({[length (tasks c)]} ∪.) |>)) as (-> & _).
    simpl. rewrite E1. split; [exact H3 | set_solver].
  - rewrite E1. split; [exact H3 | set_solver].
Qed.

(** A task the budget admits, or that is owned already. *)
Lemma cap_adopt_task t c c' :
  adopt_task t false c = (c', true) → cap_inv c → running t c = true →
  cap_inv c' ∧ running t c' = true ∧ t ∈ owned_tasks c'.
Proof.
  unfold adopt_task. intros E Hi Hr. case_bool_decide as Hin; [by simplify_eq|].
  destruct (has_background_capacity c) eqn:Hc; cbn [negb andb] in E; [|done]. injection E as <-.
  destruct (cap_adopt t c Hi Hr Hc) as [Hi'|]; [|done]. split; [done|]. rewrite add_cb_running.
  split; [done|]. rewrite (proj1 (add_cb_fields _ _ _)). set_solver.
Qed.

Lemma adopt_refused t f c c' : adopt_task t f c = (c', false) → c' = c.
Proof. unfold adopt_task. case_bool_decide; [done|]. destruct (_ && _); [|done]. by intros [= <-]. Qed.

Lemma quiet_late t c : quiet c (c <| late_tasks ::= ({[t]} ∪.) |> <| background_task_order ::= (λ l, l ++ [t]) |>).
Proof. by split. Qed.

Lemma cap_retain t i w d c : cap_inv c → running t c = true → cap_inv (retain_late_task t i w d c).1.
Proof.
  intros Hi Hr. unfold retain_late_task. destruct (is_shutdown c); [by apply cap_track_cancelling|].
  destruct (adopt_task t false c) as [c1 []] eqn:E; simpl.
  - destruct (cap_adopt_task t c c1 E Hi Hr) as (H1 & H2 & _). apply cap_add_cb; [| | by intros []].
    + by apply (cap_quiet _ _ (quiet_late t c1)).
    + by apply running_lt.
  - apply adopt_refused in E as ->. by apply cap_track_cancelling.
Qed.

Lemma cap_track_callback t c : cap_inv c → running t c = true → cap_inv (track_callback_task t c).
Proof.
  intros Hi Hr. unfold track_callback_task. destruct (adopt_task t false c) as [c1 []] eqn:E; simpl.
  - destruct (cap_adopt_task t c c1 E Hi Hr) as (H1 & H2 & _). apply cap_add_cb; [| | by intros []].
    + apply (cap_quiet c1); [by split | done].
    + by apply running_lt.
  - apply adopt_refused in E as ->. by apply cap_track_cancelling.
Qed.

Lemma filter_tagged t t' (ks : list callback) :
  (filter (λ p, p.1 = t') ((λ k, (t, k)) <$> ks)).*2 = if decide (t' = t) then ks else [].
Proof.
  induction ks as [|k ks IH]; [by case_decide|]. rewrite fmap_cons, filter_cons.
  destruct (decide (t' = t)) as [->|Hne].
  - rewrite decide_True by done. rewrite fmap_cons. by f_equal.
  - by rewrite decide_False by (simpl; congruence).
Qed.

Lemma cap_end t e c : cap_inv c → cap_inv (end_task t e c).
Proof.
  intros [Hs Hb]. unfold end_task. destruct (running t c) eqn:Hr; [|done].
  set (c' := c <| ready ::= _ |> <| tasks ::= _ |>).
  assert (∀ t', running t' c' = if decide (t' = t) then false else running t' c) as Er.
  { intros t'. unfold running, c'. simpl. rewrite list_lookup_alter.
    destruct (decide (t = t')) as [<-|]; [rewrite decide_True by done; by destruct (tasks c !! t) | by rewrite decide_False]. }
  assert (∀ t', callbacks_of t' c' = if decide (t' = t) then [] else callbacks_of t' c) as Ec.
  { intros t'. unfold callbacks_of, c'. simpl. rewrite list_lookup_alter.
    destruct (decide (t = t')) as [<-|]; [rewrite decide_True by done; by destruct (tasks c !! t) | by rewrite decide_False]. }
  assert (∀ t', ready_of t' c' = if decide (t' = t) then callbacks_of t c else ready_of t' c) as Ey.
  { intros t'. destruct (decide (t' = t)) as [->|Hne]; unfold ready_of, c'; simpl; rewrite filter_app, fmap_app.
    - fold (ready_of t c). by rewrite (si_ready _ Hs t Hr), filter_tagged, decide_True.
    - by rewrite filter_tagged, decide_False, app_nil_r. }
  assert (length (tasks c') = length (tasks c)) as El by apply length_alter.
  split; [|exact Hb]. split.
  - intros t' Ht. pose proof (si_first _ Hs t' Ht) as Hf. unfold cb_seq in *. rewrite Ec, Ey.
    case_decide; [subst|done]. by rewrite (si_ready _ Hs t Hr), app_nil_r in Hf.
  - intros t'. rewrite Er, Ey. case_decide; [done | apply Hs].
  - intros t' k. rewrite Er, Ec. case_decide; [done | apply Hs].
  - intros t' Ht. rewrite El. by apply (si_owned _ Hs).
  - intros t' k. rewrite El. unfold c'. simpl. intros [Hin|(k' & [= -> ->] & _)%list_elem_of_fmap]%elem_of_app.
    + by eapply (si_alloc _ Hs).
    + by apply running_lt.
  - intros t'. rewrite Er, Ec. case_decide; [done | apply Hs].
Qed.

(** ** Running callbacks *)

Lemma ready_head t k r c t' :
  ready c = (t, k) :: r →
  ready_of t' c = if decide (t' = t) then k :: ready_of t' (c <| ready := r |>) else ready_of t' (c <| ready := r |>).
Proof.
  intros E. unfold ready_of. simpl. rewrite E, filter_cons. simpl.
  destruct (decide (t' = t)) as [->|]; [by rewrite decide_True | by rewrite decide_False by congruence].
Qed.

Lemma ready_ended t k r c : seq_inv c → ready c = (t, k) :: r → running t c = false.
Proof.
  intros Hs E. destruct (running t c) eqn:Hr; [|done]. apply (si_ready _ Hs) in Hr.
  by rewrite (ready_head t k r c t E), decide_True in Hr.
Qed.

(** Popping a callback, after its task was given up if it discards that. *)
Lemma seq_pop t k r c :
  seq_inv c → ready c = (t, k) :: r →
  let c' := c <| ready := r |> in
  seq_inv (if decide (k = DiscardOwned) then c' <| owned_tasks ::= (λ s, s ∖ {[t]}) |> else c') ∧
  (exempting k → t ∉ owned_tasks c).
Proof.
  intros Hs E c'. pose proof (ready_ended t k r c Hs E) as Hr.
  assert (∀ t', t' ∈ owned_tasks c → t' ≠ t ∨ owned_first (k :: ready_of t c')) as Hown.
  { intros t' Ht. destruct (decide (t' = t)) as [->|]; [right|by left]. pose proof (si_first _ Hs t Ht) as Hf.
    unfold cb_seq in Hf. by rewrite (si_idle _ Hs t Hr), (ready_head t k r c t E), decide_True in Hf. }
  assert (∀ t', t' ≠ t → cb_seq t' c' = cb_seq t' c) as Hne.
  { intros t' Hn. unfold cb_seq. by rewrite (ready_head t k r c t' E), decide_False. }
  assert (∀ t', running t' c = true → ready_of t' c' = []) as Hrd.
  { intros t' Hr'. apply (si_ready _ Hs) in Hr' as Hy. rewrite (ready_head t k r c t' E) in Hy. by case_decide. }
  assert (∀ t' k', (t', k') ∈ r → (t' < length (tasks c))%nat) as Hal.
  { intros t' k' Hin. apply (si_alloc _ Hs t' k'). rewrite E. by right. }
  split.
  - case_decide as Hk; split; simpl; try apply Hs; try done.
    + intros t' [Ht Hn]%elem_of_difference. change (owned_first (cb_seq t' c')).
      rewrite Hne by set_solver. by apply (si_first _ Hs).
    + intros t' k' Hr' Hin He. apply elem_of_difference. split; [by eapply (si_exempt _ Hs)|].
      intros ->%elem_of_singleton. unfold running in *. simpl in Hr'. congruence.
    + intros t' [Ht _]%elem_of_difference. by apply (si_owned _ Hs).
    + intros t' Ht. destruct (decide (t' = t)) as [->|Hn]; [|rewrite Hne by done; by apply (si_first _ Hs)].
      destruct (Hown t Ht) as [|(pre & post & E1 & Hf)]; [done|]. unfold cb_seq.
      change (callbacks_of t c') with (callbacks_of t c). rewrite (si_idle _ Hs t Hr). simpl.
      destruct pre as [|k' pre]; simplify_eq/=. exists pre, post. split; [done|]. by inversion Hf.
  - intros He Ht. destruct (Hown t Ht) as [|(pre & post & E1 & Hf)]; [done|].
    destruct pre as [|k' pre]; simplify_eq/=; [by destruct He|]. by inversion Hf.
Qed.

Lemma cap_log e c : cap_inv c → cap_inv (log e c).
Proof. by apply cap_quiet. Qed.

Lemma cap_late_completed t i w d e c : cap_inv c → cap_inv (late_completed materialize t i w d e c).
Proof.
  intros Hi. unfold late_completed. cbv zeta. set (c1 := (log _ c) <| late_tasks ::= _ |> <| background_task_order ::= _ |>).
  assert (cap_inv c1) as H1 by (by apply (cap_quiet c)). destruct (is_shutdown c1); [done|].
  destruct d; [by apply (cap_quiet c1) | by apply cap_log |].
  destruct (start_task Opaque true _) as [c2 [k|]] eqn:E.
  - apply cap_track_callback.
    + pose proof (cap_start Opaque true _ (cap_log (EComplete (late_result_of materialize i w e)) c1 H1)) as H2. by rewrite E in H2.
    + eapply start_spec; [exact E | by apply cap_log].
  - pose proof (cap_start Opaque true _ (cap_log (EComplete (late_result_of materialize i w e)) c1 H1)) as H2. by rewrite E in H2.
Qed.

Lemma cap_run_ready c : cap_inv c → cap_inv (run_ready materialize c).
Proof.
  intros [Hs Hb]. unfold run_ready. destruct (ready c) as [|[t k] r] eqn:E; [done|].
  destruct (seq_pop t k r c Hs E) as [Hp He]. set (c' := c <| ready := r |>) in *.
  assert (k ≠ DiscardOwned → cap_inv c') as Hc.
  { intros Hk. rewrite decide_False in Hp by done. by split. }
  destruct k; simpl run_callback.
  - rewrite decide_True in Hp by done. split; [exact Hp|]. etransitivity; [|exact Hb]. apply size_le. unfold budget. simpl. set_solver.
  - split; [by apply (seq_sets c' _ (cancelling_tasks c')), Hc|]. etransitivity; [|exact Hb]. apply size_le.
    specialize (He (or_introl eq_refl)). unfold budget. simpl. set_solver.
  - split; [by apply (seq_sets c' (mandatory_tasks c')), Hc|]. etransitivity; [|exact Hb]. apply size_le.
    specialize (He (or_intror eq_refl)). unfold budget. simpl. set_solver.
  - apply (cap_quiet c'); [by split | by apply Hc].
  - apply (cap_quiet c'); [by split | by apply Hc].
  - clear Hp. case_decide; [apply (cap_quiet c'); [by split | by apply Hc] | by apply Hc].
  - destruct (ended t c'); [apply cap_late_completed|]; by apply Hc.
Qed.

(** ** The other operations *)

Lemma cap_launch t w x c : cap_inv c → cap_inv (launch t w x c).
Proof.
  intros [Hs Hb]. unfold launch. destruct (seq_create (Provider w x) c Hs) as (H1 & _).
  assert (cap_inv (create_task (Provider w x) c).1) as H2 by (by split).
  destruct (create_task (Provider w x) c) as [c1 p]. cbn [fst] in H2.
  apply (cap_quiet _ _ (quiet_set_body _ _ _)). by apply (cap_quiet c1).
Qed.

Lemma cap_run_one t c : cap_inv c → cap_inv (run_one t c).
Proof.
  intros Hi. unfold run_one. destruct (tasks c !! t) as [tk|]; [|done]. destruct (negb _); [done|].
  destruct (tk_body tk); try done.
  - destruct (tk_must_cancel tk); [by apply cap_end|].
    destruct (dict_get _ _); [by apply (cap_quiet _ _ (quiet_set_body _ _ _)) | by apply cap_launch].
  - destruct (tk_must_cancel tk); [by apply cap_end|]. destruct (running _ c); [done | by apply cap_launch].
  - destruct (ended _ c); [|done]. cbv zeta. apply cap_end. case_decide; by apply (cap_quiet c).
Qed.

Lemma cap_start_item i w x c : cap_inv c → cap_inv (start_item i w x c).1.
Proof.
  intros Hi. unfold start_item. pose proof (cap_start (OneQueued w x) false c Hi) as H1.
  destruct (start_task _ _ c) as [c1 [t|]] eqn:E; [|done]. destruct (start_spec _ _ _ _ _ E Hi) as [Hr _].
  simpl in H1 |- *. apply cap_add_cb; [apply cap_add_cb | | by intros []].
  - by apply (cap_quiet c1).
  - by apply running_lt.
  - by intros [].
  - rewrite add_cb_length. by apply running_lt.
Qed.

Lemma cap_start_items l c : cap_inv c → cap_inv (start_items l c).1.1.
Proof.
  revert c. induction l as [|[i [w x]] l IH]; intros c Hi; simpl; [done|].
  pose proof (cap_start_item i w x c Hi) as H1. destruct (start_item i w x c) as [c1 r]. cbn [fst] in H1.
  specialize (IH c1 H1). destruct (start_items l c1) as [[c2 ss] fs]. by destruct r.
Qed.

Lemma retain_running t i w d c t' : running t' (retain_late_task t i w d c).1 = running t' c.
Proof.
  assert (∀ c t, running t' (track_cancelling_task t c) = running t' c) as Hc.
  { intros c1 t1. unfold track_cancelling_task. cbv zeta. rewrite (q_running _ _ (quiet_cancel _ _)), add_cb_running.
    transitivity (running t' (adopt_task t1 true c1).1); [done|]. unfold adopt_task. case_bool_decide; [done|].
    exact (add_cb_running t1 DiscardOwned t' (c1 <| owned_tasks ::= ({[t1]} ∪.) |>)). }
  unfold retain_late_task. destruct (is_shutdown c); [apply Hc|].
  unfold adopt_task. case_bool_decide; cbn [negb andb fst]; [by rewrite add_cb_running|].
  destruct (has_background_capacity c); cbn [negb andb fst]; [|apply Hc]. rewrite add_cb_running.
  exact (add_cb_running t DiscardOwned t' (c <| owned_tasks ::= ({[t]} ∪.) |>)).
Qed.

Lemma cap_retain_items ss d c :
  cap_inv c → Forall (λ s, running (sd_task s) c = true) ss → cap_inv (retain_items ss d c).1.1.
Proof.
  revert c. induction ss as [|s ss IH]; intros c Hi Hr; simpl; [done|]. apply Forall_cons in Hr as [Hr Hrs].
  pose proof (cap_retain (sd_task s) (sd_item s) (sd_worker s) d c Hi Hr) as H1.
  pose proof (retain_running (sd_task s) (sd_item s) (sd_worker s) d c) as H2.
  destruct (retain_late_task _ _ _ d c) as [c1 a]. cbn [fst] in H1, H2.
  assert (Forall (λ s, running (sd_task s) c1 = true) ss) as H3.
  { eapply Forall_impl; [exact Hrs|]. intros s'. by rewrite H2. }
  specialize (IH c1 H1 H3). destruct (retain_items ss d c1) as [[c2 ps] fs]. by destruct a.
Qed.

Lemma cap_collect n c : cap_inv c → cap_inv (submit_collect materialize n c).1.
Proof.
  intros Hi. unfold submit_collect. destruct (frames c !! n) as [f|]; [|done]. destruct (fr_cancelled f); [done|].
  cbv zeta. set (c1 := c <| frames ::= _ |>). set (late := filter _ (fr_started f)).
  assert (cap_inv (retain_items late (fr_on_late f) c1).1.1) as H1.
  { apply cap_retain_items; [by apply (cap_quiet c)|]. apply Forall_forall. intros s [Hr _]%list_elem_of_filter. done. }
  destruct (retain_items late _ c1) as [[c2 ps] fs]. by apply (cap_quiet c2).
Qed.

Lemma cap_submit sub turn items ids d c : cap_inv c → cap_inv (submit_begin sub turn items ids d c).1.
Proof.
  intros Hi. unfold submit_begin. destruct (ensure_open c); [|done]. cbv zeta. case_decide; [|by apply (cap_quiet c)].
  match goal with |- context [start_items ?l ?c1] =>
    pose proof (cap_start_items l c1) as H1; destruct (start_items l c1) as [[c2 ss] fs] end.
  apply (cap_quiet c2); [by split|]. apply H1. by apply (cap_quiet c).
Qed.

Definition is_finish (o : @co_op V) : bool := match o with OShutdownFinish => true | _ => false end.

Lemma cexec_cap o c : is_finish o = false → cap_inv c → cap_inv (cexec materialize o c).
Proof.
  intros Ho Hi. destruct o; simpl.
  - by apply cap_start.
  - destruct (running t c) eqn:Hr; [by apply cap_retain | done].
  - by apply (cap_quiet c).
  - by apply cap_run_ready.
  - by apply cap_run_one.
  - unfold end_opaque. destruct (tk_body <$> _) as [[]|]; try done; by apply cap_end.
  - by apply cap_submit.
  - by apply cap_collect.
  - unfold submit_cancelled. destruct (frames c !! n) as [f|]; [|done].
    eapply cap_quiet; [|exact Hi]. cbv zeta.
    transitivity (foldl (λ c s, cancel_task (sd_task s) c) c (fr_started f)); [|by split].
    exact (quiet_fold (λ c s, cancel_task (sd_task s) c) (fr_started f) c (λ c a, quiet_cancel _ c)).
  - unfold submit_raise. destruct (frames c !! n); [|done]. destruct (_ && _); [by apply (cap_quiet c) | done].
  - unfold submit_abandon. destruct (frames c !! n); [by apply (cap_quiet c) | done].
  - unfold cancel. eapply cap_quiet; [|exact Hi]. apply quiet_fold. intros c' i. destruct (dict_get i _); [apply quiet_cancel | reflexivity].
  - unfold shutdown_begin. eapply cap_quiet; [|exact Hi]. cbv zeta.
    match goal with |- quiet c (foldl ?f ?c1 ?l) =>
      transitivity c1; [by split | exact (quiet_fold f l c1 (λ c t, quiet_cancel t c))] end.
  - done.
  - unfold add_pending. destruct (ensure_open c); [by apply (cap_quiet c) | done].
  - unfold arbitrate. destruct (ensure_open c); [|done]. unfold pending.
    assert (∀ c1, quiet c c1 → cap_inv c1) as Hq by (intros c1 ?; by eapply cap_quiet).
    destruct (dict_get session _) as [p|]; [destruct (Qle_bool _ _)|]; destruct control as [[act tg]|];
      try case_decide; try destruct intent; apply Hq; by split.
Qed.

Lemma crun_cap os c : Forall (λ o, is_finish o = false) os → cap_inv c → cap_inv (crun materialize os c).
Proof.
  intros Hos. revert c. induction Hos as [|o os Ho Hos IH]; intros c Hi; simpl; [done|]. by apply IH, cexec_cap.
Qed.

Lemma init_cap : cap_inv (WorkItemCoordinator_init : WorkItemCoordinator V).
Proof. split; [split; simpl; intros; try done; set_solver | apply (Nat.le_0_l max_background_tasks)]. Qed.

(** ** Steps that leave dialogues, deliveries and submissions alone *)

Record calm c c' : Prop := {
  cm_shutdown : is_shutdown c' = is_shutdown c;
  cm_pending : pending_dialogues c' = pending_dialogues c;
  cm_late : late_results c' = late_results c;
  cm_events : events c' = events c;
  cm_frames : frames c' = frames c;
  cm_tasks : (length (tasks c) ≤ length (tasks c'))%nat
}.

#[global] Instance calm_refl : Reflexive calm.
Proof. intros c. by split. Qed.

#[global] Instance calm_trans : Transitive calm.
Proof. intros c1 c2 c3 [] []. split; try congruence. lia. Qed.

Lemma calm_fold {A} (f : WorkItemCoordinator V → A → WorkItemCoordinator V) l c :
  (∀ c a, calm c (f c a)) → calm c (foldl f c l).
Proof. intros Hf. revert c. induction l as [|a l IH]; intros c; simpl; [reflexivity|]. by etransitivity; [|apply IH]. Qed.

Ltac calm_done := split; simpl; rewrite ?length_alter, ?length_app; simpl; first [done | lia].

Lemma calm_add_cb t k c : calm c (add_done_callback t k c).
Proof. unfold add_done_callback. destruct (running t c); calm_done. Qed.

Lemma calm_cancel t c : calm c (cancel_task t c).
Proof. unfold cancel_task. cbv zeta. destruct (running t c); calm_done. Qed.

Lemma calm_end t e c : calm c (end_task t e c).
Proof. unfold end_task. destruct (running t c); calm_done. Qed.

Lemma calm_adopt t f c : calm c (adopt_task t f c).1.
Proof.
  unfold adopt_task. case_bool_decide; [reflexivity|]. destruct (_ && _); [reflexivity|].
  etransitivity; [|apply calm_add_cb]. calm_done.
Qed.

Lemma calm_start b m c : calm c (start_task b m c).1.
Proof.
  unfold start_task. destruct (_ || _); [reflexivity|]. unfold create_task. set (c0 := c <| tasks ::= _ |>).
  assert (calm c c0) as H0 by calm_done. etransitivity; [exact H0|].
  etransitivity; [apply (calm_adopt (length (tasks c)) true)|]. destruct m; [|reflexivity].
  etransitivity; [|apply calm_add_cb]. calm_done.
Qed.

Lemma calm_track_cancelling t c : calm c (track_cancelling_task t c).
Proof.
  unfold track_cancelling_task. etransitivity; [apply (calm_adopt t true)|]. cbv zeta.
  etransitivity; [|apply calm_cancel]. etransitivity; [|apply calm_add_cb]. calm_done.
Qed.

Lemma calm_track_callback t c : calm c (track_callback_task t c).
Proof.
  unfold track_callback_task. pose proof (calm_adopt t false c) as H1. destruct (adopt_task t false c) as [c1 []].
  - etransitivity; [exact H1|]. etransitivity; [|apply calm_add_cb]. calm_done.
  - etransitivity; [exact H1 | apply calm_track_cancelling].
Qed.

Lemma calm_retain t i w d c : calm c (retain_late_task t i w d c).1.
Proof.
  unfold retain_late_task. destruct (is_shutdown c); [apply calm_track_cancelling|].
  pose proof (calm_adopt t false c) as H1. destruct (adopt_task t false c) as [c1 []].
  - etransitivity; [exact H1|]. etransitivity; [|apply calm_add_cb]. calm_done.
  - etransitivity; [exact H1 | apply calm_track_cancelling].
Qed.

Lemma calm_launch t w x c : calm c (launch t w x c).
Proof. unfold launch, create_task, set_body. calm_done. Qed.

Lemma calm_run_one t c : calm c (run_one t c).
Proof.
  unfold run_one. destruct (tasks c !! t) as [tk|]; [|reflexivity]. destruct (negb _); [reflexivity|].
  destruct (tk_body tk); try reflexivity.
  - destruct (tk_must_cancel tk); [apply calm_end|]. destruct (dict_get _ _); [unfold set_body; calm_done | apply calm_launch].
  - destruct (tk_must_cancel tk); [apply calm_end|]. destruct (running _ c); [reflexivity | apply calm_launch].
  - destruct (ended _ c); [|reflexivity]. cbv zeta. etransitivity; [|apply calm_end]. case_decide; calm_done.
Qed.

Lemma calm_start_items l c : calm c (start_items l c).1.1.
Proof.
  revert c. induction l as [|[i [w x]] l IH]; intros c; simpl; [reflexivity|].
  assert (calm c (start_item i w x c).1) as H1.
  { unfold start_item. pose proof (calm_start (OneQueued w x) false c) as H2.
    destruct (start_task _ _ c) as [c1 [t|]]; [|exact H2]. etransitivity; [exact H2|].
    etransitivity; [|apply calm_add_cb]. etransitivity; [|apply calm_add_cb]. calm_done. }
  destruct (start_item i w x c) as [c1 r]. specialize (IH c1). destruct (start_items l c1) as [[c2 ss] fs].
  destruct r; (etransitivity; [exact H1 | exact IH]).
Qed.

Lemma calm_retain_items ss d c : calm c (retain_items ss d c).1.1.
Proof.
  revert c. induction ss as [|s ss IH]; intros c; simpl; [reflexivity|].
  pose proof (calm_retain (sd_task s) (sd_item s) (sd_worker s) d c) as H1.
  destruct (retain_late_task _ _ _ d c) as [c1 a]. specialize (IH c1). destruct (retain_items ss d c1) as [[c2 ps] fs].
  destruct a; (etransitivity; [exact H1 | exact IH]).
Qed.

(** ** Submissions *)

Definition failed_ids (fs : list WorkItemFailure) : list string := wf_work_item_id <$> fs.

(** Every selected item was started or refused for capacity, and the started
    ones have tasks. *)
Definition frame_ok (n : nat) (f : frame) : Prop :=
  (sd_item <$> fr_started f) ++ failed_ids (fr_capacity_failures f) ≡ₚ fr_work f ∧
  (length (fr_work f) ≤ max_work_items_per_turn)%nat ∧ Forall (λ s, (sd_task s < n)%nat) (fr_started f).

Definition frames_ok c : Prop := Forall (frame_ok (length (tasks c))) (frames c).

Lemma frame_ok_mono n m f : (n ≤ m)%nat → frame_ok n f → frame_ok m f.
Proof. intros Hl (H1 & H2 & H3). split_and!; try done. eapply Forall_impl; [exact H3|]. simpl. lia. Qed.

Lemma frames_calm c c' : calm c c' → frames_ok c → frames_ok c'.
Proof.
  intros Hc Hf. unfold frames_ok. rewrite (cm_frames _ _ Hc). eapply Forall_impl; [exact Hf|].
  intros f. apply frame_ok_mono, Hc.
Qed.

Lemma start_items_spec l c :
  let '(c', ss, fs) := start_items l c in
  (sd_item <$> ss) ++ failed_ids fs ≡ₚ l.*1 ∧ Forall (λ s, (sd_task s < length (tasks c'))%nat) ss.
Proof.
  revert c. induction l as [|[i [w x]] l IH]; intros c; simpl; [done|].
  assert (match start_item i w x c with
          | (c1, inl s) => sd_item s = i ∧ (sd_task s < length (tasks c1))%nat
          | (_, inr f) => wf_work_item_id f = i
          end) as H1.
  { unfold start_item, start_task. destruct (_ || _); [done|]. unfold create_task. cbn [fst snd].
    split; [done|]. simpl sd_task. rewrite !add_cb_length. simpl tasks.
    match goal with |- context [adopt_task ?t true ?c0] => pose proof (cm_tasks _ _ (calm_adopt t true c0)) as H2 end.
    simpl in H2. rewrite length_app in H2. simpl in H2. simpl. lia. }
  destruct (start_item i w x c) as [c1 r]. specialize (IH c1). pose proof (calm_start_items l c1) as Hc.
  destruct (start_items l c1) as [[c2 ss] fs]. destruct IH as [IH1 IH2]. destruct r as [s|f].
  - destruct H1 as [<- Hl]. split; [simpl; by rewrite IH1|]. constructor; [|done]. pose proof (cm_tasks _ _ Hc). simpl in *. lia.
  - rewrite <- H1. split; [|done]. simpl. by rewrite <- IH1, Permutation_middle.
Qed.

Lemma frames_submit sub turn items ids d c : frames_ok c → frames_ok (submit_begin sub turn items ids d c).1.
Proof.
  intros Hf. unfold submit_begin. destruct (ensure_open c); [|done]. cbv zeta. case_decide as Hlen; [|exact Hf].
  set (sel := take max_work_items_per_turn items) in *. set (wids := match ids with Some _ => _ | None => _ end) in *.
  set (c1 := c <| submission_tasks ::= _ |>). pose proof (start_items_spec (zip wids sel) c1) as Hs.
  pose proof (calm_start_items (zip wids sel) c1) as Hc. destruct (start_items (zip wids sel) c1) as [[c2 ss] fs].
  destruct Hs as [Hp Hl]. unfold frames_ok. simpl. apply Forall_app. split.
  - apply (frames_calm c1 c2 Hc). exact Hf.
  - constructor; [|done]. split_and!; simpl; [|rewrite Hlen; apply firstn_le_length | done].
    rewrite Hp. by rewrite fst_zip by lia.
Qed.

(** A started item has a result, a failure, or is still running. *)
Lemma item_cases s c :
  (sd_task s < length (tasks c))%nat →
  (∃ v, item_result materialize s c = Some v ∧ execution_failure s c = None ∧ running (sd_task s) c = false) ∨
  (∃ f, item_result materialize s c = None ∧ execution_failure s c = Some f ∧ wf_work_item_id f = sd_item s ∧
     running (sd_task s) c = false) ∨
  (item_result materialize s c = None ∧ execution_failure s c = None ∧ running (sd_task s) c = true).
Proof.
  intros [tk Htk]%lookup_lt_is_Some. unfold item_result, execution_failure, ended, running. rewrite Htk. simpl.
  unfold is_running. destruct (tk_end tk) as [[v|cls msg|]|]; simpl; eauto 10.
Qed.

Lemma partition_items ss c :
  Forall (λ s, (sd_task s < length (tasks c))%nat) ss →
  ∃ fin, length fin = length (omap (λ s, item_result materialize s c) ss) ∧
    fin ++ failed_ids (omap (λ s, execution_failure s c) ss) ++
      (sd_item <$> filter (λ s, running (sd_task s) c = true) ss) ≡ₚ sd_item <$> ss.
Proof.
  induction 1 as [|s ss Hs Hss (fin & Hl & Hp)]; [by exists []|].
  destruct (item_cases s c Hs) as [(v & E1 & E2 & E3)|[(f & E1 & E2 & Ef & E3)|(E1 & E2 & E3)]];
    simpl; rewrite E1, E2, filter_cons, ?E3.
  - exists (sd_item s :: fin). rewrite decide_False by done. simpl. split; [by f_equal | by rewrite Hp].
  - exists fin. rewrite decide_False by done. simpl. rewrite Ef. split; [done|]. by rewrite <- Permutation_middle, Hp.
  - exists fin. rewrite decide_True by done. simpl. split; [done|].
    rewrite (app_assoc fin), <- Permutation_middle, <- (app_assoc fin). by rewrite Hp.
Qed.

Lemma retain_items_spec ss d c :
  let '(_, ps, fs) := retain_items ss d c in failed_ids fs ++ ps ≡ₚ sd_item <$> ss.
Proof.
  revert c. induction ss as [|s ss IH]; intros c; simpl; [done|].
  destruct (retain_late_task _ _ _ d c) as [c1 a]. specialize (IH c1).
  destruct (retain_items ss d c1) as [[c2 ps] fs]. destruct a; simpl; [by rewrite <- Permutation_middle, IH | by rewrite IH].
Qed.

Lemma collect_spec n c c' out :
  frames_ok c → submit_collect materialize n c = (c', Some out) →
  ∃ fin, length fin = length (so_results out) ∧
    fin ++ failed_ids (so_failures out) ++ so_pending_work_item_ids out ≡ₚ so_work_items out ∧
    (length (so_work_items out) ≤ max_work_items_per_turn)%nat.
Proof.
  intros Hf. unfold submit_collect. destruct (frames c !! n) as [f|] eqn:E; [|done]. destruct (fr_cancelled f); [done|].
  cbv zeta. set (c1 := c <| frames ::= _ |>).
  destruct (proj1 (Forall_lookup _ _) Hf n f E) as (Hw & Hm & Ht).
  destruct (partition_items (fr_started f) c1 Ht) as (fin & Hl & Hp).
  pose proof (retain_items_spec (filter (λ s, running (sd_task s) c1 = true) (fr_started f)) (fr_on_late f) c1) as Hr.
  destruct (retain_items _ (fr_on_late f) c1) as [[c2 ps] fs]. intros [= <- <-]. exists fin. simpl. split_and!; [done | | done].
  rewrite <- Hr in Hp. rewrite <- Hw, <- Hp. unfold failed_ids. rewrite !fmap_app. solve_Permutation.
Qed.

Lemma frames_same c c' : frames c' = frames c → (length (tasks c) ≤ length (tasks c'))%nat → frames_ok c → frames_ok c'.
Proof. intros E Hl Hf. unfold frames_ok. rewrite E. eapply Forall_impl; [exact Hf|]. intros f. by apply frame_ok_mono. Qed.

Lemma frames_delete n c c' :
  frames c' = list_delete n (frames c) → (length (tasks c) ≤ length (tasks c'))%nat → frames_ok c → frames_ok c'.
Proof.
  intros E Hl Hf. unfold frames_ok. rewrite E. change (list_delete n (frames c)) with (delete n (frames c)).
  rewrite delete_take_drop. apply (Forall_impl _ (frame_ok (length (tasks c')))) in Hf; [|intros f; by apply frame_ok_mono].
  apply Forall_app. split; [by apply Forall_take | by apply Forall_drop].
Qed.

(** What a late completion leaves alone. *)
Lemma late_completed_rest t i w d e c :
  let c' := late_completed materialize t i w d e c in
  frames c' = frames c ∧ (length (tasks c) ≤ length (tasks c'))%nat ∧ is_shutdown c' = is_shutdown c ∧
  pending_dialogues c' = pending_dialogues c ∧
  (is_shutdown c = true → late_results c' = late_results c) ∧
  ∃ new, events c' = events c ++ ELateTerminal i (terminal_kind e) :: new ∧ (is_shutdown c = true → new = []) ∧
    Forall (λ x, match x with EComplete _ => True | _ => False end) new.
Proof.
  unfold late_completed. cbv zeta. set (c1 := (log _ c) <| late_tasks ::= _ |> <| background_task_order ::= _ |>).
  assert (events c1 = events c ++ [ELateTerminal i (terminal_kind e)]) as Ee by done.
  change (is_shutdown c1) with (is_shutdown c). destruct (is_shutdown c) eqn:Es.
  { split_and!; try done. exists []. by split_and!. }
  set (late := late_result_of materialize i w e). destruct d.
  - split_and!; try done. exists []. by split_and!.
  - split_and!; try done. exists [EComplete late]. split_and!; [simpl; by rewrite <- app_assoc | done | by repeat constructor].
  - assert (calm (log (EComplete late) c1)
      match start_task Opaque true (log (EComplete late) c1) with (c, Some k) => track_callback_task k c | (c, None) => c end) as Hc.
    { pose proof (calm_start Opaque true (log (EComplete late) c1)) as H1.
      destruct (start_task Opaque true _) as [c2 [k|]]; [|exact H1]. etransitivity; [exact H1 | apply calm_track_callback]. }
    destruct Hc as [C1 C2 C3 C4 C5 C6]. split_and!; try done; [by rewrite C1|].
    exists [EComplete late]. rewrite C4. split_and!; [simpl; by rewrite <- app_assoc | done | by repeat constructor].
Qed.

Lemma cexec_frames o c : frames_ok c → frames_ok (cexec materialize o c).
Proof.
  intros Hf. destruct o; simpl.
  - by eapply frames_calm, Hf; apply calm_start.
  - destruct (running t c); [|done]. by eapply frames_calm, Hf; apply calm_retain.
  - done.
  - unfold run_ready. destruct (ready c) as [|[t k] r]; [done|]. destruct k; try exact Hf; simpl.
    + case_decide; exact Hf.
    + destruct (ended t _) as [e|]; [|exact Hf].
      destruct (late_completed_rest t work_item_id worker_id on_done e (c <| ready := r |>)) as (E1 & E2 & _).
      by apply (frames_same c).
  - by eapply frames_calm, Hf; apply calm_run_one.
  - unfold end_opaque. destruct (tk_body <$> _) as [[]|]; try done; by eapply frames_calm, Hf; apply calm_end.
  - by apply frames_submit.
  - unfold submit_collect. destruct (frames c !! n) as [f|]; [|done]. destruct (fr_cancelled f); [done|]. cbv zeta.
    match goal with |- context [retain_items ?l ?d ?c1] =>
      pose proof (calm_retain_items l d c1) as Hc; destruct (retain_items l d c1) as [[c2 ps] fs] end.
    apply (frames_delete n c); [apply Hc | apply Hc | done].
  - unfold submit_cancelled. destruct (frames c !! n) as [f|]; [|done]. cbv zeta.
    pose proof (calm_fold (λ c s, cancel_task (sd_task s) c) (fr_started f) c (λ c s, calm_cancel _ c)) as Hc.
    apply (frames_calm _ _ Hc) in Hf. set (c1 := foldl _ c _) in *. unfold frames_ok in *. simpl.
    apply Forall_alter; [exact Hf|]. intros f' _ Hf'. exact Hf'.
  - unfold submit_raise. destruct (frames c !! n) as [f|]; [|done]. destruct (_ && _); [|done]. by apply (frames_delete n c).
  - unfold submit_abandon. destruct (frames c !! n) as [f|]; [by apply (frames_delete n c) | done].
  - unfold cancel. eapply frames_calm, Hf. apply calm_fold. intros c' i. destruct (dict_get i _); [apply calm_cancel | reflexivity].
  - unfold shutdown_begin. cbv zeta. match goal with |- frames_ok (foldl ?f ?c1 ?l) =>
      apply (frames_calm c1); [exact (calm_fold f l c1 (λ c t, calm_cancel t c)) | exact Hf] end.
  - unfold shutdown_finish. destruct (is_shutdown c); exact Hf.
  - unfold add_pending. destruct (ensure_open c); exact Hf.
  - unfold arbitrate, pending. destruct (ensure_open c); [|done].
    destruct (dict_get session _) as [p|]; [destruct (Qle_bool _ _)|]; destruct control as [[act tg]|];
      try case_decide; try destruct intent; exact Hf.
Qed.

Lemma crun_frames os c : frames_ok c → frames_ok (crun materialize os c).
Proof. revert c. induction os as [|o os IH]; intros c Hf; simpl; [done|]. by apply IH, cexec_frames. Qed.

(** ** Pending dialogues *)

Definition asked (es : list (co_event V)) : list PendingDialogue :=
  omap (λ e, match e with EAsked p => Some p | _ => None end) es.

Definition answered (es : list (co_event V)) : list PendingDialogue :=
  omap (λ e, match e with EAnswered p _ _ => Some p | _ => None end) es.

Definition dialogue_inv c : Prop :=
  dict_wf (pending_dialogues c) ∧
  (∀ k p, dict_get k (pending_dialogues c) = Some p → pd_session_id p = k) ∧
  answered (events c) ++ dict_values (pending_dialogues c) ⊆+ asked (events c) ∧
  ∀ p s now, EAnswered p s now ∈ events c → pd_session_id p = s ∧ (now < pd_expires_at p)%Q.

(** Only these fields matter. *)
Lemma dialogue_same c c' new :
  pending_dialogues c' = pending_dialogues c → events c' = events c ++ new →
  Forall (λ e, match e with EAsked _ | EAnswered _ _ _ => False | _ => True end) new → dialogue_inv c → dialogue_inv c'.
Proof.
  intros E1 E2 Hn (H1 & H2 & H3 & H4).
  assert (asked new = [] ∧ answered new = []) as [N1 N2].
  { clear -Hn. induction Hn as [|e l He Hl [IH1 IH2]]; [done|]. simpl. by destruct e. }
  unfold dialogue_inv. rewrite E1, E2. unfold asked, answered in *. rewrite !omap_app, N1, N2, !app_nil_r.
  split_and!; try done. intros p s now [Hin|Hin]%elem_of_app; [by apply H4|].
  rewrite Forall_forall in Hn. by apply Hn in Hin.
Qed.

Lemma dialogue_calm c c' : calm c c' → dialogue_inv c → dialogue_inv c'.
Proof. intros []. apply (dialogue_same c c' []); [done | by rewrite app_nil_r | constructor]. Qed.

Lemma values_set (k : string) (p : PendingDialogue) (d : dict string PendingDialogue) :
  dict_values (dict_set k p d) ⊆+ p :: dict_values d.
Proof.
  unfold dict_values. induction d as [|[k' p'] d IH]; simpl; [done|]. case_decide; simpl.
  - apply submseteq_skip, submseteq_cons. done.
  - rewrite (Permutation_swap p' p). by apply submseteq_skip.
Qed.

Lemma values_pop (k : string) (d : dict string PendingDialogue) : dict_values (dict_pop k d) ⊆+ dict_values d.
Proof. unfold dict_values, dict_pop. apply fmap_submseteq, sublist_submseteq, sublist_filter. Qed.

Lemma values_take (k : string) p (d : dict string PendingDialogue) :
  dict_get k d = Some p → p :: dict_values (dict_pop k d) ⊆+ dict_values d.
Proof.
  unfold dict_values, dict_pop. induction d as [|[k' p'] d IH]; simpl; [done|]. rewrite filter_cons.
  case_decide; subst.
  - intros [= ->]. rewrite decide_False by (simpl; congruence). apply submseteq_skip, values_pop.
  - intros Hg. rewrite decide_True by done. simpl. rewrite Permutation_swap. by apply submseteq_skip, IH.
Qed.

Lemma dialogue_ask p c : dialogue_inv c → dialogue_inv (add_pending p c).1.
Proof.
  intros (H1 & H2 & H3 & H4). unfold add_pending. destruct (ensure_open c); [|by split_and!]. unfold dialogue_inv. simpl.
  unfold asked, answered in *. rewrite !omap_app. simpl. rewrite app_nil_r. split_and!.
  - by apply dict_wf_set.
  - intros k q. rewrite dict_get_set. case_decide; [by intros [= <-] | apply H2].
  - etransitivity; [apply submseteq_app; [done | apply values_set]|]. rewrite <- Permutation_middle.
    rewrite (Permutation_app_comm _ [p]). by apply submseteq_skip.
  - intros q s now [Hin|Hin%list_elem_of_singleton]%elem_of_app; [by apply H4 | done].
Qed.

Lemma dialogue_pop k c : dialogue_inv c → dialogue_inv (c <| pending_dialogues ::= dict_pop k |>).
Proof.
  intros (H1 & H2 & H3 & H4). unfold dialogue_inv. simpl. split_and!; [by apply dict_wf_pop | | | done].
  - intros k' p. rewrite dict_get_pop. case_decide; [done | apply H2].
  - etransitivity; [|exact H3]. apply submseteq_app; [done | apply values_pop].
Qed.

Lemma dialogue_answer k p now c :
  dialogue_inv c → dict_get k (pending_dialogues c) = Some p → (now < pd_expires_at p)%Q → dialogue_inv (answer k p now c).
Proof.
  intros Hi Hg Hn. destruct (dialogue_pop k c Hi) as (H1 & H2 & _). destruct Hi as (_ & H3 & H4 & H5).
  unfold dialogue_inv, answer. simpl. unfold asked, answered in *. rewrite !omap_app. simpl. rewrite app_nil_r.
  split_and!; [exact H1 | exact H2 | |].
  - rewrite <- app_assoc. simpl. etransitivity; [|exact H4]. apply submseteq_app; [done | by apply values_take].
  - intros q s' now' [Hin|Hin%list_elem_of_singleton]%elem_of_app; [by apply H5|]. simplify_eq. split; [by apply H3 | done].
Qed.

Lemma dialogue_arbitrate s k i ps now c : dialogue_inv c → dialogue_inv (arbitrate s k i ps now c).1.
Proof.
  intros Hi. unfold arbitrate. destruct (ensure_open c); [|done]. unfold pending.
  destruct (dict_get s (pending_dialogues c)) as [p|] eqn:Eg.
  - destruct (Qle_bool (pd_expires_at p) now) eqn:Ex.
    + apply (dialogue_pop s) in Hi. destruct k as [[act tg]|]; exact Hi.
    + apply Qle_bool_lt in Ex. pose proof (dialogue_answer s p now c Hi Eg Ex) as Ha.
      destruct k as [[act tg]|]; [case_decide; [exact Ha | exact Hi]|]. destruct i; first [exact Ha | exact Hi].
  - destruct k as [[act tg]|]; exact Hi.
Qed.

(** ** Operations without deliveries or dialogue *)

Definition outward c := (is_shutdown c, pending_dialogues c, late_results c, events c).

Definition silent (o : @co_op V) : bool :=
  match o with ODrain | OReady | OShutdownBegin _ | OAsk _ | OArbitrate _ _ _ _ _ => false | _ => true end.

Lemma calm_outward c c' : calm c c' → outward c' = outward c.
Proof. intros [E1 E2 E3 E4 _ _]. unfold outward. by rewrite E1, E2, E3, E4. Qed.

Lemma cexec_silent o c : silent o = true → outward (cexec materialize o c) = outward c.
Proof.
  intros Ho. destruct o; try done; simpl.
  - apply calm_outward, calm_start.
  - destruct (running t c); [apply calm_outward, calm_retain | done].
  - apply calm_outward, calm_run_one.
  - unfold end_opaque. destruct (tk_body <$> _) as [[]|]; try done; apply calm_outward, calm_end.
  - unfold submit_begin. destruct (ensure_open c); [|done]. cbv zeta. case_decide; [|done].
    match goal with |- context [start_items ?l ?c1] =>
      pose proof (calm_start_items l c1) as Hc; destruct (start_items l c1) as [[c2 ss] fs] end.
    by apply calm_outward in Hc.
  - unfold submit_collect. destruct (frames c !! n) as [f|]; [|done]. destruct (fr_cancelled f); [done|]. cbv zeta.
    match goal with |- context [retain_items ?l ?d ?c1] =>
      pose proof (calm_retain_items l d c1) as Hc; destruct (retain_items l d c1) as [[c2 ps] fs] end.
    by apply calm_outward in Hc.
  - unfold submit_cancelled. destruct (frames c !! n) as [f|]; [|done].
    exact (calm_outward _ _ (calm_fold (λ c s, cancel_task (sd_task s) c) (fr_started f) c (λ c s, calm_cancel _ c))).
  - unfold submit_raise. destruct (frames c !! n); [|done]. by destruct (_ && _).
  - unfold submit_abandon. by destruct (frames c !! n).
  - unfold cancel. apply calm_outward, calm_fold. intros c' i. destruct (dict_get i _); [apply calm_cancel | reflexivity].
  - unfold shutdown_finish. destruct (is_shutdown c) eqn:E; [|done]. unfold outward. simpl. done.
Qed.

(** A callback delivers at most the completion of one retained task. *)
Lemma run_ready_outward c :
  outward (run_ready materialize c) = outward c ∨
  (is_shutdown (run_ready materialize c) = is_shutdown c ∧
   pending_dialogues (run_ready materialize c) = pending_dialogues c ∧
   (is_shutdown c = true → late_results (run_ready materialize c) = late_results c) ∧
   ∃ i k new, events (run_ready materialize c) = events c ++ ELateTerminal i k :: new ∧ (is_shutdown c = true → new = []) ∧
     Forall (λ x, match x with EComplete _ => True | _ => False end) new).
Proof.
  unfold run_ready. destruct (ready c) as [|[t k] r]; [by left|]. destruct k; try (by left); simpl.
  - left. by case_decide.
  - destruct (ended t _) as [e|]; [|by left]. right.
    destruct (late_completed_rest t work_item_id worker_id on_done e (c <| ready := r |>)) as (_ & _ & E1 & E2 & E3 & new & E4 & E5 & E6).
    split_and!; [exact E1 | exact E2 | exact E3 |]. eexists _, _, new. split_and!; [exact E4 | exact E5 | exact E6].
Qed.

Lemma dialogue_outward c c' : outward c' = outward c → dialogue_inv c → dialogue_inv c'.
Proof.
  intros [= E1 E2 E3 E4]. apply (dialogue_same c c' []); [done | by rewrite E4, app_nil_r | constructor].
Qed.

Lemma cexec_dialogue o c : dialogue_inv c → dialogue_inv (cexec materialize o c).
Proof.
  intros Hi. destruct (silent o) eqn:Es; [by eapply dialogue_outward, Hi; apply cexec_silent|].
  destruct o; try done; simpl.
  - destruct (run_ready_outward c) as [E|(_ & E1 & _ & i & k & new & E2 & _ & Hn)]; [by apply (dialogue_outward c)|].
    eapply (dialogue_same c); [exact E1 | exact E2 | | exact Hi]. constructor; [done|].
    eapply Forall_impl; [exact Hn|]. by intros [].
  - unfold shutdown_begin. cbv zeta. match goal with |- dialogue_inv (foldl ?f ?c1 ?l) =>
      apply (dialogue_calm c1); [exact (calm_fold f l c1 (λ c t, calm_cancel t c))|] end.
    destruct Hi as (_ & _ & H3 & H4). split_and!; [constructor | done | | exact H4]. simpl.
    etransitivity; [|exact H3]. apply submseteq_app; [done | apply submseteq_nil_l].
  - by apply dialogue_ask.
  - by apply dialogue_arbitrate.
Qed.

Lemma crun_dialogue os c : dialogue_inv c → dialogue_inv (crun materialize os c).
Proof. revert c. induction os as [|o os IH]; intros c Hi; simpl; [done|]. by apply IH, cexec_dialogue. Qed.

(** ** Shutdown *)

Definition closed c : Prop := is_shutdown c = true ∧ pending_dialogues c = [] ∧ late_results c = [].

Definition telemetry (es : list (co_event V)) : Prop :=
  Forall (λ e, match e with ELateTerminal _ _ => True | _ => False end) es.

Lemma cexec_closed o c :
  closed c → closed (cexec materialize o c) ∧
  ∃ new, events (cexec materialize o c) = events c ++ new ∧ telemetry new.
Proof.
  intros (H1 & H2 & H3). assert (∀ c', outward c' = outward c → closed c' ∧ ∃ new, events c' = events c ++ new ∧ telemetry new) as Hsame.
  { intros c' [= E1 E2 E3 E4]. unfold closed. rewrite E1, E2, E3, E4. split; [done|]. exists [].
    rewrite app_nil_r. split; [done | constructor]. }
  destruct (silent o) eqn:Es; [by apply Hsame, cexec_silent|].
  assert (ensure_open c = Raise (RuntimeError "work item coordinator is shut down")) as Ho by (unfold ensure_open; by rewrite H1).
  destruct o; try done; cbn [cexec].
  - apply Hsame. unfold outward. simpl. by rewrite H3.
  - destruct (run_ready_outward c) as [E|(E1 & E2 & E3 & i & k & new & E4 & E5 & _)]; [by apply Hsame|].
    unfold closed. rewrite E1, E2, (E3 H1). split; [done|]. rewrite (E5 H1) in E4. exists [ELateTerminal i k].
    split; [done | by repeat constructor].
  - unfold shutdown_begin. cbv zeta. match goal with |- context [foldl ?f ?c1 ?l] =>
      pose proof (calm_outward _ _ (calm_fold f l c1 (λ c t, calm_cancel t c))) as E; apply Hsame; rewrite E end.
    unfold outward. simpl. by rewrite H1, H2, H3.
  - unfold add_pending. rewrite Ho. by apply Hsame.
  - unfold arbitrate. rewrite Ho. by apply Hsame.
Qed.

Lemma crun_closed os c :
  closed c → closed (crun materialize os c) ∧ ∃ new, events (crun materialize os c) = events c ++ new ∧ telemetry new.
Proof.
  revert c. induction os as [|o os IH]; intros c Hc.
  { split; [done|]. exists []. rewrite app_nil_r. split; [done | constructor]. }
  change (crun materialize (o :: os) c) with (crun materialize os (cexec materialize o c)).
  destruct (cexec_closed o c Hc) as [H1 (n1 & E1 & T1)]. destruct (IH _ H1) as [H2 (n2 & E2 & T2)]. split; [exact H2|].
  exists (n1 ++ n2). split; [by rewrite E2, E1, app_assoc | by apply Forall_app].
Qed.

(** ** Theorems *)

(** The background budget holds: over any run of the coordinator, whatever
    the interleaving of completions and their callbacks, at most
    [max_background_tasks] tasks are owned besides the mandatory completion
    callbacks and the tasks being cancelled. *)
Theorem background_budget os :
  Forall (λ o, is_finish o = false) os →
  let c := crun materialize os WorkItemCoordinator_init in
  (size (owned_tasks c ∖ (mandatory_tasks c ∪ cancelling_tasks c)) ≤ max_background_tasks)%nat.
Proof. intros Hos c. apply cp_budget. by apply crun_cap; [|apply init_cap]. Qed.

(** A submission accounts for every item: whenever [submit] returns, at
    whatever moment its wait ended, each selected item is exactly one of a
    result, a failure or still pending in the background, and no more items
    were selected than a turn may have. *)
Theorem submit_accounts_for_items os n c' out :
  submit_collect materialize n (crun materialize os WorkItemCoordinator_init) = (c', Some out) →
  ∃ finished, length finished = length (so_results out) ∧
    finished ++ failed_ids (so_failures out) ++ so_pending_work_item_ids out ≡ₚ so_work_items out ∧
    (length (so_work_items out) ≤ max_work_items_per_turn)%nat.
Proof. intros E. eapply collect_spec; [|exact E]. apply crun_frames. constructor. Qed.

(** A clarification is answered at most once: over any run, the dialogues
    handed out by [arbitrate] are among those that were asked, counting
    repetitions, each to a reply of its own session before it expired. *)
Theorem clarification_answered_once os :
  let c := crun materialize os WorkItemCoordinator_init in
  answered (events c) ⊆+ asked (events c) ∧
  ∀ p s now, EAnswered p s now ∈ events c → pd_session_id p = s ∧ (now < pd_expires_at p)%Q.
Proof.
  intros c. destruct (crun_dialogue os WorkItemCoordinator_init) as (_ & _ & H3 & H4).
  { split_and!; [constructor | done | done | by intros ? ? ? ?%not_elem_of_nil]. }
  split; [|exact H4]. etransitivity; [|exact H3]. apply submseteq_inserts_r. done.
Qed.

(** Shutdown is final: after it begins, in any further run, no task is
    started, no dialogue is held, no late result is kept or delivered; the only
    thing still reported is the telemetry of tasks that end. *)
Theorem shutdown_is_final os os' current :
  let c := shutdown_begin current (crun materialize os WorkItemCoordinator_init) in
  let c' := crun materialize os' c in
  closed c' ∧ (∃ new, events c' = events c ++ new ∧ telemetry new) ∧
  ∀ b m, start_task b m c' = (c', None).
Proof.
  intros c c'. assert (closed c) as Hc.
  { unfold c, shutdown_begin. cbv zeta. match goal with |- closed (foldl ?f ?c1 ?l) =>
      pose proof (calm_fold f l c1 (λ c t, calm_cancel t c)) as [E1 E2 E3 _ _ _] end.
    unfold closed. by rewrite E1, E2, E3. }
  destruct (crun_closed os' c Hc) as [H1 H2]. split_and!; [exact H1 | exact H2 |].
  intros b m. unfold start_task. destruct H1 as (H1 & _). fold c' in H1. by rewrite H1.
Qed.

End facts.

(** ** Concrete runs *)

#[local, refine] Instance w_coordinator : CoordinatorConfig :=
  {| max_background_tasks := 4; max_work_items_per_turn := 4; pending_dialogue_timeout := 60 |}.
Proof. lia. Defined.

Definition w_submit : @co_op string :=
  OSubmit 9 "turn-1" [("w", "a"); ("w", "b"); ("w", "c")] None NoCallback.

(** The first item runs; the other two start while it does, then it ends. *)
Definition w_overlap : list (@co_op string) :=
  [w_submit; ORunOne 0; ORunOne 1; ORunOne 2; OEnd 3 (EndResult "r"); ORunOne 0; ORunOne 1; ORunOne 2].

(** The per-worker tail does not serialise three items of one worker: the
    second and the third both wait for the first one's task, and once it has
    ended both of their provider calls run at the same time. *)
Theorem same_worker_items_overlap :
  let c := crun id w_overlap WorkItemCoordinator_init in
  (running 4 c = true ∧ tk_body <$> tasks c !! 4%nat = Some (Provider "w" "b")) ∧
  (running 5 c = true ∧ tk_body <$> tasks c !! 5%nat = Some (Provider "w" "c")).
Proof. vm_compute. done. Qed.

Lemma background_budget_witness :
  let c := crun id w_overlap WorkItemCoordinator_init in
  (size (owned_tasks c ∖ (mandatory_tasks c ∪ cancelling_tasks c)) ≤ 4)%nat.
Proof.
  assert (Forall (λ o : @co_op string, is_finish o = false) w_overlap) as Ho by by repeat constructor.
  exact (background_budget id w_overlap Ho).
Defined.

Lemma submit_accounts_for_items_witness :
  let out := mkSubmitted ["turn-1-0"; "turn-1-1"; "turn-1-2"] ["r"] ["turn-1-1"; "turn-1-2"] [] in
  ∃ finished, length finished = length (so_results out) ∧
    finished ++ failed_ids (so_failures out) ++ so_pending_work_item_ids out ≡ₚ so_work_items out ∧
    (length (so_work_items out) ≤ max_work_items_per_turn)%nat.
Proof.
  apply (submit_accounts_for_items id w_overlap 0
    (submit_collect id 0 (crun id w_overlap WorkItemCoordinator_init)).1
    (mkSubmitted ["turn-1-0"; "turn-1-1"; "turn-1-2"] ["r"] ["turn-1-1"; "turn-1-2"] [])).
  vm_compute. reflexivity.
Defined.
