(* ===== verification/Rtvi.v ===== *)
(** [server/rtvi_messages.py]: versioned wire envelopes and the publisher that
    stamps them for one connection.

    The [data] of an envelope is a model dump; it is kept as the model value it
    was dumped from, so that [_PAYLOAD_MODELS[kind].model_validate(data)] is the
    test that the value belongs to the kind's model, followed by the model's
    own validators.  Validating a snapshot threads the process-wide watermark
    table of [RuntimeSnapshot], an argument and a result here. *)

From S2P Require Import Prelude PyDict Contracts SessionState.

(** ** Envelopes *)

Inductive RTVIData :=
| DSnapshot (snap : RuntimeSnapshot)
| DEvent (p : EventPayload).

Definition RTVI_MESSAGE_KINDS : list string :=
  ["runtime_snapshot"; "result"; "speech_progress"; "worker"; "routing"; "user_transcript";
   "bot_transcript"; "work_status"].

Record RTVIMessage := mkRTVIMessage {
  msg_contract_version : string;
  msg_session_id : string;
  msg_sequence : N;
  msg_kind : string;
  msg_data : RTVIData;
  msg_origin_epoch : N
}.

(** [_PAYLOAD_MODELS]: the kinds a payload value belongs to *)
Definition PAYLOAD_MODELS (d : RTVIData) : list string :=
  match d with
  | DSnapshot _ => ["runtime_snapshot"]
  | DEvent (PResult _) => ["result"]
  | DEvent (PSpeech _) => ["speech_progress"]
  | DEvent (PWorker _) => ["worker"]
  | DEvent (PRouting _) => ["routing"]
  | DEvent (PTranscript _) => ["user_transcript"; "bot_transcript"]
  | DEvent (PWorkStatus _) => ["work_status"]
  end.

Definition payload_epoch (p : EventPayload) : option N :=
  match p with
  | PWorker w => ws_origin_epoch w
  | PRouting r => rs_origin_epoch r
  | PTranscript t => te_origin_epoch t
  | PResult r => gr_origin_epoch r
  | PSpeech p => sp_origin_epoch p
  | PWorkStatus w => wst_origin_epoch w
  end.

Definition data_epoch (d : RTVIData) : option N :=
  match d with DSnapshot s => snap_origin_epoch s | DEvent p => payload_epoch p end.

(** The cross-field validators of the payload's model *)
Definition validate_payload (d : RTVIData) (watermarks : dict string N) : result (dict string N) :=
  match d with
  | DSnapshot s =>
      validate_version_and_monotonicity (snap_contract_version s) (snap_session_id s)
        (snap_snapshot_sequence s) watermarks
  | DEvent (PResult r) => _ ←? validate_projections r ;; Ret watermarks
  | DEvent (PWorkStatus w) =>
      _ ←? new_WorkStatus (wst_turn_id w) (wst_work_item_id w) (wst_worker_id w) (wst_state w)
             (wst_event_sequence w) (wst_terminal_reason w) (wst_origin_epoch w) ;; Ret watermarks
  | DEvent _ => Ret watermarks
  end.

Definition payload_role (d : RTVIData) : option Role :=
  match d with DEvent (PTranscript t) => Some (te_role t) | _ => None end.

(** [RTVIMessage(...)]: the field constraints, then [validate_versioned_payload] *)
Definition validate_versioned_payload (m : RTVIMessage) (watermarks : dict string N)
    : result (dict string N) :=
  if negb (bool_decide (msg_contract_version m = CONTRACT_VERSION)) then
    Raise (ValueError "unsupported contract version")
  else if negb (bool_decide (msg_kind m ∈ PAYLOAD_MODELS (msg_data m))) then
    Raise (ValueError "validation error")
  else
    wm ←? validate_payload (msg_data m) watermarks ;;
    if negb (bool_decide (data_epoch (msg_data m) = Some (msg_origin_epoch m))) then
      Raise (ValueError "payload origin_epoch must match envelope origin_epoch")
    else if bool_decide (msg_kind m = "user_transcript")
         && negb (bool_decide (payload_role (msg_data m) = Some user)) then
      Raise (ValueError "user_transcript payload must have the user role")
    else if bool_decide (msg_kind m = "bot_transcript")
         && negb (bool_decide (payload_role (msg_data m) = Some assistant)) then
      Raise (ValueError "bot_transcript payload must have the assistant role")
    else match msg_data m with
         | DSnapshot s =>
             if negb (bool_decide (snap_session_id s = msg_session_id m)) then
               Raise (ValueError "snapshot session_id must match envelope session_id")
             else if negb (bool_decide (snap_snapshot_sequence s = msg_sequence m)) then
               Raise (ValueError "snapshot_sequence must match envelope sequence")
             else Ret wm
         | DEvent _ => Ret wm
         end.

Definition new_RTVIMessage (session_id : string) (sequence : N) (kind : string) (data : RTVIData)
    (origin_epoch : N) (watermarks : dict string N) : result (RTVIMessage * dict string N) :=
  if bool_decide (session_id = EmptyString) then
    Raise (ValueError "String should have at least 1 character")
  else if negb (bool_decide (kind ∈ RTVI_MESSAGE_KINDS)) then
    Raise (ValueError "unexpected kind")
  else
    let m := mkRTVIMessage CONTRACT_VERSION session_id sequence kind data origin_epoch in
    wm ←? validate_versioned_payload m watermarks ;; Ret (m, wm).

(** [RuntimeSnapshot.wire_payload]: whether the [work_status] key is present *)
Record WireSnapshot := mkWireSnapshot {
  wire_snapshot : RuntimeSnapshot;
  wire_work_status : option (list WorkStatus)
}.

Definition wire_payload (include_work_status : bool) (s : RuntimeSnapshot) : WireSnapshot :=
  mkWireSnapshot s (if include_work_status then Some (snap_work_status s) else None).

(** ** The publisher *)

Record Publisher := mkPublisher {
  pub_session_id : string;
  pub_active_epoch : N;
  pub_watermark : N;
  pub_ready : bool;
  pub_snapshot : option RuntimeSnapshot
}.

#[export] Instance eta_Publisher : Eta Publisher := λ r,
  mkPublisher (pub_session_id r) (pub_active_epoch r) (pub_watermark r) (pub_ready r)
    (pub_snapshot r).

Definition Publisher_init (session_id : string) (active_epoch : N) (watermarks : dict string N)
    : Publisher * dict string N :=
  (mkPublisher session_id active_epoch 0 false None, reset_monotonicity session_id watermarks).

Definition incremental (kind : string) (data : EventPayload) (sequence origin_epoch : N)
    (watermarks : dict string N) (p : Publisher)
    : Publisher * result (option (RTVIMessage * dict string N)) :=
  if negb (bool_decide (origin_epoch = pub_active_epoch p)) then (p, Ret None)
  else
    let p := p <| pub_watermark := N.max (pub_watermark p) sequence |> in
    (p, m ←? new_RTVIMessage (pub_session_id p) sequence kind (DEvent data) origin_epoch
               watermarks ;; Ret (Some m)).

Definition client_ready (epoch : N) (p : Publisher) : result Publisher :=
  if negb (bool_decide (epoch = pub_active_epoch p))
  then Raise (ValueError "client-ready from stale epoch")
  else Ret (p <| pub_ready := true |>).

#[export] Instance eta_RuntimeSnapshot : Eta RuntimeSnapshot := λ r,
  mkRuntimeSnapshot (snap_contract_version r) (snap_session_id r) (snap_snapshot_sequence r)
    (snap_workers r) (snap_results r) (snap_speech_progress r) (snap_routing r) (snap_transcript r)
    (snap_origin_epoch r) (snap_work_status r).

Definition set_snapshot (snap : RuntimeSnapshot) (p : Publisher) : Publisher :=
  let snap := match snap_origin_epoch snap with
              | None => snap <| snap_origin_epoch := Some (pub_active_epoch p) |>
              | Some _ => snap
              end in
  p <| pub_snapshot := Some snap |>
    <| pub_watermark := N.max (pub_watermark p) (snap_snapshot_sequence snap) |>.

(** [_empty_snapshot_data] *)
Definition empty_snapshot_data (session_id : string) (origin_epoch : N) : RuntimeSnapshot :=
  mkRuntimeSnapshot CONTRACT_VERSION session_id 0 [] [] [] None [] (Some origin_epoch) [].

(** [snapshot]; [provided] is what [sequence_provider()] returns, when one is
    installed *)
Definition publish_snapshot (provided : option N) (watermarks : dict string N) (p : Publisher)
    : Publisher * result (option (RTVIMessage * dict string N)) :=
  if negb (pub_ready p) then (p, Ret None)
  else
    let data := default (empty_snapshot_data (pub_session_id p) (pub_active_epoch p)) (pub_snapshot p) in
    let sequence := default (pub_watermark p) provided in
    let data := data <| snap_snapshot_sequence := sequence |> in
    let p := p <| pub_watermark := sequence |> in
    (p, m ←? new_RTVIMessage (pub_session_id p) sequence "runtime_snapshot" (DSnapshot data)
               (pub_active_epoch p) watermarks ;; Ret (Some m)).

(** ** Theorems *)

(** A payload under the kind [_emit] files it with *)
Definition event_typed (ev : StateEvent) : Prop :=
  match ev_payload ev with
  | PWorker _ => ev_kind ev = "worker"
  | PRouting _ => ev_kind ev = "routing"
  | PTranscript t =>
      ev_kind ev = (if decide (te_role t = user) then "user_transcript" else "bot_transcript")
  | PResult r => ev_kind ev = "result" ∧ returns (validate_projections r) = true
  | PSpeech _ => ev_kind ev = "speech_progress"
  | PWorkStatus w =>
      ev_kind ev = "work_status" ∧
      returns (new_WorkStatus (wst_turn_id w) (wst_work_item_id w) (wst_worker_id w) (wst_state w)
                 (wst_event_sequence w) (wst_terminal_reason w) (wst_origin_epoch w)) = true
  end.

(** A typed event of the active epoch becomes an envelope that carries its
    payload, kind and the given sequence. *)
Lemma incremental_typed ev seq wm (p : Publisher) :
  event_typed ev → payload_epoch (ev_payload ev) = Some (pub_active_epoch p) →
  pub_session_id p ≠ EmptyString →
  incremental (ev_kind ev) (ev_payload ev) seq (pub_active_epoch p) wm p =
    (p <| pub_watermark := N.max (pub_watermark p) seq |>,
     Ret (Some (mkRTVIMessage CONTRACT_VERSION (pub_session_id p) seq (ev_kind ev)
                  (DEvent (ev_payload ev)) (pub_active_epoch p), wm))).
Proof.
  destruct ev as [sq kind pl]; unfold event_typed, incremental; simpl. intros Ht He Hs.
  rewrite bool_decide_eq_true_2 by done. simpl. f_equal.
  unfold new_RTVIMessage, validate_versioned_payload. simpl. rewrite (bool_decide_eq_false_2 _ Hs), He. simpl.
  rewrite (bool_decide_eq_true_2 (Some _ = Some _)) by done.
  destruct pl as [w|r|t|r|sp|w]; simpl in Ht.
  - by subst.
  - by subst.
  - destruct t as [[] tx ti ts te]; by subst.
  - destruct Ht as [-> Hr]. simpl. by destruct (validate_projections r).
  - by subst.
  - destruct Ht as [-> Hr]. simpl. by destruct (new_WorkStatus _ _ _ _ _ _ _).
Qed.
