(* ===== verification/Observer.v ===== *)
(** [server/observers.py] and the snapshot delivery of [server/app.py]: the
    projection of session events onto one connection.

    [Observer] is [RuntimeObserver].  Its emitter is named by a number and
    [obs_sent] holds the calls made to it, oldest first: [emit] is a coroutine
    function, so each call creates a task that runs later, and the event loop
    starts tasks in creation order.  [react p] lists the state events that
    calling the emitter with [p] raises before it returns; the observer's
    replay loop is written for emitters that do raise some.

    [Link] is what [_attach_connection] wires together for one connection: the
    shared session state, the observer, the publisher, the snapshot lock with
    the attempt that holds it, and the frames queued on the connection's
    worker.  [lk_log] is a history variable. *)

From S2P Require Import Prelude PyDict Contracts SessionState Rtvi.

(** ** RuntimeObserver *)

Record ProjectedEvent := mkProjectedEvent {
  pe_kind : string;
  pe_data : EventPayload;
  pe_sequence : N;
  pe_origin_epoch : N
}.

Record Observer := mkObserver {
  obs_epoch : N;
  obs_capabilities : list string;
  obs_subscribed : bool;
  obs_projected : N;
  obs_emitter : option nat;
  obs_sent : list (nat * ProjectedEvent);
  obs_paused : bool;
  obs_buffer : list StateEvent
}.

#[export] Instance eta_Observer : Eta Observer := λ r,
  mkObserver (obs_epoch r) (obs_capabilities r) (obs_subscribed r) (obs_projected r)
    (obs_emitter r) (obs_sent r) (obs_paused r) (obs_buffer r).

Definition Observer_init (epoch : N) (capabilities : list string) : Observer :=
  mkObserver epoch capabilities false 0 None [] false [].

Definition supports_work_status (o : Observer) : bool :=
  resolve_work_status_wire_presence (obs_capabilities o).

Definition ALWAYS_VISIBLE_KINDS : list string :=
  ["runtime_snapshot"; "result"; "speech_progress"; "worker"; "routing"; "user_transcript";
   "bot_transcript"].

(** [_CAPABILITY_GATED_KINDS.get(kind)] *)
Definition CAPABILITY_GATED_KINDS (kind : string) : option (Observer → bool) :=
  if decide (kind = "work_status") then Some supports_work_status else None.

Definition VISIBLE_KINDS : list string := ALWAYS_VISIBLE_KINDS ++ ["work_status"].

Definition visible (o : Observer) (event : StateEvent) : bool :=
  if negb (bool_decide (payload_epoch (ev_payload event) = Some (obs_epoch o))) then false
  else if match CAPABILITY_GATED_KINDS (ev_kind event) with
          | Some gate => negb (gate o)
          | None => false
          end then false
  else bool_decide (ev_kind event ∈ VISIBLE_KINDS).

Definition seed (sequence : N) (o : Observer) : Observer := o <| obs_projected := sequence |>.

Definition project (event : StateEvent) (o : Observer) : Observer * option ProjectedEvent :=
  if negb (visible o event) then (o, None)
  else
    let o := o <| obs_projected := (obs_projected o + 1)%N |> in
    (o, Some (mkProjectedEvent (ev_kind event) (ev_payload event) (obs_projected o)
                (default (obs_epoch o) (payload_epoch (ev_payload event))))).

Section observer.
Context (react : ProjectedEvent → list StateEvent).

(** [_deliver], with the events its emitter raises handed to [_on_event] as they
    come.  Out of fuel is [None]. *)
Fixpoint deliver (fuel : nat) (event : StateEvent) (o : Observer) : option Observer :=
  match fuel with
  | O => None
  | S fuel' =>
      match obs_emitter o with
      | None => Some o
      | Some e =>
          match project event o with
          | (o, None) => Some o
          | (o, Some p) =>
              foldl (λ acc ev, o ← acc;
                       if obs_paused o then Some (o <| obs_buffer := obs_buffer o ++ [ev] |>)
                       else deliver fuel' ev o)
                (Some (o <| obs_sent := obs_sent o ++ [(e, p)] |>)) (react p)
          end
      end
  end.

Definition on_event (fuel : nat) (event : StateEvent) (o : Observer) : option Observer :=
  if obs_paused o then Some (o <| obs_buffer := obs_buffer o ++ [event] |>)
  else deliver fuel event o.

Definition observer_subscribe (emitter : nat) (o : Observer) : Observer :=
  o <| obs_emitter := Some emitter |> <| obs_subscribed := true |>.

Definition observer_unsubscribe (o : Observer) : Observer :=
  o <| obs_subscribed := false |> <| obs_emitter := None |>
    <| obs_paused := false |> <| obs_buffer := [] |>.

Definition pause (o : Observer) : Observer :=
  o <| obs_paused := true |> <| obs_subscribed := true |>.

(** [watermark is not None and event.sequence <= watermark] *)
Definition represented (watermark : option N) (event : StateEvent) : bool :=
  match watermark with Some w => bool_decide (ev_sequence event ≤ w)%N | None => false end.

(** The [while index < len(self._buffer)] loop: the buffer may grow while it
    is drained. *)
Fixpoint drain (fuel : nat) (watermark : option N) (index : nat) (o : Observer)
    : option Observer :=
  match obs_buffer o !! index with
  | None => Some o
  | Some event =>
      match fuel with
      | O => None
      | S fuel' =>
          if represented watermark event then drain fuel' watermark (S index) o
          else o ← deliver fuel event o; drain fuel' watermark (S index) o
      end
  end.

Definition resume (fuel : nat) (watermark : option N) (o : Observer) : option Observer :=
  let o := match watermark with Some w => seed w o | None => o end in
  o ← drain fuel watermark 0 o;
  Some (o <| obs_buffer := [] |> <| obs_paused := false |>).

End observer.

(** [_payload] and [messages], the diagnostic replay of the retained events *)
Definition diagnostic_payload (session_id : string) (event : StateEvent) (sequence : N)
    (o : Observer) : RTVIMessage :=
  mkRTVIMessage CONTRACT_VERSION session_id sequence (ev_kind event) (DEvent (ev_payload event))
    (default (obs_epoch o) (payload_epoch (ev_payload event))).

Fixpoint messages_loop (session_id : string) (o : Observer) (after sequence : N)
    (evs : list StateEvent) : list RTVIMessage :=
  match evs with
  | [] => []
  | event :: evs' =>
      if negb (visible o event) then messages_loop session_id o after sequence evs'
      else
        let sequence := (sequence + 1)%N in
        (if bool_decide (after < sequence)%N
         then [diagnostic_payload session_id event sequence o] else [])
        ++ messages_loop session_id o after sequence evs'
  end.

Definition messages (after_sequence : N) (o : Observer) (s : SessionState) : list RTVIMessage :=
  messages_loop (session_id s) o after_sequence 0 (events s).

(** ** SnapshotBarrier

    [b_open] is the barrier's [_open]; the observer it owns is passed to each
    operation.  The emitter of a connection is an [async def], so [react] is
    empty, one unit of fuel delivers one event and as many as the buffer holds
    drain it. *)

Definition quiet_emitter : ProjectedEvent → list StateEvent := λ _, [].

Definition resume_now (watermark : option N) (o : Observer) : Observer :=
  default o (resume quiet_emitter (S (length (obs_buffer o))) watermark o).

Definition on_event_now (event : StateEvent) (o : Observer) : Observer :=
  default o (on_event quiet_emitter 1 event o).

Record Barrier := mkBarrier { b_generation : N; b_open : bool }.

Definition Barrier_init : Barrier := mkBarrier 0 false.

Definition subscribe_paused (bo : Barrier * Observer) : Barrier * Observer :=
  (mkBarrier (b_generation bo.1) true, pause bo.2).

Definition barrier_cancel (bo : Barrier * Observer) : Barrier * Observer :=
  if negb (b_open bo.1) then bo
  else (mkBarrier (b_generation bo.1) false, resume_now None bo.2).

(** [install_baseline], up to its first await and from the point where the
    writers and the acknowledgement have settled; [ok] tells whether they all
    succeeded within the timeout. *)
Definition install_begin (bo : Barrier * Observer) : Prelude.result (Barrier * Observer) :=
  if negb (b_open bo.1)
  then Raise (RuntimeError "install_baseline requires an open barrier; call subscribe_paused")
  else Ret (mkBarrier (b_generation bo.1 + 1) true, bo.2).

Definition install_settle (ok : bool) (watermark : N) (bo : Barrier * Observer)
    : Barrier * Observer :=
  if negb ok then barrier_cancel bo
  else (mkBarrier (b_generation bo.1) false, resume_now (Some watermark) bo.2).

(** ** One connection *)

(** Frames queued on the worker, in order *)
Inductive wire_frame :=
| WSnapshot (sequence : N) (payload : WireSnapshot)
| WIncrement (m : RTVIMessage).

Record Flight := mkFlight {
  fl_barrier : Barrier;
  fl_message : RTVIMessage;
  fl_frame : wire_frame;
  fl_retries : nat
}.

Record Link := mkLink {
  lk_state : SessionState;
  lk_observer : Observer;
  lk_publisher : Publisher;
  lk_accepted : bool;
  lk_ready_sent : bool;
  lk_flight : option Flight;
  lk_recheck : bool;
  lk_wire : list wire_frame;
  lk_log : list StateEvent
}.

#[export] Instance eta_Link : Eta Link := λ r,
  mkLink (lk_state r) (lk_observer r) (lk_publisher r) (lk_accepted r) (lk_ready_sent r)
    (lk_flight r) (lk_recheck r) (lk_wire r) (lk_log r).

Definition emitter_id : nat := 0.

Section link.
Context {retention : RetentionConfig}.

(** [_attach_connection]: publisher, seed, subscribe *)
Definition Link_init (epoch : N) (capabilities : list string) (s : SessionState) : Link :=
  mkLink s (observer_subscribe emitter_id (seed (sequence s) (Observer_init epoch capabilities)))
    (Publisher_init (session_id s) epoch []).1 true false None false [] [].

(** [emit_frame] *)
Definition emit_frame (p : ProjectedEvent) (l : Link) : Link :=
  if negb (lk_accepted l) then l
  else
    let (pub, m) := incremental (pe_kind p) (pe_data p) (pe_sequence p) (pe_origin_epoch p) []
                      (lk_publisher l) in
    l <| lk_publisher := pub |>
      <| lk_wire := lk_wire l ++ match m with
                                 | Ret (Some (m, _)) => [WIncrement m]
                                 | _ => []
                                 end |>.

(** Run the oldest task the observer created. *)
Definition run_task (l : Link) : Link :=
  match obs_sent (lk_observer l) with
  | [] => l
  | (_, p) :: rest =>
      emit_frame p (l <| lk_observer := (lk_observer l) <| obs_sent := rest |> |>)
  end.

Fixpoint run_tasks (n : nat) (l : Link) : Link :=
  match n with O => l | S n' => run_tasks n' (run_task l) end.

(** [on_client_ready] *)
Definition on_client_ready (l : Link) : Link :=
  if lk_ready_sent l then l
  else if lk_accepted l then
    match client_ready (obs_epoch (lk_observer l)) (lk_publisher l) with
    | Ret pub => l <| lk_ready_sent := true |> <| lk_publisher := pub |>
    | Raise _ => l <| lk_ready_sent := true |>
    end
  else l.

(** [attempt_snapshot_delivery] up to the first await: the stamped snapshot and
    the frame to write, or [None] when nothing will be delivered *)
Definition begin_attempt (now : Q) (wm : dict string N) (l : Link)
    : Link * option (Barrier * RTVIMessage * wire_frame) :=
  let (b, obs) := subscribe_paused (Barrier_init, lk_observer l) in
  let l := l <| lk_observer := obs |> in
  let failed l := (l <| lk_observer := (barrier_cancel (b, lk_observer l)).2 |>, None) in
  let (s, snap) := snapshot (Some (obs_epoch obs)) (supports_work_status obs) now wm (lk_state l) in
  let l := l <| lk_state := s |> in
  match snap with
  | Raise _ => failed l
  | Ret (snap, wm) =>
      let pub := set_snapshot snap (lk_publisher l) in
      let (pub, m) := publish_snapshot (Some (sequence (lk_state l))) wm pub in
      let l := l <| lk_publisher := pub |> in
      match m with
      | Ret (Some (m, _)) =>
          let frame := match msg_data m with
                       | DSnapshot s => WSnapshot (msg_sequence m) (wire_payload (supports_work_status obs) s)
                       | DEvent _ => WIncrement m
                       end in
          match install_begin (b, lk_observer l) with
          | Ret (b, obs) => (l <| lk_observer := obs |>, Some (b, m, frame))
          | Raise _ => failed l
          end
      | _ => failed l
      end
  end.

(** The [for _attempt in range(2)] loop of [on_client_message], run until an
    attempt is in flight or the loop ends; [n] attempts are left. *)
Fixpoint attempts (n : nat) (now : Q) (wm : dict string N) (l : Link) : Link :=
  match n with
  | O => l
  | S n' =>
      if negb (lk_accepted l) then l
      else
        match begin_attempt now wm (l <| lk_recheck := false |>) with
        | (l, Some (b, m, frame)) => l <| lk_flight := Some (mkFlight b m frame n') |>
        | (l, None) => if lk_recheck l then attempts n' now wm l else l
        end
  end.

(** [on_client_message] for a snapshot request; the lock is held exactly while
    an attempt is in flight *)
Definition on_snapshot_request (now : Q) (wm : dict string N) (l : Link) : Link :=
  if negb (lk_accepted l) then l
  else match lk_flight l with
       | Some _ => l <| lk_recheck := true |>
       | None => attempts 2 now wm l
       end.

(** How the attempt in flight ends: acknowledged and written, a writer error or
    an acknowledgement timeout, or cancellation of the handler's task *)
Inductive settlement := Delivered | Aborted | TaskCancelled.

(** The rest of [attempt_snapshot_delivery] and of the loop around it.  The
    barrier frame is acknowledged through the worker's queue, after the tasks
    that were created before it was written. *)
Definition settle_attempt (how : settlement) (now : Q) (wm : dict string N) (l : Link) : Link :=
  match lk_flight l with
  | None => l
  | Some f =>
      let settle ok l :=
        l <| lk_observer := (install_settle ok (msg_sequence (fl_message f))
                               (fl_barrier f, lk_observer l)).2 |>
          <| lk_flight := None |> in
      match how with
      | Delivered =>
          let l := run_tasks (length (obs_sent (lk_observer l))) l in
          settle true (l <| lk_wire := lk_wire l ++ [fl_frame f] |>)
      | Aborted =>
          let l := settle false l in
          if lk_recheck l then attempts (fl_retries f) now wm l else l
      | TaskCancelled => settle false l
      end
  end.

(** An operation on the shared session state, whose event reaches the observer *)
Definition session_step (o : op) (l : Link) : Link :=
  let (s, ev) := exec o (lk_state l) in
  let l := l <| lk_state := s |> <| lk_log := lk_log l ++ option_list ev |> in
  match ev with
  | Some ev =>
      if obs_subscribed (lk_observer l)
      then l <| lk_observer := on_event_now ev (lk_observer l) |> else l
  | None => l
  end.

Inductive link_step :=
| LOp (o : op)
| LRunTask
| LClientReady
| LRequest (now : Q) (wm : dict string N)
| LSettle (how : settlement) (now : Q) (wm : dict string N)
| LRetire.

Definition link_exec (step : link_step) (l : Link) : Link :=
  match step with
  | LOp o => session_step o l
  | LRunTask => run_task l
  | LClientReady => on_client_ready l
  | LRequest now wm => on_snapshot_request now wm l
  | LSettle how now wm => settle_attempt how now wm l
  | LRetire => l <| lk_accepted := false |>
  end.

Definition link_run (steps : list link_step) (l : Link) : Link :=
  foldl (λ l st, link_exec st l) l steps.

End link.

(** ** The browser's reducer

    [applyServerMessage] of [web/src/state.js], for one session and epoch:
    [cl_applied] lists the increments applied since the last snapshot. *)

Record Client := mkClient {
  cl_server_state : bool;
  cl_last_applied : N;
  cl_last_snapshot : N;
  cl_pending : bool;
  cl_gaps : N;
  cl_applied : list (string * EventPayload)
}.

Definition Client_init : Client := mkClient false 0 0 false 0 [].

Definition client_increment (sequence : N) (kind : string) (p : EventPayload) (c : Client) : Client :=
  if negb (cl_server_state c) then c
  else if bool_decide (sequence = 0)%N || bool_decide (sequence ≤ cl_last_applied c)%N then c
  else if cl_pending c then c
  else if bool_decide (sequence < cl_last_snapshot c)%N then c
  else if negb (bool_decide (sequence = cl_last_applied c + 1)%N)
  then mkClient true (cl_last_applied c) (cl_last_snapshot c) true (cl_gaps c + 1) (cl_applied c)
  else mkClient true sequence (cl_last_snapshot c) false (cl_gaps c) (cl_applied c ++ [(kind, p)]).

Definition client_step (c : Client) (f : wire_frame) : Client :=
  match f with
  | WSnapshot sequence _ =>
      if bool_decide (sequence < N.max (cl_last_applied c) (cl_last_snapshot c))%N then c
      else mkClient true sequence (N.max (cl_last_snapshot c) sequence) false (cl_gaps c) []
  | WIncrement m =>
      match msg_data m with
      | DEvent p => client_increment (msg_sequence m) (msg_kind m) p c
      | DSnapshot _ => c
      end
  end.
