(* ===== verification/ObserverFacts.v ===== *)
(** Facts about the connection projection: the observer's replay, the typing of
    session events, and the replication of the session's visible events by a
    connected client. *)

From stdpp Require Import sorting.
From S2P Require Import Prelude PyDict Contracts SessionState SessionLedger SessionFacts Rtvi Observer.

(** ** Session events are typed *)

Section typed.
Context {retention : RetentionConfig}.

Definition op_typed (o : op) : Prop :=
  match o with OpResult r _ _ => returns (validate_projections r) = true | _ => True end.

Definition reply_typed (r : Prelude.result (option StateEvent)) : Prop :=
  match r with Ret (Some ev) => event_typed ev | _ => True end.

Lemma new_WorkStatus_valid t w k st q re e w' :
  new_WorkStatus t w k st q re e = Ret w' →
  new_WorkStatus (wst_turn_id w') (wst_work_item_id w') (wst_worker_id w') (wst_state w')
    (wst_event_sequence w') (wst_terminal_reason w') (wst_origin_epoch w') = Ret w'.
Proof.
  intros E. assert (w' = mkWorkStatus t w k st q re e) as ->; [|exact E].
  unfold new_WorkStatus, validate_terminal_reason in E. case_decide; [done|]. by destruct (_ && _); simplify_eq.
Qed.

Lemma write_parent_typed key st re now s : reply_typed (write_parent key st re now s).2.
Proof.
  unfold write_parent. cbv zeta. destruct (new_WorkStatus _ _ _ _ _ _ _) as [w|] eqn:E; [|done].
  split; [done|]. simpl. by rewrite (new_WorkStatus_valid _ _ _ _ _ _ _ _ E).
Qed.

Lemma reaggregate_typed key now s : reply_typed (reaggregate_parent key now s).2.
Proof.
  unfold reaggregate_parent. cbv zeta. destruct (dict_values _); [done|].
  destruct (aggregate _) as [st re]. pose proof (write_parent_typed key st re now s) as Hw.
  destruct (_ && _); [done|]. destruct (dict_get key (ws_parents s)) as [r|].
  - destruct (bool_decide _); [done|]. destruct (WORK_STATUS_TERMINAL _); [done|].
    by destruct (_ && _).
  - by destruct (_ && _).
Qed.

Lemma set_child_typed t w p k st e re now s : reply_typed (set_child_work_status t w p k st e re now s).2.
Proof.
  unfold set_child_work_status. cbv zeta. destruct (negb _); [done|].
  destruct (new_WorkStatus _ _ _ _ _ _ _); [apply reaggregate_typed | done].
Qed.

Lemma append_result_typed r q e s :
  returns (validate_projections r) = true → reply_typed (append_result r q e s).2.
Proof.
  intros Hr. unfold append_result, log_result. destruct (_ && _); [done|]. destruct (_ && _ && _); [done|].
  set (r' := if _ && _ then _ else r).
  assert (returns (validate_projections r') = true) as Hr'.
  { unfold r'. destruct (_ && _); [|done]. revert Hr. unfold validate_projections. simpl. by destruct (_ || _). }
  clearbody r'.
  cbv zeta. destruct (existsb _ _); [done|]. destruct (_ && _).
  - by destruct (ResultLog_append _ _).
  - by destruct (ResultLog_append _ _).
Qed.

(** Every event of a session is filed under the kind of its payload, and its
    payload passes the validators of that kind. *)
Lemma exec_typed o s ev : op_typed o → (exec o s).2 = Some ev → event_typed ev.
Proof.
  destruct o; simpl; intros Ho; try done.
  - unfold set_worker. destruct (fenced _ _); [done|]. by intros [= <-].
  - unfold set_routing. destruct (fenced _ _); [done|]. by intros [= <-].
  - unfold append_transcript. destruct (fenced _ _); [done|]. destruct (existsb _ _); [done|]. by intros [= <-].
  - pose proof (append_result_typed r seq origin s Ho) as H.
    destruct (append_result _ _ _ _) as [s' [[e|]|]]; simpl in *; naive_solver.
  - destruct (speech_cases p origin allow_stale_reconnect s)
      as [->|(p' & ev' & _ & _ & _ & _ & _ & _ & Hs & Hl & _ & Hk & Hp & _)]; [by rewrite decide_True|].
    rewrite decide_False by lia. rewrite Hl. intros [= <-]. unfold event_typed. by rewrite Hp.
  - pose proof (set_child_typed turn_id work_item_id parent_work_item_id worker_id state
      origin_epoch terminal_reason now s) as H.
    destruct (set_child_work_status _ _ _ _ _ _ _ _ _) as [s' [[e|]|]]; simpl in *; naive_solver.
Qed.
(** No operation renames the session. *)
Lemma write_parent_session_id key st re now s :
  session_id (write_parent key st re now s).1 = session_id s.
Proof.
  unfold write_parent. cbv zeta. destruct (new_WorkStatus _ _ _ _ _ _ _) as [w|]; [|done]. simpl.
  unfold evict_work_status_overflow. apply (evict_loop_keeps (λ s', session_id s' = session_id s)).
  - intros s' k _ _ _ E. by rewrite (proj1 (forget_wire k s')).
  - by case_bool_decide.
Qed.

Lemma reaggregate_session_id key now s : session_id (reaggregate_parent key now s).1 = session_id s.
Proof.
  unfold reaggregate_parent. cbv zeta. destruct (dict_values _); [done|].
  destruct (aggregate _) as [st re]. pose proof (write_parent_session_id key st re now s) as Hw.
  destruct (_ && _); [done|]. destruct (dict_get key (ws_parents s)) as [r|].
  - destruct (bool_decide _); [done|]. destruct (WORK_STATUS_TERMINAL _); [done|].
    by destruct (_ && _).
  - by destruct (_ && _).
Qed.

Lemma append_result_session_id r q e s : session_id (append_result r q e s).1 = session_id s.
Proof.
  unfold append_result, log_result. cbv zeta. destruct (_ && _); [done|]. destruct (_ && _ && _); [done|].
  set (r' := if _ && _ then _ else r). clearbody r'. destruct (existsb _ _); [done|].
  destruct (_ && _); [by destruct (ResultLog_append _ _)|].
  set (s1 := match q with Some _ => _ | None => s end).
  assert (session_id s1 = session_id s) as <- by (unfold s1; by repeat case_match). clearbody s1.
  destruct (ResultLog_append _ _); [|done]. simpl. by destruct (dict_get _ _).
Qed.

Lemma exec_session_id o s : session_id (exec o s).1 = session_id s.
Proof.
  destruct o; simpl; try done.
  - unfold set_worker. by destruct (fenced _ _).
  - unfold set_routing. by destruct (fenced _ _).
  - unfold append_transcript. destruct (fenced _ _); [done|]. by destruct (existsb _ _).
  - pose proof (append_result_session_id r seq origin s). by destruct (append_result _ _ _ _).
  - unfold apply_speech_progress, speech_progress. cbv zeta. destruct (fenced _ _ && _); [done|].
    destruct (dict_get _ _) as [prev|]; [|done]. destruct (delivery_terminal _); [done|]. by case_decide.
  - unfold set_child_work_status. cbv zeta. destruct (negb _); [done|].
    destruct (new_WorkStatus _ _ _ _ _ _ _); [|done].
    match goal with |- context [reaggregate_parent ?k now ?s1] =>
      pose proof (reaggregate_session_id k now s1) as E; destruct (reaggregate_parent k now s1) end. exact E.
  - destruct include_work_status; [|done]. apply prune_wire.
Qed.

End typed.

(** ** Replay *)

(** What an event is projected to under sequence [n], and a list of events
    numbered from [n] on *)
Definition projected_as (o : Observer) (n : N) (ev : StateEvent) : ProjectedEvent :=
  mkProjectedEvent (ev_kind ev) (ev_payload ev) n
    (default (obs_epoch o) (payload_epoch (ev_payload ev))).

Fixpoint number (o : Observer) (n : N) (l : list StateEvent) : list ProjectedEvent :=
  match l with
  | [] => []
  | ev :: l' => projected_as o (n + 1) ev :: number o (n + 1) l'
  end.

(** An event numbered past the watermark, if there is one *)
Definition beyond (w : option N) (ev : StateEvent) : Prop :=
  match w with Some w => (w < ev_sequence ev)%N | None => True end.

#[export] Instance beyond_dec w ev : Decision (beyond w ev).
Proof. destruct w; unfold beyond; apply _. Defined.

(** The events of [l] the observer delivers past a watermark *)
Definition due (o : Observer) (w : option N) (l : list StateEvent) : list StateEvent :=
  filter (λ ev, visible o ev = true ∧ beyond w ev) l.

Lemma represented_false w ev : represented w ev = false ↔ beyond w ev.
Proof. destruct w; simpl; [rewrite bool_decide_eq_false; lia | done]. Qed.

(** [o] after it delivered [D] to the emitter [e] and buffered [extra] *)
Definition delivered (e : nat) (D extra : list StateEvent) (o : Observer) : Observer :=
  o <| obs_projected := (obs_projected o + N.of_nat (length D))%N |>
    <| obs_sent := obs_sent o ++ (pair e <$> number o (obs_projected o) D) |>
    <| obs_buffer := obs_buffer o ++ extra |>.

Lemma number_app o n l1 l2 :
  number o n (l1 ++ l2) = number o n l1 ++ number o (n + N.of_nat (length l1)) l2.
Proof.
  revert n. induction l1 as [|ev l1 IH]; intros n; simpl; [by rewrite N.add_0_r|].
  rewrite IH. do 3 f_equal. lia.
Qed.

(** Visibility depends on the epoch and the capabilities only. *)
Definition same_view (o o' : Observer) : Prop :=
  obs_epoch o = obs_epoch o' ∧ obs_capabilities o = obs_capabilities o'.

Lemma visible_same o o' ev : same_view o o' → visible o ev = visible o' ev.
Proof.
  intros [E1 E2]. unfold visible, CAPABILITY_GATED_KINDS, supports_work_status. rewrite E1.
  case_decide; [by rewrite E2 | done].
Qed.

Lemma due_same o o' w l : same_view o o' → due o w l = due o' w l.
Proof. intros H. unfold due. apply list_filter_iff. intros ev. by rewrite (visible_same o o' ev H). Qed.

Lemma number_same o o' n l : obs_epoch o = obs_epoch o' → number o n l = number o' n l.
Proof.
  intros Ho. revert n. induction l as [|ev l IH]; intros n; simpl; [done|].
  unfold projected_as. by rewrite IH, Ho.
Qed.

Lemma delivered_nil e o : delivered e [] [] o = o.
Proof. destruct o. unfold delivered. simpl. by rewrite N.add_0_r, !app_nil_r. Qed.

Lemma delivered_trans e D1 x1 D2 x2 o :
  delivered e D2 x2 (delivered e D1 x1 o) = delivered e (D1 ++ D2) (x1 ++ x2) o.
Proof.
  unfold delivered. simpl. rewrite number_app, fmap_app, <- !app_assoc, length_app.
  match goal with |- context [number ?o2 ?n D2] => rewrite (number_same o2 o n D2) by done end. by rewrite Nat2N.inj_add, N.add_assoc.
Qed.

Section replay.
Context (react : ProjectedEvent → list StateEvent).

(** While the observer is paused, what its emitter raises is buffered. *)
Lemma deliver_paused fuel e ev o :
  obs_paused o = true → obs_emitter o = Some e →
  deliver react (S fuel) ev o =
    Some (if visible o ev
          then delivered e [ev] (react (projected_as o (obs_projected o + 1) ev)) o else o).
Proof.
  intros Hp He. simpl. rewrite He. unfold project. destruct (visible o ev); [|done]. simpl.
  fold (projected_as o (obs_projected o + 1) ev). generalize (react (projected_as o (obs_projected o + 1) ev)).
  intros l. match goal with |- foldl _ (Some ?x) _ = _ => set (o1 := x) end. assert (obs_paused o1 = true) as Hp1 by done.
  transitivity (Some (o1 <| obs_buffer := obs_buffer o1 ++ l |>)); [|done]. clearbody o1. clear -Hp1.
  revert o1 Hp1. induction l as [|x l IH]; intros o1 Hp1; simpl.
  - rewrite app_nil_r. by destruct o1.
  - rewrite Hp1. rewrite IH by done. simpl. by rewrite <- app_assoc.
Qed.

Lemma due_cons o w ev l :
  due o w (ev :: l) = if visible o ev && negb (represented w ev) then ev :: due o w l else due o w l.
Proof.
  unfold due. rewrite filter_cons. pose proof (represented_false w ev).
  destruct (visible o ev), (represented w ev); simpl; try case_decide; naive_solver.
Qed.

(** The replay delivers every event that is in the buffer when it ends and is
    neither invisible nor represented, once and in buffer order. *)
Lemma replay_spec fuel w i e o o' :
  obs_paused o = true → obs_emitter o = Some e → (i ≤ length (obs_buffer o))%nat →
  drain react fuel w i o = Some o' →
  ∃ extra, o' = delivered e (due o w (drop i (obs_buffer o ++ extra))) extra o.
Proof.
  revert i o. induction fuel as [|fuel IH]; intros i o Hp He Hi; cbn [drain].
  - destruct (obs_buffer o !! i) eqn:E; [done|]. intros [= <-]. exists [].
    apply lookup_ge_None in E. rewrite app_nil_r, drop_ge by done. by rewrite delivered_nil.
  - destruct (obs_buffer o !! i) as [ev|] eqn:E.
    2: { intros [= <-]. exists []. apply lookup_ge_None in E. rewrite app_nil_r, drop_ge by done. by rewrite delivered_nil. }
    pose proof (lookup_lt_Some _ _ _ E) as Hlt.
    assert (∀ x, drop i (obs_buffer o ++ x) = ev :: drop (S i) (obs_buffer o ++ x)) as Hd.
    { intros x. apply drop_S. by rewrite lookup_app_l. }
    destruct (represented w ev) eqn:Er.
    + intros Ho. destruct (IH (S i) o) as [x ->]; [done..|lia|done|]. exists x. rewrite Hd, due_cons, Er, andb_false_r. done.
    + rewrite (deliver_paused fuel e) by done. cbn [mbind option_bind]. intros Ho.
      destruct (visible o ev) eqn:Ev.
      * apply IH in Ho as [x ->]; [|done|done|simpl; rewrite length_app; lia]. rewrite delivered_trans.
        set (r := react (projected_as o (obs_projected o + 1) ev)). exists (r ++ x).
        assert (obs_buffer (delivered e [ev] r o) ++ x = obs_buffer o ++ (r ++ x)) as -> by (symmetry; apply app_assoc).
        rewrite Hd, due_cons, Er, Ev. by rewrite (due_same _ o).
      * apply IH in Ho as [x ->]; [|done|done|lia]. exists x. by rewrite Hd, due_cons, Er, Ev.
Qed.
Lemma drop_cons_inv {A} i (l : list A) x l' :
  drop i l = x :: l' → l !! i = Some x ∧ drop (S i) l = l'.
Proof.
  intros E. split; [by rewrite <- (Nat.add_0_r i), <- lookup_drop, E|].
  by rewrite <- Nat.add_1_r, <- drop_drop, E.
Qed.

(** Emitters whose reactions are ranked: what [p] raises ranks below the event
    that [p] projects. *)
Section ranked.
Context (rank : StateEvent → nat).
Hypothesis react_rank : ∀ o n ev ev', ev' ∈ react (projected_as o n ev) → (rank ev' < rank ev)%nat.

(** The rest of the buffer is [l], the current level, then [acc], raised by
    the part of the level already drained. *)
Lemma drain_levels w e n : ∀ l acc i o,
  obs_paused o = true → obs_emitter o = Some e → drop i (obs_buffer o) = l ++ acc →
  Forall (λ x, rank x ≤ n)%nat l → Forall (λ x, rank x < n)%nat acc →
  ∃ f0, ∀ fuel, (f0 ≤ fuel)%nat → is_Some (drain react fuel w i o).
Proof.
  induction n as [n IHn] using lt_wf_ind.
  induction l as [|x l IH]; intros acc i o Hp He Hd Hl Ha.
  - destruct n as [|m].
    + destruct acc as [|y acc]; [|apply Forall_cons in Ha as [? _]; lia].
      exists 0%nat. intros fuel _. assert (obs_buffer o !! i = None) as E.
      { apply lookup_ge_None. apply (f_equal length) in Hd. rewrite length_drop in Hd. simpl in Hd. lia. }
      destruct fuel; cbn [drain]; rewrite E; by eexists.
    + apply (IHn m (Nat.lt_succ_diag_r m) acc [] i o Hp He); [by rewrite app_nil_r | | constructor].
      eapply Forall_impl; [exact Ha|]. simpl. lia.
  - apply drop_cons_inv in Hd as [Hx Hd]. apply Forall_cons in Hl as [Hxn Hl].
    set (o1 := if represented w x then o else
                 if visible o x then delivered e [x] (react (projected_as o (obs_projected o + 1) x)) o else o).
    assert (∃ acc1, obs_paused o1 = true ∧ obs_emitter o1 = Some e ∧ drop (S i) (obs_buffer o1) = l ++ acc1 ∧
              Forall (λ x, rank x < n)%nat acc1) as (acc1 & Hp1 & He1 & Hd1 & Ha1).
    { unfold o1. destruct (represented w x); [by exists acc|]. destruct (visible o x); [|by exists acc].
      eexists (acc ++ _). split; [done|]. split; [done|]. split.
      - simpl. rewrite drop_app_le by (apply lookup_lt_Some in Hx; lia). rewrite Hd, <- app_assoc. reflexivity.
      - apply Forall_app. split; [done|]. apply Forall_forall. intros y Hy%react_rank. lia. }
    destruct (IH acc1 (S i) o1 Hp1 He1 Hd1 Hl Ha1) as [f0 Hf]. exists (S f0).
    intros [|fuel] Hle; [lia|]. cbn [drain]. rewrite Hx. unfold o1 in Hf.
    destruct (represented w x); [apply Hf; lia|]. rewrite (deliver_paused fuel e) by done. apply Hf. lia.
Qed.

(** [resume] returns, whatever the fuel above some bound. *)
Lemma resume_terminates w e o :
  obs_paused o = true → obs_emitter o = Some e →
  ∃ f0, ∀ fuel, (f0 ≤ fuel)%nat → is_Some (resume react fuel w o).
Proof.
  intros Hp He. set (o0 := match w with Some w => seed w o | None => o end).
  assert (obs_paused o0 = true ∧ obs_emitter o0 = Some e) as [Hp0 He0] by (unfold o0; by destruct w).
  destruct (drain_levels w e (max_list (rank <$> obs_buffer o0)) (obs_buffer o0) [] 0 o0 Hp0 He0) as [f0 Hf].
  - by rewrite app_nil_r.
  - apply Forall_forall. intros x Hx. apply max_list_elem_of_le, list_elem_of_fmap. eauto.
  - constructor.
  - exists f0. intros fuel [o' Eo]%Hf. unfold resume. cbv zeta. fold o0. rewrite Eo. by eexists.
Qed.
End ranked.
End replay.


(** ** The quiet emitter of a connection *)

Lemma drain_quiet fuel w i e o :
  obs_paused o = true → obs_emitter o = Some e → (length (drop i (obs_buffer o)) ≤ fuel)%nat →
  drain quiet_emitter fuel w i o = Some (delivered e (due o w (drop i (obs_buffer o))) [] o).
Proof.
  revert i o. induction fuel as [|fuel IH]; intros i o Hp He Hf;
    (destruct (drop i (obs_buffer o)) as [|x l] eqn:E; [|simpl in Hf; try lia]).
  1, 2: cbn [drain]; rewrite (proj2 (lookup_ge_None _ _));
    [by rewrite delivered_nil | apply (f_equal length) in E; rewrite length_drop in E; simpl in E; lia].
  apply drop_cons_inv in E as [Hx E]. cbn [drain]. rewrite Hx, due_cons.
  destruct (represented w x); [rewrite andb_false_r, (IH (S i) o), E; [done..|by rewrite E; lia]|].
  rewrite (deliver_paused quiet_emitter fuel e) by done. cbn [mbind option_bind].
  destruct (visible o x); simpl.
  - set (o1 := delivered _ _ _ _). assert (obs_buffer o1 = obs_buffer o) as Eb by apply app_nil_r.
    rewrite (IH (S i) o1), Eb, E; [|done|done|by rewrite Eb, E; lia]. unfold o1. rewrite delivered_trans.
    f_equal. by rewrite (due_same _ o).
  - rewrite (IH (S i) o), E; [done..|by rewrite E; lia].
Qed.

Lemma resume_now_spec w e o :
  obs_paused o = true → obs_emitter o = Some e →
  let n := default (obs_projected o) w in
  resume_now w o =
    o <| obs_projected := (n + N.of_nat (length (due o w (obs_buffer o))))%N |>
      <| obs_sent := obs_sent o ++ (pair e <$> number o n (due o w (obs_buffer o))) |>
      <| obs_buffer := [] |> <| obs_paused := false |>.
Proof.
  intros Hp He n. unfold resume_now, resume. cbv zeta.
  set (o0 := match w with Some w => seed w o | None => o end).
  assert (obs_buffer o0 = obs_buffer o ∧ obs_projected o0 = n ∧ same_view o0 o) as (Eb & En & Es)
    by (unfold o0, n; by destruct w).
  rewrite (drain_quiet _ w 0 e o0); [|unfold o0; by destruct w|unfold o0; by destruct w|].
  2: { rewrite drop_0, Eb. lia. }
  cbn [mbind option_bind default]. rewrite drop_0. unfold delivered.
  rewrite Eb, En, (due_same o0 o), (number_same o0 o) by (done || apply Es). unfold o0. by destruct w.
Qed.

Lemma on_event_now_spec ev e o :
  obs_emitter o = Some e →
  on_event_now ev o =
    if obs_paused o then o <| obs_buffer := obs_buffer o ++ [ev] |>
    else if visible o ev then delivered e [ev] [] o else o.
Proof.
  intros He. unfold on_event_now, on_event. destruct (obs_paused o) eqn:Hp; [done|]. simpl. rewrite He.
  unfold project. destruct (visible o ev); [|done]. simpl. unfold delivered. simpl. by rewrite app_nil_r.
Qed.

(** ** The diagnostic replay *)

(** The live path: [project] on each event in turn *)
Fixpoint project_all (l : list StateEvent) (o : Observer) : list ProjectedEvent :=
  match l with
  | [] => []
  | ev :: l' => let (o', p) := project ev o in option_list p ++ project_all l' o'
  end.

Definition envelope (sid : string) (p : ProjectedEvent) : RTVIMessage :=
  mkRTVIMessage CONTRACT_VERSION sid (pe_sequence p) (pe_kind p) (DEvent (pe_data p))
    (pe_origin_epoch p).

Lemma project_all_number l o :
  project_all l o = number o (obs_projected o) (filter (λ ev, visible o ev = true) l).
Proof.
  revert o. induction l as [|ev l IH]; intros o; [done|]. simpl. rewrite filter_cons. unfold project.
  destruct (visible o ev) eqn:E; simpl.
  - rewrite IH. f_equal. simpl. rewrite (number_same _ o) by done. f_equal.
    apply list_filter_iff. intros x. by rewrite (visible_same _ o).
  - apply IH.
Qed.

Lemma messages_loop_drop sid o after seq l :
  messages_loop sid o after seq l =
    drop (N.to_nat (after - seq)) (envelope sid <$> number o seq (filter (λ ev, visible o ev = true) l)).
Proof.
  revert seq. induction l as [|ev l IH]; intros seq; simpl; [by rewrite drop_nil|]. rewrite filter_cons.
  destruct (visible o ev); simpl; [|apply IH].
  rewrite IH. simpl. case_bool_decide as H.
  - replace (after - seq)%N with 0%N by lia. replace (after - (seq + 1))%N with 0%N by lia. done.
  - replace (N.to_nat (after - seq)) with (S (N.to_nat (after - (seq + 1)))) by lia. done.
Qed.

(** C33.  The diagnostic replay agrees with the live path: [messages(k)] returns
    exactly the envelopes that projecting the retained events one by one from a
    counter at zero produces, without the first [k], so a sequence it reports
    can be fed back as [after_sequence] to continue without loss or repeat. *)
Theorem messages_agree_with_projection after o (s : SessionState) :
  messages after o s =
    drop (N.to_nat after) (envelope (session_id s) <$> project_all (events s) (seed 0 o)).
Proof.
  unfold messages. rewrite messages_loop_drop, project_all_number, N.sub_0_r. simpl.
  rewrite (number_same (seed 0 o) o) by done. do 3 f_equal. apply list_filter_iff. intros x.
  by rewrite (visible_same (seed 0 o) o).
Qed.
