(* ===== verification/Replication.v ===== *)
(** A connected client replicates the session: over every interleaving of
    session operations, emit tasks, snapshot requests and the ways an install
    can end, the browser's reducer applies each event its connection may see
    exactly once and in order. *)

From stdpp Require Import sorting.
From S2P Require Import Prelude PyDict Contracts SessionState SessionLedger SessionFacts Rtvi Observer ObserverFacts.

(** ** The client's side *)

Definition payloads (l : list StateEvent) : list (string * EventPayload) :=
  (λ ev, (ev_kind ev, ev_payload ev)) <$> l.

(** A client in sync: snapshot [w], last applied [n], increments [D] *)
Definition synced (w n : N) (D : list StateEvent) : Client :=
  mkClient true n w false 0 (payloads D).

Definition increments (sid : string) (ps : list ProjectedEvent) : list wire_frame :=
  (λ p, WIncrement (envelope sid p)) <$> ps.

Lemma client_init_ignores sid ps : foldl client_step Client_init (increments sid ps) = Client_init.
Proof. induction ps as [|p ps IH]; simpl; [done|]. exact IH. Qed.

Lemma client_applies sid o w n D0 D :
  (w ≤ n)%N →
  foldl client_step (synced w n D0) (increments sid (number o n D)) =
    synced w (n + N.of_nat (length D)) (D0 ++ D).
Proof.
  revert n D0. induction D as [|ev D IH]; intros n D0 Hw; simpl.
  - by rewrite app_nil_r, N.add_0_r.
  - unfold client_increment at 1. simpl.
    rewrite (bool_decide_eq_false_2 (n + 1 = 0)%N), (bool_decide_eq_false_2 (n + 1 ≤ n)%N),
      (bool_decide_eq_false_2 (n + 1 < w)%N), (bool_decide_eq_true_2 (n + 1 = n + 1)%N) by lia. simpl.
    replace (mkClient _ _ _ _ _ _) with (synced w (n + 1) (D0 ++ [ev]))
      by (unfold synced, payloads; by rewrite fmap_app).
    rewrite IH by lia. rewrite <- app_assoc. f_equal. lia.
Qed.

Lemma client_snapshot w2 pl w n D :
  (n ≤ w2)%N → (w ≤ w2)%N → client_step (synced w n D) (WSnapshot w2 pl) = synced w2 w2 [].
Proof.
  intros Hn Hw. simpl. rewrite bool_decide_eq_false_2 by lia. unfold synced. f_equal. lia.
Qed.

(** ** Counting events past a watermark *)

Definition past (w : N) (l : list StateEvent) : list StateEvent :=
  filter (λ ev, w < ev_sequence ev)%N l.

Lemma past_all w l : Forall (λ ev, w < ev_sequence ev)%N l → past w l = l.
Proof. apply filter_all. Qed.

Lemma past_bound w m l :
  (w ≤ m)%N → StronglySorted N.lt (ev_sequence <$> l) → Forall (λ ev, ev_sequence ev ≤ m)%N l →
  (w + N.of_nat (length (past w l)) ≤ m)%N.
Proof.
  revert w. induction l as [|x l IH]; intros w Hw Hs Hf; [simpl; lia|].
  apply Forall_cons in Hf as [Hx Hf]. rewrite fmap_cons in Hs. apply StronglySorted_inv in Hs as [Hs Hlt].
  unfold past. rewrite filter_cons. case_decide as Hd; [|by apply IH].
  assert (past w l = past (ev_sequence x) l) as E.
  { rewrite Forall_fmap in Hlt. rewrite !past_all; [done|..]; (eapply Forall_impl; [exact Hlt|]); simpl; lia. }
  specialize (IH (ev_sequence x) Hx Hs Hf). rewrite <- E in IH. unfold past in IH. simpl. lia.
Qed.

Lemma due_length o w l : (length (due o w l) ≤ length l)%nat.
Proof. apply length_filter. Qed.

Lemma due_app o w l1 l2 : due o w (l1 ++ l2) = due o w l1 ++ due o w l2.
Proof. apply filter_app. Qed.

Lemma due_past o w l : due o None (past w l) = due o (Some w) l.
Proof.
  unfold due, past. rewrite list_filter_filter. apply list_filter_iff. intros ev. simpl.
  split; intros; destruct_and?; split_and?; try done; lia.
Qed.

Lemma due_past_same o w l : due o (Some w) (past w l) = due o (Some w) l.
Proof.
  unfold due, past. rewrite list_filter_filter. apply list_filter_iff. intros ev. simpl.
  split; intros; destruct_and?; split_and?; try done; lia.
Qed.

(** ** The invariant *)

Section link.
Context {retention : RetentionConfig}.
Implicit Types (l : Link) (o : Observer).

(** The frames queued on the worker and those of the tasks yet to run *)
Definition frames l : list wire_frame :=
  lk_wire l ++ increments (session_id (lk_state l)) (obs_sent (lk_observer l)).*2.

Definition client l : Client := foldl client_step Client_init (frames l).

(** A projected event a publisher of this epoch will accept *)
Definition sendable o (p : ProjectedEvent) : Prop :=
  ∃ n ev, event_typed ev ∧ visible o ev = true ∧ p = projected_as o n ev.

Definition flight_inv l : Prop :=
  match lk_flight l with
  | None => obs_paused (lk_observer l) = false ∧ obs_buffer (lk_observer l) = []
  | Some f =>
      obs_paused (lk_observer l) = true ∧ b_open (fl_barrier f) = true ∧
      (∃ pl, fl_frame f = WSnapshot (msg_sequence (fl_message f)) pl) ∧
      (msg_sequence (fl_message f) ≤ sequence (lk_state l))%N ∧
      obs_buffer (lk_observer l) = past (msg_sequence (fl_message f)) (lk_log l)
  end.

(** The highest watermark an install may still reseed at *)
Definition ceiling l : N :=
  match lk_flight l with Some f => msg_sequence (fl_message f) | None => sequence (lk_state l) end.

(** The client has had no snapshot yet, or has applied what the observer
    delivered since the last one. *)
Definition replica l : Prop :=
  client l = Client_init ∨
  ∃ w D, (w ≤ obs_projected (lk_observer l))%N ∧ client l = synced w (obs_projected (lk_observer l)) D ∧
    D ++ due (lk_observer l) None (obs_buffer (lk_observer l)) = due (lk_observer l) (Some w) (lk_log l).

Record link_inv l : Prop := {
  lv_accepted : lk_accepted l = true;
  lv_subscribed : obs_subscribed (lk_observer l) = true;
  lv_emitter : obs_emitter (lk_observer l) = Some emitter_id;
  lv_epoch : pub_active_epoch (lk_publisher l) = obs_epoch (lk_observer l);
  lv_session : pub_session_id (lk_publisher l) = session_id (lk_state l);
  lv_named : session_id (lk_state l) ≠ EmptyString;
  lv_typed : Forall event_typed (lk_log l);
  lv_sorted : StronglySorted N.lt (ev_sequence <$> lk_log l);
  lv_counted : Forall (λ ev, ev_sequence ev ≤ sequence (lk_state l))%N (lk_log l);
  lv_flight : flight_inv l;
  lv_ceiling : (obs_projected (lk_observer l) ≤ ceiling l)%N;
  lv_sent : Forall (sendable (lk_observer l)) (obs_sent (lk_observer l)).*2;
  lv_replica : replica l
}.

Lemma replica_synced l o w D :
  same_view (lk_observer l) o → (w ≤ obs_projected (lk_observer l))%N →
  client l = synced w (obs_projected (lk_observer l)) D →
  D ++ due o None (obs_buffer (lk_observer l)) = due o (Some w) (lk_log l) → replica l.
Proof.
  intros Hv Hw Hc HD. right. exists w, D. split_and!; [done..|].
  by rewrite !(due_same (lk_observer l) o _ _ Hv).
Qed.

Lemma replica_frames l l' :
  frames l' = frames l → same_view (lk_observer l') (lk_observer l) →
  obs_projected (lk_observer l') = obs_projected (lk_observer l) →
  obs_buffer (lk_observer l') = obs_buffer (lk_observer l) → lk_log l' = lk_log l →
  replica l → replica l'.
Proof.
  intros Ef Hv Hp Hb Hl [Hc|(w & D & Hw & Hc & HD)]; unfold client in *.
  - left. unfold client. by rewrite Ef.
  - apply (replica_synced l' (lk_observer l) w D); [done|by rewrite Hp| |by rewrite Hb, Hl].
    unfold client. by rewrite Ef, Hp.
Qed.

Lemma sendable_same o o' p : same_view o o' → sendable o p → sendable o' p.
Proof.
  intros Hv (n & ev & ? & ? & ->). exists n, ev. split; [done|]. split; [by rewrite <- (visible_same o o')|].
  unfold projected_as. by rewrite (proj1 Hv).
Qed.

(** ** Emit tasks *)

Lemma visible_epoch o ev : visible o ev = true → payload_epoch (ev_payload ev) = Some (obs_epoch o).
Proof. unfold visible. by case_bool_decide. Qed.

(** Running a task moves its frame to the worker's queue. *)
Lemma run_task_wire l e p rest :
  lk_accepted l = true → obs_sent (lk_observer l) = (e, p) :: rest → sendable (lk_observer l) p →
  pub_active_epoch (lk_publisher l) = obs_epoch (lk_observer l) →
  pub_session_id (lk_publisher l) = session_id (lk_state l) → session_id (lk_state l) ≠ EmptyString →
  run_task l =
    l <| lk_observer := (lk_observer l) <| obs_sent := rest |> |>
      <| lk_publisher := (lk_publisher l)
           <| pub_watermark := N.max (pub_watermark (lk_publisher l)) (pe_sequence p) |> |>
      <| lk_wire := lk_wire l ++ [WIncrement (envelope (session_id (lk_state l)) p)] |>.
Proof.
  intros Ha Es (n & ev & Ht & Hv & ->) He Hs Hn. unfold run_task. rewrite Es. unfold emit_frame. simpl. rewrite Ha.
  pose proof (visible_epoch _ _ Hv) as Hpe. rewrite <- He in Hpe. rewrite Hpe. simpl.
  rewrite (incremental_typed ev n [] (lk_publisher l)) by congruence.
  unfold envelope. simpl. by rewrite Hs, Hpe.
Qed.

Lemma run_task_inv l : link_inv l → link_inv (run_task l) ∧ lk_flight (run_task l) = lk_flight l.
Proof.
  intros Hl. destruct (obs_sent (lk_observer l)) as [|[e p] rest] eqn:Es.
  { unfold run_task. by rewrite Es. }
  pose proof Hl as [Ha Hsub Hem Hep Hsid Hne Hty Hso Hco Hfl Hce Hse Hre].
  rewrite Es in Hse. apply Forall_cons in Hse as [Hp Hse].
  rewrite (run_task_wire l e p rest) by done. split; [|done].
  assert (frames (l <| lk_observer := (lk_observer l) <| obs_sent := rest |> |>
      <| lk_publisher := (lk_publisher l)
           <| pub_watermark := N.max (pub_watermark (lk_publisher l)) (pe_sequence p) |> |>
      <| lk_wire := lk_wire l ++ [WIncrement (envelope (session_id (lk_state l)) p)] |>) = frames l) as Ef.
  { unfold frames. simpl. rewrite Es. simpl. by rewrite <- app_assoc. }
  split; try done.
  - eapply Forall_impl; [exact Hse|]. intros q. by apply sendable_same.
  - by apply (replica_frames l).
Qed.

Lemma run_task_sent l : obs_sent (lk_observer (run_task l)) = tail (obs_sent (lk_observer l)).
Proof.
  unfold run_task. destruct (obs_sent (lk_observer l)) as [|[e p] rest] eqn:Es; [by rewrite Es|].
  unfold emit_frame. simpl. destruct (negb _); [done|]. by destruct (incremental _ _ _ _ _ _).
Qed.

Lemma run_tasks_inv n l :
  link_inv l → (length (obs_sent (lk_observer l)) ≤ n)%nat →
  link_inv (run_tasks n l) ∧ lk_flight (run_tasks n l) = lk_flight l ∧
  obs_sent (lk_observer (run_tasks n l)) = [].
Proof.
  revert l. induction n as [|n IH]; intros l Hl Hn; simpl.
  - split_and!; [done..|]. destruct (obs_sent _); [done|simpl in Hn; lia].
  - destruct (run_task_inv l Hl) as [Hl' Hf]. rewrite <- Hf. apply IH; [done|].
    rewrite run_task_sent. destruct (obs_sent _); simpl in *; lia.
Qed.

Lemma on_client_ready_inv l : link_inv l → link_inv (on_client_ready l).
Proof.
  intros Hl. unfold on_client_ready, client_ready. destruct (lk_ready_sent l); [done|].
  destruct (lk_accepted l) eqn:Ea; [|done].
  destruct Hl as [Ha Hsub Hem Hep Hsid Hne Hty Hso Hco Hfl Hce Hse Hre].
  destruct (negb _); by split.
Qed.

(** ** Session operations *)

Lemma log_snoc_sorted s (log : list StateEvent) ev :
  StronglySorted N.lt (ev_sequence <$> log) → Forall (λ x, ev_sequence x ≤ sequence s)%N log →
  (sequence s < ev_sequence ev)%N → StronglySorted N.lt (ev_sequence <$> (log ++ [ev])).
Proof.
  intros Hs Hf Hlt. rewrite fmap_app. apply StronglySorted_app. split_and!; [|done|by repeat constructor].
  intros a b Ha ->%list_elem_of_singleton. apply list_elem_of_fmap in Ha as (x & -> & Hx).
  rewrite Forall_forall in Hf. specialize (Hf x Hx). lia.
Qed.

Lemma frames_sent l l' e ps :
  lk_wire l' = lk_wire l → session_id (lk_state l') = session_id (lk_state l) →
  obs_sent (lk_observer l') = obs_sent (lk_observer l) ++ (pair e <$> ps) →
  frames l' = frames l ++ increments (session_id (lk_state l)) ps.
Proof.
  intros Hw Hs Ho. unfold frames, increments. rewrite Hw, Hs, Ho, !fmap_app, app_assoc. do 2 f_equal.
  rewrite <- list_fmap_compose. unfold compose. simpl. apply list_fmap_id.
Qed.

(** What a replay hands to the emitter can be sent. *)
Lemma sent_sendable o o' e n w (evs : list StateEvent) :
  same_view o o' → Forall (sendable o) (obs_sent o).*2 → Forall event_typed evs →
  Forall (sendable o') (obs_sent o ++ (pair e <$> number o n (due o w evs))).*2.
Proof.
  intros Hv Hs Ht. rewrite fmap_app, <- list_fmap_compose. unfold compose. simpl. rewrite list_fmap_id.
  apply Forall_app. split; (eapply Forall_impl; [|intros q; by apply (sendable_same o o')]); [done|].
  assert (Forall (λ ev, event_typed ev ∧ visible o ev = true) (due o w evs)) as H.
  { apply Forall_forall. intros ev [[? ?] Hin]%list_elem_of_filter. rewrite Forall_forall in Ht. auto. }
  clear Ht. revert n. induction H as [|ev l [? ?] _ IH]; intros n; simpl; constructor; [|apply IH].
  by exists (n + 1)%N, ev.
Qed.

Lemma past_typed w (log : list StateEvent) : Forall event_typed log → Forall event_typed (past w log).
Proof. rewrite !Forall_forall. intros H x [_ Hx]%list_elem_of_filter. auto. Qed.

(** Delivering [D] to a client in sync keeps it in sync. *)
Lemma replica_delivered l e D :
  replica l → obs_buffer (lk_observer l) = [] →
  ∀ l', lk_observer l' = delivered e D [] (lk_observer l) → lk_wire l' = lk_wire l →
    session_id (lk_state l') = session_id (lk_state l) →
    (∀ w, (w ≤ obs_projected (lk_observer l))%N →
       due (lk_observer l) (Some w) (lk_log l') = due (lk_observer l) (Some w) (lk_log l) ++ D) →
    replica l'.
Proof.
  intros Hr Hb l' Ho Hw Hsid Hdue.
  assert (client l' = foldl client_step (client l)
            (increments (session_id (lk_state l)) (number (lk_observer l) (obs_projected (lk_observer l)) D))) as Hc'.
  { unfold client. rewrite <- foldl_app. f_equal. apply (frames_sent l l' e); try done. by rewrite Ho. }
  destruct Hr as [Hc|(w & D0 & Hle & Hc & HD)].
  - left. rewrite Hc', Hc. apply client_init_ignores.
  - rewrite Hb in HD. change (due (lk_observer l) None []) with (@nil StateEvent) in HD. rewrite app_nil_r in HD.
    apply (replica_synced l' (lk_observer l) w (D0 ++ D)); rewrite Ho; simpl; [done|lia| |].
    + rewrite Hc', Hc. by apply client_applies.
    + rewrite Hb, Hdue, HD by done. apply app_nil_r.
Qed.
Lemma due_snoc o w (log : list StateEvent) ev :
  (w < ev_sequence ev)%N → due o (Some w) (log ++ [ev]) = due o (Some w) log ++ due o None [ev].
Proof.
  intros Hw. rewrite due_app. f_equal. rewrite !due_cons. simpl. by rewrite bool_decide_eq_false_2 by lia.
Qed.

Lemma due_visible o ev : due o None [ev] = if visible o ev then [ev] else [].
Proof. rewrite due_cons. simpl. by rewrite andb_true_r. Qed.

(** An event of the session, recorded and handed to the observer *)
Lemma event_inv s ev l :
  link_inv l → session_id s = session_id (lk_state l) → event_typed ev → ev_sequence ev = sequence s →
  (sequence (lk_state l) < sequence s)%N →
  link_inv (l <| lk_state := s |> <| lk_log := lk_log l ++ [ev] |>
              <| lk_observer := on_event_now ev (lk_observer l) |>).
Proof.
  intros [Ha Hsub Hem Hep Hsid Hne Hty Hso Hco Hfl Hce Hse Hre] Hid Ht Hseq Hlt.
  rewrite (on_event_now_spec ev emitter_id _ Hem).
  assert (∀ w, (w ≤ sequence (lk_state l))%N → (w < ev_sequence ev)%N) as Hnew by lia.
  assert (Forall (λ x, ev_sequence x ≤ sequence s)%N (lk_log l ++ [ev])) as Hco'.
  { apply Forall_app. split; [|constructor; [lia|constructor]]. eapply Forall_impl; [exact Hco|]. simpl. lia. }
  assert (Forall event_typed (lk_log l ++ [ev])) as Hty' by (apply Forall_app; by repeat constructor).
  pose proof (log_snoc_sorted (lk_state l) (lk_log l) ev Hso Hco ltac:(lia)) as Hso'.
  unfold flight_inv, ceiling in *. destruct (lk_flight l) as [f|] eqn:Ef; simpl.
  - destruct Hfl as (Hp & Ho & Hfr & Hle & Hb). rewrite Hp.
    split; simpl; try done; try congruence; unfold flight_inv, ceiling; simpl; rewrite ?Ef; try done.
    + split_and!; try done; [lia|]. rewrite Hb. unfold past. rewrite filter_app. f_equal.
      by rewrite filter_cons_True by (apply Hnew; lia).
    + eapply Forall_impl; [exact Hse|]. intros q. by apply sendable_same.
    + destruct Hre as [Hc|(w & D & Hw & Hc & HD)].
      * left. rewrite <- Hc. unfold client, frames. simpl. by rewrite Hid.
      * apply (replica_synced _ (lk_observer l) w D); simpl; try done.
        -- rewrite <- Hc. unfold client, frames. simpl. by rewrite Hid.
        -- by rewrite due_app, app_assoc, HD, due_snoc by (apply Hnew; lia).
  - destruct Hfl as [Hp Hb]. rewrite Hp.
    set (D := due (lk_observer l) None [ev]).
    assert ((if visible (lk_observer l) ev then delivered emitter_id [ev] [] (lk_observer l) else lk_observer l)
            = delivered emitter_id D [] (lk_observer l)) as ->.
    { unfold D. rewrite due_visible. destruct (visible _ _); [done|]. by rewrite delivered_nil. }
    assert (length D ≤ 1)%nat as HD by apply due_length.
    split; simpl; try done; try congruence; unfold flight_inv, ceiling; simpl; rewrite ?Ef; try done.
    + by rewrite Hb.
    + lia.
    + apply sent_sendable; [done..|by repeat constructor].
    + apply (replica_delivered l emitter_id D Hre Hb); try done. intros w Hw. apply due_snoc, Hnew. lia.
Qed.

Lemma session_step_inv op l : op_typed op → link_inv l → link_inv (session_step op l).
Proof.
  intros Hop Hl. unfold session_step. pose proof (exec_numbered op (lk_state l)) as Hn.
  pose proof (exec_session_id op (lk_state l)) as Hid. pose proof (exec_typed op (lk_state l)) as Ht.
  destruct (exec op (lk_state l)) as [s [ev|]]; unfold numbered in Hn; simpl in *.
  - rewrite (lv_subscribed l Hl). destruct Hn as (Hseq & Hlt & _). apply event_inv; auto.
  - rewrite app_nil_r. destruct Hl as [Ha Hsub Hem Hep Hsid Hne Hty Hso Hco Hfl Hce Hse Hre].
    split; simpl; try done; try congruence; unfold flight_inv, ceiling in *; simpl; rewrite ?Hn; try done.
    apply (replica_frames l); try done. unfold frames. simpl. by rewrite Hid.
Qed.
(** ** Snapshot attempts *)

(** The parts of the state a snapshot or an emitted frame may touch *)
Lemma link_inv_env l s pub :
  link_inv l → session_id s = session_id (lk_state l) → sequence s = sequence (lk_state l) →
  pub_session_id pub = pub_session_id (lk_publisher l) →
  pub_active_epoch pub = pub_active_epoch (lk_publisher l) →
  link_inv (l <| lk_state := s |> <| lk_publisher := pub |>).
Proof.
  intros [Ha Hsub Hem Hep Hsid Hne Hty Hso Hco Hfl Hce Hse Hre] Hid Hseq Hp1 Hp2.
  split; simpl; try done; try congruence; unfold flight_inv, ceiling in *; simpl; rewrite ?Hseq; try done.
  apply (replica_frames l); try done. unfold frames. simpl. by rewrite Hid.
Qed.

Lemma pause_resume o e :
  obs_subscribed o = true → obs_emitter o = Some e → obs_paused o = false → obs_buffer o = [] →
  resume_now None (pause o) = o.
Proof.
  intros Hs He Hp Hb. rewrite (resume_now_spec None e) by done. simpl. rewrite Hb. destruct o; simpl in *; subst.
  unfold setter. simpl. by rewrite N.add_0_r, app_nil_r.
Qed.

Lemma past_none w (log : list StateEvent) : Forall (λ ev, ev_sequence ev ≤ w)%N log → past w log = [].
Proof. intros H. unfold past. induction H; [done|]. rewrite filter_cons_False by lia. done. Qed.

(** An install in flight: the observer is paused and the stamped snapshot is
    the state's current sequence. *)
Lemma link_inv_flight l b m pl n :
  link_inv l → lk_flight l = None → b_open b = true → msg_sequence m = sequence (lk_state l) →
  link_inv (l <| lk_observer := pause (lk_observer l) |>
              <| lk_flight := Some (mkFlight b m (WSnapshot (msg_sequence m) pl) n) |>).
Proof.
  intros [Ha Hsub Hem Hep Hsid Hne Hty Hso Hco Hfl Hce Hse Hre] Hf Hb Hm.
  unfold flight_inv, ceiling in *. rewrite Hf in *. destruct Hfl as [Hp Hbuf].
  split; simpl; try done; unfold flight_inv, ceiling; simpl.
  - split_and!; try done; [by eexists|by rewrite Hm|by rewrite Hbuf, Hm, past_none].
  - by rewrite Hm.
  - eapply Forall_impl; [exact Hse|]. intros q. by apply sendable_same.
  - by apply (replica_frames l).
Qed.

Lemma publish_ids q wm pub :
  pub_session_id (publish_snapshot q wm pub).1 = pub_session_id pub ∧
  pub_active_epoch (publish_snapshot q wm pub).1 = pub_active_epoch pub.
Proof. unfold publish_snapshot. by destruct (negb _). Qed.

Lemma publish_message q wm pub m wm' :
  (publish_snapshot (Some q) wm pub).2 = Ret (Some (m, wm')) →
  msg_sequence m = q ∧ ∃ snap, msg_data m = DSnapshot snap.
Proof.
  unfold publish_snapshot. destruct (negb _); [done|]. simpl. unfold new_RTVIMessage.
  case_bool_decide; [done|]. destruct (negb _); [done|]. cbn [rbind].
  destruct (validate_versioned_payload _ _); [|done]. simpl. intros [= <- <-]. simpl. eauto.
Qed.

Lemma begin_attempt_inv now wm l :
  link_inv l → lk_flight l = None →
  match begin_attempt now wm l with
  | (l', None) => link_inv l' ∧ lk_flight l' = None ∧ lk_recheck l' = lk_recheck l
  | (l', Some (b, m, fr)) => ∀ n, link_inv (l' <| lk_flight := Some (mkFlight b m fr n) |>)
  end.
Proof.
  intros Hl Hf. pose proof (lv_flight l Hl) as Hfl. unfold flight_inv in Hfl. rewrite Hf in Hfl.
  pose proof (pause_resume _ _ (lv_subscribed l Hl) (lv_emitter l Hl) (proj1 Hfl) (proj2 Hfl)) as Hpr.
  unfold begin_attempt. cbn [subscribe_paused fst snd].
  assert (∀ e inc, same_wire (lk_state l) (snapshot e inc now wm (lk_state l)).1) as Hw.
  { intros e inc. unfold snapshot. destruct inc; [|done]. apply prune_wire. }
  cbn [lk_state setter eta]. set (e := Some _). set (inc := supports_work_status _). clearbody e inc.
  specialize (Hw e inc). destruct (snapshot e inc now wm (lk_state l)) as [s' [[snap wm']|]]; simpl in Hw;
    destruct Hw as (Hid & Hseq & _).
  2: { split; [|done]. unfold barrier_cancel. simpl. rewrite Hpr. by apply (link_inv_env l s' (lk_publisher l)). }
  cbn [lk_publisher lk_state setter eta].
  destruct (publish_ids (Some (sequence s')) wm' (set_snapshot snap (lk_publisher l))) as [Hi1 Hi2].
  pose proof (publish_message (sequence s') wm' (set_snapshot snap (lk_publisher l))) as Hm.
  destruct (publish_snapshot _ _ _) as [pub m]. simpl in Hi1, Hi2, Hm.
  assert (link_inv (l <| lk_state := s' |> <| lk_publisher := pub |>)) as Hl' by by apply link_inv_env.
  destruct m as [[[m wm'']|]|]; cbn [install_begin fst snd negb b_open lk_observer setter eta].
  2, 3: split; [|done]; unfold barrier_cancel; simpl; rewrite Hpr; exact Hl'.
  destruct (Hm m wm'' eq_refl) as [Hms [sn Hd]]. rewrite Hd. intros n.
  exact (link_inv_flight _ (mkBarrier 1 true) m _ n Hl' Hf eq_refl Hms).
Qed.

Lemma attempts_inv n now wm l : link_inv l → lk_flight l = None → link_inv (attempts n now wm l).
Proof.
  revert l. induction n as [|n IH]; intros l Hl Hf; cbn [attempts]; [done|].
  destruct (negb (lk_accepted l)); [done|]. set (l1 := l <| lk_recheck := false |>).
  assert (link_inv l1) as Hl1 by (by destruct Hl; split).
  pose proof (begin_attempt_inv now wm l1 Hl1 Hf) as Hb.
  destruct (begin_attempt now wm l1) as [l' [[[b m] fr]|]]; [apply Hb|].
  destruct Hb as (Hl' & Hf' & _). destruct (lk_recheck l'); [by apply IH | done].
Qed.

(** ** Settling an attempt *)

(** A failed install resumes delivery where it stopped. *)
Lemma settle_failed_inv l f :
  link_inv l → lk_flight l = Some f →
  link_inv (l <| lk_observer := resume_now None (lk_observer l) |> <| lk_flight := None |>).
Proof.
  intros [Ha Hsub Hem Hep Hsid Hne Hty Hso Hco Hfl Hce Hse Hre] Hf.
  unfold flight_inv, ceiling in *. rewrite Hf in *. destruct Hfl as (Hp & Ho & _ & Hle & Hb).
  rewrite (resume_now_spec None emitter_id) by done. cbn [default].
  set (D := due (lk_observer l) None (obs_buffer (lk_observer l))).
  assert (obs_projected (lk_observer l) + N.of_nat (length D) ≤ sequence (lk_state l))%N as HD.
  { pose proof (past_bound _ _ _ Hle Hso Hco) as Hpb. rewrite <- Hb in Hpb.
    pose proof (due_length (lk_observer l) None (obs_buffer (lk_observer l))). fold D in H. lia. }
  split; simpl; try done.
  - apply sent_sendable; [done..|]. rewrite Hb. by apply past_typed.
  - set (l' := mkLink _ _ _ _ _ _ _ _ _).
    assert (client l' = foldl client_step (client l)
              (increments (session_id (lk_state l)) (number (lk_observer l) (obs_projected (lk_observer l)) D))) as Hc'.
    { unfold client. rewrite <- foldl_app. f_equal. by apply (frames_sent l l' emitter_id). }
    destruct Hre as [Hc|(w & D0 & Hw & Hc & HD0)]; [left; rewrite Hc', Hc; apply client_init_ignores|].
    apply (replica_synced l' (lk_observer l) w (D0 ++ D)); simpl; [done|lia| |].
    + rewrite Hc', Hc. by apply client_applies.
    + by rewrite <- HD0, app_nil_r.
Qed.

(** A delivered snapshot is a new baseline. *)
Lemma settle_delivered_inv l f :
  link_inv l → lk_flight l = Some f → obs_sent (lk_observer l) = [] →
  link_inv (l <| lk_wire := lk_wire l ++ [fl_frame f] |>
              <| lk_observer := resume_now (Some (msg_sequence (fl_message f))) (lk_observer l) |>
              <| lk_flight := None |>).
Proof.
  intros [Ha Hsub Hem Hep Hsid Hne Hty Hso Hco Hfl Hce Hse Hre] Hf Hs0.
  unfold flight_inv, ceiling in *. rewrite Hf in *. destruct Hfl as (Hp & Ho & [pl Hfr] & Hle & Hb).
  set (w2 := msg_sequence (fl_message f)) in *.
  rewrite (resume_now_spec (Some w2) emitter_id) by done. cbn [default].
  set (D := due (lk_observer l) (Some w2) (obs_buffer (lk_observer l))).
  assert (w2 + N.of_nat (length D) ≤ sequence (lk_state l))%N as HD.
  { pose proof (past_bound _ _ _ Hle Hso Hco) as Hpb. rewrite <- Hb in Hpb.
    pose proof (due_length (lk_observer l) (Some w2) (obs_buffer (lk_observer l))) as Hd. fold D in Hd. lia. }
  split; simpl; try done.
  - apply sent_sendable; [done..|]. rewrite Hb. by apply past_typed.
  - set (l' := mkLink _ _ _ _ _ _ _ _ _).
    assert (client l' = foldl client_step (client_step (client l) (WSnapshot w2 pl))
              (increments (session_id (lk_state l)) (number (lk_observer l) w2 D))) as Hc'.
    { unfold client, frames, l'. simpl. rewrite Hs0, Hfr, app_nil_r, !foldl_app. simpl.
      by rewrite <- list_fmap_compose; unfold compose; simpl; rewrite list_fmap_id. }
    assert (client_step (client l) (WSnapshot w2 pl) = synced w2 w2 []) as Hcs.
    { destruct Hre as [->|(w & D0 & Hw & -> & _)]; [|apply client_snapshot; lia]. simpl.
      rewrite bool_decide_eq_false_2 by lia. unfold synced. f_equal. lia. }
    apply (replica_synced l' (lk_observer l) w2 D); simpl; [done|lia| |].
    + rewrite Hc', Hcs. by rewrite client_applies by lia.
    + unfold D. rewrite Hb, app_nil_r. apply due_past_same.
Qed.

Lemma settle_attempt_inv how now wm l : link_inv l → link_inv (settle_attempt how now wm l).
Proof.
  intros Hl. unfold settle_attempt. destruct (lk_flight l) as [f|] eqn:Hf; [|done].
  pose proof (lv_flight l Hl) as Hfl. unfold flight_inv in Hfl. rewrite Hf in Hfl. destruct Hfl as (_ & Ho & _).
  destruct f as [[g op] m fr n]. simpl in Ho. subst op.
  destruct how; cbn [install_settle barrier_cancel negb fst snd b_open fl_barrier].
  - destruct (run_tasks_inv (length (obs_sent (lk_observer l))) l Hl (le_n _)) as (Hl' & Hf' & Hs').
    rewrite Hf in Hf'. exact (settle_delivered_inv _ _ Hl' Hf' Hs').
  - pose proof (settle_failed_inv l _ Hl Hf) as Hl'. 
    assert (∀ (b : bool) a c, link_inv a → link_inv c → link_inv (if b then a else c)) as Hif by (by intros []).
    apply Hif; [|exact Hl']. apply attempts_inv; [exact Hl'|done].
  - exact (settle_failed_inv l _ Hl Hf).
Qed.

(** ** Runs *)

(** Steps of a connection that is not retired *)
Definition step_ok (st : link_step) : Prop :=
  match st with LOp o => op_typed o | LRetire => False | _ => True end.

Lemma link_exec_inv st l : step_ok st → link_inv l → link_inv (link_exec st l).
Proof.
  destruct st as [o| | |now wm|how now wm|]; simpl; intros Hst Hl; try done.
  - by apply session_step_inv.
  - by apply run_task_inv.
  - by apply on_client_ready_inv.
  - unfold on_snapshot_request. destruct (negb _); [done|]. destruct (lk_flight l) eqn:Hf; [by destruct Hl; split|].
    by apply attempts_inv.
  - by apply settle_attempt_inv.
Qed.

Lemma link_run_inv steps l : Forall step_ok steps → link_inv l → link_inv (link_run steps l).
Proof.
  intros H. revert l. induction H as [|st steps Hst _ IH]; intros l Hl; simpl; [done|].
  by apply IH, link_exec_inv.
Qed.

Lemma Link_init_inv e caps s : session_id s ≠ EmptyString → link_inv (Link_init e caps s).
Proof. intros Hs. split; try done; try constructor; done. Qed.
End link.

(** ** Theorems *)

Section theorems.
Context {retention : RetentionConfig}.


(** Session events are well typed on the wire: whatever operations run,
    every event the session emits is filed under the kind of its payload (a
    transcript under the kind of its role), so for a connection of the event's
    epoch the publisher builds the envelope, with the given sequence number and
    payload, and never raises. *)
Theorem session_events_serialize ops s seq wm (p : Publisher) :
  Forall op_typed ops → pub_session_id p ≠ EmptyString →
  ∀ ev, ev ∈ (run ops s).2 → payload_epoch (ev_payload ev) = Some (pub_active_epoch p) →
    (incremental (ev_kind ev) (ev_payload ev) seq (pub_active_epoch p) wm p).2 =
      Ret (Some (mkRTVIMessage CONTRACT_VERSION (pub_session_id p) seq (ev_kind ev)
                   (DEvent (ev_payload ev)) (pub_active_epoch p), wm)).
Proof.
  intros Hops Hp ev Hin He. assert (event_typed ev) as Ht; [|by rewrite incremental_typed].
  clear He. revert s Hin. induction Hops as [|o ops Ho _ IH]; intros s Hin; [by apply not_elem_of_nil in Hin|].
  rewrite run_cons in Hin. pose proof (exec_typed o s) as Hex. specialize (IH (exec o s).1).
  destruct (run ops (exec o s).1) as [s' evs]. simpl in *.
  destruct (exec o s).2 as [e|]; simpl in Hin; [apply elem_of_cons in Hin as [->|Hin]|]; eauto.
Qed.
End theorems.

(** ** Witnesses *)

#[local] Existing Instance RETENTION_FALLBACK.

Definition w_worker (status : string) (epoch : N) : WorkerState :=
  mkWorkerState "w1" "topic" "deep" status None (Some epoch).

Definition w_link_session : SessionState :=
  (run [OpPromote (Some 1%N); OpWorker (w_worker "idle" 1)] (SessionState_init "session" "token" []).1).1.

(** Two requests while an install is in flight that first times out, events
    before, during and after it, one of another epoch. *)
Definition w_link_steps : list link_step :=
  [LClientReady; LOp (OpWorker (w_worker "a" 1)); LRunTask; LRequest 0 []; LRequest 0 [];
   LOp (OpWorker (w_worker "b" 1)); LSettle Aborted 0 []; LOp (OpWorker (w_worker "c" 1));
   LSettle Delivered 0 []; LOp (OpPromote (Some 2%N)); LOp (OpWorker (w_worker "d" 2));
   LOp (OpPromote (Some 1%N)); LOp (OpWorker (w_worker "e" 1)); LRunTask].


Lemma session_events_serialize_witness :
  let p := mkPublisher "session" 1 0 true None in
  ∃ ev, ev ∈ (run [OpWorker (w_worker "a" 1)] w_link_session).2 ∧
    (incremental (ev_kind ev) (ev_payload ev) 7 1 [] p).2 =
      Ret (Some (mkRTVIMessage CONTRACT_VERSION "session" 7 "worker" (DEvent (PWorker (w_worker "a" 1))) 1, [])).
Proof.
  eexists. split; [vm_compute; constructor|].
  apply (session_events_serialize [OpWorker (w_worker "a" 1)] w_link_session 7 []
           (mkPublisher "session" 1 0 true None)); [repeat constructor | discriminate | vm_compute; constructor | done].
Defined.

(** An emitter that answers each "idle" worker event with a "busy" one *)
Definition w_react (p : ProjectedEvent) : list StateEvent :=
  match pe_data p with
  | PWorker w => if decide (ws_status w = "idle")
                 then [mkStateEvent 9 "worker" (PWorker (w_worker "busy" 1))] else []
  | _ => []
  end.

Definition w_rank (ev : StateEvent) : nat :=
  match ev_payload ev with PWorker w => if decide (ws_status w = "idle") then 1 else 0 | _ => 0 end.

Definition w_paused : Observer :=
  (pause (observer_subscribe 0 (Observer_init 1 [])))
    <| obs_buffer := [mkStateEvent 7 "worker" (PWorker (w_worker "idle" 1));
                      mkStateEvent 8 "worker" (PWorker (w_worker "x" 1))] |>.

