(* ===== verification/WorkStatusPublisher.v ===== *)
(** [server/work_status_publisher.py]: how the outcome of a delegated child
    becomes its coarse status, and how statuses reach the session's ledger.

    Outcome labels and commit outcomes are the strings of the metric
    vocabularies.  The feature policy is read at each call (the source takes a
    thunk), so whether [enable_background_status] is on is an argument. *)

From S2P Require Import Prelude PyDict Contracts SessionState SessionLedger.

(** A derived status: the state and, for a failure, its reason *)
Abbreviation derived_status := (WorkStatusState * option TerminalReason)%type (only parsing).

(** ** Derivations *)

Definition work_status_for_outcome (outcome_label : option string) (is_cancelled committed : bool)
    (terminal_kind : option string) : option derived_status :=
  if is_cancelled then Some (cancelled, None)
  else match outcome_label with
       | None => None
       | Some label =>
           if bool_decide (label ∈ ["completed"; "clarify"; "declined"]) && committed
           then Some (result_ready, None)
           else Some (failed, if bool_decide (terminal_kind = Some "retention_rejected")
                              then Some retention_rejected else None)
       end.

Definition work_status_after_commit_failure (derived : option derived_status)
    : option derived_status :=
  match derived with
  | None => None
  | Some d =>
      if negb (WORK_STATUS_TERMINAL d.1) then None
      else if decide (d.1 = cancelled) then Some d
      else Some (failed, None)
  end.

Definition child_work_status_after_dispatch (outcome_label : option string) (is_cancelled : bool)
    (terminal_kind : option string) : option derived_status :=
  if bool_decide (outcome_label = Some "retained") && negb is_cancelled then Some (background, None)
  else work_status_for_outcome outcome_label is_cancelled true terminal_kind.

Definition status_omitted_while_retained (outcome_label : option string) (is_cancelled : bool)
    (terminal_kind : option string) : option derived_status :=
  if bool_decide (outcome_label = Some "retained") && negb is_cancelled then None
  else work_status_for_outcome outcome_label is_cancelled true terminal_kind.

Definition late_commit_work_status (work_outcome commit_outcome : option string)
    (terminal_kind : option string) : option derived_status :=
  if bool_decide (commit_outcome = Some "suppressed_duplicate") then None
  else work_status_for_outcome work_outcome (bool_decide (work_outcome = Some "cancelled"))
         (bool_decide (commit_outcome = Some "committed")) terminal_kind.

(** ** The publisher *)

(** The arguments of one [emit] that do not change during a sweep *)
Record StatusTarget := mkTarget {
  tg_turn_id : string;
  tg_parent : option string;
  tg_epoch : option N
}.

Section publisher.
Context {retention : RetentionConfig}.

Definition replaces_legacy_result_for (origin_supports_work_status enabled : bool) : bool :=
  origin_supports_work_status && enabled.

Definition emit_status (enabled : bool) (t : StatusTarget) (work_item_id : string)
    (worker_id : option string) (d : derived_status) (now : Q) (s : SessionState)
    : SessionState * Prelude.result unit :=
  if negb enabled then (s, Ret tt)
  else
    let (s', r) := set_child_work_status (tg_turn_id t) work_item_id (tg_parent t) worker_id d.1
                     (tg_epoch t) d.2 now s in
    (s', _ ←? r ;; Ret tt).

Fixpoint terminalize_children (enabled : bool) (t : StatusTarget)
    (children : dict string (option string)) (d : derived_status) (now : Q) (s : SessionState)
    : SessionState * Prelude.result unit :=
  match children with
  | [] => (s, Ret tt)
  | (work_item_id, worker_id) :: children' =>
      match emit_status enabled t work_item_id worker_id d now s with
      | (s', Ret _) => terminalize_children enabled t children' d now s'
      | (s', Raise e) => (s', Raise e)
      end
  end.

(** ** The children of a key *)

Definition kids (key : WorkStatusKey) (s : SessionState) : dict string WorkStatus :=
  default [] (dict_get key (ws_children s)).

(** Every child of [key] outside [ids] has reached a terminal state. *)
Definition terminal_but (ids : list string) (key : WorkStatusKey) (s : SessionState) : Prop :=
  ∀ i w, (i, w) ∈ kids key s → WORK_STATUS_TERMINAL (wst_state w) = true ∨ i ∈ ids.

Definition target_key (t : StatusTarget) (work_item_id : string) : WorkStatusKey :=
  mkKey (tg_epoch t) (tg_turn_id t) (py_or (tg_parent t) work_item_id).

(** A report leaves the children of a key as filed, or drops them all. *)
Lemma forget_kids k key s : kids key (forget_work_status k s) = kids key s ∨ kids key (forget_work_status k s) = [].
Proof. unfold kids. rewrite forget_children, dict_get_pop. case_decide; auto. Qed.

Lemma write_parent_kids k key st re now s :
  kids k (write_parent key st re now s).1 = kids k s ∨ kids k (write_parent key st re now s).1 = [].
Proof.
  unfold write_parent. cbv zeta. destruct (new_WorkStatus _ _ _ _ _ _ _) as [w|]; [|by left].
  cbn [fst emit]. unfold evict_work_status_overflow.
  match goal with |- context [evict_loop ?n key ?s1] =>
    assert (kids k s1 = kids k s) as E by (by case_bool_decide);
    assert (kids k (evict_loop n key s1) = kids k s ∨ kids k (evict_loop n key s1) = []) as H end; [|exact H].
  apply (evict_loop_keeps (λ s', kids k s' = kids k s ∨ kids k s' = [])); [|by left].
  intros s' j _ _ _ Hk. destruct (forget_kids j k s') as [-> | ->]; auto.
Qed.

Lemma reaggregate_kids k key now s :
  kids k (reaggregate_parent key now s).1 = kids k s ∨ kids k (reaggregate_parent key now s).1 = [].
Proof.
  unfold reaggregate_parent. cbv zeta. destruct (dict_values _); [by left|].
  destruct (aggregate _) as [st re]. pose proof (write_parent_kids k key st re now s) as Hw.
  assert (kids k (s <| ws_children := dict_pop key (ws_children s) |>) = kids k s ∨
          kids k (s <| ws_children := dict_pop key (ws_children s) |>) = []) as Hp.
  { unfold kids. simpl. rewrite dict_get_pop. case_decide; auto. }
  destruct (_ && _); [exact Hp|]. destruct (dict_get key (ws_parents s)) as [r|].
  - destruct (bool_decide _); [by left|]. destruct (WORK_STATUS_TERMINAL _); [by left|].
    destruct (_ && _); [by left | done].
  - destruct (_ && _); [exact Hp | done].
Qed.

(** What one report does to the children of a key. *)
Lemma set_child_kids k turn wid parent worker st e re now s :
  child_args_ok turn st re →
  let key := mkKey e turn (py_or parent wid) in
  let s' := (set_child_work_status turn wid parent worker st e re now s).1 in
  let filed_kids := if decide (key = k) then dict_set wid (mkWorkStatus turn (Some wid) worker st 0 re e) (kids k s)
                    else kids k s in
  if legal_work_status_transition (wst_state <$> dict_get wid (kids key s)) st
  then kids k s' = filed_kids ∨ kids k s' = [] else s' = s.
Proof.
  intros Hok key. unfold set_child_work_status. cbv zeta. fold key.
  assert (match dict_get key (ws_children s) with Some c => dict_get wid c | None => None end
          = dict_get wid (kids key s)) as -> by (unfold kids; by destruct (dict_get key (ws_children s))).
  destruct (legal_work_status_transition _ _); [|done]. cbn [negb]. rewrite child_status_valid by done.
  match goal with |- context [reaggregate_parent key now ?s1] =>
    assert (kids k s1 = if decide (key = k) then dict_set wid (mkWorkStatus turn (Some wid) worker st 0 re e) (kids k s)
                        else kids k s) as <-; [|apply (reaggregate_kids k key now s1)] end.
  unfold kids. simpl. rewrite dict_set_setdefault, dict_get_set. case_decide; [by subst|done].
Qed.

Lemma reaggregate_returns key now s :
  key_turn_id key ≠ EmptyString → returns (reaggregate_parent key now s).2 = true.
Proof.
  intros Hk. unfold reaggregate_parent. cbv zeta. set (c := dict_values _). clearbody c. destruct c as [|x l]; [done|].
  rewrite (surjective_pairing (aggregate (x :: l))). destruct (_ && _); [done|].
  destruct (match dict_get key (ws_parents s) with Some _ => _ | None => _ end); [done|].
  destruct (match dict_get key (ws_parents s) with Some _ => _ | None => _ end); [done|].
  destruct (_ && _); [done|]. unfold write_parent. cbv zeta. by rewrite aggregate_status_valid.
Qed.

(** Well-formed arguments are never refused. *)
Lemma set_child_returns turn wid parent worker st e re now s :
  child_args_ok turn st re → returns (set_child_work_status turn wid parent worker st e re now s).2 = true.
Proof.
  intros Hok. unfold set_child_work_status. cbv zeta. destruct (negb _); [done|]. rewrite child_status_valid by done.
  apply reaggregate_returns. by destruct Hok.
Qed.

(** ** Sweeping *)

Definition sweeping (d : derived_status) : Prop :=
  (d.1 = failed ∨ d.1 = cancelled) ∧ (d.2 ≠ None → d.1 = failed).

(** A failure or a cancellation may follow any state that is not terminal. *)
Lemma sweep_legal p st :
  st = failed ∨ st = cancelled → legal_work_status_transition (Some p) st = false → WORK_STATUS_TERMINAL p = true.
Proof. by intros [-> | ->]; destruct p; vm_compute. Qed.

Lemma dict_set_elem_wf {V} k (v : V) (d : dict string V) i w :
  dict_wf d → (i, w) ∈ dict_set k v d → (i = k ∧ w = v) ∨ (i ≠ k ∧ (i, w) ∈ d).
Proof.
  intros Hwf Hin. pose proof (dict_elem_get i w _ (dict_wf_set k v d Hwf) Hin) as Hg. rewrite dict_get_set in Hg.
  case_decide; [left; by simplify_eq|]. right. split; [done|]. by apply dict_get_elem.
Qed.

Lemma emit_keeps enabled t i worker d now s :
  ledger_inv s → tg_turn_id t ≠ EmptyString → (d.2 ≠ None → d.1 = failed) →
  let '(s', r) := emit_status enabled t i worker d now s in
  r = Ret tt ∧ ledger_inv s' ∧ ws_nonauthoritative_keys s' = ws_nonauthoritative_keys s ∧
  (∀ k, closed k s → closed k s').
Proof.
  intros Hi Ht Hd. unfold emit_status. destruct enabled; [|done]. simpl.
  pose proof (set_child_step (tg_turn_id t) i (tg_parent t) worker d.1 (tg_epoch t) d.2 now s Hi (conj Ht Hd)) as H.
  destruct (set_child_work_status _ _ _ _ _ _ _ _ _) as [s' r]. destruct H as (ev & -> & ? & ? & ? & _). done.
Qed.

Lemma emit_wf_kids enabled t i worker d now s k :
  tg_turn_id t ≠ EmptyString → (d.2 ≠ None → d.1 = failed) →
  dict_wf (kids k s) → dict_wf (kids k (emit_status enabled t i worker d now s).1).
Proof.
  intros Ht Hd Hwf. unfold emit_status. destruct enabled; [|done]. simpl.
  pose proof (set_child_kids k (tg_turn_id t) i (tg_parent t) worker d.1 (tg_epoch t) d.2 now s (conj Ht Hd)) as H.
  cbv zeta in H. destruct (set_child_work_status _ _ _ _ _ _ _ _ _) as [s' r]. simpl in *.
  destruct (legal_work_status_transition _ _); [|by subst].
  destruct H as [-> | ->]; [|apply dict_wf_nil]. case_decide; [by apply dict_wf_set | done].
Qed.

Lemma emit_sweeps t i worker d now s ids :
  tg_turn_id t ≠ EmptyString → sweeping d → dict_wf (kids (target_key t i) s) →
  terminal_but (i :: ids) (target_key t i) s →
  terminal_but ids (target_key t i) (emit_status true t i worker d now s).1.
Proof.
  intros Ht [Hst Hd] Hwf Hb. unfold emit_status. simpl.
  pose proof (set_child_kids (target_key t i) (tg_turn_id t) i (tg_parent t) worker d.1 (tg_epoch t) d.2 now s (conj Ht Hd)) as H.
  cbv zeta in H. fold (target_key t i) in H. rewrite decide_True in H by done.
  destruct (set_child_work_status _ _ _ _ _ _ _ _ _) as [s' r]. simpl in *.
  assert (WORK_STATUS_TERMINAL d.1 = true) as Hterm by (by destruct Hst as [-> | ->]).
  destruct (legal_work_status_transition _ _) eqn:El.
  - intros j w Hin. destruct H as [E|E]; rewrite E in Hin; [|by apply not_elem_of_nil in Hin].
    apply dict_set_elem_wf in Hin as [[-> ->]|[Hne Hin]]; [by left| |done].
    destruct (Hb j w Hin) as [?|[?|?]%elem_of_cons]; auto.
  - subst s'. intros j w Hin. destruct (Hb j w Hin) as [?|[->|?]%elem_of_cons]; [by left| |by right]. left.
    apply (dict_elem_get i w _ Hwf) in Hin. rewrite Hin in El. by apply sweep_legal in El.
Qed.

Lemma terminalize_sweeps t children d now key s :
  ledger_inv s → tg_turn_id t ≠ EmptyString → sweeping d → dict_wf (kids key s) →
  (∀ i, i ∈ dict_keys children → target_key t i = key) → terminal_but (dict_keys children) key s →
  let '(s', r) := terminalize_children true t children d now s in
  r = Ret tt ∧ ledger_inv s' ∧ ws_nonauthoritative_keys s' = ws_nonauthoritative_keys s ∧
  terminal_but [] key s'.
Proof.
  revert s. induction children as [|[i worker] children IH]; intros s Hi Ht Hd Hwf Hk Hb; simpl; [done|].
  assert (target_key t i = key) as <- by (apply Hk; constructor).
  pose proof (emit_keeps true t i worker d now s Hi Ht (proj2 Hd)) as Hs.
  pose proof (emit_wf_kids true t i worker d now s (target_key t i) Ht (proj2 Hd) Hwf) as Hw.
  pose proof (emit_sweeps t i worker d now s (dict_keys children) Ht Hd Hwf Hb) as Hsw.
  destruct (emit_status true t i worker d now s) as [s1 r]. destruct Hs as (-> & Hi1 & Hn1 & _). simpl in Hw, Hsw.
  rewrite <- Hn1. apply IH; auto. intros j Hj. apply Hk. by constructor.
Qed.

(** All children settled settle the parent. *)
Lemma terminal_parent key s r :
  ledger_inv s → key ∉ ws_nonauthoritative_keys s → terminal_but [] key s →
  dict_get key (ws_parents s) = Some r → record_terminal r = true.
Proof.
  intros Hi Hn Hb Hr. destruct (li_record _ Hi key r Hr) as (_ & _ & _ & Ha).
  destruct (Ha Hn) as (c & Hc & _ & [E|E]); [|done]. unfold record_terminal. rewrite E.
  apply (joined_terminal (dict_values c)); [apply aggregate_joined|]. intros w Hw.
  apply list_elem_of_fmap in Hw as ([i w'] & -> & Hin).
  destruct (Hb i w') as [?|?]; [unfold kids; by rewrite Hc|done|]. by apply not_elem_of_nil in H.
Qed.

(** No stranded turn: when a turn ends by cancellation or by an exception
    and its delegated children are swept, the sweep does not raise, keeps the
    ledger's invariant, leaves every child of the turn's key terminal, and the
    parent record the client sees, if the ledger still holds one, is terminal
    too (a key restored from a snapshot is exempt: it is never terminalized by
    this process). *)
Theorem sweep_settles_turn t children d now key s :
  ledger_inv s → tg_turn_id t ≠ EmptyString → sweeping d → dict_wf (kids key s) →
  (∀ i, i ∈ dict_keys children → target_key t i = key) → terminal_but (dict_keys children) key s →
  let '(s', r) := terminalize_children true t children d now s in
  r = Ret tt ∧ ledger_inv s' ∧ terminal_but [] key s' ∧
  (key ∉ ws_nonauthoritative_keys s →
   ∀ rec, dict_get key (ws_parents s') = Some rec → record_terminal rec = true).
Proof.
  intros Hi Ht Hd Hwf Hk Hb. pose proof (terminalize_sweeps t children d now key s Hi Ht Hd Hwf Hk Hb) as H.
  destruct (terminalize_children _ _ _ _ _ _) as [s' r]. destruct H as (-> & Hi' & Hn & Hb').
  split_and!; try done. intros Hnk rec. apply terminal_parent; try done. by rewrite Hn.
Qed.
End publisher.

(** Two children of one turn are searching when the turn is cancelled. *)
#[local] Existing Instance RETENTION_FALLBACK.

Definition sweep_target : StatusTarget := mkTarget "turn-1" (Some "parent-1") (Some 1%N).
Definition sweep_kids : dict string (option string) := [("work-1", Some "w"); ("work-2", None)].
Definition sweep_key : WorkStatusKey := mkKey (Some 1%N) "turn-1" "parent-1".
Definition sweep_ops : list op :=
  [OpChild "turn-1" "work-1" (Some "parent-1") (Some "w") searching (Some 1%N) None 0;
   OpChild "turn-1" "work-2" (Some "parent-1") None routing (Some 1%N) None 0].
Definition sweep_start : SessionState := (run sweep_ops w_init).1.

Definition sweep_end : SessionState * Prelude.result unit :=
  terminalize_children true sweep_target sweep_kids (cancelled, None) 1 sweep_start.

Lemma sweep_start_inv : ledger_inv sweep_start.
Proof. apply run_ledger_inv; [apply init_inv|]. by repeat (apply Forall_cons; split). Qed.

Lemma sweep_start_open : terminal_but (dict_keys sweep_kids) sweep_key sweep_start.
Proof.
  assert (Forall (λ p, p.1 ∈ dict_keys sweep_kids) (kids sweep_key sweep_start)) as H.
  { apply (bool_decide_unpack _). vm_compute. exact I. }
  rewrite Forall_forall in H. intros i w Hin. right. exact (H _ Hin).
Qed.

Lemma sweep_start_wf : dict_wf (kids sweep_key sweep_start).
Proof. apply (bool_decide_unpack _). vm_compute. exact I. Qed.

Lemma sweep_end_cancelled :
  ((λ r, wst_state (rec_status r)) <$> dict_get sweep_key (ws_parents sweep_end.1)) = Some cancelled.
Proof. vm_compute. reflexivity. Qed.

Lemma sweep_settles_turn_witness :
  sweep_end.2 = Ret tt ∧ terminal_but [] sweep_key sweep_end.1 ∧
  ((λ r, wst_state (rec_status r)) <$> dict_get sweep_key (ws_parents sweep_end.1)) = Some cancelled.
Proof.
  assert (sweeping (cancelled, None)) as Hd by (split; [by right | by intros []]).
  assert (∀ i, i ∈ dict_keys sweep_kids → target_key sweep_target i = sweep_key) as Hk by (intros i _; reflexivity).
  assert (tg_turn_id sweep_target ≠ EmptyString) as Ht by (by intros [=]).
  pose proof (sweep_settles_turn sweep_target sweep_kids (cancelled, None) 1 sweep_key sweep_start sweep_start_inv
    Ht Hd sweep_start_wf Hk sweep_start_open) as H.
  pose proof sweep_end_cancelled as He. fold sweep_end in H. destruct sweep_end as [s' r].
  destruct H as (-> & _ & Hb & _). split; [reflexivity|]. split; [exact Hb|exact He].
Defined.
