(* ===== verification/PerfMetrics.v ===== *)
(** [server/perf_metrics.py] and [server/recorder_factory.py]: the closed metric
    registry and the recorders of a turn, its children and retained work.

    A record is its event name and fields; the text of the line it renders to
    is left out, but every check made while rendering is here.  Field values
    are Python values of the kinds the registry knows ([VFloat None] is a float
    that is not finite).  Recorders are objects shared by the turn handler and
    the turn's recorder, so a turn is modelled with the heap of its children.
    Clock readings are arguments; [sink] collects the records delivered. *)

From S2P Require Import Prelude PyDict Contracts.

(** ** The registry *)

Inductive pyval :=
| VStr (s : string)
| VInt (z : Z)
| VFloat (q : option Q)
| VBool (b : bool).

Inductive field_kind := KId | KInt | KMs | KBool | KEnum.

Record FieldSpec := mkField {
  fs_name : string;
  fs_kind : field_kind;
  fs_enum_values : list string;
  fs_minimum : Z;
  fs_maxlen : nat
}.

(** [_id], [_int], [_ms], [_bool], [_enum] *)
Definition id_n (name : string) (maxlen : nat) : FieldSpec := mkField name KId [] 0 maxlen.
Definition id_f (name : string) : FieldSpec := id_n name 128.
Definition int_n (name : string) (minimum : Z) : FieldSpec := mkField name KInt [] minimum 128.
Definition int_f (name : string) : FieldSpec := int_n name 0.
Definition ms_f (name : string) : FieldSpec := mkField name KMs [] 0 128.
Definition bool_f (name : string) : FieldSpec := mkField name KBool [] 0 128.
Definition enum_f (name : string) (values : list string) : FieldSpec := mkField name KEnum values 0 128.

Definition METRIC_KINDS : list string := ["ttfb"; "text_aggregation"; "function_calls"; "user_turn_secs"].
Definition APP_TURN_OUTCOMES : list string :=
  ["direct"; "unsupported"; "control"; "clarify"; "completed"; "mixed"; "retained"; "declined"; "failed"; "cancelled"].
Definition CONTROL_ACTIONS : list string := ["pause"; "resume"; "cancel"; "stop"; "consent"].
Definition CONTROL_OUTCOMES : list string := ["applied"; "unknown_target"; "no_active"; "no_pending"].
Definition WORK_ITEM_OUTCOMES : list string :=
  ["direct"; "unsupported"; "completed"; "retained"; "clarify"; "declined"; "failed"; "cancelled"; "missing_worker";
   "missing_search"; "capacity_rejected"; "retention_rejected"].
Definition WORK_OUTCOMES : list string := ["completed"; "failed"; "cancelled"; "invalid_result"].
Definition COMMIT_OUTCOMES : list string :=
  ["committed"; "not_applicable"; "suppressed_cancelled"; "suppressed_stale"; "suppressed_duplicate";
   "suppressed_shutdown"; "failed"].
Definition SPEECH_OUTCOMES : list string :=
  ["queued"; "no_tts"; "disconnected"; "stale_connection"; "cancelled"; "not_applicable"; "enqueue_failed";
   "start_failed"].
Definition LATE_DELIVERY_DISPOSITIONS : list string := ["autoplay"; "display_only"; "suppressed"; "not_applicable"].
Definition APP_TURN_COUNTER_FIELDS : list string :=
  ["direct_count"; "unsupported_count"; "completed_count"; "retained_count"; "clarification_count"; "declined_count";
   "failed_count"; "cancelled_count"].

Abbreviation fields := (dict string pyval) (only parsing).

Definition PerfMetricError (msg : string) : exn := ValueError msg.

(** [_validate_service_latency] *)
Definition validate_service_latency (f : fields) : result unit :=
  let kind := dict_get "metric_kind" f in
  let has_processor := dict_mem "processor" f in
  let has_function_name := dict_mem "function_name" f in
  match kind with
  | Some (VStr k) =>
      if bool_decide (k ∈ ["ttfb"; "text_aggregation"]) then
        if negb has_processor then Raise (PerfMetricError "requires 'processor'")
        else if has_function_name then Raise (PerfMetricError "must not carry 'function_name'")
        else Ret tt
      else if decide (k = "function_calls") then
        if negb has_function_name then Raise (PerfMetricError "requires 'function_name'")
        else if has_processor then Raise (PerfMetricError "must not carry 'processor'")
        else Ret tt
      else if decide (k = "user_turn_secs") then
        if has_processor || has_function_name
        then Raise (PerfMetricError "must not carry 'processor' or 'function_name'") else Ret tt
      else Ret tt
  | _ => Ret tt
  end.

(** [fields.get(name, 0)] as a number *)
Definition counted (f : fields) (name : string) : Z :=
  match dict_get name f with Some (VInt z) => z | _ => 0 end.

Definition sum_Z (l : list Z) : Z := foldr Z.add 0 l.

(** [_validate_app_turn_foreground] *)
Definition validate_app_turn_foreground (f : fields) : result unit :=
  if negb (sum_Z (counted f <$> APP_TURN_COUNTER_FIELDS) =? counted f "child_count")%Z
  then Raise (PerfMetricError "child_count does not match counter sum")
  else
    let has_control_fields := dict_mem "control_action" f || dict_mem "control_outcome" f in
    match dict_get "outcome" f with
    | Some (VStr o) =>
        if decide (o = "control") then
          if negb (dict_mem "control_action" f) || negb (dict_mem "control_outcome" f)
          then Raise (PerfMetricError "outcome=control requires control_action and control_outcome")
          else Ret tt
        else if has_control_fields
        then Raise (PerfMetricError "control_action/control_outcome only allowed with outcome=control")
        else Ret tt
    | _ =>
        if has_control_fields
        then Raise (PerfMetricError "control_action/control_outcome only allowed with outcome=control")
        else Ret tt
    end.

Record EventSpec := mkEvent {
  required : list FieldSpec;
  optional : list FieldSpec;
  validate : fields → result unit
}.

Definition no_check (f : fields) : result unit := Ret tt.

Definition EVENT_REGISTRY : dict string EventSpec :=
  let conn := [id_f "session_id"; int_f "origin_epoch"; id_f "connection_worker"] in
  [("pipeline_startup", mkEvent (conn ++ [ms_f "total_ms"]) [int_f "processor_count"] no_check);
   ("transport_ready", mkEvent (conn ++ [ms_f "client_connected_ms"]) [ms_f "bot_connected_ms"] no_check);
   ("pipecat_turn_start", mkEvent (conn ++ [int_n "pipecat_turn" 1]) [] no_check);
   ("pipecat_turn_end",
     mkEvent (conn ++ [int_n "pipecat_turn" 1; ms_f "duration_ms"; bool_f "interrupted"]) [] no_check);
   ("first_bot_speech_latency", mkEvent (conn ++ [ms_f "latency_ms"]) [] no_check);
   ("user_bot_latency", mkEvent (conn ++ [ms_f "latency_ms"]) [] no_check);
   ("service_latency",
     mkEvent (conn ++ [enum_f "metric_kind" METRIC_KINDS; ms_f "value_ms"])
       [id_f "processor"; id_f "function_name"; int_n "pipecat_turn" 1] validate_service_latency);
   ("app_turn_foreground",
     mkEvent ([id_f "session_id"; int_f "origin_epoch"; id_f "turn_id"; enum_f "outcome" APP_TURN_OUTCOMES;
               ms_f "total_ms"; int_f "child_count"] ++ (int_f <$> APP_TURN_COUNTER_FIELDS))
       [enum_f "control_action" CONTROL_ACTIONS; enum_f "control_outcome" CONTROL_OUTCOMES; ms_f "routing_ms";
        ms_f "commit_ms"; id_n "scenario" 64; bool_f "acknowledgement"] validate_app_turn_foreground);
   ("work_item_foreground",
     mkEvent [id_f "session_id"; int_f "origin_epoch"; id_f "turn_id"; id_f "work_item_id";
              enum_f "outcome" WORK_ITEM_OUTCOMES; ms_f "total_ms"]
       [id_f "app_worker_id"; id_f "result_id"; ms_f "search_ms"; ms_f "commit_ms"; int_f "query_chars";
        int_f "context_chars"; id_n "provider" 64; id_n "model" 64] no_check);
   ("work_item_background",
     mkEvent [id_f "session_id"; int_f "origin_epoch"; id_f "turn_id"; id_f "work_item_id"; id_f "app_worker_id";
              ms_f "background_ms"; enum_f "work_outcome" WORK_OUTCOMES; enum_f "commit_outcome" COMMIT_OUTCOMES;
              enum_f "speech_outcome" SPEECH_OUTCOMES]
       [id_f "result_id"; id_n "provider" 64; id_n "model" 64;
        enum_f "delivery_disposition" LATE_DELIVERY_DISPOSITIONS] no_check)].

(** [_UNSAFE_ID_CHARS]: the quote and the ASCII control characters *)
Definition unsafe_char (c : Ascii.ascii) : bool :=
  let n := Ascii.nat_of_ascii c in bool_decide (n = 34 ∨ n < 32 ∨ n = 127)%nat.

(** [len(s)]: code points, the bytes that do not continue one *)
Definition continuation (c : Ascii.ascii) : bool :=
  let n := Ascii.nat_of_ascii c in bool_decide (128 ≤ n < 192)%nat.

Definition str_len (s : string) : nat := length (filter (λ c, continuation c = false) (String.list_ascii_of_string s)).

(** [_format_value], its checks *)
Definition check_value (spec : FieldSpec) (v : pyval) : result unit :=
  match fs_kind spec, v with
  | KId, VStr s =>
      if decide (s = EmptyString) then Raise (PerfMetricError "expected a non-empty string")
      else if existsb unsafe_char (String.list_ascii_of_string s)
      then Raise (PerfMetricError "identifiers must not contain quotes or control characters")
      else if decide (fs_maxlen spec < str_len s)%nat then Raise (PerfMetricError "too many characters")
      else Ret tt
  | KId, _ => Raise (PerfMetricError "expected a non-empty string")
  | KInt, VInt z => if (z <? fs_minimum spec)%Z then Raise (PerfMetricError "below the minimum") else Ret tt
  | KInt, _ => Raise (PerfMetricError "expected an int")
  | KMs, VInt z => if (z <? 0)%Z then Raise (PerfMetricError "expected a finite non-negative duration") else Ret tt
  | KMs, VFloat (Some q) =>
      if Qltb q 0 then Raise (PerfMetricError "expected a finite non-negative duration") else Ret tt
  | KMs, VFloat None => Raise (PerfMetricError "expected a finite non-negative duration")
  | KMs, _ => Raise (PerfMetricError "expected a duration in milliseconds")
  | KBool, VBool _ => Ret tt
  | KBool, _ => Raise (PerfMetricError "expected a bool")
  | KEnum, VStr s =>
      if bool_decide (s ∈ fs_enum_values spec) then Ret tt else Raise (PerfMetricError "expected one of")
  | KEnum, _ => Raise (PerfMetricError "expected one of")
  end.

Fixpoint check_fields (specs : list FieldSpec) (f : fields) : result unit :=
  match specs with
  | [] => Ret tt
  | spec :: specs' =>
      match dict_get (fs_name spec) f with
      | None => check_fields specs' f
      | Some v => _ ←? check_value spec v ;; check_fields specs' f
      end
  end.

Record MeasurementRecord := mkMeasurement { mr_event : string; mr_fields : fields }.

(** [format_record] and [build_record] *)
Definition build_record (event : string) (f : fields) : result MeasurementRecord :=
  match dict_get event EVENT_REGISTRY with
  | None => Raise (PerfMetricError "unknown event")
  | Some spec =>
      let names := fs_name <$> (required spec ++ optional spec) in
      if existsb (λ n, negb (bool_decide (n ∈ names))) (dict_keys f)
      then Raise (PerfMetricError "unknown field(s)")
      else if existsb (λ s, negb (dict_mem (fs_name s) f)) (required spec)
      then Raise (PerfMetricError "missing required field(s)")
      else
        _ ←? validate spec f ;;
        _ ←? check_fields (required spec ++ optional spec) f ;;
        Ret (mkMeasurement event f)
  end.

(** [_safe_emit]: a record the registry refuses is dropped *)
Definition safe_emit (event : string) (f : fields) (sink : list MeasurementRecord) : list MeasurementRecord :=
  match build_record event f with Ret r => sink ++ [r] | Raise _ => sink end.

(** [fields[name] = value] when the value is not [None] *)
Definition opt_field (name : string) (v : option pyval) : fields :=
  match v with Some v => [(name, v)] | None => [] end.

(** ** A turn and its children *)

Record WorkItemRecorder := mkChild {
  ch_work_item_id : string;
  ch_start : Q;
  ch_finalized : bool
}.

#[export] Instance eta_WorkItemRecorder : Eta WorkItemRecorder := λ r,
  mkChild (ch_work_item_id r) (ch_start r) (ch_finalized r).

Record AppTurnRecorder := mkTurn {
  at_session_id : string;
  at_origin_epoch : Z;
  at_turn_id : string;
  at_start : Q;
  at_counters : dict string Z;
  at_dispatched : Z;
  at_open : dict string nat;
  at_finalized : bool;
  at_routing_ms : option Q;
  at_commit_ms : option Q;
  at_children : list WorkItemRecorder;
  at_sink : list MeasurementRecord
}.

#[export] Instance eta_AppTurnRecorder : Eta AppTurnRecorder := λ r,
  mkTurn (at_session_id r) (at_origin_epoch r) (at_turn_id r) (at_start r) (at_counters r) (at_dispatched r)
    (at_open r) (at_finalized r) (at_routing_ms r) (at_commit_ms r) (at_children r) (at_sink r).

(** The optional arguments of a child's [finalize] *)
Record ChildDetails := mkDetails {
  cd_app_worker_id : option string;
  cd_result_id : option string;
  cd_search_ms : option Q;
  cd_commit_ms : option Q;
  cd_query_chars : option Z;
  cd_context_chars : option Z;
  cd_provider : option string;
  cd_model : option string
}.

Definition no_details : ChildDetails := mkDetails None None None None None None None None.

Definition ms_val (q : Q) : pyval := VFloat (Some q).

Definition detail_fields (d : ChildDetails) : fields :=
  opt_field "app_worker_id" (VStr <$> cd_app_worker_id d) ++ opt_field "result_id" (VStr <$> cd_result_id d)
  ++ opt_field "search_ms" (ms_val <$> cd_search_ms d) ++ opt_field "commit_ms" (ms_val <$> cd_commit_ms d)
  ++ opt_field "query_chars" (VInt <$> cd_query_chars d) ++ opt_field "context_chars" (VInt <$> cd_context_chars d)
  ++ opt_field "provider" (VStr <$> cd_provider d) ++ opt_field "model" (VStr <$> cd_model d).

Definition AppTurnRecorder_init (session_id : string) (origin_epoch : Z) (turn_id : string) (now : Q)
    : AppTurnRecorder :=
  mkTurn session_id origin_epoch turn_id now ((λ k, (k, 0)) <$> APP_TURN_COUNTER_FIELDS) 0 [] false None None [] [].

(** [new_child]: the new recorder's index; a duplicate id is not tracked *)
Definition new_child (work_item_id : string) (now : Q) (t : AppTurnRecorder) : AppTurnRecorder * nat :=
  let n := length (at_children t) in
  let t := t <| at_children ::= (λ l, l ++ [mkChild work_item_id now false]) |> in
  if dict_mem work_item_id (at_open t) then (t, n)
  else (t <| at_open ::= dict_set work_item_id n |>, n).

(** [_CHILD_COUNTER_FOR_OUTCOME] *)
Definition CHILD_COUNTER_FOR_OUTCOME : dict string string :=
  [("direct", "direct_count"); ("unsupported", "unsupported_count"); ("completed", "completed_count");
   ("retained", "retained_count"); ("clarify", "clarification_count"); ("declined", "declined_count");
   ("failed", "failed_count"); ("cancelled", "cancelled_count"); ("missing_worker", "failed_count");
   ("missing_search", "failed_count"); ("capacity_rejected", "failed_count"); ("retention_rejected", "failed_count")].

(** [_PARENT_OUTCOME_FOR_COUNTER] *)
Definition PARENT_OUTCOME_FOR_COUNTER : dict string string :=
  [("direct_count", "direct"); ("unsupported_count", "unsupported"); ("completed_count", "completed");
   ("retained_count", "retained"); ("clarification_count", "clarify"); ("declined_count", "declined");
   ("failed_count", "failed"); ("cancelled_count", "cancelled")].

(** [_record_child] *)
Definition record_child (work_item_id outcome : string) (t : AppTurnRecorder) : AppTurnRecorder :=
  let counter := default "failed_count" (dict_get outcome CHILD_COUNTER_FOR_OUTCOME) in
  t <| at_open ::= dict_pop work_item_id |>
    <| at_counters := dict_set counter (default 0 (dict_get counter (at_counters t)) + 1) (at_counters t) |>
    <| at_dispatched ::= Z.succ |>.

Definition record_routing (routing_ms : Q) (t : AppTurnRecorder) : AppTurnRecorder :=
  t <| at_routing_ms := Some routing_ms |>.
Definition record_commit_ms (commit_ms : Q) (t : AppTurnRecorder) : AppTurnRecorder :=
  t <| at_commit_ms := Some commit_ms |>.

Definition elapsed_ms (start now : Q) : pyval := ms_val ((now - start) * 1000).

(** [WorkItemRecorder.finalize] *)
Definition child_finalize (n : nat) (outcome : string) (d : ChildDetails) (now : Q) (t : AppTurnRecorder)
    : AppTurnRecorder :=
  match at_children t !! n with
  | None => t
  | Some c =>
      if ch_finalized c then t
      else
        let t := t <| at_children ::= <[n := c <| ch_finalized := true |>]> |> in
        let outcome := if bool_decide (outcome ∈ WORK_ITEM_OUTCOMES) then outcome else "failed" in
        let f := [("session_id", VStr (at_session_id t)); ("origin_epoch", VInt (at_origin_epoch t));
                  ("turn_id", VStr (at_turn_id t)); ("work_item_id", VStr (ch_work_item_id c));
                  ("outcome", VStr outcome); ("total_ms", elapsed_ms (ch_start c) now)] ++ detail_fields d in
        record_child (ch_work_item_id c) outcome (t <| at_sink ::= safe_emit "work_item_foreground" f |>)
  end.

(** The sweep of children still open, over a copy of the registered ones *)
Definition sweep_children (outcome : string) (now : Q) (t : AppTurnRecorder) : AppTurnRecorder :=
  foldl (λ t n, child_finalize n outcome no_details now t) t (dict_values (at_open t)).

(** The outcome derived from the counters *)
Definition derived_outcome (counters : dict string Z) : string :=
  match filter (λ name, default 0 (dict_get name counters) ≠ 0) APP_TURN_COUNTER_FIELDS with
  | [name] => default "failed" (dict_get name PARENT_OUTCOME_FOR_COUNTER)
  | [] => "failed"
  | _ => "mixed"
  end.

(** Whether the control arguments fit the outcome *)
Definition control_consistent (outcome : string) (action control_outcome : option string) : bool :=
  let pair_present := negb (bool_decide (action = None)) && negb (bool_decide (control_outcome = None)) in
  let pair_absent := bool_decide (action = None) && bool_decide (control_outcome = None) in
  bool_decide (outcome ∈ APP_TURN_OUTCOMES)
  && (match action with None => true | Some a => bool_decide (a ∈ CONTROL_ACTIONS) end
      && match control_outcome with None => true | Some c => bool_decide (c ∈ CONTROL_OUTCOMES) end)
  && (pair_present || pair_absent)
  && Bool.eqb (bool_decide (outcome = "control")) pair_present.

(** [AppTurnRecorder.finalize] *)
Definition turn_finalize (outcome action control_outcome scenario : option string) (ack : option bool) (now : Q)
    (t : AppTurnRecorder) : AppTurnRecorder :=
  if at_finalized t then t
  else
    let t := t <| at_finalized := true |> in
    let t := sweep_children (if decide (outcome = Some "cancelled") then "cancelled" else "failed") now t in
    let out := default (derived_outcome (at_counters t)) outcome in
    let consistent := control_consistent out action control_outcome in
    let out := if consistent then out else "failed" in
    let action := if consistent then action else None in
    let control_outcome := if consistent then control_outcome else None in
    let f := [("session_id", VStr (at_session_id t)); ("origin_epoch", VInt (at_origin_epoch t));
              ("turn_id", VStr (at_turn_id t)); ("outcome", VStr out); ("total_ms", elapsed_ms (at_start t) now);
              ("child_count", VInt (at_dispatched t))]
             ++ ((λ '(k, z), (k, VInt z)) <$> at_counters t)
             ++ opt_field "control_action" (VStr <$> action) ++ opt_field "control_outcome" (VStr <$> control_outcome)
             ++ opt_field "routing_ms" (ms_val <$> at_routing_ms t) ++ opt_field "commit_ms" (ms_val <$> at_commit_ms t)
             ++ opt_field "scenario" (VStr <$> scenario) ++ opt_field "acknowledgement" (VBool <$> ack) in
    t <| at_sink ::= safe_emit "app_turn_foreground" f |>.

(** ** Retained work *)

Inductive retained_state := pending | claimed | commit_recorded | speech_recorded | finalized.

#[global] Instance retained_state_eq_dec : EqDecision retained_state.
Proof. solve_decision. Defined.

Record RetainedRecorder := mkRetained {
  rr_session_id : string;
  rr_origin_epoch : Z;
  rr_turn_id : string;
  rr_work_item_id : string;
  rr_app_worker_id : string;
  rr_start : Q;
  rr_state : retained_state;
  rr_work_outcome : option string;
  rr_commit_outcome : option string;
  rr_speech_outcome : option string;
  rr_result_id : option string
}.

#[export] Instance eta_RetainedRecorder : Eta RetainedRecorder := λ r,
  mkRetained (rr_session_id r) (rr_origin_epoch r) (rr_turn_id r) (rr_work_item_id r) (rr_app_worker_id r)
    (rr_start r) (rr_state r) (rr_work_outcome r) (rr_commit_outcome r) (rr_speech_outcome r) (rr_result_id r).

Definition RetainedRecorder_init (session_id : string) (origin_epoch : Z) (turn_id work_item_id worker_id : string)
    (now : Q) : RetainedRecorder :=
  mkRetained session_id origin_epoch turn_id work_item_id worker_id now pending None None None None.

Definition claim (terminal_kind : string) (r : RetainedRecorder) : RetainedRecorder * bool :=
  if decide (rr_state r = pending)
  then (r <| rr_work_outcome := Some terminal_kind |> <| rr_state := claimed |>, true) else (r, false).

(** [x or default] for an optional string *)
Definition or_else (o : option string) (d : string) : string := if truthy o then default d o else d.

Definition set_some (new old : option string) : option string := match new with Some _ => new | None => old end.

Definition record_commit (outcome : string) (result_id : option string) (r : RetainedRecorder)
    : RetainedRecorder * bool :=
  if decide (rr_state r = finalized) then (r, false)
  else
    let r := r <| rr_commit_outcome := Some outcome |> <| rr_result_id := set_some result_id (rr_result_id r) |> in
    (if decide (rr_state r = claimed) then r <| rr_state := commit_recorded |> else r, true).

Definition record_speech (outcome : string) (r : RetainedRecorder) : RetainedRecorder * bool :=
  if decide (rr_state r = finalized) then (r, false)
  else
    let r := r <| rr_speech_outcome := Some outcome |> in
    (if decide (rr_state r = commit_recorded) then r <| rr_state := speech_recorded |> else r, true).

(** The outcomes and details passed to [RetainedRecorder.finalize] *)
Record RetainedEnd := mkRetainedEnd {
  re_work_outcome : option string;
  re_commit_outcome : option string;
  re_speech_outcome : option string;
  re_result_id : option string;
  re_provider : option string;
  re_model : option string;
  re_disposition : option string
}.

Definition no_end : RetainedEnd := mkRetainedEnd None None None None None None None.

Definition retained_finalize (e : RetainedEnd) (now : Q) (r : RetainedRecorder) (sink : list MeasurementRecord)
    : RetainedRecorder * list MeasurementRecord * bool :=
  if decide (rr_state r = finalized) then (r, sink, false)
  else
    let work := or_else (set_some (re_work_outcome e) (rr_work_outcome r)) "cancelled" in
    let commit := or_else (set_some (re_commit_outcome e) (rr_commit_outcome r)) "suppressed_shutdown" in
    let speech := or_else (set_some (re_speech_outcome e) (rr_speech_outcome r)) "cancelled" in
    let result_id := set_some (re_result_id e) (rr_result_id r) in
    let r := r <| rr_work_outcome := Some work |> <| rr_commit_outcome := Some commit |>
               <| rr_speech_outcome := Some speech |> <| rr_result_id := result_id |>
               <| rr_state := finalized |> in
    let f := [("session_id", VStr (rr_session_id r)); ("origin_epoch", VInt (rr_origin_epoch r));
              ("turn_id", VStr (rr_turn_id r)); ("work_item_id", VStr (rr_work_item_id r));
              ("app_worker_id", VStr (rr_app_worker_id r)); ("background_ms", elapsed_ms (rr_start r) now);
              ("work_outcome", VStr work); ("commit_outcome", VStr commit); ("speech_outcome", VStr speech)]
             ++ opt_field "result_id" (VStr <$> result_id) ++ opt_field "provider" (VStr <$> re_provider e)
             ++ opt_field "model" (VStr <$> re_model e) ++ opt_field "delivery_disposition" (VStr <$> re_disposition e) in
    (r, safe_emit "work_item_background" f sink, true).

(** ** RecorderFactory: the registered recorders by work item *)

Definition register_if_open (work_item_id : string) (r : RetainedRecorder) (d : dict string RetainedRecorder)
    : dict string RetainedRecorder :=
  if decide (rr_state r = finalized) then d else dict_set work_item_id r d.

Definition recorder_pop (work_item_id : string) (d : dict string RetainedRecorder)
    : dict string RetainedRecorder * option RetainedRecorder :=
  (dict_pop work_item_id d, dict_get work_item_id d).

Fixpoint finalize_all (now : Q) (d : dict string RetainedRecorder) (sink : list MeasurementRecord)
    : list MeasurementRecord :=
  match d with
  | [] => sink
  | (_, r) :: d' => finalize_all now d' (retained_finalize no_end now r sink).1.2
  end.

(** ** The handlers of the framework's observers

    A duration in seconds is a float, [None] one that is not finite. *)

Record PerfConnectionContext := mkContext { pc_session_id : string; pc_origin_epoch : Z; pc_connection_worker : string }.

Definition base_fields (c : PerfConnectionContext) : fields :=
  [("session_id", VStr (pc_session_id c)); ("origin_epoch", VInt (pc_origin_epoch c));
   ("connection_worker", VStr (pc_connection_worker c))].

Definition millis (seconds : option Q) : option Q := (λ q, q * 1000)%Q <$> seconds.

Definition on_startup_timing_report (c : PerfConnectionContext) (total_duration_secs : option Q) (processor_timings : nat)
    (sink : list MeasurementRecord) : list MeasurementRecord :=
  safe_emit "pipeline_startup"
    (base_fields c ++ [("total_ms", VFloat (millis total_duration_secs)); ("processor_count", VInt (Z.of_nat processor_timings))]) sink.

Definition on_transport_timing_report (c : PerfConnectionContext) (client_connected_secs : option Q)
    (bot_connected_secs : option (option Q)) (sink : list MeasurementRecord) : list MeasurementRecord :=
  safe_emit "transport_ready"
    (base_fields c ++ [("client_connected_ms", VFloat (millis client_connected_secs))]
     ++ opt_field "bot_connected_ms" (VFloat ∘ millis <$> bot_connected_secs)) sink.

Definition on_first_bot_speech_latency (c : PerfConnectionContext) (latency_seconds : option Q)
    (sink : list MeasurementRecord) : list MeasurementRecord :=
  safe_emit "first_bot_speech_latency" (base_fields c ++ [("latency_ms", VFloat (millis latency_seconds))]) sink.

Definition on_latency_measured (c : PerfConnectionContext) (latency_seconds : option Q)
    (sink : list MeasurementRecord) : list MeasurementRecord :=
  safe_emit "user_bot_latency" (base_fields c ++ [("latency_ms", VFloat (millis latency_seconds))]) sink.

(** A measurement of a breakdown with the processor or the function it is about *)
Record Breakdown := mkBreakdown {
  bd_ttfb : list (option Q * string);
  bd_text_aggregation : option (option Q * string);
  bd_function_calls : list (option Q * string);
  bd_user_turn_secs : option (option Q)
}.

Definition service_latency (c : PerfConnectionContext) (kind : string) (seconds : option Q) (about : fields)
    (sink : list MeasurementRecord) : list MeasurementRecord :=
  safe_emit "service_latency"
    (base_fields c ++ [("metric_kind", VStr kind); ("value_ms", VFloat (millis seconds))] ++ about) sink.

Definition on_latency_breakdown (c : PerfConnectionContext) (b : Breakdown) (sink : list MeasurementRecord) : list MeasurementRecord :=
  let sink := foldl (λ sink m, service_latency c "ttfb" m.1 [("processor", VStr m.2)] sink) sink (bd_ttfb b) in
  let sink := match bd_text_aggregation b with
              | Some m => service_latency c "text_aggregation" m.1 [("processor", VStr m.2)] sink
              | None => sink
              end in
  let sink := foldl (λ sink m, service_latency c "function_calls" m.1 [("function_name", VStr m.2)] sink) sink (bd_function_calls b) in
  match bd_user_turn_secs b with Some s => service_latency c "user_turn_secs" s [] sink | None => sink end.

Definition on_turn_started (c : PerfConnectionContext) (turn_count : Z) (sink : list MeasurementRecord) : list MeasurementRecord :=
  safe_emit "pipecat_turn_start" (base_fields c ++ [("pipecat_turn", VInt turn_count)]) sink.

Definition on_turn_ended (c : PerfConnectionContext) (turn_count : Z) (duration_secs : option Q) (was_interrupted : bool)
    (sink : list MeasurementRecord) : list MeasurementRecord :=
  let duration_ms := match millis duration_secs with
                     | Some ms => if Qltb ms 0 then 0%Q else ms
                     | None => 0%Q
                     end in
  safe_emit "pipecat_turn_end"
    (base_fields c ++ [("pipecat_turn", VInt turn_count); ("duration_ms", VFloat (Some duration_ms)); ("interrupted", VBool was_interrupted)]) sink.
