(* ===== verification/PerfMetricsFacts.v ===== *)
(** Facts about the metric recorders: what a recorder emits always passes the
    registry, each child and each turn is recorded exactly once, and the turn's
    counters account for its children. *)

From S2P Require Import Prelude PyDict Contracts PerfMetrics.

(** ** Records that pass the registry *)

Definition field_ok (specs : list FieldSpec) (p : string * pyval) : bool :=
  existsb (λ sp, bool_decide (fs_name sp = p.1) && returns (check_value sp p.2)) specs.

Lemma returns_unit (r : result unit) : returns r = true → r = Ret tt.
Proof. by destruct r as [[]|]. Qed.

Lemma check_fields_ok specs all f :
  NoDup (fs_name <$> all) → specs ⊆ all → Forall (λ p, field_ok all p = true) f → check_fields specs f = Ret tt.
Proof.
  intros Hnd Hsub Hf. induction specs as [|sp specs IH]; simpl; [done|].
  assert (specs ⊆ all) as Hsub' by set_solver. destruct (dict_get (fs_name sp) f) as [v|] eqn:E; [|by apply IH].
  apply dict_get_elem in E. rewrite Forall_forall in Hf. apply Hf in E. unfold field_ok in E.
  apply existsb_exists in E as (sp' & Hin & Hsp). apply andb_true_iff in Hsp as [Hn Hc].
  apply bool_decide_eq_true in Hn. simpl in Hn, Hc. apply list_elem_of_In in Hin.
  assert (sp' = sp) as ->; [|rewrite (returns_unit _ Hc); by apply IH].
  apply list_elem_of_lookup in Hin as [i Hi]. assert (sp ∈ all) as Hs by set_solver.
  apply list_elem_of_lookup in Hs as [j Hj].
  assert (i = j) as ->; [|congruence]. apply (NoDup_lookup _ _ _ (fs_name sp) Hnd).
  - rewrite list_lookup_fmap, Hi. simpl. by rewrite Hn.
  - by rewrite list_lookup_fmap, Hj.
Qed.

Lemma build_record_ok event spec f :
  dict_get event EVENT_REGISTRY = Some spec → NoDup (fs_name <$> (required spec ++ optional spec)) →
  Forall (λ p, field_ok (required spec ++ optional spec) p = true) f →
  Forall (λ sp, dict_mem (fs_name sp) f = true) (required spec) → validate spec f = Ret tt →
  build_record event f = Ret (mkMeasurement event f).
Proof.
  intros He Hnd Hf Hr Hv. unfold build_record. rewrite He.
  replace (existsb _ (dict_keys f)) with false; [|symmetry].
  2: { apply not_true_iff_false. intros (n & Hn & Hb)%existsb_exists. apply list_elem_of_In in Hn.
       apply negb_true_iff, bool_decide_eq_false in Hb. apply Hb.
       unfold dict_keys in Hn. apply list_elem_of_fmap in Hn as (p & -> & Hp). rewrite Forall_forall in Hf.
       apply Hf in Hp. apply existsb_exists in Hp as (sp & Hin & Hsp). apply andb_true_iff in Hsp as [Hn _].
       apply bool_decide_eq_true in Hn. rewrite <- Hn. apply list_elem_of_fmap. exists sp. by rewrite list_elem_of_In. }
  replace (existsb _ (required spec)) with false; [|symmetry].
  2: { apply not_true_iff_false. intros (sp & Hn & Hb)%existsb_exists. apply list_elem_of_In in Hn.
       rewrite Forall_forall in Hr. apply Hr in Hn. by rewrite Hn in Hb. }
  rewrite Hv. simpl. by rewrite (check_fields_ok _ (required spec ++ optional spec) f Hnd).
Qed.

(** An identifier the registry accepts *)
Definition id_valid (maxlen : nat) (s : string) : bool := returns (check_value (id_n EmptyString maxlen) (VStr s)).

Lemma check_id name n s : returns (check_value (id_n name n) (VStr s)) = id_valid n s.
Proof. done. Qed.

Definition spec_of (event : string) : EventSpec := default (mkEvent [] [] no_check) (dict_get event EVENT_REGISTRY).
Definition specs_of (event : string) : list FieldSpec := required (spec_of event) ++ optional (spec_of event).

Lemma specs_nodup event : event ∈ dict_keys EVENT_REGISTRY → NoDup (fs_name <$> specs_of event).
Proof.
  intros He. apply (bool_decide_unpack _). apply list_elem_of_In in He. simpl in He.
  repeat (destruct He as [<-|He]; [vm_compute; reflexivity|]). done.
Qed.

Lemma field_ok_at specs i sp v :
  specs !! i = Some sp → returns (check_value sp v) = true → field_ok specs (fs_name sp, v) = true.
Proof.
  intros Hi Hc. unfold field_ok. apply existsb_exists. exists sp. split; [apply list_elem_of_In, list_elem_of_lookup; eauto|].
  simpl. by rewrite bool_decide_eq_true_2, Hc.
Qed.

Lemma check_int name z m : (m ≤ z)%Z → returns (check_value (int_n name m) (VInt z)) = true.
Proof. intros H. unfold check_value, int_n. cbn [fs_kind fs_minimum]. by rewrite (proj2 (Z.ltb_ge z m) H). Qed.

Lemma check_enum name l s : s ∈ l → returns (check_value (enum_f name l) (VStr s)) = true.
Proof. intros H. unfold check_value, enum_f. cbn [fs_kind fs_enum_values]. by rewrite bool_decide_eq_true_2. Qed.

Lemma Forall_opt_field (P : string * pyval → Prop) name v :
  (∀ x, v = Some x → P (name, x)) → Forall P (opt_field name v).
Proof. intros H. destruct v as [x|]; simpl; [|done]. repeat constructor. by apply H. Qed.

Lemma elapsed_ok start now name :
  (start <= now)%Q → returns (check_value (ms_f name) (elapsed_ms start now)) = true.
Proof.
  intros H. unfold check_value, ms_f, elapsed_ms, ms_val. simpl. rewrite (proj2 (Qltb_ge _ _)); [done|].
  assert (0 <= now - start)%Q by lra. nra.
Qed.

(** ** Children *)

(** What a child is recorded with *)
Definition details_ok (d : ChildDetails) : Prop :=
  Forall (λ p, field_ok (specs_of "work_item_foreground") p = true) (detail_fields d).

Lemma no_details_ok : details_ok no_details.
Proof. constructor. Qed.

Definition turn_ids_ok (t : AppTurnRecorder) : Prop :=
  id_valid 128 (at_session_id t) = true ∧ id_valid 128 (at_turn_id t) = true ∧ (0 ≤ at_origin_epoch t)%Z.

Lemma child_record_ok session epoch turn item outcome start now d :
  id_valid 128 session = true → (0 ≤ epoch)%Z → id_valid 128 turn = true → id_valid 128 item = true →
  outcome ∈ WORK_ITEM_OUTCOMES → (start <= now)%Q → details_ok d →
  let f := [("session_id", VStr session); ("origin_epoch", VInt epoch); ("turn_id", VStr turn);
            ("work_item_id", VStr item); ("outcome", VStr outcome); ("total_ms", elapsed_ms start now)]
           ++ detail_fields d in
  build_record "work_item_foreground" f = Ret (mkMeasurement "work_item_foreground" f).
Proof.
  intros Hs He Ht Hi Ho Hq Hd f. apply (build_record_ok _ (spec_of "work_item_foreground")); [done| | | |done].
  - apply (specs_nodup "work_item_foreground"). by apply (bool_decide_unpack _).
  - unfold f. apply Forall_app. split; [|exact Hd].
    repeat (apply Forall_cons; split); [..|constructor].
    + by apply (field_ok_at _ 0 (id_f "session_id")).
    + by apply (field_ok_at _ 1 (int_f "origin_epoch")), check_int.
    + by apply (field_ok_at _ 2 (id_f "turn_id")).
    + by apply (field_ok_at _ 3 (id_f "work_item_id")).
    + by apply (field_ok_at _ 4 (enum_f "outcome" WORK_ITEM_OUTCOMES)), check_enum.
    + by apply (field_ok_at _ 5 (ms_f "total_ms")), elapsed_ok.
  - repeat constructor.
Qed.

(** ** The accounting invariant *)

Definition done_count (t : AppTurnRecorder) : nat :=
  length (filter (λ c, ch_finalized c = true) (at_children t)).

Definition event_count (event : string) (sink : list MeasurementRecord) : nat :=
  length (filter (λ r, mr_event r = event) sink).

Lemma event_count_snoc event r sink :
  event_count event (sink ++ [r]) = (event_count event sink + if decide (mr_event r = event) then 1 else 0)%nat.
Proof.
  unfold event_count. rewrite filter_app, length_app, filter_cons. case_decide; simpl; lia.
Qed.

Lemma sum_Z_app l1 l2 : sum_Z (l1 ++ l2) = (sum_Z l1 + sum_Z l2)%Z.
Proof. induction l1 as [|z l1 IH]; simpl; [done|]. rewrite IH. lia. Qed.

Lemma sum_bump k (d : dict string Z) :
  k ∈ dict_keys d → sum_Z (dict_values (dict_set k (default 0 (dict_get k d) + 1) d)) = (sum_Z (dict_values d) + 1)%Z.
Proof.
  unfold dict_keys, dict_values. induction d as [|[j z] d IH]; csimpl; [by intros ?%not_elem_of_nil|].
  intros Hin. case_decide; subst; csimpl; [lia|]. apply elem_of_cons in Hin as [?|Hin]; [done|]. rewrite (IH Hin). lia.
Qed.

Lemma dict_keys_bump k v (d : dict string Z) : k ∈ dict_keys d → dict_keys (dict_set k v d) = dict_keys d.
Proof. intros H. rewrite dict_keys_set. by rewrite decide_True. Qed.

Lemma count_finalize (l : list WorkItemRecorder) n c c' :
  l !! n = Some c → ch_finalized c = false → ch_finalized c' = true →
  length (filter (λ c, ch_finalized c = true) (<[n := c']> l)) =
    S (length (filter (λ c, ch_finalized c = true) l)).
Proof.
  revert n. induction l as [|x l IH]; intros [|n] Hn Hc Hc'; simplify_eq/=; rewrite !filter_cons; simpl.
  - rewrite Hc'. rewrite decide_True by done. rewrite Hc. by rewrite decide_False.
  - case_decide; simpl; by rewrite (IH n Hn Hc Hc').
Qed.

Lemma counter_known outcome :
  default "failed_count" (dict_get outcome CHILD_COUNTER_FOR_OUTCOME) ∈ APP_TURN_COUNTER_FIELDS.
Proof.
  destruct (dict_get outcome CHILD_COUNTER_FOR_OUTCOME) as [c|] eqn:E; [|by apply (bool_decide_unpack _)].
  apply dict_get_elem, list_elem_of_In in E. simpl in E.
  repeat (destruct E as [E|E]; [injection E as <- <-; by apply (bool_decide_unpack _)|]). done.
Qed.

Record turn_inv (now : Q) (t : AppTurnRecorder) : Prop := {
  ti_ids : turn_ids_ok t;
  ti_keys : dict_keys (at_counters t) = APP_TURN_COUNTER_FIELDS;
  ti_nonneg : Forall (λ p, 0 ≤ p.2)%Z (at_counters t);
  ti_sum : sum_Z (dict_values (at_counters t)) = at_dispatched t;
  ti_done : at_dispatched t = Z.of_nat (done_count t);
  ti_children : Forall (λ c, id_valid 128 (ch_work_item_id c) = true ∧ (ch_start c <= now)%Q) (at_children t);
  ti_start : (at_start t <= now)%Q;
  ti_ms : ∀ q, at_routing_ms t = Some q ∨ at_commit_ms t = Some q → (0 <= q)%Q;
  ti_open : ∀ id n, dict_get id (at_open t) = Some n →
    ∃ c, at_children t !! n = Some c ∧ ch_work_item_id c = id ∧ ch_finalized c = false;
  ti_tracked : NoDup (ch_work_item_id <$> at_children t) → ∀ n c, at_children t !! n = Some c →
    ch_finalized c = false → dict_get (ch_work_item_id c) (at_open t) = Some n;
  ti_items : event_count "work_item_foreground" (at_sink t) = done_count t
}.

(** The turn's own record: none before it is finalized, one after. *)
Definition turn_records (t : AppTurnRecorder) : nat := event_count "app_turn_foreground" (at_sink t).
Definition recorded_once (t : AppTurnRecorder) : Prop := turn_records t = if at_finalized t then 1%nat else 0%nat.

(** The ids of the children stay what they are. *)
Lemma finalize_ids n c c' (l : list WorkItemRecorder) :
  l !! n = Some c → ch_work_item_id c' = ch_work_item_id c →
  ch_work_item_id <$> <[n := c']> l = ch_work_item_id <$> l.
Proof.
  intros H E. rewrite list_fmap_insert, E. apply list_insert_id. by rewrite list_lookup_fmap, H.
Qed.

Lemma child_finalize_inv n outcome d now t :
  turn_inv now t → details_ok d → turn_inv now (child_finalize n outcome d now t).
Proof.
  intros Hi Hd. unfold child_finalize. destruct (at_children t !! n) as [c|] eqn:Hc; [|done].
  destruct (ch_finalized c) eqn:Hf; [done|].
  set (out := if bool_decide (outcome ∈ WORK_ITEM_OUTCOMES) then outcome else "failed").
  assert (out ∈ WORK_ITEM_OUTCOMES) as Hout.
  { unfold out. case_bool_decide; [done|]. by apply (bool_decide_unpack _). }
  destruct Hi as [[Hs [Ht He]] Hk Hn Hsum Hdn Hch Hst Hms Hop Htr Hit].
  pose proof Hch as Hch0. rewrite Forall_lookup in Hch0. destruct (Hch0 n c Hc) as [Hid Hcs].
  unfold record_child, safe_emit. cbn [at_session_id at_origin_epoch at_turn_id setter eta].
  rewrite (child_record_ok _ _ _ _ _ _ _ _ Hs He Ht Hid Hout Hcs Hd).
  pose proof (counter_known out) as Hck. rewrite <- Hk in Hck.
  split; simpl; try done.
  - by rewrite dict_keys_bump.
  - apply Forall_forall. intros p [->|Hp]%dict_set_elem; rewrite Forall_forall in Hn; [|auto]. simpl.
    destruct (dict_get _ (at_counters t)) as [z|] eqn:Ez; simpl; [|lia]. apply dict_get_elem, Hn in Ez. simpl in Ez. lia.
  - rewrite sum_bump by done. lia.
  - unfold done_count. simpl. rewrite (count_finalize _ n c) by done. unfold done_count in Hdn. lia.
  - by apply Forall_insert.
  - intros id m Hg. rewrite dict_get_pop in Hg. case_decide as Hne; [done|].
    destruct (Hop id m Hg) as (c' & Hc' & Hid' & Hf'). exists c'. rewrite list_lookup_insert_ne; [done|].
    intros ->. congruence.
  - rewrite (finalize_ids n c) by done. intros Hnd m c' Hm Hf'.
    destruct (decide (n = m)) as [->|Hnm].
    + rewrite list_lookup_insert_eq in Hm by (by eapply lookup_lt_Some). by simplify_eq.
    + rewrite list_lookup_insert_ne in Hm by done. rewrite dict_get_pop_ne; [by apply Htr|].
      intros Hids. apply Hnm. eapply (NoDup_lookup _ _ _ _ Hnd); rewrite list_lookup_fmap; [by rewrite Hc|].
      rewrite Hm. simpl. by rewrite Hids.
  - rewrite event_count_snoc. simpl. unfold done_count in *. simpl. rewrite (count_finalize _ n c) by done. lia.
Qed.

Lemma event_count_other event event' f sink :
  event ≠ event' → event_count event' (safe_emit event f sink) = event_count event' sink.
Proof.
  intros Hne. unfold safe_emit. destruct (build_record event f) as [r|] eqn:E; [|done].
  assert (mr_event r = event) as Hr.
  { revert E. unfold build_record. destruct (dict_get event EVENT_REGISTRY) as [sp|]; [|done].
    destruct (existsb _ _); [done|]. destruct (existsb _ _); [done|]. destruct (validate sp f); [|done]. simpl.
    destruct (check_fields _ f); [|done]. by intros [= <-]. }
  rewrite event_count_snoc, decide_False by congruence. lia.
Qed.

Lemma child_finalize_turns n outcome d now t :
  turn_records (child_finalize n outcome d now t) = turn_records t ∧
  at_finalized (child_finalize n outcome d now t) = at_finalized t.
Proof.
  unfold child_finalize. destruct (at_children t !! n) as [c|]; [|done]. destruct (ch_finalized c); [done|].
  split; [|done]. unfold turn_records, record_child. cbn [at_sink setter eta]. by apply event_count_other.
Qed.

(** ** The turn's record *)

Lemma counters_shape (d : dict string Z) :
  dict_keys d = APP_TURN_COUNTER_FIELDS →
  ∃ z1 z2 z3 z4 z5 z6 z7 z8,
    d = [("direct_count", z1); ("unsupported_count", z2); ("completed_count", z3); ("retained_count", z4);
         ("clarification_count", z5); ("declined_count", z6); ("failed_count", z7); ("cancelled_count", z8)].
Proof.
  unfold APP_TURN_COUNTER_FIELDS. intros H.
  do 8 (destruct d as [|[? ?] d]; [done|]). destruct d; [|done]. simpl in H. simplify_eq. by repeat eexists.
Qed.

(** Control fields that fit the outcome *)
Definition control_fits (out : string) (action co : option string) : Prop :=
  out ∈ APP_TURN_OUTCOMES ∧
  ((out = "control" ∧ ∃ a c, action = Some a ∧ co = Some c ∧ a ∈ CONTROL_ACTIONS ∧ c ∈ CONTROL_OUTCOMES) ∨
   (out ≠ "control" ∧ action = None ∧ co = None)).

Lemma control_consistent_fits out action co : control_consistent out action co = true → control_fits out action co.
Proof.
  unfold control_consistent. rewrite !andb_true_iff. intros [[[Ho [Ha Hc]] Hp] He].
  apply bool_decide_eq_true in Ho. split; [done|]. apply Bool.eqb_prop in He.
  destruct action as [a|], co as [c|]; simpl in *; try done.
  - left. apply bool_decide_eq_true in He, Ha, Hc. split; [done|]. by exists a, c.
  - right. by apply bool_decide_eq_false in He.
Qed.

Definition turn_fields (session : string) (epoch : Z) (turn out : string) (total : pyval) (n : Z)
    (counters : dict string Z) (action co : option string) (routing commit : option Q) (scenario : option string)
    (ack : option bool) : fields :=
  [("session_id", VStr session); ("origin_epoch", VInt epoch); ("turn_id", VStr turn); ("outcome", VStr out);
   ("total_ms", total); ("child_count", VInt n)]
  ++ ((λ '(k, z), (k, VInt z)) <$> counters)
  ++ opt_field "control_action" (VStr <$> action) ++ opt_field "control_outcome" (VStr <$> co)
  ++ opt_field "routing_ms" (ms_val <$> routing) ++ opt_field "commit_ms" (ms_val <$> commit)
  ++ opt_field "scenario" (VStr <$> scenario) ++ opt_field "acknowledgement" (VBool <$> ack).

Lemma check_ms name q : (0 <= q)%Q → returns (check_value (ms_f name) (ms_val q)) = true.
Proof. intros H. unfold check_value, ms_f, ms_val. cbn [fs_kind]. by rewrite (proj2 (Qltb_ge _ _)). Qed.

(** The counters and the control fields pass [_validate_app_turn_foreground]. *)
Lemma turn_fields_validate session epoch turn out total n counters action co routing commit scenario ack :
  dict_keys counters = APP_TURN_COUNTER_FIELDS → sum_Z (dict_values counters) = n → control_fits out action co →
  validate_app_turn_foreground
    (turn_fields session epoch turn out total n counters action co routing commit scenario ack) = Ret tt.
Proof.
  intros Hk Hsum [_ Hctl]. apply counters_shape in Hk as (z1 & z2 & z3 & z4 & z5 & z6 & z7 & z8 & ->).
  set (f := turn_fields _ _ _ _ _ _ _ _ _ _ _ _ _). unfold validate_app_turn_foreground.
  assert (counted f <$> APP_TURN_COUNTER_FIELDS = [z1; z2; z3; z4; z5; z6; z7; z8]) as -> by reflexivity.
  assert (counted f "child_count" = n) as -> by reflexivity.
  assert (dict_get "outcome" f = Some (VStr out)) as -> by reflexivity.
  change (sum_Z [z1; z2; z3; z4; z5; z6; z7; z8]) with
    (sum_Z (dict_values [("direct_count", z1); ("unsupported_count", z2); ("completed_count", z3); ("retained_count", z4);
       ("clarification_count", z5); ("declined_count", z6); ("failed_count", z7); ("cancelled_count", z8)])).
  rewrite Hsum, Z.eqb_refl. cbn [negb].
  destruct Hctl as [(-> & a & c & -> & -> & _)|(Hne & -> & ->)]; [done|]. rewrite decide_False by done.
  assert (dict_mem "control_action" f = false ∧ dict_mem "control_outcome" f = false) as [-> ->]; [|done].
  unfold f. by destruct routing, commit, scenario, ack.
Qed.

Lemma field_ok_elem specs sp v :
  sp ∈ specs → returns (check_value sp v) = true → field_ok specs (fs_name sp, v) = true.
Proof. intros [i Hi]%list_elem_of_lookup. by apply (field_ok_at _ i). Qed.

Lemma turn_record_ok session epoch turn out start now n counters action co routing commit scenario ack :
  id_valid 128 session = true → (0 ≤ epoch)%Z → id_valid 128 turn = true → (start <= now)%Q →
  dict_keys counters = APP_TURN_COUNTER_FIELDS → Forall (λ p, 0 ≤ p.2)%Z counters →
  sum_Z (dict_values counters) = n → (0 ≤ n)%Z → control_fits out action co →
  (∀ q, routing = Some q ∨ commit = Some q → (0 <= q)%Q) → (∀ s, scenario = Some s → id_valid 64 s = true) →
  let f := turn_fields session epoch turn out (elapsed_ms start now) n counters action co routing commit scenario ack in
  build_record "app_turn_foreground" f = Ret (mkMeasurement "app_turn_foreground" f).
Proof.
  intros Hs He Ht Hq Hk Hnn Hsum Hn Hfits Hms Hsc f.
  apply (build_record_ok _ (spec_of "app_turn_foreground")); [done| | | |by apply turn_fields_validate].
  - apply (specs_nodup "app_turn_foreground"). by apply (bool_decide_unpack _).
  - destruct Hfits as [Hout Hctl]. unfold f, turn_fields. repeat (apply Forall_app; split);
      [repeat (apply Forall_cons; split); [..|constructor] | | apply Forall_opt_field; intros x Hx..].
    + by apply (field_ok_at _ 0 (id_f "session_id")).
    + by apply (field_ok_at _ 1 (int_f "origin_epoch")), check_int.
    + by apply (field_ok_at _ 2 (id_f "turn_id")).
    + by apply (field_ok_at _ 3 (enum_f "outcome" APP_TURN_OUTCOMES)), check_enum.
    + by apply (field_ok_at _ 4 (ms_f "total_ms")), elapsed_ok.
    + by apply (field_ok_at _ 5 (int_f "child_count")), check_int.
    + apply Forall_fmap, Forall_forall. intros [k z] Hin. rewrite Forall_forall in Hnn. specialize (Hnn _ Hin).
      apply (field_ok_elem _ (int_f k)); [|by apply check_int]. apply elem_of_app. left. apply elem_of_app. right.
      apply list_elem_of_fmap. exists k. split; [done|]. rewrite <- Hk. apply list_elem_of_fmap. by exists (k, z).
    + destruct Hctl as [(_ & a & c & -> & -> & Ha & Hc)|(_ & -> & ->)]; [|done]. injection Hx as <-.
      by apply (field_ok_at _ 14 (enum_f "control_action" CONTROL_ACTIONS)), check_enum.
    + destruct Hctl as [(_ & a & c & -> & -> & Ha & Hc)|(_ & -> & ->)]; [|done]. injection Hx as <-.
      by apply (field_ok_at _ 15 (enum_f "control_outcome" CONTROL_OUTCOMES)), check_enum.
    + destruct routing as [q|]; [|done]. injection Hx as <-. apply (field_ok_at _ 16 (ms_f "routing_ms")), check_ms; auto.
    + destruct commit as [q|]; [|done]. injection Hx as <-. apply (field_ok_at _ 17 (ms_f "commit_ms")), check_ms; auto.
    + destruct scenario as [q|]; [|done]. injection Hx as <-. apply (field_ok_at _ 18 (id_n "scenario" 64)); [done|]. rewrite check_id. auto.
    + destruct ack as [b|]; [|done]. injection Hx as <-. by apply (field_ok_at _ 19 (bool_f "acknowledgement")).
  - apply counters_shape in Hk as (z1 & z2 & z3 & z4 & z5 & z6 & z7 & z8 & ->). repeat constructor.
Qed.

(** ** The sweep *)

Definition child_done (n : nat) (t : AppTurnRecorder) : Prop :=
  ∃ c, at_children t !! n = Some c ∧ ch_finalized c = true.

Lemma child_finalize_children n outcome d now t :
  at_children (child_finalize n outcome d now t) =
    alter (λ c, c <| ch_finalized := true |>) n (at_children t).
Proof.
  unfold child_finalize. destruct (at_children t !! n) as [c|] eqn:Hc.
  - destruct (ch_finalized c) eqn:Hf; simpl.
    + symmetry. apply list_eq. intros m. destruct (decide (n = m)) as [<-|Hne].
      * rewrite list_lookup_alter_eq, Hc. simpl. f_equal. destruct c. simpl in Hf. by subst.
      * by rewrite list_lookup_alter_ne.
    + apply list_eq. intros m. destruct (decide (n = m)) as [<-|Hne].
      * rewrite list_lookup_alter_eq, Hc, list_lookup_insert_eq; [done|]. by eapply lookup_lt_Some.
      * by rewrite list_lookup_alter_ne, list_lookup_insert_ne.
  - symmetry. apply list_eq. intros m. destruct (decide (n = m)) as [<-|Hne];
      [by rewrite list_lookup_alter_eq, Hc | by rewrite list_lookup_alter_ne].
Qed.

Lemma child_finalize_done n m outcome d now t :
  is_Some (at_children t !! m) → child_done m t ∨ n = m → child_done m (child_finalize n outcome d now t).
Proof.
  intros [c Hc] H. unfold child_done. rewrite child_finalize_children.
  destruct (decide (n = m)) as [<-|Hne].
  - rewrite list_lookup_alter_eq, Hc. simpl. by eexists.
  - rewrite list_lookup_alter_ne by done. by destruct H as [H| ->].
Qed.

Lemma child_finalize_length n outcome d now t :
  length (at_children (child_finalize n outcome d now t)) = length (at_children t).
Proof. rewrite child_finalize_children. apply length_alter. Qed.

Lemma fold_finalize ns outcome now t :
  turn_inv now t →
  let t' := foldl (λ t n, child_finalize n outcome no_details now t) t ns in
  turn_inv now t' ∧ turn_records t' = turn_records t ∧ at_finalized t' = at_finalized t ∧
  length (at_children t') = length (at_children t) ∧
  ∀ m, is_Some (at_children t !! m) → child_done m t ∨ m ∈ ns → child_done m t'.
Proof.
  revert t. induction ns as [|n ns IH]; intros t Hi; simpl.
  { split_and!; try done. intros m _ [H|H]; [done|by apply not_elem_of_nil in H]. }
  destruct (IH (child_finalize n outcome no_details now t)) as (Hi' & Hr & Hf & Hl & Hd).
  { apply child_finalize_inv; [done|apply no_details_ok]. }
  destruct (child_finalize_turns n outcome no_details now t) as [Er Ef].
  split_and!; [done|by rewrite Hr|by rewrite Hf|by rewrite Hl, child_finalize_length|]. intros m Hm H. apply Hd.
  - apply lookup_lt_is_Some. rewrite child_finalize_length. by apply lookup_lt_is_Some.
  - apply or_comm. destruct H as [H|[->|H]%elem_of_cons]; [right|right|by left];
      apply child_finalize_done; auto.
Qed.

(** ** Runs of one turn *)

Inductive turn_op :=
| TNew (work_item_id : string)
| TChild (n : nat) (outcome : string) (d : ChildDetails)
| TRouting (ms : Q)
| TCommit (ms : Q)
| TFinalize (outcome action control_outcome scenario : option string) (ack : option bool).

Definition turn_exec (o : turn_op) (now : Q) (t : AppTurnRecorder) : AppTurnRecorder :=
  match o with
  | TNew id => (new_child id now t).1
  | TChild n outcome d => child_finalize n outcome d now t
  | TRouting q => record_routing q t
  | TCommit q => record_commit_ms q t
  | TFinalize out a c sc ack => turn_finalize out a c sc ack now t
  end.

(** Arguments the registry accepts *)
Definition turn_op_ok (o : turn_op) : Prop :=
  match o with
  | TNew id => id_valid 128 id = true
  | TChild _ _ d => details_ok d
  | TRouting q | TCommit q => (0 <= q)%Q
  | TFinalize _ _ _ sc _ => ∀ s, sc = Some s → id_valid 64 s = true
  end.

(** A run: each operation after a clock advance *)
Fixpoint turn_run (ops : list (Q * turn_op)) (p : Q * AppTurnRecorder) : Q * AppTurnRecorder :=
  match ops with
  | [] => p
  | (dt, o) :: ops' => turn_run ops' (p.1 + dt, turn_exec o (p.1 + dt) p.2)%Q
  end.

Lemma turn_inv_clock now now' t : (now <= now')%Q → turn_inv now t → turn_inv now' t.
Proof.
  intros Hle []. split; try done; [|by eapply Qle_trans].
  eapply Forall_impl; [done|]. intros c [? ?]. split; [done|]. by eapply Qle_trans.
Qed.

Lemma new_child_inv id now t : id_valid 128 id = true → turn_inv now t → turn_inv now (new_child id now t).1.
Proof.
  intros Hid [Hids Hk Hn Hsum Hdn Hch Hst Hms Hop Htr Hit]. unfold new_child.
  set (t1 := t <| at_children ::= _ |>).
  assert (done_count t1 = done_count t) as Ed.
  { unfold done_count. simpl. rewrite filter_app, length_app. simpl. lia. }
  assert (Forall (λ c, id_valid 128 (ch_work_item_id c) = true ∧ (ch_start c <= now)%Q) (at_children t1)) as Hch1.
  { apply Forall_app. split; [done|]. repeat constructor; [done|apply Qle_refl]. }
  assert (∀ j n, dict_get j (at_open t) = Some n → ∃ c, at_children t1 !! n = Some c ∧ ch_work_item_id c = j ∧ ch_finalized c = false) as Hop1.
  { intros j n (c & Hc & ?)%Hop. exists c. split; [|done]. by apply lookup_app_l_Some. }
  assert (∀ n c, at_children t1 !! n = Some c → at_children t !! n = Some c ∨ (n = length (at_children t) ∧ c = mkChild id now false)) as Hlk.
  { intros n c [?|[Hge Hc]]%lookup_app_Some; [by left|right]. destruct (n - length (at_children t))%nat as [|k] eqn:E; simplify_eq/=. split; [lia|done]. }
  assert (NoDup (ch_work_item_id <$> at_children t1) → NoDup (ch_work_item_id <$> at_children t) ∧ id ∉ ch_work_item_id <$> at_children t) as Hnd.
  { simpl. rewrite fmap_app. intros (? & Hd & _)%NoDup_app. split; [done|]. intros Hin. apply (Hd id Hin). constructor. }
  destruct (dict_mem id (at_open t1)) eqn:Em; simpl.
  - split; try done; [exact (eq_trans Hdn (f_equal Z.of_nat (eq_sym Ed)))| |exact (eq_trans Hit (eq_sym Ed))].
    intros Hd n c Hc Hf. destruct (Hnd Hd) as [Hd0 Hfresh].
    destruct (Hlk n c Hc) as [Hc0|[-> ->]]; [by apply Htr|]. exfalso. apply Hfresh. simpl.
    apply dict_mem_iff, dict_get_is_Some in Em as [m (c' & Hc' & <- & _)%Hop].
    apply list_elem_of_fmap. exists c'. split; [done|]. apply list_elem_of_lookup. eauto.
  - split; try done; [exact (eq_trans Hdn (f_equal Z.of_nat (eq_sym Ed)))| | |exact (eq_trans Hit (eq_sym Ed))]; simpl.
    + intros j n. rewrite dict_get_set. case_decide; [|apply Hop1]. intros [= <-]. subst j.
      exists (mkChild id now false). split; [|done]. by apply list_lookup_middle.
    + intros Hd n c Hc Hf. destruct (Hnd Hd) as [Hd0 Hfresh]. rewrite dict_get_set.
      destruct (Hlk n c Hc) as [Hc0|[-> ->]]; [|by rewrite decide_True].
      rewrite decide_False; [by apply Htr|]. intros ->. apply Hfresh, list_elem_of_fmap.
      exists c. split; [done|]. apply list_elem_of_lookup. eauto.
Qed.

(** The record a finalized turn emits *)
Definition turn_record (out : string) (action co scenario : option string) (ack : option bool) (now : Q)
    (t : AppTurnRecorder) : fields :=
  turn_fields (at_session_id t) (at_origin_epoch t) (at_turn_id t) out (elapsed_ms (at_start t) now)
    (at_dispatched t) (at_counters t) action co (at_routing_ms t) (at_commit_ms t) scenario ack.

Lemma derived_outcome_known counters :
  dict_keys counters = APP_TURN_COUNTER_FIELDS →
  derived_outcome counters ∈ APP_TURN_OUTCOMES ∧ derived_outcome counters ≠ "control".
Proof.
  intros _. unfold derived_outcome.
  assert (∀ l : list string, l ⊆ APP_TURN_COUNTER_FIELDS → let out := match l with
    | [name] => default "failed" (dict_get name PARENT_OUTCOME_FOR_COUNTER) | [] => "failed" | _ => "mixed" end in
    out ∈ APP_TURN_OUTCOMES ∧ out ≠ "control") as H; [|apply H; intros x [_ Hx]%list_elem_of_filter; done].
  intros [|a [|b l]] Hl; simpl; [split; [by apply (bool_decide_unpack _)|done]| |split; [by apply (bool_decide_unpack _)|done]].
  assert (a ∈ APP_TURN_COUNTER_FIELDS) as Ha by (apply Hl; constructor). apply list_elem_of_In in Ha. simpl in Ha.
  repeat (destruct Ha as [<-|Ha]; [split; [by apply (bool_decide_unpack _)|done]|]). done.
Qed.

(** Finalizing an open turn: every registered child is closed, then one record
    that passes the registry is delivered. *)
Lemma turn_finalize_spec outcome action co scenario ack now t :
  turn_inv now t → at_finalized t = false → (∀ s, scenario = Some s → id_valid 64 s = true) →
  let t1 := sweep_children (if decide (outcome = Some "cancelled") then "cancelled" else "failed") now
              (t <| at_finalized := true |>) in
  let out := default (derived_outcome (at_counters t1)) outcome in
  let ok := control_consistent out action co in
  turn_inv now t1 ∧ turn_records t1 = turn_records t ∧ at_finalized t1 = true ∧
  length (at_children t1) = length (at_children t) ∧
  (NoDup (ch_work_item_id <$> at_children t) → ∀ m, is_Some (at_children t !! m) → child_done m t1) ∧
  turn_finalize outcome action co scenario ack now t =
    t1 <| at_sink := at_sink t1 ++
           [mkMeasurement "app_turn_foreground"
              (turn_record (if ok then out else "failed") (if ok then action else None) (if ok then co else None)
                 scenario ack now t1)] |>.
Proof.
  intros Hi Hf Hsc t1 out ok. set (t0 := t <| at_finalized := true |>).
  assert (turn_inv now t0) as Hi0 by (by destruct Hi; split).
  destruct (fold_finalize (dict_values (at_open t0)) (if decide (outcome = Some "cancelled") then "cancelled" else "failed")
              now t0 Hi0) as (Hi1 & Hr & Hf1 & Hl & Hd).
  split; [exact Hi1|]. split; [exact Hr|]. split; [exact Hf1|]. split; [exact Hl|]. split.
  - intros Hnd m [c Hc]. apply Hd; [by eexists|]. destruct (ch_finalized c) eqn:Hfc; [left; by exists c|right].
    pose proof (ti_tracked _ _ Hi Hnd m c Hc Hfc) as Ht. apply dict_get_elem in Ht. apply list_elem_of_fmap.
    by exists (ch_work_item_id c, m).
  - transitivity (t1 <| at_sink ::= safe_emit "app_turn_foreground"
        (turn_record (if ok then out else "failed") (if ok then action else None) (if ok then co else None)
           scenario ack now t1) |>); [unfold turn_finalize; by rewrite Hf|].
    assert (control_fits (if ok then out else "failed") (if ok then action else None) (if ok then co else None)) as Hfit.
    { unfold ok. destruct (control_consistent out action co) eqn:E; [by apply control_consistent_fits|].
      split; [by apply (bool_decide_unpack _)|by right]. }
    destruct Hi1 as [[Hs [Ht He]] Hk Hn Hsum Hdn Hch Hst Hms _ _ _]. unfold safe_emit, turn_record.
    rewrite turn_record_ok; try done. assert (at_dispatched t1 = Z.of_nat (done_count t1)) as -> by exact Hdn. lia.
Qed.

Lemma turn_exec_inv o now t :
  turn_op_ok o → turn_inv now t → recorded_once t →
  turn_inv now (turn_exec o now t) ∧ recorded_once (turn_exec o now t).
Proof.
  intros Ho Hi Hr. destruct o as [id|n outcome d|q|q|out a c sc ack]; simpl in *.
  - split; [by apply new_child_inv|]. unfold new_child. by destruct (dict_mem _ _).
  - split; [by apply child_finalize_inv|]. unfold recorded_once.
    destruct (child_finalize_turns n outcome d now t) as [-> ->]. done.
  - split; [|done]. destruct Hi. split; try done. simpl. intros q' [[= <-]|?]; auto.
  - split; [|done]. destruct Hi. split; try done. simpl. intros q' [?|[= <-]]; auto.
  - destruct (at_finalized t) eqn:Hf; [unfold turn_finalize; by rewrite Hf|].
    destruct (turn_finalize_spec out a c sc ack now t Hi Hf Ho) as (Hi1 & Hr1 & Hf1 & _ & _ & ->).
    set (t1 := sweep_children _ _ _) in *. split.
    + destruct Hi1. split; try done. simpl. rewrite event_count_snoc. simpl. unfold done_count in *. simpl. lia.
    + unfold recorded_once, turn_records in *. simpl. rewrite event_count_snoc, Hr1, Hr, Hf, Hf1. done.
Qed.

Lemma turn_run_inv ops p :
  Forall (λ x, (0 <= x.1)%Q ∧ turn_op_ok x.2) ops → turn_inv p.1 p.2 → recorded_once p.2 →
  turn_inv (turn_run ops p).1 (turn_run ops p).2 ∧ recorded_once (turn_run ops p).2.
Proof.
  intros H. revert p. induction H as [|[dt o] ops [Hdt Ho] _ IH]; intros [now t] Hi Hr; simpl; [done|].
  simpl in *. assert (now <= now + dt)%Q as Hle by lra.
  destruct (turn_exec_inv o (now + dt) t Ho (turn_inv_clock _ _ _ Hle Hi) Hr). by apply IH.
Qed.

Lemma turn_init_inv session epoch turn now :
  id_valid 128 session = true → (0 ≤ epoch)%Z → id_valid 128 turn = true →
  turn_inv now (AppTurnRecorder_init session epoch turn now) ∧
  recorded_once (AppTurnRecorder_init session epoch turn now).
Proof.
  intros Hs He Ht. split; [|done]. split; simpl; try done; [|apply Qle_refl|by intros q [?|?]].
  by repeat (apply Forall_cons; split).
Qed.

(** A turn accounts for its children.  Whatever a turn's recorder is asked
    to do, in any order, each finalized child has delivered exactly one
    [work_item_foreground] record and the counters sum to their number.
    Finalizing the turn delivers exactly one [app_turn_foreground] record, for
    every combination of arguments and even when called again: the registry
    accepts it, its [child_count] and counters agree, and when no work item id
    was used twice every child created before has been recorded. *)
Theorem turn_accounts_for_children session epoch turn start ops out action co scenario ack dt :
  id_valid 128 session = true → (0 ≤ epoch)%Z → id_valid 128 turn = true →
  Forall (λ x, (0 <= x.1)%Q ∧ turn_op_ok x.2) ops → (0 <= dt)%Q → (∀ s, scenario = Some s → id_valid 64 s = true) →
  let '(now, t) := turn_run ops (start, AppTurnRecorder_init session epoch turn start) in
  let t' := turn_finalize out action co scenario ack (now + dt) t in
  event_count "work_item_foreground" (at_sink t') = done_count t' ∧
  turn_records t = (if at_finalized t then 1 else 0)%nat ∧ turn_records t' = 1%nat ∧
  sum_Z (dict_values (at_counters t')) = Z.of_nat (done_count t') ∧
  (at_finalized t = false → NoDup (ch_work_item_id <$> at_children t) →
     done_count t' = length (at_children t) ∧
     ∃ f, last (at_sink t') = Some (mkMeasurement "app_turn_foreground" f) ∧
       dict_get "child_count" f = Some (VInt (Z.of_nat (length (at_children t))))).
Proof.
  intros Hs He Ht Hops Hdt Hsc. pose proof (turn_init_inv session epoch turn start Hs He Ht) as [Hi0 Hr0].
  pose proof (turn_run_inv ops (start, _) Hops Hi0 Hr0) as [Hi Hr]. destruct (turn_run ops _) as [now t]. simpl in Hi, Hr.
  assert (now <= now + dt)%Q as Hle by lra. apply (turn_inv_clock _ _ _ Hle) in Hi.
  destruct (turn_exec_inv (TFinalize out action co scenario ack) (now + dt) t Hsc Hi Hr) as [Hi' Hr']. simpl in Hi', Hr'.
  set (t' := turn_finalize out action co scenario ack (now + dt) t) in *.
  assert (at_finalized t' = true) as Hf'.
  { unfold t'. destruct (at_finalized t) eqn:Hf; [unfold turn_finalize; by rewrite Hf|].
    by destruct (turn_finalize_spec out action co scenario ack (now + dt) t Hi Hf Hsc) as (_ & _ & ? & _ & _ & ->). }
  split; [by apply Hi'|]. split; [done|]. split; [unfold recorded_once in Hr'; by rewrite Hf' in Hr'|].
  split; [destruct Hi'; congruence|]. intros Hf Hnd.
  destruct (turn_finalize_spec out action co scenario ack (now + dt) t Hi Hf Hsc) as (Hi1 & _ & _ & Hl & Hd & E).
  fold t' in E. set (t1 := sweep_children _ _ _) in *.
  assert (done_count t' = length (at_children t)) as Hdc.
  { rewrite E. unfold done_count. simpl. rewrite <- Hl. f_equal. apply filter_all, Forall_lookup.
    intros m c Hc. destruct (Hd Hnd m) as (c' & Hc' & ?); [|congruence].
    apply lookup_lt_is_Some. rewrite <- Hl. by eapply lookup_lt_Some. }
  split; [done|]. rewrite E. eexists. split; [simpl; by rewrite last_snoc|].
  simpl. f_equal. f_equal. rewrite (ti_done _ _ Hi1). rewrite <- Hdc, E. done.
Qed.

(** ** Retained work *)

Inductive retained_op :=
| RClaim (kind : string)
| RCommit (outcome : string) (result_id : option string)
| RSpeech (outcome : string)
| RFinalize (e : RetainedEnd).

Definition retained_exec (o : retained_op) (now : Q) (p : RetainedRecorder * list MeasurementRecord)
    : RetainedRecorder * list MeasurementRecord :=
  match o with
  | RClaim k => ((claim k p.1).1, p.2)
  | RCommit c i => ((record_commit c i p.1).1, p.2)
  | RSpeech s => ((record_speech s p.1).1, p.2)
  | RFinalize e => (retained_finalize e now p.1 p.2).1
  end.

Fixpoint retained_run (ops : list (Q * retained_op)) (now : Q) (p : RetainedRecorder * list MeasurementRecord)
    : Q * (RetainedRecorder * list MeasurementRecord) :=
  match ops with
  | [] => (now, p)
  | (dt, o) :: ops' => retained_run ops' (now + dt)%Q (retained_exec o (now + dt)%Q p)
  end.

Definition opt_in (o : option string) (l : list string) : Prop := ∀ x, o = Some x → x ∈ l.
Definition opt_id (n : nat) (o : option string) : Prop := ∀ x, o = Some x → id_valid n x = true.

Definition retained_op_ok (o : retained_op) : Prop :=
  match o with
  | RClaim k => k ∈ WORK_OUTCOMES
  | RCommit c i => c ∈ COMMIT_OUTCOMES ∧ opt_id 128 i
  | RSpeech s => s ∈ SPEECH_OUTCOMES
  | RFinalize e =>
      opt_in (re_work_outcome e) WORK_OUTCOMES ∧ opt_in (re_commit_outcome e) COMMIT_OUTCOMES ∧
      opt_in (re_speech_outcome e) SPEECH_OUTCOMES ∧ opt_id 128 (re_result_id e) ∧ opt_id 64 (re_provider e) ∧
      opt_id 64 (re_model e) ∧ opt_in (re_disposition e) LATE_DELIVERY_DISPOSITIONS
  end.

Definition retained_rank (s : retained_state) : nat :=
  match s with pending => 0 | claimed => 1 | commit_recorded => 2 | speech_recorded => 3 | finalized => 4 end.

Definition final_count (s : retained_state) : nat := match s with finalized => 1 | _ => 0 end.

Record retained_inv (now : Q) (p : RetainedRecorder * list MeasurementRecord) : Prop := {
  rv_ids : id_valid 128 (rr_session_id p.1) = true ∧ (0 ≤ rr_origin_epoch p.1)%Z ∧ id_valid 128 (rr_turn_id p.1) = true ∧
           id_valid 128 (rr_work_item_id p.1) = true ∧ id_valid 128 (rr_app_worker_id p.1) = true;
  rv_start : (rr_start p.1 <= now)%Q;
  rv_vocabulary : opt_in (rr_work_outcome p.1) WORK_OUTCOMES ∧ opt_in (rr_commit_outcome p.1) COMMIT_OUTCOMES ∧
           opt_in (rr_speech_outcome p.1) SPEECH_OUTCOMES ∧ opt_id 128 (rr_result_id p.1);
  rv_once : event_count "work_item_background" p.2 = final_count (rr_state p.1)
}.

Lemma opt_in_set new old l : opt_in new l → opt_in old l → opt_in (set_some new old) l.
Proof. by destruct new. Qed.
Lemma opt_id_set new old n : opt_id n new → opt_id n old → opt_id n (set_some new old).
Proof. by destruct new. Qed.
Lemma or_else_in o d l : opt_in o l → d ∈ l → or_else o d ∈ l.
Proof. intros Ho Hd. unfold or_else. destruct (truthy o); [|done]. destruct o; simpl; auto. Qed.

Lemma retained_record_ok session epoch turn item worker start now work commit speech result provider model disposition :
  id_valid 128 session = true → (0 ≤ epoch)%Z → id_valid 128 turn = true → id_valid 128 item = true →
  id_valid 128 worker = true → (start <= now)%Q → work ∈ WORK_OUTCOMES → commit ∈ COMMIT_OUTCOMES →
  speech ∈ SPEECH_OUTCOMES → opt_id 128 result → opt_id 64 provider → opt_id 64 model →
  opt_in disposition LATE_DELIVERY_DISPOSITIONS →
  let f := [("session_id", VStr session); ("origin_epoch", VInt epoch); ("turn_id", VStr turn); ("work_item_id", VStr item);
            ("app_worker_id", VStr worker); ("background_ms", elapsed_ms start now); ("work_outcome", VStr work);
            ("commit_outcome", VStr commit); ("speech_outcome", VStr speech)]
           ++ opt_field "result_id" (VStr <$> result) ++ opt_field "provider" (VStr <$> provider)
           ++ opt_field "model" (VStr <$> model) ++ opt_field "delivery_disposition" (VStr <$> disposition) in
  build_record "work_item_background" f = Ret (mkMeasurement "work_item_background" f).
Proof.
  intros Hs He Ht Hi Hw Hq Hwo Hco Hso Hr Hp Hm Hd f.
  apply (build_record_ok _ (spec_of "work_item_background")); [done| | |repeat constructor|done].
  - apply (specs_nodup "work_item_background"). by apply (bool_decide_unpack _).
  - unfold f. repeat (apply Forall_app; split);
      [repeat (apply Forall_cons; split); [..|constructor] | apply Forall_opt_field; intros x Hx..].
    + by apply (field_ok_at _ 0 (id_f "session_id")).
    + by apply (field_ok_at _ 1 (int_f "origin_epoch")), check_int.
    + by apply (field_ok_at _ 2 (id_f "turn_id")).
    + by apply (field_ok_at _ 3 (id_f "work_item_id")).
    + by apply (field_ok_at _ 4 (id_f "app_worker_id")).
    + by apply (field_ok_at _ 5 (ms_f "background_ms")), elapsed_ok.
    + by apply (field_ok_at _ 6 (enum_f "work_outcome" WORK_OUTCOMES)), check_enum.
    + by apply (field_ok_at _ 7 (enum_f "commit_outcome" COMMIT_OUTCOMES)), check_enum.
    + by apply (field_ok_at _ 8 (enum_f "speech_outcome" SPEECH_OUTCOMES)), check_enum.
    + destruct result; [|done]. injection Hx as <-. apply (field_ok_at _ 9 (id_f "result_id")); [done|]. rewrite <- (Hr s eq_refl). done.
    + destruct provider; [|done]. injection Hx as <-. apply (field_ok_at _ 10 (id_n "provider" 64)); [done|]. rewrite <- (Hp s eq_refl). done.
    + destruct model; [|done]. injection Hx as <-. apply (field_ok_at _ 11 (id_n "model" 64)); [done|]. rewrite <- (Hm s eq_refl). done.
    + destruct disposition; [|done]. injection Hx as <-.
      apply (field_ok_at _ 12 (enum_f "delivery_disposition" LATE_DELIVERY_DISPOSITIONS)), check_enum; auto.
Qed.

Lemma retained_exec_inv o now p :
  retained_op_ok o → retained_inv now p →
  retained_inv now (retained_exec o now p) ∧
  (retained_rank (rr_state p.1) ≤ retained_rank (rr_state (retained_exec o now p).1))%nat.
Proof.
  destruct p as [r sink]. intros Ho Hp. pose proof Hp as [Hids Hst (Hw & Hc & Hs & Hi) Hone]. simpl in *.
  destruct o as [k|c i|s|e]; simpl in *; unfold claim, record_commit, record_speech, retained_finalize.
  - case_decide as E; [|by split]. rewrite E in *. split; [|simpl; lia]. split; try done. simpl.
    split_and!; try done. by intros x [= <-].
  - case_decide as E; [by split|]. destruct Ho as [Hoc Hoi].
    assert (opt_in (Some c) COMMIT_OUTCOMES) as Hc' by (by intros x [= <-]).
    pose proof (opt_id_set i (rr_result_id r) 128 Hoi Hi) as Hi'. simpl.
    case_decide as E2; simpl; [rewrite E2 in *; simpl in *|]; (split; [by split|simpl; lia]).
  - case_decide as E; [by split|]. assert (opt_in (Some s) SPEECH_OUTCOMES) as Hs' by (by intros x [= <-]). simpl.
    case_decide as E2; simpl; [rewrite E2 in *; simpl in *|]; (split; [by split|simpl; lia]).
  - case_decide as E; [by split|]. destruct Ho as (Ow & Oc & Os & Oi & Op & Om & Od).
    destruct Hids as (H1 & H2 & H3 & H4 & H5). cbn [fst snd]. unfold safe_emit.
    assert (or_else (set_some (re_work_outcome e) (rr_work_outcome r)) "cancelled" ∈ WORK_OUTCOMES) as Hwo
      by (apply or_else_in; [by apply opt_in_set | by apply (bool_decide_unpack _)]).
    assert (or_else (set_some (re_commit_outcome e) (rr_commit_outcome r)) "suppressed_shutdown" ∈ COMMIT_OUTCOMES) as Hco
      by (apply or_else_in; [by apply opt_in_set | by apply (bool_decide_unpack _)]).
    assert (or_else (set_some (re_speech_outcome e) (rr_speech_outcome r)) "cancelled" ∈ SPEECH_OUTCOMES) as Hso
      by (apply or_else_in; [by apply opt_in_set | by apply (bool_decide_unpack _)]).
    pose proof (opt_id_set _ _ 128 Oi Hi) as Hri. cbn [rr_session_id rr_origin_epoch rr_turn_id rr_work_item_id rr_app_worker_id rr_start setter eta].
    rewrite retained_record_ok by done. split; [|simpl; by destruct (rr_state r); simpl; lia].
    split; try done; simpl.
    + split_and!; try done; by intros x [= <-].
    + rewrite event_count_snoc, Hone. simpl. by destruct (rr_state r).
Qed.

(** Retained work is recorded once: over any sequence of claim, commit,
    speech and finalize calls, late and duplicate ones included, the recorder
    only moves forward through its stages, and it has delivered exactly one
    [work_item_background] record when it is finalized and none before; that
    record names all three outcomes, with the shutdown defaults for those never
    reported, so the registry never refuses it. *)
Theorem retained_recorded_once session epoch turn item worker start ops :
  id_valid 128 session = true → (0 ≤ epoch)%Z → id_valid 128 turn = true → id_valid 128 item = true →
  id_valid 128 worker = true → Forall (λ x, (0 <= x.1)%Q ∧ retained_op_ok x.2) ops →
  let '(now, (r, sink)) := retained_run ops start (RetainedRecorder_init session epoch turn item worker start, []) in
  event_count "work_item_background" sink = final_count (rr_state r) ∧
  ∀ o dt, retained_op_ok o → (0 <= dt)%Q →
    (retained_rank (rr_state r) ≤ retained_rank (rr_state (retained_exec o (now + dt)%Q (r, sink)).1))%nat ∧
    (rr_state r = finalized → retained_exec o (now + dt)%Q (r, sink) = (r, sink)).
Proof.
  intros H1 H2 H3 H4 H5 Hops.
  assert (∀ now p, retained_inv now p → retained_inv (retained_run ops now p).1 (retained_run ops now p).2) as Hrun.
  { clear -Hops. induction Hops as [|[dt o] ops [Hdt Ho] _ IH]; intros now p Hi; simpl; [done|]. apply IH.
    apply retained_exec_inv; [done|]. destruct Hi. split; try done. simpl in Hdt. eapply Qle_trans; [done|]. lra. }
  specialize (Hrun start (RetainedRecorder_init session epoch turn item worker start, [])).
  destruct (retained_run ops start _) as [now [r sink]]. destruct Hrun as [Hids Hst Hv Hone]; [split; try done; apply Qle_refl|].
  simpl in *. split; [done|]. intros o dt Ho Hdt. split.
  - apply (retained_exec_inv o (now + dt) (r, sink) Ho). split; try done. simpl. eapply Qle_trans; [done|]. lra.
  - intros Hf. destruct o; simpl; unfold claim, record_commit, record_speech, retained_finalize; by rewrite Hf.
Qed.

(** ** Witnesses *)

Definition w_turn_ops : list (Q * turn_op) :=
  [(1, TNew "work-1"); (1, TRouting 12); (0, TNew "work-2"); (2, TChild 0 "completed" no_details); (1, TCommit 3)]%Q.

Definition w_turn_end : Q * AppTurnRecorder :=
  turn_run w_turn_ops (0%Q, AppTurnRecorder_init "session-1" 1 "turn-1" 0).

Lemma w_turn_ops_ok : Forall (λ x, (0 <= x.1)%Q ∧ turn_op_ok x.2) w_turn_ops.
Proof.
  repeat (apply Forall_cons; split); [..|constructor]; (split; [apply Qle_bool_iff; reflexivity|]).
  - reflexivity.
  - apply Qle_bool_iff. reflexivity.
  - reflexivity.
  - apply no_details_ok.
  - apply Qle_bool_iff. reflexivity.
Qed.

Lemma w_turn_end_open : at_finalized w_turn_end.2 = false ∧ (ch_work_item_id <$> at_children w_turn_end.2) = ["work-1"; "work-2"].
Proof. vm_compute. done. Qed.

Lemma turn_accounts_for_children_witness :
  let t' := turn_finalize (Some "cancelled") None None None None (w_turn_end.1 + 1) w_turn_end.2 in
  turn_records t' = 1%nat ∧ event_count "work_item_foreground" (at_sink t') = done_count t' ∧
  done_count t' = length (at_children w_turn_end.2).
Proof.
  pose proof w_turn_end_open as [Hf Hc].
  assert (∀ s, None = Some s → id_valid 64 s = true) as Hs by (by intros s [=]).
  assert (0 <= 1)%Q as Hq by (apply Qle_bool_iff; reflexivity). assert (0 ≤ 1)%Z as Hz by lia.
  pose proof (turn_accounts_for_children "session-1" 1 "turn-1" 0 w_turn_ops (Some "cancelled") None None None None 1
    eq_refl Hz eq_refl w_turn_ops_ok Hq Hs) as H.
  fold w_turn_end in H. destruct w_turn_end as [now t]. cbn [fst snd] in *. cbv zeta in *.
  destruct H as (H1 & _ & H2 & _ & H3). split; [exact H2|]. split; [exact H1|]. apply H3; [exact Hf|].
  rewrite Hc. apply (bool_decide_unpack _). vm_compute. exact I.
Defined.

Definition w_retained_ops : list (Q * retained_op) :=
  [(1, RClaim "completed"); (1, RCommit "committed" (Some "result-1")); (1, RFinalize no_end); (1, RFinalize no_end)]%Q.

Definition w_retained_end : Q * (RetainedRecorder * list MeasurementRecord) :=
  retained_run w_retained_ops 0%Q (RetainedRecorder_init "session-1" 1 "turn-1" "work-1" "worker-1" 0, []).

Lemma w_retained_ops_ok : Forall (λ x, (0 <= x.1)%Q ∧ retained_op_ok x.2) w_retained_ops.
Proof.
  repeat (apply Forall_cons; split); [..|constructor]; (split; [apply Qle_bool_iff; reflexivity|]); cbn [snd retained_op_ok];
    first [by apply (bool_decide_unpack _) | split_and!; by intros ? [=] |
           split; [by apply (bool_decide_unpack _) | by intros ? [= <-]]].
Qed.

Lemma w_retained_finalized : rr_state w_retained_end.2.1 = finalized.
Proof. vm_compute. reflexivity. Qed.

Lemma retained_recorded_once_witness :
  rr_state w_retained_end.2.1 = finalized ∧ event_count "work_item_background" w_retained_end.2.2 = 1%nat.
Proof.
  pose proof w_retained_finalized as Hf. assert (0 ≤ 1)%Z as Hz by lia.
  pose proof (retained_recorded_once "session-1" 1 "turn-1" "work-1" "worker-1" 0 w_retained_ops
    eq_refl Hz eq_refl eq_refl eq_refl w_retained_ops_ok) as H.
  change (retained_run _ _ _) with w_retained_end in H. destruct w_retained_end as [now [r sink]]. cbn [fst snd] in *.
  split; [exact Hf|]. rewrite (proj1 H), Hf. reflexivity.
Defined.

(** ** The framework's observers *)

(** The identity a connection's handlers carry is one the registry accepts. *)
Definition context_ok (c : PerfConnectionContext) : Prop :=
  id_valid 128 (pc_session_id c) = true ∧ (0 ≤ pc_origin_epoch c)%Z ∧ id_valid 128 (pc_connection_worker c) = true.

Lemma base_fields_ok c specs :
  context_ok c → take 3 specs = [id_f "session_id"; int_f "origin_epoch"; id_f "connection_worker"] →
  Forall (λ p, field_ok specs p = true) (base_fields c).
Proof.
  intros (Hs & He & Hw) Ht. assert (∀ i sp, take 3 specs !! i = Some sp → specs !! i = Some sp) as Hl
    by (intros i sp Hi; by apply lookup_take_Some in Hi as [? _]).
  rewrite Ht in Hl. repeat (apply Forall_cons; split); [..|constructor].
  - by apply (field_ok_at _ 0 (id_f "session_id")); [apply Hl|].
  - by apply (field_ok_at _ 1 (int_f "origin_epoch")); [apply Hl|apply check_int].
  - by apply (field_ok_at _ 2 (id_f "connection_worker")); [apply Hl|].
Qed.

(** Every turn the framework ends leaves exactly one record, with the duration set to
    zero where the framework's own is negative or not finite. *)
Lemma turn_end_recorded c n d i sink :
  context_ok c → (1 ≤ n)%Z →
  ∃ ms, on_turn_ended c n d i sink = sink ++ [mkMeasurement "pipecat_turn_end"
      (base_fields c ++ [("pipecat_turn", VInt n); ("duration_ms", VFloat (Some ms)); ("interrupted", VBool i)])]
    ∧ (0 <= ms)%Q.
Proof.
  intros Hc Hn. unfold on_turn_ended. set (ms := match millis d with Some _ => _ | None => _ end).
  assert (0 <= ms)%Q as Hms.
  { unfold ms. destruct (millis d) as [q|]; [|done]. destruct (Qltb q 0) eqn:E; [done|]. by apply Qltb_ge. }
  exists ms. split; [|done]. unfold safe_emit.
  rewrite (build_record_ok _ (spec_of "pipecat_turn_end")); [done|done| | | |done].
  - apply (specs_nodup "pipecat_turn_end"). by apply (bool_decide_unpack _).
  - apply Forall_app. split; [by apply base_fields_ok|]. repeat (apply Forall_cons; split); [..|constructor].
    + by apply (field_ok_at _ 3 (int_n "pipecat_turn" 1)), check_int.
    + apply (field_ok_at _ 4 (ms_f "duration_ms")); [done|]. unfold check_value, ms_f. cbn [fs_kind]. by rewrite (proj2 (Qltb_ge _ _) Hms).
    + by apply (field_ok_at _ 5 (bool_f "interrupted")).
  - repeat constructor.
Qed.

(** A measured latency that is finite and not negative is recorded. *)
Lemma latency_recorded c s sink :
  context_ok c → (∃ q, s = Some q ∧ (0 <= q)%Q) →
  on_latency_measured c s sink = sink ++ [mkMeasurement "user_bot_latency" (base_fields c ++ [("latency_ms", VFloat (millis s))])].
Proof.
  intros Hc (q & -> & Hq). unfold on_latency_measured, safe_emit.
  rewrite (build_record_ok _ (spec_of "user_bot_latency")); [done|done| | | |done].
  - apply (specs_nodup "user_bot_latency"). by apply (bool_decide_unpack _).
  - apply Forall_app. split; [by apply base_fields_ok|]. repeat (apply Forall_cons; split); [|constructor].
    apply (field_ok_at _ 3 (ms_f "latency_ms")); [done|]. unfold check_value, ms_f, millis. cbn [fs_kind fmap option_fmap option_map]. rewrite (proj2 (Qltb_ge _ _)); [done|]. nra.
  - repeat constructor.
Qed.
