(* ===== verification/WorkerProjection.v ===== *)
(** Worker projection and clarification candidates
    ([src/server/worker_projection.py]; [canonical_result] of
    [src/server/results.py] and [ClarificationContext] of
    [src/server/workers/base.py]).

    [WorkerProjection] holds no session state of its own: [project] acts on the
    session's.  Its candidates are an ordered map from result ids, bounded by
    dropping the oldest.  The minted result id and the timestamp are
    arguments. *)

From S2P Require Import Prelude PyDict Contracts SessionState Routing.

(** ** Results without citations

    [canonical_result] as this module and the turn handlers call it; the
    timestamp default is an argument. *)

Definition new_GroundedResult (r : GroundedResult) : Prelude.result GroundedResult :=
  if existsb (λ s, bool_decide (s = EmptyString))
       [result_id r; gr_worker_id r; gr_turn_id r; gr_timestamp r; gr_text r; gr_spoken_text r]
  then Raise (ValueError "String should have at least 1 character")
  else validate_projections r.

Definition canonical_result (worker_id turn_id text : string) (spoken_text : option string)
    (id timestamp : string) (origin_epoch : option N) : Prelude.result GroundedResult :=
  new_GroundedResult (mkGroundedResult id worker_id turn_id timestamp text []
                        (match spoken_text with None => text | Some t => t end) origin_epoch).

(** ** Projection *)

Definition nonempty (s : string) : bool := negb (bool_decide (s = EmptyString)).

Definition project (worker : WorkerObject) (origin_epoch : N) (status : string)
    (latest_result_id : option string) (s : SessionState) : SessionState :=
  match wo_metadata worker with
  | None => s
  | Some m =>
      if negb (nonempty (wm_worker_id m)) || negb (nonempty (wm_topic m)) || negb (nonempty (wm_model_policy m))
      then s
      else
        let previous := dict_get (wm_worker_id m) (SessionState.workers s) in
        let latest := match latest_result_id with
                      | Some _ => latest_result_id
                      | None => match previous with Some p => ws_latest_result_id p | None => None end
                      end in
        (set_worker (mkWorkerState (wm_worker_id m) (wm_topic m) (wm_model_policy m) status latest
                       (Some origin_epoch)) s).1
  end.

(** ** Clarification candidates *)

Record Candidate := mkCandidate {
  cd_worker_id : string;
  cd_turn_id : string;
  cd_original_query : string;
  cd_question : string
}.

Abbreviation candidates := (dict string Candidate) (only parsing).

Definition MAX_CLARIFICATION_CANDIDATES : nat := 32.

Definition clarification_result (worker_id turn_id question original_query : string)
    (origin_epoch : option N) (id timestamp : string) (c : candidates)
    : candidates * Prelude.result GroundedResult :=
  let c := dict_set id (mkCandidate worker_id turn_id original_query question) c in
  let c := dict_trim MAX_CLARIFICATION_CANDIDATES c in
  (c, canonical_result worker_id turn_id question None id timestamp origin_epoch).

Definition pop_clarification_candidate (id : string) (c : candidates) : candidates * option Candidate :=
  (dict_pop id c, dict_get id c).

Definition clear_candidates (c : candidates) : candidates := [].

Record ClarificationContext := mkClarification {
  cc_original_query : string;
  cc_question : string;
  cc_answer : string
}.

(** [pending] is what the coordinator handed out: its query and its question *)
Definition clarification_context (pending : option (string * string)) (transcript : string)
    : option ClarificationContext :=
  match pending with
  | None => None
  | Some (original_query, question) =>
      if nonempty original_query then Some (mkClarification original_query question transcript) else None
  end.

(** ** Facts *)

Definition candidates_inv (c : candidates) : Prop :=
  dict_wf c ∧ (length c ≤ MAX_CLARIFICATION_CANDIDATES)%nat.

Lemma clarification_candidates_inv w t q o e id ts c :
  candidates_inv c → candidates_inv (clarification_result w t q o e id ts c).1.
Proof.
  intros [Hwf Hl]. unfold clarification_result, candidates_inv. cbn [fst].
  split; [by apply dict_trim_wf, dict_wf_set | apply dict_trim_length].
Qed.

Lemma pop_candidates_inv id c : candidates_inv c → candidates_inv (pop_clarification_candidate id c).1.
Proof.
  intros [Hwf Hl]. split; simpl; [by apply dict_wf_pop|]. etrans; [apply dict_pop_length | done].
Qed.

(** A fresh question is always kept: only older ones are dropped. *)
Lemma fresh_candidate_kept w t q o e id ts c :
  candidates_inv c → id ∉ dict_keys c →
  dict_get id (clarification_result w t q o e id ts c).1 = Some (mkCandidate w t o q).
Proof.
  intros [Hwf Hl] Hid. unfold clarification_result. cbn [fst]. apply dict_elem_get.
  - by apply dict_trim_wf, dict_wf_set.
  - rewrite dict_set_notin by done. apply dict_trim_last. unfold MAX_CLARIFICATION_CANDIDATES. lia.
Qed.
