(* ===== verification/SessionHost.v ===== *)
(** The session host's commit and cancellation paths
    ([SessionHost] of [src/server/pipeline.py]).

    [Host] puts the components together: the session state, the
    acknowledgement ledger with the connection pipelines and their schedulers,
    the work ledger, the clarification candidates, the coordinator, the
    registered recorders and the connection arbiter.  There is one session
    state: a scheduler call is made with the host's state as its sink and
    leaves the updated state with the host ([with_acks]).

    [commit_late_result_once] has no await in its body, so one call is one
    step; [commit_and_speak] is cut at [await start_next], whose continuation is
    a flight of the scheduler.  Clock readings, timestamps and minted ids are
    arguments; the feature switch [enable_background_status] is read at each
    call and is part of the state. *)

From S2P Require Import Prelude PyDict Contracts SessionState ConnectionArbiter WorkTaskLedger SpeechLifecycle SpeechScheduler SpeechSystem TurnAckLedger Routing WorkItemCoordinator WorkStatusPublisher PerfMetrics WorkerProjection.

(** What a worker task may return *)
Inductive late_value := Grounded (r : GroundedResult) | Ungrounded.

Record Host (L : Type) := mkHost {
  h_state : SessionState;
  h_acks : AckSystem SessionState L;
  h_work : WorkTaskLedger.World;
  h_candidates : dict string Candidate;
  h_coordinator : option (WorkItemCoordinator late_value);
  h_recorders : dict string RetainedRecorder;
  h_measurements : list MeasurementRecord;
  h_arbiter : ConnectionArbiter;
  h_closing : bool;
  h_background_status : bool
}.
Arguments mkHost {L}. Arguments h_state {L}. Arguments h_acks {L}. Arguments h_work {L}.
Arguments h_candidates {L}. Arguments h_coordinator {L}. Arguments h_recorders {L}.
Arguments h_measurements {L}. Arguments h_arbiter {L}. Arguments h_closing {L}. Arguments h_background_status {L}.

#[export] Instance eta_Host L : Eta (Host L) := λ r,
  mkHost (h_state r) (h_acks r) (h_work r) (h_candidates r) (h_coordinator r) (h_recorders r)
    (h_measurements r) (h_arbiter r) (h_closing r) (h_background_status r).

(** [LateDeliveryContext]; the accepted turn sequence and the acknowledgement
    timestamp are carried and not read any more *)
Record LateDeliveryContext := mkLateContext {
  lc_turn_id : string;
  lc_work_item_id : string;
  lc_origin_epoch : N;
  lc_parent_work_item_id : option string;
  lc_accepted_turn_sequence : N
}.

Section host.
Context {L : Type} `{!SpeechSlot L} {retention : RetentionConfig} `{CoordinatorConfig}.
Implicit Types (h : Host L) (now : Q) (p : nat).

(** A call on the acknowledgement side that reaches the scheduler of pipeline
    [p], with the shared session state as that scheduler's sink *)
Definition with_acks {A} p (f : AckSystem SessionState L → AckSystem SessionState L * A) h : Host L * A :=
  let y := (h_acks h) <| pipelines ::=
             alter (λ pl, pl <| pl_scheduler ::= (λ s, s <| sink := h_state h |>) |>) p |> in
  let (y, a) := f y in
  (h <| h_acks := y |>
     <| h_state := match pipelines y !! p with Some pl => sink (pl_scheduler pl) | None => h_state h end |>, a).

Definition with_scheduler {A} p (f : Scheduler SessionState L → Scheduler SessionState L * A) h
    : Host L * option A := with_acks p (sched_call p f) h.

Definition host_ledger h : TurnAckLedger := TurnAckLedger.ledger (h_acks h).

Definition on_ledger (f : TurnAckLedger → TurnAckLedger) h : Host L :=
  h <| h_acks ::= (λ y, y <| TurnAckLedger.ledger ::= f |>) |>.

Definition on_work (f : WorkTaskLedger → WorkTaskLedger) h : Host L :=
  h <| h_work ::= (λ w, w <| WorkTaskLedger.ledger ::= f |>) |>.

Definition work_ledger h : WorkTaskLedger := WorkTaskLedger.ledger (h_work h).

Definition current_pipeline h : option (Pipeline SessionState L) :=
  p ← connection (h_acks h); pipelines (h_acks h) !! p.

(** [SessionHost.accepts] *)
Definition host_accepts (epoch : option N) h : bool :=
  negb (h_closing h) && ConnectionArbiter.accepts epoch (h_arbiter h) &&
  match current_pipeline h with Some pl => pl_active pl | None => false end.

(** [_emit_work_status]; the status may be refused by its own validation *)
Definition host_emit_work_status (t : StatusTarget) (work_item_id : string) (worker_id : option string)
    (d : WorkStatusState * option TerminalReason) now h : Host L * Prelude.result unit :=
  let (s, r) := emit_status (h_background_status h) t work_item_id worker_id d now (h_state h) in
  (h <| h_state := s |>, r).

(** ** Committing a result *)

(** [_commit_result_state]; [stamp] is the transcript entry's timestamp *)
Definition commit_result_state (r : GroundedResult) (stamp : string) now h : Host L * Prelude.result unit :=
  let entry := mkTranscriptEntry assistant (gr_text r) (gr_turn_id r) stamp (gr_origin_epoch r) in
  let h := h <| h_state ::= (λ s, (append_transcript entry s).1) |> in
  let (s, out) := append_result r None (gr_origin_epoch r) (h_state h) in
  let h := h <| h_state := s |> in
  match out with
  | Raise e => (h, Raise e)
  | Ret _ =>
      let (c, candidate) := pop_clarification_candidate (result_id r) (h_candidates h) in
      let h := h <| h_candidates := c |> in
      match candidate with
      | Some cd =>
          if host_accepts (gr_origin_epoch r) h then
            match h_coordinator h with
            | None => (h, Raise (RuntimeError "coordinator is required to execute work"))
            | Some co =>
                let (co, out) := add_worker_clarification (session_id (h_state h)) (cd_worker_id cd)
                                   (cd_turn_id cd) (result_id r) (cd_original_query cd) (cd_question cd) now co in
                (h <| h_coordinator := Some co |>, out)
            end
          else (h, Ret tt)
      | None => (h, Ret tt)
      end
  end.

Definition work_item_of_turn (turn : string) : string := "work-" +:+ turn.

(** How [_commit_and_speak] stands when it returns or suspends *)
Inductive committed :=
| CSuppressed (work_item_id : string)      (* cancelled: nothing was committed *)
| CHistoryOnly                             (* committed, no speech attempted *)
| CQueued                                  (* committed and queued; the slot was busy *)
| CSpeaking (item : SpeechItem).           (* committed; awaiting [start_next] *)

(** [_commit_and_speak] up to its await, for a result of the pipeline [p] *)
Definition commit_and_speak (r : GroundedResult) p (role : SpeechRole) (require_tts : bool)
    (mint stamp : string) (env : slot_env) now h : Host L * Prelude.result committed :=
  let item := work_item_of_turn (gr_turn_id r) in
  if bool_decide (item ∈ cancelled_ids (work_ledger h)) then
    let h := on_work (retire item) (on_work (clear_cancelled item) h) in
    (h <| h_candidates ::= (λ c, (pop_clarification_candidate (result_id r) c).1) |>, Ret (CSuppressed item))
  else
    match commit_result_state r stamp now h with
    | (h, Raise e) => (h, Raise e)
    | (h, Ret _) =>
        let h := on_work (retire item) h in
        match pipelines (h_acks h) !! p with
        | None => (h, Ret CHistoryOnly)
        | Some pl =>
            if (require_tts && negb (pl_tts pl)) || negb (bool_decide (connection (h_acks h) = Some p))
               || negb (pl_active pl) || negb (host_accepts (gr_origin_epoch r) h)
            then (h, Ret CHistoryOnly)
            else
              let (h, queued) := with_scheduler p
                (enqueue (Some (result_id r)) item ("run-" +:+ gr_turn_id r) (gr_spoken_text r)
                   (gr_origin_epoch r) mint role None None) h in
              match queued with
              | Some (Raise e) => (h, Raise e)
              | _ =>
                  let (h, started) := with_scheduler p (start_next (Some item) env now) h in
                  (h, Ret (match started with Some (Some i) => CSpeaking i | _ => CQueued end))
              end
        end
    end.

(** ** The late-result callback *)

Definition terminal_kind_name (k : TerminalKind) : string :=
  match k with terminal_completed => "completed" | terminal_failed => "failed" | terminal_cancelled => "cancelled" end.

(** The local variables of [commit_late_result_once] *)
Record LateOutcome := mkLateOutcome {
  lo_work : string;
  lo_commit : string;
  lo_speech : string;
  lo_disposition : string;
  lo_result_id : option string;
  lo_exception : option exn
}.

(** [_late_result_disposition] *)
Definition late_result_disposition (c : LateDeliveryContext) : string := "display_only".

(** The worker that produced the result, back to idle *)
Definition settle_worker (epoch : N) (r : GroundedResult) h : Host L :=
  match dict_get (gr_worker_id r) (SessionState.workers (h_state h)) with
  | Some w =>
      if decide (ws_origin_epoch w = Some epoch) then
        h <| h_state ::= (λ s, (set_worker (w <| ws_status := "idle" |>
                                              <| ws_latest_result_id := Some (result_id r) |>) s).1) |>
      else h
  | None => h
  end.

(** The last branch: where the committed result could be spoken *)
Definition late_speech (c : LateDeliveryContext) (work_item_id : string) h : Host L * (string * string) :=
  match connection (h_acks h) with
  | None => (h, ("disconnected", "display_only"))
  | Some p =>
      match pipelines (h_acks h) !! p with
      | None => (h, ("disconnected", "display_only"))
      | Some pl =>
          if negb (pl_tts pl) then (h, ("no_tts", "display_only"))
          else if negb (pl_active pl) || negb (pl_epoch pl =? lc_origin_epoch c)%N
                  || negb (host_accepts (Some (lc_origin_epoch c)) h)
          then (h, ("stale_connection", "display_only"))
          else ((with_scheduler p (discard_queued_notice work_item_id) h).1,
                ("not_applicable", late_result_disposition c))
      end
  end.

(** The [try] block *)
Definition classify_late (c : LateDeliveryContext) (late : LateResult late_value) (was_cancelled : bool)
    (stamp : string) now h : Host L * LateOutcome :=
  let item := lr_work_item_id late in
  let retired := on_work (retire item) h in
  let kind := if was_cancelled then "cancelled" else "completed" in
  match lr_error late, lr_result late with
  | Some _, _ =>
      (retired,
       let work := terminal_kind_name (lr_terminal_kind late) in
       if decide (lr_terminal_kind late = terminal_cancelled)
       then mkLateOutcome work "suppressed_cancelled" "cancelled" "suppressed" None None
       else mkLateOutcome work "not_applicable" "not_applicable" "not_applicable" None None)
  | None, Some (Grounded r) =>
      if negb (bool_decide (gr_origin_epoch r = Some (lc_origin_epoch c))) then
        (retired, mkLateOutcome kind "suppressed_stale" "not_applicable" "not_applicable" None None)
      else if existsb (λ i, bool_decide (result_id i = result_id r)) (results (h_state h)) then
        (retired, mkLateOutcome kind "suppressed_duplicate" "not_applicable" "not_applicable" None None)
      else if was_cancelled then
        match commit_result_state r stamp now retired with
        | (h, Raise e) => (h, mkLateOutcome "cancelled" "failed" "cancelled" "not_applicable" None (Some e))
        | (h, Ret _) =>
            (settle_worker (lc_origin_epoch c) r h,
             mkLateOutcome "cancelled" "committed" "cancelled" "display_only" (Some (result_id r)) None)
        end
      else
        match commit_result_state r stamp now h with
        | (h, Raise e) =>
            (on_work (retire item) h,
             mkLateOutcome "completed" "failed" "not_applicable" "not_applicable" None (Some e))
        | (h, Ret _) =>
            let h := settle_worker (lc_origin_epoch c) r (on_work (retire item) h) in
            let (h, o) := late_speech c item h in
            (h, mkLateOutcome "completed" "committed" o.1 o.2 (Some (result_id r)) None)
        end
  | None, _ =>
      (retired,
       if was_cancelled
       then mkLateOutcome "cancelled" "suppressed_cancelled" "cancelled" "suppressed" None None
       else mkLateOutcome "invalid_result" "not_applicable" "not_applicable" "not_applicable" None None)
  end.

(** The acknowledgement half of the [finally] block *)
Definition settle_late_ack (c : LateDeliveryContext) now h : Host L :=
  let h := match connection (h_acks h) with
           | Some p =>
               match pipelines (h_acks h) !! p with
               | Some pl =>
                   if (pl_epoch pl =? lc_origin_epoch c)%N
                   then (with_acks p (λ y, (settle_turn_ack p (lc_turn_id c) false now y, tt)) h).1
                   else on_ledger (clear_ack_latch (lc_turn_id c)) h
               | None => on_ledger (clear_ack_latch (lc_turn_id c)) h
               end
           | None => on_ledger (clear_ack_latch (lc_turn_id c)) h
           end in
  on_ledger (release_turn_work_item (lc_turn_id c) (lc_work_item_id c)) h.

(** The recorder the call popped and claimed is finalized. *)
Definition finalize_recorder (recorder : option RetainedRecorder) (o : LateOutcome) now h : Host L :=
  match recorder with
  | None => h
  | Some r =>
      let e := mkRetainedEnd (Some (lo_work o)) (Some (lo_commit o)) (Some (lo_speech o)) (lo_result_id o)
                 None None (Some (lo_disposition o)) in
      h <| h_measurements ::= (λ sink, (retained_finalize e now r sink).1.2) |>
  end.

Definition late_status (o : LateOutcome) (k : TerminalKind) : option (WorkStatusState * option TerminalReason) :=
  late_commit_work_status (Some (lo_work o)) (Some (lo_commit o)) (Some (terminal_kind_name k)).

(** The cancellation marker is read and cleared once; a cancelled clarification
    is not asked. *)
Definition consume_cancelled (late : LateResult late_value) h : Host L * bool :=
  let item := lr_work_item_id late in
  let was_cancelled := bool_decide (lr_error late = None) && bool_decide (item ∈ cancelled_ids (work_ledger h)) in
  (if was_cancelled then
     let h := on_work (clear_cancelled item) h in
     match lr_result late with
     | Some (Grounded r) => h <| h_candidates ::= (λ c, (pop_clarification_candidate (result_id r) c).1) |>
     | _ => h
     end
   else h, was_cancelled).

Definition commit_late_result_once (c : LateDeliveryContext) (late : LateResult late_value)
    (stamp : string) now h : Host L * Prelude.result unit :=
  let item := lr_work_item_id late in
  let (recorders, recorder) := recorder_pop item (h_recorders h) in
  let h := h <| h_recorders := recorders |> in
  let recorder := (λ r, (claim (terminal_kind_name (lr_terminal_kind late)) r).1) <$> recorder in
  let (h, was_cancelled) := consume_cancelled late h in
  let (h, o) := classify_late c late was_cancelled stamp now h in
  let h := finalize_recorder recorder o now (settle_late_ack c now h) in
  let (h, emitted) := match late_status o (lr_terminal_kind late) with
                      | None => (h, Ret tt)
                      | Some d => host_emit_work_status
                                    (mkTarget (lc_turn_id c) (lc_parent_work_item_id c) (Some (lc_origin_epoch c)))
                                    (lc_work_item_id c) None d now h
                      end in
  (h, match emitted with
      | Raise e => Raise e
      | Ret _ => match lo_exception o with Some e => Raise e | None => Ret tt end
      end).

(** ** Cancelling work *)

(** [dict.fromkeys] *)
Definition dedup (l : list string) : list string := dict_keys (foldl (λ d k, dict_setdefault k tt d) [] l).

(** [_cancel_work]; [known_ids] is a set, iterated in some order *)
Definition cancel_work (work_item_id exclude : option string) h : Host L * list string :=
  let selected := filter (λ i, (work_item_id = None ∨ work_item_id = Some i) ∧ Some i ≠ exclude)
                    (local_ids (work_ledger h)) in
  let (co, more) := match h_coordinator h with
                    | Some co => let (co, l) := WorkItemCoordinator.cancel work_item_id co in (Some co, l)
                    | None => (None, [])
                    end in
  let h := h <| h_coordinator := co |> in
  let selected := dedup (selected ++ more) in
  let selected := match work_item_id with
                  | None => dedup (selected ++ elements (known_ids (work_ledger h)))
                  | Some _ => selected
                  end in
  let selected := filter (λ i, Some i ≠ exclude) selected in
  (h <| h_work ::= cancel_selected selected |>, selected).

(** [_finalize_turn_exception] apart from the turn's own recorder, which the
    caller holds: settle the acknowledgement and sweep the children *)
Definition finalize_turn_exception (cancelled_turn : bool) (t : StatusTarget)
    (children : dict string (option string)) (origin : option nat) now h : Host L * Prelude.result unit :=
  let h := match origin with
           | Some p => (with_acks p (λ y, (settle_turn_ack p (tg_turn_id t) false now y, tt)) h).1
           | None => h
           end in
  let (s, out) := terminalize_children (h_background_status h) t children
                    (if cancelled_turn then cancelled else failed, None) now (h_state h) in
  (h <| h_state := s |>, out).

End host.
