(* ===== verification/SessionHostFacts.v ===== *)
(** The host's commit paths: what a late result does to the session, the
    acknowledgement ledger, the work ledger and the metrics, on every branch,
    and when a committed result is handed to the scheduler. *)

From S2P Require Import Prelude PyDict Contracts SessionState SessionLedger SessionFacts ConnectionArbiter WorkTaskLedger SpeechLifecycle SpeechScheduler SpeechSystem TurnAckLedger Routing WorkItemCoordinator WorkStatusPublisher PerfMetrics PerfMetricsFacts WorkerProjection SessionHost.

(** ** What a call leaves alone in the session state *)

(** Neither the result log nor the work-status ledger changes. *)
Definition undisturbed (s s' : SessionState) : Prop := results s' = results s ∧ same_ledger s s'.

#[export] Instance undisturbed_preorder : PreOrder undisturbed.
Proof.
  split; [by split|]. intros s1 s2 s3 [E1 L1] [E2 L2]. split; [congruence | by etrans].
Qed.

Lemma set_worker_undisturbed w s : undisturbed s (set_worker w s).1.
Proof. unfold set_worker. by destruct (fenced _ _). Qed.

Lemma append_transcript_undisturbed e s : undisturbed s (append_transcript e s).1.
Proof. unfold append_transcript. destruct (fenced _ _); [done|]. by destruct (existsb _ _). Qed.

Lemma report_undisturbed i st o allow s : undisturbed s (report_progress i st o allow s).
Proof.
  unfold report_progress.
  set (p := mkSpeechProgress (default EmptyString (si_result_id i)) (si_work_item_id i) (si_run_id i) (si_utterance_id i) st o).
  assert ((speech_progress (default EmptyString (si_result_id i)) (si_work_item_id i) (si_run_id i)
             (si_utterance_id i) st o allow s).1 = (apply_speech_progress p o allow s).1) as ->
    by (unfold apply_speech_progress; simpl; by destruct o).
  split; [|apply speech_ledger]. pose proof (speech_cases p o allow s) as [->|(p' & ev & _ & _ & _ & _ & _ & E & _)]; done.
Qed.

(** A result of its own epoch is logged as it is, unless it is there already. *)
Lemma append_result_own r e s :
  gr_origin_epoch r = Some e →
  let '(s', out) := append_result r None (Some e) s in
  returns out = true ∧ same_ledger s s' ∧
  results s' = if existsb (λ i, bool_decide (result_id i = result_id r)) (results s) then results s
               else results s ++ [r].
Proof.
  intros He. pose proof (append_result_ledger r None (Some e) s) as [Hl _]. revert Hl.
  unfold append_result, log_result. rewrite He. cbn [negb andb].
  rewrite !(bool_decide_false (Some e = None)) by done. rewrite (bool_decide_true (Some e = Some e)) by done.
  rewrite !andb_false_r. cbn [negb andb]. destruct (existsb _ _) eqn:Ex; [done|]. cbv zeta.
  rewrite (existsb_log r _ Ex). destruct (_ && _); simpl; [done|]. by destruct (dict_get _ _).
Qed.

Section facts.
Context {L : Type} `{!SpeechSlot L} {retention : RetentionConfig} `{CoordinatorConfig}.
Implicit Types (h : Host L) (now : Q) (p : nat).

(** ** Scheduler calls of the host *)

Lemma emit_progress_undisturbed i st e allow (s : Scheduler SessionState L) :
  undisturbed (sink s) (sink (emit_progress i st e allow s)).
Proof. unfold emit_progress. case_decide; [done|]. apply report_undisturbed. Qed.

Lemma discard_notice_undisturbed key (s : Scheduler SessionState L) :
  undisturbed (sink s) (sink (discard_queued_notice key s).1).
Proof.
  unfold discard_queued_notice, discard_queued. cbv zeta.
  destruct (filter _ (queued key s)) as [|i gone]; [done|]. cbn [fst].
  assert (∀ l (s' : Scheduler SessionState L), undisturbed (sink s) (sink s') →
    undisturbed (sink s) (sink (foldl (λ s i, emit_progress i INTERRUPTED None false s) s' l))) as Hf.
  { induction l as [|j l IH]; intros s' Hs; simpl; [done|]. apply IH. etrans; [exact Hs|apply emit_progress_undisturbed]. }
  apply Hf. unfold set_queue. by destruct (filter _ _).
Qed.

Lemma discard_ack_sink key (s : Scheduler SessionState L) : sink (discard_queued_ack key s).1 = sink s.
Proof.
  unfold discard_queued_ack, discard_queued. cbv zeta.
  destruct (filter _ (queued key s)); [done|]. simpl. unfold set_queue. by destruct (filter _ _).
Qed.

Lemma with_scheduler_returns {A} p (f : Scheduler SessionState L → Scheduler SessionState L * A) (P : A → Prop) h :
  (∀ s, P (f s).2) → ∀ a, (with_scheduler p f h).2 = Some a → P a.
Proof.
  intros Hf a. unfold with_scheduler, with_acks, sched_call. simpl.
  rewrite list_lookup_alter_eq. destruct (pipelines (h_acks h) !! p); simpl; [|done]. intros [= <-]. apply Hf.
Qed.

(** ** The components a host call leaves alone *)

Record same_parts h h' : Prop := {
  sp_work : h_work h' = h_work h;
  sp_candidates : h_candidates h' = h_candidates h;
  sp_coordinator : h_coordinator h' = h_coordinator h;
  sp_recorders : h_recorders h' = h_recorders h;
  sp_measurements : h_measurements h' = h_measurements h;
  sp_policy : h_background_status h' = h_background_status h
}.

Lemma same_parts_refl h : same_parts h h.
Proof. by split. Qed.

Lemma with_acks_parts {A} p (f : AckSystem SessionState L → AckSystem SessionState L * A) h :
  same_parts h (with_acks p f h).1.
Proof. unfold with_acks. destruct (f _). by split. Qed.

Lemma with_scheduler_undisturbed {A} p (f : Scheduler SessionState L → Scheduler SessionState L * A) h :
  (∀ s, undisturbed (sink s) (sink (f s).1)) → undisturbed (h_state h) (h_state (with_scheduler p f h).1).
Proof.
  intros Hf. unfold with_scheduler, with_acks, sched_call. cbn [pipelines setter eta].
  simpl. rewrite list_lookup_alter_eq. destruct (pipelines (h_acks h) !! p) as [pl|] eqn:E; simpl.
  - rewrite list_lookup_insert_eq; [|rewrite length_alter; by eapply lookup_lt_Some].
    pose proof (Hf ((pl_scheduler pl) <| sink := h_state h |>)) as Hs. simpl in Hs |- *. exact Hs.
  - rewrite list_lookup_alter_eq, E. done.
Qed.

(** Settling an acknowledgement without cancelling it leaves the state alone. *)
Lemma settle_ack_sink p turn now (y : AckSystem SessionState L) q :
  (λ pl, sink (pl_scheduler pl)) <$> (pipelines (settle_turn_ack p turn false now y) !! q)
  = (λ pl, sink (pl_scheduler pl)) <$> (pipelines y !! q).
Proof.
  unfold settle_turn_ack, sched_call. cbv zeta iota. destruct (pipelines y !! p) as [pl|] eqn:E; [|done]. simpl.
  destruct (decide (q = p)) as [->|Hne]; [|by rewrite list_lookup_insert_ne].
  rewrite list_lookup_insert_eq by (by eapply lookup_lt_Some). rewrite E. simpl. f_equal. apply discard_ack_sink.
Qed.

Lemma settle_ack_latch p turn now (y : AckSystem SessionState L) :
  turn ∉ ack_emitted_turns (TurnAckLedger.ledger (settle_turn_ack p turn false now y)).
Proof. unfold settle_turn_ack, clear_ack_latch. simpl. set_solver. Qed.

Lemma release_released turn item l :
  (item ∉ children_of turn (release_turn_work_item turn item l)) ∧
  (turn ∉ ack_emitted_turns l → turn ∉ ack_emitted_turns (release_turn_work_item turn item l)).
Proof.
  unfold release_turn_work_item, children_of. destruct (dict_get turn (turn_work_items l)) as [items|] eqn:E.
  - case_decide; simpl; rewrite ?dict_get_pop_eq, ?dict_get_set_eq; simpl; set_solver.
  - rewrite E. simpl. set_solver.
Qed.

Lemma with_acks_settle p turn now h :
  let h' := (with_acks p (λ y, (settle_turn_ack p turn false now y, tt)) h).1 in
  h_state h' = h_state h ∧ turn ∉ ack_emitted_turns (host_ledger h').
Proof.
  unfold with_acks. set (y := (h_acks h) <| pipelines ::= _ |>). cbv zeta beta.
  split; [|apply (settle_ack_latch p turn now y)]. cbn [fst].
  pose proof (settle_ack_sink p turn now y p) as Hq. set (y' := settle_turn_ack p turn false now y) in *. clearbody y'.
  simpl. unfold y in Hq. simpl in Hq. rewrite list_lookup_alter_eq in Hq.
  destruct (pipelines y' !! p) as [pl|]; [|done]. destruct (pipelines (h_acks h) !! p); simpl in Hq; by simplify_eq.
Qed.

Definition ack_released (c : LateDeliveryContext) h : Prop :=
  (lc_turn_id c ∉ ack_emitted_turns (host_ledger h)) ∧
  (lc_work_item_id c ∉ children_of (lc_turn_id c) (host_ledger h)).

Lemma settle_late_ack_spec c now h :
  let h' := settle_late_ack c now h in
  same_parts h h' ∧ h_state h' = h_state h ∧ ack_released c h'.
Proof.
  unfold settle_late_ack. cbv zeta. set (h1 := match connection (h_acks h) with Some _ => _ | None => _ end).
  assert (same_parts h h1 ∧ h_state h1 = h_state h ∧ lc_turn_id c ∉ ack_emitted_turns (host_ledger h1)) as (Hp & Hs & Ha).
  { assert (∀ h, same_parts h (on_ledger (clear_ack_latch (lc_turn_id c)) h) ∧
      h_state (on_ledger (clear_ack_latch (lc_turn_id c)) h) = h_state h ∧
      lc_turn_id c ∉ ack_emitted_turns (host_ledger (on_ledger (clear_ack_latch (lc_turn_id c)) h))) as Hc
      by (intros g; split_and!; [by split|done|simpl; set_solver]).
    unfold h1. destruct (connection (h_acks h)) as [p|]; [|apply Hc].
    destruct (pipelines (h_acks h) !! p) as [pl|] eqn:E; [|apply Hc]. destruct (_ =? _)%N; [|apply Hc].
    split; [apply with_acks_parts|apply with_acks_settle]. }
  clearbody h1. destruct (release_released (lc_turn_id c) (lc_work_item_id c) (host_ledger h1)) as [Hr Hk].
  split_and!; [by destruct Hp; split | done | split; [by apply Hk | exact Hr]].
Qed.

(** ** Committing *)

(** The clarification the commit would pass on can be refused only when the
    host has no open coordinator. *)
Definition coordinator_open h : Prop :=
  ∃ co, h_coordinator h = Some co ∧ is_shutdown co = false.

Lemma commit_result_state_spec r e stamp now h :
  gr_origin_epoch r = Some e →
  let '(h', out) := commit_result_state r stamp now h in
  h_work h' = h_work h ∧ h_acks h' = h_acks h ∧ h_recorders h' = h_recorders h ∧
  h_measurements h' = h_measurements h ∧ h_background_status h' = h_background_status h ∧
  same_ledger (h_state h) (h_state h') ∧
  results (h_state h') = (if existsb (λ i, bool_decide (result_id i = result_id r)) (results (h_state h))
                          then results (h_state h) else results (h_state h) ++ [r]) ∧
  (coordinator_open h → out = Ret tt).
Proof.
  intros He. unfold commit_result_state. cbv zeta. rewrite He. cbn [h_state setter eta].
  match goal with |- context [append_transcript ?t ?s] =>
    pose proof (append_transcript_undisturbed t s) as [Hr Hl]; set (s1 := (append_transcript t s).1) in * end.
  simpl. fold s1. clearbody s1. pose proof (append_result_own r e s1 He) as Ha.
  destruct (append_result r None (Some e) s1) as [s2 out]. destruct Ha as (Ho & Hl2 & Hr2).
  rewrite Hr in Hr2. assert (same_ledger (h_state h) s2) as Hl3 by (by etrans).
  destruct out; [|done]. destruct (dict_get _ _) as [cd|]; [|by split_and!].
  match goal with |- context [if ?b then _ else _] => destruct b end; [|by split_and!].
  simpl. destruct (h_coordinator h) as [co|] eqn:Eco; [|split_and!; try done; intros (co & E & _); congruence].
  unfold add_worker_clarification, add_pending, ensure_open.
  destruct (is_shutdown co) eqn:Esh; simpl; split_and!; try done.
  intros (co' & E & Hsh). simplify_eq. congruence.
Qed.

(** ** Classifying a late result *)

(** The first matching fence, in the order of the source *)
Inductive verdict := VError | VInvalid | VStale | VDuplicate | VCommit (r : GroundedResult).

Definition late_verdict (c : LateDeliveryContext) (late : LateResult late_value) (log : list GroundedResult)
    : verdict :=
  match lr_error late, lr_result late with
  | Some _, _ => VError
  | None, Some (Grounded r) =>
      if decide (gr_origin_epoch r = Some (lc_origin_epoch c)) then
        if decide (result_id r ∈ (result_id <$> log)) then VDuplicate else VCommit r
      else VStale
  | None, _ => VInvalid
  end.

Definition verdict_logged (v : verdict) : list GroundedResult :=
  match v with VCommit r => [r] | _ => [] end.

(** The work and commit outcomes of a verdict *)
Definition verdict_labels (v : verdict) (was_cancelled : bool) (k : TerminalKind) : string * string :=
  let work := if was_cancelled then "cancelled" else "completed" in
  match v with
  | VError => (terminal_kind_name k,
               if decide (k = terminal_cancelled) then "suppressed_cancelled" else "not_applicable")
  | VInvalid => if was_cancelled then ("cancelled", "suppressed_cancelled") else ("invalid_result", "not_applicable")
  | VStale => (work, "suppressed_stale")
  | VDuplicate => (work, "suppressed_duplicate")
  | VCommit _ => (work, "committed")
  end.

Definition outcome_ok (v : verdict) (o : LateOutcome) : Prop :=
  lo_work o ∈ WORK_OUTCOMES ∧ lo_commit o ∈ COMMIT_OUTCOMES ∧ lo_speech o ∈ SPEECH_OUTCOMES ∧
  lo_disposition o ∈ LATE_DELIVERY_DISPOSITIONS ∧ (∀ i, lo_result_id o = Some i → ∃ r, v = VCommit r ∧ i = result_id r).

Ltac vocabulary := unfold outcome_ok; simpl; split_and!; try (by apply (bool_decide_unpack _)); try (by intros ? [=]).

Lemma existsb_result_ids (r : GroundedResult) log :
  existsb (λ i, bool_decide (result_id i = result_id r)) log = bool_decide (result_id r ∈ (result_id <$> log)).
Proof.
  apply eq_bool_prop_intro. rewrite bool_decide_spec. split.
  - intros (i & Hi & Hb%bool_decide_eq_true)%Is_true_true%existsb_exists. apply list_elem_of_fmap. exists i.
    by rewrite list_elem_of_In.
  - intros (i & Hr & Hi)%list_elem_of_fmap. apply Is_true_true, existsb_exists. exists i.
    rewrite <- list_elem_of_In. split; [done|]. by apply bool_decide_eq_true.
Qed.

(** What the branches of the [try] block have in common *)
Record classified (c : LateDeliveryContext) (late : LateResult late_value) (wc : bool) h h' (o : LateOutcome) : Prop := {
  cl_results : results (h_state h') = results (h_state h) ++ verdict_logged (late_verdict c late (results (h_state h)));
  cl_ledger : same_ledger (h_state h) (h_state h');
  cl_recorders : h_recorders h' = h_recorders h;
  cl_measurements : h_measurements h' = h_measurements h;
  cl_policy : h_background_status h' = h_background_status h;
  cl_cancelled : cancelled_ids (work_ledger h') = cancelled_ids (work_ledger h);
  cl_retired : lr_work_item_id late ∉ known_ids (work_ledger h');
  cl_vocabulary : outcome_ok (late_verdict c late (results (h_state h))) o;
  cl_labels : coordinator_open h →
    (lo_work o, lo_commit o) = verdict_labels (late_verdict c late (results (h_state h))) wc (lr_terminal_kind late) ∧
    lo_exception o = None
}.

(** A branch that only retires the work item *)
Lemma classified_retired c late wc h o :
  verdict_logged (late_verdict c late (results (h_state h))) = [] →
  outcome_ok (late_verdict c late (results (h_state h))) o →
  (lo_work o, lo_commit o) = verdict_labels (late_verdict c late (results (h_state h))) wc (lr_terminal_kind late) ∧
    lo_exception o = None →
  classified c late wc h (on_work (retire (lr_work_item_id late)) h) o.
Proof. intros Hl Hv He. split; try done; simpl; [by rewrite Hl, app_nil_r | set_solver]. Qed.

Lemma settle_worker_spec e r h :
  let h' := settle_worker e r h in undisturbed (h_state h) (h_state h') ∧ same_parts h h' ∧ h_acks h' = h_acks h.
Proof.
  unfold settle_worker. cbv zeta. destruct (dict_get _ _) as [w|]; [|split_and!; [done|apply same_parts_refl|done]].
  case_decide; [|split_and!; [done|apply same_parts_refl|done]]. split_and!; [apply set_worker_undisturbed|by split|done].
Qed.

Lemma late_speech_spec c item h :
  let '(h', o) := late_speech c item h in
  undisturbed (h_state h) (h_state h') ∧ same_parts h h' ∧ o.1 ∈ SPEECH_OUTCOMES ∧ o.2 ∈ LATE_DELIVERY_DISPOSITIONS.
Proof.
  unfold late_speech.
  assert (∀ x, x ∈ ["disconnected"; "no_tts"; "stale_connection"] → undisturbed (h_state h) (h_state h) ∧ same_parts h h ∧
    x ∈ SPEECH_OUTCOMES ∧ "display_only" ∈ LATE_DELIVERY_DISPOSITIONS) as Hq.
  { intros x Hx. split_and!; [done|apply same_parts_refl| |by apply (bool_decide_unpack _)]. revert x Hx.
    apply Forall_forall. by apply (bool_decide_unpack _). }
  destruct (connection (h_acks h)) as [p|]; [|apply Hq; by apply (bool_decide_unpack _)].
  destruct (pipelines (h_acks h) !! p) as [pl|]; [|apply Hq; by apply (bool_decide_unpack _)].
  destruct (negb (pl_tts pl)); [apply Hq; by apply (bool_decide_unpack _)|].
  destruct (_ || _ || _); [apply Hq; by apply (bool_decide_unpack _)|].
  split_and!; [|apply with_acks_parts|by apply (bool_decide_unpack _)..].
  apply with_scheduler_undisturbed, discard_notice_undisturbed.
Qed.

(** The committing branches: [g0] is the host after the commit and the
    retirement, [g] the host after what follows them *)
Definition committed_host (late : LateResult late_value) (h h1 g0 : Host L) : Prop :=
  cancelled_ids (work_ledger g0) = cancelled_ids (work_ledger h) ∧
  (lr_work_item_id late ∉ known_ids (work_ledger g0)) ∧ h_state g0 = h_state h1 ∧
  h_recorders g0 = h_recorders h ∧ h_measurements g0 = h_measurements h ∧
  h_background_status g0 = h_background_status h.

Lemma classified_commit c late (wc : bool) r stamp now h :
  lr_error late = None → lr_result late = Some (Grounded r) → gr_origin_epoch r = Some (lc_origin_epoch c) →
  existsb (λ i, bool_decide (result_id i = result_id r)) (results (h_state h)) = false →
  let '(h1, out) := commit_result_state r stamp now h in
  ∀ g0 g o, committed_host late h h1 g0 → same_parts g0 g → undisturbed (h_state g0) (h_state g) →
    outcome_ok (VCommit r) o →
    (out = Ret tt → (lo_work o, lo_commit o) = (if wc then "cancelled" else "completed", "committed") ∧ lo_exception o = None) →
    classified c late wc h g o.
Proof.
  intros Ee Er He Hd. pose proof (commit_result_state_spec r _ stamp now h He) as Hc.
  destruct (commit_result_state r stamp now h) as [h' out]. destruct Hc as (_ & _ & _ & _ & _ & Hl & Hr & Hout).
  rewrite Hd in Hr. assert (late_verdict c late (results (h_state h)) = VCommit r) as Hv.
  { unfold late_verdict. rewrite Ee, Er, decide_True, decide_False; [done| |done].
    rewrite existsb_result_ids in Hd. by apply bool_decide_eq_false in Hd. }
  intros g0 g o (Hcan & Hkn & Hst & Hrec & Hm & Hp) [Ew _ _ Erec Em Ep] [Hr2 Hl2] Ho Hlab.
  rewrite Hst in Hr2, Hl2. unfold work_ledger in *. split; unfold work_ledger; rewrite ?Hv, ?Ew; try congruence.
  - by rewrite Hr2, Hr.
  - intros Hco. by apply Hlab, Hout.
Qed.

Lemma classify_late_spec c late wc stamp now h :
  let '(h', o) := classify_late c late wc stamp now h in classified c late wc h h' o.
Proof.
  unfold classify_late. cbv zeta. destruct (lr_error late) as [err|] eqn:Ee.
  { destruct (decide (lr_terminal_kind late = terminal_cancelled)) as [Ek|Ek]; apply classified_retired;
      unfold late_verdict; rewrite Ee; try done; simpl; rewrite ?decide_True, ?decide_False by done;
      try done; destruct (lr_terminal_kind late); vocabulary. }
  destruct (lr_result late) as [[r|]|] eqn:Er.
  2, 3: apply classified_retired; unfold late_verdict; rewrite Ee, Er; destruct wc; try done; vocabulary.
  case_bool_decide as He; cbn [negb].
  2: { apply classified_retired; unfold late_verdict; rewrite Ee, Er, decide_False by done; destruct wc; try done; vocabulary. }
  destruct (existsb _ (results (h_state h))) eqn:Hd.
  { rewrite existsb_result_ids in Hd. apply bool_decide_eq_true in Hd. apply classified_retired; unfold late_verdict;
      rewrite Ee, Er, decide_True, decide_True by done; destruct wc; try done; vocabulary. }
  assert (∀ i : string, Some (result_id r) = Some i → ∃ r', VCommit r = VCommit r' ∧ i = result_id r') as Hid
    by (intros i [= <-]; eauto).
  destruct wc.
  - pose proof (classified_commit c late true r stamp now (on_work (retire (lr_work_item_id late)) h) Ee Er He Hd) as Hc.
    pose proof (commit_result_state_spec r _ stamp now (on_work (retire (lr_work_item_id late)) h) He) as Hf.
    destruct (commit_result_state _ _ _ _) as [h1 out]. destruct Hf as (Ew & _ & Erec & Em & Ep & _).
    assert (∀ g o, classified c late true (on_work (retire (lr_work_item_id late)) h) g o → classified c late true h g o) as Hg
      by (intros g o []; by split).
    assert (committed_host late (on_work (retire (lr_work_item_id late)) h) h1 h1) as Hco.
    { unfold committed_host, work_ledger. rewrite Ew. split_and!; try done. simpl. set_solver. }
    destruct out as [[]|e]; apply Hg; [destruct (settle_worker_spec (lc_origin_epoch c) r h1) as (? & ? & _)|];
      eapply Hc; try done; try apply same_parts_refl; vocabulary; by auto.
  - pose proof (classified_commit c late false r stamp now h Ee Er He Hd) as Hc.
    pose proof (commit_result_state_spec r _ stamp now h He) as Hf.
    destruct (commit_result_state _ _ _ _) as [h1 out]. destruct Hf as (Ew & _ & Erec & Em & Ep & _).
    assert (committed_host late h h1 (on_work (retire (lr_work_item_id late)) h1)) as Hco.
    { unfold committed_host, work_ledger. simpl. rewrite Ew. split_and!; try done. set_solver. }
    destruct out as [[]|e]; [|eapply Hc; try done; try apply same_parts_refl; vocabulary; by auto].
    destruct (settle_worker_spec (lc_origin_epoch c) r (on_work (retire (lr_work_item_id late)) h1)) as (Hu1 & Hp1 & _).
    set (h2 := settle_worker _ _ _) in *. pose proof (late_speech_spec c (lr_work_item_id late) h2) as Hl.
    destruct (late_speech c _ h2) as [h3 o]. destruct Hl as (Hu2 & Hp2 & Hs & Hdi).
    eapply Hc; [exact Hco| | | |done].
    + destruct Hp1, Hp2. split; congruence.
    + by etrans.
    + vocabulary; by auto.
Qed.

(** ** The recorder of retained work *)

(** A registered recorder: open, with identifiers the registry accepts *)
Definition recorder_open now (r : RetainedRecorder) : Prop :=
  rr_state r ≠ finalized ∧ (rr_start r <= now)%Q ∧ (0 ≤ rr_origin_epoch r)%Z ∧
  id_valid 128 (rr_session_id r) = true ∧ id_valid 128 (rr_turn_id r) = true ∧
  id_valid 128 (rr_work_item_id r) = true ∧ id_valid 128 (rr_app_worker_id r) = true.

Lemma claim_open k now r : recorder_open now r → recorder_open now (claim k r).1.
Proof. intros Hr. unfold claim. case_decide; [|done]. destruct Hr as (_ & Hr). by split. Qed.

Definition recorded_outcome (m : MeasurementRecord) : option pyval * option pyval :=
  (dict_get "work_outcome" (mr_fields m), dict_get "commit_outcome" (mr_fields m)).

Lemma finalize_recorder_spec v r o now h :
  recorder_open now r → outcome_ok v o → (∀ g, v = VCommit g → id_valid 128 (result_id g) = true) →
  opt_id 128 (rr_result_id r) →
  ∃ m, h_measurements (finalize_recorder (Some r) o now h) = h_measurements h ++ [m] ∧
    mr_event m = "work_item_background" ∧ recorded_outcome m = (Some (VStr (lo_work o)), Some (VStr (lo_commit o))).
Proof.
  intros (Hf & Hs & He & H1 & H2 & H3 & H4) (Hw & Hc & Hsp & Hd & Hid) Hv Hr.
  unfold finalize_recorder, retained_finalize. cbn [h_measurements setter eta re_work_outcome re_commit_outcome
    re_speech_outcome re_result_id re_provider re_model re_disposition set_some].
  rewrite decide_False by done. cbn [fst snd]. unfold safe_emit.
  assert (∀ x d, x ≠ EmptyString → or_else (Some x) d = x) as Hoe.
  { intros x d Hx. unfold or_else, truthy. simpl. by destruct x. }
  assert (∀ x (l : list string), x ∈ l → bool_decide (EmptyString ∈ l) = false → x ≠ EmptyString) as Hne.
  { intros x l Hx Hb ->. by rewrite bool_decide_true in Hb. }
  rewrite !Hoe by (eapply Hne; [eassumption | vm_compute; reflexivity]).
  rewrite retained_record_ok; [|try done..].
  - eexists. split; [reflexivity|]. split; [reflexivity|]. reflexivity.
  - destruct (lo_result_id o) as [i|] eqn:Ei; simpl; [|done]. intros x [= <-].
    destruct (Hid i eq_refl) as (g & -> & ->). by apply Hv.
  - by intros x [= <-].
Qed.

(** ** The whole callback *)

Definition was_cancelled (late : LateResult late_value) h : bool :=
  bool_decide (lr_error late = None ∧ lr_work_item_id late ∈ cancelled_ids (work_ledger h)).

Lemma consume_cancelled_spec late h :
  let '(h', wc) := consume_cancelled late h in
  wc = was_cancelled late h ∧ h_state h' = h_state h ∧ h_coordinator h' = h_coordinator h ∧
  h_recorders h' = h_recorders h ∧ h_measurements h' = h_measurements h ∧
  h_background_status h' = h_background_status h ∧
  (lr_error late = None → lr_work_item_id late ∉ cancelled_ids (work_ledger h')).
Proof.
  unfold consume_cancelled, was_cancelled. rewrite <- bool_decide_and.
  case_bool_decide as Hc; [|split_and!; try done; intros E Hin; by apply Hc].
  destruct (lr_result late) as [[r|]|]; split_and!; try done; simpl; set_solver.
Qed.

(** The callback up to the status it emits *)
Lemma commit_late_steps c late stamp now h :
  let v := late_verdict c late (results (h_state h)) in
  ∃ g o, outcome_ok v o ∧
    (coordinator_open h → (lo_work o, lo_commit o) = verdict_labels v (was_cancelled late h) (lr_terminal_kind late)
                          ∧ lo_exception o = None) ∧
    results (h_state g) = results (h_state h) ++ verdict_logged v ∧ same_ledger (h_state h) (h_state g) ∧
    ack_released c g ∧ (lr_work_item_id late ∉ known_ids (work_ledger g)) ∧
    (lr_error late = None → lr_work_item_id late ∉ cancelled_ids (work_ledger g)) ∧
    h_background_status g = h_background_status h ∧
    h_recorders g = dict_pop (lr_work_item_id late) (h_recorders h) ∧
    h_measurements g = match dict_get (lr_work_item_id late) (h_recorders h) with
                       | None => h_measurements h
                       | Some r => h_measurements (finalize_recorder
                           (Some (claim (terminal_kind_name (lr_terminal_kind late)) r).1) o now h)
                       end ∧
    commit_late_result_once c late stamp now h =
      let (h', emitted) := match late_status o (lr_terminal_kind late) with
                           | None => (g, Ret tt)
                           | Some d => host_emit_work_status
                               (mkTarget (lc_turn_id c) (lc_parent_work_item_id c) (Some (lc_origin_epoch c)))
                               (lc_work_item_id c) None d now g
                           end in
      (h', match emitted with
           | Raise e => Raise e
           | Ret _ => match lo_exception o with Some e => Raise e | None => Ret tt end
           end).
Proof.
  intros v. unfold commit_late_result_once, recorder_pop. cbv zeta.
  set (h0 := h <| h_recorders := _ |>). pose proof (consume_cancelled_spec late h0) as Hc.
  destruct (consume_cancelled late h0) as [h1 wc]. destruct Hc as (-> & Es & Eco & Er & Em & Ep & Hcan).
  pose proof (classify_late_spec c late (was_cancelled late h0) stamp now h1) as Hcl.
  destruct (classify_late c late _ stamp now h1) as [h2 o]. destruct Hcl as [Cr Cl Crec Cm Cp Cc Ck Cv Clab].
  rewrite Es in Cr, Cl, Cv, Clab. change (h_state h0) with (h_state h) in *.
  destruct (settle_late_ack_spec c now h2) as ([Pw _ _ Prec Pm Pp] & Ps & Pa). set (h3 := settle_late_ack c now h2) in *.
  clearbody h3. eexists (finalize_recorder _ o now h3), o. split; [exact Cv|].
  assert (∀ rec, let g := finalize_recorder rec o now h3 in h_state g = h_state h3 ∧ h_work g = h_work h3 ∧
    h_acks g = h_acks h3 ∧ h_recorders g = h_recorders h3 ∧ h_background_status g = h_background_status h3) as Hg
    by (by intros [r|]).
  specialize (Hg ((λ r, (claim (terminal_kind_name (lr_terminal_kind late)) r).1) <$> dict_get (lr_work_item_id late) (h_recorders h))).
  destruct Hg as (Gs & Gw & Ga & Gr & Gp).
  split. { intros (co & Hco & Hsh). apply Clab. exists co. by rewrite Eco. }
  unfold work_ledger, ack_released, host_ledger in *. rewrite Gs, Gw, Ga, Gr, Gp, Ps, Pw, Pp, Prec, Cp, Crec, Ep, Er.
  destruct Pa as [Pa1 Pa2]. split_and!; try done.
  - by rewrite Cc.
  - destruct (dict_get _ _) as [r|]; simpl; rewrite Pm, Cm, Em; done.
Qed.

Lemma emit_work_status_keeps t i worker d now h :
  let h' := (host_emit_work_status t i worker d now h).1 in
  results (h_state h') = results (h_state h) ∧ h_work h' = h_work h ∧ h_acks h' = h_acks h ∧
  h_recorders h' = h_recorders h ∧ h_measurements h' = h_measurements h.
Proof.
  unfold host_emit_work_status, emit_status. destruct (h_background_status h); [|done]. simpl.
  pose proof (set_child_core (tg_turn_id t) i (tg_parent t) worker d.1 (tg_epoch t) d.2 now (h_state h)) as [(_ & _ & Hr & _) _].
  destruct (set_child_work_status _ _ _ _ _ _ _ _ _) as [s r]. done.
Qed.


(** The status a branch reports for the child *)
Definition verdict_status (v : verdict) (wc : bool) (k : TerminalKind) : option WorkStatusState :=
  match v with
  | VDuplicate => None
  | VError => Some (if decide (k = terminal_cancelled) then cancelled else failed)
  | VCommit _ => Some (if wc then cancelled else result_ready)
  | VInvalid | VStale => Some (if wc then cancelled else failed)
  end.

Lemma late_status_verdict o v wc k :
  (lo_work o, lo_commit o) = verdict_labels v wc k → late_status o k = (λ st, (st, None)) <$> verdict_status v wc k.
Proof. unfold late_status. intros E. destruct v, wc, k; simpl in E; injection E as E1 E2; by rewrite E1, E2. Qed.

(** Truthful late statuses.  With the status feature on and the coordinator
    open, the callback does not raise, and the status it files for the child is
    the one its branch earned: [result_ready] only for a result it has just
    logged, [cancelled] for cancelled work, nothing for a duplicate, [failed]
    otherwise.  It is filed whenever the transition is legal for the child and
    the turn's key has not been settled, and the ledger is untouched when it is
    not. *)
Theorem late_status_truthful c late stamp now h :
  lc_turn_id c ≠ EmptyString → h_background_status h = true → coordinator_open h →
  let v := late_verdict c late (results (h_state h)) in
  let item := lc_work_item_id c in
  let key := mkKey (Some (lc_origin_epoch c)) (lc_turn_id c) (py_or (lc_parent_work_item_id c) item) in
  let '(h', out) := commit_late_result_once c late stamp now h in
  out = Ret tt ∧
  match verdict_status v (was_cancelled late h) (lr_terminal_kind late) with
  | None => same_ledger (h_state h) (h_state h')
  | Some st =>
      if legal_work_status_transition (wst_state <$> dict_get item (kids key (h_state h))) st
      then kids key (h_state h') = [] ∨ wst_state <$> dict_get item (kids key (h_state h')) = Some st
      else same_ledger (h_state h) (h_state h')
  end.
Proof.
  intros Ht Hp Hco v item key.
  destruct (commit_late_steps c late stamp now h) as (g & o & _ & Hlab & _ & Hl & _ & _ & _ & Hpg & _ & _ & ->).
  destruct (Hlab Hco) as [El Ex]. rewrite (late_status_verdict _ _ _ _ El), Ex. fold v.
  assert (kids key (h_state h) = kids key (h_state g)) as Ek.
  { unfold kids. by apply same_ledger_fields in Hl as (-> & _). }
  rewrite Ek. destruct (verdict_status v _ _) as [st|]; simpl; [|done].
  unfold host_emit_work_status, emit_status. rewrite Hpg, Hp. cbn [negb tg_turn_id tg_parent tg_epoch fst snd].
  assert (child_args_ok (lc_turn_id c) st None) as Hok by (by split).
  pose proof (set_child_kids key (lc_turn_id c) item (lc_parent_work_item_id c) None st (Some (lc_origin_epoch c)) None now
    (h_state g) Hok) as Hk. cbv zeta in Hk. fold key in Hk. rewrite decide_True in Hk by done.
  pose proof (set_child_returns (lc_turn_id c) item (lc_parent_work_item_id c) None st (Some (lc_origin_epoch c)) None now
    (h_state g) Hok) as Hr.
  fold item. destruct (set_child_work_status _ _ _ _ _ _ _ _ _) as [s r]. simpl in *.
  destruct r as [[ev|]|]; [..|done]; simpl; (split; [done|]).
  all: destruct (legal_work_status_transition _ _); [|by subst].
  all: destruct Hk as [->|Hk]; [right; by rewrite dict_get_set_eq | by left].
Qed.

(** ** Committing and speaking *)

Lemma reports_keep (s0 : SessionState) i st o al w : undisturbed s0 w → undisturbed s0 (report i st o al w).
Proof. intros Hw. etrans; [exact Hw | apply report_undisturbed]. Qed.

Lemma enqueue_undisturbed r w n t e u ro a ti (s : Scheduler SessionState L) :
  undisturbed (sink s) (sink (enqueue r w n t e u ro a ti s).1).
Proof.
  assert (both (λ _, True) (undisturbed (sink s)) (enqueue r w n t e u ro a ti s).1) as [_ Hb]; [|exact Hb].
  apply both_enqueue; [apply reports_keep | by split].
Qed.

Lemma start_next_undisturbed k env now (s : Scheduler SessionState L) :
  undisturbed (sink s) (sink (start_next k env now s).1).
Proof.
  assert (both (λ _, True) (undisturbed (sink s)) (start_next k env now s).1) as [_ Hb]; [|exact Hb].
  apply both_start_next; try done. apply reports_keep.
Qed.

(** The result may be spoken on pipeline [p]. *)
Definition speakable (require_tts : bool) p (e : option N) h : Prop :=
  connection (h_acks h) = Some p ∧ host_accepts e h = true ∧
  ∃ pl, pipelines (h_acks h) !! p = Some pl ∧ pl_active pl = true ∧ (require_tts = true → pl_tts pl = true).

Definition attempted (k : committed) : bool :=
  match k with CQueued | CSpeaking _ => true | CSuppressed _ | CHistoryOnly => false end.

Lemma commit_accepts r e stamp now h :
  gr_origin_epoch r = Some e →
  let h' := (commit_result_state r stamp now h).1 in ∀ x, host_accepts x h' = host_accepts x h.
Proof.
  intros He. unfold commit_result_state. cbv zeta. rewrite He. simpl.
  destruct (append_result _ _ _ _) as [s2 [ev|ex]]; [|done].
  destruct (dict_get _ _); [|done].
  match goal with |- context [if ?b then _ else _] => destruct b end; [|done]. simpl.
  destruct (h_coordinator h) as [co|]; [|done]. by destruct (add_worker_clarification _ _ _ _ _ _ _ _).
Qed.

Lemma enqueue_result_returns r w n t e u ro a ti (s : Scheduler SessionState L) :
  ro ≠ ROLE_ACK → returns (enqueue (Some r) w n t e u ro a ti s).2 = true.
Proof. intros Hro. unfold enqueue, new_SpeechItem. rewrite decide_False by done. simpl. by rewrite decide_False. Qed.

(** The call after the state commit: where the result goes *)
Lemma commit_and_speak_committed r e p role req mint stamp env now h :
  gr_origin_epoch r = Some e → (work_item_of_turn (gr_turn_id r) ∉ cancelled_ids (work_ledger h)) →
  coordinator_open h → role ≠ ROLE_ACK →
  let '(h', out) := commit_and_speak r p role req mint stamp env now h in
  results (h_state h') = (if decide (result_id r ∈ (result_id <$> results (h_state h)))
                          then results (h_state h) else results (h_state h) ++ [r]) ∧
  ∃ k, out = Ret k ∧ (attempted k = true ↔ speakable req p (Some e) h).
Proof.
  intros He Hnc Hco Hro. unfold commit_and_speak. cbv zeta. rewrite bool_decide_false by done.
  pose proof (commit_result_state_spec r e stamp now h He) as Hc. pose proof (commit_accepts r e stamp now h He) as Hacc.
  destruct (commit_result_state r stamp now h) as [h1 out]. destruct Hc as (_ & Ea & _ & _ & _ & _ & Hr & Hout).
  rewrite (Hout Hco), existsb_result_ids in *. cbn [fst] in Hacc.
  assert (results (h_state h1) = if decide (result_id r ∈ (result_id <$> results (h_state h)))
    then results (h_state h) else results (h_state h) ++ [r]) as Hr1 by (rewrite Hr; case_bool_decide; case_decide; done).
  set (h2 := on_work _ h1). change (h_acks h2) with (h_acks h1). rewrite Ea, He.
  assert (∀ x, host_accepts x h2 = host_accepts x h) as Hacc2 by (intros x; rewrite <- Hacc; done). rewrite Hacc2.
  destruct (pipelines (h_acks h) !! p) as [pl|] eqn:Ep.
  2: { split; [exact Hr1|]. exists CHistoryOnly. split; [done|]. split; [done|]. intros (_ & _ & pl & ? & _). congruence. }
  destruct (_ || _ || _ || _) eqn:Eb.
  { split; [exact Hr1|]. exists CHistoryOnly. split; [done|]. split; [done|]. intros (H1 & H2 & pl' & H3 & H4 & H5).
    simplify_eq. rewrite bool_decide_true, H2, H4 in Eb by done. simpl in Eb. rewrite !orb_false_r in Eb.
    apply andb_true_iff in Eb as [-> Eb]. by rewrite H5 in Eb. }
  pose proof (with_scheduler_undisturbed p (enqueue (Some (result_id r)) (work_item_of_turn (gr_turn_id r))
    ("run-" +:+ gr_turn_id r) (gr_spoken_text r) (Some e) mint role None None) h2 ltac:(intros s; apply enqueue_undisturbed)) as [Hr2 _].
  pose proof (with_scheduler_returns p (enqueue (Some (result_id r)) (work_item_of_turn (gr_turn_id r))
    ("run-" +:+ gr_turn_id r) (gr_spoken_text r) (Some e) mint role None None) (λ x, returns x = true) h2
    ltac:(intros s; by apply enqueue_result_returns)) as Hq.
  destruct (with_scheduler p _ h2) as [h3 q]. cbn [fst] in Hr2.
  destruct q as [[i|ex]|]; [|by specialize (Hq _ eq_refl)|].
  all: pose proof (with_scheduler_undisturbed p (start_next (Some (work_item_of_turn (gr_turn_id r))) env now) h3
         ltac:(intros s; apply start_next_undisturbed)) as [Hr3 _].
  all: destruct (with_scheduler p _ h3) as [h4 st]; cbn [fst] in Hr3; split; [by rewrite Hr3, Hr2|].
  all: eexists; split; [reflexivity|]; split; [intros _|by destruct st as [[?|]|]].
  all: rewrite !orb_false_iff in Eb; destruct Eb as [[[E1 E2] E3] E4].
  all: apply negb_false_iff, bool_decide_eq_true in E2; apply negb_false_iff in E3, E4.
  all: split_and!; [done|done|]; exists pl; split_and!; [done|done|]; intros ->; by apply andb_false_iff in E1 as [?|?%negb_false_iff].
Qed.


End facts.

(** ** Witnesses

    A session with one retained child in the background, its connection still
    there, when the worker's result arrives. *)

#[local] Existing Instance w_config.
#[local] Existing Instance RETENTION_FALLBACK.
#[local, refine] Instance wh_config : CoordinatorConfig :=
  {| max_background_tasks := 4; max_work_items_per_turn := 4; pending_dialogue_timeout := 60 |}.
Proof. lia. Defined.

Definition wh_result : GroundedResult := mkGroundedResult "result-1" "w" "turn-1" "ts" "answer" [] "answer" (Some 1%N).
Definition wh_state : SessionState :=
  (run [OpChild "turn-1" "work-turn-1" None (Some "w") routing (Some 1%N) None 0;
        OpChild "turn-1" "work-turn-1" None (Some "w") searching (Some 1%N) None 0;
        OpChild "turn-1" "work-turn-1" None (Some "w") background (Some 1%N) None 0] w_init).1.
Definition wh_arbiter : ConnectionArbiter := mkArbiter "s" "tok" 1 (Some (mkConnection 1 "s" "tok" [])).
Definition wh_acks : AckSystem SessionState Coordinator :=
  mkAckSystem TurnAckLedger_init [mkPipeline true true 1%N (Scheduler_init wh_state Coordinator_init)] (Some 0%nat)
    (λ _, true) true "ack" [] [] [].
Definition wh_host : Host Coordinator :=
  mkHost wh_state wh_acks World_init [] (Some WorkItemCoordinator_init) [] [] wh_arbiter false true.
Definition wh_late : LateResult late_value := mkLate "work-turn-1" "w" (Some (Grounded wh_result)) None terminal_completed.
Definition wh_context : LateDeliveryContext := mkLateContext "turn-1" "work-turn-1" 1 None 1.
Definition wh_key : WorkStatusKey := mkKey (Some 1%N) "turn-1" "work-turn-1".
Definition wh_committed : Host Coordinator * Prelude.result unit :=
  commit_late_result_once wh_context wh_late "ts" 1 wh_host.

Lemma wh_open : coordinator_open wh_host.
Proof. exists WorkItemCoordinator_init. done. Qed.

Lemma wh_legal :
  legal_work_status_transition (wst_state <$> dict_get "work-turn-1" (kids wh_key wh_state)) result_ready = true.
Proof. vm_compute. reflexivity. Qed.

Lemma late_status_truthful_witness :
  wh_committed.2 = Ret tt ∧
  (kids wh_key (h_state wh_committed.1) = [] ∨
   wst_state <$> dict_get "work-turn-1" (kids wh_key (h_state wh_committed.1)) = Some result_ready).
Proof.
  assert (lc_turn_id wh_context ≠ EmptyString) as Ht by (by intros [=]).
  pose proof (late_status_truthful wh_context wh_late "ts" 1 wh_host Ht eq_refl wh_open) as Hw.
  change (commit_late_result_once wh_context wh_late "ts" 1 wh_host) with wh_committed in Hw.
  destruct wh_committed as [h' out]. destruct Hw as [Hout Hst]. split; [exact Hout|].
  change (late_verdict wh_context wh_late (results (h_state wh_host))) with (VCommit wh_result) in Hst.
  change (was_cancelled wh_late wh_host) with false in Hst. cbn [verdict_status] in Hst.
  change (mkKey _ _ _) with wh_key in Hst. change (lc_work_item_id wh_context) with "work-turn-1" in Hst.
  change (h_state wh_host) with wh_state in Hst. rewrite wh_legal in Hst. exact Hst.
Defined.

Definition wh_spoken : Host Coordinator * Prelude.result committed :=
  commit_and_speak wh_result 0 ROLE_RESULT true "utt-1" "ts" (mkSlotEnv (Some true) "token-1") 1 wh_host.

Lemma wh_spoken_attempted : attempted <$> (match wh_spoken.2 with Ret k => Some k | _ => None end) = Some true.
Proof. vm_compute. reflexivity. Qed.

