(* ===== verification/Delegation.v ===== *)
(** Delegating work and cancelling it ([SessionHost] of
    [src/server/pipeline.py]: [_begin_delegation], [_mark_delegation_searching],
    [cancel_turn_or_child], [abort_connection]).

    None of these functions suspends ([cancel_turn_or_child] is a coroutine
    without an await), so each is one step on the host.  The turn's recorder and
    its dictionary of delegated children belong to the turn handler and are
    passed in and out. *)

From S2P Require Import Prelude PyDict Contracts SessionState ConnectionArbiter WorkTaskLedger SpeechLifecycle SpeechScheduler SpeechSchedulerFacts SpeechSystem TurnAckLedger Routing WorkItemCoordinator WorkStatusPublisher PerfMetrics WorkerProjection SessionHost SessionHostFacts.

(** ** Requests *)

Record DelegationRequest := mkRequest {
  dr_turn_id : string;
  dr_work_item_id : string;
  dr_worker : option WorkerObject;
  dr_origin_epoch : N;
  dr_worker_id_override : option string;
  dr_parent_work_item_id : option string
}.

(** The child's recorder is its index in the turn's recorder. *)
Record DelegatedChild := mkDelegated {
  dc_work_item_id : string;
  dc_worker_id : string;
  dc_child : nat
}.

(** What the turn handler passes along *)
Record TurnLocals := mkLocals {
  tl_recorder : AppTurnRecorder;
  tl_children : dict string (option string)
}.

#[export] Instance eta_TurnLocals : Eta TurnLocals := λ r, mkLocals (tl_recorder r) (tl_children r).

(** [_speech_role_for_child_outcome] *)
Definition speech_role_for_child_outcome (outcome : string) : SpeechRole :=
  if decide (outcome = "retained") then ROLE_TIMEOUT_NOTICE else ROLE_RESULT.

Section delegation.
Context {L : Type} `{!SpeechSlot L} {retention : RetentionConfig} `{CoordinatorConfig}.
Implicit Types (h : Host L) (now : Q) (p : nat) (t : TurnLocals).

Definition request_target (r : DelegationRequest) : StatusTarget :=
  mkTarget (dr_turn_id r) (dr_parent_work_item_id r) (Some (dr_origin_epoch r)).

(** A child that cannot be delegated: recorded, and its status filed *)
Definition reject_delegation (r : DelegationRequest) (outcome : string) (worker_id : option string)
    (reason : option TerminalReason) (finalize_turn : bool) now h t
    : Host L * TurnLocals * Prelude.result (option DelegatedChild) :=
  let (rec, n) := new_child (dr_work_item_id r) now (tl_recorder t) in
  let rec := child_finalize n outcome (mkDetails worker_id None None None None None None None) now rec in
  let rec := if finalize_turn then turn_finalize (Some "failed") None None None None now rec else rec in
  let t := t <| tl_recorder := rec |> in
  let (h, out) := host_emit_work_status (request_target r) (dr_work_item_id r) worker_id (failed, reason) now h in
  (h, t, match out with Raise e => Raise e | Ret _ => Ret None end).

(** [_begin_delegation] *)
Definition begin_delegation (r : DelegationRequest) (finalize_turn_on_failure : bool) now h t
    : Host L * TurnLocals * Prelude.result (option DelegatedChild) :=
  match dr_worker r with
  | None => reject_delegation r "missing_worker" None (Some missing_worker) finalize_turn_on_failure now h t
  | Some w =>
      let h := h <| h_state ::= project w (dr_origin_epoch r) "running" None |> in
      let worker_id := py_or (dr_worker_id_override r)
                         (match wo_metadata w with Some m => wm_worker_id m | None => "main" end) in
      if negb (wo_search w) then
        reject_delegation r "missing_search" (Some worker_id) None finalize_turn_on_failure now h t
      else
        let (rec, n) := new_child (dr_work_item_id r) now (tl_recorder t) in
        let t := mkLocals rec (dict_set (dr_work_item_id r) (Some worker_id) (tl_children t)) in
        let h := on_ledger (register_turn_work_item (dr_turn_id r) (dr_work_item_id r)) h in
        let h := on_work (register_known (dr_work_item_id r)) h in
        let (h, out) := host_emit_work_status (request_target r) (dr_work_item_id r) (Some worker_id)
                          (routing, None) now h in
        (h, t, match out with
               | Raise e => Raise e
               | Ret _ => Ret (Some (mkDelegated (dr_work_item_id r) worker_id n))
               end)
  end.

(** [_mark_delegation_searching] *)
Definition mark_delegation_searching (c : DelegatedChild) (target : StatusTarget) now h
    : Host L * Prelude.result unit :=
  host_emit_work_status target (dc_work_item_id c) (Some (dc_worker_id c)) (searching, None) now h.

(** ** Cancelling a turn or one of its children *)

Definition coordinator_ids h : list string :=
  match h_coordinator h with Some c => live_work_item_ids c | None => [] end.

(** The work the scheduler still carries, its acknowledgement apart *)
Definition scheduler_live (ack : string) (s : Scheduler SessionState L) : gset string :=
  list_to_set (pending_work_item_ids (Some ack) s) ∪
  match active s with
  | Some a => if decide (si_work_item_id (lease_item a) = ack) then ∅ else {[si_work_item_id (lease_item a)]}
  | None => ∅
  end.

(** The turn's other children that are still live *)
Definition remaining_children (turn child : string) (s : Scheduler SessionState L) h : gset string :=
  let live := scheduler_live (ack_work_item_id turn) s ∪ live_ids (work_ledger h) ∪ list_to_set (coordinator_ids h) in
  (live ∩ children_of turn (host_ledger h)) ∖ cancelled_ids (work_ledger h) ∖ {[child]}.

Definition clear_latch (turn : option string) h : Host L :=
  match turn with Some t => on_ledger (clear_ack_latch t) h | None => h end.

(** A swept acknowledgement takes its turn's latch with it. *)
Definition clear_ack_of h (i : SpeechItem) : Host L :=
  if decide (si_role i = ROLE_ACK) then clear_latch (si_turn_id i) h else h.

(** [cancel_turn_or_child] *)
Definition cancel_turn_or_child (turn child : option string) (origin : option nat) (exclude : option string) now h
    : Host L * (list string * list SpeechItem) :=
  match (match origin with Some p => Some p | None => connection (h_acks h) end) with
  | None => (clear_latch turn h, ([], []))
  | Some p =>
      let (h, work) := cancel_work child exclude h in
      let (h, cancelled) := with_scheduler p (SpeechScheduler.cancel child now) h in
      let speech := default [] cancelled in
      match child, turn with
      | None, _ =>
          (foldl clear_ack_of (clear_latch turn h) speech, (work, speech))
      | Some _, None => (h, (work, speech))
      | Some c, Some t =>
          match pl_scheduler <$> pipelines (h_acks h) !! p with
          | None => (h, (work, speech))
          | Some s =>
              if decide (remaining_children t c s h = ∅) then
                (clear_latch (Some t) (with_scheduler p (SpeechScheduler.cancel (Some (ack_work_item_id t)) now) h).1,
                 (work, speech))
              else (h, (work, speech))
          end
      end
  end.

End delegation.

(** Facts about delegation and cancellation: what a cancellation removes from
    the scheduler and marks in the ledgers, and when a turn's acknowledgement
    goes with its last live child. *)
(** ** The scheduler's [cancel] *)

Section cancel.
Context {W L : Type} `{!ProgressSink W} `{!SpeechSlot L}.
Implicit Types (s : Scheduler W L) (i : SpeechItem) (now : Q).

(** [cancel key] selects work item [j]. *)
Definition selects (key : option string) (j : string) : Prop := key = None ∨ key = Some j.

#[export] Instance selects_dec key j : Decision (selects key j).
Proof. unfold selects. apply _. Defined.

(** [s'] came from [s] by logging events without acknowledgement callbacks. *)
Definition quiet_log s s' : Prop :=
  ∃ es, trace s' = trace s ++ es ∧ Forall (λ e, ∀ identity r, e ≠ EAckTerminal identity r) es.

Lemma quiet_log_refl s : quiet_log s s.
Proof. exists []. rewrite app_nil_r. by split. Qed.

Lemma quiet_log_trans s1 s2 s3 : quiet_log s1 s2 → quiet_log s2 s3 → quiet_log s1 s3.
Proof.
  intros (e1 & E1 & F1) (e2 & E2 & F2). exists (e1 ++ e2). rewrite E2, E1, app_assoc. split; [done|by apply Forall_app].
Qed.

Lemma quiet_log_emit i st e a s : quiet_log s (emit_progress i st e a s).
Proof.
  unfold emit_progress. case_decide; [apply quiet_log_refl|]. eexists. split; [reflexivity|]. by repeat constructor.
Qed.

Lemma quiet_log_same s s' : trace s' = trace s → quiet_log s s'.
Proof. intros E. exists []. rewrite app_nil_r. by split. Qed.

Lemma quiet_log_cancel_item s i : si_role i ≠ ROLE_ACK → quiet_log s (cancel_item s i).
Proof.
  intros Hr. unfold cancel_item, notify_ack_swept. rewrite decide_False by done. apply quiet_log_emit.
Qed.

Lemma quiet_log_cancel_items l s : Forall (λ i, si_role i ≠ ROLE_ACK) l → quiet_log s (foldl cancel_item s l).
Proof.
  revert s. induction l as [|i l IH]; intros s Hl; [apply quiet_log_refl|]. apply Forall_cons in Hl as [Hi Hl].
  eapply quiet_log_trans; [by apply quiet_log_cancel_item|by apply IH].
Qed.

Lemma cancel_queue_shape s k : shape (cancel_queue s k) = (dict_pop k (queues s), paused_items s, active s).
Proof. unfold cancel_queue. rewrite fold_shape; [done|]. intros. apply cancel_item_shape. Qed.

Lemma cancel_paused_shape s k : shape (cancel_paused s k) = (queues s, dict_pop k (paused_items s), active s).
Proof.
  unfold cancel_paused. destruct (dict_get k (paused_items s)) eqn:E; [by rewrite cancel_item_shape|].
  unfold shape. by rewrite dict_pop_notin by by apply dict_get_None.
Qed.

Lemma cancel_active_fields key now s :
  let s' := (cancel_active key now s).1 in
  queues s' = queues s ∧ paused_items s' = paused_items s ∧ quiet_log s s' ∧
  active s' = match active s with
              | Some a => if decide (selects key (si_work_item_id (lease_item a))) then None else Some a
              | None => None
              end.
Proof.
  cbv zeta. unfold cancel_active. destruct (active s) as [a|] eqn:Ea.
  2: { simpl. split_and!; [done|done|apply quiet_log_refl|done]. }
  destruct (decide (key = None ∨ _)) as [Hk|Hk].
  2: { simpl. split_and!; [done|done|apply quiet_log_refl|]. by rewrite decide_False by exact Hk. }
  rewrite (decide_True (P := selects _ _)) by exact Hk. simpl. set (s1 := signal_stop _ _).
  destruct (emit_fields (lease_item a) INTERRUPTED None false s1) as (Eq & Ep & Eac).
  unfold release_lease. rewrite Eac. simpl. rewrite Ea. rewrite decide_True by done. simpl. split_and!; [done..| |done].
  eapply (quiet_log_trans _ s1); [|apply quiet_log_emit]. eexists. split; [reflexivity|]. by repeat constructor.
Qed.

(** A fold that pops one key of a field at a time *)
Lemma fold_pops {A B} (field : A → dict string B) (f : A → string → A) ks a j :
  (∀ a k, field (f a k) = dict_pop k (field a)) →
  dict_get j (field (foldl f a ks)) = if decide (j ∈ ks) then None else dict_get j (field a).
Proof.
  intros Hf. revert a. induction ks as [|k ks IH]; intros a; simpl.
  - destruct (decide (j ∈ [])) as [Hj|]; [by apply not_elem_of_nil in Hj|done].
  - rewrite IH, Hf, dict_get_pop. repeat case_decide; set_solver.
Qed.

Lemma fold_keeps {A B} (field : A → B) (f : A → string → A) ks a :
  (∀ a k, field (f a k) = field a) → field (foldl f a ks) = field a.
Proof. intros Hf. revert a. induction ks as [|k ks IH]; intros a; simpl; [done|]. by rewrite IH, Hf. Qed.

Lemma cancel_fields key now s :
  let s' := (SpeechScheduler.cancel key now s).1 in
  (∀ j, dict_get j (queues s') = if decide (selects key j) then None else dict_get j (queues s)) ∧
  (∀ j, dict_get j (paused_items s') = if decide (selects key j) then None else dict_get j (paused_items s)) ∧
  active s' = match active s with
              | Some a => if decide (selects key (si_work_item_id (lease_item a))) then None else Some a
              | None => None
              end.
Proof.
  cbv zeta. unfold SpeechScheduler.cancel. destruct (cancel_active key now s) as [s1 first] eqn:E1.
  pose proof (cancel_active_fields key now s) as (Eq & Ep & _ & Ea). rewrite E1 in Eq, Ep, Ea. simpl in Eq, Ep, Ea. simpl.
  set (ks := match key with Some k => [k] | None => dict_keys (queues s1) end).
  set (ps := match key with Some k => [k] | None => dict_keys (paused_items s1) end).
  pose proof (λ s k, f_equal (λ x, x.1.1) (cancel_queue_shape s k)) as Qq.
  pose proof (λ s k, f_equal (λ x, x.1.2) (cancel_queue_shape s k)) as Qp.
  pose proof (λ s k, f_equal snd (cancel_queue_shape s k)) as Qa.
  pose proof (λ s k, f_equal (λ x, x.1.1) (cancel_paused_shape s k)) as Pq.
  pose proof (λ s k, f_equal (λ x, x.1.2) (cancel_paused_shape s k)) as Pp.
  pose proof (λ s k, f_equal snd (cancel_paused_shape s k)) as Pa. cbn in Qq, Qp, Qa, Pq, Pp, Pa.
  split_and!.
  - intros j. rewrite (fold_keeps queues cancel_paused ps) by done. rewrite (fold_pops queues cancel_queue ks) by done. rewrite Eq.
    unfold ks, selects. destruct key as [k|]; [repeat case_decide; set_solver|]. rewrite (decide_True (P := _ ∨ _)) by tauto.
    case_decide as Hj; [done|]. rewrite Eq in Hj. by apply dict_get_None.
  - intros j. rewrite (fold_pops paused_items cancel_paused ps) by done. rewrite (fold_keeps paused_items cancel_queue ks) by done. rewrite Ep.
    unfold ps, selects. destruct key as [k|]; [repeat case_decide; set_solver|]. rewrite (decide_True (P := _ ∨ _)) by tauto.
    case_decide as Hj; [done|]. rewrite Ep in Hj. by apply dict_get_None.
  - rewrite (fold_keeps active cancel_paused ps), (fold_keeps active cancel_queue ks) by done. exact Ea.
Qed.

(** Cancelling a work item that has no acknowledgement of its own notifies no
    ledger. *)
Lemma cancel_quiet_log k now s :
  Forall (λ i, si_role i ≠ ROLE_ACK) (queued k s) →
  (∀ i, dict_get k (paused_items s) = Some i → si_role i ≠ ROLE_ACK) →
  quiet_log s (SpeechScheduler.cancel (Some k) now s).1.
Proof.
  intros Hq Hp. unfold SpeechScheduler.cancel. destruct (cancel_active (Some k) now s) as [s1 first] eqn:E1.
  pose proof (cancel_active_fields (Some k) now s) as (Eq & Ep & Hl & _). rewrite E1 in Eq, Ep, Hl. simpl in Eq, Ep, Hl. simpl.
  eapply quiet_log_trans; [exact Hl|]. unfold queued in Hq. rewrite <- Eq in Hq.
  eapply (quiet_log_trans _ (cancel_queue s1 k)).
  - unfold cancel_queue, queued. eapply (quiet_log_trans _ (s1 <| queues ::= dict_pop k |>)); [by apply quiet_log_same|].
    by apply quiet_log_cancel_items.
  - pose proof (f_equal (λ x, x.1.2) (cancel_queue_shape s1 k)) as Qp. cbn in Qp. unfold cancel_paused. rewrite Qp, Ep.
    destruct (dict_get k (paused_items s)) as [i|] eqn:Ei; [|apply quiet_log_refl].
    apply (quiet_log_trans _ ((cancel_queue s1 k) <| paused_items ::= dict_pop k |>)); [by apply quiet_log_same|].
    apply quiet_log_cancel_item. by apply Hp.
Qed.
End cancel.

(** ** The host *)

Section host.
Context {L : Type} `{!SpeechSlot L} {retention : RetentionConfig} `{CoordinatorConfig}.
Implicit Types (h : Host L) (now : Q) (p : nat).

Lemma with_scheduler_at {A} p (f : Scheduler SessionState L → Scheduler SessionState L * A) h pl :
  pipelines (h_acks h) !! p = Some pl →
  let s := (pl_scheduler pl) <| sink := h_state h |> in
  let h' := (with_scheduler p f h).1 in
  (with_scheduler p f h).2 = Some (f s).2 ∧
  pipelines (h_acks h') !! p = Some (pl <| pl_scheduler := (f s).1 |>) ∧
  host_ledger h' = foldl ack_event (host_ledger h) (drop (length (trace s)) (trace (f s).1)) ∧
  same_parts h h'.
Proof.
  intros Hp. cbv zeta. unfold with_scheduler, with_acks, sched_call, host_ledger. simpl.
  rewrite list_lookup_alter_eq, Hp. simpl. rewrite list_lookup_insert_eq by (rewrite length_alter; by eapply lookup_lt_Some).
  done.
Qed.

Lemma dedup_elem l i : i ∈ dedup l ↔ i ∈ l.
Proof. unfold dedup. rewrite fromkeys_elem. unfold dict_keys. simpl. set_solver. Qed.

(** What [_cancel_work] selects *)
Definition cancellable (item exclude : option string) h (i : string) : Prop :=
  Some i ≠ exclude ∧ selects item i ∧
  (i ∈ local_ids (work_ledger h) ∨ i ∈ coordinator_ids h ∨ item = None ∧ i ∈ known_ids (work_ledger h)).

Lemma coordinator_cancel_keys {V} item (c : WorkItemCoordinator V) :
  live_work_item_ids (WorkItemCoordinator.cancel item c).1 = live_work_item_ids c ∧
  ∀ i, i ∈ (WorkItemCoordinator.cancel item c).2 ↔ selects item i ∧ i ∈ live_work_item_ids c.
Proof.
  unfold WorkItemCoordinator.cancel, live_work_item_ids. simpl. split.
  - set (l := filter _ _). assert (∀ c' : WorkItemCoordinator V, WorkItemCoordinator.work_tasks (foldl
      (λ (c : WorkItemCoordinator V) i, match dict_get i (WorkItemCoordinator.work_tasks c) with Some t => cancel_task t c | None => c end) c' l)
      = WorkItemCoordinator.work_tasks c') as E; [|by rewrite E].
    induction l as [|i l IH]; intros c'; simpl; [done|]. rewrite IH. destruct (dict_get i _) as [t|]; [|done].
    unfold cancel_task. by destruct (running t c').
  - intros i. rewrite list_elem_of_filter. unfold selects. tauto.
Qed.

Lemma cancel_work_spec item exclude h :
  let '(h', selected) := cancel_work item exclude h in
  h_acks h' = h_acks h ∧ h_state h' = h_state h ∧ coordinator_ids h' = coordinator_ids h ∧
  live_ids (work_ledger h') = live_ids (work_ledger h) ∧
  cancelled_ids (work_ledger h') = cancelled_ids (work_ledger h) ∪ list_to_set selected ∧
  ∀ i, i ∈ selected ↔ cancellable item exclude h i.
Proof.
  unfold cancel_work, cancellable, coordinator_ids, work_ledger.
  destruct (h_coordinator h) as [c|] eqn:Ec.
  - pose proof (coordinator_cancel_keys item c) as [Ek Hk]. destruct (WorkItemCoordinator.cancel item c) as [c' more].
    simpl in Ek, Hk. cbn [h_work h_acks h_state h_coordinator setter]. simpl. split_and!; try done.
    intros i. destruct item as [j|]; rewrite !list_elem_of_filter, ?dedup_elem, !elem_of_app, ?dedup_elem, ?elem_of_app, !list_elem_of_filter, Hk; unfold selects in *.
    + naive_solver.
    + rewrite elem_of_elements. tauto.
  - cbn [h_work h_acks h_state h_coordinator setter]. simpl. split_and!; try done.
    intros i. destruct item as [j|]; rewrite !list_elem_of_filter, ?dedup_elem, !elem_of_app, ?dedup_elem, ?elem_of_app, !list_elem_of_filter; unfold selects in *.
    + set_solver.
    + rewrite elem_of_elements. set_solver.
Qed.

(** ** One child *)

(** The scheduler still has speech of work item [x]. *)
Definition carries (s : Scheduler SessionState L) (x : string) : Prop :=
  is_Some (dict_get x (queues s)) ∨ ∃ a, active s = Some a ∧ si_work_item_id (lease_item a) = x.

Definition silent (k : string) (s : Scheduler SessionState L) : Prop :=
  dict_get k (queues s) = None ∧ dict_get k (paused_items s) = None ∧
  ∀ a, active s = Some a → si_work_item_id (lease_item a) ≠ k.

Definition same_speech (k : string) (s s' : Scheduler SessionState L) : Prop :=
  dict_get k (queues s') = dict_get k (queues s) ∧ dict_get k (paused_items s') = dict_get k (paused_items s) ∧
  ∀ a, si_work_item_id (lease_item a) = k → active s' = Some a ↔ active s = Some a.

(** A sibling of [c] that keeps the turn's acknowledgement meaningful *)
Definition other_live (turn c : string) (s : Scheduler SessionState L) h (x : string) : Prop :=
  x ∈ children_of turn (host_ledger h) ∧ x ≠ c ∧ (x ∉ cancelled_ids (work_ledger h)) ∧
  (x ∈ live_ids (work_ledger h) ∨ x ∈ coordinator_ids h ∨ x ≠ ack_work_item_id turn ∧ carries s x).

Lemma scheduler_live_elem ack (s : Scheduler SessionState L) x :
  sched_inv s → x ∈ scheduler_live ack s ↔ x ≠ ack ∧ carries s x.
Proof.
  intros Hi. unfold scheduler_live, carries, pending_work_item_ids. rewrite elem_of_union, elem_of_list_to_set, list_elem_of_fmap.
  assert ((∃ y, x = y.1 ∧ y ∈ filter (λ p : string * list SpeechItem, p.2 ≠ [] ∧ Some p.1 ≠ Some ack) (queues s)) ↔
          x ≠ ack ∧ is_Some (dict_get x (queues s))) as ->.
  { setoid_rewrite list_elem_of_filter. split.
    - intros ([k q] & -> & [_ Hk] & Hin). split; [simpl in *; congruence|]. simpl. exists q. apply dict_elem_get; [apply Hi|done].
    - intros [Hx [q Hq]]. exists (x, q). split_and!; [done| |simpl; congruence|by apply dict_get_elem]. by apply (sv_queues _ Hi _ _ Hq). }
  destruct (active s) as [a|]; [case_decide as Ha|]; set_solver.
Qed.

Lemma same_speech_sink k (s s' : Scheduler SessionState L) w :
  same_speech k (s <| sink := w |>) s' → same_speech k s s'.
Proof. done. Qed.

Lemma cancel_silences key now (s : Scheduler SessionState L) k :
  (selects key k → silent k (SpeechScheduler.cancel key now s).1) ∧
  (¬ selects key k → same_speech k s (SpeechScheduler.cancel key now s).1).
Proof.
  destruct (cancel_fields key now s) as (Hq & Hp & Ha). split; intros Hk.
  - unfold silent. rewrite Hq, Hp, Ha, !decide_True by done. split_and!; [done|done|].
    intros a Ea <-. destruct (active s) as [b|]; [|done]. case_decide as Hb; [done|]. by simplify_eq.
  - unfold same_speech. rewrite Hq, Hp, Ha, !decide_False by done. split_and!; [done|done|].
    intros a <-. destruct (active s) as [b|]; [|done]. case_decide as Hb; [|done]. split; [done|]. intros [= ->]. done.
Qed.

Lemma ack_events_quiet (es : list sched_event) l :
  Forall (λ e, ∀ identity r, e ≠ EAckTerminal identity r) es → foldl ack_event l es = l.
Proof.
  revert l. induction es as [|e es IH]; intros l Hf; [done|]. apply Forall_cons in Hf as [He Hf]. simpl.
  rewrite IH by done. destruct e; try done. by destruct (He identity reason).
Qed.

(** No acknowledgement is queued or paused under [k]. *)
Definition ack_free (k : string) (s : Scheduler SessionState L) : Prop :=
  Forall (λ i, si_role i ≠ ROLE_ACK) (queued k s) ∧
  ∀ i, dict_get k (paused_items s) = Some i → si_role i ≠ ROLE_ACK.

Lemma cancel_item_step c p exclude now h pl :
  pipelines (h_acks h) !! p = Some pl → ack_free c (pl_scheduler pl) →
  let '(h1, work) := cancel_work (Some c) exclude h in
  let h2 := (with_scheduler p (SpeechScheduler.cancel (Some c) now) h1).1 in
  let s := (SpeechScheduler.cancel (Some c) now ((pl_scheduler pl) <| sink := h_state h |>)).1 in
  pipelines (h_acks h2) !! p = Some (pl <| pl_scheduler := s |>) ∧
  host_ledger h2 = host_ledger h ∧ coordinator_ids h2 = coordinator_ids h ∧
  live_ids (work_ledger h2) = live_ids (work_ledger h) ∧
  cancelled_ids (work_ledger h2) = cancelled_ids (work_ledger h) ∪ list_to_set work ∧
  ∀ i, i ∈ work ↔ i = c ∧ cancellable (Some c) exclude h c.
Proof.
  intros Hp [Hq Hpa]. pose proof (cancel_work_spec (Some c) exclude h) as Hw.
  destruct (cancel_work (Some c) exclude h) as [h1 work]. destruct Hw as (Ea & Es & Eco & El & Ecc & Hsel). cbv zeta.
  rewrite <- Ea in Hp. destruct (with_scheduler_at p (SpeechScheduler.cancel (Some c) now) h1 pl Hp) as (_ & Hp' & Hl & Hsame).
  rewrite Es in Hp', Hl. set (h2 := (with_scheduler p _ h1).1) in *.
  set (s0 := (pl_scheduler pl) <| sink := h_state h |>) in *.
  assert (quiet_log s0 (SpeechScheduler.cancel (Some c) now s0).1) as (es & Et & Hes) by (by apply cancel_quiet_log).
  assert (work_ledger h2 = work_ledger h1) as Ewl by (unfold work_ledger; by rewrite (sp_work _ _ Hsame)).
  rewrite Ewl. split_and!; [done| | | done | done |].
  - rewrite Hl, Et, drop_app_length, ack_events_quiet by done. unfold host_ledger. by rewrite Ea.
  - rewrite <- Eco. unfold coordinator_ids. by rewrite (sp_coordinator _ _ Hsame).
  - intros i. rewrite Hsel. split; [|by intros [-> ?]]. intros Hi. pose proof Hi as (_ & [?|[= <-]] & _); [done|]. by split.
Qed.

Lemma remaining_iff turn c (s s2 : Scheduler SessionState L) h h2 work :
  sched_inv s2 → (∀ k, k ≠ c → same_speech k s s2) →
  host_ledger h2 = host_ledger h → coordinator_ids h2 = coordinator_ids h →
  live_ids (work_ledger h2) = live_ids (work_ledger h) →
  cancelled_ids (work_ledger h2) = cancelled_ids (work_ledger h) ∪ list_to_set work → (∀ i, i ∈ work → i = c) →
  ∀ x, x ∈ remaining_children turn c s2 h2 ↔ other_live turn c s h x.
Proof.
  intros Hi Hs E1 E2 E3 E4 Hw x. unfold remaining_children, other_live. rewrite E1, E2, E3, E4.
  rewrite !elem_of_difference, elem_of_intersection, !elem_of_union, elem_of_singleton, !elem_of_list_to_set, scheduler_live_elem by done.
  assert (x ≠ c → carries s2 x ↔ carries s x) as Hc.
  { intros Hx. destruct (Hs x Hx) as (Eq & _ & Ea). unfold carries. rewrite Eq. f_equiv. split; intros (a & Ha & E); exists a; naive_solver. }
  assert (x ≠ c → x ∉ work) as Hwx by (by intros Hx ?%Hw). split.
  - intros [[[Hlive Hown] Hcan] Hx]. specialize (Hc Hx). tauto.
  - intros (Hown & Hx & Hcan & Hlive). specialize (Hc Hx). specialize (Hwx Hx). tauto.
Qed.

(** C26.  Cancelling one child of a turn.  The child's speech is gone from the
    scheduler, queued, paused and active, and nothing else of another work item
    is touched; its work is marked cancelled exactly when a task of it is known
    and it is not the excluded one.  If another child of the turn is still
    live, by a task, by being registered, in the background or in the scheduler,
    and not itself cancelled, the turn's acknowledgement and every latch stay;
    otherwise the acknowledgement is taken out of the scheduler and its latch
    cleared. *)
Theorem child_cancel_settles_ack turn c p exclude now h pl :
  pipelines (h_acks h) !! p = Some pl → sched_inv (pl_scheduler pl) →
  c ≠ ack_work_item_id turn → ack_free c (pl_scheduler pl) →
  let s := pl_scheduler pl in
  let ack := ack_work_item_id turn in
  let '(h', (work, _)) := cancel_turn_or_child (Some turn) (Some c) (Some p) exclude now h in
  ∃ s', pl_scheduler <$> pipelines (h_acks h') !! p = Some s' ∧ silent c s' ∧
    (∀ i, i ∈ work ↔ i = c ∧ cancellable (Some c) exclude h c) ∧
    cancelled_ids (work_ledger h') = cancelled_ids (work_ledger h) ∪ list_to_set work ∧
    ((∃ x, other_live turn c s h x) →
       ack_emitted_turns (host_ledger h') = ack_emitted_turns (host_ledger h) ∧ ∀ k, k ≠ c → same_speech k s s') ∧
    ((¬ ∃ x, other_live turn c s h x) →
       (turn ∉ ack_emitted_turns (host_ledger h')) ∧ silent ack s' ∧ ∀ k, k ≠ c → k ≠ ack → same_speech k s s').
Proof.
  intros Hp Hinv Hca Haf. cbv zeta. unfold cancel_turn_or_child.
  pose proof (cancel_item_step c p exclude now h pl Hp Haf) as Hstep.
  destruct (cancel_work (Some c) exclude h) as [h1 work]. destruct (with_scheduler p _ h1) as [h2 cancelled] eqn:E2.
  cbn [fst] in Hstep. destruct Hstep as (Hp2 & El & Eco & Eli & Ecc & Hwork).
  set (s0 := (pl_scheduler pl) <| sink := h_state h |>) in *. set (s2 := (SpeechScheduler.cancel (Some c) now s0).1) in *.
  assert (sched_inv s2) as Hi2 by (apply inv_cancel; by apply (inv_shape (pl_scheduler pl))).
  assert (silent c s2) as Hsil by (apply cancel_silences; by right).
  assert (∀ k, k ≠ c → same_speech k (pl_scheduler pl) s2) as Hsame.
  { intros k Hk. apply (same_speech_sink _ _ _ (h_state h)). apply cancel_silences. intros [?|[= <-]]; done. }
  pose proof (remaining_iff turn c _ s2 h h2 work Hi2 Hsame El Eco Eli Ecc (λ i Hi, proj1 (proj1 (Hwork i) Hi))) as Hrem.
  rewrite Hp2. cbn [fmap option_fmap option_map]. change (pl_scheduler (pl <| pl_scheduler := s2 |>)) with s2.
  case_decide as Hr.
  - destruct (with_scheduler_at p (SpeechScheduler.cancel (Some (ack_work_item_id turn)) now) h2 _ Hp2) as (_ & Hp3 & _ & Hparts).
    set (h3 := (with_scheduler p _ h2).1) in *. eexists. split; [simpl; by rewrite Hp3|].
    set (s3 := (SpeechScheduler.cancel (Some (ack_work_item_id turn)) now _).1) in *. change (pl_scheduler (_ <| pl_scheduler := s3 |>)) with s3.
    assert (∀ k, k ≠ ack_work_item_id turn → same_speech k s2 s3) as Hs3.
    { intros k Hk. apply (same_speech_sink _ _ _ (h_state h2)). apply cancel_silences. intros [?|[= <-]]; done. }
    assert (silent (ack_work_item_id turn) s3) as Hack by (apply cancel_silences; by right).
    assert (work_ledger (clear_latch (Some turn) h3) = work_ledger h2) as -> by (unfold work_ledger; simpl; by rewrite (sp_work _ _ Hparts)).
    split_and!; [|exact Hwork|exact Ecc| |].
    + destruct (Hs3 c Hca) as (Eq & Epa & Eac), Hsil as (Sq & Sp & Sa). split_and!; [congruence|congruence|].
      intros a Ha Hc. apply (Eac a Hc) in Ha. by destruct (Sa a Ha).
    + intros [x Hx%Hrem]. rewrite Hr in Hx. by apply not_elem_of_empty in Hx.
    + intros _. split_and!; [unfold host_ledger; simpl; set_solver|done|]. intros k Hk Hka.
      destruct (Hsame k Hk) as (A1 & A2 & A3), (Hs3 k Hka) as (B1 & B2 & B3).
      split_and!; [congruence|congruence|]. intros a Ha. by rewrite B3, A3.
  - exists s2. rewrite Hp2. split_and!; try done.
    + intros _. by rewrite El.
    + intros Hno. destruct Hr. apply elem_of_equiv_empty_L. intros x Hx%Hrem. apply Hno. by exists x.
Qed.

(** ** The whole turn *)

Lemma clear_latch_fields turn h :
  h_acks (clear_latch turn h) = (h_acks h) <| TurnAckLedger.ledger ::= (λ l, match turn with Some t => clear_ack_latch t l | None => l end) |> ∧
  h_work (clear_latch turn h) = h_work h.
Proof. destruct turn; [done|]. by destruct h as [? [] ? ? ? ? ? ? ? ?]. Qed.

Lemma clear_ack_of_fields h i :
  pipelines (h_acks (clear_ack_of h i)) = pipelines (h_acks h) ∧ h_work (clear_ack_of h i) = h_work h ∧
  ack_emitted_turns (host_ledger (clear_ack_of h i)) ⊆ ack_emitted_turns (host_ledger h).
Proof.
  unfold clear_ack_of. case_decide; [|done]. destruct (si_turn_id i); [|done]. unfold host_ledger. simpl. set_solver.
Qed.

Lemma clear_acks_fields l h :
  let h' := foldl clear_ack_of h l in
  pipelines (h_acks h') = pipelines (h_acks h) ∧ h_work h' = h_work h ∧
  ack_emitted_turns (host_ledger h') ⊆ ack_emitted_turns (host_ledger h) ∧
  ∀ i t, i ∈ l → si_role i = ROLE_ACK → si_turn_id i = Some t → t ∉ ack_emitted_turns (host_ledger h').
Proof.
  cbv zeta. revert h. induction l as [|j l IH]; intros h; simpl; [split_and!; try done; set_solver|].
  destruct (clear_ack_of_fields h j) as (E1 & E2 & E3), (IH (clear_ack_of h j)) as (F1 & F2 & F3 & F4).
  split_and!; [congruence|congruence|by etrans|]. intros i t [->|Hi]%elem_of_cons Hr Ht; [|by eapply F4].
  intros Hin%F3. revert Hin. unfold clear_ack_of. rewrite decide_True, Ht by done. unfold host_ledger. simpl. set_solver.
Qed.

(** Everything the scheduler held is in the list [cancel] returns. *)
Lemma cancel_returns_all now (s : Scheduler SessionState L) i :
  (∃ k, i ∈ queued k s) ∨ (∃ k, dict_get k (paused_items s) = Some i) ∨ lease_item <$> active s = Some i →
  i ∈ (SpeechScheduler.cancel None now s).2.
Proof.
  unfold SpeechScheduler.cancel. destruct (cancel_active None now s) as [s1 first] eqn:E1.
  pose proof (cancel_active_fields None now s) as (Eq & Ep & _ & _). rewrite E1 in Eq, Ep. simpl in Eq, Ep. simpl.
  rewrite !elem_of_app, list_elem_of_omap. intros [[k Hk]|[[k Hk]|Ha]].
  - right. left. apply list_elem_of_In, in_concat. exists (queued k s1). rewrite <- !list_elem_of_In.
    unfold queued in *. rewrite Eq. split; [|done]. apply list_elem_of_fmap. exists k. split; [done|].
    apply dict_get_is_Some. destruct (dict_get k (queues s)); [by eexists|by apply not_elem_of_nil in Hk].
  - right. right. exists k. rewrite Ep. split; [|done]. apply dict_get_is_Some. by eexists.
  - left. unfold cancel_active in E1. destruct (active s) as [a|]; [|done]. rewrite decide_True in E1 by tauto.
    simplify_eq/=. by constructor.
Qed.

(** Cancelling a whole turn.  The connection's scheduler is left with nothing
    queued, paused or active, and everything it held is in the returned list;
    every work item with a task, registered without one yet, or kept in the
    background is marked cancelled, the caller's own excluded one apart; and the
    latches of the turn and of every acknowledgement swept are cleared. *)
Theorem whole_cancel_clears turn p exclude now h pl :
  pipelines (h_acks h) !! p = Some pl →
  let s := pl_scheduler pl in
  let '(h', (work, speech)) := cancel_turn_or_child turn None (Some p) exclude now h in
  (∃ s', pl_scheduler <$> pipelines (h_acks h') !! p = Some s' ∧ queues s' = [] ∧ paused_items s' = [] ∧ active s' = None) ∧
  (∀ i, (∃ k, i ∈ queued k s) ∨ (∃ k, dict_get k (paused_items s) = Some i) ∨ lease_item <$> active s = Some i → i ∈ speech) ∧
  (∀ i, i ∈ live_ids (work_ledger h) ∨ i ∈ coordinator_ids h → Some i ≠ exclude →
     i ∈ work ∧ i ∈ cancelled_ids (work_ledger h')) ∧
  (∀ t, turn = Some t → t ∉ ack_emitted_turns (host_ledger h')) ∧
  (∀ i t, i ∈ speech → si_role i = ROLE_ACK → si_turn_id i = Some t → t ∉ ack_emitted_turns (host_ledger h')).
Proof.
  intros Hp. cbv zeta. unfold cancel_turn_or_child. pose proof (cancel_work_spec None exclude h) as Hw.
  destruct (cancel_work None exclude h) as [h1 work]. destruct Hw as (Ea & Es & _ & _ & Ecc & Hsel).
  rewrite <- Ea in Hp. destruct (with_scheduler_at p (SpeechScheduler.cancel None now) h1 pl Hp) as (Eret & Hp2 & _ & Hparts).
  destruct (with_scheduler p _ h1) as [h2 cancelled]. cbn [fst snd] in *. subst cancelled. cbn [default from_option]. unfold id.
  set (s0 := (pl_scheduler pl) <| sink := h_state h1 |>) in *. set (speech := (SpeechScheduler.cancel None now s0).2).
  destruct (clear_latch_fields turn h2) as [Fa Fw].
  destruct (clear_acks_fields speech (clear_latch turn h2)) as (Ep & Ew & El & Eall).
  set (h3 := foldl clear_ack_of (clear_latch turn h2) speech) in *.
  split_and!.
  - eexists. rewrite Ep, Fa. simpl. rewrite Hp2. split; [done|]. simpl.
    destruct (cancel_fields None now s0) as (Hq & Hpa & Hact). split_and!.
    + apply dict_empty. intros k v. rewrite Hq, decide_True by (by left). done.
    + apply dict_empty. intros k v. rewrite Hpa, decide_True by (by left). done.
    + rewrite Hact. destruct (active s0); [|done]. by rewrite decide_True by (by left).
  - intros i Hi. by apply cancel_returns_all.
  - intros i Hi Hne. assert (i ∈ work) as Hin.
    { apply Hsel. split_and!; [done|by left|]. destruct Hi as [Hi|Hi]; [|tauto]. revert Hi. unfold live_ids, local_ids.
      rewrite fromkeys_elem, !elem_of_union, !elem_of_list_to_set, elem_of_app. tauto. }
    split; [done|]. unfold work_ledger in *. rewrite Ew, Fw, (sp_work _ _ Hparts), Ecc. set_solver.
  - intros t ->. intros Hin%El. revert Hin. unfold host_ledger. simpl. set_solver.
  - exact Eall.
Qed.

(** ** Beginning a delegation *)

Lemma emit_status_parts t i worker d now h :
  let h' := (host_emit_work_status t i worker d now h).1 in
  h_acks h' = h_acks h ∧ h_work h' = h_work h ∧ h_coordinator h' = h_coordinator h.
Proof. unfold host_emit_work_status. by destruct (emit_status _ _ _ _ _ _ _). Qed.

Definition searchable (r : DelegationRequest) : bool := match dr_worker r with Some w => wo_search w | None => false end.

(** What a rejected request records of its child *)
Definition rejection (r : DelegationRequest) : string := match dr_worker r with Some _ => "missing_search" | None => "missing_worker" end.

Lemma new_child_fields item now t :
  let '(t', n) := new_child item now t in
  n = length (at_children t) ∧ at_children t' = at_children t ++ [mkChild item now false] ∧ at_sink t' = at_sink t ∧
  at_counters t' = at_counters t.
Proof. unfold new_child. by destruct (dict_mem item _). Qed.

Lemma reject_fields r outcome worker reason fin now h t :
  let '(h', t', out) := reject_delegation r outcome worker reason fin now h t in
  h_acks h' = h_acks h ∧ h_work h' = h_work h ∧ h_coordinator h' = h_coordinator h ∧ tl_children t' = tl_children t ∧
  ∀ d, out ≠ Ret (Some d).
Proof.
  unfold reject_delegation. destruct (new_child _ _ _) as [rec n]. cbv zeta.
  pose proof (emit_status_parts (request_target r) (dr_work_item_id r) worker (failed, reason) now h) as (E1 & E2 & E3).
  destruct (host_emit_work_status _ _ _ _ _ h) as [h' out]. cbn [fst] in *. split_and!; try done. by destruct out.
Qed.

Lemma begin_registered r fin now h t :
  searchable r = true →
  let '(h', t', out) := begin_delegation r fin now h t in
  work_ledger h' = register_known (dr_work_item_id r) (work_ledger h) ∧
  h_acks h' = (h_acks h) <| TurnAckLedger.ledger ::= register_turn_work_item (dr_turn_id r) (dr_work_item_id r) |> ∧
  h_coordinator h' = h_coordinator h ∧
  at_children (tl_recorder t') = at_children (tl_recorder t) ++ [mkChild (dr_work_item_id r) now false] ∧
  ∃ worker, tl_children t' = dict_set (dr_work_item_id r) (Some worker) (tl_children t) ∧
    match out with
    | Ret d => d = Some (mkDelegated (dr_work_item_id r) worker (length (at_children (tl_recorder t))))
    | Raise _ => True
    end.
Proof.
  unfold begin_delegation, searchable. destruct (dr_worker r) as [w|]; [|done]. intros ->. cbv zeta. cbn [negb].
  set (worker := py_or (dr_worker_id_override r) _).
  pose proof (new_child_fields (dr_work_item_id r) now (tl_recorder t)) as Hn.
  destruct (new_child _ _ _) as [rec n]. destruct Hn as (-> & Hch & _ & _).
  set (h1 := on_work _ _). pose proof (emit_status_parts (request_target r) (dr_work_item_id r) (Some worker) (routing, None) now h1) as (E1 & E2 & E3).
  destruct (host_emit_work_status _ _ _ _ _ h1) as [h' out]. cbn [fst] in *. unfold work_ledger. rewrite E1, E2, E3.
  split_and!; try done. exists worker. split; [done|]. by destruct out.
Qed.

(** A delegation registers a child completely or not at all.  With a worker
    that can search, the child is, before any acknowledgement can be admitted,
    known to the work ledger, registered under its turn and among the turn's
    children, with an open recorder of its own, and everything else in the
    ledgers is as before; without one nothing is registered anywhere.  A child is
    returned only in the first case. *)
Theorem delegation_registers r fin now h t :
  let '(h', t', out) := begin_delegation r fin now h t in
  let item := dr_work_item_id r in
  h_coordinator h' = h_coordinator h ∧ pipelines (h_acks h') = pipelines (h_acks h) ∧
  if searchable r then
    known_ids (work_ledger h') = {[item]} ∪ known_ids (work_ledger h) ∧
    local_ids (work_ledger h') = local_ids (work_ledger h) ∧
    cancelled_ids (work_ledger h') = cancelled_ids (work_ledger h) ∧
    (∀ turn, children_of turn (host_ledger h') =
       if decide (turn = dr_turn_id r) then {[item]} ∪ children_of turn (host_ledger h) else children_of turn (host_ledger h)) ∧
    ack_emitted_turns (host_ledger h') = ack_emitted_turns (host_ledger h) ∧
    at_children (tl_recorder t') = at_children (tl_recorder t) ++ [mkChild item now false] ∧
    ∃ worker, tl_children t' = dict_set item (Some worker) (tl_children t) ∧
      match out with
      | Ret d => d = Some (mkDelegated item worker (length (at_children (tl_recorder t))))
      | Raise _ => True
      end
  else
    h_work h' = h_work h ∧ h_acks h' = h_acks h ∧ tl_children t' = tl_children t ∧ ∀ d, out ≠ Ret (Some d).
Proof.
  pose proof (begin_registered r fin now h t) as Hreg. destruct (searchable r) eqn:Es.
  - specialize (Hreg eq_refl). destruct (begin_delegation r fin now h t) as [[h' t'] out].
    destruct Hreg as (Ew & Ea & Ec & Ech & Ho). cbv zeta. unfold host_ledger. rewrite Ew, Ea, Ec. split_and!; try done.
    intros turn. unfold children_of. simpl. rewrite dict_get_set.
    destruct (decide (turn = dr_turn_id r)) as [->|Hne]; [by rewrite decide_True|by rewrite decide_False].
  - clear Hreg. unfold begin_delegation. unfold searchable in Es. destruct (dr_worker r) as [w|]; cbv zeta; [rewrite Es; cbn [negb]|].
    + set (h0 := h <| h_state ::= _ |>). set (worker := py_or (dr_worker_id_override r) _).
      pose proof (reject_fields r "missing_search" (Some worker) None fin now h0 t) as Hr.
      destruct (reject_delegation _ _ _ _ _ _ _ _) as [[h' t'] out]. destruct Hr as (-> & -> & -> & -> & Ho). done.
    + pose proof (reject_fields r "missing_worker" None (Some missing_worker) fin now h t) as Hr.
      destruct (reject_delegation _ _ _ _ _ _ _ _) as [[h' t'] out]. destruct Hr as (-> & -> & -> & -> & Ho). done.
Qed.

Lemma foldl_clear_work l h : h_work (foldl clear_ack_of h l) = h_work h.
Proof. by destruct (clear_acks_fields l h) as (_ & -> & _). Qed.

(** The work side of a cancellation is [_cancel_work]'s. *)
Lemma cancel_turn_work turn child p exclude now h :
  let '(h', (work, _)) := cancel_turn_or_child turn child (Some p) exclude now h in
  work = (cancel_work child exclude h).2 ∧ h_work h' = h_work (cancel_work child exclude h).1.
Proof.
  unfold cancel_turn_or_child. destruct (cancel_work child exclude h) as [h1 work].
  pose proof (sp_work _ _ (with_acks_parts p (sched_call p (SpeechScheduler.cancel child now)) h1)) as E1.
  unfold with_scheduler. destruct (with_acks p _ h1) as [h2 cancelled]. cbn [fst] in E1.
  destruct child as [c|]; [destruct turn as [t|]; [|done]|].
  - destruct (pl_scheduler <$> _); [|done]. case_decide; [|done]. cbn [fst snd]. split; [done|].
    rewrite (proj2 (clear_latch_fields _ _)), <- E1. apply with_acks_parts.
  - cbn [fst snd]. split; [done|]. by rewrite foldl_clear_work, (proj2 (clear_latch_fields _ _)).
Qed.

(** A child that was just delegated and has no task yet is out of reach of a
    targeted cancellation: it is neither returned nor marked, so its work goes on,
    while a cancellation of the whole turn marks it. *)
Theorem unstarted_child_escapes_cancel r fin now h t p :
  searchable r = true →
  let item := dr_work_item_id r in
  item ∉ local_ids (work_ledger h) → item ∉ coordinator_ids h → item ∉ cancelled_ids (work_ledger h) →
  let '(h', _, _) := begin_delegation r fin now h t in
  let targeted := cancel_turn_or_child (Some (dr_turn_id r)) (Some item) (Some p) None now h' in
  let whole := cancel_turn_or_child (Some (dr_turn_id r)) None (Some p) None now h' in
  targeted.2.1 = [] ∧ (item ∉ cancelled_ids (work_ledger targeted.1)) ∧
  item ∈ whole.2.1 ∧ item ∈ cancelled_ids (work_ledger whole.1).
Proof.
  intros Hs item Hl Hc Hn. pose proof (begin_registered r fin now h t Hs) as Hreg.
  destruct (begin_delegation r fin now h t) as [[h' t'] out]. destruct Hreg as (Ew & _ & Eco & _).
  cbv zeta. fold item in Ew.
  assert (¬ cancellable (Some item) None h' item) as Ht.
  { intros (_ & _ & Hi). unfold coordinator_ids in *. rewrite Ew, Eco in Hi. by destruct Hi as [?|[?|[? _]]]. }
  assert (cancellable None None h' item) as Hw.
  { split_and!; [done|by left|]. right. right. rewrite Ew. simpl. set_solver. }
  pose proof (cancel_work_spec (Some item) None h') as H1. pose proof (cancel_work_spec None None h') as H2.
  pose proof (cancel_turn_work (Some (dr_turn_id r)) (Some item) p None now h') as T1.
  pose proof (cancel_turn_work (Some (dr_turn_id r)) None p None now h') as T2.
  destruct (cancel_turn_or_child _ (Some item) _ _ _ _) as [h1 [w1 s1]], (cancel_turn_or_child _ None _ _ _ _) as [h2 [w2 s2]].
  destruct (cancel_work (Some item) None h') as [g1 v1], (cancel_work None None h') as [g2 v2]. cbn [fst snd] in *.
  destruct T1 as [-> E1], T2 as [-> E2], H1 as (_ & _ & _ & _ & C1 & S1), H2 as (_ & _ & _ & _ & C2 & S2).
  assert (v1 = []) as ->.
  { destruct v1 as [|x v1]; [done|]. assert (x ∈ x :: v1) as Hx by constructor. apply S1 in Hx.
    pose proof Hx as (_ & [?|[= <-]] & _); done. }
  unfold work_ledger in *. rewrite E1, E2, C1, C2, Ew. split_and!; [done|simpl; set_solver|by apply S2|].
  apply elem_of_union_r, elem_of_list_to_set. by apply S2.
Qed.
End host.

(** ** Witnesses

    A turn with two delegated children and a latched acknowledgement. *)

#[local] Existing Instance w_config.
#[local] Existing Instance RETENTION_FALLBACK.
#[local, refine] Instance wd_config : CoordinatorConfig :=
  {| max_background_tasks := 4; max_work_items_per_turn := 4; pending_dialogue_timeout := 60 |}.
Proof. lia. Defined.

Definition wd_ledger : TurnAckLedger :=
  TurnAckLedger_init <| ack_emitted_turns := {["turn-1"]} |> <| turn_work_items := [("turn-1", {["a"; "b"]})] |>.
Definition wd_pipeline : Pipeline SessionState Coordinator := mkPipeline true true 1%N (Scheduler_init wh_state Coordinator_init).
Definition wd_acks : AckSystem SessionState Coordinator :=
  mkAckSystem wd_ledger [wd_pipeline] (Some 0%nat) (λ _, true) true "ack" [] [] [].
Definition wd_work : World := World_init <| WorkTaskLedger.ledger ::= (λ l, register_known "a" (register_known "b" l)) |>.
Definition wd_host : Host Coordinator :=
  mkHost wh_state wd_acks wd_work [] (Some WorkItemCoordinator_init) [] [] wh_arbiter false true.
Definition wd_cancelled := cancel_turn_or_child (Some "turn-1") (Some "a") (Some 0%nat) None 1 wd_host.

Lemma wd_ack_free : ack_free "a" (pl_scheduler wd_pipeline).
Proof. split; [constructor|done]. Qed.

Lemma wd_sibling : other_live "turn-1" "a" (pl_scheduler wd_pipeline) wd_host "b".
Proof. split_and!; [apply (bool_decide_unpack _); vm_compute; exact I|done|apply not_elem_of_empty|]. left. apply (bool_decide_unpack _). vm_compute. exact I. Qed.

Lemma child_cancel_settles_ack_witness : "turn-1" ∈ ack_emitted_turns (host_ledger wd_cancelled.1).
Proof.
  assert ("a" ≠ ack_work_item_id "turn-1") as Ha by (intros [=]).
  pose proof (child_cancel_settles_ack "turn-1" "a" 0 None 1 wd_host wd_pipeline eq_refl (init_sched_inv _ _) Ha wd_ack_free) as Hw.
  cbv zeta in Hw. change (cancel_turn_or_child _ _ _ _ _ _) with wd_cancelled in Hw. destruct wd_cancelled as [h' [work speech]].
  destruct Hw as (s' & _ & _ & _ & _ & Hlive & _).
  destruct (Hlive (ex_intro _ "b" wd_sibling)) as [E _]. simpl. rewrite E. apply (bool_decide_unpack _). vm_compute. exact I.
Defined.

Definition wd_swept := cancel_turn_or_child (Some "turn-1") None (Some 0%nat) (Some "b") 1 wd_host.

Lemma whole_cancel_clears_witness : "a" ∈ cancelled_ids (work_ledger wd_swept.1) ∧ "turn-1" ∉ ack_emitted_turns (host_ledger wd_swept.1).
Proof.
  pose proof (whole_cancel_clears (Some "turn-1") 0 (Some "b") 1 wd_host wd_pipeline eq_refl) as Hw.
  cbv zeta in Hw. change (cancel_turn_or_child _ _ _ _ _ _) with wd_swept in Hw. destruct wd_swept as [h' [work speech]].
  destruct Hw as (_ & _ & Hlive & Hturn & _). split; [|by apply Hturn]. apply Hlive; [|by intros [=]].
  left. apply (bool_decide_unpack _). vm_compute. exact I.
Defined.

Definition wd_request : DelegationRequest :=
  mkRequest "turn-1" "c" (Some (mkWorkerObject true None "idle")) 1 None None.
Definition wd_locals : TurnLocals := mkLocals (AppTurnRecorder_init "s" 1 "turn-1" 0) [].
Definition wd_begun := begin_delegation wd_request true 1 wd_host wd_locals.

Lemma unstarted_child_escapes_cancel_witness :
  let h' := wd_begun.1.1 in
  (cancel_turn_or_child (Some "turn-1") (Some "c") (Some 0%nat) None 1 h').2.1 = [] ∧
  "c" ∈ (cancel_turn_or_child (Some "turn-1") None (Some 0%nat) None 1 h').2.1.
Proof.
  assert ("c" ∉ local_ids (work_ledger wd_host)) as H1 by (apply not_elem_of_nil).
  assert ("c" ∉ coordinator_ids wd_host) as H2 by (apply not_elem_of_nil).
  assert ("c" ∉ cancelled_ids (work_ledger wd_host)) as H3 by (apply not_elem_of_empty).
  pose proof (unstarted_child_escapes_cancel wd_request true 1 wd_host wd_locals 0 eq_refl H1 H2 H3) as Hw.
  change (begin_delegation _ _ _ _ _) with wd_begun in Hw. cbv zeta in *. destruct wd_begun as [[h' t'] out].
  destruct Hw as (E1 & _ & E2 & _). split; [exact E1|exact E2].
Defined.
