(* ===== verification/HostConnection.v ===== *)
(** Connections of the session host ([SessionHost.start], [connect],
    [_retire_old_connection], [abort_connection] and [shutdown] of
    [src/server/pipeline.py], [ConnectionPipeline.deactivate] of
    [src/server/connection_pipeline.py]).

    A connection pipeline is its index in the list of all pipelines ever made;
    it keeps its scheduler after it was replaced.  [connect] has no await
    between the promotion and the retirement of the old connection, so that part
    is one step; the shutdown task it creates for the old connection is a later
    step ([deactivate] again).  [shutdown] is cut where it awaits: the closing
    flag, the connection, and the end.  Starting the framework's runner and
    stopping a pipeline's worker and services are the framework's; two first
    connections that both start the host are not modelled. *)

From Stdlib Require Import Sorted.
From stdpp Require Import relations.
From S2P Require Import Prelude PyDict Contracts SessionState SessionLedger SessionFacts ConnectionArbiter WorkTaskLedger SpeechLifecycle SpeechScheduler SpeechSchedulerFacts SpeechAccounting SpeechSystem TurnAckLedger Routing WorkItemCoordinator WorkStatusPublisher PerfMetrics WorkerProjection SessionHost SessionHostFacts Delegation.

Section connections.
Context {L : Type} `{!SpeechSlot L} {retention : RetentionConfig} `{CoordinatorConfig}.
Implicit Types (h : Host L) (now : Q) (p : nat).

Definition set_active_epoch (e : option N) h : Host L := h <| h_state ::= (λ s, s <| active_epoch := e |>) |>.

Definition on_acks (f : AckSystem SessionState L → AckSystem SessionState L) h : Host L := h <| h_acks ::= f |>.

(** [pipeline.active = False] *)
Definition fence_lane p h : Host L :=
  on_acks (λ y, y <| pipelines ::= alter (λ pl, pl <| pl_active := false |>) p |>) h.

(** [ConnectionPipeline.deactivate] *)
Definition deactivate p (reconnect : bool) now h : Host L :=
  match pipelines (h_acks h) !! p with
  | None => h
  | Some pl => (with_scheduler p (interrupt (Some (pl_epoch pl)) reconnect true now) (fence_lane p h)).1
  end.

(** [_retire_old_connection] up to the shutdown task it creates *)
Definition retire_old_connection (old : option nat) now h : Host L :=
  match old with Some p => deactivate p true now h | None => h end.

(** [start], for a host that is not started *)
Definition start h : Host L := set_active_epoch None (h <| h_closing := false |>).

(** [connect] on a started host; [fresh] is the connection's new lifecycle
    coordinator and [tts] whether it has a speech service *)
Definition connect (handshake : SnapshotHandshake) (tts : bool) (fresh : L) now h : Host L * Prelude.result nat :=
  if h_closing h then (h, Raise (RuntimeError "session host is shutting down"))
  else
    let (a, out) := promote handshake (h_arbiter h) in
    let h := h <| h_arbiter := a |> in
    match out with
    | Raise e => (h, Raise e)
    | Ret c =>
        let old := connection (h_acks h) in
        let h := set_active_epoch (Some (cn_epoch c)) h in
        let p := length (pipelines (h_acks h)) in
        let pl := mkPipeline tts true (cn_epoch c) (Scheduler_init (h_state h) fresh) in
        let h := on_acks (λ y, y <| pipelines ::= (λ l, l ++ [pl]) |> <| connection := Some p |>) h in
        (retire_old_connection old now h, Ret p)
    end.

(** [abort_connection] *)
Definition abort_connection p (reconnect : bool) now h : Host L :=
  if decide (connection (h_acks h) = Some p) then
    set_active_epoch None (on_acks (λ y, y <| connection := None |>) (deactivate p reconnect now h))
  else h.

(** [shutdown], from its first statement to its first await *)
Definition shutdown_begin h : Host L := h <| h_closing := true |>.

(** ... the connection *)
Definition shutdown_connection now h : Host L :=
  match connection (h_acks h) with
  | Some p => on_acks (λ y, y <| connection := None |>) (deactivate p false now h)
  | None => h
  end.

(** ... and after the coordinator's own shutdown *)
Definition shutdown_finish now h : Host L :=
  let h := h <| h_measurements ::= finalize_all now (h_recorders h) |> <| h_recorders := [] |> in
  let h := on_ledger clear_all h in
  set_active_epoch None (h <| h_candidates ::= clear_candidates |>).

(** ** Steps

    The flag is [started].  [shutdown_finish] comes after the connection was
    dropped and no connection is accepted while the host is closing.  Any other
    code may change everything else. *)

(** What the rest of the program does not touch *)
Definition same_connection h h' : Prop :=
  h_arbiter h' = h_arbiter h ∧ h_closing h' = h_closing h ∧ active_epoch (h_state h') = active_epoch (h_state h) ∧
  connection (h_acks h') = connection (h_acks h) ∧
  (λ pl, (pl_active pl, pl_epoch pl)) <$> pipelines (h_acks h') = (λ pl, (pl_active pl, pl_epoch pl)) <$> pipelines (h_acks h).

Inductive conn_step : Host L * bool → Host L * bool → Prop :=
| CStart h : conn_step (h, false) (start h, true)
| CConnect handshake tts fresh now h : conn_step (h, true) ((connect handshake tts fresh now h).1, true)
| CAbort p reconnect now h b : conn_step (h, b) (abort_connection p reconnect now h, b)
| CFence p h b : conn_step (h, b) (fence_lane p h, b)
| CDeactivate p reconnect now h b : conn_step (h, b) (deactivate p reconnect now h, b)
| CClosing h b : conn_step (h, b) (shutdown_begin h, b)
| CDrop now h b : conn_step (h, b) (shutdown_connection now h, b)
| CFinish now h b :
    h_closing h = true → connection (h_acks h) = None → conn_step (h, b) (shutdown_finish now h, false)
| COther h h' b : same_connection h h' → conn_step (h, b) (h', b).

End connections.

(** The host's connections: at most one can be heard, epochs only grow, and a
    replaced connection leaves no speech behind. *)
Section facts.
Context {L : Type} `{!SpeechSlot L} {retention : RetentionConfig} `{CoordinatorConfig}.
Implicit Types (h : Host L) (now : Q) (p : nat) (s : Scheduler SessionState L).

(** ** What an interruption leaves alone *)

Lemma report_epoch i st o allow (w : SessionState) : active_epoch (report_progress i st o allow w) = active_epoch w.
Proof.
  unfold report_progress, speech_progress. cbv zeta. destruct (fenced _ _ && _); [done|].
  destruct (dict_get _ (speech w)); [|done]. destruct (delivery_terminal _); [done|]. by case_decide.
Qed.

Lemma emit_epoch i st e a s : active_epoch (sink (emit_progress i st e a s)) = active_epoch (sink s).
Proof. unfold emit_progress. case_decide; [done|]. apply report_epoch. Qed.

Lemma sweep_items_epoch st e l s : active_epoch (sink (foldl (sweep_item st e) s l)) = active_epoch (sink s).
Proof.
  revert s. induction l as [|i l IH]; intros s; simpl; [done|]. rewrite IH. unfold sweep_item.
  by rewrite notify_sink, emit_epoch.
Qed.

Lemma interrupt_epoch e r f now s : active_epoch (sink (interrupt e r f now s).1) = active_epoch (sink s).
Proof.
  rewrite interrupt_split. cbv zeta. set (st := if r then _ else _).
  assert (∀ g, active_epoch (sink (interrupt_active st e g now s)) = active_epoch (sink s)) as Ha.
  { intros g. unfold interrupt_active. destruct (active s) as [a|]; [|done]. unfold release_lease.
    set (s1 := signal_stop _ _). assert (active_epoch (sink (emit_progress (lease_item a) st e g s1)) = active_epoch (sink s)) as E
      by (by rewrite emit_epoch). destruct (active (emit_progress _ _ _ _ s1)); [|done]. by case_decide. }
  destruct (r || f); [|apply Ha]. unfold sweep. simpl. rewrite sweep_items_epoch. simpl. rewrite sweep_items_epoch. apply Ha.
Qed.

Lemma with_scheduler_rest {A} p (f : Scheduler SessionState L → Scheduler SessionState L * A) h pl :
  pipelines (h_acks h) !! p = Some pl →
  let h' := (with_scheduler p f h).1 in
  h_state h' = sink (f ((pl_scheduler pl) <| sink := h_state h |>)).1 ∧
  h_arbiter h' = h_arbiter h ∧ h_closing h' = h_closing h ∧ connection (h_acks h') = connection (h_acks h) ∧
  length (pipelines (h_acks h')) = length (pipelines (h_acks h)) ∧
  ∀ q, q ≠ p → pipelines (h_acks h') !! q = pipelines (h_acks h) !! q.
Proof.
  intros Hp. cbv zeta. unfold with_scheduler, with_acks, sched_call. simpl. rewrite list_lookup_alter_eq, Hp. simpl.
  rewrite list_lookup_insert_eq by (rewrite length_alter; by eapply lookup_lt_Some).
  split_and!; try done; [by rewrite length_insert, length_alter|].
  intros q Hq. by rewrite list_lookup_insert_ne, list_lookup_alter_ne by done.
Qed.

(** What the connection invariant reads of a pipeline *)
Definition lane (pl : Pipeline SessionState L) : bool * N := (pl_active pl, pl_epoch pl).

Definition lanes h : list (bool * N) := lane <$> pipelines (h_acks h).

Lemma fence_lanes p h : lanes (fence_lane p h) = alter (λ a, (false, a.2)) p (lanes h).
Proof. unfold lanes, fence_lane, on_acks. simpl. apply list_fmap_alter. by apply Forall_true. Qed.

Lemma alter_beyond {A} (f : A → A) k (l : list A) : l !! k = None → alter f k l = l.
Proof.
  intros Hk. apply list_eq. intros j. destruct (decide (j = k)) as [->|Hne]; [by rewrite list_lookup_alter_eq, Hk|].
  by rewrite list_lookup_alter_ne.
Qed.

(** [deactivate] fences the lane; the rest of the connection state stays. *)
Lemma deactivate_spec p reconnect now h :
  let h' := deactivate p reconnect now h in
  h_arbiter h' = h_arbiter h ∧ h_closing h' = h_closing h ∧ active_epoch (h_state h') = active_epoch (h_state h) ∧
  connection (h_acks h') = connection (h_acks h) ∧ lanes h' = alter (λ a, (false, a.2)) p (lanes h).
Proof.
  cbv zeta. unfold deactivate. destruct (pipelines (h_acks h) !! p) as [pl|] eqn:Ep.
  2: { split_and!; try done. symmetry. apply alter_beyond. unfold lanes. by rewrite list_lookup_fmap, Ep. }
  set (f := interrupt (Some (pl_epoch pl)) reconnect true now). set (h1 := fence_lane p h).
  assert (pipelines (h_acks h1) !! p = Some (pl <| pl_active := false |>)) as Ep1
    by (unfold h1, fence_lane, on_acks; simpl; by rewrite list_lookup_alter_eq, Ep).
  destruct (with_scheduler_at p f h1 _ Ep1) as (_ & Hat & _ & _).
  destruct (with_scheduler_rest p f h1 _ Ep1) as (Es & Ea & Ec & Econ & Elen & Hrest).
  split_and!; [done|done| |done|].
  - rewrite Es. unfold f. by rewrite interrupt_epoch.
  - rewrite <- fence_lanes. fold h1. unfold lanes. apply list_eq. intros q. rewrite !list_lookup_fmap.
    destruct (decide (q = p)) as [->|Hq]; [by rewrite Hat, Ep1|by rewrite Hrest].
Qed.

(** ** The invariant *)

Record conn_inv (h : Host L) (started : bool) : Prop := {
  ci_active : ∀ p e, lanes h !! p = Some (true, e) → connection (h_acks h) = Some p;
  ci_current : ∀ p, connection (h_acks h) = Some p →
    started = true ∧ S p = length (lanes h) ∧ ∃ a e, lanes h !! p = Some (a, e) ∧ active_epoch (h_state h) = Some e;
  ci_sorted : StronglySorted N.lt (lanes h).*2;
  ci_arbiter : match last (lanes h).*2 with
               | None => arb_active (h_arbiter h) = None
               | Some e => ∃ c, arb_active (h_arbiter h) = Some c ∧ cn_epoch c = e ∧ arb_epoch (h_arbiter h) = e
               end
}.

Lemma alter_lane_lookup p (l : list (bool * N)) q :
  alter (λ a : bool * N, (false, a.2)) p l !! q
  = (λ a, (if decide (q = p) then false else a.1, a.2)) <$> l !! q.
Proof.
  destruct (decide (q = p)) as [->|Hne].
  - rewrite list_lookup_alter_eq. by destruct (l !! p) as [[? ?]|].
  - rewrite list_lookup_alter_ne by done. by destruct (l !! q) as [[? ?]|].
Qed.

Lemma alter_lane_epochs p (l : list (bool * N)) : (alter (λ a, (false, a.2)) p l).*2 = l.*2.
Proof.
  apply list_eq. intros q. rewrite !list_lookup_fmap, alter_lane_lookup. by destruct (l !! q) as [[? ?]|].
Qed.

(** Fencing lanes and forgetting the connection keep the invariant. *)
Lemma inv_fenced h h' b b' p :
  conn_inv h b → lanes h' = alter (λ a, (false, a.2)) p (lanes h) → h_arbiter h' = h_arbiter h →
  (connection (h_acks h') = connection (h_acks h) ∧ active_epoch (h_state h') = active_epoch (h_state h) ∧ b' = b ∨
   connection (h_acks h') = None ∧ connection (h_acks h) = Some p) →
  conn_inv h' b'.
Proof.
  intros [Ha Hc Hs Hr] El Ear Hcon. split; rewrite El, ?alter_lane_epochs, ?Ear, ?length_alter; try done.
  - intros q e. rewrite alter_lane_lookup. destruct (lanes h !! q) as [[a e']|] eqn:Eq; [|done]. simpl.
    case_decide; intros [= -> ->]. destruct Hcon as [(-> & _ & _)|[_ Hp]]; [by eapply Ha|].
    apply Ha in Eq. congruence.
  - intros q Hq. destruct Hcon as [(E & Ee & ->)|[E _]]; [|congruence]. rewrite E in Hq.
    destruct (Hc q Hq) as (Hb & Hl & a & e & Hlk & Hep). split_and!; [done|done|].
    rewrite alter_lane_lookup, Hlk. simpl. eexists _, e. split; [done|]. congruence.
Qed.

Lemma inv_same h h' b :
  conn_inv h b → lanes h' = lanes h → h_arbiter h' = h_arbiter h → connection (h_acks h') = connection (h_acks h) →
  active_epoch (h_state h') = active_epoch (h_state h) → conn_inv h' b.
Proof. intros [Ha Hc Hs Hr] E1 E2 E3 E4. split; rewrite ?E1, ?E2, ?E3, ?E4; done. Qed.

Lemma sorted_snoc (l : list N) e :
  StronglySorted N.lt l → (∀ x, last l = Some x → (x < e)%N) → StronglySorted N.lt (l ++ [e]).
Proof.
  intros Hs Hl. induction Hs as [|x l Hs IH Hx]; simpl; [by repeat constructor|].
  assert (∀ y, last l = Some y → (y < e)%N) as Hl'.
  { intros y Hy. apply Hl. by destruct l. }
  constructor; [by apply IH|]. apply Forall_app_2; [done|]. apply Forall_singleton.
  destruct (last l) as [y|] eqn:Ey; [|apply last_None in Ey; subst; by apply Hl].
  pose proof (Hl' y eq_refl). rewrite Forall_forall in Hx. etrans; [|done]. apply Hx. by apply last_Some_elem_of.
Qed.

Lemma promote_outcomes handshake a :
  let '(a', out) := promote handshake a in
  match out with
  | Raise _ => a' = a
  | Ret c => arb_active a' = Some c ∧ arb_epoch a' = cn_epoch c ∧ (arb_active a ≠ None → (arb_epoch a < cn_epoch c)%N)
  end.
Proof.
  unfold promote. destruct (negb _); [done|]. destruct (negb _ || negb _); [done|].
  destruct (bool_decide _ && _) eqn:E; [done|]. simpl. split_and!; [done|done|]. intros Ha.
  rewrite bool_decide_true in E by done. simpl in E. by apply N.leb_gt in E.
Qed.

(** A new connection, before the old one is retired *)
Lemma inv_promoted handshake c a h h1 :
  conn_inv h true → promote handshake (h_arbiter h) = (a, Ret c) →
  lanes h1 = lanes h ++ [(true, cn_epoch c)] → h_arbiter h1 = a →
  connection (h_acks h1) = Some (length (lanes h)) → active_epoch (h_state h1) = Some (cn_epoch c) →
  ∀ h2, h_arbiter h2 = h_arbiter h1 → connection (h_acks h2) = connection (h_acks h1) →
    active_epoch (h_state h2) = active_epoch (h_state h1) →
    lanes h2 = match connection (h_acks h) with
               | Some q => alter (λ a, (false, a.2)) q (lanes h1)
               | None => lanes h1
               end →
    conn_inv h2 true.
Proof.
  intros [Ha Hc Hs Hr] Epr El1 Ea1 Ec1 Ee1 h2 Ea2 Ec2 Ee2 El2.
  pose proof (promote_outcomes handshake (h_arbiter h)) as Hp. rewrite Epr in Hp. destruct Hp as (Pa & Pe & Pn).
  assert ((lanes h2).*2 = (lanes h).*2 ++ [cn_epoch c]) as E2.
  { rewrite El2, El1. destruct (connection (h_acks h)); rewrite ?alter_lane_epochs; by rewrite fmap_app. }
  assert (length (lanes h2) = S (length (lanes h))) as Elen.
  { rewrite El2, El1. destruct (connection (h_acks h)); rewrite ?length_alter, length_app; simpl; lia. }
  assert (lanes h2 !! length (lanes h) = Some (true, cn_epoch c)) as Enew.
  { rewrite El2, El1. destruct (connection (h_acks h)) as [q|] eqn:Eq; [|by rewrite lookup_app_r, Nat.sub_diag by lia].
    destruct (Hc q eq_refl) as (_ & Hq & _). rewrite alter_lane_lookup, lookup_app_r, Nat.sub_diag by lia. simpl.
    rewrite decide_False by lia. done. }
  split; rewrite ?Ec2, ?Ee2, ?Ea2, ?Ec1, ?Ee1, ?Ea1, ?E2, ?Elen.
  - intros q e Hq. f_equal. assert (q < length (lanes h2))%nat as Hlt by (by eapply lookup_lt_Some).
    destruct (decide (q = length (lanes h))) as [->|Hne]; [done|]. exfalso. rewrite El2, El1 in Hq.
    destruct (connection (h_acks h)) as [r|] eqn:Er.
    + rewrite alter_lane_lookup, lookup_app_l in Hq by lia. destruct (lanes h !! q) as [[b f]|] eqn:Eq; [|done]. simpl in Hq.
      case_decide as Hqr; [done|]. injection Hq as -> ->. apply Ha in Eq. congruence.
    + rewrite lookup_app_l in Hq by lia. apply Ha in Hq. congruence.
  - intros q [= <-]. split_and!; [done|done|]. eexists _, _. by split.
  - apply sorted_snoc; [done|]. intros x Hx. rewrite Hx in Hr. destruct Hr as (d & Hd & _ & <-). apply Pn. by rewrite Hd.
  - rewrite last_snoc. exists c. by split_and!.
Qed.

Lemma inv_connect handshake tts fresh now h :
  conn_inv h true → conn_inv (connect handshake tts fresh now h).1 true.
Proof.
  intros Hinv. unfold connect. destruct (h_closing h); [done|].
  destruct (promote handshake (h_arbiter h)) as [a [c|err]] eqn:Epr; cbv zeta; cbn [fst].
  2: { pose proof (promote_outcomes handshake (h_arbiter h)) as Hp. rewrite Epr in Hp. by apply (inv_same h). }
  set (h1 := on_acks _ _).
  assert (lanes h1 = lanes h ++ [(true, cn_epoch c)]) as El.
  { unfold lanes, h1. simpl. by rewrite fmap_app. }
  assert (connection (h_acks h1) = Some (length (lanes h))) as Ec by (unfold lanes, h1; simpl; by rewrite length_fmap).
  change (connection (h_acks (h <| h_arbiter := a |>))) with (connection (h_acks h)).
  eapply (inv_promoted handshake c a h h1 Hinv Epr El eq_refl Ec eq_refl);
    unfold retire_old_connection; destruct (connection (h_acks h)) as [q|]; try done;
    by destruct (deactivate_spec q true now h1) as (? & ? & ? & ? & ?).
Qed.

Lemma conn_step_inv x y : conn_step x y → conn_inv x.1 x.2 → conn_inv y.1 y.2.
Proof.
  intros Hstep Hinv. destruct Hstep as [h|hs tts fresh now h|p rc now h b|p h b|p rc now h b|h b|now h b|now h b Hcl Hcn|h h' b Hsame]; cbn [fst snd] in *.
  - destruct Hinv as [Ha Hc Hs Hr]. split; try done. intros p Hp. by destruct (Hc p Hp) as [? _].
  - by apply inv_connect.
  - unfold abort_connection. case_decide as Hp; [|done]. destruct (deactivate_spec p rc now h) as (E1 & _ & _ & _ & E5).
    eapply (inv_fenced h _ b b p Hinv); [exact E5|exact E1|]. by right.
  - eapply (inv_fenced h _ b b p Hinv); [apply fence_lanes|done|]. by left.
  - destruct (deactivate_spec p rc now h) as (E1 & _ & E3 & E4 & E5). eapply (inv_fenced h _ b b p Hinv); [done|done|]. by left.
  - by apply (inv_same h).
  - unfold shutdown_connection. destruct (connection (h_acks h)) as [p|] eqn:Ep; [|done].
    destruct (deactivate_spec p false now h) as (E1 & _ & _ & _ & E5). eapply (inv_fenced h _ b b p Hinv); [exact E5|exact E1|]. by right.
  - destruct Hinv as [Ha Hc Hs Hr]. split; try done. intros p Hp. simpl in Hp. congruence.
  - destruct Hsame as (E1 & E2 & E3 & E4 & E5). by apply (inv_same h).
Qed.

(** A host that has just been made *)
Definition new_host h : Prop :=
  pipelines (h_acks h) = [] ∧ connection (h_acks h) = None ∧ arb_active (h_arbiter h) = None.

Lemma new_host_inv h : new_host h → conn_inv h false.
Proof.
  intros (Ep & Ec & Ea). split; unfold lanes; rewrite ?Ep, ?Ec; try done. constructor.
Qed.

Lemma conn_steps_inv x y : rtc conn_step x y → conn_inv x.1 x.2 → conn_inv y.1 y.2.
Proof. induction 1 as [|x y z Hxy _ IH]; [done|]. intros Hx. apply IH. by eapply conn_step_inv. Qed.

(** What the invariant says about the host's own view *)
Lemma conn_heard h started :
  conn_inv h started →
  (∀ p pl, pipelines (h_acks h) !! p = Some pl → pl_active pl = true →
     connection (h_acks h) = Some p ∧ S p = length (pipelines (h_acks h)) ∧ active_epoch (h_state h) = Some (pl_epoch pl)) ∧
  StronglySorted N.lt (pl_epoch <$> pipelines (h_acks h)) ∧
  (∀ e, host_accepts e h = true ↔
     h_closing h = false ∧ ∃ p pl, connection (h_acks h) = Some p ∧ pipelines (h_acks h) !! p = Some pl ∧
       pl_active pl = true ∧ e = Some (pl_epoch pl)).
Proof.
  intros [Ha Hc Hs Hr].
  assert ((lanes h).*2 = pl_epoch <$> pipelines (h_acks h)) as Ee by (unfold lanes; rewrite <- list_fmap_compose; done).
  assert (length (lanes h) = length (pipelines (h_acks h))) as Elen by (unfold lanes; apply length_fmap).
  assert (∀ p pl, pipelines (h_acks h) !! p = Some pl → lanes h !! p = Some (pl_active pl, pl_epoch pl)) as Hlane.
  { intros p pl Hp. unfold lanes. by rewrite list_lookup_fmap, Hp. }
  assert (∀ p pl, connection (h_acks h) = Some p → pipelines (h_acks h) !! p = Some pl →
    active_epoch (h_state h) = Some (pl_epoch pl) ∧ S p = length (pipelines (h_acks h)) ∧
    ∃ c, arb_active (h_arbiter h) = Some c ∧ cn_epoch c = pl_epoch pl) as Hcur.
  { intros p pl Hp Hpl. destruct (Hc p Hp) as (_ & Hlen & a & e & Hlk & Hep). rewrite (Hlane p pl Hpl) in Hlk. simplify_eq.
    split_and!; [done|lia|]. rewrite Ee, last_lookup, length_fmap, <- Elen, <- Hlen, list_lookup_fmap in Hr. simpl in Hr. rewrite Hpl in Hr.
    simpl in Hr. destruct Hr as (c & ? & ? & _). by exists c. }
  rewrite <- Ee. split_and!; [|done|].
  - intros p pl Hp Hact. pose proof (Hlane p pl Hp) as Hl. rewrite Hact in Hl. apply Ha in Hl.
    destruct (Hcur p pl Hl Hp) as (? & ? & _). by split_and!.
  - intros e. unfold host_accepts, current_pipeline, ConnectionArbiter.accepts. destruct (h_closing h); [split; [done|by intros [? _]]|].
    destruct (connection (h_acks h)) as [p|] eqn:Ep; simpl.
    2: { rewrite andb_false_r. split; [done|]. by intros (_ & p & pl & ? & _). }
    destruct (pipelines (h_acks h) !! p) as [pl|] eqn:Epl; simpl.
    2: { rewrite andb_false_r. split; [done|]. intros (_ & q & pl & [= <-] & ? & _). congruence. }
    destruct (Hcur p pl eq_refl Epl) as (_ & _ & c & -> & ->). rewrite andb_true_iff, bool_decide_eq_true.
    split; [intros [-> Hact]; split; [done|]; by exists p, pl|]. intros (_ & q & pl' & [= <-] & Hq & Hact & ->). by simplify_eq.
Qed.

(** ** Which steps add a pipeline *)

Lemma promote_epoch handshake a a' c : promote handshake a = (a', Ret c) → cn_epoch c = sh_proposed_epoch handshake.
Proof. unfold promote. repeat case_match; intros E; by simplify_eq. Qed.

Lemma connect_epochs handshake tts fresh now h :
  match connect handshake tts fresh now h with
  | (h', Ret p) => p = length (pipelines (h_acks h)) ∧ (lanes h').*2 = (lanes h).*2 ++ [sh_proposed_epoch handshake]
  | (h', Raise _) => lanes h' = lanes h
  end.
Proof.
  unfold connect. destruct (h_closing h); [done|].
  destruct (promote handshake (h_arbiter h)) as [a [c|err]] eqn:Ep; cbv zeta; [|done]. split; [done|].
  set (h1 := on_acks _ _).
  assert ((lanes h1).*2 = (lanes h).*2 ++ [sh_proposed_epoch handshake]) as El.
  { unfold lanes, h1. simpl. rewrite !fmap_app. cbn [fmap list_fmap lane pl_epoch snd]. by rewrite (promote_epoch _ _ _ _ Ep). }
  unfold retire_old_connection. destruct (connection (h_acks _)) as [q|]; [|done].
  destruct (deactivate_spec q true now h1) as (_ & _ & _ & _ & ->). by rewrite alter_lane_epochs.
Qed.

Lemma conn_step_epochs x y : conn_step x y → ∃ l, (lanes y.1).*2 = (lanes x.1).*2 ++ l.
Proof.
  intros Hstep. destruct Hstep as [h|hs tts fresh now h|p rc now h b|p h b|p rc now h b|h b|now h b|now h b Hcl Hcn|h h' b Hsame]; cbn [fst snd].
  2: { pose proof (connect_epochs hs tts fresh now h) as E. destruct (connect hs tts fresh now h) as [h' [p|e]]; cbn [fst].
       - by exists [sh_proposed_epoch hs]; apply E.
       - exists []. by rewrite E, app_nil_r. }
  all: exists []; rewrite app_nil_r; try done.
  - unfold abort_connection. case_decide; [|done]. destruct (deactivate_spec p rc now h) as (_ & _ & _ & _ & E).
    transitivity ((lanes (deactivate p rc now h)).*2); [done|]. by rewrite E, alter_lane_epochs.
  - by rewrite fence_lanes, alter_lane_epochs.
  - destruct (deactivate_spec p rc now h) as (_ & _ & _ & _ & E). by rewrite E, alter_lane_epochs.
  - unfold shutdown_connection. destruct (connection (h_acks h)) as [p|]; [|done].
    destruct (deactivate_spec p false now h) as (_ & _ & _ & _ & E).
    transitivity ((lanes (deactivate p false now h)).*2); [done|]. by rewrite E, alter_lane_epochs.
  - destruct Hsame as (_ & _ & _ & _ & E). unfold lanes. by apply (f_equal (fmap snd)) in E.
Qed.

(** C22.  One connection is heard at a time.  Over any sequence of starts, handshakes
    accepted or refused, aborted set-ups, lane teardowns, retirements, shutdowns
    and other code in between: the only pipeline that can be active is the
    newest one, it is the host's connection and its epoch is the one the session
    state fences with; epochs strictly increase from one pipeline to the next;
    and the host accepts an epoch exactly when it is not closing and that epoch is
    the one of its active connection. *)
Theorem one_connection_heard h0 h started :
  new_host h0 → rtc conn_step (h0, false) (h, started) →
  (∀ p pl, pipelines (h_acks h) !! p = Some pl → pl_active pl = true →
     connection (h_acks h) = Some p ∧ S p = length (pipelines (h_acks h)) ∧ active_epoch (h_state h) = Some (pl_epoch pl)) ∧
  StronglySorted N.lt (pl_epoch <$> pipelines (h_acks h)) ∧
  (∀ e, host_accepts e h = true ↔
     h_closing h = false ∧ ∃ p pl, connection (h_acks h) = Some p ∧ pipelines (h_acks h) !! p = Some pl ∧
       pl_active pl = true ∧ e = Some (pl_epoch pl)).
Proof. intros Hnew Hrun. apply (conn_heard h started), (conn_steps_inv _ _ Hrun (new_host_inv _ Hnew)). Qed.

(** Replacing a connection leaves nothing of it to be heard.  When a handshake
    is accepted while another connection is current, that connection is fenced,
    its scheduler holds nothing queued, paused or active any more, and every
    result utterance it held is settled in the session state, although the state
    is already fenced to the new epoch. *)
Theorem reconnect_settles_old handshake tts fresh now h p pl :
  connection (h_acks h) = Some p → pipelines (h_acks h) !! p = Some pl →
  let '(h', out) := connect handshake tts fresh now h in
  match out with
  | Raise _ => h_acks h' = h_acks h ∧ h_state h' = h_state h
  | Ret q =>
      connection (h_acks h') = Some q ∧ q ≠ p ∧
      (∃ pl', pipelines (h_acks h') !! p = Some pl' ∧ pl_active pl' = false ∧ queues (pl_scheduler pl') = [] ∧
         paused_items (pl_scheduler pl') = [] ∧ active (pl_scheduler pl') = None) ∧
      ∀ i, holds i (pl_scheduler pl) → ¬ is_ack i → record_terminal_for (si_utterance_id i) (h_state h')
  end.
Proof.
  intros Hcon Hp. unfold connect. destruct (h_closing h); [done|].
  destruct (promote handshake (h_arbiter h)) as [a [c|err]]; [|done]. cbv zeta. cbn [h_acks].
  set (h1 := on_acks _ _). change (connection (h_acks (h <| h_arbiter := a |>))) with (connection (h_acks h)). rewrite Hcon.
  assert (pipelines (h_acks h1) !! p = Some pl) as Hp1 by (unfold h1; simpl; by apply lookup_app_l_Some).
  unfold retire_old_connection, deactivate. rewrite Hp1. set (f := interrupt _ _ _ _). set (h2 := fence_lane p h1).
  assert (pipelines (h_acks h2) !! p = Some (pl <| pl_active := false |>)) as Hp2
    by (unfold h2, fence_lane, on_acks; simpl; by rewrite list_lookup_alter_eq; unfold h1 in Hp1; simpl in Hp1; rewrite Hp1).
  destruct (with_scheduler_at p f h2 _ Hp2) as (_ & Hat & _ & _).
  destruct (with_scheduler_rest p f h2 _ Hp2) as (Es & _ & _ & Econ & _).
  set (h3 := (with_scheduler p f h2).1) in *.
  destruct (interrupt_settles (Some (pl_epoch pl)) true true now ((pl_scheduler pl) <| sink := h_state h2 |>) eq_refl) as (I1 & I2 & I3 & I4 & _).
  split_and!.
  - rewrite Econ. done.
  - intros E. apply lookup_lt_Some in Hp. simpl in E. lia.
  - eexists. split; [exact Hat|]. by split_and!.
  - intros i Hi Hn. rewrite Es. by apply I4.
Qed.
End facts.

(** ** Witnesses

    A host that starts and accepts two connections. *)

#[local] Existing Instance w_config.
#[local] Existing Instance RETENTION_FALLBACK.
#[local, refine] Instance wc_config : CoordinatorConfig :=
  {| max_background_tasks := 4; max_work_items_per_turn := 4; pending_dialogue_timeout := 60 |}.
Proof. lia. Defined.

Definition wc_new : Host Coordinator :=
  mkHost wh_state (AckSystem_init "ack") World_init [] None [] [] (ConnectionArbiter_init "s" "tok") false true.
Definition wc_handshake (e : N) : SnapshotHandshake := mkSnapshotHandshake CONTRACT_VERSION "s" "tok" e 0 [] false.
Definition wc_first : Host Coordinator * Prelude.result nat := connect (wc_handshake 1) true Coordinator_init 0 (start wc_new).
Definition wc_second : Host Coordinator * Prelude.result nat := connect (wc_handshake 2) true Coordinator_init 1 wc_first.1.

Lemma wc_second_connected :
  connection (h_acks wc_second.1) = Some 1%nat ∧ (pl_epoch <$> pipelines (h_acks wc_second.1) !! 1%nat) = Some 2%N ∧
  (pl_active <$> pipelines (h_acks wc_second.1) !! 1%nat) = Some true ∧ h_closing wc_second.1 = false.
Proof. vm_compute. done. Qed.

Lemma one_connection_heard_witness :
  host_accepts (Some 2%N) wc_second.1 = true ∧ host_accepts (Some 1%N) wc_second.1 = false.
Proof.
  assert (rtc conn_step (wc_new, false) (wc_second.1, true)) as Hrun.
  { eapply rtc_l; [apply CStart|]. eapply rtc_l; [apply (CConnect (wc_handshake 1) true Coordinator_init 0)|].
    eapply rtc_l; [apply (CConnect (wc_handshake 2) true Coordinator_init 1)|]. apply rtc_refl. }
  assert (new_host wc_new) as Hnew by (split_and!; reflexivity).
  destruct (one_connection_heard wc_new wc_second.1 true Hnew Hrun) as (_ & _ & Hacc).
  destruct wc_second_connected as (Hc & He & Ha & Hcl).
  destruct (pipelines (h_acks wc_second.1) !! 1%nat) as [pl|] eqn:Ep; [|discriminate He].
  injection He as He. injection Ha as Ha. split.
  - apply Hacc. split; [exact Hcl|]. exists 1%nat, pl. rewrite He. split_and!; [exact Hc|exact Ep|exact Ha|reflexivity].
  - apply not_true_iff_false. rewrite Hacc. intros (_ & q & pl' & Hq & Hp & _ & E). rewrite Hc in Hq. injection Hq as <-.
    rewrite Ep in Hp. injection Hp as <-. rewrite He in E. discriminate E.
Defined.

Lemma wc_first_connected :
  ∃ pl, connection (h_acks wc_first.1) = Some 0%nat ∧ pipelines (h_acks wc_first.1) !! 0%nat = Some pl.
Proof. eexists. split; reflexivity. Qed.

Lemma wc_second_out : wc_second.2 = Ret 1%nat.
Proof. vm_compute. done. Qed.

Lemma reconnect_settles_old_witness :
  ∃ pl', pipelines (h_acks wc_second.1) !! 0%nat = Some pl' ∧ pl_active pl' = false ∧ queues (pl_scheduler pl') = [].
Proof.
  destruct wc_first_connected as (pl & Hc & Hp).
  pose proof (reconnect_settles_old (wc_handshake 2) true Coordinator_init 1 wc_first.1 0 pl Hc Hp) as Hw.
  change (connect _ _ _ _ _) with wc_second in Hw. pose proof wc_second_out as Ho.
  destruct wc_second as [h' out]. cbn [fst snd] in *. subst out. destruct Hw as (_ & _ & (pl' & H1 & H2 & H3 & _) & _).
  exists pl'. split_and!; assumption.
Defined.
