(* ===== verification/TurnEpilogue.v ===== *)
(** The shared turn epilogue ([src/server/turn_epilogue.py]).

    The functions take their collaborators as an explicit context of callables,
    so they are modelled over an arbitrary world [H] on which the callables act.
    [commit_and_speak] is the only await: the world it returns may have been
    changed by anything that ran meanwhile, and it may return, raise, or be
    cancelled.  A cancellation is not an [Exception], so no handler of this
    module catches it.  The recorders are callables of the context too. *)

From stdpp Require Import sorting.
From S2P Require Import Prelude PyDict Contracts SessionState SpeechScheduler TurnAckLedger WorkStatusPublisher.

Abbreviation status := (WorkStatusState * option TerminalReason)%type (only parsing).

(** How an awaited [commit_and_speak] ends; [suppressed] is what it added to
    [suppressed_out] *)
Inductive commit_end :=
| CommitReturned (r : GroundedResult) (suppressed : list string)
| CommitRaised (e : exn)
| CommitCancelled.

(** How a coroutine of this module ends *)
Inductive ended (A : Type) := Finished (a : A) | Raised (e : exn) | Interrupted.
Arguments Finished {A}. Arguments Raised {A}. Arguments Interrupted {A}.

(** [TurnEpilogueContext], the bound arguments of the turn (its origin, ids and
    epoch) already applied, with the recorders and [commit_and_speak] *)
Record TurnEpilogueContext (H : Type) := mkContext {
  settle_ack : bool → H → H;                               (* [cancel_admitted] *)
  emit_work_status : string → option string → status → H → H * Prelude.result unit;
  release_item : string → H → H;
  release_all : H → H;
  commit_and_speak : GroundedResult → SpeechRole → H → H * commit_end;
  finalize_child : string → option string → H → H;         (* outcome, result id *)
  record_commit_time : H → H;
  finalize_turn : H → H;
  project_idle : option (option string → H → H)            (* latest result id *)
}.
Arguments mkContext {H}. Arguments settle_ack {H}. Arguments emit_work_status {H}. Arguments release_item {H}.
Arguments release_all {H}. Arguments commit_and_speak {H}. Arguments finalize_child {H}.
Arguments record_commit_time {H}. Arguments finalize_turn {H}. Arguments project_idle {H}.

Section epilogue.
Context {H : Type} (ctx : TurnEpilogueContext H).
Implicit Types h : H.

Definition emit_opt (item : string) (worker : option string) (d : option status) h : H * Prelude.result unit :=
  match d with None => (h, Ret tt) | Some d => emit_work_status ctx item worker d h end.

(** ** One child *)

Record single_child := mkSingle {
  sc_work_item_id : string;
  sc_worker_id : string;
  sc_result : GroundedResult;
  sc_outcome : string;
  sc_retained_still_open : bool;
  sc_was_cancelled : bool;
  sc_role : SpeechRole;
  sc_project_idle : bool;
  sc_cancel_admitted : bool;
  sc_record_commit : bool
}.

(** [derive] is the status policy of the caller *)
Definition finalize_single_child_turn (derive : option string → bool → option string → option status)
    (a : single_child) h : H * ended (GroundedResult * bool) :=
  let h := settle_ack ctx (sc_cancel_admitted a) h in
  let derived := derive (Some (sc_outcome a)) (sc_was_cancelled a) (Some (sc_outcome a)) in
  let item := sc_work_item_id a in
  let worker := Some (sc_worker_id a) in
  match commit_and_speak ctx (sc_result a) (sc_role a) h with
  | (h, CommitCancelled) => (h, Interrupted)
  | (h, CommitRaised e) =>
      match emit_opt item worker (work_status_after_commit_failure derived) h with
      | (h, Raise e') => (h, Raised e')
      | (h, Ret _) => (h, Raised e)
      end
  | (h, CommitReturned committed _) =>
      match emit_opt item worker derived h with
      | (h, Raise e) => (h, Raised e)
      | (h, Ret _) =>
          let h := finalize_child ctx (sc_outcome a) (Some (result_id (sc_result a))) h in
          let h := if sc_record_commit a then record_commit_time ctx h else h in
          let h := finalize_turn ctx h in
          if sc_project_idle a then
            match project_idle ctx with
            | None => (h, Raised (OtherException "AssertionError"))
            | Some f =>
                (f (if sc_was_cancelled a then None else Some (result_id (sc_result a))) h,
                 Finished (committed, sc_retained_still_open a))
            end
          else (h, Finished (committed, sc_retained_still_open a))
      end
  end.

(** ** Several children *)

(** A deferred terminal status: work item, worker, status *)
Record deferred := mkDeferred { df_item : string; df_worker : option string; df_status : status }.

Section fan_out.
Context (results : dict nat GroundedResult) (speech_roles : dict nat SpeechRole).

(** What the commit of an index makes of its deferred status *)
Definition settled_status (c : commit_end) (d : deferred) : status :=
  match c with
  | CommitReturned _ suppressed =>
      if decide (df_item d ∈ suppressed) then (cancelled, None) else df_status d
  | _ => (failed, None)
  end.

(** The commit loop over the sorted indexes *)
Fixpoint commit_loop (indexes : list nat) (committed : list GroundedResult) (exns : list exn)
    (pending : dict nat deferred) h : H * ended (list GroundedResult * list exn * dict nat deferred) :=
  match indexes with
  | [] => (h, Finished (committed, exns, pending))
  | i :: indexes' =>
      match dict_get i results with
      | None => (h, Raised KeyError)
      | Some r =>
          match commit_and_speak ctx r (default ROLE_RESULT (dict_get i speech_roles)) h with
          | (h, CommitCancelled) => (h, Interrupted)
          | (h, c) =>
              let committed := committed ++ [match c with CommitReturned r' _ => r' | _ => r end] in
              let exns := exns ++ match c with CommitRaised e => [e] | _ => [] end in
              match dict_get i pending with
              | None => commit_loop indexes' committed exns pending h
              | Some d =>
                  match emit_work_status ctx (df_item d) (df_worker d) (settled_status c d) h with
                  | (h, Raise e) => (h, Raised e)
                  | (h, Ret _) => commit_loop indexes' committed exns (dict_pop i pending) h
                  end
              end
          end
      end
  end.

(** The statuses whose index had no result *)
Fixpoint sweep_deferred (l : list deferred) h : H * Prelude.result unit :=
  match l with
  | [] => (h, Ret tt)
  | d :: l' =>
      match emit_work_status ctx (df_item d) (df_worker d) (df_status d) h with
      | (h, Raise e) => (h, Raise e)
      | (h, Ret _) => sweep_deferred l' h
      end
  end.

Definition sorted_indexes : list nat := merge_sort le (dict_keys results).

Definition finalize_fan_out_turn (attributed_indexes retained_work_items : bool)
    (pending : dict nat deferred) h : H * ended (list GroundedResult) :=
  let h := settle_ack ctx (negb attributed_indexes && negb retained_work_items) h in
  match commit_loop sorted_indexes [] [] pending h with
  | (h, Interrupted) => (h, Interrupted)
  | (h, Raised e) => (h, Raised e)
  | (h, Finished (committed, exns, pending)) =>
      match sweep_deferred (dict_values pending) h with
      | (h, Raise e) => (h, Raised e)
      | (h, Ret _) =>
          match exns with
          | e :: _ => (h, Raised e)
          | [] => (finalize_turn ctx h, Finished committed)
          end
      end
  end.
End fan_out.

Definition release_fan_out_turn_work_items (delegated_children : dict string (option string))
    (retained_work_items : list string) h : H :=
  match retained_work_items with
  | [] => release_all ctx h
  | _ => foldl (λ h item, if bool_decide (item ∈ retained_work_items) then h else release_item ctx item h)
           h (dict_keys delegated_children)
  end.
End epilogue.

(** Facts about the turn epilogue, for every context of collaborators: each
    deferred status is reported exactly once and only after its own commit, the
    results are committed in order whatever their siblings do, and a retained
    child is never released. *)
(** ** Recording the calls *)

Inductive call :=
| KSettle (cancel_admitted : bool)
| KCommit (r : GroundedResult) (role : SpeechRole) (c : commit_end)
| KEmit (item : string) (worker : option string) (d : WorkStatusState * option TerminalReason)
| KRelease (item : string)
| KReleaseAll
| KChild (outcome : string) (result_id : option string)
| KCommitTime
| KTurn
| KIdle (latest : option string).

(** The same collaborators, with every call appended to a log *)
Definition traced {H} (ctx : TurnEpilogueContext H) : TurnEpilogueContext (H * list call) :=
  {| settle_ack b w := (settle_ack ctx b w.1, w.2 ++ [KSettle b]);
     emit_work_status i k d w :=
       let (h, r) := emit_work_status ctx i k d w.1 in ((h, w.2 ++ [KEmit i k d]), r);
     release_item i w := (release_item ctx i w.1, w.2 ++ [KRelease i]);
     release_all w := (release_all ctx w.1, w.2 ++ [KReleaseAll]);
     commit_and_speak r role w :=
       let (h, c) := commit_and_speak ctx r role w.1 in ((h, w.2 ++ [KCommit r role c]), c);
     finalize_child o i w := (finalize_child ctx o i w.1, w.2 ++ [KChild o i]);
     record_commit_time w := (record_commit_time ctx w.1, w.2 ++ [KCommitTime]);
     finalize_turn w := (finalize_turn ctx w.1, w.2 ++ [KTurn]);
     project_idle := (λ f i w, (f i w.1, w.2 ++ [KIdle i])) <$> project_idle ctx |}.

Definition emitted_item (k : call) : option string := match k with KEmit i _ _ => Some i | _ => None end.
Definition emitted_items (l : list call) : list string := omap emitted_item l.

Lemma emitted_items_app l1 l2 : emitted_items (l1 ++ l2) = emitted_items l1 ++ emitted_items l2.
Proof. apply omap_app. Qed.

Lemma emitted_items_settle b l : emitted_items (KSettle b :: l) = emitted_items l.
Proof. done. Qed.

Section facts.
Context {H : Type} (ctx : TurnEpilogueContext H).
Context (emit_returns : ∀ i k d h, (emit_work_status ctx i k d h).2 = Ret tt).
Context (results : dict nat GroundedResult) (roles : dict nat SpeechRole).
Implicit Types (pending : dict nat deferred) (h : H) (log : list call).

(** ** The reference trace of the commit loop *)

(** The calls for one index whose commit ended with [c] *)
Definition index_calls pending (i : nat) (c : commit_end) : list call :=
  match dict_get i results with
  | None => []
  | Some r =>
      KCommit r (default ROLE_RESULT (dict_get i roles)) c ::
      option_list ((λ d, KEmit (df_item d) (df_worker d) (settled_status c d)) <$> dict_get i pending)
  end.

Fixpoint loop_calls pending (indexes : list nat) (ends : list commit_end) : list call :=
  match indexes, ends with
  | i :: indexes', c :: ends' => index_calls pending i c ++ loop_calls pending indexes' ends'
  | _, _ => []
  end.

Definition raised (ends : list commit_end) : list exn :=
  omap (λ c, match c with CommitRaised e => Some e | _ => None end) ends.

Definition sweep_calls pending : list call :=
  (λ d, KEmit (df_item d) (df_worker d) (df_status d)) <$> dict_values pending.

Definition drop_indexes (indexes : list nat) pending : dict nat deferred :=
  foldl (λ p i, dict_pop i p) pending indexes.

Lemma loop_calls_pop pending i indexes ends :
  i ∉ indexes → loop_calls (dict_pop i pending) indexes ends = loop_calls pending indexes ends.
Proof.
  revert ends. induction indexes as [|j indexes IH]; intros ends Hi; [done|]. destruct ends as [|c ends]; [done|].
  simpl. apply not_elem_of_cons in Hi as [Hne Hi]. rewrite IH by done. unfold index_calls.
  by rewrite dict_get_pop_ne.
Qed.

Lemma sweep_traced l h log :
  ∃ h', sweep_deferred (traced ctx) l (h, log)
    = ((h', log ++ ((λ d, KEmit (df_item d) (df_worker d) (df_status d)) <$> l)), Ret tt).
Proof.
  revert h log. induction l as [|d l IH]; intros h log; simpl; [exists h; by rewrite app_nil_r|].
  pose proof (emit_returns (df_item d) (df_worker d) (df_status d) h) as Hr.
  destruct (emit_work_status ctx _ _ _ h) as [h1 r]. simpl in Hr. subst r.
  destruct (IH h1 (log ++ [KEmit (df_item d) (df_worker d) (df_status d)])) as [h' ->]. exists h'. by rewrite <- app_assoc.
Qed.

(** What an index contributes to the committed results *)
Definition committed_at (i : nat) (c : commit_end) : option GroundedResult :=
  match c with CommitReturned r _ => Some r | _ => dict_get i results end.

(** The loop makes the calls of the reference trace, or is interrupted on the
    way; it never raises. *)
Definition loop_outcome (indexes : list nat) committed exns pending log (ends : list commit_end)
    (w : H * list call * ended (list GroundedResult * list exn * dict nat deferred)) : Prop :=
  match w with
  | ((_, log'), Finished (c, e, p)) =>
      length ends = length indexes ∧ log' = log ++ loop_calls pending indexes ends ∧ e = exns ++ raised ends ∧
      Some <$> c = (Some <$> committed) ++ zip_with committed_at indexes ends ∧ p = drop_indexes indexes pending
  | ((_, log'), Interrupted) =>
      (length ends < length indexes)%nat ∧
      ∃ r role, log' = log ++ loop_calls pending indexes ends ++ [KCommit r role CommitCancelled]
  | (_, Raised _) => False
  end.

Lemma loop_outcome_cons i indexes c committed committed' exns pending log w :
  i ∉ indexes → Some <$> committed' = (Some <$> committed) ++ [committed_at i c] →
  (∃ ends, loop_outcome indexes committed' (exns ++ raised [c]) (dict_pop i pending) (log ++ index_calls pending i c) ends w) →
  ∃ ends, loop_outcome (i :: indexes) committed exns pending log ends w.
Proof.
  intros Hi Ec. destruct w as [[hx logx] out]. intros [ends Ho]. exists (c :: ends).
  destruct out as [[[cs es] ps]|e|]; simpl in *; [|done|].
  - destruct Ho as (Hl & -> & -> & Hc & ->). rewrite loop_calls_pop by done.
    split_and!; [by rewrite Hl|by rewrite app_assoc| |by rewrite Hc, Ec, <- app_assoc|done].
    rewrite <- app_assoc. f_equal. unfold raised. by destruct c.
  - destruct Ho as (Hl & r0 & role & ->). split; [lia|]. exists r0, role. rewrite loop_calls_pop by done.
    by rewrite <- !app_assoc.
Qed.

Lemma loop_traced indexes : ∀ committed exns pending h log,
  NoDup indexes → (∀ i, i ∈ indexes → is_Some (dict_get i results)) →
  ∃ ends, loop_outcome indexes committed exns pending log ends
            (commit_loop (traced ctx) results roles indexes committed exns pending (h, log)).
Proof.
  induction indexes as [|i indexes IH]; intros committed exns pending h log Hnd Hin.
  { exists []. simpl. split_and!; try done; by rewrite app_nil_r. }
  apply NoDup_cons in Hnd as [Hi Hnd]. destruct (Hin i) as [r Hr]; [constructor|].
  assert (∀ j, j ∈ indexes → is_Some (dict_get j results)) as Hin' by (intros; apply Hin; by constructor).
  cbn [commit_loop]. rewrite Hr. cbn [commit_and_speak traced fst snd].
  destruct (commit_and_speak ctx r (default ROLE_RESULT (dict_get i roles)) h) as [h0 c].
  set (k := KCommit r (default ROLE_RESULT (dict_get i roles)) c).
  (* the step of an index that was not cancelled *)
  assert (∀ committed' exns', c ≠ CommitCancelled → Some <$> committed' = (Some <$> committed) ++ [committed_at i c] →
    exns' = exns ++ raised [c] →
    ∃ ends, loop_outcome (i :: indexes) committed exns pending log ends
      (match dict_get i pending with
       | None => commit_loop (traced ctx) results roles indexes committed' exns' pending (h0, log ++ [k])
       | Some d => match emit_work_status (traced ctx) (df_item d) (df_worker d) (settled_status c d) (h0, log ++ [k]) with
                   | (w, Raise e) => (w, Raised e)
                   | (w, Ret _) => commit_loop (traced ctx) results roles indexes committed' exns' (dict_pop i pending) w
                   end
       end)) as Hstep.
  { intros committed' exns' _ Ec' ->. apply (loop_outcome_cons i indexes c committed committed'); [done|done|].
    unfold index_calls. rewrite Hr. fold k. destruct (dict_get i pending) as [d|] eqn:Ep; simpl.
    - pose proof (emit_returns (df_item d) (df_worker d) (settled_status c d) h0) as Hret.
      destruct (emit_work_status ctx _ _ _ h0) as [h2 ret]. simpl in Hret. subst ret. rewrite <- app_assoc. by apply IH.
    - rewrite dict_pop_notin by (by apply dict_get_None). by apply IH. }
  destruct c as [r' sup|e|].
  - apply (Hstep (committed ++ [r']) (exns ++ [])); [done| |done]. by rewrite fmap_app.
  - apply (Hstep (committed ++ [r]) (exns ++ [e])); [done| |done]. rewrite fmap_app. simpl. by rewrite Hr.
  - exists []. simpl. split; [lia|]. by exists r, (default ROLE_RESULT (dict_get i roles)).
Qed.

(** ** Every deferred status is reported once *)

Lemma dict_values_pop {V} (d : dict nat V) k v :
  dict_wf d → dict_get k d = Some v → dict_values d ≡ₚ v :: dict_values (dict_pop k d).
Proof.
  unfold dict_wf, dict_values, dict_keys, dict_pop. induction d as [|[j x] d IH]; [done|]. rewrite !fmap_cons.
  intros [Hj Hnd]%NoDup_cons. simpl. destruct (decide (k = j)) as [->|Hne]; simpl.
  - intros [= ->]. rewrite filter_cons_False by (simpl; tauto). f_equiv.
    rewrite filter_all; [done|]. apply Forall_forall. intros [j' x'] Hin E. simpl in E. subst j'. apply Hj.
    apply list_elem_of_fmap. by exists (j, x').
  - intros Hg. rewrite filter_cons_True by (simpl; congruence). simpl. rewrite (IH Hnd Hg). apply Permutation_swap.
Qed.

Lemma loop_items indexes : ∀ pending ends,
  dict_wf pending → NoDup indexes → (∀ i, i ∈ indexes → is_Some (dict_get i results)) → length ends = length indexes →
  emitted_items (loop_calls pending indexes ends) ++ (df_item <$> dict_values (drop_indexes indexes pending))
  ≡ₚ df_item <$> dict_values pending.
Proof.
  induction indexes as [|i indexes IH]; intros pending ends Hwf Hnd Hin Hl; destruct ends as [|c ends]; try done.
  apply NoDup_cons in Hnd as [Hi Hnd]. destruct (Hin i) as [r Hr]; [constructor|]. simpl in Hl.
  simpl. rewrite emitted_items_app, <- app_assoc, <- (loop_calls_pop pending i) by done.
  change (foldl _ _ indexes) with (drop_indexes indexes (dict_pop i pending)).
  rewrite IH; [|by apply dict_wf_pop|done|intros; apply Hin; by constructor|lia].
  unfold index_calls. rewrite Hr. destruct (dict_get i pending) as [d|] eqn:E; simpl.
  - by rewrite (dict_values_pop pending i d Hwf E).
  - by rewrite dict_pop_notin by (by apply dict_get_None).
Qed.

(** A run that is cut short reports a part of them. *)
Lemma loop_items_part indexes : ∀ pending ends,
  dict_wf pending → NoDup indexes →
  emitted_items (loop_calls pending indexes ends) ⊆+ df_item <$> dict_values pending.
Proof.
  induction indexes as [|i indexes IH]; intros pending ends Hwf Hnd; [apply submseteq_nil_l|].
  destruct ends as [|c ends]; [apply submseteq_nil_l|]. apply NoDup_cons in Hnd as [Hi Hnd].
  simpl. rewrite emitted_items_app, <- (loop_calls_pop pending i) by done.
  pose proof (IH (dict_pop i pending) ends (dict_wf_pop i pending Hwf) Hnd) as Hs. unfold index_calls.
  destruct (dict_get i results); simpl; destruct (dict_get i pending) as [d|] eqn:E; simpl.
  - rewrite (dict_values_pop pending i d Hwf E). simpl. by apply submseteq_skip.
  - by rewrite dict_pop_notin in * by (by apply dict_get_None).
  - rewrite (dict_values_pop pending i d Hwf E). simpl. by apply submseteq_cons.
  - by rewrite dict_pop_notin in * by (by apply dict_get_None).
Qed.

End facts.

Lemma sorted_indexes_nodup (results : dict nat GroundedResult) :
  dict_wf results → NoDup (sorted_indexes results) ∧ length (sorted_indexes results) = length results ∧
  (∀ i, i ∈ sorted_indexes results → is_Some (dict_get i results)).
Proof.
  intros Hwf. unfold sorted_indexes. pose proof (merge_sort_Permutation le (dict_keys results)) as Hp.
  split_and!; [by rewrite Hp|rewrite Hp; apply length_fmap|]. intros i Hi. rewrite Hp in Hi. by apply dict_get_is_Some.
Qed.


(** ** One child *)

Definition emissions (l : list call) : list (string * (WorkStatusState * option TerminalReason)) :=
  omap (λ k, match k with KEmit i _ d => Some (i, d) | _ => None end) l.

(** The status that follows the commit of a single child *)
Definition after_commit (c : commit_end) (d : option (WorkStatusState * option TerminalReason))
    : option (WorkStatusState * option TerminalReason) :=
  match c with
  | CommitReturned _ _ => d
  | CommitRaised _ => work_status_after_commit_failure d
  | CommitCancelled => None
  end.

Lemma single_traced {H} (ctx : TurnEpilogueContext H) derive a h :
  (∀ i k d h, (emit_work_status ctx i k d h).2 = Ret tt) →
  let d := derive (Some (sc_outcome a)) (sc_was_cancelled a) (Some (sc_outcome a)) in
  let '((_, calls), out) := finalize_single_child_turn (traced ctx) derive a (h, []) in
  ∃ c rest, calls = KSettle (sc_cancel_admitted a) :: KCommit (sc_result a) (sc_role a) c :: rest ∧
    emissions rest = pair (sc_work_item_id a) <$> option_list (after_commit c d) ∧
    match c with
    | CommitReturned r _ => KTurn ∈ rest ∧ KChild (sc_outcome a) (Some (result_id (sc_result a))) ∈ rest ∧
        (sc_project_idle a = false ∨ is_Some (project_idle ctx) → out = Finished (r, sc_retained_still_open a))
    | CommitRaised e => (KTurn ∉ rest) ∧ out = Raised e
    | CommitCancelled => rest = [] ∧ out = Interrupted
    end.
Proof.
  intros He d. unfold finalize_single_child_turn, emit_opt. cbv zeta. cbn [settle_ack traced fst snd]. fold d.
  cbn [commit_and_speak traced fst snd]. destruct (commit_and_speak ctx _ _ _) as [h1 c].
  assert (∀ (o : option (WorkStatusState * option TerminalReason)) log, ∃ h2,
    match o with None => ((h1, log), Ret tt) | Some d => emit_work_status (traced ctx) (sc_work_item_id a) (Some (sc_worker_id a)) d (h1, log) end
    = ((h2, log ++ option_list (KEmit (sc_work_item_id a) (Some (sc_worker_id a)) <$> o)), Ret tt)) as Hemit.
  { intros [x|] log; simpl; [|exists h1; by rewrite app_nil_r].
    pose proof (He (sc_work_item_id a) (Some (sc_worker_id a)) x h1) as Hr.
    destruct (emit_work_status ctx _ _ x h1) as [h2 r]. simpl in Hr. subst r. by exists h2. }
  assert (∀ o : option (WorkStatusState * option TerminalReason),
    emissions (option_list (KEmit (sc_work_item_id a) (Some (sc_worker_id a)) <$> o)) = pair (sc_work_item_id a) <$> option_list o) as Hem
    by (by intros [x|]).
  destruct c as [r sup|e|].
  - destruct (Hemit d ([] ++ [KSettle (sc_cancel_admitted a)] ++ [KCommit (sc_result a) (sc_role a) (CommitReturned r sup)])) as [h2 E].
    rewrite app_assoc in E. rewrite E. clear E. simpl. destruct (sc_record_commit a), (sc_project_idle a), (project_idle ctx) as [f|]; simpl;
      exists (CommitReturned r sup); eexists; (split; [rewrite <- ?app_assoc; reflexivity|]);
      (split; [unfold emissions; rewrite !omap_app; simpl; rewrite ?app_nil_r; apply Hem|]);
      (split_and!; [set_solver..|intros [?|[? ?]]; done]).
  - destruct (Hemit (work_status_after_commit_failure d)
      ([] ++ [KSettle (sc_cancel_admitted a)] ++ [KCommit (sc_result a) (sc_role a) (CommitRaised e)])) as [h2 E].
    rewrite app_assoc in E. rewrite E. simpl. exists (CommitRaised e). eexists. split; [reflexivity|]. split; [apply Hem|].
    split; [|done]. destruct (work_status_after_commit_failure d); simpl; set_solver.
  - exists CommitCancelled, []. simpl. done.
Qed.

(** Both policies: what makes a result ready, and when a status is terminal *)
Definition status_policy (derive : option string → bool → option string → option (WorkStatusState * option TerminalReason)) : Prop :=
  derive = status_omitted_while_retained ∨ derive = child_work_status_after_dispatch.

Lemma policy_ready derive label wc :
  status_policy derive → ∀ x, derive (Some label) wc (Some label) = Some x → x.1 = result_ready →
  wc = false ∧ label ∈ ["completed"; "clarify"; "declined"].
Proof.
  intros Hd x E Hx.
  assert (work_status_for_outcome (Some label) wc true (Some label) = Some x) as Hw.
  { destruct Hd as [-> | ->]; unfold status_omitted_while_retained, child_work_status_after_dispatch in E;
      destruct (_ && _); simplify_eq; done. }
  unfold work_status_for_outcome in Hw. destruct wc; [by simplify_eq|]. split; [done|].
  destruct (bool_decide (label ∈ _)) eqn:El; [by apply bool_decide_eq_true in El|]. cbn [andb] in Hw. by simplify_eq.
Qed.

Lemma policy_terminal derive label wc :
  status_policy derive → label ≠ "retained" ∨ wc = true →
  ∃ x, derive (Some label) wc (Some label) = Some x ∧ WORK_STATUS_TERMINAL x.1 = true.
Proof.
  intros Hd Hr. assert (bool_decide (Some label = Some "retained") && negb wc = false) as E
    by (destruct Hr as [Hr | ->]; [rewrite bool_decide_false; [done|congruence] | by rewrite andb_false_r]).
  destruct Hd as [-> | ->]; unfold status_omitted_while_retained, child_work_status_after_dispatch, work_status_for_outcome;
    rewrite E; (destruct wc; [by eexists|]); destruct (_ && true); by eexists.
Qed.

(** Single-child turns report truthfully.  With either status policy, and
    whatever happens while the commit is awaited: nothing is reported before the
    commit and at most one status after it; [result_ready] is reported only when
    the commit returned, for uncancelled work that completed, asked or declined;
    a commit that raises is reported as [failed] or [cancelled] and its exception
    is raised; work that was not handed to the background always gets a terminal
    status when the commit returned; and the turn is finalized exactly when the
    commit returned. *)
Theorem single_child_status_truthful {H} (ctx : TurnEpilogueContext H) derive a h :
  (∀ i k d h, (emit_work_status ctx i k d h).2 = Ret tt) →
  status_policy derive →
  let '((_, calls), out) := finalize_single_child_turn (traced ctx) derive a (h, []) in
  ∃ c rest, calls = KSettle (sc_cancel_admitted a) :: KCommit (sc_result a) (sc_role a) c :: rest ∧
    (length (emissions rest) ≤ 1)%nat ∧
    (KTurn ∈ rest ↔ ∃ r s, c = CommitReturned r s) ∧
    (∀ i d, (i, d) ∈ emissions rest → i = sc_work_item_id a ∧
       (d.1 = result_ready → sc_was_cancelled a = false ∧ sc_outcome a ∈ ["completed"; "clarify"; "declined"] ∧
                             ∃ r s, c = CommitReturned r s) ∧
       (∀ e, c = CommitRaised e → d.1 = failed ∨ d.1 = cancelled)) ∧
    (∀ e, c = CommitRaised e → out = Raised e) ∧
    (∀ r s, c = CommitReturned r s → sc_outcome a ≠ "retained" ∨ sc_was_cancelled a = true →
       ∃ d, emissions rest = [(sc_work_item_id a, d)] ∧ WORK_STATUS_TERMINAL d.1 = true).
Proof.
  intros He Hd. pose proof (single_traced ctx derive a h He) as Hs. cbv zeta in Hs.
  destruct (finalize_single_child_turn _ _ _ _) as [[h' calls] out]. destruct Hs as (c & rest & -> & Hem & Hc).
  set (d := derive (Some (sc_outcome a)) (sc_was_cancelled a) (Some (sc_outcome a))) in *.
  pose proof (policy_ready derive (sc_outcome a) (sc_was_cancelled a) Hd) as Hready. fold d in Hready.
  pose proof (policy_terminal derive (sc_outcome a) (sc_was_cancelled a) Hd) as Hterm. fold d in Hterm.
  exists c, rest. split; [done|]. rewrite Hem. split; [destruct (after_commit c d); simpl; lia|].
  destruct c as [r s|e|]; simpl in *.
  - destruct Hc as (HT & _ & _). split_and!; [split; eauto| |done|].
    + intros i x Hin. destruct d as [y|]; simpl in Hin; [|by apply not_elem_of_nil in Hin].
      apply list_elem_of_singleton in Hin as [= -> ->]. split_and!; [done| |done]. intros Hy.
      destruct (Hready y eq_refl Hy). eauto.
    + intros ? ? _ (x & Ex & Hx)%Hterm. rewrite Ex. by exists x.
  - destruct Hc as [HT ->]. split_and!; [split; [done|by intros (? & ? & ?)]| |by intros ? [= <-]|done].
    intros i x Hin. destruct (work_status_after_commit_failure d) as [y|] eqn:Ey; simpl in Hin; [|by apply not_elem_of_nil in Hin].
    apply list_elem_of_singleton in Hin as [= -> ->]. unfold work_status_after_commit_failure in Ey.
    destruct d as [z|]; [|done]. destruct (negb _); [done|]. case_decide; simplify_eq; split_and!; try done; auto; congruence.
  - destruct Hc as [-> _]. split_and!; try done; [|by intros i x ?%not_elem_of_nil].
    split; [by intros ?%not_elem_of_nil | by intros (? & ? & ?)].
Qed.

(** ** Releasing the turn *)

(** The context's release callables as the host binds them for [turn] *)
Definition ledger_context (turn : string) : TurnEpilogueContext TurnAckLedger :=
  {| settle_ack _ l := l; emit_work_status _ _ _ l := (l, Ret tt);
     release_item item := release_turn_work_item turn item;
     release_all := release_all_turn_work_items turn;
     commit_and_speak _ _ l := (l, CommitCancelled); finalize_child _ _ l := l; record_commit_time l := l;
     finalize_turn l := l; project_idle := None |}.

Lemma ledger_release_children turn item l :
  children_of turn (release_turn_work_item turn item l) = children_of turn l ∖ {[item]}.
Proof.
  unfold release_turn_work_item, children_of. destruct (dict_get turn (turn_work_items l)) as [items|] eqn:E; simpl.
  - case_decide; simpl; rewrite ?dict_get_pop_eq, ?dict_get_set_eq; simpl; set_solver.
  - rewrite E. simpl. set_solver.
Qed.

Lemma ledger_release_latch turn item x l :
  x ∈ children_of turn l → x ≠ item →
  ack_emitted_turns (release_turn_work_item turn item l) = ack_emitted_turns l.
Proof.
  unfold release_turn_work_item, children_of. destruct (dict_get turn (turn_work_items l)) as [items|]; [|done].
  simpl. intros Hx Hne. rewrite decide_False; [done|]. set_solver.
Qed.

Lemma release_keeps turn retained items l :
  let l' := foldl (λ l item, if bool_decide (item ∈ retained) then l else release_turn_work_item turn item l) l items in
  children_of turn l' = children_of turn l ∖ (list_to_set items ∖ list_to_set retained) ∧
  (∀ x, x ∈ retained → x ∈ children_of turn l → ack_emitted_turns l' = ack_emitted_turns l).
Proof.
  revert l. induction items as [|item items IH]; intros l; simpl; [set_solver|].
  destruct (IH (if bool_decide (item ∈ retained) then l else release_turn_work_item turn item l)) as [Hc Hl].
  rewrite Hc. case_bool_decide as Hr; rewrite ?ledger_release_children.
  - split; [|done]. set_solver.
  - split; [set_solver|]. intros x Hx Hin. assert (x ≠ item) as Hne by congruence.
    rewrite (Hl x Hx) by (rewrite ledger_release_children; set_solver). by eapply ledger_release_latch.
Qed.

(** The end of a compound turn releases exactly the children it does not
    keep in the background.  With none retained the turn's registration and its
    acknowledgement latch go; otherwise every delegated child that is not
    retained is released, every other registered child stays, and as long as a
    retained child is registered the latch is left as it is, so that a later
    cancellation or the late result still finds the turn. *)
Theorem fan_out_releases_unretained turn delegated retained l :
  let l' := release_fan_out_turn_work_items (ledger_context turn) delegated retained l in
  if decide (retained = []) then children_of turn l' = ∅ ∧ turn ∉ ack_emitted_turns l'
  else
    children_of turn l' = children_of turn l ∖ (list_to_set (dict_keys delegated) ∖ list_to_set retained) ∧
    (∀ x, x ∈ retained → x ∈ children_of turn l →
       x ∈ children_of turn l' ∧ ack_emitted_turns l' = ack_emitted_turns l).
Proof.
  unfold release_fan_out_turn_work_items. cbv zeta. case_decide as Hr; [subst|].
  - unfold children_of. simpl. rewrite dict_get_pop_eq. set_solver.
  - destruct retained as [|x0 retained]; [done|]. set (rs := x0 :: retained) in *.
    destruct (release_keeps turn rs (dict_keys delegated) l) as [Hc Hl]. cbn [release_item ledger_context].
    split; [exact Hc|]. intros x Hx Hin. split; [|by eapply Hl]. rewrite Hc. set_solver.
Qed.

(** ** Witnesses

    Two results and a third child without one; the first commit fails. *)

Definition we_result (id : string) : GroundedResult := mkGroundedResult id "w" "turn-1" "ts" "text" [] "text" (Some 1%N).
Definition we_context : TurnEpilogueContext unit :=
  {| settle_ack _ l := l; emit_work_status _ _ _ l := (l, Ret tt); release_item _ l := l; release_all l := l;
     commit_and_speak r _ l := (l, if decide (result_id r = "r1") then CommitRaised KeyError else CommitReturned r ["work-2"]);
     finalize_child _ _ l := l; record_commit_time l := l; finalize_turn l := l; project_idle := Some (λ _ l, l) |}.
Definition we_results : dict nat GroundedResult := [(1%nat, we_result "r2"); (0%nat, we_result "r1")].
Definition we_pending : dict nat deferred :=
  [(0%nat, mkDeferred "work-1" None (result_ready, None)); (1%nat, mkDeferred "work-2" None (result_ready, None));
   (2%nat, mkDeferred "work-3" None (failed, None))].
Definition we_fan_out : unit * list call * ended (list GroundedResult) :=
  finalize_fan_out_turn (traced we_context) we_results [] true false we_pending (tt, []).

Lemma we_fan_out_value :
  emissions we_fan_out.1.2 = [("work-1", (failed, None)); ("work-2", (cancelled, None)); ("work-3", (failed, None))] ∧
  we_fan_out.2 = Raised KeyError.
Proof. vm_compute. done. Qed.


Definition we_single : single_child :=
  mkSingle "work-1" "w" (we_result "r1") "completed" false false ROLE_RESULT true false true.

Lemma single_child_status_truthful_witness :
  ∃ rest, (finalize_single_child_turn (traced we_context) status_omitted_while_retained we_single (tt, [])).1.2
    = KSettle false :: KCommit (we_result "r1") ROLE_RESULT (CommitRaised KeyError) :: rest ∧
  ∀ i d, (i, d) ∈ emissions rest → d.1 = failed ∨ d.1 = cancelled.
Proof.
  assert (∀ i k d h, (emit_work_status we_context i k d h).2 = Ret tt) as He by done.
  pose proof (single_child_status_truthful we_context status_omitted_while_retained we_single tt He (or_introl eq_refl)) as Hw.
  destruct (finalize_single_child_turn _ _ _ _) as [[h calls] out] eqn:E.
  destruct Hw as (c & rest & -> & _ & _ & Hem & _). exists rest.
  assert (c = CommitRaised KeyError) as Ec by (vm_compute in E; by injection E). subst c. split; [reflexivity|].
  intros i d Hin. by apply (Hem i d Hin) with KeyError.
Defined.
