(* ===== verification/Mailbox.v ===== *)
(** The worker's mailbox ([ContextWorker] of [src/server/workers/base.py]).

    [submit] creates a task [run()] that awaits the previous one, runs its
    operation and reports idle; the newest task is the tail.  A submission is
    the index of its task.  Each task is cut where asyncio may switch: before
    its first step, at [await previous], and while its operation runs.  An
    operation is opaque and ends at an arbitrary later step, in any way.

    Cancellation follows asyncio.  [Task.cancel()] on a task that awaits an
    unfinished task is passed on to that task; otherwise it is delivered at the
    task's next step, where a task that has not begun ends at once and
    [await previous] raises into a handler that catches everything. *)

From S2P Require Import Prelude PyDict.

Inductive op_end := OpValue | OpError | OpCancelled.

#[global] Instance op_end_eq_dec : EqDecision op_end.
Proof. solve_decision. Defined.

Inductive run_phase :=
| Created (previous : option nat)        (* [create_task(run())], not begun *)
| Awaiting (previous : nat)              (* at [await previous] *)
| Operating                              (* the operation runs *)
| Ended (e : op_end).

#[global] Instance run_phase_eq_dec : EqDecision run_phase.
Proof. solve_decision. Defined.

Record submission := mkSubmission {
  sb_phase : run_phase;
  sb_must_cancel : bool                  (* a cancellation to deliver *)
}.

#[export] Instance eta_submission : Eta submission := λ r, mkSubmission (sb_phase r) (sb_must_cancel r).

Inductive mail_event := OpStart (n : nat) | OpEnd (n : nat) (e : op_end).

Record ContextWorker := mkWorker {
  submissions : list submission;
  tail_task : option nat;                (* [self._tail] *)
  worker_status : string;
  mail_log : list mail_event
}.

#[export] Instance eta_ContextWorker : Eta ContextWorker := λ r,
  mkWorker (submissions r) (tail_task r) (worker_status r) (mail_log r).

Definition ContextWorker_init : ContextWorker := mkWorker [] None "idle" [].

Definition phase_of (n : nat) (w : ContextWorker) : option run_phase := sb_phase <$> submissions w !! n.

Definition has_ended (n : nat) (w : ContextWorker) : bool :=
  match phase_of n w with Some (Ended _) => true | _ => false end.

Definition set_phase (n : nat) (p : run_phase) (w : ContextWorker) : ContextWorker :=
  w <| submissions ::= alter (λ s, s <| sb_phase := p |> <| sb_must_cancel := false |>) n |>.

(** [submit] up to [await task] *)
Definition submit (w : ContextWorker) : ContextWorker :=
  w <| submissions ::= (λ l, l ++ [mkSubmission (Created (tail_task w)) false]) |>
    <| tail_task := Some (length (submissions w)) |>.

(** The operation begins. *)
Definition begin_operation (n : nat) (w : ContextWorker) : ContextWorker :=
  (set_phase n Operating w) <| worker_status := "running" |> <| mail_log ::= (λ l, l ++ [OpStart n]) |>.

(** The event loop gives the task of submission [n] a step. *)
Definition step_task (n : nat) (w : ContextWorker) : ContextWorker :=
  match submissions w !! n with
  | None => w
  | Some s =>
      match sb_phase s with
      | Created previous =>
          if sb_must_cancel s then set_phase n (Ended OpCancelled) w
          else match previous with
               | None => begin_operation n w
               | Some p => if has_ended p w then begin_operation n w else set_phase n (Awaiting p) w
               end
      | Awaiting p => if has_ended p w then begin_operation n w else w
      | Operating | Ended _ => w
      end
  end.

(** The operation of [n] returns or raises: the [finally] clause. *)
Definition end_operation (n : nat) (e : op_end) (w : ContextWorker) : ContextWorker :=
  match phase_of n w with
  | Some Operating =>
      (set_phase n (Ended e) w) <| worker_status := "idle" |> <| mail_log ::= (λ l, l ++ [OpEnd n e]) |>
  | _ => w
  end.

(** [Task.cancel()] on the task of [n], which is also what cancelling the
    caller does.  The chain of awaited tasks goes down, so [S n] is enough
    fuel. *)
Fixpoint cancel_chain (fuel : nat) (n : nat) (w : ContextWorker) : ContextWorker :=
  match fuel with
  | O => w
  | S fuel' =>
      match phase_of n w with
      | Some (Awaiting p) =>
          if has_ended p w
          then w <| submissions ::= alter (λ s, s <| sb_must_cancel := true |>) n |>
          else cancel_chain fuel' p w
      | Some (Created _) | Some Operating =>
          w <| submissions ::= alter (λ s, s <| sb_must_cancel := true |>) n |>
      | _ => w
      end
  end.

Definition cancel_submission (n : nat) (w : ContextWorker) : ContextWorker := cancel_chain (S n) n w.

(** ** Runs *)

Inductive mail_op :=
| MSubmit
| MStep (n : nat)
| MEnd (n : nat) (e : op_end)
| MCancel (n : nat).

Definition mexec (o : mail_op) (w : ContextWorker) : ContextWorker :=
  match o with
  | MSubmit => submit w
  | MStep n => step_task n w
  | MEnd n e => end_operation n e w
  | MCancel n => cancel_submission n w
  end.

Definition mrun (os : list mail_op) (w : ContextWorker) : ContextWorker := foldl (λ w o, mexec o w) w os.

(** A run whose cancellations only reach operations that are running. *)
Fixpoint cancels_running (os : list mail_op) (w : ContextWorker) : bool :=
  match os with
  | [] => true
  | o :: os' =>
      match o with
      | MCancel n => match phase_of n w with Some (Created _) | Some (Awaiting _) => false | _ => true end
      | _ => true
      end && cancels_running os' (mexec o w)
  end.

(** ** The invariant

    The operations of the first [length ends] submissions have ended, as [ends]
    says; the next one runs if [busy]; all others wait for their predecessor. *)

Definition waiting (n : nat) (s : submission) : Prop :=
  match sb_phase s with
  | Created p => p = match n with O => None | S m => Some m end ∧ sb_must_cancel s = false
  | Awaiting p => n = S p
  | _ => False
  end.

Definition history (ends : list op_end) (busy : bool) : list mail_event :=
  concat (imap (λ k e, [OpStart k; OpEnd k e]) ends) ++ if busy then [OpStart (length ends)] else [].

Definition begun (ends : list op_end) (busy : bool) : nat := (length ends + if busy then 1 else 0)%nat.

Record mail_inv (w : ContextWorker) (ends : list op_end) (busy : bool) : Prop := {
  mi_tail : tail_task w = match length (submissions w) with O => None | S n => Some n end;
  mi_begun : (begun ends busy ≤ length (submissions w))%nat;
  mi_ended : ∀ n e, ends !! n = Some e → phase_of n w = Some (Ended e);
  mi_busy : busy = true → phase_of (length ends) w = Some Operating;
  mi_waiting : ∀ n s, (begun ends busy ≤ n)%nat → submissions w !! n = Some s → waiting n s;
  mi_status : worker_status w = if busy then "running" else "idle";
  mi_log : mail_log w = history ends busy
}.

Lemma set_phase_of n p w m :
  phase_of m (set_phase n p w) = if decide (m = n) then (λ _, p) <$> phase_of n w else phase_of m w.
Proof.
  unfold phase_of, set_phase. simpl. destruct (decide (m = n)) as [->|Hne].
  - rewrite list_lookup_alter_eq. by destruct (submissions w !! n).
  - by rewrite list_lookup_alter_ne by done.
Qed.

Lemma set_phase_lookup n p w m s :
  m ≠ n → submissions (set_phase n p w) !! m = Some s → submissions w !! m = Some s.
Proof. intros Hne. unfold set_phase. simpl. by rewrite list_lookup_alter_ne by done. Qed.

Lemma set_phase_length n p w : length (submissions (set_phase n p w)) = length (submissions w).
Proof. unfold set_phase. simpl. apply length_alter. Qed.

(** Where a submission is, by its index *)
Lemma inv_cases w ends busy n s :
  mail_inv w ends busy → submissions w !! n = Some s →
  (n < length ends)%nat ∧ has_ended n w = true ∨
  n = length ends ∧ busy = true ∧ sb_phase s = Operating ∨
  (begun ends busy ≤ n)%nat ∧ waiting n s.
Proof.
  intros Hi Hs. destruct (decide (n < length ends)%nat) as [Hlt|Hge].
  - left. split; [done|]. apply lookup_lt_is_Some in Hlt as [e He]. unfold has_ended. by rewrite (mi_ended _ _ _ Hi n e He).
  - right. destruct (decide (begun ends busy ≤ n)%nat) as [Hle|Hgt]; [right; by eauto using mi_waiting|].
    left. unfold begun in Hgt. destruct busy; [|lia]. assert (n = length ends) as -> by lia.
    pose proof (mi_busy _ _ _ Hi eq_refl) as Hb. unfold phase_of in Hb. rewrite Hs in Hb. simpl in Hb. by simplify_eq.
Qed.

Lemma ended_before w ends busy m : mail_inv w ends busy → has_ended m w = true → (m < length ends)%nat.
Proof.
  intros Hi. unfold has_ended, phase_of. destruct (submissions w !! m) as [s|] eqn:Es; [|done]. simpl. intros He.
  destruct (inv_cases w ends busy m s Hi Es) as [[? _]|[(_ & _ & E)|(_ & Hw)]]; [done|by rewrite E in He|].
  unfold waiting in Hw. by destruct (sb_phase s).
Qed.

Lemma history_start ends : history ends true = history ends false ++ [OpStart (length ends)].
Proof. unfold history. by rewrite app_nil_r. Qed.

Lemma history_end ends e : history (ends ++ [e]) false = history ends true ++ [OpEnd (length ends) e].
Proof.
  unfold history. rewrite imap_app, concat_app. simpl. by rewrite !app_nil_r, Nat.add_0_r, <- app_assoc.
Qed.

(** ** Preservation *)

Lemma submit_inv w ends busy : mail_inv w ends busy → mail_inv (submit w) ends busy.
Proof.
  intros Hi. pose proof (mi_begun _ _ _ Hi) as Hb. destruct Hi as [Ht _ He Hbu Hw Hs Hl].
  assert (∀ n p, phase_of n w = Some p → phase_of n (submit w) = Some p) as Hk.
  { unfold phase_of, submit. simpl. intros n p Hp. destruct (submissions w !! n) eqn:E; [|done]. by rewrite (lookup_app_l_Some _ _ _ _ E). }
  split; unfold submit; simpl; auto.
  - rewrite length_app, Nat.add_1_r. done.
  - rewrite length_app. lia.
  - intros n s Hn. destruct (decide (n < length (submissions w))%nat) as [Hlt|Hge].
    + rewrite lookup_app_l by done. by apply Hw.
    + rewrite lookup_app_r by lia. intros Hx. pose proof (lookup_lt_Some _ _ _ Hx) as Hlt. simpl in Hlt.
      assert (n = length (submissions w)) as -> by lia. rewrite Nat.sub_diag in Hx. injection Hx as <-.
      unfold waiting. simpl. by rewrite Ht.
Qed.

(** The next operation begins. *)
Lemma begin_inv w ends :
  mail_inv w ends false → (length ends < length (submissions w))%nat →
  mail_inv (begin_operation (length ends) w) ends true.
Proof.
  intros [Ht Hb He _ Hw Hs Hl] Hlt. unfold begin_operation.
  assert (∃ p, phase_of (length ends) w = Some p) as [p Hp].
  { unfold phase_of. apply lookup_lt_is_Some in Hlt as [s ->]. by eexists. }
  split; simpl; try done.
  - by rewrite length_alter.
  - rewrite length_alter. unfold begun. lia.
  - intros n e Hn. pose proof (lookup_lt_Some _ _ _ Hn). change (phase_of n _) with (phase_of n (set_phase (length ends) Operating w)).
    rewrite set_phase_of, decide_False by lia. by apply He.
  - intros _. change (phase_of _ _) with (phase_of (length ends) (set_phase (length ends) Operating w)).
    by rewrite set_phase_of, decide_True, Hp.
  - intros n s Hn Hx. unfold begun in *. apply Hw; [lia|]. apply (set_phase_lookup (length ends) Operating); [lia|done].
  - by rewrite Hl, history_start.
Qed.

Lemma step_task_inv n w ends busy :
  mail_inv w ends busy → ∃ busy', mail_inv (step_task n w) ends busy'.
Proof.
  intros Hi. unfold step_task. destruct (submissions w !! n) as [s|] eqn:Es; [|by exists busy].
  pose proof (lookup_lt_Some _ _ _ Es) as Hlen.
  assert (∀ m, has_ended m w = true → n = S m → (begun ends busy ≤ n)%nat → ∃ busy', mail_inv (begin_operation n w) ends busy') as Hgo.
  { intros m Hm -> Hle. pose proof (ended_before w ends busy m Hi Hm). unfold begun in Hle.
    assert (busy = false ∧ S m = length ends) as [-> E] by (destruct busy; lia). exists true. rewrite E in *. by apply begin_inv. }
  destruct (inv_cases w ends busy n s Hi Es) as [[_ He]|[(-> & -> & ->)|(Hle & Hw)]]; [|by exists true|].
  { unfold has_ended, phase_of in He. rewrite Es in He. simpl in He. exists busy. by destruct (sb_phase s). }
  unfold waiting in Hw. destruct (sb_phase s) as [p|p| |e] eqn:Ep; [..|done|done].
  - destruct Hw as [-> ->]. destruct n as [|m].
    + unfold begun in Hle. assert (busy = false ∧ length ends = 0%nat) as [-> E] by (destruct busy; lia).
      exists true. rewrite <- E in *. by apply begin_inv.
    + destruct (has_ended m w) eqn:Em; [by eapply Hgo|]. exists busy.
      destruct Hi as [Ht Hb He Hbu Hwt Hs Hl]. split; try done; simpl.
      * by rewrite length_alter.
      * by rewrite length_alter.
      * intros k e Hk. pose proof (lookup_lt_Some _ _ _ Hk). unfold begun in Hle. rewrite set_phase_of, decide_False by (destruct busy; lia). by apply He.
      * intros ->. unfold begun in Hle. rewrite set_phase_of, decide_False by lia. by apply Hbu.
      * intros k s' Hk Hx. destruct (decide (k = S m)) as [->|Hne]; [|apply (Hwt k); [done|]; by apply (set_phase_lookup (S m) (Awaiting m))].
        rewrite list_lookup_alter_eq, Es in Hx. simpl in Hx. injection Hx as <-. done.
  - destruct (has_ended p w) eqn:Em; [by eapply Hgo | by exists busy].
Qed.

Lemma end_operation_inv n e w ends busy :
  mail_inv w ends busy → ∃ ends' busy', mail_inv (end_operation n e w) ends' busy'.
Proof.
  intros Hi. unfold end_operation. destruct (phase_of n w) as [[]|] eqn:Ep; try by exists ends, busy.
  unfold phase_of in Ep. destruct (submissions w !! n) as [s|] eqn:Es; [|done]. simpl in Ep.
  destruct (inv_cases w ends busy n s Hi Es) as [[_ Hd]|[(-> & -> & _)|(_ & Hw)]].
  { unfold has_ended, phase_of in Hd. rewrite Es in Hd. simpl in Hd. by simplify_eq; rewrite Ep in Hd. }
  2: { unfold waiting in Hw. by simplify_eq; rewrite Ep in Hw. }
  exists (ends ++ [e]), false. destruct Hi as [Ht Hb He Hbu Hw Hs Hl]. unfold begun in *.
  split; simpl; try done; rewrite ?length_alter, ?length_app; simpl; unfold begun; rewrite ?length_app; simpl; try lia; try done.
  - intros k x Hk. change (phase_of k _) with (phase_of k (set_phase (length ends) (Ended e) w)). rewrite set_phase_of.
    apply lookup_snoc_Some in Hk as [[Hlt Hk]|[-> ->]].
    + rewrite decide_False by lia. by apply He.
    + rewrite decide_True by done. by rewrite Hbu.
  - intros k s' Hk Hx. apply Hw; [lia|]. apply (set_phase_lookup (length ends) (Ended e)); [lia|done].
  - by rewrite Hl, history_end.
Qed.

Lemma cancel_running_inv n w ends busy :
  mail_inv w ends busy → match phase_of n w with Some (Created _) | Some (Awaiting _) => false | _ => true end = true →
  mail_inv (cancel_submission n w) ends busy.
Proof.
  intros Hi Hc. unfold cancel_submission. cbn [cancel_chain]. destruct (phase_of n w) as [[p|p| |e]|] eqn:Ep; try done.
  unfold phase_of in Ep. destruct (submissions w !! n) as [s|] eqn:Es; [|done]. simpl in Ep. simplify_eq.
  assert (∀ k, phase_of k (w <| submissions ::= alter (λ s, s <| sb_must_cancel := true |>) n |>) = phase_of k w) as Hph.
  { intros k. unfold phase_of. simpl. destruct (decide (k = n)) as [->|Hne];
      [rewrite list_lookup_alter_eq, Es; done | by rewrite list_lookup_alter_ne]. }
  destruct (inv_cases w ends busy n s Hi Es) as [[_ Hd]|[(-> & -> & _)|(_ & Hw)]].
  { unfold has_ended, phase_of in Hd. rewrite Es in Hd. simpl in Hd. by rewrite Ep in Hd. }
  2: { unfold waiting in Hw. by rewrite Ep in Hw. }
  destruct Hi as [Ht Hb He Hbu Hw Hs Hl]. unfold begun in *.
  split; simpl; try done; rewrite ?length_alter; try done.
  - intros k x Hk. rewrite Hph. by apply He.
  - intros _. rewrite Hph. by apply Hbu.
  - intros k s' Hk Hx. unfold begun in Hk. rewrite list_lookup_alter_ne in Hx by lia. by apply Hw.
Qed.

Lemma mrun_inv os : ∀ w ends busy,
  mail_inv w ends busy → cancels_running os w = true → ∃ ends' busy', mail_inv (mrun os w) ends' busy'.
Proof.
  induction os as [|o os IH]; intros w ends busy Hi Hc; [by exists ends, busy|].
  simpl in Hc. apply andb_true_iff in Hc as [Ho Hc].
  assert (∃ ends' busy', mail_inv (mexec o w) ends' busy') as (e1 & b1 & H1).
  { destruct o as [|n|n e|n]; simpl.
    - exists ends, busy. by apply submit_inv.
    - destruct (step_task_inv n w ends busy Hi) as [b Hb]. by exists ends, b.
    - by apply (end_operation_inv n e w ends busy).
    - exists ends, busy. by apply cancel_running_inv. }
  simpl. by apply (IH _ e1 b1).
Qed.

Lemma init_mail_inv : mail_inv ContextWorker_init [] false.
Proof. split; try done; unfold begun; simpl; lia. Qed.

(** C29.  The mailbox serialises.  As long as only running operations are
    cancelled, whatever the interleaving: the worker's log is one operation
    after the other in the order of submission, each ended before the next
    begins; its status says whether one is running; and however the operations
    so far ended, the next submission begins as soon as its task gets a step. *)
Theorem mailbox_serialises os :
  cancels_running os ContextWorker_init = true →
  let w := mrun os ContextWorker_init in
  ∃ (ends : list op_end) (busy : bool),
    mail_log w = concat (imap (λ k e, [OpStart k; OpEnd k e]) ends) ++ (if busy then [OpStart (length ends)] else []) ∧
    worker_status w = (if busy then "running" else "idle") ∧
    (∀ n, phase_of n w = Some Operating ↔ busy = true ∧ n = length ends) ∧
    (busy = false → (length ends < length (submissions w))%nat →
     phase_of (length ends) (step_task (length ends) w) = Some Operating).
Proof.
  intros Hc w. destruct (mrun_inv os _ [] false init_mail_inv Hc) as (ends & busy & Hi). fold w in Hi.
  exists ends, busy. split; [apply Hi|]. split; [apply Hi|]. split.
  - intros n. split; [|intros [Hb ->]; by apply (mi_busy _ _ _ Hi)]. unfold phase_of.
    destruct (submissions w !! n) as [s|] eqn:Es; [|done]. simpl. intros [= Ep].
    destruct (inv_cases w ends busy n s Hi Es) as [[_ Hd]|[(? & ? & _)|(_ & Hw)]]; [|done|unfold waiting in Hw; by rewrite Ep in Hw].
    unfold has_ended, phase_of in Hd. rewrite Es in Hd. simpl in Hd. by rewrite Ep in Hd.
  - intros -> Hlt. pose proof Hlt as [s Es]%lookup_lt_is_Some.
    assert (step_task (length ends) w = begin_operation (length ends) w) as ->.
    { pose proof (mi_waiting _ _ _ Hi (length ends) s) as Hw. unfold begun in Hw. rewrite Nat.add_0_r in Hw.
      specialize (Hw ltac:(lia) Es). unfold step_task, waiting in *. rewrite Es.
      assert (∀ m, length ends = S m → has_ended m w = true) as Hpred.
      { intros m E. destruct (ends !! m) as [e|] eqn:Em; [|apply lookup_ge_None in Em; lia].
        unfold has_ended. by rewrite (mi_ended _ _ _ Hi m e Em). }
      destruct (sb_phase s) as [p|p| |e]; [|by rewrite (Hpred p Hw)|done|done].
      destruct Hw as [-> ->]. destruct (length ends) as [|m]; [done|]. by rewrite (Hpred m eq_refl). }
    apply (mi_busy _ _ _ (begin_inv w ends Hi Hlt)). done.
Qed.

(** ** Cancelling a submission that has not begun *)

(** Cancelling a queued submission cancels the running one.  The first
    operation runs and the second submission waits for it; cancelling the second
    leaves the second alone, delivers the cancellation to the first, and once the
    first has ended the second operation begins although it was cancelled. *)
Theorem queued_cancel_hits_running e :
  let w := mrun [MSubmit; MStep 0; MSubmit; MStep 1] ContextWorker_init in
  phase_of 0 w = Some Operating ∧ phase_of 1 w = Some (Awaiting 0) ∧
  let w' := cancel_submission 1 w in
  sb_must_cancel <$> submissions w' !! 0%nat = Some true ∧ sb_must_cancel <$> submissions w' !! 1%nat = Some false ∧
  phase_of 1 (mrun [MEnd 0 e; MStep 1] w') = Some Operating.
Proof. cbv zeta. split_and!; reflexivity. Qed.

(** Cancelling a submission before its task's first step breaks the chain:
    the cancelled task ends without waiting for its predecessor, so the next
    submission, which waits only for the cancelled one, runs its operation while
    the first is still running. *)
Theorem unstarted_cancel_overlaps :
  let w := mrun [MSubmit; MStep 0; MSubmit; MCancel 1; MStep 1; MSubmit; MStep 2] ContextWorker_init in
  phase_of 0 w = Some Operating ∧ phase_of 1 w = Some (Ended OpCancelled) ∧ phase_of 2 w = Some Operating ∧
  mail_log w = [OpStart 0; OpStart 2].
Proof. cbv zeta. split_and!; reflexivity. Qed.

Definition wm_ops : list mail_op :=
  [MSubmit; MStep 0; MSubmit; MStep 1; MCancel 0; MEnd 0 OpCancelled; MStep 1; MEnd 1 OpError; MSubmit; MStep 2].

Lemma mailbox_serialises_witness :
  ∃ (ends : list op_end) (busy : bool),
    [OpStart 0; OpEnd 0 OpCancelled; OpStart 1; OpEnd 1 OpError; OpStart 2]
    = concat (imap (λ k e, [OpStart k; OpEnd k e]) ends) ++ (if busy then [OpStart (length ends)] else []).
Proof.
  assert (mail_log (mrun wm_ops ContextWorker_init) = [OpStart 0; OpEnd 0 OpCancelled; OpStart 1; OpEnd 1 OpError; OpStart 2]) as <-
    by reflexivity.
  destruct (mailbox_serialises wm_ops eq_refl) as (ends & busy & Hl & _). exists ends, busy. exact Hl.
Defined.
