(* ===== verification/TurnProcessor.v ===== *)
(** Assembling user turns ([FinalTurnTranscriptProcessor] of
    [src/server/turns.py]).

    Text is a list of code points.  A completion task is cut at its awaits:
    the grace sleep, the wait for a dispatch slot, and the downstream push; a
    dispatch task runs the application's handler until an arbitrary step ends
    it.  The slots are asyncio's semaphore: [release] hands the slot to the first
    waiter.  A stop frame that waits for a committed completion ([arming])
    holds back the next stop; the framework handles system frames and data frames
    in separate tasks, so other frames may overtake it.  Cancelling the
    processor's own frame task is not modelled. *)

From S2P Require Import Prelude PyDict PyText.

(** ** State *)

Inductive completion_phase :=
| Grace                          (* [await sleep(complete_grace_seconds)] *)
| SlotWait (t : text)            (* in the semaphore's queue *)
| SlotGranted (t : text)         (* woken, not resumed yet *)
| Pushing                        (* [await push_frame] *)
| Completed.

#[global] Instance completion_phase_eq_dec : EqDecision completion_phase.
Proof. solve_decision. Defined.

Record completion := mkCompletion { cp_phase : completion_phase; cp_must_cancel : bool }.
#[export] Instance eta_completion : Eta completion := λ r, mkCompletion (cp_phase r) (cp_must_cancel r).

(** The frames the processor distinguishes *)
Inductive turn_frame :=
| Transcription (t : text)
| StartedSpeaking
| StoppedSpeaking
| CancelOrEnd
| OtherFrame.

Record Turns := mkTurns {
  fragments : list text;
  fragment_chars : nat;
  slots : nat;                             (* the semaphore's value *)
  waiters : list nat;                      (* its queue, not yet woken *)
  completions : list completion;           (* every completion task ever created *)
  completion_task : option nat;
  completion_committed : bool;
  running_dispatches : nat;
  closing : bool;
  arming : option nat;                     (* the stop frame that awaits a completion *)
  routed : list text                       (* the texts handed to dispatch tasks *)
}.

#[export] Instance eta_Turns : Eta Turns := λ r,
  mkTurns (fragments r) (fragment_chars r) (slots r) (waiters r) (completions r) (completion_task r)
    (completion_committed r) (running_dispatches r) (closing r) (arming r) (routed r).

(** The constructor's limits, both positive *)
Class TurnLimits := {
  max_pending_dispatches : nat;
  max_transcript_chars : nat;
  pending_positive : (0 < max_pending_dispatches)%nat;
  chars_positive : (0 < max_transcript_chars)%nat
}.

Section turns.
Context `{TurnLimits}.
Implicit Types (s : Turns) (k : nat).

Definition Turns_init : Turns := mkTurns [] 0 max_pending_dispatches [] [] None false 0 false None [].

Definition phase_at k s : completion_phase :=
  match completions s !! k with Some c => cp_phase c | None => Completed end.

Definition set_completion k (p : completion_phase) s : Turns :=
  s <| completions ::= alter (λ c, c <| cp_phase := p |>) k |>.

(** [_append_fragment] *)
Definition append_fragment (t : text) s : Turns :=
  let separator := match fragments s with [] => 0%nat | _ => 1%nat end in
  let remaining := (max_transcript_chars - fragment_chars s)%nat in
  if decide (remaining ≤ separator)%nat then s
  else
    let fragment := take (remaining - separator) t in
    match fragment with
    | [] => s
    | _ => s <| fragments ::= (λ l, l ++ [fragment]) |>
             <| fragment_chars := (fragment_chars s + (separator + length fragment))%nat |>
    end.

Definition clear_fragments s : Turns := s <| fragments := [] |> <| fragment_chars := 0%nat |>.

(** ** The semaphore *)

(** [_wake_up_next] *)
Definition wake_up_next s : Turns :=
  match slots s, waiters s with
  | S n, k :: rest =>
      match phase_at k s with
      | SlotWait t => set_completion k (SlotGranted t) (s <| slots := n |> <| waiters := rest |>)
      | _ => s <| waiters := rest |>
      end
  | _, _ => s
  end.

Definition release_slot s : Turns := wake_up_next (s <| slots ::= S |>).

(** The loop that ends a wait in [acquire] *)
Definition wake_waiters s : Turns := Nat.iter (length (waiters s)) wake_up_next s.

Definition is_granted (c : completion) : bool := match cp_phase c with SlotGranted _ => true | _ => false end.

(** [locked()] *)
Definition locked s : bool :=
  bool_decide (slots s = 0%nat) || bool_decide (waiters s ≠ []) || existsb is_granted (completions s).

(** ** Cancellation *)

(** [Task.cancel()] on completion task [k]: a waiter leaves the queue *)
Definition cancel_completion_task k s : Turns :=
  match completions s !! k with
  | None => s
  | Some c =>
      if decide (cp_phase c = Completed) then s
      else s <| completions ::= alter (λ c, c <| cp_must_cancel := true |>) k |>
             <| waiters ::= filter (λ j, j ≠ k) |>
  end.

(** [_cancel_completion] *)
Definition cancel_completion s : Turns :=
  let s := match completion_task s with Some k => cancel_completion_task k s | None => s end in
  s <| completion_task := None |> <| completion_committed := false |>.

(** ** The completion task *)

(** The [finally] clause of [_complete_after_grace] *)
Definition finish_completion k s : Turns :=
  let s := set_completion k Completed s in
  if decide (completion_task s = Some k)
  then s <| completion_task := None |> <| completion_committed := false |> else s.

(** [_dispatch_in_background] once a slot is held, and the push that follows *)
Definition dispatch_text k (t : text) s : Turns :=
  if closing s then finish_completion k (release_slot s)
  else set_completion k Pushing (s <| running_dispatches ::= S |> <| routed ::= (λ l, l ++ [t]) |>).

(** The grace period is over. *)
Definition grace_over k s : Turns :=
  let t := join (fragments s) in
  let s := clear_fragments s in
  match t with
  | [] => (set_completion k Completed s) <| completion_task := None |>
  | _ =>
      let s := s <| completion_committed := true |> in
      if locked s then (set_completion k (SlotWait t) s) <| waiters ::= (λ l, l ++ [k]) |>
      else dispatch_text k t (s <| slots ::= pred |>)
  end.

(** The event loop resumes completion task [k]. *)
Definition resume_completion k s : Turns :=
  match completions s !! k with
  | None => s
  | Some c =>
      match cp_phase c, cp_must_cancel c with
      | Grace, true => set_completion k Completed s
      | Grace, false => grace_over k s
      | SlotWait _, true => finish_completion k (wake_waiters (set_completion k Completed s))
      | SlotWait _, false => s
      | SlotGranted _, true => finish_completion k (wake_waiters (set_completion k Completed (s <| slots ::= S |>)))
      | SlotGranted t, false => dispatch_text k t (wake_waiters (set_completion k Pushing s))
      | Pushing, _ => finish_completion k s
      | Completed, _ => s
      end
  end.

(** A dispatch task ends, however its handler ended. *)
Definition end_dispatch s : Turns :=
  match running_dispatches s with
  | O => s
  | S n => release_slot (s <| running_dispatches := n |>)
  end.

(** ** Frames *)

Definition create_completion s : Turns :=
  s <| completions ::= (λ l, l ++ [mkCompletion Grace false]) |>
    <| completion_task := Some (length (completions s)) |>.

Definition live_completion s : option nat :=
  match completion_task s with
  | Some k => if decide (phase_at k s = Completed) then None else Some k
  | None => None
  end.

(** [_arm_completion], up to its await *)
Definition arm_completion s : Turns :=
  match live_completion s with
  | Some k =>
      if completion_committed s then s <| arming := Some k |>
      else
        let s := cancel_completion s in
        if closing s then s else create_completion s
  | None => if closing s then s else create_completion s
  end.

(** The rest of [_arm_completion], once the awaited task has ended: when it was
    cancelled, the await raises and nothing is armed *)
Definition resume_arm s : Turns :=
  match arming s with
  | None => s
  | Some k =>
      if decide (phase_at k s = Completed) then
        let cancelled := match completions s !! k with Some c => cp_must_cancel c | None => false end in
        let s := s <| arming := None |> in
        if cancelled || closing s then s else create_completion s
      else s
  end.

(** [process_frame] for a downstream frame; the frame itself is passed on
    except for transcriptions and stops *)
Definition process_turn_frame (f : turn_frame) s : Turns :=
  match f with
  | Transcription t =>
      match strip t with [] => s | t' => append_fragment t' s end
  | StartedSpeaking =>
      if bool_decide (completion_task s ≠ None) && negb (completion_committed s)
      then cancel_completion s else s
  | StoppedSpeaking => match arming s with Some _ => s | None => arm_completion s end
  | CancelOrEnd => clear_fragments (cancel_completion s)
  | OtherFrame => s
  end.

(** [cleanup] before it awaits the tasks; a dispatch it cancels ends through its
    [finally], or keeps its slot for good when it had not started *)
Definition cleanup_begin s : Turns :=
  let s := s <| closing := true |> in
  let s := foldl (λ s k, cancel_completion_task k s) s (seq 0 (length (completions s))) in
  s <| completion_task := None |> <| completion_committed := false |>.

(** ... and after *)
Definition cleanup_finish s : Turns := if closing s then clear_fragments s else s.

(** ** Runs *)

Inductive turn_step :=
| TFrame (f : turn_frame)
| TResume (k : nat)
| TResumeArm
| TEndDispatch
| TCleanup
| TCleanupDone.

Definition texec (o : turn_step) s : Turns :=
  match o with
  | TFrame f => process_turn_frame f s
  | TResume k => resume_completion k s
  | TResumeArm => resume_arm s
  | TEndDispatch => end_dispatch s
  | TCleanup => cleanup_begin s
  | TCleanupDone => cleanup_finish s
  end.

Definition trun (os : list turn_step) s : Turns := foldl (λ s o, texec o s) s os.

End turns.

(** Facts about the turn assembler: its bounds hold over every run, and no
    speech is lost, repeated or reordered on the way to the application. *)
(** ** [join] *)

Lemma join_cons t l : l ≠ [] → join (t :: l) = t ++ 32%N :: join l.
Proof. by destruct l. Qed.

Lemma join_snoc_length l t :
  length (join (l ++ [t])) = (length (join l) + ((match l with [] => 0 | _ => 1 end) + length t))%nat.
Proof.
  induction l as [|x l IH]; [done|]. destruct l as [|y l]; [simpl; rewrite length_app; simpl; lia|].
  change ((x :: y :: l) ++ [t]) with (x :: ((y :: l) ++ [t])). rewrite join_cons by (by destruct l).
  rewrite (join_cons x (y :: l)) by done. rewrite !length_app. cbn [length]. rewrite IH. cbn. lia.
Qed.

Lemma join_flatten_head fs b : fs ≠ [] → join (join fs :: b) = join (fs ++ b).
Proof.
  intros Hf. destruct b as [|y b]; [by rewrite app_nil_r|]. rewrite join_cons by done.
  induction fs as [|x fs IH]; [done|]. destruct fs as [|z fs]; [done|].
  rewrite (join_cons x (z :: fs)) by done. rewrite <- app_assoc. simpl app at 2.
  change ((x :: z :: fs) ++ y :: b) with (x :: ((z :: fs) ++ y :: b)). rewrite join_cons by done.
  by rewrite <- IH.
Qed.

(** Joining the groups first changes nothing. *)
Lemma join_flatten a fs b : fs ≠ [] → join (a ++ join fs :: b) = join (a ++ fs ++ b).
Proof.
  intros Hf. induction a as [|x a IH]; [rewrite !app_nil_l; by apply join_flatten_head|].
  rewrite <- !app_comm_cons.
  rewrite (join_cons x (a ++ join fs :: b)), (join_cons x (a ++ fs ++ b)), IH; [done| |]; by destruct a, fs.
Qed.

Lemma join_nonempty l : l ≠ [] → Forall (λ t, t ≠ []) l → join l ≠ [].
Proof.
  destruct l as [|t [|y l]]; [done|by intros _ [? _]%Forall_cons|]. intros _ [Ht _]%Forall_cons.
  rewrite join_cons by done. by destruct t.
Qed.

(** ** Counting granted slots *)

Lemma filter_alter_length {A} (P : A → bool) (f : A → A) k (l : list A) c :
  l !! k = Some c →
  (length (filter (λ x, P x = true) (alter f k l)) + (if P c then 1 else 0)
   = length (filter (λ x, P x = true) l) + (if P (f c) then 1 else 0))%nat.
Proof.
  revert k. induction l as [|x l IH]; intros [|k] Hk; simpl in Hk; simplify_eq.
  - rewrite (eq_refl : alter f 0%nat (c :: l) = f c :: l). rewrite !filter_cons.
    repeat case_decide; destruct (P (f c)), (P c); simpl; try done; lia.
  - rewrite (eq_refl : alter f (S k) (x :: l) = x :: alter f k l). rewrite !filter_cons. specialize (IH k Hk).
    destruct (decide (P x = true)); simpl; lia.
Qed.

Definition granted (s : Turns) : nat := length (filter (λ c, is_granted c = true) (completions s)).

Definition grants (p : completion_phase) : nat := match p with SlotGranted _ => 1 | _ => 0 end.

Lemma phase_at_set k p s j :
  phase_at j (set_completion k p s) = if decide (j = k ∧ is_Some (completions s !! k)) then p else phase_at j s.
Proof.
  unfold phase_at, set_completion. simpl. destruct (decide (j = k)) as [->|Hne].
  - rewrite list_lookup_alter_eq. destruct (completions s !! k) as [c|]; simpl.
    + by rewrite decide_True.
    + rewrite decide_False; [done|]. by intros [_ [? ?]].
  - rewrite list_lookup_alter_ne by done. rewrite decide_False by tauto. done.
Qed.

Lemma granted_set k p s :
  is_Some (completions s !! k) →
  (granted (set_completion k p s) + grants (phase_at k s) = granted s + grants p)%nat.
Proof.
  intros [c Hc]. unfold granted, set_completion, phase_at. simpl. rewrite Hc.
  pose proof (filter_alter_length is_granted (λ c, c <| cp_phase := p |>) k (completions s) c Hc) as E.
  assert (∀ c, (if is_granted c then 1 else 0)%nat = grants (cp_phase c)) as Hg by (intros x; unfold is_granted; by destruct (cp_phase x)).
  rewrite !Hg in E. exact E.
Qed.

(** ** The invariant *)

Section facts.
Context `{TurnLimits}.
Implicit Types (s : Turns) (k : nat).

Definition text_ok (t : list N) : Prop := t ≠ [] ∧ (length t ≤ max_transcript_chars)%nat.

(** Slots are free, running or granted; [extra] are held by the task that is
    being resumed. *)
Record turn_ok (extra : nat) s : Prop := {
  to_chars : fragment_chars s = length (join (fragments s));
  to_cap : (fragment_chars s ≤ max_transcript_chars)%nat;
  to_fragments : Forall (λ t, t ≠ []) (fragments s);
  to_held : ∀ k t, phase_at k s = SlotWait t ∨ phase_at k s = SlotGranted t → text_ok t;
  to_routed : Forall text_ok (routed s);
  to_slots : (slots s + running_dispatches s + granted s + extra = max_pending_dispatches)%nat;
  to_waiters : ∀ k, k ∈ waiters s → is_Some (completions s !! k)
}.

Lemma append_fragment_ok t e s : turn_ok e s → turn_ok e (append_fragment t s).
Proof.
  intros Hok. unfold append_fragment. cbv zeta. case_decide as Hr; [done|].
  destruct (take _ t) as [|c f] eqn:Et; [done|]. destruct Hok as [Hc Hm Hf Hh Ho Hs Hw].
  assert (length (c :: f) ≤ max_transcript_chars - fragment_chars s - match fragments s with [] => 0 | _ => 1 end)%nat as Hl
    by (rewrite <- Et, length_take; lia).
  split; try done; simpl in *.
  - rewrite join_snoc_length, <- Hc. simpl. lia.
  - lia.
  - apply Forall_app_2; [done|]. by apply Forall_singleton.
Qed.

Lemma clear_fragments_ok e s : turn_ok e s → turn_ok e (clear_fragments s).
Proof. intros []. split; try done; simpl; first [lia | constructor]. Qed.

(** A phase that holds no text *)
Lemma set_completion_ok k p e s :
  turn_ok (e + grants p) s → is_Some (completions s !! k) →
  (∀ t, p = SlotWait t ∨ p = SlotGranted t → text_ok t) → turn_ok (e + grants (phase_at k s)) (set_completion k p s).
Proof.
  intros [Hc Hm Hf Hh Ho Hs Hw] Hk Hp. pose proof (granted_set k p s Hk) as Hg.
  split; try done.
  - intros j t. rewrite phase_at_set. case_decide; [apply Hp | apply Hh].
  - simpl in *. lia.
  - intros j Hj. unfold set_completion. simpl. destruct (decide (j = k)) as [->|Hne].
    + rewrite list_lookup_alter_eq. destruct Hk as [c ->]. by eexists.
    + rewrite list_lookup_alter_ne by done. by apply Hw.
Qed.

Lemma wake_up_next_ok e s : turn_ok e s → turn_ok e (wake_up_next s).
Proof.
  intros Hok. unfold wake_up_next. destruct (slots s) as [|n] eqn:En; [done|].
  destruct (waiters s) as [|k rest] eqn:Ew; [done|].
  assert (turn_ok e (s <| waiters := rest |>)) as Hrest.
  { destruct Hok as [Hc Hm Hf Hh Ho Hs Hw]. split; try done. simpl. intros j Hj. apply Hw. rewrite Ew. by constructor. }
  assert (is_Some (completions s !! k)) as Hk by (apply Hok; rewrite Ew; constructor).
  destruct (phase_at k s) as [|t|t| |] eqn:Ep; try done.
  set (s1 := s <| slots := n |> <| waiters := rest |>).
  assert (turn_ok (e + grants (SlotGranted t)) s1) as H1.
  { pose proof (to_slots _ _ Hok) as Hs. rewrite En in Hs. destruct Hrest. split; try done.
    change (n + running_dispatches s + granted s + (e + 1) = max_pending_dispatches)%nat. lia. }
  pose proof (set_completion_ok k (SlotGranted t) e s1 H1 Hk) as H2.
  change (phase_at k s1) with (phase_at k s) in H2. rewrite Ep in H2. simpl in H2. rewrite Nat.add_0_r in H2.
  apply H2. intros u [?|[= <-]]; [done|]. eapply to_held; [exact Hok|]. left. exact Ep.
Qed.

Lemma wake_waiters_ok e s : turn_ok e s → turn_ok e (wake_waiters s).
Proof.
  intros Hok. unfold wake_waiters. induction (length (waiters s)) as [|n IH]; [done|]. simpl. by apply wake_up_next_ok.
Qed.

Lemma release_slot_ok e s : turn_ok (S e) s → turn_ok e (release_slot s).
Proof.
  intros Hok. pose proof (to_slots _ _ Hok) as Hs. destruct Hok. unfold release_slot. apply wake_up_next_ok. split; try done.
  change (S (slots s) + running_dispatches s + granted s + e = max_pending_dispatches)%nat. lia.
Qed.

(** Changes the invariant does not see *)
Definition same_turn s s' : Prop :=
  fragments s' = fragments s ∧ fragment_chars s' = fragment_chars s ∧ slots s' = slots s ∧
  running_dispatches s' = running_dispatches s ∧ routed s' = routed s ∧
  (∀ k, cp_phase <$> completions s' !! k = cp_phase <$> completions s !! k) ∧ granted s' = granted s ∧ waiters s' ⊆ waiters s.

Lemma phase_at_same s s' k :
  cp_phase <$> completions s' !! k = cp_phase <$> completions s !! k → phase_at k s' = phase_at k s.
Proof. unfold phase_at. destruct (completions s' !! k), (completions s !! k); simpl; congruence. Qed.

Lemma same_turn_ok e s s' : same_turn s s' → turn_ok e s → turn_ok e s'.
Proof.
  intros (E1 & E2 & E3 & E4 & E5 & E6 & E7 & E8) [Hc Hm Hf Hh Ho Hs Hw].
  split; rewrite ?E1, ?E2, ?E3, ?E4, ?E5, ?E7; try done.
  - intros k t. rewrite (phase_at_same s s' k (E6 k)). apply Hh.
  - intros k Hk%E8%Hw. specialize (E6 k). destruct Hk as [c Hx]. rewrite Hx in E6.
    destruct (completions s' !! k); [by eexists|done].
Qed.

Lemma set_completion_self_ok k p e s :
  grants p = 0%nat → (∀ t, p ≠ SlotWait t) →
  turn_ok e s → is_Some (completions s !! k) → turn_ok (e + grants (phase_at k s)) (set_completion k p s).
Proof.
  intros Hg Hp Hok Hk. apply set_completion_ok; [by rewrite Hg, Nat.add_0_r|done|].
  intros t [->| ->]; [by destruct (Hp t) | done].
Qed.

Lemma finish_completion_ok k e s :
  turn_ok e s → is_Some (completions s !! k) → grants (phase_at k s) = 0%nat → turn_ok e (finish_completion k s).
Proof.
  intros Hok Hk Hg. unfold finish_completion. pose proof (set_completion_self_ok k Completed e s eq_refl ltac:(done) Hok Hk) as H1.
  rewrite Hg, Nat.add_0_r in H1. destruct (decide _); [|done]. by apply (same_turn_ok _ (set_completion k Completed s)).
Qed.

Lemma wake_up_next_some s k : is_Some (completions s !! k) → is_Some (completions (wake_up_next s) !! k).
Proof.
  intros Hk. unfold wake_up_next. destruct (slots s); [done|]. destruct (waiters s) as [|j rest]; [done|].
  destruct (phase_at j s); try done. unfold set_completion. simpl. destruct (decide (k = j)) as [->|Hne].
  - rewrite list_lookup_alter_eq. destruct Hk as [c ->]. by eexists.
  - by rewrite list_lookup_alter_ne.
Qed.

(** Waking others does not touch a task that is not waiting. *)
Lemma wake_up_next_phase s k :
  (∀ t, phase_at k s ≠ SlotWait t) → phase_at k (wake_up_next s) = phase_at k s.
Proof.
  intros Hk. unfold wake_up_next. destruct (slots s); [done|]. destruct (waiters s) as [|j rest]; [done|].
  destruct (phase_at j s) as [|t|t| |] eqn:Ej; try done. rewrite phase_at_set. case_decide as E; [|done].
  destruct E as [-> _]. by destruct (Hk t).
Qed.

Lemma wake_waiters_keeps s k :
  (is_Some (completions s !! k) → is_Some (completions (wake_waiters s) !! k)) ∧
  ((∀ t, phase_at k s ≠ SlotWait t) → phase_at k (wake_waiters s) = phase_at k s).
Proof.
  unfold wake_waiters. induction (length (waiters s)) as [|n [IH1 IH2]]; [done|]. simpl. split.
  - intros Hk. by apply wake_up_next_some, IH1.
  - intros Hp. rewrite wake_up_next_phase; rewrite IH2; done.
Qed.

Lemma dispatch_text_ok k t e s :
  turn_ok (S e) s → text_ok t → is_Some (completions s !! k) → grants (phase_at k s) = 0%nat →
  (∀ u, phase_at k s ≠ SlotWait u) → turn_ok e (dispatch_text k t s).
Proof.
  intros Hok Ht Hk Hg Hw. unfold dispatch_text. destruct (closing s).
  - assert (phase_at k (release_slot s) = phase_at k s) as E by (unfold release_slot; by rewrite wake_up_next_phase).
    apply finish_completion_ok; [by apply release_slot_ok|unfold release_slot; by apply wake_up_next_some|by rewrite E].
  - set (s1 := s <| running_dispatches ::= S |> <| routed ::= _ |>).
    assert (turn_ok e s1) as H1.
    { pose proof (to_slots _ _ Hok) as Hs. destruct Hok. split; try done.
      - simpl. apply Forall_app_2; [done|]. by apply Forall_singleton.
      - change (slots s + S (running_dispatches s) + granted s + e = max_pending_dispatches)%nat. lia. }
    pose proof (set_completion_self_ok k Pushing e s1 eq_refl ltac:(done) H1 Hk) as H2.
    change (phase_at k s1) with (phase_at k s) in H2. by rewrite Hg, Nat.add_0_r in H2.
Qed.

Lemma grace_over_ok k e s :
  turn_ok e s → completions s !! k = Some (mkCompletion Grace false) → turn_ok e (grace_over k s).
Proof.
  intros Hok Hk. unfold grace_over. pose proof (clear_fragments_ok e s Hok) as Hc.
  assert (phase_at k s = Grace) as Hp by (unfold phase_at; by rewrite Hk).
  assert (is_Some (completions s !! k)) as Hs by (rewrite Hk; by eexists).
  assert (join (fragments s) ≠ [] → text_ok (join (fragments s))) as Ht.
  { intros Hne. split; [done|]. rewrite <- (to_chars _ _ Hok). apply Hok. }
  set (s1 := clear_fragments s) in *.
  destruct (join (fragments s)) as [|c f] eqn:Ej.
  { pose proof (set_completion_self_ok k Completed e s1 eq_refl ltac:(done) Hc Hs) as H1.
    change (phase_at k s1) with (phase_at k s) in H1. rewrite Hp, Nat.add_0_r in H1. by apply (same_turn_ok _ (set_completion k Completed s1)). }
  rewrite <- Ej in *. set (t := join (fragments s)) in *. set (s2 := s1 <| completion_committed := true |>).
  assert (turn_ok e s2) as H2 by (by apply (same_turn_ok _ s1)).
  assert (text_ok t) as Htx by (apply Ht; by rewrite Ej).
  destruct (locked s2) eqn:El.
  - pose proof (set_completion_ok k (SlotWait t) e s2) as H3. rewrite Nat.add_0_r in H3. specialize (H3 H2 Hs).
    change (phase_at k s2) with (phase_at k s) in H3. rewrite Hp, Nat.add_0_r in H3.
    assert (turn_ok e (set_completion k (SlotWait t) s2)) as [] by (apply H3; intros u [[= <-]|?]; done).
    split; try done. simpl. intros j [Hj| ->%list_elem_of_singleton]%elem_of_app; [by apply to_waiters0|].
    rewrite list_lookup_alter_eq, Hk. by eexists.
  - unfold locked in El. apply orb_false_iff in El as [[El _]%orb_false_iff _]. apply bool_decide_eq_false in El.
    apply dispatch_text_ok; try done; [|by change (phase_at k _) with (phase_at k s); rewrite Hp|].
    2: { intros u. change (phase_at k _) with (phase_at k s). by rewrite Hp. }
    pose proof (to_slots _ _ H2) as Hn. destruct H2. split; try done.
    change (pred (slots s2) + running_dispatches s2 + granted s2 + S e = max_pending_dispatches)%nat. lia.
Qed.

(** The task is over; the slots it leaves wake the others. *)
Lemma end_wait_ok k e s :
  turn_ok e (set_completion k Completed s) → is_Some (completions s !! k) →
  turn_ok e (finish_completion k (wake_waiters (set_completion k Completed s))).
Proof.
  intros Hok Hk. set (s1 := set_completion k Completed s) in *.
  assert (is_Some (completions s1 !! k)) as Hk1.
  { unfold s1, set_completion. simpl. rewrite list_lookup_alter_eq. destruct Hk as [c ->]. by eexists. }
  assert (phase_at k s1 = Completed) as Hp by (unfold s1; rewrite phase_at_set; by rewrite decide_True).
  destruct (wake_waiters_keeps s1 k) as [Hws Hwp]. apply finish_completion_ok; [by apply wake_waiters_ok|by apply Hws|].
  rewrite Hwp; rewrite Hp; done.
Qed.

Lemma resume_completion_ok k s : turn_ok 0 s → turn_ok 0 (resume_completion k s).
Proof.
  intros Hok. unfold resume_completion. destruct (completions s !! k) as [[ph mc]|] eqn:Ek; [|done]. cbn [cp_phase cp_must_cancel].
  assert (is_Some (completions s !! k)) as Hk by (rewrite Ek; by eexists).
  assert (phase_at k s = ph) as Hp by (unfold phase_at; by rewrite Ek).
  pose proof (set_completion_self_ok k Completed 0 s eq_refl ltac:(done) Hok Hk) as Hd. rewrite Hp in Hd.
  destruct ph as [|t|t| |], mc; try done.
  - by apply grace_over_ok.
  - by apply end_wait_ok.
  - apply (end_wait_ok k 0 (s <| slots ::= S |>)); [|done].
    pose proof (to_slots _ _ Hd) as Hs. destruct Hd. split; try done.
    change (S (slots s) + running_dispatches s + granted (set_completion k Completed s) + 0 = max_pending_dispatches)%nat.
    change (slots s + running_dispatches s + granted (set_completion k Completed s) + 1 = max_pending_dispatches)%nat in Hs. lia.
  - assert (turn_ok 1 (set_completion k Pushing s)) as H1.
    { pose proof (set_completion_self_ok k Pushing 0 s eq_refl ltac:(done) Hok Hk) as H1. by rewrite Hp in H1. }
    set (s1 := set_completion k Pushing s) in *.
    assert (is_Some (completions s1 !! k)) as Hk1.
    { unfold s1, set_completion. simpl. rewrite list_lookup_alter_eq, Ek. by eexists. }
    assert (phase_at k s1 = Pushing) as Hp1 by (unfold s1; rewrite phase_at_set; by rewrite decide_True).
    destruct (wake_waiters_keeps s1 k) as [Hws Hwp].
    apply dispatch_text_ok; [by apply wake_waiters_ok| |by apply Hws| |]; rewrite ?Hwp, ?Hp1 by (rewrite Hp1; done); try done.
    eapply to_held; [exact Hok|]. right. exact Hp.
  - apply finish_completion_ok; try done. by rewrite Hp.
  - apply finish_completion_ok; try done. by rewrite Hp.
Qed.

Lemma end_dispatch_ok s : turn_ok 0 s → turn_ok 0 (end_dispatch s).
Proof.
  intros Hok. unfold end_dispatch. destruct (running_dispatches s) as [|n] eqn:En; [done|].
  apply release_slot_ok. pose proof (to_slots _ _ Hok) as Hs. destruct Hok. split; try done.
  change (slots s + n + granted s + 1 = max_pending_dispatches)%nat. lia.
Qed.

Lemma cancel_completion_task_ok k e s : turn_ok e s → turn_ok e (cancel_completion_task k s).
Proof.
  intros Hok. unfold cancel_completion_task. destruct (completions s !! k) as [c|] eqn:Ek; [|done].
  destruct (decide _); [done|]. apply (same_turn_ok _ s); [|done]. repeat split; simpl.
  - intros j. destruct (decide (j = k)) as [->|Hne].
    + by rewrite list_lookup_alter_eq, Ek.
    + by rewrite list_lookup_alter_ne.
  - unfold granted. simpl.
    pose proof (filter_alter_length is_granted (λ c, c <| cp_must_cancel := true |>) k (completions s) c Ek) as E.
    by apply Nat.add_cancel_r in E.
  - intros j. rewrite list_elem_of_filter. tauto.
Qed.

Lemma cancel_completion_ok e s : turn_ok e s → turn_ok e (cancel_completion s).
Proof.
  intros Hok. unfold cancel_completion. destruct (completion_task s) as [k|].
  - apply (same_turn_ok _ (cancel_completion_task k s)); [|by apply cancel_completion_task_ok]. by repeat split.
  - apply (same_turn_ok _ s); [|done]. by repeat split.
Qed.

Lemma create_completion_ok e s : turn_ok e s → turn_ok e (create_completion s).
Proof.
  intros [Hc Hm Hf Hh Ho Hs Hw]. unfold create_completion. split; try done; simpl.
  - intros k t Hk. apply (Hh k t). revert Hk. unfold phase_at. simpl.
    destruct (completions s !! k) as [c|] eqn:Ek; [by rewrite (lookup_app_l_Some _ _ _ _ Ek)|].
    rewrite lookup_app_r by (by apply lookup_ge_None). destruct (k - _)%nat; simpl; by intros [?|?].
  - unfold granted in *. simpl. rewrite filter_app, filter_cons. simpl. rewrite app_nil_r. exact Hs.
  - intros k [c Hk]%Hw. rewrite (lookup_app_l_Some _ _ _ _ Hk). by eexists.
Qed.

Lemma cleanup_begin_ok e s : turn_ok e s → turn_ok e (cleanup_begin s).
Proof.
  intros Hok. unfold cleanup_begin. cbv zeta. set (s1 := s <| closing := true |>).
  assert (turn_ok e s1) as H1 by (apply (same_turn_ok _ s); [by repeat split|done]).
  assert (∀ l s', turn_ok e s' → turn_ok e (foldl (λ s k, cancel_completion_task k s) s' l)) as Hl.
  { intros l. induction l as [|k l IH]; intros s' Hs'; [done|]. by apply IH, cancel_completion_task_ok. }
  eapply same_turn_ok; [|apply Hl, H1]. by repeat split.
Qed.

Lemma texec_ok o s : turn_ok 0 s → turn_ok 0 (texec o s).
Proof.
  intros Hok. destruct o as [f|k| | | |]; simpl; [|by apply resume_completion_ok| |by apply end_dispatch_ok|by apply cleanup_begin_ok|].
  - unfold process_turn_frame. destruct f as [t| | | |]; [| | | |done].
    + destruct (strip t); [done|]. by apply append_fragment_ok.
    + destruct (_ && _); [by apply cancel_completion_ok|done].
    + destruct (arming s); [done|]. unfold arm_completion. cbv zeta. destruct (live_completion s) as [k|]; [destruct (completion_committed s)|].
      * apply (same_turn_ok _ s); [by repeat split|done].
      * destruct (closing (cancel_completion s)); [|apply create_completion_ok]; by apply cancel_completion_ok.
      * destruct (closing s); [done|by apply create_completion_ok].
    + by apply clear_fragments_ok, cancel_completion_ok.
  - unfold resume_arm. cbv zeta. destruct (arming s); [|done]. case_decide; [|done].
    assert (turn_ok 0 (s <| arming := None |>)) as H1 by (apply (same_turn_ok _ s); [by repeat split|done]).
    destruct (_ || _); [done|]. by apply create_completion_ok.
  - unfold cleanup_finish. destruct (closing s); [by apply clear_fragments_ok|done].
Qed.

Lemma trun_ok os s : turn_ok 0 s → turn_ok 0 (trun os s).
Proof. revert s. induction os as [|o os IH]; intros s Hs; [done|]. simpl. apply IH. by apply texec_ok. Qed.

Lemma Turns_init_ok : turn_ok 0 Turns_init.
Proof. split; simpl; try done; try lia; [by intros k t [?|?]|unfold granted; simpl; lia|by intros k ?%not_elem_of_nil]. Qed.

(** Over any sequence of frames, resumptions, handler ends and cleanups, in
    any order, the turn assembler stays inside its limits: the dispatches that run
    and the slots promised to woken completions never exceed
    [max_pending_dispatches], the counter of kept characters is exactly the length
    of the text a completion would dispatch, which never exceeds
    [max_transcript_chars], and every text handed to the application is non-empty
    and within that limit. *)
Theorem turn_limits (os : list turn_step) :
  let s := trun os Turns_init in
  (running_dispatches s + granted s ≤ max_pending_dispatches)%nat ∧
  (slots s ≤ max_pending_dispatches)%nat ∧
  fragment_chars s = length (join (fragments s)) ∧
  (length (join (fragments s)) ≤ max_transcript_chars)%nat ∧
  Forall (λ t, t ≠ [] ∧ (length t ≤ max_transcript_chars)%nat) (routed s).
Proof.
  destruct (trun_ok os Turns_init Turns_init_ok) as [Hc Hm Hf Hh Ho Hs Hw]. cbv zeta.
  split_and!; try done; lia.
Qed.

(** ** No speech is lost *)

(** A completion that no longer matters *)
Definition idle (c : completion) : Prop := cp_phase c = Completed ∨ cp_phase c = Grace ∧ cp_must_cancel c = true.

(** [o] is the live completion: without frames that cancel a turn and without
    cleanup there is at most one, and it is committed once its grace is over. *)
Record quiet (o : option (nat * completion_phase)) s : Prop := {
  q_open : closing s = false;
  q_idle : ∀ j c, completions s !! j = Some c → fst <$> o ≠ Some j → idle c;
  q_live : match o with
           | None => completion_task s = None ∧ completion_committed s = false
           | Some (k, p) => completion_task s = Some k ∧ completions s !! k = Some (mkCompletion p false) ∧
               p ≠ Completed ∧ completion_committed s = bool_decide (p ≠ Grace)
           end;
  q_arming : ∀ k, arming s = Some k → fst <$> o = Some k ∨ o = None
}.

Definition held_by (o : option (nat * completion_phase)) : list (list N) :=
  match o with Some (_, SlotWait t) | Some (_, SlotGranted t) => [t] | _ => [] end.

(** The text a committed completion holds while it waits for a slot *)
Definition held_text s : list (list N) :=
  match completion_task s with
  | Some k => match phase_at k s with SlotWait t | SlotGranted t => [t] | _ => [] end
  | None => []
  end.

Lemma quiet_held o s : quiet o s → held_text s = held_by o.
Proof.
  intros [_ _ Hl _]. unfold held_text. destruct o as [[k p]|]; [|by destruct Hl as [-> _]].
  destruct Hl as (-> & Hk & _). unfold phase_at. by rewrite Hk.
Qed.

(** The live completion moves from one phase to the next. *)
Lemma quiet_move k p p' s :
  quiet (Some (k, p)) s → p' ≠ Completed → (p = Grace ↔ p' = Grace) → quiet (Some (k, p')) (set_completion k p' s).
Proof.
  intros [Ho Hi (Ht & Hk & Hp & Hc) Ha] Hp' Hg. split; [done| |split_and!|by intros j [?|?]%Ha; left]; simpl; try done.
  - intros j c Hj Hne. apply (Hi j c); [|done]. rewrite list_lookup_alter_ne in Hj; [done|congruence].
  - by rewrite list_lookup_alter_eq, Hk.
  - rewrite Hc. apply bool_decide_ext. tauto.
Qed.

Lemma quiet_finish k p s : quiet (Some (k, p)) s → quiet None (finish_completion k s).
Proof.
  intros [Ho Hi (Ht & Hk & Hp & Hc) Ha]. unfold finish_completion. cbv zeta. rewrite decide_True by exact Ht.
  split; [done| |done|by right]. simpl. intros j c Hj _. destruct (decide (j = k)) as [->|Hne].
  - rewrite list_lookup_alter_eq, Hk in Hj. simpl in Hj. simplify_eq. by left.
  - rewrite list_lookup_alter_ne in Hj by done. apply (Hi j c Hj). simpl. congruence.
Qed.

(** Fields outside [quiet] *)
Definition same_quiet s s' : Prop :=
  closing s' = closing s ∧ completions s' = completions s ∧ completion_task s' = completion_task s ∧
  completion_committed s' = completion_committed s ∧ arming s' = arming s.

Lemma same_quiet_ok o s s' : same_quiet s s' → quiet o s → quiet o s'.
Proof.
  intros (E1 & E2 & E3 & E4 & E5) [Ho Hi Hl Ha]. split; [by rewrite E1|by rewrite E2| |by rewrite E5].
  rewrite E2, E3, E4. exact Hl.
Qed.

Lemma wake_quiet o s :
  quiet o s → ∃ o', quiet o' (wake_up_next s) ∧ held_by o' = held_by o ∧ ((∀ k t, o ≠ Some (k, SlotWait t)) → o' = o) ∧
    routed (wake_up_next s) = routed s ∧ fragments (wake_up_next s) = fragments s.
Proof.
  intros Hq. unfold wake_up_next. destruct (slots s) as [|n]; [by exists o|]. destruct (waiters s) as [|j rest]; [by exists o|].
  assert (quiet o (s <| waiters := rest |>)) as Hr by (by apply (same_quiet_ok _ s)).
  destruct (phase_at j s) as [|t|t| |] eqn:Ej; try (by exists o).
  destruct (decide (fst <$> o = Some j)) as [E|Hne].
  - destruct o as [[k p]|]; simpl in E; simplify_eq. destruct (q_live _ _ Hq) as (_ & Hk & _).
    unfold phase_at in Ej. rewrite Hk in Ej. simpl in Ej. subst p. exists (Some (j, SlotGranted t)).
    split_and!; try done; [|by intros He; destruct (He j t)].
    apply (quiet_move j (SlotWait t)); [by apply (same_quiet_ok _ s)|done|done].
  - unfold phase_at in Ej. destruct (completions s !! j) as [c|] eqn:Ec; [|done].
    destruct (q_idle _ _ Hq j c Ec Hne) as [?|[? _]]; congruence.
Qed.

Lemma wake_waiters_quiet o s :
  quiet o s → (∀ k t, o ≠ Some (k, SlotWait t)) →
  quiet o (wake_waiters s) ∧ routed (wake_waiters s) = routed s ∧ fragments (wake_waiters s) = fragments s.
Proof.
  intros Hq Ho. unfold wake_waiters. induction (length (waiters s)) as [|n (H1 & H2 & H3)]; [done|]. simpl.
  destruct (wake_quiet o _ H1) as (o' & Hq' & _ & E & Er & Ef). rewrite (E Ho) in Hq'. by rewrite Er, Ef.
Qed.

(** What one step adds to the speech, and the steps that drop none *)
Definition spoken_by (o : turn_step) : list (list N) :=
  match o with TFrame (Transcription t) => match strip t with [] => [] | t' => [t'] end | _ => [] end.

Definition spoken (os : list turn_step) : list (list N) := flat_map spoken_by os.

Definition lossless (o : turn_step) : bool :=
  match o with TFrame CancelOrEnd | TCleanup => false | _ => true end.

(** The speech a state still accounts for, in order *)
Definition account s : list (list N) := routed s ++ held_text s ++ fragments s.

Lemma quiet_account o s : quiet o s → account s = routed s ++ held_by o ++ fragments s.
Proof. intros Hq. unfold account. by rewrite (quiet_held o s Hq). Qed.

Lemma dispatch_quiet k p t s :
  quiet (Some (k, p)) s → p ≠ Grace →
  quiet (Some (k, Pushing)) (dispatch_text k t s) ∧
  routed (dispatch_text k t s) = routed s ++ [t] ∧ fragments (dispatch_text k t s) = fragments s.
Proof.
  intros Hq Hp. unfold dispatch_text. rewrite (q_open _ _ Hq). split_and!; try done.
  apply (quiet_move k p); [by apply (same_quiet_ok _ s)|done|]. split; [done|discriminate].
Qed.

(** One step keeps the account, up to regrouping, and adds what was said. *)
Definition accounts (said : list (list N)) s s' : Prop :=
  ∃ o', quiet o' s' ∧ join (account s') = join (account s ++ said).

Lemma accounts_same o s s' :
  quiet o s' → account s' = account s → accounts [] s s'.
Proof. intros Hq E. exists o. split; [done|]. by rewrite E, app_nil_r. Qed.

Lemma quiet_accounts o o' s s' :
  quiet o s → quiet o' s' → routed s' = routed s → held_by o' = held_by o → fragments s' = fragments s → accounts [] s s'.
Proof.
  intros Hq Hq' E1 E2 E3. apply (accounts_same o'); [done|].
  by rewrite (quiet_account o s Hq), (quiet_account o' s' Hq'), E1, E2, E3.
Qed.

Lemma grace_quiet k s :
  turn_ok 0 s → quiet (Some (k, Grace)) s → accounts [] s (grace_over k s).
Proof.
  intros Hok Hq. pose proof (quiet_account _ _ Hq) as Ha. simpl in Ha. unfold grace_over. cbv zeta.
  destruct (join (fragments s)) as [|c f] eqn:Ej.
  - assert (fragments s = []) as Ef.
    { destruct (decide (fragments s = [])) as [|Hne]; [done|]. by destruct (join_nonempty _ Hne (to_fragments _ _ Hok)). }
    pose proof Hq as [Ho Hi (Ht & Hk & Hp & Hc) Har]. rewrite bool_decide_eq_false_2 in Hc by (intros E; by apply E).
    eapply (quiet_accounts (Some (k, Grace)) None); [done|split| | |]; try done.
    + simpl. intros j d Hj _. destruct (decide (j = k)) as [->|Hne].
      * rewrite list_lookup_alter_eq, Hk in Hj. simpl in Hj. simplify_eq. by left.
      * rewrite list_lookup_alter_ne in Hj by done. apply (Hi j d Hj). simpl. congruence.
    + by right.
  - rewrite <- Ej. set (t := join (fragments s)). set (s1 := (clear_fragments s) <| completion_committed := true |>).
    assert (fragments s ≠ []) as Hne by (intros E; by rewrite E in Ej).
    assert (∀ p, p ≠ Grace → p ≠ Completed → quiet (Some (k, p)) (set_completion k p s1)) as Hs1.
    { intros p Hg Hd. destruct Hq as [Ho Hi (Ht & Hk & Hp & Hc) Har]. split; [done|..]; simpl.
      - intros j d Hj Hj'. rewrite list_lookup_alter_ne in Hj by congruence. by apply (Hi j d).
      - split_and!; try done; [by rewrite list_lookup_alter_eq, Hk|]. symmetry. by apply bool_decide_eq_true_2.
      - intros j Hj. left. by destruct (Har j Hj). }
    assert (∀ s', account s' = routed s ++ [t] → join (account s') = join (account s ++ [])) as Hj.
    { intros s' ->. rewrite Ha, app_nil_r. unfold t.
      pose proof (join_flatten (routed s) (fragments s) [] Hne) as E. by rewrite app_nil_r in E. }
    destruct (locked s1).
    + exists (Some (k, SlotWait t)). assert (quiet (Some (k, SlotWait t)) (set_completion k (SlotWait t) s1)) as Hw by by apply Hs1.
      assert (quiet (Some (k, SlotWait t)) ((set_completion k (SlotWait t) s1) <| waiters ::= (λ l, l ++ [k]) |>)) as Hw'
        by (by apply (same_quiet_ok _ (set_completion k (SlotWait t) s1))).
      split; [exact Hw'|]. apply Hj. rewrite (quiet_account _ _ Hw'). simpl. done.
    + unfold dispatch_text. change (closing (s1 <| slots ::= pred |>)) with (closing s). rewrite (q_open _ _ Hq).
      exists (Some (k, Pushing)).
      set (s2 := set_completion k Pushing _). assert (quiet (Some (k, Pushing)) s2) as Hp.
      { apply (same_quiet_ok _ (set_completion k Pushing s1)); [done|]. by apply Hs1. }
      split; [exact Hp|]. apply Hj. rewrite (quiet_account _ _ Hp). simpl. by rewrite app_nil_r.
Qed.

Lemma resume_quiet j o s : turn_ok 0 s → quiet o s → accounts [] s (resume_completion j s).
Proof.
  intros Hok Hq. unfold resume_completion. destruct (completions s !! j) as [c|] eqn:Ec; [|by apply (accounts_same o)].
  destruct (decide (fst <$> o = Some j)) as [E|Hne].
  - destruct o as [[k p]|]; simpl in E; simplify_eq. pose proof Hq as [_ _ (Ht & Hk & Hp & Hc) _].
    rewrite Hk in Ec. simplify_eq. cbn [cp_phase cp_must_cancel].
    destruct p as [|t|t| |]; [by apply grace_quiet|by apply (accounts_same (Some (j, SlotWait t)))| | |done].
    + assert (quiet (Some (j, Pushing)) (set_completion j Pushing s)) as H1 by (by apply (quiet_move j (SlotGranted t))).
      destruct (wake_waiters_quiet _ _ H1) as (H2 & Er & Ef); [by intros|].
      destruct (dispatch_quiet j Pushing t _ H2) as (H3 & Er' & Ef'); [done|].
      apply (accounts_same (Some (j, Pushing))); [done|].
      rewrite (quiet_account _ _ H3), (quiet_account _ _ Hq), Er', Ef', Er, Ef. simpl. by rewrite <- app_assoc.
    + apply (quiet_accounts (Some (j, Pushing)) None); try done; [by apply (quiet_finish j Pushing)|..].
      all: unfold finish_completion; cbv zeta; by destruct (decide _).
  - destruct (q_idle _ _ Hq j c Ec Hne) as [Hd|[Hd Hm]]; rewrite Hd, ?Hm; [by apply (accounts_same o)|].
    apply (quiet_accounts o o); try done. destruct Hq as [Ho Hi Hl Ha]. split; try done; simpl.
    + intros i d Hi' Hn'. destruct (decide (i = j)) as [->|Hij].
      * rewrite list_lookup_alter_eq, Ec in Hi'. simpl in Hi'. simplify_eq. by left.
      * rewrite list_lookup_alter_ne in Hi' by done. by apply (Hi i d).
    + destruct o as [[k p]|]; [|done]. rewrite list_lookup_alter_ne; [done|]. intros ->. by apply Hne.
Qed.

Lemma join_suffix_length a b : (length (join b) ≤ length (join (a ++ b)))%nat.
Proof.
  induction a as [|x a IH]; [done|]. destruct (decide (a ++ b = [])) as [E|Hne].
  - apply app_eq_nil in E as [-> ->]. simpl. lia.
  - rewrite <- app_comm_cons, join_cons by done. rewrite length_app. simpl. lia.
Qed.

(** A fragment that fits is kept whole. *)
Lemma append_fragment_fits t e s :
  turn_ok e s → t ≠ [] → (length (join (fragments s ++ [t])) ≤ max_transcript_chars)%nat →
  same_quiet s (append_fragment t s) ∧ fragments (append_fragment t s) = fragments s ++ [t] ∧
  routed (append_fragment t s) = routed s.
Proof.
  intros Hok Ht Hl. rewrite join_snoc_length, <- (to_chars _ _ Hok) in Hl. unfold append_fragment. cbv zeta.
  assert (0 < length t)%nat by (destruct t; [done|simpl; lia]). rewrite decide_False by lia.
  rewrite take_ge by lia. by destruct t.
Qed.

Lemma cancel_quiet k s :
  quiet (Some (k, Grace)) s → quiet None (cancel_completion s) ∧
  routed (cancel_completion s) = routed s ∧ fragments (cancel_completion s) = fragments s ∧ arming (cancel_completion s) = arming s.
Proof.
  intros [Ho Hi (Ht & Hk & _ & _) Ha]. unfold cancel_completion, cancel_completion_task. rewrite Ht, Hk.
  rewrite decide_False by done. split; [|done]. split; try done; simpl; [|by right].
  intros j c Hj _. destruct (decide (j = k)) as [->|Hne].
  - rewrite list_lookup_alter_eq, Hk in Hj. simpl in Hj. simplify_eq. by right.
  - rewrite list_lookup_alter_ne in Hj by done. apply (Hi j c Hj). simpl. congruence.
Qed.

Lemma create_quiet s :
  quiet None s → arming s = None → quiet (Some (length (completions s), Grace)) (create_completion s).
Proof.
  intros [Ho Hi [Ht Hc] _] Ha. split; [done| |split_and!|]; simpl; try done.
  - intros j c [Hj|[Hj _]]%lookup_snoc_Some Hne; [|congruence]. by apply (Hi j c); [apply Hj|].
  - apply lookup_snoc_Some. by right.
  - intros k Hk. congruence.
Qed.

Lemma arm_quiet o s : quiet o s → arming s = None → accounts [] s (arm_completion s).
Proof.
  intros Hq Ha. pose proof Hq as [Ho _ Hl _]. unfold arm_completion, live_completion. destruct o as [[k p]|].
  - destruct Hl as (Ht & Hk & Hp & Hc). rewrite Ht. unfold phase_at. rewrite Hk. cbn [cp_phase]. rewrite decide_False by done.
    destruct (completion_committed s).
    + apply (quiet_accounts (Some (k, p)) (Some (k, p))); try done. destruct Hq. split; try done. simpl. intros j [= <-]. by left.
    + symmetry in Hc. apply bool_decide_eq_false in Hc. assert (p = Grace) as -> by (destruct (decide (p = Grace)); tauto).
      destruct (cancel_quiet k s Hq) as (H1 & Er & Ef & Ea). cbv zeta. rewrite (q_open _ _ H1).
      eapply quiet_accounts; [exact Hq|apply create_quiet; [exact H1|congruence]|exact Er|done|exact Ef].
  - destruct Hl as [-> _]. rewrite Ho. eapply quiet_accounts; [exact Hq|by apply create_quiet|done|done|done].
Qed.

Lemma resume_arm_quiet o s : quiet o s → accounts [] s (resume_arm s).
Proof.
  intros Hq. unfold resume_arm. destruct (arming s) as [k|] eqn:Ea; [|by apply (accounts_same o)].
  case_decide as Hd; [|by apply (accounts_same o)]. cbv zeta.
  assert (o = None) as ->.
  { destruct (q_arming _ _ Hq k Ea) as [E|E]; [|done]. destruct o as [[j p]|]; [|done]. simpl in E. simplify_eq.
    destruct (q_live _ _ Hq) as (_ & Hk & Hp & _). unfold phase_at in Hd. by rewrite Hk in Hd. }
  assert (quiet None (s <| arming := None |>)) as H1 by (destruct Hq; by split).
  destruct (_ || _); [by apply (quiet_accounts None None)|].
  eapply quiet_accounts; [exact Hq|by apply create_quiet|done|done|done].
Qed.

Lemma frame_quiet f o s :
  lossless (TFrame f) = true → turn_ok 0 s → quiet o s →
  (length (join (account s ++ spoken_by (TFrame f))) ≤ max_transcript_chars)%nat →
  accounts (spoken_by (TFrame f)) s (process_turn_frame f s).
Proof.
  intros Hlo Hok Hq Hlen. destruct f as [t| | | |]; simpl in *; [| | |done|by apply (accounts_same o)].
  - destruct (strip t) as [|c t'] eqn:Et; [by apply (accounts_same o)|]. rewrite (quiet_account o s Hq) in Hlen.
    destruct (append_fragment_fits (c :: t') 0 s Hok) as (Hs & Ef & Er); [done| |].
    { etrans; [|exact Hlen]. rewrite <- !app_assoc. rewrite (app_assoc (routed s)). apply join_suffix_length. }
    exists o. assert (quiet o (append_fragment (c :: t') s)) as H1 by (by apply (same_quiet_ok _ s)).
    split; [done|]. rewrite (quiet_account _ _ H1), (quiet_account _ _ Hq), Ef, Er. by rewrite !app_assoc.
  - destruct (_ && _) eqn:Eb; [|by apply (accounts_same o)]. apply andb_true_iff in Eb as [Hb Hc%negb_true_iff].
    apply bool_decide_eq_true in Hb. pose proof (q_live _ _ Hq) as Hl. destruct o as [[k p]|]; [|by destruct Hl as [? _]].
    destruct Hl as (_ & _ & _ & Hl). rewrite Hc in Hl. symmetry in Hl. apply bool_decide_eq_false in Hl.
    assert (p = Grace) as -> by (destruct (decide (p = Grace)); tauto).
    destruct (cancel_quiet k s Hq) as (H1 & Er & Ef & _). by apply (quiet_accounts (Some (k, Grace)) None).
  - destruct (arming s) eqn:Ea; [by apply (accounts_same o)|]. by apply (arm_quiet o).
Qed.

Lemma step_quiet o p s :
  lossless o = true → turn_ok 0 s → quiet p s → (length (join (account s ++ spoken_by o)) ≤ max_transcript_chars)%nat →
  accounts (spoken_by o) s (texec o s).
Proof.
  intros Hlo Hok Hq Hlen. destruct o as [f|k| | | |]; simpl in *; [by apply (frame_quiet f p)|by apply (resume_quiet k p)|
    by apply (resume_arm_quiet p)| |done|].
  - unfold end_dispatch. destruct (running_dispatches s) as [|n]; [by apply (accounts_same p)|]. unfold release_slot.
    assert (quiet p (s <| running_dispatches := n |> <| slots ::= S |>)) as H1 by (by apply (same_quiet_ok _ s)).
    destruct (wake_quiet _ _ H1) as (o' & H2 & Eh & _ & Er & Ef). by apply (quiet_accounts p o').
  - unfold cleanup_finish. rewrite (q_open _ _ Hq). by apply (accounts_same p).
Qed.

Lemma join_prefix_length a b : (length (join a) ≤ length (join (a ++ b)))%nat.
Proof.
  induction a as [|x a IH]; [simpl; lia|]. destruct a as [|y a].
  - destruct b; simpl; [lia|]. rewrite length_app. lia.
  - change ((x :: y :: a) ++ b) with (x :: ((y :: a) ++ b)). rewrite (join_cons x (y :: a)), (join_cons x ((y :: a) ++ b)) by done.
    rewrite !length_app. simpl in *. lia.
Qed.

(** Equal joins stay equal when the same texts follow. *)
Lemma join_app_congr a a' b :
  Forall (λ t, t ≠ []) a → Forall (λ t, t ≠ []) a' → join a = join a' → join (a ++ b) = join (a' ++ b).
Proof.
  assert (∀ l : list (list N), l ≠ [] → join (l ++ b) = join (join l :: b)) as Hl
    by (intros l Hl; by rewrite join_flatten_head).
  intros Ha Ha' E. destruct (decide (a = [])) as [->|Hn], (decide (a' = [])) as [->|Hn']; [done|..].
  - by destruct (join_nonempty a' Hn' Ha').
  - by destruct (join_nonempty a Hn Ha).
  - rewrite (Hl a Hn), (Hl a' Hn'), E. done.
Qed.

Lemma spoken_nonempty os : Forall (λ t, t ≠ []) (spoken os).
Proof.
  induction os as [|o os IH]; [constructor|]. simpl. apply Forall_app_2; [|done].
  destruct o as [[t| | | |]| | | | |]; simpl; try constructor. destruct (strip t); by repeat constructor.
Qed.

Lemma account_nonempty s : turn_ok 0 s → Forall (λ t, t ≠ []) (account s).
Proof.
  intros [Hc Hm Hf Hh Ho Hs Hw]. unfold account. apply Forall_app_2; [|apply Forall_app_2; [|done]].
  - eapply Forall_impl; [exact Ho|]. by intros t [? _].
  - unfold held_text. destruct (completion_task s) as [k|]; [|constructor].
    destruct (phase_at k s) as [|t|t| |] eqn:Ek; constructor; try done; apply (Hh k t); tauto.
Qed.

Lemma quiet_run os :
  Forall (λ o, lossless o = true) os → (length (join (spoken os)) ≤ max_transcript_chars)%nat →
  ∃ o, quiet o (trun os Turns_init) ∧ join (account (trun os Turns_init)) = join (spoken os).
Proof.
  induction os as [|o os IH] using rev_ind; intros Hlo Hlen.
  - exists None. split; [|done]. split; try done.
  - apply Forall_app in Hlo as [Hlo Hl]. rewrite Forall_singleton in Hl. unfold spoken in *. rewrite flat_map_app in *. simpl in *.
    rewrite app_nil_r in *. destruct IH as (p & Hq & E); [done|etrans; [apply join_prefix_length|exact Hlen]|].
    unfold trun in *. rewrite foldl_app. simpl. fold (trun os Turns_init) in *.
    pose proof (trun_ok os _ Turns_init_ok) as Hok.
    pose proof (join_app_congr _ _ (spoken_by o) (account_nonempty _ Hok) (spoken_nonempty os) E) as E'. unfold spoken in E'.
    destruct (step_quiet o p _ Hl Hok Hq) as (o' & Hq' & Ej); [by rewrite E'|]. exists o'. split; [done|]. by rewrite Ej.
Qed.

(** C28.  As long as no frame cancels the turn and the processor is not torn down,
    and what is said fits the character limit, the texts handed to the application,
    followed by the text that waits for a dispatch slot and by the fragments not yet
    dispatched, spell exactly what was transcribed, in order, whatever stops,
    resumed speech, cancelled grace periods and full slots did in between: nothing is
    lost, repeated or reordered. *)
Theorem no_speech_lost (os : list turn_step) :
  Forall (λ o, lossless o = true) os →
  (length (join (spoken os)) ≤ max_transcript_chars)%nat →
  let s := trun os Turns_init in
  join (routed s ++ held_text s ++ fragments s) = join (spoken os).
Proof. intros Hlo Hlen. by destruct (quiet_run os Hlo Hlen) as (o & _ & E). Qed.
End facts.

#[local] Instance one_slot : TurnLimits.
Proof. by refine {| max_pending_dispatches := 1; max_transcript_chars := 40 |}; lia. Defined.

(** Two turns with one dispatch slot, a resumed speech and a second turn that
    waits: said "a b", then " c ". *)
Definition two_turns : list turn_step :=
  [TFrame (Transcription [97]%N); TFrame StoppedSpeaking; TFrame StartedSpeaking; TResume 0;
   TFrame (Transcription [98]%N); TFrame StoppedSpeaking; TResume 1; TResume 1;
   TFrame (Transcription [32; 99; 32]%N); TFrame StoppedSpeaking; TResume 2].

Lemma no_speech_lost_witness :
  let s := trun two_turns Turns_init in
  routed s = [[97; 32; 98]%N] ∧ held_text s = [[99]%N] ∧
  join (routed s ++ held_text s ++ fragments s) = [97; 32; 98; 32; 99]%N.
Proof.
  cbv zeta. split; [reflexivity|]. split; [reflexivity|].
  rewrite (no_speech_lost two_turns); [reflexivity|repeat constructor|]. vm_compute. lia.
Defined.
