(* ===== verification/TurnIds.v ===== *)
(** Turn ids of a compound turn's items ([multi_intent_item_turn_id] and
    [split_multi_intent_turn_id] of [src/server/pipeline.py]).

    Text and numerals are those of [PyText.v]. *)

From S2P Require Import Prelude PyDict PyText.

Section turn_ids.
Context `{UnicodeDigits}.
Implicit Types (t : list N) (n : N).

(** ** The two functions *)

Definition multi_intent_item_turn_id t n : list N := t ++ 45%N :: decimal n.

(** [rpartition("-")]: around the last hyphen, if there is one *)
Fixpoint rpartition t : option (list N * list N) :=
  match t with
  | [] => None
  | c :: t' =>
      match rpartition t' with
      | Some (base, suffix) => Some (c :: base, suffix)
      | None => if (c =? 45)%N then Some ([], t') else None
      end
  end.

Definition split_multi_intent_turn_id t : result (option (list N * N)) :=
  match rpartition t with
  | None => Ret None
  | Some (base, suffix) =>
      if bool_decide (base = []) || negb (isdigit suffix) then Ret None
      else n ←? py_int suffix ;; Ret (Some (base, n))
  end.

(** ** Facts *)

Lemma rpartition_last base suffix :
  Forall (λ c, c ≠ 45%N) suffix → rpartition (base ++ 45%N :: suffix) = Some (base, suffix).
Proof.
  intros Hs. assert (rpartition suffix = None) as En.
  { induction Hs as [|c l Hc _ IH]; [done|]. simpl. rewrite IH. by destruct (N.eqb_spec c 45). }
  induction base as [|c base IH]; simpl; [by rewrite En|]. by rewrite IH.
Qed.

(** The item ids of a compound turn parse back to what they were made from:
    splitting the id minted for item [n] of a turn with a non-empty id gives that
    turn and [n], whatever the turn id contains, hyphens and digits included. *)
Theorem item_turn_id_roundtrip t n :
  t ≠ [] → (length (decimal n) ≤ MAX_STR_DIGITS)%nat →
  split_multi_intent_turn_id (multi_intent_item_turn_id t n) = Ret (Some (t, n)).
Proof.
  intros Ht Hl. pose proof (decimal_digits_ok (S (N.to_nat (N.log2 n))) n [] ltac:(constructor)) as Hd.
  unfold split_multi_intent_turn_id, multi_intent_item_turn_id. rewrite rpartition_last.
  2: { eapply Forall_impl; [exact Hd|]. intros c Hc ->. done. }
  rewrite bool_decide_false, decimal_isdigit by done. cbn [orb negb]. unfold py_int. rewrite decide_False by lia.
  destruct (decimal_digits_value (S (N.to_nat (N.log2 n))) n ltac:(lia)) as [Hv _]. fold (decimal n) in Hv. by rewrite Hv.
Qed.

(** A suffix that is a digit without a decimal value (a superscript two, say)
    passes the shape test and then raises. *)
Lemma split_raises t c :
  t ≠ [] → (128 ≤ c)%N → other_digit c = true → other_decimal c = None →
  returns (split_multi_intent_turn_id (t ++ [45; c]%N)) = false.
Proof.
  intros Ht Hc Hd Hn. unfold split_multi_intent_turn_id. change [45; c]%N with (45%N :: [c]).
  rewrite rpartition_last by (constructor; [lia|constructor]). rewrite bool_decide_false by done.
  assert ((c <? 128)%N = false) as E by (apply N.ltb_ge; lia).
  unfold isdigit, py_int. simpl. unfold digit_value. rewrite E, Hd, Hn. done.
Qed.
End turn_ids.

(** Superscript two is a digit and not a decimal. *)
#[local] Instance superscripts : UnicodeDigits := {| other_digit := λ c, (c =? 178)%N; other_decimal := λ _, None |}.

Lemma item_turn_id_roundtrip_witness :
  split_multi_intent_turn_id (multi_intent_item_turn_id [116; 45; 49]%N 12) = Ret (Some ([116; 45; 49]%N, 12%N)).
Proof. apply (item_turn_id_roundtrip [116; 45; 49]%N 12); [done|]. vm_compute. lia. Defined.
