(* ===== verification/PyValue.v ===== *)
(** Python values as the configuration meets them: the strings of an
    environment and the typed values of a TOML document, with the built-in
    conversions [bool], [str], [int], [float] and [==].

    A finite float is the rational it denotes.  What the definitions leave to
    the runtime is a class: how a float, a date or a container prints, which
    texts [float] reads, when two dates or two containers compare equal, and
    the case and identifier properties of code points beyond ASCII. *)

From Stdlib Require Ascii String.
From S2P Require Import Prelude PyDict PyText.

Inductive pyfloat :=
| Finite (q : Q)
| PosInf
| NegInf
| NaN.

#[warnings="-register-all"]
Inductive pyval :=
| PStr (t : text)
| PInt (z : Z)
| PBool (b : bool)
| PFloat (f : pyfloat)
| PDate (d : N)                      (* an offset or local date, time or date-time *)
| PArray (l : list pyval)
| PTable (d : dict text pyval).

Inductive letter_case := Upper | LowerOrTitle | Uncased.

Class PyRuntime := {
  unicode_digits :: UnicodeDigits;
  float_repr : pyfloat → text;
  parse_float : text → option pyfloat;         (* [float(text)] *)
  date_str : N → text;
  date_eq : N → N → bool;
  container_repr : pyval → text;
  container_eq : pyval → pyval → bool;
  other_id_start : N → bool;                   (* XID_Start beyond ASCII *)
  other_id_continue : N → bool;
  other_case : N → letter_case
}.

(** A literal of the source. *)
Definition txt (s : string) : text := Ascii.N_of_ascii <$> String.list_ascii_of_string s.

(** ** Text *)

Definition ascii_lower (c : N) : N := if ((65 <=? c) && (c <=? 90))%N then (c + 32)%N else c.
Definition ascii_upper (c : N) : N := if ((97 <=? c) && (c <=? 122))%N then (c - 32)%N else c.
Definition ascii_alpha (c : N) : bool := ((65 <=? c) && (c <=? 90) || (97 <=? c) && (c <=? 122))%N.

(** [t.lower() == literal] for a literal in lower-case ASCII without a [k]: no
    code point beyond ASCII lowers to another ASCII letter *)
Definition lower_is (t : text) (literal : string) : bool := bool_decide (ascii_lower <$> t = txt literal).

(** [t.upper()] for an ASCII text *)
Definition upper (t : text) : text := ascii_upper <$> t.

(** [t.strip(chars)] *)
Fixpoint lstrip_chars (chars : list N) (t : text) : text :=
  match t with
  | c :: t' => if bool_decide (c ∈ chars) then lstrip_chars chars t' else t
  | [] => []
  end.

Definition strip_chars (chars : list N) (t : text) : text :=
  reverse (lstrip_chars chars (reverse (lstrip_chars chars t))).

Fixpoint prefix_of_text (p t : text) : option text :=
  match p, t with
  | [], _ => Some t
  | _, [] => None
  | a :: p', b :: t' => if (a =? b)%N then prefix_of_text p' t' else None
  end.

(** [t.split(sep, 1)] for a separator that occurs *)
Fixpoint split_once (sep t : text) : option (text * text) :=
  match prefix_of_text sep t with
  | Some rest => Some ([], rest)
  | None =>
      match t with
      | [] => None
      | c :: t' => match split_once sep t' with Some (a, b) => Some (c :: a, b) | None => None end
      end
  end.

(** The line boundaries of [str.splitlines] *)
Definition line_break (c : N) : bool :=
  ((10 <=? c) && (c <=? 13) || (28 <=? c) && (c <=? 30) || (c =? 133) || (c =? 8232) || (c =? 8233))%N.

(** [t.splitlines()], with the line read so far; [\r\n] is one break *)
Fixpoint splitlines_go (line : text) (t : text) : list text :=
  match t with
  | [] => match line with [] => [] | _ => [reverse line] end
  | c :: t' =>
      if line_break c then
        reverse line ::
        match t' with
        | d :: t'' => if ((c =? 13) && (d =? 10))%N then splitlines_go [] t'' else splitlines_go [] t'
        | [] => []
        end
      else splitlines_go (c :: line) t'
  end.

Definition splitlines (t : text) : list text := splitlines_go [] t.

(** [f"{z}"] *)
Definition decimal_Z (z : Z) : text :=
  if (z <? 0)%Z then 45%N :: decimal (Z.abs_N z) else decimal (Z.abs_N z).

Section runtime.
Context `{PyRuntime}.
Implicit Types (t : text) (v : pyval).

Definition id_start (c : N) : bool :=
  if (c <? 128)%N then ascii_alpha c || (c =? 95)%N else other_id_start c.
Definition id_continue (c : N) : bool :=
  if (c <? 128)%N then ascii_alpha c || ascii_digit c || (c =? 95)%N else other_id_continue c.

(** [str.isidentifier] *)
Definition isidentifier t : bool :=
  match t with [] => false | c :: t' => id_start c && forallb id_continue t' end.

Definition case_of (c : N) : letter_case :=
  if (c <? 128)%N then
    if ((65 <=? c) && (c <=? 90))%N then Upper
    else if ((97 <=? c) && (c <=? 122))%N then LowerOrTitle else Uncased
  else other_case c.

(** [str.isupper]: some cased character, and none in lower or title case *)
Definition isupper t : bool :=
  existsb (λ c, match case_of c with Upper => true | _ => false end) t
  && forallb (λ c, match case_of c with LowerOrTitle => false | _ => true end) t.

(** ** [bool(v)] and [str(v)] *)

Definition float_is_zero (f : pyfloat) : bool := match f with Finite q => Qeq_bool q 0 | _ => false end.

Definition truthy v : bool :=
  match v with
  | PStr t => negb (bool_decide (t = []))
  | PInt z => negb (z =? 0)%Z
  | PBool b => b
  | PFloat f => negb (float_is_zero f)
  | PDate _ => true
  | PArray l => match l with [] => false | _ => true end
  | PTable d => match d with [] => false | _ => true end
  end.

Definition py_str v : text :=
  match v with
  | PStr t => t
  | PInt z => decimal_Z z
  | PBool b => txt (if b then "True" else "False")
  | PFloat f => float_repr f
  | PDate d => date_str d
  | PArray _ | PTable _ => container_repr v
  end.

(** ** [==]: numbers compare across their types *)

Definition as_number v : option pyfloat :=
  match v with
  | PInt z => Some (Finite (inject_Z z))
  | PBool b => Some (Finite (if b then 1 else 0)%Q)
  | PFloat f => Some f
  | _ => None
  end.

Definition float_eq (a b : pyfloat) : bool :=
  match a, b with
  | Finite p, Finite q => Qeq_bool p q
  | PosInf, PosInf | NegInf, NegInf => true
  | _, _ => false
  end.

Definition py_eq (v w : pyval) : bool :=
  match v, w with
  | PStr a, PStr b => bool_decide (a = b)
  | PDate a, PDate b => date_eq a b
  | PArray _, PArray _ | PTable _, PTable _ => container_eq v w
  | _, _ => match as_number v, as_number w with Some a, Some b => float_eq a b | _, _ => false end
  end.

(** ** [int(v)] *)

(** The digits of a numeral, a single underscore allowed between two of them *)
Fixpoint numeral_digits t : option text :=
  match t with
  | [] => None
  | c :: t' =>
      if (c =? 95)%N then None
      else match t' with
           | [] => Some [c]
           | d :: t'' =>
               match numeral_digits (if (d =? 95)%N then t'' else t') with
               | Some ds => Some (c :: ds)
               | None => None
               end
           end
  end.

Definition bad_literal : exn := ValueError "invalid literal for int() with base 10".

Definition split_sign t : bool * text :=
  match t with
  | c :: t' => if (c =? 45)%N then (true, t') else if (c =? 43)%N then (false, t') else (false, t)
  | [] => (false, [])
  end.

Definition int_of_text t : result Z :=
  let (negative, t) := split_sign (strip t) in
  match numeral_digits t with
  | None => Raise bad_literal
  | Some ds => n ←? py_int ds ;; Ret (if negative then - Z.of_N n else Z.of_N n)%Z
  end.

Definition overflow_error : exn := OtherException "OverflowError".

Definition int_of v : result Z :=
  match v with
  | PStr t => int_of_text t
  | PInt z => Ret z
  | PBool b => Ret (if b then 1 else 0)%Z
  | PFloat (Finite q) => Ret (Z.quot (Qnum q) (Zpos (Qden q)))
  | PFloat NaN => Raise (ValueError "cannot convert float NaN to integer")
  | PFloat _ => Raise overflow_error
  | _ => Raise (TypeError "int() argument must be a string or a real number")
  end.

(** ** [float(v)] *)

(** The binary64 nearest to a natural number, ties to even *)
Definition round_binary64 (n : N) : N :=
  if (N.size n <=? 53)%N then n
  else
    let s := (N.size n - 53)%N in
    let q := N.shiftr n s in
    let r := (n - N.shiftl q s)%N in
    let half := N.shiftl 1 (s - 1) in
    let q := if ((half <? r) || ((r =? half) && N.odd q))%N then (q + 1)%N else q in
    N.shiftl q s.

Definition float_of_int (z : Z) : result pyfloat :=
  let n := round_binary64 (Z.abs_N z) in
  if (N.shiftl 1 1024 <=? n)%N then Raise overflow_error
  else Ret (Finite (inject_Z (if (z <? 0)%Z then - Z.of_N n else Z.of_N n))).

Definition float_of v : result pyfloat :=
  match v with
  | PStr t =>
      match parse_float t with
      | Some f => Ret f
      | None => Raise (ValueError "could not convert string to float")
      end
  | PInt z => float_of_int z
  | PBool b => Ret (Finite (if b then 1 else 0)%Q)
  | PFloat f => Ret f
  | _ => Raise (TypeError "float() argument must be a string or a real number")
  end.

(** ** Comparing floats with a rational bound *)

Definition isfinite (f : pyfloat) : bool := match f with Finite _ => true | _ => false end.

(** [a <= b] and [a < b]; every comparison with a NaN is false *)
Definition float_le (a b : pyfloat) : bool :=
  match a, b with
  | NaN, _ | _, NaN => false
  | NegInf, _ | _, PosInf => true
  | PosInf, _ | _, NegInf => false
  | Finite p, Finite q => Qle_bool p q
  end.

Definition float_lt (a b : pyfloat) : bool :=
  match a, b with
  | NaN, _ | _, NaN => false
  | NegInf, NegInf | PosInf, PosInf => false
  | NegInf, _ | _, PosInf => true
  | PosInf, _ | _, NegInf => false
  | Finite p, Finite q => Qltb p q
  end.

End runtime.
