(* ===== verification/Regex.v ===== *)
(** Python's [re] on texts of code points, as far as the sources use it:
    literals, classes with a greedy count, sequence, alternation, [\b], [^] and [$]
    with and without MULTILINE, lookahead and capturing groups.

    [run] is the backtracking matcher: it tries the alternatives and the counts in
    [re]'s order and hands each end position to its continuation.  [matches] is the
    declarative meaning of a pattern, and the two agree.  A position is the text
    before it, reversed, and the text after it.  What the Unicode database says of code points
    beyond ASCII is a class. *)

From Stdlib Require Ascii String.
From S2P Require Import Prelude PyDict PyText PyValue.

Class UnicodeText := {
  text_digits :: UnicodeDigits;
  other_word : N → bool;          (* [isalnum] beyond ASCII *)
  other_fold : N → text           (* [casefold] beyond ASCII *)
}.

Inductive regex :=
| Empty
| Chars (p : N → bool) (lo : nat) (hi : option nat)
| Seq (r1 r2 : regex)
| Alt (r1 r2 : regex)
| Bound
| Start
| Finish
| LineStart
| LineFinish
| Look (r : regex)
| Group (n : nat) (r : regex).

Abbreviation groups := (list (nat * list N)) (only parsing).

Section regex.
Context `{UnicodeText}.
Implicit Types (r : regex) (b a : list N) (g : groups).

(** ** Classes *)

Definition is_word (c : N) : bool :=
  if (c <? 128)%N then ascii_alpha c || ascii_digit c || (c =? 95)%N else other_word c.

(** [\d] *)
Definition is_digit (c : N) : bool :=
  if (c <? 128)%N then ascii_digit c else match other_decimal c with Some _ => true | None => false end.

(** A lower-case ASCII letter of a pattern under IGNORECASE: besides the two cases,
    [i] accepts the dotted capital and the dotless small letter, [s] the long s and [k] the Kelvin
    sign *)
Definition same_letter (l c : N) : bool :=
  (c =? l)%N || (ascii_alpha l && (c =? ascii_upper l)%N)
  || (l =? 105)%N && ((c =? 304)%N || (c =? 305)%N)
  || (l =? 115)%N && (c =? 383)%N
  || (l =? 107)%N && (c =? 8490)%N.

Definition one (p : N → bool) : regex := Chars p 1 (Some 1%nat).
Definition opt r : regex := Alt r Empty.
Definition spaces0 : regex := Chars py_isspace 0 None.
Definition spaces1 : regex := Chars py_isspace 1 None.

Fixpoint seq_of (l : list regex) : regex := match l with [] => Empty | [r] => r | r :: l' => Seq r (seq_of l') end.
Fixpoint alt_of (l : list regex) : regex := match l with [] => Empty | [r] => r | r :: l' => Alt r (alt_of l') end.

(** A literal, under IGNORECASE and without *)
Definition folded (s : string) : regex := seq_of ((λ l, one (same_letter l)) <$> txt s).
Definition literal (t : list N) : regex := seq_of ((λ l, one (N.eqb l)) <$> t).
Definition exact (s : string) : regex := literal (txt s).

(** ** The matcher *)

Definition within (hi : option nat) (n : nat) : bool := match hi with Some m => bool_decide (n < m)%nat | None => true end.

Section greedy.
Context {A : Type} (p : N → bool) (lo : nat) (hi : option nat) (k : list N → list N → option A).

(** As many characters as possible, then fewer *)
Fixpoint greedy (n : nat) b a : option A :=
  match a with
  | c :: a' =>
      match (if p c && within hi n then greedy (S n) (c :: b) a' else None) with
      | Some x => Some x
      | None => if bool_decide (lo <= n)%nat then k b a else None
      end
  | [] => if bool_decide (lo <= n)%nat then k b a else None
  end.

End greedy.

Definition at_word (t : list N) : bool := match t with c :: _ => is_word c | [] => false end.
Definition at_finish a : bool := bool_decide (a = []) || bool_decide (a = [10%N]).

(** [^] and [$] under MULTILINE *)
Definition at_newline (t : list N) : bool := match t with c :: _ => (c =? 10)%N | [] => true end.

(** The text between two positions *)
Definition between b b' : list N := reverse (take (length b' - length b) b').

Fixpoint run {A} r b a g (k : list N → list N → groups → option A) : option A :=
  match r with
  | Empty => k b a g
  | Chars p lo hi => greedy p lo hi (λ b a, k b a g) 0 b a
  | Seq r1 r2 => run r1 b a g (λ b a g, run r2 b a g k)
  | Alt r1 r2 => match run r1 b a g k with Some x => Some x | None => run r2 b a g k end
  | Bound => if xorb (at_word b) (at_word a) then k b a g else None
  | Start => if bool_decide (b = []) then k b a g else None
  | Finish => if at_finish a then k b a g else None
  | LineStart => if at_newline b then k b a g else None
  | LineFinish => if at_newline a then k b a g else None
  | Look r => match run r b a g (λ _ _ _, Some tt) with Some _ => k b a g | None => None end
  | Group n r => run r b a g (λ b' a' g, k b' a' ((n, between b b') :: g))
  end.

(** [re.match] at a position *)
Definition match_at r b a : option (list N * list N * groups) := run r b a [] (λ b a g, Some (b, a, g)).

(** [re.fullmatch] *)
Definition fullmatch r (t : list N) : option groups := run r [] t [] (λ _ a g, if bool_decide (a = []) then Some g else None).

(** [re.search]: the position of the first match and its end *)
Fixpoint search_from r b a : option ((list N * list N) * (list N * list N)) :=
  match match_at r b a with
  | Some (b', a', _) => Some ((b, a), (b', a'))
  | None => match a with c :: a' => search_from r (c :: b) a' | [] => None end
  end.

Definition search r (t : list N) : option ((list N * list N) * (list N * list N)) := search_from r [] t.

(** [re.finditer], for a pattern whose matches are not empty: the ends of the matches *)
Fixpoint ends_from (fuel : nat) r b a : list (list N * list N) :=
  match fuel with
  | O => []
  | S fuel => match search_from r b a with
              | Some (_, (b', a')) => (b', a') :: ends_from fuel r b' a'
              | None => []
              end
  end.

Definition match_ends r (t : list N) : list (list N * list N) := ends_from (S (length t)) r [] t.

(** [re.split], for a pattern without groups whose matches are not empty; [b0] is
    the end of the previous match *)
Fixpoint split_from (fuel : nat) r b0 a0 : list (list N) :=
  match fuel with
  | O => [a0]
  | S fuel => match search_from r b0 a0 with
              | Some ((b, _), (b', a')) => between b0 b :: split_from fuel r b' a'
              | None => [a0]
              end
  end.

Definition re_split r (t : list N) : list (list N) := split_from (S (length t)) r [] t.

Definition group_of (n : nat) g : option (list N) := snd <$> head (filter (λ x, x.1 = n) g).

(** ** The meaning of a pattern *)

Inductive matches : regex → list N → list N → groups → list N → list N → groups → Prop :=
| MEmpty b a g : matches Empty b a g b a g
| MChars p lo hi b w a g :
    Forall (λ c, p c = true) w → (lo <= length w)%nat → (∀ m, hi = Some m → (length w <= m)%nat) →
    matches (Chars p lo hi) b (w ++ a) g (reverse w ++ b) a g
| MSeq r1 r2 b a g b1 a1 g1 b2 a2 g2 :
    matches r1 b a g b1 a1 g1 → matches r2 b1 a1 g1 b2 a2 g2 → matches (Seq r1 r2) b a g b2 a2 g2
| MAltL r1 r2 b a g b' a' g' : matches r1 b a g b' a' g' → matches (Alt r1 r2) b a g b' a' g'
| MAltR r1 r2 b a g b' a' g' : matches r2 b a g b' a' g' → matches (Alt r1 r2) b a g b' a' g'
| MBound b a g : at_word b ≠ at_word a → matches Bound b a g b a g
| MStart a g : matches Start [] a g [] a g
| MFinish b a g : a = [] ∨ a = [10%N] → matches Finish b a g b a g
| MLineStart b a g : at_newline b = true → matches LineStart b a g b a g
| MLineFinish b a g : at_newline a = true → matches LineFinish b a g b a g
| MLook r b a g b' a' g' : matches r b a g b' a' g' → matches (Look r) b a g b a g
| MGroup n r b a g b' a' g' : matches r b a g b' a' g' → matches (Group n r) b a g b' a' ((n, between b b') :: g').

(** ** The matcher finds exactly the matches *)

Section greedy_facts.
Context {A : Type} (p : N → bool) (lo : nat) (hi : option nat) (k : list N → list N → option A).

Lemma within_spec n : within hi n = true ↔ ∀ m, hi = Some m → (n < m)%nat.
Proof. unfold within. destruct hi as [m|]; [|naive_solver]. rewrite bool_decide_eq_true. naive_solver. Qed.

Lemma greedy_sound n b a x :
  greedy p lo hi k n b a = Some x →
  ∃ w a', a = w ++ a' ∧ Forall (λ c, p c = true) w ∧ (lo <= n + length w)%nat ∧
    (∀ m, hi = Some m → w = [] ∨ (n + length w <= m)%nat) ∧ k (reverse w ++ b) a' = Some x.
Proof.
  revert n b. induction a as [|c a IH]; intros n b; cbn [greedy].
  - case_bool_decide; [|done]. intros Hx. exists [], []. split_and!; [done|constructor|simpl; lia|naive_solver|done].
  - destruct (p c && within hi n) eqn:E.
    + apply andb_true_iff in E as [Hc Hw]. destruct (greedy _ _ _ _ (S n) (c :: b) a) as [y|] eqn:Er.
      * intros [= ->]. destruct (IH _ _ Er) as (w & a' & -> & Hf & Hl & Hm & Hk). exists (c :: w), a'.
        rewrite reverse_cons, <- app_assoc. split_and!; [done|by constructor|simpl; lia| |done].
        intros m Em. right. simpl. pose proof (proj1 (within_spec n) Hw m Em). destruct (Hm m Em) as [->|?]; simpl; lia.
      * case_bool_decide; [|done]. intros Hx. exists [], (c :: a). split_and!; [done|constructor|simpl; lia|naive_solver|done].
    + case_bool_decide; [|done]. intros Hx. exists [], (c :: a). split_and!; [done|constructor|simpl; lia|naive_solver|done].
Qed.

Lemma greedy_complete n b a :
  greedy p lo hi k n b a = None →
  ∀ w a', a = w ++ a' → Forall (λ c, p c = true) w → (lo <= n + length w)%nat →
    (∀ m, hi = Some m → (n + length w <= m)%nat) → k (reverse w ++ b) a' = None.
Proof.
  revert n b. induction a as [|c a IH]; intros n b; cbn [greedy].
  - intros Hg [|? w] a' E; [|done]. simpl in E. subst a'. intros _ Hl _. rewrite bool_decide_true in Hg by (simpl in Hl; lia). exact Hg.
  - intros Hg [|d w] a' E Hf Hl Hm.
    + simpl in E, Hl. subst a'. destruct (if p c && within hi n then _ else _); [done|].
      rewrite bool_decide_true in Hg by lia. exact Hg.
    + injection E as <- ->. apply Forall_cons in Hf as [Hc Hf].
      assert (within hi n = true) as Hw by (apply within_spec; intros m Em; specialize (Hm m Em); simpl in Hm; lia).
      rewrite Hc, Hw in Hg. cbn [andb] in Hg. destruct (greedy _ _ _ _ (S n) (c :: b) (w ++ a')) eqn:Er; [done|].
      rewrite reverse_cons, <- app_assoc. apply (IH _ _ Er w a'); [done|done|simpl in Hl; lia|].
      intros m Em. specialize (Hm m Em). simpl in Hm. lia.
Qed.

End greedy_facts.

Lemma run_sound {A} r b a g (k : list N → list N → groups → option A) x :
  run r b a g k = Some x → ∃ b' a' g', matches r b a g b' a' g' ∧ k b' a' g' = Some x.
Proof.
  revert A b a g k x. induction r as [|p lo hi|r1 IH1 r2 IH2|r1 IH1 r2 IH2| | | | | |r IH|n r IH]; intros A b a g k x; cbn [run].
  - intros Hk. eexists _, _, _. split; [constructor|done].
  - intros (w & a' & -> & Hf & Hl & Hm & Hk)%greedy_sound. eexists _, _, _. split; [|exact Hk].
    constructor; [done|done|]. intros m Em. destruct (Hm m Em) as [->|?]; simpl; lia.
  - intros (b1 & a1 & g1 & M1 & (b2 & a2 & g2 & M2 & Hk)%IH2)%IH1. eexists _, _, _. split; [by econstructor|done].
  - destruct (run r1 b a g k) as [y|] eqn:E.
    + intros [= ->]. apply IH1 in E as (b' & a' & g' & M & Hk). eexists _, _, _. split; [by apply MAltL|done].
    + intros (b' & a' & g' & M & Hk)%IH2. eexists _, _, _. split; [by apply MAltR|done].
  - destruct (xorb _ _) eqn:E; [|done]. intros Hk. eexists _, _, _. split; [|exact Hk]. constructor.
    intros Ew. by rewrite Ew, xorb_nilpotent in E.
  - case_bool_decide as E; [|done]. subst b. intros Hk. eexists _, _, _. split; [constructor|exact Hk].
  - destruct (at_finish a) eqn:E; [|done]. intros Hk. eexists _, _, _. split; [|exact Hk]. constructor.
    unfold at_finish in E. rewrite orb_true_iff, !bool_decide_eq_true in E. done.
  - destruct (at_newline b) eqn:E; [|done]. intros Hk. eexists _, _, _. by split; [constructor|].
  - destruct (at_newline a) eqn:E; [|done]. intros Hk. eexists _, _, _. by split; [constructor|].
  - destruct (run r b a g _) as [[]|] eqn:E; [|done]. intros Hk. apply IH in E as (b' & a' & g' & M & _).
    eexists _, _, _. split; [by econstructor|exact Hk].
  - intros (b' & a' & g' & M & Hk)%IH. eexists _, _, _. split; [by constructor|exact Hk].
Qed.

Lemma run_complete {A} r b a g (k : list N → list N → groups → option A) b' a' g' :
  matches r b a g b' a' g' → run r b a g k = None → k b' a' g' = None.
Proof.
  intros M. revert A k. induction M as [| p lo hi b w a g Hf Hl Hm | r1 r2 b a g b1 a1 g1 b2 a2 g2 M1 IH1 M2 IH2
    | r1 r2 b a g b' a' g' M IH | r1 r2 b a g b' a' g' M IH | b a g Hb | | b a g Ha | b a g Hn | b a g Hn | r b a g b' a' g' M IH | n r b a g b' a' g' M IH];
    intros A k; cbn [run]; try done.
  - intros Hg. apply (greedy_complete _ _ _ _ _ _ _ Hg w a); [done|done|done|]. intros m Em. simpl. by apply Hm.
  - intros Hr%IH1. by apply IH2.
  - destruct (run r1 b a g k) eqn:E; [done|]. intros _. by apply IH.
  - destruct (run r1 b a g k); [done|]. by apply IH.
  - destruct (xorb _ _) eqn:E; [done|]. by apply xorb_eq in E.
  - assert (at_finish a = true) as -> by (unfold at_finish; rewrite orb_true_iff, !bool_decide_eq_true; done). done.
  - by rewrite Hn.
  - by rewrite Hn.
  - destruct (run r b a g _) as [[]|] eqn:E; [done|]. by apply IH in E.
  - intros Hr. by apply (IH _ _ Hr).
Qed.

(** The backtracking matcher is exact: whatever continuation it is given, it
    returns a value only at the end of a match of the pattern that the continuation
    accepts, and it returns nothing only when the continuation refuses the end of every
    match. *)
Theorem matcher_exact {A} r b a g (k : list N → list N → groups → option A) :
  match run r b a g k with
  | Some x => ∃ b' a' g', matches r b a g b' a' g' ∧ k b' a' g' = Some x
  | None => ∀ b' a' g', matches r b a g b' a' g' → k b' a' g' = None
  end.
Proof.
  destruct (run r b a g k) eqn:E; [by apply run_sound|]. intros b' a' g' M. by eapply run_complete.
Qed.

(** A match moves over a part of the text. *)
Lemma matches_moves r b a g b' a' g' : matches r b a g b' a' g' → ∃ w, a = w ++ a' ∧ b' = reverse w ++ b.
Proof.
  induction 1 as [|p lo hi b w a g| r1 r2 b a g b1 a1 g1 b2 a2 g2 M1 IH1 M2 IH2 | | | | | | | | | ];
    try (by exists []); try done; [by exists w|]. destruct IH1 as (w1 & -> & ->), IH2 as (w2 & -> & ->).
  exists (w1 ++ w2). by rewrite reverse_app, <- !app_assoc.
Qed.

Lemma between_app b w : between b (reverse w ++ b) = w.
Proof.
  unfold between. rewrite length_app, length_reverse, Nat.add_sub, <- (length_reverse w), take_app_length.
  apply reverse_involutive.
Qed.

Lemma match_at_sound r b a b' a' g : match_at r b a = Some (b', a', g) → matches r b a [] b' a' g.
Proof. intros (b1 & a1 & g1 & M & [= -> -> ->])%run_sound. done. Qed.

Lemma match_at_none r b a b' a' g : match_at r b a = None → ¬ matches r b a [] b' a' g.
Proof. intros Hr M. by apply (run_complete _ _ _ _ _ _ _ _ M) in Hr. Qed.

Lemma fullmatch_sound r t g : fullmatch r t = Some g → ∃ b', matches r [] t [] b' [] g.
Proof. intros (b1 & a1 & g1 & M & E)%run_sound. case_bool_decide; [|done]. simplify_eq. by eexists. Qed.

(** The first match: no position before it has one. *)
Lemma search_from_spec r b a :
  match search_from r b a with
  | Some ((b1, a1), (b2, a2)) =>
      ∃ w g, a = w ++ a1 ∧ b1 = reverse w ++ b ∧ matches r b1 a1 [] b2 a2 g ∧
        ∀ w' v, w = w' ++ v → v ≠ [] → ∀ b' a' g', ¬ matches r (reverse w' ++ b) (v ++ a1) [] b' a' g'
  | None => ∀ w v, a = w ++ v → ∀ b' a' g', ¬ matches r (reverse w ++ b) v [] b' a' g'
  end.
Proof.
  revert b. induction a as [|c a IH]; intros b; cbn [search_from].
  - destruct (match_at r b []) as [[[b' a'] g]|] eqn:E.
    + exists [], g. split_and!; [done|done|by apply match_at_sound|]. intros w' v Ew Hv. by destruct w', v.
    + intros w v Ew b' a' g. destruct w, v; try done. by apply match_at_none.
  - destruct (match_at r b (c :: a)) as [[[b' a'] g]|] eqn:E.
    + exists [], g. split_and!; [done|done|by apply match_at_sound|]. intros w' v Ew Hv. by destruct w', v.
    + specialize (IH (c :: b)). destruct (search_from r (c :: b) a) as [[[b1 a1] [b2 a2]]|].
      * destruct IH as (w & g & -> & -> & M & Hno). exists (c :: w), g. rewrite reverse_cons, <- app_assoc.
        split_and!; [done|done|done|]. intros [|d w'] v Ew Hv b' a' g'.
        -- simpl in Ew. subst v. by apply match_at_none.
        -- injection Ew as <- ->. rewrite reverse_cons, <- app_assoc. by apply Hno.
      * intros [|d w] v Ew b' a' g'; [simpl in Ew; subst v; by apply match_at_none|].
        injection Ew as <- ->. rewrite reverse_cons, <- app_assoc. by apply IH.
Qed.

(** ** Evaluation *)

Lemma greedy_all {A} (p : N → bool) lo hi (k : list N → list N → option A) n b a x :
  Forall (λ c, p c = true) a → (lo <= n + length a)%nat → (∀ m, hi = Some m → (n + length a <= m)%nat) →
  k (reverse a ++ b) [] = Some x → greedy p lo hi k n b a = Some x.
Proof.
  revert n b. induction a as [|c a IH]; intros n b Hf Hl Hm Hk; cbn [greedy].
  - rewrite bool_decide_true by (simpl in Hl; lia). done.
  - apply Forall_cons in Hf as [Hc Hf]. assert (within hi n = true) as Hw by (apply within_spec; intros m Em; specialize (Hm m Em); simpl in Hm; lia).
    rewrite Hc, Hw. cbn [andb]. rewrite reverse_cons, <- app_assoc in Hk.
    rewrite (IH (S n) (c :: b)); [done|done|simpl in Hl; lia| |done]. intros m Em. specialize (Hm m Em). simpl in Hm. lia.
Qed.

Lemma run_single {A} (p : N → bool) b a g (k : list N → list N → groups → option A) :
  run (one p) b a g k = match a with c :: a' => if p c then k (c :: b) a' g else None | [] => None end.
Proof. destruct a as [|c [|d a]]; cbn; [done| |]; destruct (p c); cbn; try done. - by destruct (k _ _ _). - rewrite andb_false_r. by destruct (k _ _ _). Qed.

Lemma run_seq_of {A} r l b a g (k : list N → list N → groups → option A) :
  run (seq_of (r :: l)) b a g k = run r b a g (λ b a g, run (seq_of l) b a g k).
Proof. by destruct l. Qed.

(** A class at a character it does not contain *)
Lemma run_none_of {A} (p : N → bool) hi b c a g (k : list N → list N → groups → option A) :
  p c = false → run (Chars p 0 hi) b (c :: a) g k = k b (c :: a) g.
Proof. intros Hc. cbn. by rewrite Hc. Qed.

Lemma run_one_of {A} (p : N → bool) b c d a g (k : list N → list N → groups → option A) x :
  p c = true → p d = false → k (c :: b) (d :: a) g = Some x → run (Chars p 1 None) b (c :: d :: a) g k = Some x.
Proof. intros Hc Hd Hk. cbn. rewrite Hc, Hd. cbn. by rewrite Hk. Qed.

Fixpoint run_letters {A} (ls : list N) b a g (k : list N → list N → groups → option A) : option A :=
  match ls with
  | [] => k b a g
  | l :: ls' => match a with c :: a' => if same_letter l c then run_letters ls' (c :: b) a' g k else None | [] => None end
  end.

Lemma run_letters_spec {A} (ls : list N) b a g (k : list N → list N → groups → option A) :
  run (seq_of ((λ l, one (same_letter l)) <$> ls)) b a g k = run_letters ls b a g k.
Proof.
  revert b a. induction ls as [|l ls IH]; intros b a; [done|]. rewrite fmap_cons, run_seq_of, run_single. cbn [run_letters].
  destruct a as [|c a]; [done|]. destruct (same_letter l c); [apply IH|done].
Qed.

Lemma run_folded {A} s b a g (k : list N → list N → groups → option A) : run (folded s) b a g k = run_letters (txt s) b a g k.
Proof. apply run_letters_spec. Qed.

Lemma run_opt {A} r b a g (k : list N → list N → groups → option A) x :
  run r b a g k = Some x → run (opt r) b a g k = Some x.
Proof. intros E. cbn. by rewrite E. Qed.

Lemma run_opt_skip {A} r b a g (k : list N → list N → groups → option A) : run r b a g k = None → run (opt r) b a g k = k b a g.
Proof. intros E. cbn. by rewrite E. Qed.

Fixpoint run_words {A} (ws : list (list N)) b a g (k : list N → list N → groups → option A) : option A :=
  match ws with
  | [] => None
  | w :: ws' => match run_letters w b a g k with Some x => Some x | None => run_words ws' b a g k end
  end.

Lemma run_words_spec {A} s ws b a g (k : list N → list N → groups → option A) :
  run (alt_of (folded <$> (s :: ws))) b a g k = run_words (txt <$> (s :: ws)) b a g k.
Proof.
  revert s. induction ws as [|s' ws IH]; intros s.
  - cbn. rewrite run_folded. by destruct (run_letters _ _ _ _ _).
  - rewrite !fmap_cons. cbn [alt_of run run_words]. rewrite run_folded. destruct (run_letters _ _ _ _ _); [done|].
    exact (IH s').
Qed.

(** ** What a match consists of *)

Lemma matches_seq r l b a g b' a' g' :
  matches (seq_of (r :: l)) b a g b' a' g' → ∃ b1 a1 g1, matches r b a g b1 a1 g1 ∧ matches (seq_of l) b1 a1 g1 b' a' g'.
Proof. destruct l as [|r' l]; [intros M; eexists _, _, _; split; [exact M|apply MEmpty]|]. inversion 1; subst. eexists _, _, _. by split; [eassumption|]. Qed.

Lemma matches_chars p lo b a g b' a' g' :
  matches (Chars p lo None) b a g b' a' g' →
  ∃ w, a = w ++ a' ∧ b' = reverse w ++ b ∧ g' = g ∧ Forall (λ c, p c = true) w ∧ (lo ≤ length w)%nat.
Proof. inversion 1; subst. by eexists. Qed.

Lemma matches_one p b a g b' a' g' :
  matches (one p) b a g b' a' g' → ∃ c, a = c :: a' ∧ b' = c :: b ∧ g' = g ∧ p c = true.
Proof.
  inversion 1 as [|? ? ? ? w ? ? Hf Hl Hm| | | | | | | | | |]; subst. specialize (Hm 1%nat eq_refl).
  destruct w as [|c [|? ?]]; simpl in Hl, Hm; [lia| |lia]. rewrite Forall_singleton in Hf. exists c. split_and!; [done..|exact Hf].
Qed.

Lemma matches_literal (t : list N) b a g b' a' g' :
  matches (literal t) b a g b' a' g' → a = t ++ a' ∧ b' = reverse t ++ b ∧ g' = g.
Proof.
  revert b a. induction t as [|c t IH]; intros b a; [by inversion 1|]. unfold literal. rewrite fmap_cons.
  intros (b1 & a1 & g1 & M1 & M2)%matches_seq. apply matches_one in M1 as (d & -> & -> & -> & Hd). apply N.eqb_eq in Hd as <-.
  apply IH in M2 as (-> & -> & ->). by rewrite reverse_cons, <- app_assoc.
Qed.

Lemma matches_exact s b a g b' a' g' : matches (exact s) b a g b' a' g' → a = txt s ++ a' ∧ b' = reverse (txt s) ++ b ∧ g' = g.
Proof. apply (matches_literal (txt s)). Qed.

Lemma matches_group n r b a g b' a' g' :
  matches (Group n r) b a g b' a' g' →
  ∃ w g1, a = w ++ a' ∧ b' = reverse w ++ b ∧ g' = (n, w) :: g1 ∧ matches r b a g b' a' g1.
Proof.
  inversion 1 as [| | | | | | | | | | |? ? ? ? ? ? ? ? M]; subst. destruct (matches_moves _ _ _ _ _ _ _ M) as (w & -> & ->).
  rewrite between_app. by eexists _, _.
Qed.

Lemma matches_opt r b a g b' a' g' : matches (opt r) b a g b' a' g' → matches r b a g b' a' g' ∨ (b' = b ∧ a' = a ∧ g' = g).
Proof. inversion 1 as [| | | |? ? ? ? ? ? ? ? M| | | | | | |]; subst; [by left|]. inversion M; subst. by right. Qed.

Lemma matches_alt r l b a g b' a' g' :
  matches (alt_of (r :: l)) b a g b' a' g' → ∃ r', r' ∈ r :: l ∧ matches r' b a g b' a' g'.
Proof.
  revert r. induction l as [|r' l IH]; intros r; cbn [alt_of]; [intros M; exists r; split; [left|done]|].
  inversion 1 as [| | |? ? ? ? ? ? ? ? M|? ? ? ? ? ? ? ? M| | | | | | |]; subst; [exists r; split; [left|done]|].
  apply IH in M as (r2 & Hr & M). exists r2. split; [by right|done].
Qed.

(** ** What a match can begin with *)

Fixpoint nullable r : bool :=
  match r with
  | Empty | Bound | Start | Finish | LineStart | LineFinish | Look _ => true
  | Chars _ lo _ => bool_decide (lo = 0%nat)
  | Seq r1 r2 => nullable r1 && nullable r2
  | Alt r1 r2 => nullable r1 || nullable r2
  | Group _ r => nullable r
  end.

Fixpoint first r (c : N) : bool :=
  match r with
  | Empty | Bound | Start | Finish | LineStart | LineFinish | Look _ => false
  | Chars p _ _ => p c
  | Seq r1 r2 => first r1 c || nullable r1 && first r2 c
  | Alt r1 r2 => first r1 c || first r2 c
  | Group _ r => first r c
  end.

Lemma matches_first r b a g b' a' g' :
  matches r b a g b' a' g' →
  (nullable r = true ∧ b' = b ∧ a' = a) ∨ (∃ c a1, a = c :: a1 ∧ first r c = true ∧ (length a' < length a)%nat).
Proof.
  induction 1 as [|p lo hi b w a g Hf Hl _| r1 r2 b a g b1 a1 g1 b2 a2 g2 M1 IH1 M2 IH2 | r1 r2 b a g b' a' g' M IH
    | r1 r2 b a g b' a' g' M IH | | | | | | | ]; cbn [nullable first]; try (by left); try done.
  - destruct w as [|c w]; [left; simpl in Hl; rewrite bool_decide_true by lia; done|]. right. apply Forall_cons in Hf as [Hc _].
    exists c, (w ++ a). split_and!; [done|done|simpl; rewrite length_app; lia].
  - destruct IH1 as [(N1 & -> & ->)|(c & a0 & -> & F1 & L1)].
    + destruct IH2 as [(N2 & -> & ->)|(c & a0 & -> & F2 & L2)]; [left; by rewrite N1, N2|]. right. exists c, a0.
      rewrite N1, F2, orb_true_r. done.
    + right. exists c, a0. rewrite F1. split_and!; [done|done|]. apply matches_moves in M2 as (w & -> & _).
      rewrite length_app in L1. lia.
  - destruct IH as [(N1 & -> & ->)|(c & a0 & -> & F & L)]; [left; by rewrite N1|]. right. exists c, a0. by rewrite F.
  - destruct IH as [(N1 & -> & ->)|(c & a0 & -> & F & L)]; [left; by rewrite N1, orb_true_r|]. right. exists c, a0.
    by rewrite F, orb_true_r.
Qed.

End regex.
