(* ===== verification/Intent.v ===== *)
(** What a transcript asks for, as the coordinator reads it
    ([control_intent], [pending_intent] and the multi-intent separator of
    [src/server/work_item_coordinator.py]).

    A transcript is a list of code points; the identifiers and texts the
    coordinator passes on are its UTF-8 bytes. *)

From Stdlib Require Ascii String.
From stdpp Require Import pretty.
From S2P Require Import Prelude PyDict PyText TurnAckLedger WorkItemCoordinator SessionHost PyValue Regex.

(** ** Encoding *)

Definition utf8_char (c : N) : list N :=
  if (c <? 128)%N then [c]
  else if (c <? 2048)%N then [192 + c / 64; 128 + c mod 64]%N
  else if (c <? 65536)%N then [224 + c / 4096; 128 + (c / 64) mod 64; 128 + c mod 64]%N
  else [240 + c / 262144; 128 + (c / 4096) mod 64; 128 + (c / 64) mod 64; 128 + c mod 64]%N.

Definition utf8 (t : text) : string := String.string_of_list_ascii (Ascii.ascii_of_N <$> (t ≫= utf8_char)).

(** ** Words *)

(** [str.split()]; [w] is the word being read, reversed *)
Fixpoint words_from (w : text) (t : text) : list text :=
  match t with
  | [] => match w with [] => [] | _ => [reverse w] end
  | c :: t' =>
      if py_isspace c then match w with [] => words_from [] t' | _ => reverse w :: words_from [] t' end
      else words_from (c :: w) t'
  end.

Definition words (t : text) : list text := words_from [] t.

(** [" ".join(t.strip().split())] *)
Definition normalized (t : text) : text := join (words (strip t)).

Section intent.
Context `{UnicodeText}.
Implicit Types (t : text).

Definition fold_char (c : N) : text := if (c <? 128)%N then [ascii_lower c] else other_fold c.

(** [str.casefold] *)
Definition casefold t : text := t ≫= fold_char.

(** [t.startswith(prefixes)] *)
Definition starts_with (prefixes : list string) t : bool :=
  existsb (λ p, match prefix_of_text (txt p) t with Some _ => true | None => false end) prefixes.

(** ** Patterns *)

Definition separator_char (c : N) : bool := (c =? 45)%N || (c =? 95)%N || (c =? 32)%N.
Definition name_char (c : N) : bool := is_word c || (c =? 45)%N.

Definition CONTROL_ACTIONS : list string := ["pause"; "resume"; "cancel"; "stop"; "consent"].

Definition TARGET_PATTERN : regex :=
  seq_of [folded "work"; opt (seq_of [one separator_char; folded "item"]); one separator_char; Chars name_char 1 (Some 128%nat)].

Definition CONTROL_PATTERN : regex :=
  seq_of [spaces0; Group 1 (alt_of (folded <$> CONTROL_ACTIONS)); opt (Seq spaces1 (Group 2 TARGET_PATTERN));
          spaces0; opt (one (λ c, (c =? 46) || (c =? 33))%N); spaces0].

Definition SEPARATE_REQUEST_VERBS : regex :=
  alt_of [folded "search"; folded "find"; seq_of [folded "look"; spaces1; folded "up"]; folded "check";
          seq_of [folded "show"; spaces1; folded "me"]; seq_of [folded "tell"; spaces1; folded "me"]; folded "get";
          folded "open"; folded "create"; folded "write"; folded "summarize"].

Definition please : regex := opt (Seq (folded "please") spaces1).

Definition MULTI_INTENT_SEPARATOR : regex :=
  seq_of [spaces0; opt (Seq (one (N.eqb 44)) spaces0); Bound;
          Alt (Seq (folded "and") (opt (Seq spaces1 (Alt (folded "also") (folded "then"))))) (folded "also");
          spaces1; Look (seq_of [please; SEPARATE_REQUEST_VERBS; Bound])].

Definition IMPERATIVE_NEW_TOPIC : regex :=
  seq_of [Start; opt (Seq (Alt (folded "please") (folded "also")) spaces1); SEPARATE_REQUEST_VERBS; Bound].

Definition POLITE_NEW_TOPIC : regex :=
  seq_of [Start; please; alt_of (folded <$> ["can"; "could"; "would"; "will"]); spaces1; folded "you"; spaces1;
          please; SEPARATE_REQUEST_VERBS; Bound].

(** ** Classification *)

(** [str.replace(" ", "_")] *)
Definition underscored t : text := (λ c, if (c =? 32)%N then 95%N else c) <$> t.

(** The action is lowered letter by letter: the letters the actions can match
    beyond ASCII are lower case already. *)
Definition control_intent t : option (text * option text) :=
  match fullmatch CONTROL_PATTERN t with
  | Some g => Some (ascii_lower <$> default [] (group_of 1 g), underscored <$> group_of 2 g)
  | None => None
  end.

Definition matched r t : bool := match match_at r [] t with Some _ => true | None => false end.

Definition pending_intent t : pending_intent :=
  let n := normalized t in
  let lowered := casefold n in
  let compound := match search MULTI_INTENT_SEPARATOR n with
                  | Some ((b, _), _) => negb (bool_decide (strip_chars [32%N; 44%N] (reverse b) = []))
                  | None => false
                  end in
  if starts_with ["new question"; "unrelated"; "forget that"] lowered then new_topic
  else if compound then multi_intent
  else if starts_with ["what about"; "how about"; "instead"; "change that"] lowered then steer_same_topic
  else if starts_with ["who "; "what "; "when "; "where "; "why "; "how "] lowered then new_topic
  else if matched IMPERATIVE_NEW_TOPIC n || matched POLITE_NEW_TOPIC n then new_topic
  else continue_pending.

(** The parts of a compound request *)
Definition request_parts t : list text :=
  filter (λ part, part ≠ []) (strip <$> re_split MULTI_INTENT_SEPARATOR t).

(** [arbitrate(session_id, transcript)] *)
Definition arbitrate_transcript {V} `{CoordinatorConfig} (session : string) t (now : Q) (c : WorkItemCoordinator V)
    : WorkItemCoordinator V * result DispatchOutcome :=
  arbitrate session ((λ x : text * option text, (utf8 x.1, utf8 <$> x.2)) <$> control_intent t) (pending_intent t)
    (utf8 <$> request_parts t) now c.

End intent.

(** Facts about the classification of a transcript: the control commands that
    name a work item, and the parts of a compound request. *)
(** ** Identifiers as texts *)

Lemma txt_app s1 s2 : txt (s1 +:+ s2) = txt s1 ++ txt s2.
Proof. induction s1 as [|c s1 IH]; [done|]. change (txt (String c s1 +:+ s2)) with (Ascii.N_of_ascii c :: txt (s1 +:+ s2)). by rewrite IH. Qed.

Lemma pretty_go_digits n s : Forall (λ c, ascii_digit c = true) (txt s) → Forall (λ c, ascii_digit c = true) (txt (pretty_N_go n s)).
Proof.
  revert s. induction (N.lt_wf_0 n) as [n _ IH]. intros s Hs. destruct (decide (0 < n)%N) as [Hn|Hn].
  - rewrite pretty_N_go_step by done. apply IH; [by apply N.div_lt|]. unfold txt. cbn. constructor; [|done].
    unfold pretty_N_char. repeat case_match; done.
  - assert (n = 0%N) as -> by lia. by rewrite pretty_N_go_0.
Qed.

Lemma pretty_digits (n : N) : Forall (λ c, ascii_digit c = true) (txt (pretty n)).
Proof. unfold pretty, pretty_N. case_decide; [by repeat constructor|]. apply pretty_go_digits. constructor. Qed.

Section facts.
Context `{UnicodeText}.
Implicit Types (r : regex) (b a t : list N) (g : groups).

Lemma digit_name c : ascii_digit c = true → name_char c = true.
Proof.
  intros Hc. unfold name_char, is_word. destruct (ascii_digit_value c Hc) as [-> _]. rewrite Hc. by rewrite orb_true_r.
Qed.

(** ** Commands that name a work item *)

Ltac letters := repeat match goal with |- context [same_letter ?l ?c] =>
    let v := eval vm_compute in (same_letter l c) in change (same_letter l c) with v end; cbv iota.

Lemma target_run {A} rest b g (k : list N → list N → groups → option A) x :
  Forall (λ c, name_char c = true) rest → (length rest <= 127)%nat →
  k (reverse (txt "work-" ++ 116%N :: rest) ++ b) [] g = Some x →
  run TARGET_PATTERN b (txt "work-" ++ 116%N :: rest) g k = Some x.
Proof.
  intros Hr Hl Hk. unfold TARGET_PATTERN. rewrite run_seq_of, run_folded. change (txt "work") with [119;111;114;107]%N.
  change (txt "work-") with [119;111;114;107;45]%N in *. cbn [run_letters app]. letters. rewrite run_seq_of, run_opt_skip.
  - rewrite run_seq_of, run_single. change (separator_char 45) with true. cbv iota. cbn [seq_of run]. apply greedy_all.
    + constructor; [done|done].
    + simpl. lia.
    + intros m [= <-]. simpl. lia.
    + rewrite <- Hk. f_equal. rewrite reverse_app, <- app_assoc. done.
  - rewrite run_seq_of, run_single. change (separator_char 45) with true. cbv iota. cbn [seq_of]. rewrite run_folded.
    change (txt "item") with [105;116;101;109]%N. cbn [run_letters]. letters. done.
Qed.

Lemma control_run action rest :
  action ∈ CONTROL_ACTIONS → Forall (λ c, name_char c = true) rest → (length rest <= 127)%nat →
  fullmatch CONTROL_PATTERN (txt action ++ 32%N :: txt "work-" ++ 116%N :: rest) =
  Some [(2%nat, txt "work-" ++ 116%N :: rest); (1%nat, txt action)].
Proof.
  intros Ha Hr Hl. set (target := txt "work-" ++ 116%N :: rest).
  assert (∀ b g, run (seq_of [opt (Seq spaces1 (Group 2 TARGET_PATTERN)); spaces0; opt (one (λ c, (c =? 46) || (c =? 33))%N); spaces0])
    b (32%N :: target) g (λ _ a g, if bool_decide (a = []) then Some g else None) = Some ((2%nat, target) :: g)) as Htail.
  { intros b g. rewrite run_seq_of. apply run_opt. cbn [run]. unfold target. change (txt "work-") with [119;111;114;107;45]%N.
    cbn [app]. apply run_one_of; [done|done|]. apply (target_run rest (32%N :: b) g); [done|done|].
    cbv beta. rewrite between_app. reflexivity. }
  unfold fullmatch, CONTROL_PATTERN. unfold CONTROL_ACTIONS in Ha.
  repeat (apply elem_of_cons in Ha as [->|Ha]); [..|by apply not_elem_of_nil in Ha].
  all: rewrite run_seq_of; change (txt "pause") with [112;97;117;115;101]%N; change (txt "resume") with [114;101;115;117;109;101]%N;
    change (txt "cancel") with [99;97;110;99;101;108]%N; change (txt "stop") with [115;116;111;112]%N;
    change (txt "consent") with [99;111;110;115;101;110;116]%N; cbn [app].
  all: unfold spaces0 at 1; rewrite run_none_of by done; rewrite run_seq_of; cbn [run].
  all: unfold CONTROL_ACTIONS; rewrite run_words_spec.
  all: change (txt <$> _) with [[112;97;117;115;101]; [114;101;115;117;109;101]; [99;97;110;99;101;108]; [115;116;111;112]; [99;111;110;115;101;110;116]]%N.
  all: cbn [run_words run_letters]; letters; rewrite Htail; reflexivity.
Qed.

(** C36.  Naming a work item of the host by its identifier is understood: the command
    made of an action, a space and the identifier of a turn's work item is read back
    as that action on exactly that item. *)
Theorem control_roundtrip action n :
  action ∈ CONTROL_ACTIONS → (length (txt (pretty n)) <= 123)%nat →
  let item := work_item_of_turn (turn_id_of n) in
  control_intent (txt (action +:+ " " +:+ item)) = Some (txt action, Some (txt item)).
Proof.
  intros Ha Hl item. assert (txt item = txt "work-" ++ 116%N :: (txt "urn-" ++ txt (pretty n))) as E.
  { unfold item, work_item_of_turn, turn_id_of. by rewrite !txt_app. }
  assert (Forall (λ c, name_char c = true) (txt "urn-" ++ txt (pretty n))) as Hn.
  { apply Forall_app. split; [repeat constructor|]. eapply Forall_impl; [apply pretty_digits|]. apply digit_name. }
  assert (length (txt "urn-" ++ txt (pretty n)) <= 127)%nat as Hn' by (rewrite length_app; simpl; lia).
  unfold control_intent. rewrite !txt_app, E. change (txt " ") with [32%N]. cbn [app].
  rewrite (control_run action _ Ha Hn Hn'), <- E.
  assert (ascii_lower <$> txt action = txt action) as Hlow.
  { unfold CONTROL_ACTIONS in Ha. repeat (apply elem_of_cons in Ha as [->|Ha]); [done..|by apply not_elem_of_nil in Ha]. }
  assert (Forall (λ c, c ≠ 32%N) (txt item)) as Hsp.
  { rewrite E. apply Forall_app. split; [by repeat constructor|]. constructor; [done|].
    apply Forall_app. split; [by repeat constructor|]. eapply Forall_impl; [apply pretty_digits|]. by intros c Hc ->. }
  assert (underscored (txt item) = txt item) as Hu.
  { revert Hsp. generalize (txt item). induction 1 as [|c t Hc _ IH]; [done|]. unfold underscored in *. rewrite fmap_cons, IH.
    apply N.eqb_neq in Hc. by rewrite Hc. }
  revert Hlow Hu. generalize (txt action), (txt item). intros u v Hlow Hu.
  change (Some (ascii_lower <$> u, Some (underscored v)) = Some (u, Some v)). by rewrite Hlow, Hu.
Qed.

(** What a group captures is a part of the text. *)
Lemma groups_inside r b a g b' a' g' :
  matches r b a g b' a' g' → ∀ x, x ∈ g' → x ∈ g ∨ ∃ u w, reverse b ++ a = u ++ x.2 ++ w.
Proof.
  induction 1 as [| | r1 r2 b a g b1 a1 g1 b2 a2 g2 M1 IH1 M2 IH2 | | | | | | | | | n r b a g b' a' g' M IH]; try (by left); try done.
  - intros x [Hx|(u & w & E)]%IH2; [by apply IH1|]. right. exists u, w. rewrite <- E.
    apply matches_moves in M1 as (v & -> & ->). by rewrite reverse_app, reverse_involutive, <- app_assoc.
  - intros x [->|Hx]%elem_of_cons; [|by apply IH]. right. apply matches_moves in M as (v & -> & ->).
    rewrite between_app. by exists (reverse b), a'.
Qed.

(** The identifiers of the host's work items *)
Inductive host_item : string → Prop :=
| TurnItem n : host_item (work_item_of_turn (turn_id_of n))
| PartItem n (k : N) : host_item (work_item_of_turn (turn_id_of n +:+ "-" +:+ pretty k)).

Lemma host_item_plain id : host_item id → 95%N ∉ txt id.
Proof.
  assert (∀ n : N, 95%N ∉ txt (pretty n)) as Hp.
  { intros n Hn. pose proof (pretty_digits n) as Hd. rewrite Forall_forall in Hd. by apply Hd in Hn. }
  assert (∀ n, 95%N ∉ txt (work_item_of_turn (turn_id_of n))) as Ht.
  { intros n. unfold work_item_of_turn, turn_id_of. rewrite !txt_app. intros [Hc|[Hc|Hc]%elem_of_app]%elem_of_app.
    - revert Hc. apply (bool_decide_unpack _). vm_compute. exact I.
    - revert Hc. apply (bool_decide_unpack _). vm_compute. exact I.
    - by eapply Hp. }
  intros [n|n k]; [apply Ht|]. specialize (Ht n). unfold work_item_of_turn in *. rewrite !txt_app in *.
  intros [Hc|[Hc|[Hc|Hc]%elem_of_app]%elem_of_app]%elem_of_app; [apply Ht; by apply elem_of_app; left | apply Ht; by apply elem_of_app; right | | by eapply Hp].
  revert Hc. apply (bool_decide_unpack _). vm_compute. exact I.
Qed.

Lemma utf8_plain t : 95%N ∈ t → 95%N ∈ txt (utf8 t).
Proof.
  intros Ht. unfold utf8, txt. rewrite String.list_ascii_of_string_of_list_ascii. apply list_elem_of_fmap.
  exists (Ascii.ascii_of_N 95). split; [done|]. apply list_elem_of_fmap. exists 95%N. split; [done|].
  apply list_elem_of_bind. exists 95%N. split; [by constructor|done].
Qed.

(** A command reaches a work item of the host only when the transcript spells
    the item's identifier out: a target spoken with spaces, as in
    [work item 3], is turned into an identifier with underscores, which no
    work item of the host has. *)
Theorem named_target_verbatim t action target :
  control_intent t = Some (action, Some target) → host_item (utf8 target) → ∃ u w, t = u ++ target ++ w.
Proof.
  unfold control_intent. destruct (fullmatch CONTROL_PATTERN t) as [g|] eqn:E; [|done].
  intros Hc Hi. assert (∃ v, group_of 2 g = Some v ∧ target = underscored v) as (v & Hv & ->).
  { destruct (group_of 2 g) as [v|]; [|done]. exists v. split; [done|]. by injection Hc as _ <-. }
  assert (underscored v = v) as Eu.
  { apply host_item_plain in Hi. unfold underscored. rewrite <- (list_fmap_id v) at 2. apply list_fmap_ext. intros i c Hc'.
    destruct (c =? 32)%N eqn:E32; [|done]. apply N.eqb_eq in E32. subst c. exfalso. apply Hi, utf8_plain, list_elem_of_fmap.
    exists 32%N. split; [done|]. by apply list_elem_of_lookup_2 in Hc'. }
  rewrite Eu. apply fullmatch_sound in E as (b' & M). unfold group_of in Hv.
  assert ((2%nat, v) ∈ g) as Hg.
  { destruct (filter _ g) as [|[n v'] l] eqn:Ef; [done|]. injection Hv as ->.
    assert ((n, v) ∈ filter (λ x : nat * list N, x.1 = 2%nat) g) as [En ?]%list_elem_of_filter by (rewrite Ef; by constructor).
    by simpl in En; subst n. }
  destruct (groups_inside _ _ _ _ _ _ _ M _ Hg) as [Hn|(u & w & Ew)]; [by apply not_elem_of_nil in Hn|]. by exists u, w.
Qed.

(** ** Compound requests *)

Lemma words_plain w t : Forall (λ c, py_isspace c = false) w → Forall (Forall (λ c, py_isspace c = false)) (words_from w t).
Proof.
  revert w. induction t as [|c t IH]; intros w Hw; cbn [words_from].
  - destruct w; [constructor|]. constructor; [by apply Forall_reverse|constructor].
  - destruct (py_isspace c) eqn:Ec; [|apply IH; by constructor]. destruct w; [apply IH; constructor|].
    constructor; [by apply Forall_reverse|]. apply IH. constructor.
Qed.

Lemma join_space l c : Forall (Forall (λ c, py_isspace c = false)) l → c ∈ join l → py_isspace c = true → c = 32%N.
Proof.
  induction 1 as [|w l Hw _ IH]; intros Hc Hs; [by apply not_elem_of_nil in Hc|]. rewrite Forall_forall in Hw.
  assert (c ∉ w) as Hn by (intros Hcw; specialize (Hw c Hcw); congruence). destruct l as [|w' l]; [done|]. cbn [join] in Hc.
  apply elem_of_app in Hc as [Hc|[->|Hc]%elem_of_cons]; [done|done|by apply IH].
Qed.

(** The only white space of a normalized text is the space. *)
Lemma normalized_space t c : c ∈ normalized t → py_isspace c = true → c = 32%N.
Proof. apply join_space, words_plain. constructor. Qed.

Lemma lstrip_keeps c t : c ∈ t → py_isspace c = false → c ∈ lstrip t.
Proof.
  induction t as [|d t IH]; intros Hc Hs; [done|]. cbn [lstrip]. destruct (py_isspace d) eqn:Ed; [|done].
  apply elem_of_cons in Hc as [->|Hc]; [congruence|by apply IH].
Qed.

Lemma strip_nonempty c t : c ∈ t → py_isspace c = false → strip t ≠ [].
Proof.
  intros Hc Hs E. assert (c ∈ strip t) as Hin; [|rewrite E in Hin; by apply not_elem_of_nil in Hin].
  unfold strip. apply elem_of_reverse, lstrip_keeps; [|done]. by apply elem_of_reverse, lstrip_keeps.
Qed.

Lemma lstrip_chars_some chars t : lstrip_chars chars t ≠ [] → ∃ c, c ∈ t ∧ c ∉ chars.
Proof.
  induction t as [|c t IH]; [done|]. cbn [lstrip_chars]. case_bool_decide as Hc; [|intros _; exists c; by split; [constructor|]].
  intros (d & Hd & Hn)%IH. exists d. by split; [constructor|].
Qed.

Lemma lstrip_chars_incl chars t c : c ∈ lstrip_chars chars t → c ∈ t.
Proof. induction t as [|d t IH]; [done|]. cbn [lstrip_chars]. case_bool_decide; [|done]. intros Hc. constructor. by apply IH. Qed.

Lemma strip_chars_some chars t : strip_chars chars t ≠ [] → ∃ c, c ∈ t ∧ c ∉ chars.
Proof.
  intros Hs. assert (lstrip_chars chars (reverse (lstrip_chars chars t)) ≠ []) as (c & Hc & Hn)%lstrip_chars_some.
  { intros E. apply Hs. unfold strip_chars. by rewrite E. }
  exists c. split; [|done]. by eapply lstrip_chars_incl, elem_of_reverse.
Qed.

(** The code points a letter of a pattern can match *)
Definition variants (l : N) : list N := [l; ascii_upper l; 304; 305; 383; 8490]%N.

Lemma same_letter_variants l c : same_letter l c = true → c ∈ variants l.
Proof.
  unfold same_letter, variants. rewrite !orb_true_iff, !andb_true_iff, ?orb_true_iff, !N.eqb_eq. set_solver.
Qed.

Lemma first_folded l s c : first (folded (String l s)) c = same_letter (Ascii.N_of_ascii l) c.
Proof. unfold folded, txt. destruct s; cbn; [done|]. by rewrite orb_false_r. Qed.

Lemma nullable_folded l s : nullable (folded (String l s)) = false.
Proof. unfold folded, txt. by destruct s. Qed.

Definition REQUEST : regex := seq_of [please; SEPARATE_REQUEST_VERBS; Bound].

(** The first letters of a request *)
Definition request_letters : list N := [112; 115; 102; 108; 99; 116; 103; 111; 119]%N.

Lemma request_first c : first REQUEST c = true → ∃ l, l ∈ request_letters ∧ c ∈ variants l.
Proof.
  intros Hc. assert (existsb (λ l, same_letter l c) request_letters = true) as Hx.
  { revert Hc. unfold REQUEST, please, SEPARATE_REQUEST_VERBS, opt, request_letters. cbn [seq_of alt_of first nullable].
    rewrite !first_folded, !nullable_folded. cbn [existsb andb orb].
    repeat match goal with |- context [Ascii.N_of_ascii ?l] => let v := eval vm_compute in (Ascii.N_of_ascii l) in change (Ascii.N_of_ascii l) with v end.
    repeat match goal with |- context [same_letter ?l c] => destruct (same_letter l c) eqn:? end; cbn; congruence. }
  apply existsb_exists in Hx as (l & Hl & Hs). exists l. split; [by apply list_elem_of_In|]. by apply same_letter_variants.
Qed.

Lemma request_not_separator c : first REQUEST c = true → py_isspace c = false ∧ first MULTI_INTENT_SEPARATOR c = false.
Proof.
  intros (l & Hl & Hc)%request_first.
  assert (forallb (λ l, forallb (λ c, negb (py_isspace c) && negb (first MULTI_INTENT_SEPARATOR c)) (variants l)) request_letters = true) as Hall
    by (vm_compute; reflexivity).
  rewrite forallb_forall in Hall. specialize (Hall l (proj1 (list_elem_of_In _ _) Hl)). rewrite forallb_forall in Hall.
  specialize (Hall c (proj1 (list_elem_of_In _ _) Hc)). by apply andb_true_iff in Hall as [?%negb_true_iff ?%negb_true_iff].
Qed.

(** A separator is followed by a request. *)
Lemma separator_ends b a g b' a' g' :
  matches MULTI_INTENT_SEPARATOR b a g b' a' g' → ∃ c a1, a' = c :: a1 ∧ first REQUEST c = true.
Proof.
  unfold MULTI_INTENT_SEPARATOR. cbn [seq_of]. intros M.
  do 5 (match goal with M : matches (Seq _ _) _ _ _ _ _ _ |- _ => inversion M; clear M; subst end).
  match goal with M : matches (Look _) _ _ _ _ _ _ |- _ => inversion M; clear M; subst end.
  match goal with M : matches (Seq please _) _ _ _ _ _ _ |- _ => apply matches_first in M as [(Hn & _)|(c & d & E & Hc & _)] end; [done|].
  exists c, d. split; [exact E|]. exact Hc.
Qed.

(** The text up to the next separator begins with the request. *)
Lemma next_piece fuel b c a :
  first REQUEST c = true → ∃ piece rest, split_from (S fuel) MULTI_INTENT_SEPARATOR b (c :: a) = piece :: rest ∧ strip piece ≠ [].
Proof.
  intros Hc. destruct (request_not_separator c Hc) as [Hs Hf]. cbn [split_from].
  pose proof (search_from_spec MULTI_INTENT_SEPARATOR b (c :: a)) as Hspec.
  destruct (search_from _ b (c :: a)) as [[[b1 a1] [b2 a2]]|].
  - destruct Hspec as (w & g & Ew & -> & M & _). eexists _, _. split; [reflexivity|]. rewrite between_app.
    destruct w as [|d w].
    + simpl in Ew. subst a1. apply matches_first in M as [(Hn & _)|(d & a1 & [= <- <-] & Hd & _)]; [done|]. congruence.
    + injection Ew as <- ->. by eapply (strip_nonempty c); [constructor|].
  - eexists _, _. split; [reflexivity|]. by eapply (strip_nonempty c); [constructor|].
Qed.

(** A reply that is taken for a compound request has parts: for a transcript
    without surplus white space, the split that follows the classification gives at
    least two parts, none of them empty, so that the turn has work besides the
    answer. *)
Theorem multi_intent_has_parts t :
  normalized t = t → pending_intent t = multi_intent →
  (2 <= length (request_parts t))%nat ∧ Forall (λ part, part ≠ []) (request_parts t).
Proof.
  intros Hn Hi. split; [|unfold request_parts; rewrite Forall_forall; intros part [? _]%list_elem_of_filter; done].
  unfold pending_intent in Hi. rewrite Hn in Hi. destruct (starts_with _ (casefold t)); [done|].
  pose proof (search_from_spec MULTI_INTENT_SEPARATOR [] t) as Hspec. unfold search in Hi.
  assert (∃ b1 a1 b2 a2, search_from MULTI_INTENT_SEPARATOR [] t = Some ((b1, a1), (b2, a2)) ∧ strip_chars [32%N; 44%N] (reverse b1) ≠ [])
    as (b1 & a1 & b2 & a2 & Es & Hb).
  { destruct (search_from _ [] t) as [[[b1 a1] [b2 a2]]|]; [|by repeat case_match].
    destruct (decide (strip_chars [32%N; 44%N] (reverse b1) = [])) as [E|E]; [|by eexists _, _, _, _].
    rewrite bool_decide_true in Hi by exact E. by repeat case_match. }
  rewrite Es in Hspec. destruct Hspec as (w & g & Ew & -> & M & _). rewrite app_nil_r, reverse_involutive in Hb.
  apply strip_chars_some in Hb as (c & Hc & Hcc). apply separator_ends in M as (d & a3 & -> & Hd).
  assert (strip w ≠ []) as Hw.
  { apply (strip_nonempty c); [done|]. destruct (py_isspace c) eqn:E; [|done]. exfalso.
    assert (c = 32%N) as -> by (apply (normalized_space t); [rewrite Hn, Ew; by apply elem_of_app; left|done]). set_solver. }
  unfold request_parts, re_split. destruct t as [|t0 t]; [by destruct w|].
  destruct (next_piece (length t) b2 d a3 Hd) as (piece & rest & Ep & Hp). cbn [length].
  change (split_from (S (S (length t))) MULTI_INTENT_SEPARATOR [] (t0 :: t)) with
    (match search_from MULTI_INTENT_SEPARATOR [] (t0 :: t) with
     | Some ((b, _), (b', a')) => between [] b :: split_from (S (length t)) MULTI_INTENT_SEPARATOR b' a' | None => [t0 :: t] end).
  rewrite Es, Ep, app_nil_r. rewrite <- (app_nil_r (reverse w)), between_app, !fmap_cons, !filter_cons_True by done. simpl. lia.
Qed.

End facts.

(** ** Concrete transcripts *)

(** A database without letters and digits beyond ASCII *)
Definition ascii_only : UnicodeText :=
  {| text_digits := {| other_digit := λ _, false; other_decimal := λ _, None |}; other_word := λ _, false; other_fold := λ c, [c] |}.
#[local] Existing Instance ascii_only.

Lemma control_roundtrip_witness :
  control_intent (txt "cancel work-turn-12") = Some (txt "cancel", Some (txt "work-turn-12")).
Proof.
  assert ("cancel" ∈ CONTROL_ACTIONS) as Ha by (apply (bool_decide_unpack _); vm_compute; exact I).
  assert (length (txt (pretty 12%N)) <= 123)%nat as Hl by (vm_compute; lia).
  exact (control_roundtrip "cancel" 12 Ha Hl).
Defined.

Lemma heard : control_intent (txt "Stop work-turn-3, ") = None ∧ control_intent (txt " Stop work-turn-3! ") = Some (txt "stop", Some (txt "work-turn-3")).
Proof. vm_compute. split; reflexivity. Qed.

Lemma named_target_verbatim_witness : ∃ u w, txt " Stop work-turn-3! " = u ++ txt "work-turn-3" ++ w.
Proof. exact (named_target_verbatim (txt " Stop work-turn-3! ") _ _ (proj2 heard) (TurnItem 3)). Defined.

(** The spoken form is understood, and names no work item. *)
Lemma spoken : control_intent (txt "stop work item 3") = Some (txt "stop", Some (txt "work_item_3")).
Proof. vm_compute. reflexivity. Qed.

Definition compound : text := txt "the second one, and also please look up the ferry times".

Lemma compound_classified : normalized compound = compound ∧ pending_intent compound = multi_intent.
Proof. vm_compute. split; reflexivity. Qed.

Lemma multi_intent_has_parts_witness :
  (2 <= length (request_parts compound))%nat ∧ Forall (λ part, part ≠ []) (request_parts compound).
Proof. exact (multi_intent_has_parts compound (proj1 compound_classified) (proj2 compound_classified)). Defined.
