(* ===== verification/ConfigLayers.v ===== *)
(** The precedence layers of the configuration and the families of
    alternative spellings ([src/server/config.py]).

    Three layers are merged from the lowest to the highest: the TOML document,
    the env file and the process environment.  Merging records which layer set a
    role's model and its reasoning effort, so that an effort is not inherited
    past a change of its model.  The endpoint settings have several spellings,
    resolved by layer; the credentials have two, of which the scoped one wins. *)

From S2P Require Import Prelude PyDict PyText PyValue.

Abbreviation cfg_values := (list (list N * pyval)) (only parsing).
Abbreviation layer_numbers := (list (list N * Z)) (only parsing).
Abbreviation family := (list (string * list (list N))) (only parsing).

(** ** Key rosters *)

Definition ROLE_MODEL_EFFORT_KEYS : list (text * text) :=
  [(txt "WEBSEARCH_ROUTER_MODEL", txt "WEBSEARCH_ROUTER_REASONING_EFFORT");
   (txt "WEBSEARCH_WORKER_MODEL", txt "WEBSEARCH_WORKER_REASONING_EFFORT")].

Definition PROVENANCE_KEYS : list text := ROLE_MODEL_EFFORT_KEYS ≫= λ p, [p.1; p.2].
Definition EMPTY_MEANS_ABSENT_KEYS : list text := ROLE_MODEL_EFFORT_KEYS ≫= λ p, [p.1; p.2].
Definition ROLE_MODEL_KEYS : list text := ROLE_MODEL_EFFORT_KEYS.*1.

Definition STT_ENDPOINT_MEMBERS : family :=
  [("endpoint", [txt "WEBSEARCH_STT_ENDPOINT"]); ("socket", [txt "WEBSEARCH_STT_WS_SOCKET"])].

Definition TTS_ENDPOINT_MEMBERS : family :=
  [("endpoint", [txt "WEBSEARCH_TTS_ENDPOINT"]);
   ("uri", [txt "WEBSEARCH_TTS_WS_URI"]);
   ("socket", [txt "WEBSEARCH_TTS_WS_SOCKET"]);
   ("host_port", [txt "WEBSEARCH_TTS_WS_HOST"; txt "WEBSEARCH_TTS_WS_PORT"])].

Definition DEFAULT_OPENAI_KEY_ENV : text := txt "OPENAI_API_KEY".

Inductive alias_field := OpenaiApiKey | DeepgramApiKey | CartesiaApiKey | CartesiaVoiceId.

Definition ALIAS_FAMILY_SPELLINGS : list (alias_field * text * option text) :=
  [(OpenaiApiKey, txt "WEBSEARCH_OPENAI_API_KEY", None);
   (DeepgramApiKey, txt "WEBSEARCH_DEEPGRAM_API_KEY", Some (txt "DEEPGRAM_API_KEY"));
   (CartesiaApiKey, txt "WEBSEARCH_CARTESIA_API_KEY", Some (txt "CARTESIA_API_KEY"));
   (CartesiaVoiceId, txt "WEBSEARCH_CARTESIA_VOICE_ID", Some (txt "CARTESIA_VOICE_ID"))].

Definition alias_families (runtime_named_key : text) : list (alias_field * list (string * text)) :=
  (λ '(field_name, scoped_key, bare_key),
     (field_name, [("scoped", scoped_key); ("bare", default runtime_named_key bare_key)]))
  <$> ALIAS_FAMILY_SPELLINGS.

(** ** Merging the layers *)

Section layers.
Context `{PyRuntime}.
Implicit Types (values layer_values : cfg_values) (layers : layer_numbers) (layer : Z).

Definition effectively_set (value : pyval) : bool :=
  truthy value && negb (bool_decide (strip (py_str value) = [])).

Definition record_key layer_values layer (incumbent_models : list (text * option pyval)) layers (key : text) :
  layer_numbers :=
  match dict_get key layer_values with
  | None => layers
  | Some value =>
      if negb (effectively_set value) then layers
      else if bool_decide (key ∈ ROLE_MODEL_KEYS)
              && match dict_get key incumbent_models with
                 | Some (Some incumbent) => py_eq value incumbent
                 | _ => false
                 end
      then layers
      else dict_set key layer layers
  end.

Definition record_layer layer_values layers layer (incumbent_models : list (text * option pyval)) : layer_numbers :=
  foldl (record_key layer_values layer incumbent_models) layers PROVENANCE_KEYS.

Definition merge_item values (item : text * pyval) : cfg_values :=
  let (key, value) := item in
  if bool_decide (key ∈ EMPTY_MEANS_ABSENT_KEYS) && negb (effectively_set value) then values
  else dict_set key value values.

Definition apply_layer (acc : cfg_values * layer_numbers) (lm : Z * cfg_values) : cfg_values * layer_numbers :=
  let '(values, layers) := acc in
  let '(layer, layer_values) := lm in
  let incumbent_models := (λ key, (key, dict_get key values)) <$> ROLE_MODEL_KEYS in
  (foldl merge_item values layer_values, record_layer layer_values layers layer incumbent_models).

Definition layer_of layers (key : text) : Z := default (-1)%Z (dict_get key layers).

Definition clear_pair layers values (pair : text * text) : cfg_values :=
  let (model_key, effort_key) := pair in
  if dict_mem effort_key values && (layer_of layers effort_key <? layer_of layers model_key)%Z
  then dict_pop effort_key values
  else values.

Definition clear_inherited_reasoning_effort values layers : cfg_values :=
  foldl (clear_pair layers) values ROLE_MODEL_EFFORT_KEYS.

(** ** Families *)

Definition family_key_set (value : option pyval) : bool :=
  match value with Some v => negb (bool_decide (strip (py_str v) = [])) | None => false end.

Definition family_keys (members : family) : list text := members ≫= snd.

(** [max(xs, default=-1)] *)
Definition max_layer (xs : list Z) : Z := foldr Z.max (-1)%Z xs.

Definition key_layer values (layer_maps : list (Z * cfg_values)) (key : text) : Z :=
  if family_key_set (dict_get key values)
  then max_layer (fst <$> filter (λ lm, family_key_set (dict_get key lm.2) = true) layer_maps)
  else (-1)%Z.

Definition family_layers values (layer_maps : list (Z * cfg_values)) (keys : list text) : layer_numbers :=
  foldl (λ acc key, dict_set key (key_layer values layer_maps key) acc) [] keys.

Definition member_layer layers (keys : list text) : Z := max_layer (layer_of layers <$> keys).

(** [max(present, key=...)]: the first of the greatest *)
Fixpoint max_first {A} (best : A * Z) (l : list (A * Z)) : A * Z :=
  match l with
  | [] => best
  | x :: l' => max_first (if (best.2 <? x.2)%Z then x else best) l'
  end.

Definition present_members values layers (members : family) : list (string * Z) :=
  omap (λ '(name, keys),
          if forallb (λ key, family_key_set (dict_get key values)) keys
          then Some (name, member_layer layers keys) else None) members.

Definition winning_family_member values layers (members : family) : option string :=
  match present_members values layers members with
  | [] => None
  | x :: l => Some (max_first x l).1
  end.

Definition winning_alias_key values (members : list (string * text)) : option text :=
  match filter (λ m, family_key_set (dict_get m.2 values) = true) members with
  | [] => None
  | m :: _ => Some m.2
  end.

(** [next(keys for name, keys in members if name == winner)] *)
Definition member_keys (members : family) (winner : string) : option (list text) :=
  snd <$> head (filter (λ m, m.1 = winner) members).

(** A winner is always a member: the last branch is not reached. *)
Definition winning_family_layer layers (members : family) (winner : option string) : Z :=
  match winner with
  | None => (-1)%Z
  | Some w => match member_keys members w with Some keys => member_layer layers keys | None => (-1)%Z end
  end.

Definition parse_strict_bool (raw : pyval) (field : string) : result bool :=
  match raw with
  | PBool b => Ret b
  | _ =>
      let t := strip (py_str raw) in
      if lower_is t "true" then Ret true
      else if lower_is t "false" then Ret false
      else Raise (ConfigError (field +:+ " must be 'true' or 'false'"))
  end.

End layers.
