(* ===== verification/Config.v ===== *)
(** The operator configuration ([src/server/config.py]): the [Config] record
    and its validation, and [load_config], which builds it from the TOML
    document, the env file and the environment.

    The keyword arguments that [load_config] collects are a [Config] that starts
    from the field defaults; [post_init] validates it.  What the code takes from
    the operating system and from packages is the class [HostEnv]: the home
    directory, URL and IP address parsing, ISO timestamps, the installed
    release and the reasoning efforts the vendor's package declares. *)

From S2P Require Import Prelude PyDict PyText PyValue ConfigLayers.

(** A date-time: microseconds since the first of January of year one, in its
    own zone, and the offset of that zone. *)
Record iso_time := { local_us : Z; utc_offset_us : option Z }.

Class HostEnv := {
  expanduser : text → text;                          (* [os.path.expanduser] *)
  ip_is_loopback : text → option bool;               (* [ip_address(t).is_loopback] *)
  urlparse : text → result (text * text);            (* the scheme and the netloc *)
  fromisoformat : text → option iso_time;
  DEFAULT_RELEASE_VERSION : text;
  VALID_REASONING_EFFORTS : list text
}.

Record Config := {
  openai_api_key : option pyval;
  openai_api_key_env : pyval;
  deepgram_api_key : option pyval;
  cartesia_api_key : option pyval;
  cartesia_voice_id : option pyval;
  router_model_policy : dict text text;
  worker_model_policy : dict text text;
  max_work_items_per_turn : Z;
  multi_intent_wait_timeout_ms : Z;
  foreground_search_timeout_seconds : pyfloat;
  router_timeout_seconds : pyfloat;
  provider_timeout_seconds : pyfloat;
  shutdown_grace_seconds : pyfloat;
  max_citations : Z;
  pending_dialogue_timeout_seconds : pyfloat;
  stt_service : text;
  stt_provider : text;
  stt_model : text;
  stt_language : text;
  stt_endpoint : option (text * text);
  smart_turn_timeout_seconds : pyfloat;
  smart_turn_complete_grace_seconds : pyfloat;
  speech_start_timeout_seconds : pyfloat;
  speech_transport_grace_seconds : pyfloat;
  tts_endpoint : option (text * text);
  tts_provider : text;
  tts_model : text;
  tts_voice_id : text;
  bind_host : pyval;
  bind_port : Z;
  known_client_url : pyval;
  enable_early_ack : bool;
  enable_background_status : bool;
  enable_autoplay_policy : bool;
  early_ack_text : text;
  release_version : text;
  source_commit : option text;
  source_tree_hash : option text;
  deployed_at_utc : option text;
  router_reasoning_effort_policy : dict text text;
  worker_reasoning_effort_policy : dict text text
}.

#[export] Instance eta_Config : Eta Config := λ c,
  Build_Config (openai_api_key c) (openai_api_key_env c) (deepgram_api_key c) (cartesia_api_key c)
    (cartesia_voice_id c) (router_model_policy c) (worker_model_policy c) (max_work_items_per_turn c)
    (multi_intent_wait_timeout_ms c) (foreground_search_timeout_seconds c) (router_timeout_seconds c)
    (provider_timeout_seconds c) (shutdown_grace_seconds c) (max_citations c)
    (pending_dialogue_timeout_seconds c) (stt_service c) (stt_provider c) (stt_model c) (stt_language c)
    (stt_endpoint c) (smart_turn_timeout_seconds c) (smart_turn_complete_grace_seconds c)
    (speech_start_timeout_seconds c) (speech_transport_grace_seconds c) (tts_endpoint c) (tts_provider c)
    (tts_model c) (tts_voice_id c) (bind_host c) (bind_port c) (known_client_url c) (enable_early_ack c)
    (enable_background_status c) (enable_autoplay_policy c) (early_ack_text c) (release_version c)
    (source_commit c) (source_tree_hash c) (deployed_at_utc c) (router_reasoning_effort_policy c)
    (worker_reasoning_effort_policy c).

Record FeaturePolicy := {
  fp_enable_early_ack : bool;
  fp_enable_background_status : bool;
  fp_enable_autoplay_policy : bool
}.

Definition from_config (c : Config) : FeaturePolicy :=
  {| fp_enable_early_ack := enable_early_ack c;
     fp_enable_background_status := enable_background_status c;
     fp_enable_autoplay_policy := enable_autoplay_policy c |}.

Section config.
Context `{PyRuntime} `{HostEnv}.
Implicit Types (c : Config) (t : text).

Definition default_config : Config :=
  {| openai_api_key := None;
     openai_api_key_env := PStr (txt "OPENAI_API_KEY");
     deepgram_api_key := None;
     cartesia_api_key := None;
     cartesia_voice_id := None;
     router_model_policy := [(txt "fast", txt "gpt-5-mini")];
     worker_model_policy := [(txt "deep", txt "gpt-5")];
     max_work_items_per_turn := 2;
     multi_intent_wait_timeout_ms := 10000;
     foreground_search_timeout_seconds := Finite 15;
     router_timeout_seconds := Finite 12;
     provider_timeout_seconds := Finite 75;
     shutdown_grace_seconds := Finite 2;
     max_citations := 12;
     pending_dialogue_timeout_seconds := Finite 30;
     stt_service := txt "websocket";
     stt_provider := txt "local";
     stt_model := txt "nova-3-general";
     stt_language := txt "en";
     stt_endpoint := None;
     smart_turn_timeout_seconds := Finite 5;
     smart_turn_complete_grace_seconds := Finite (3 # 2);
     speech_start_timeout_seconds := Finite 10;
     speech_transport_grace_seconds := Finite 1;
     tts_endpoint := None;
     tts_provider := txt "local";
     tts_model := txt "sonic-3.5";
     tts_voice_id := txt "azelma";
     bind_host := PStr (txt "127.0.0.1");
     bind_port := 7860;
     known_client_url := PStr (txt "http://127.0.0.1:7860");
     enable_early_ack := true;
     enable_background_status := true;
     enable_autoplay_policy := true;
     early_ack_text := txt "One moment while I look into that.";
     release_version := DEFAULT_RELEASE_VERSION;
     source_commit := None;
     source_tree_hash := None;
     deployed_at_utc := None;
     router_reasoning_effort_policy := [];
     worker_reasoning_effort_policy := [] |}.

(** ** Validation *)

(** [if bad: raise ConfigError(msg)] *)
Definition guard (bad : bool) (msg : string) : result unit :=
  if bad then Raise (ConfigError msg) else Ret tt.

(** An attribute of [str] on a value that may not be one *)
Definition as_str (v : pyval) : result text :=
  match v with PStr t => Ret t | _ => Raise (OtherException "AttributeError") end.

Definition blank t : bool := bool_decide (strip t = []).

Definition is_loopback_host t : bool :=
  let host := strip_chars [91; 93]%N (strip t) in
  if lower_is host "localhost" then true
  else match ip_is_loopback host with Some b => b | None => false end.

(** [max_us] is the last microsecond of the year 9999. *)
Definition max_us : Z := 315537897600 * 1000000 - 1.

Definition parse_utc_timestamp t : result Z :=
  let t := strip t in
  let t := match last t with
           | Some c => if ((c =? 90) || (c =? 122))%N then take (pred (length t)) t ++ txt "+00:00" else t
           | None => t
           end in
  match fromisoformat t with
  | None => Raise (ValueError "Invalid isoformat string")
  | Some d =>
      match utc_offset_us d with
      | None => Ret (local_us d)
      | Some o =>
          let u := (local_us d - o)%Z in
          if ((u <? 0) || (max_us <? u))%Z then Raise overflow_error else Ret u
      end
  end.

Definition models (value : dict text text) : result (dict text text) :=
  if bool_decide (value = []) || existsb (λ p, bool_decide (p.1 = []) || bool_decide (p.2 = [])) value
  then Raise (ConfigError "model policies must contain non-empty labels and model IDs")
  else Ret value.

Fixpoint check_efforts (value : dict text text) : result unit :=
  match value with
  | [] => Ret tt
  | (label, effort) :: value' =>
      _ ←? guard (bool_decide (label = [])) "reasoning-effort policies must contain non-empty labels" ;;
      _ ←? guard (negb (bool_decide (effort ∈ VALID_REASONING_EFFORTS))) "unsupported reasoning effort" ;;
      check_efforts value'
  end.

Definition reasoning_efforts (value : dict text text) : result (dict text text) :=
  _ ←? check_efforts value ;; Ret value.

(** [[A-Za-z]{2,3}(?:[-_][A-Za-z]{2,4})?], in full *)
Fixpoint alpha_run t : nat * text :=
  match t with
  | c :: t' => if ascii_alpha c then let (n, rest) := alpha_run t' in (S n, rest) else (O, t)
  | [] => (O, [])
  end.

Definition language_code t : bool :=
  let (n, rest) := alpha_run t in
  (2 <=? n)%nat && (n <=? 3)%nat &&
  match rest with
  | [] => true
  | c :: rest' =>
      let (k, rest'') := alpha_run rest' in
      ((c =? 45) || (c =? 95))%N && (2 <=? k)%nat && (k <=? 4)%nat && bool_decide (rest'' = [])
  end.

Definition finite_positive (f : pyfloat) : bool := isfinite f && negb (float_le f (Finite 0)).

Definition check_durations c : result unit :=
  _ ←? guard (negb (finite_positive (foreground_search_timeout_seconds c)))
         "foreground_search_timeout_seconds must be finite and positive" ;;
  _ ←? guard (negb (finite_positive (router_timeout_seconds c)))
         "router_timeout_seconds must be finite and positive" ;;
  _ ←? guard (negb (finite_positive (provider_timeout_seconds c)))
         "provider_timeout_seconds must be finite and positive" ;;
  _ ←? guard (negb (finite_positive (shutdown_grace_seconds c)))
         "shutdown_grace_seconds must be finite and positive" ;;
  _ ←? guard (negb (finite_positive (speech_start_timeout_seconds c)))
         "speech_start_timeout_seconds must be finite and positive" ;;
  guard (negb (finite_positive (speech_transport_grace_seconds c)))
    "speech_transport_grace_seconds must be finite and positive".

Definition check_limits c : result unit :=
  _ ←? guard (negb (bool_decide (max_work_items_per_turn c ∈ [2; 3; 4]%Z)))
         "max_work_items_per_turn must be 2, 3, or 4" ;;
  _ ←? guard (multi_intent_wait_timeout_ms c <=? 0)%Z "multi_intent_wait_timeout_ms must be positive" ;;
  _ ←? check_durations c ;;
  _ ←? guard (float_le (provider_timeout_seconds c) (foreground_search_timeout_seconds c))
         "provider_timeout_seconds must exceed foreground_search_timeout_seconds" ;;
  _ ←? guard (float_lt (provider_timeout_seconds c) (router_timeout_seconds c))
         "router_timeout_seconds must not exceed provider_timeout_seconds" ;;
  _ ←? guard (negb ((1 <=? max_citations c) && (max_citations c <=? 50))%Z)
         "max_citations must be between 1 and 50" ;;
  guard (negb (finite_positive (pending_dialogue_timeout_seconds c)))
    "pending_dialogue_timeout_seconds must be finite and positive".

Definition check_network c : result unit :=
  host ←? as_str (bind_host c) ;;
  _ ←? guard (blank host) "bind_host must not be empty" ;;
  _ ←? guard (negb (is_loopback_host host))
         "bind_host must be loopback; remote deployment requires an authenticated transport" ;;
  _ ←? guard (negb ((1 <=? bind_port c) && (bind_port c <=? 65535))%Z)
         "bind_port must be between 1 and 65535" ;;
  url ←? as_str (known_client_url c) ;;
  parsed ←? urlparse url ;;
  _ ←? guard (negb (bool_decide (parsed.1 ∈ [txt "http"; txt "https"])) || bool_decide (parsed.2 = []))
         "known_client_url must be an absolute http(s) URL" ;;
  name ←? as_str (openai_api_key_env c) ;;
  guard (negb (isidentifier name) || negb (isupper name))
    "openai_api_key_env must be an uppercase environment variable name".

Definition check_speech c : result unit :=
  _ ←? guard (negb (bool_decide (stt_service c = txt "websocket"))) "stt_service must be websocket" ;;
  _ ←? guard (negb (bool_decide (stt_provider c ∈ [txt "local"; txt "deepgram"])))
         "stt_provider must be local or deepgram" ;;
  _ ←? guard (blank (stt_model c)) "stt_model must not be empty" ;;
  _ ←? guard (negb (bool_decide (stt_language c = txt "auto")) && negb (language_code (stt_language c)))
         "stt_language must be auto or an ISO language code" ;;
  _ ←? guard (negb (float_lt (Finite 0) (smart_turn_timeout_seconds c)
                    && float_le (smart_turn_timeout_seconds c) (Finite 60)))
         "smart_turn_timeout_seconds must be between 0 and 60" ;;
  _ ←? guard (negb (float_lt (Finite 0) (smart_turn_complete_grace_seconds c)
                    && float_le (smart_turn_complete_grace_seconds c) (Finite 10)))
         "smart_turn_complete_grace_seconds must be between 0 and 10" ;;
  _ ←? guard (negb (bool_decide (tts_provider c ∈ [txt "local"; txt "cartesia"])))
         "tts_provider must be local or cartesia" ;;
  _ ←? guard (blank (tts_model c)) "tts_model must not be empty" ;;
  guard (blank (tts_voice_id c)) "tts_voice_id must not be empty".

Definition check_release c : result unit :=
  _ ←? guard (blank (early_ack_text c)) "early_ack_text must not be empty" ;;
  _ ←? guard (blank (release_version c)) "release_version must not be empty" ;;
  match deployed_at_utc c with
  | None => Ret tt
  | Some at_utc =>
      match parse_utc_timestamp at_utc with
      | Ret _ => Ret tt
      | Raise (ValueError _) => Raise (ConfigError "deployed_at_utc must be an ISO-8601 UTC timestamp")
      | Raise e => Raise e
      end
  end.

(** The labels of a policy that another does not have *)
Definition unknown_labels (efforts policy : dict text text) : list text :=
  filter (λ label, label ∉ dict_keys policy) (dict_keys efforts).

Definition check_policies c : result unit :=
  _ ←? models (router_model_policy c) ;;
  _ ←? models (worker_model_policy c) ;;
  _ ←? reasoning_efforts (router_reasoning_effort_policy c) ;;
  _ ←? reasoning_efforts (worker_reasoning_effort_policy c) ;;
  _ ←? guard (negb (bool_decide (unknown_labels (router_reasoning_effort_policy c) (router_model_policy c) = [])))
         "router_reasoning_effort_policy has labels not present in router_model_policy" ;;
  guard (negb (bool_decide (unknown_labels (worker_reasoning_effort_policy c) (worker_model_policy c) = [])))
    "worker_reasoning_effort_policy has labels not present in worker_model_policy".

Definition post_init c : result Config :=
  _ ←? check_limits c ;;
  _ ←? check_network c ;;
  _ ←? check_speech c ;;
  _ ←? check_release c ;;
  _ ←? check_policies c ;;
  Ret c.

(** ** Accessors *)

Definition resolve (policy : dict text text) t (msg : string) : result text :=
  match dict_get t policy with Some model => Ret model | None => Raise (ConfigError msg) end.

Definition resolve_router_model c t := resolve (router_model_policy c) t "unknown router model policy".
Definition resolve_worker_model c t := resolve (worker_model_policy c) t "unknown worker model policy".

Definition resolve_router_reasoning_effort c t : result (option text) :=
  if dict_mem t (router_model_policy c) then Ret (dict_get t (router_reasoning_effort_policy c))
  else Raise (ConfigError "unknown router model policy").

Definition resolve_worker_reasoning_effort c t : result (option text) :=
  if dict_mem t (worker_model_policy c) then Ret (dict_get t (worker_reasoning_effort_policy c))
  else Raise (ConfigError "unknown worker model policy").

(** [dataclasses.replace] runs the validation again. *)
Definition with_discovered_endpoint c (service transport address : text) : result Config :=
  if bool_decide (service = txt "stt") then post_init (c <| stt_endpoint := Some (transport, address) |>)
  else if bool_decide (service = txt "tts") then post_init (c <| tts_endpoint := Some (transport, address) |>)
  else Raise (ConfigError "unknown service").

Definition default_reasoning_effort_for_model (model : text) : option text :=
  match prefix_of_text (txt "gpt-5") model with Some _ => Some (txt "minimal") | None => None end.

(** ** Endpoints *)

Definition expand_socket t : result text :=
  let address := strip (expanduser t) in
  if bool_decide (address = []) then Raise (ConfigError "service socket path must not be empty")
  else Ret address.

Definition parse_endpoint t : result (text * text) :=
  match split_once (txt "://") t with
  | None => Raise (ConfigError "service endpoints must use transport://address form")
  | Some (transport, address) =>
      if negb (bool_decide (transport ∈ [txt "uds"; txt "tcp"; txt "ws"; txt "wss"])) || bool_decide (address = [])
      then Raise (ConfigError "unsupported or empty service endpoint")
      else if bool_decide (transport = txt "uds")
      then address ←? expand_socket address ;; Ret (transport, address)
      else Ret (transport, address)
  end.

(** [values[key]] *)
Definition item (values : cfg_values) (key : string) : result pyval :=
  match dict_get (txt key) values with Some v => Ret v | None => Raise KeyError end.

(** [str(values.get(key))] *)
Definition get_str (values : cfg_values) (key : string) : text :=
  match dict_get (txt key) values with Some v => py_str v | None => txt "None" end.

Definition endpoint_at (values : cfg_values) (key : string) : result (option (text * text)) :=
  v ←? item values key ;; e ←? parse_endpoint (py_str v) ;; Ret (Some e).

Definition socket_at (values : cfg_values) (key : string) : result (option (text * text)) :=
  v ←? item values key ;; address ←? expand_socket (py_str v) ;; Ret (Some (txt "uds", address)).

Definition member_is (member : option string) (name : string) : bool := bool_decide (member = Some name).

Definition build_stt_endpoint (member : option string) (values : cfg_values) : result (option (text * text)) :=
  if member_is member "endpoint" then endpoint_at values "WEBSEARCH_STT_ENDPOINT"
  else if member_is member "socket" then socket_at values "WEBSEARCH_STT_WS_SOCKET"
  else Ret None.

Definition build_tts_endpoint (member : option string) (values : cfg_values) : result (option (text * text)) :=
  if member_is member "endpoint" then endpoint_at values "WEBSEARCH_TTS_ENDPOINT"
  else if member_is member "uri" then endpoint_at values "WEBSEARCH_TTS_WS_URI"
  else if member_is member "socket" then socket_at values "WEBSEARCH_TTS_WS_SOCKET"
  else if member_is member "host_port" then
    match int_of_text (get_str values "WEBSEARCH_TTS_WS_PORT") with
    | Raise _ => Raise (ConfigError "WEBSEARCH_TTS_WS_PORT must be an integer")
    | Ret port =>
        if negb ((1 <=? port) && (port <=? 65535))%Z
        then Raise (ConfigError "WEBSEARCH_TTS_WS_PORT must be between 1 and 65535")
        else Ret (Some (txt "ws", get_str values "WEBSEARCH_TTS_WS_HOST" ++ 58%N :: decimal_Z port))
    end
  else Ret None.

End config.
