(* ===== verification/ConfigLoad.v ===== *)
(** [load_config] and [_load_toml_values] of [src/server/config.py]: the TOML
    document, the env file and the environment become a validated [Config].

    Reading the files is left out: the arguments are what they contain. *)

From S2P Require Import Prelude PyDict PyText PyValue ConfigLayers Config.

(** What [config_file] names: nothing that exists, a file that is not TOML, or
    a document. *)
Inductive toml_file :=
| NoToml
| InvalidToml
| TomlDocument (document : dict text pyval).

(** [env_file]: absent, the text of a file, or a mapping; an empty mapping
    counts as absent. *)
Inductive env_source :=
| NoEnvFile
| EnvText (content : text)
| EnvMapping (m : dict text text).

Section load.
Context `{PyRuntime} `{HostEnv}.
Implicit Types (values : cfg_values) (c : Config).

(** ** The TOML document *)

(** [document.get(name, {})]; a section that is not a table is refused *)
Definition toml_section (document : cfg_values) (name : string) : result cfg_values :=
  match dict_get (txt name) document with
  | None => Ret []
  | Some (PTable d) => Ret d
  | Some _ =>
      Raise (ConfigError "[stt], [tts], [turn], [models], and [features] config sections must be tables")
  end.

(** [if key in section: values[target] = section[key]] *)
Definition copy_key (section : cfg_values) (key target : string) values : cfg_values :=
  match dict_get (txt key) section with Some v => dict_set (txt target) v values | None => values end.

(** [for key in keys: if key in section: values[f"WEBSEARCH_{key.upper()}"] = section[key]] *)
Definition copy_keys (section : cfg_values) (keys : list string) values : cfg_values :=
  foldl (λ values key,
           match dict_get (txt key) section with
           | Some v => dict_set (txt "WEBSEARCH_" ++ upper (txt key)) v values
           | None => values
           end) values keys.

Definition load_toml_values (document : cfg_values) : result cfg_values :=
  stt ←? toml_section document "stt" ;;
  tts ←? toml_section document "tts" ;;
  turn ←? toml_section document "turn" ;;
  models ←? toml_section document "models" ;;
  features ←? toml_section document "features" ;;
  let values := [] in
  let values := copy_keys features ["enable_early_ack"; "enable_background_status"; "enable_autoplay_policy"] values in
  let values := copy_key features "early_ack_text" "WEBSEARCH_EARLY_ACK_TEXT" values in
  let values := copy_key features "release_version" "WEBSEARCH_RELEASE_VERSION" values in
  let values := copy_key stt "stt_service" "WEBSEARCH_STT_SERVICE" values in
  let values := copy_key stt "provider" "WEBSEARCH_STT_PROVIDER" values in
  let values := copy_key stt "model" "WEBSEARCH_STT_MODEL" values in
  let values := copy_key stt "stt_language" "WEBSEARCH_STT_LANGUAGE" values in
  let values := copy_key stt "stt_ws_socket" "WEBSEARCH_STT_WS_SOCKET" values in
  let values := copy_key turn "smart_turn_timeout_seconds" "WEBSEARCH_SMART_TURN_TIMEOUT_SECONDS" values in
  let values := copy_key turn "smart_turn_complete_grace_seconds" "WEBSEARCH_SMART_TURN_COMPLETE_GRACE_SECONDS" values in
  let values := copy_key turn "speech_start_timeout_seconds" "WEBSEARCH_SPEECH_START_TIMEOUT_SECONDS" values in
  let values := copy_key turn "speech_transport_grace_seconds" "WEBSEARCH_SPEECH_TRANSPORT_GRACE_SECONDS" values in
  let values := copy_key turn "pending_dialogue_timeout_seconds" "WEBSEARCH_PENDING_DIALOGUE_TIMEOUT_SECONDS" values in
  let values := copy_keys turn
                  ["foreground_search_timeout_seconds"; "router_timeout_seconds"; "provider_timeout_seconds";
                   "shutdown_grace_seconds"; "max_citations"] values in
  let values := copy_key models "router_model" "WEBSEARCH_ROUTER_MODEL" values in
  let values := copy_key models "worker_model" "WEBSEARCH_WORKER_MODEL" values in
  let values := copy_key models "router_reasoning_effort" "WEBSEARCH_ROUTER_REASONING_EFFORT" values in
  let values := copy_key models "worker_reasoning_effort" "WEBSEARCH_WORKER_REASONING_EFFORT" values in
  let values := copy_keys tts ["tts_ws_uri"; "tts_ws_socket"; "tts_ws_host"; "tts_ws_port"] values in
  let values := copy_key tts "provider" "WEBSEARCH_TTS_PROVIDER" values in
  let values := copy_key tts "model" "WEBSEARCH_TTS_MODEL" values in
  let values := copy_key tts "voice_id" "WEBSEARCH_TTS_VOICE_ID" values in
  Ret values.

(** ** The three layers *)

Definition env_line (acc : cfg_values) (line : text) : cfg_values :=
  if negb (bool_decide (strip line = []))
     && negb (match lstrip line with c :: _ => (c =? 35)%N | [] => false end)
  then match split_once [61]%N line with
       | Some (key, value) => dict_set (strip key) (PStr (strip_chars [34; 39]%N (strip value))) acc
       | None => acc
       end
  else acc.

Definition env_file_layer (source : env_source) : list (Z * cfg_values) :=
  match source with
  | NoEnvFile => []
  | EnvText content => [(1%Z, foldl env_line [] (splitlines content))]
  | EnvMapping [] => []
  | EnvMapping m => [(1%Z, prod_map id PStr <$> m)]
  end.

Definition toml_layer (config_file : toml_file) : result cfg_values :=
  toml_values ←? match config_file with
                 | NoToml => Ret []
                 | InvalidToml => Raise (ConfigError "invalid TOML config")
                 | TomlDocument document => Ret document
                 end ;;
  load_toml_values toml_values.

Definition layer_maps_of (toml_backed : cfg_values) (env_file : env_source) (env : dict text text) :
  list (Z * cfg_values) :=
  (0%Z, toml_backed) :: env_file_layer env_file ++ [(2%Z, prod_map id PStr <$> env)].

Definition merged (layer_maps : list (Z * cfg_values)) : cfg_values :=
  let (values, layers) := foldl apply_layer ([], []) layer_maps in
  clear_inherited_reasoning_effort values layers.

(** ** From values to fields *)

(** A step of [load_config] that may set a keyword argument *)
Abbreviation step := (Config → result Config) (only parsing).

Definition run_steps (steps : list step) c : result Config :=
  foldl (λ acc s, c ←? acc ;; s c) (Ret c) steps.

Definition set_alias values (row : alias_field * list (string * text)) : step := λ c,
  let (field_name, alias_members) := row in
  match winning_alias_key values alias_members with
  | None => Ret c
  | Some alias_key =>
      let v := dict_get alias_key values in
      Ret match field_name with
          | OpenaiApiKey => c <| openai_api_key := v |>
          | DeepgramApiKey => c <| deepgram_api_key := v |>
          | CartesiaApiKey => c <| cartesia_api_key := v |>
          | CartesiaVoiceId => c <| cartesia_voice_id := v |>
          end
  end.

(** [try: kwargs[field] = convert(values[name]) except caught: raise ConfigError] *)
Definition set_converted {A} values (convert : pyval → result A) (caught : exn → bool) (msg name : string)
    (set : A → Config → Config) : step := λ c,
  match dict_get (txt name) values with
  | None => Ret c
  | Some raw =>
      match convert raw with
      | Ret a => Ret (set a c)
      | Raise e => Raise (if caught e then ConfigError (name +:+ msg) else e)
      end
  end.

(** [except (TypeError, ValueError)] and [except ValueError] *)
Definition type_or_value (e : exn) : bool :=
  match e with TypeError _ | ValueError _ | ConfigError _ => true | _ => false end.
Definition value_only (e : exn) : bool := match e with ValueError _ | ConfigError _ => true | _ => false end.

Definition set_int values := set_converted values int_of type_or_value " must be an integer".
Definition set_float values := set_converted values float_of type_or_value " must be a number".

(** [if raw := values.get(name): kwargs[field] = f(raw)] *)
Definition set_truthy values (name : string) (set : pyval → Config → Config) : step := λ c,
  match dict_get (txt name) values with
  | Some raw => Ret (if truthy raw then set raw c else c)
  | None => Ret c
  end.

Definition set_text values (name : string) (set : text → Config → Config) : step :=
  set_truthy values name (λ raw, set (py_str raw)).

(** [if name in values: kwargs[field] = values[name]] *)
Definition set_raw values (name : string) (set : pyval → Config → Config) : step := λ c,
  match dict_get (txt name) values with Some raw => Ret (set raw c) | None => Ret c end.

Definition set_bool values (name : string) (set : bool → Config → Config) : step := λ c,
  match dict_get (txt name) values with
  | Some raw => b ←? parse_strict_bool raw name ;; Ret (set b c)
  | None => Ret c
  end.

Definition set_string values (name : string) (set : text → Config → Config) : step := λ c,
  match dict_get (txt name) values with
  | Some (PStr t) => Ret (set t c)
  | Some _ => Raise (ConfigError (name +:+ " must be a string"))
  | None => Ret c
  end.

(** The labels the [Config] under construction registers; the default policies
    are those of the fields. *)
Definition registered_policy_labels (policy : dict text text) : list text := dict_keys policy.

Definition effort_policy (raw : pyval) (labels : list text) : dict text text :=
  foldl (λ acc label, dict_set label (py_str raw) acc) [] labels.

(** [str(values.get("WEBSEARCH_OPENAI_API_KEY_ENV") or _DEFAULT_OPENAI_KEY_ENV)] *)
Definition openai_key_name values : text :=
  match dict_get (txt "WEBSEARCH_OPENAI_API_KEY_ENV") values with
  | Some v => if truthy v then py_str v else DEFAULT_OPENAI_KEY_ENV
  | None => DEFAULT_OPENAI_KEY_ENV
  end.

Definition credential_steps values : list step := set_alias values <$> alias_families (openai_key_name values).

Definition number_steps values : list step :=
  [set_int values "WEBSEARCH_MAX_WORK_ITEMS_PER_TURN" (λ z c, c <| max_work_items_per_turn := z |>);
   set_int values "WEBSEARCH_MULTI_INTENT_WAIT_TIMEOUT_MS" (λ z c, c <| multi_intent_wait_timeout_ms := z |>);
   set_int values "WEBSEARCH_MAX_CITATIONS" (λ z c, c <| max_citations := z |>);
   set_float values "WEBSEARCH_FOREGROUND_SEARCH_TIMEOUT_SECONDS" (λ f c, c <| foreground_search_timeout_seconds := f |>);
   set_float values "WEBSEARCH_ROUTER_TIMEOUT_SECONDS" (λ f c, c <| router_timeout_seconds := f |>);
   set_float values "WEBSEARCH_PROVIDER_TIMEOUT_SECONDS" (λ f c, c <| provider_timeout_seconds := f |>);
   set_float values "WEBSEARCH_SHUTDOWN_GRACE_SECONDS" (λ f c, c <| shutdown_grace_seconds := f |>);
   set_float values "WEBSEARCH_PENDING_DIALOGUE_TIMEOUT_SECONDS" (λ f c, c <| pending_dialogue_timeout_seconds := f |>)].

Definition speech_steps values : list step :=
  [set_text values "WEBSEARCH_STT_SERVICE" (λ t c, c <| stt_service := t |>);
   set_text values "WEBSEARCH_STT_PROVIDER" (λ t c, c <| stt_provider := t |>);
   set_text values "WEBSEARCH_STT_MODEL" (λ t c, c <| stt_model := t |>);
   set_text values "WEBSEARCH_STT_LANGUAGE" (λ t c, c <| stt_language := t |>);
   set_float values "WEBSEARCH_SMART_TURN_TIMEOUT_SECONDS" (λ f c, c <| smart_turn_timeout_seconds := f |>);
   set_float values "WEBSEARCH_SMART_TURN_COMPLETE_GRACE_SECONDS" (λ f c, c <| smart_turn_complete_grace_seconds := f |>);
   set_float values "WEBSEARCH_SPEECH_START_TIMEOUT_SECONDS" (λ f c, c <| speech_start_timeout_seconds := f |>);
   set_float values "WEBSEARCH_SPEECH_TRANSPORT_GRACE_SECONDS" (λ f c, c <| speech_transport_grace_seconds := f |>);
   set_text values "WEBSEARCH_TTS_VOICE_ID" (λ t c, c <| tts_voice_id := t |>);
   set_text values "WEBSEARCH_TTS_PROVIDER" (λ t c, c <| tts_provider := t |>);
   set_text values "WEBSEARCH_TTS_MODEL" (λ t c, c <| tts_model := t |>)].

Definition network_steps values : list step :=
  [set_raw values "WEBSEARCH_BIND_HOST" (λ v c, c <| bind_host := v |>);
   set_converted values int_of value_only " must be an integer" "WEBSEARCH_BIND_PORT" (λ z c, c <| bind_port := z |>);
   set_raw values "WEBSEARCH_KNOWN_CLIENT_URL" (λ v c, c <| known_client_url := v |>)].

Definition feature_steps values : list step :=
  [set_bool values "WEBSEARCH_ENABLE_EARLY_ACK" (λ b c, c <| enable_early_ack := b |>);
   set_bool values "WEBSEARCH_ENABLE_BACKGROUND_STATUS" (λ b c, c <| enable_background_status := b |>);
   set_bool values "WEBSEARCH_ENABLE_AUTOPLAY_POLICY" (λ b c, c <| enable_autoplay_policy := b |>);
   set_string values "WEBSEARCH_EARLY_ACK_TEXT" (λ t c, c <| early_ack_text := t |>);
   set_string values "WEBSEARCH_RELEASE_VERSION" (λ t c, c <| release_version := t |>);
   set_string values "PIPECAT_SOURCE_COMMIT" (λ t c, c <| source_commit := Some t |>);
   set_string values "PIPECAT_SOURCE_TREE_HASH" (λ t c, c <| source_tree_hash := Some t |>);
   set_string values "PIPECAT_DEPLOYED_AT_UTC" (λ t c, c <| deployed_at_utc := Some t |>)].

Definition model_steps values : list step :=
  [set_truthy values "WEBSEARCH_OPENAI_API_KEY_ENV" (λ v c, c <| openai_api_key_env := v |>);
   set_text values "WEBSEARCH_ROUTER_MODEL" (λ t c, c <| router_model_policy := [(txt "fast", t)] |>);
   set_text values "WEBSEARCH_WORKER_MODEL" (λ t c, c <| worker_model_policy := [(txt "deep", t)] |>);
   set_truthy values "WEBSEARCH_ROUTER_REASONING_EFFORT"
     (λ v c, c <| router_reasoning_effort_policy := effort_policy v (registered_policy_labels (router_model_policy c)) |>);
   set_truthy values "WEBSEARCH_WORKER_REASONING_EFFORT"
     (λ v c, c <| worker_reasoning_effort_policy := effort_policy v (registered_policy_labels (worker_model_policy c)) |>)].

(** ** Endpoints *)

(** [_winning_family_member] with the layers it is given, for one family *)
Definition resolve_family values (layer_maps : list (Z * cfg_values)) (members : family) : option string * layer_numbers :=
  let layers := family_layers values layer_maps (family_keys members) in
  (winning_family_member values layers members, layers).

(** Half a host and port pair, strictly above the member that wins *)
Definition half_pair_wins values (layer_maps : list (Z * cfg_values)) : bool :=
  let (winner, layers) := resolve_family values layer_maps TTS_ENDPOINT_MEMBERS in
  let host := txt "WEBSEARCH_TTS_WS_HOST" in
  let port := txt "WEBSEARCH_TTS_WS_PORT" in
  xorb (family_key_set (dict_get host values)) (family_key_set (dict_get port values))
  && (winning_family_layer layers TTS_ENDPOINT_MEMBERS winner
      <? Z.max (layer_of layers host) (layer_of layers port))%Z.

Definition endpoint_step values (layer_maps : list (Z * cfg_values)) : step := λ c,
  if half_pair_wins values layer_maps
  then Raise (ConfigError "WEBSEARCH_TTS_WS_HOST and WEBSEARCH_TTS_WS_PORT must be set together")
  else
    stt ←? build_stt_endpoint (resolve_family values layer_maps STT_ENDPOINT_MEMBERS).1 values ;;
    tts ←? build_tts_endpoint (resolve_family values layer_maps TTS_ENDPOINT_MEMBERS).1 values ;;
    let c := match stt with Some e => c <| stt_endpoint := Some e |> | None => c end in
    let c := match tts with Some e => c <| tts_endpoint := Some e |> | None => c end in
    Ret c.

Definition resolve_steps (layer_maps : list (Z * cfg_values)) : list step :=
  let values := merged layer_maps in
  credential_steps values ++ number_steps values ++ speech_steps values ++ network_steps values
  ++ feature_steps values ++ model_steps values ++ [endpoint_step values layer_maps].

Definition load_layers (layer_maps : list (Z * cfg_values)) : result Config :=
  c ←? run_steps (resolve_steps layer_maps) default_config ;; post_init c.

Definition load_config (config_file : toml_file) (env_file : env_source) (env : dict text text) : result Config :=
  toml_backed ←? toml_layer config_file ;;
  load_layers (layer_maps_of toml_backed env_file env).

End load.
