(* ===== verification/ConfigFacts.v ===== *)
(** Facts about the configuration: how the layers combine, which endpoint and
    which credential win, and what a loaded configuration guarantees. *)

From S2P Require Import Prelude PyDict PyText PyValue ConfigLayers Config ConfigLoad.

(** Decide the comparisons of literal keys. *)
Ltac key_tests :=
  repeat match goal with
    | |- context [bool_decide (txt ?a = txt ?b)] =>
        let r := eval vm_compute in (bool_decide (txt a = txt b)) in
        change (bool_decide (txt a = txt b)) with r
    end; cbn [andb].

Lemma Ret_inj {A} (a b : A) : Ret a = Ret b → a = b.
Proof. by intros [= ->]. Qed.

Section facts.
Context `{PyRuntime} `{HostEnv}.
Implicit Types (values m : cfg_values) (layers : layer_numbers) (lms : list (Z * cfg_values)) (c : Config) (k : text).

(** ** One layer *)

(** What a layer says about a key: an empty role setting says nothing. *)
Definition says m k : option pyval :=
  match dict_get k m with
  | Some v => if bool_decide (k ∈ EMPTY_MEANS_ABSENT_KEYS) && negb (effectively_set v) then None else Some v
  | None => None
  end.

Definition over {A} (new old : option A) : option A := match new with Some _ => new | None => old end.

Lemma merge_layer_get m values k :
  dict_wf m → dict_get k (foldl merge_item values m) = over (says m k) (dict_get k values).
Proof.
  unfold dict_wf, dict_keys. revert values. induction m as [|[j v] m IH]; intros values Hm; [done|].
  csimpl. apply NoDup_cons in Hm as [Hj Hm]. rewrite IH by done. unfold says. cbn [dict_get].
  destruct (decide (k = j)) as [->|Hne].
  - assert (dict_get j m = None) as E by by apply dict_get_None. rewrite E. unfold merge_item. cbn [over].
    destruct (bool_decide (j ∈ EMPTY_MEANS_ABSENT_KEYS) && negb (effectively_set v)); [done|].
    by rewrite dict_get_set_eq.
  - f_equal. unfold merge_item. case_match; [done|]. by rewrite dict_get_set_ne by congruence.
Qed.

(** What a layer records for a role key *)
Definition records m k (incumbent : option pyval) : bool :=
  match dict_get k m with
  | Some v =>
      effectively_set v
      && negb (bool_decide (k ∈ ROLE_MODEL_KEYS)
               && match incumbent with Some u => py_eq v u | None => false end)
  | None => false
  end.

Lemma record_keys_get m l inc k keys layers :
  dict_get k (foldl (record_key m l inc) layers keys)
  = if bool_decide (k ∈ keys) && records m k (mjoin (dict_get k inc)) then Some l else dict_get k layers.
Proof.
  revert layers. induction keys as [|j keys IH]; intros layers; [done|]. cbn [foldl]. rewrite IH.
  assert (bool_decide (k ∈ j :: keys) = bool_decide (k = j) || bool_decide (k ∈ keys)) as ->.
  { rewrite <- bool_decide_or. apply bool_decide_ext, elem_of_cons. }
  assert (dict_get k (record_key m l inc layers j)
          = if bool_decide (k = j) && records m k (mjoin (dict_get k inc)) then Some l else dict_get k layers) as E.
  { unfold record_key, records. destruct (decide (k = j)) as [->|Hne].
    - rewrite (bool_decide_true (j = j)) by done. destruct (dict_get j m) as [v|]; [|done].
      destruct (effectively_set v); [|done]. cbn [negb andb].
      destruct (dict_get j inc) as [[u|]|]; cbn [mjoin option_join]; unfold id;
        destruct (bool_decide (j ∈ ROLE_MODEL_KEYS)); cbn [andb negb]; rewrite ?dict_get_set_eq; try done.
      destruct (py_eq v u); cbn [negb]; by rewrite ?dict_get_set_eq.
    - rewrite (bool_decide_false (k = j)) by done. cbn [andb]. repeat (case_match; try done).
      all: by rewrite dict_get_set_ne by congruence. }
  rewrite E. destruct (records m k _); rewrite ?andb_false_r, ?andb_true_r; [|done].
  destruct (bool_decide (k = j)), (bool_decide (k ∈ keys)); done.
Qed.

(** ** The layers together *)

(** The last layer that says something about the key *)
Definition effective (ms : list cfg_values) k : option pyval := foldl (λ acc m, over (says m k) acc) None ms.

(** The specification of a role's settings, layer by layer: a layer that names
    a model replaces it; a layer that names an effort replaces it; a layer that
    changes the model and names no effort drops the one inherited. *)
Definition changes (new old : option pyval) : bool :=
  match new, old with
  | Some v, Some u => negb (py_eq v u)
  | Some _, None => true
  | None, _ => false
  end.

Definition role_step (model_key effort_key : text) (acc : option pyval * option pyval) m : option pyval * option pyval :=
  let (model, effort) := acc in
  (over (says m model_key) model,
   match says m effort_key with
   | Some e => Some e
   | None => if changes (says m model_key) model then None else effort
   end).

Definition role_settings (model_key effort_key : text) (ms : list cfg_values) : option pyval * option pyval :=
  foldl (role_step model_key effort_key) (None, None) ms.

(** Layers come with increasing numbers, from zero. *)
Fixpoint increasing (from : Z) lms : Prop :=
  match lms with [] => True | (l, m) :: lms' => (from <= l)%Z ∧ dict_wf m ∧ increasing (l + 1) lms' end.

Lemma model_key_facts model_key effort_key :
  (model_key, effort_key) ∈ ROLE_MODEL_EFFORT_KEYS →
  (model_key ∈ ROLE_MODEL_KEYS) ∧ (model_key ∈ PROVENANCE_KEYS) ∧ (model_key ∈ EMPTY_MEANS_ABSENT_KEYS)
  ∧ (effort_key ∉ ROLE_MODEL_KEYS) ∧ (effort_key ∈ PROVENANCE_KEYS) ∧ (effort_key ∈ EMPTY_MEANS_ABSENT_KEYS).
Proof.
  intros [E|[E|[]%not_elem_of_nil]%elem_of_cons]%elem_of_cons; injection E as -> ->;
    split_and!; apply (bool_decide_unpack _); vm_compute; exact I.
Qed.

Lemma incumbent_get values k :
  k ∈ ROLE_MODEL_KEYS → dict_get k ((λ key, (key, dict_get key values)) <$> ROLE_MODEL_KEYS) = Some (dict_get k values).
Proof.
  generalize ROLE_MODEL_KEYS. intros keys. induction keys as [|j keys IH]; [by intros ?%not_elem_of_nil|].
  intros Hk. csimpl. case_decide as Hkj; [by subst|]. apply IH. apply elem_of_cons in Hk. naive_solver.
Qed.

Lemma records_model m k u : k ∈ ROLE_MODEL_KEYS → k ∈ EMPTY_MEANS_ABSENT_KEYS → records m k u = changes (says m k) u.
Proof.
  intros Hk He. unfold records, says. rewrite !bool_decide_true by done. destruct (dict_get k m) as [v|]; [|done].
  cbn [andb]. destruct (effectively_set v); [|done]. cbn [negb andb]. by destruct u.
Qed.

Lemma records_effort m k u : k ∉ ROLE_MODEL_KEYS → k ∈ EMPTY_MEANS_ABSENT_KEYS → records m k u = bool_decide (is_Some (says m k)).
Proof.
  intros Hk He. unfold records, says. rewrite (bool_decide_false (k ∈ ROLE_MODEL_KEYS)), (bool_decide_true (k ∈ EMPTY_MEANS_ABSENT_KEYS)) by done.
  destruct (dict_get k m) as [v|]; [|done]. cbn [andb negb]. by destruct (effectively_set v).
Qed.

Lemma apply_layers_role model_key effort_key lms from values layers model effort :
  (model_key, effort_key) ∈ ROLE_MODEL_EFFORT_KEYS → increasing from lms →
  (layer_of layers model_key < from)%Z → (layer_of layers effort_key < from)%Z →
  dict_get model_key values = model →
  (if (layer_of layers effort_key <? layer_of layers model_key)%Z then None else dict_get effort_key values) = effort →
  let '(values', layers') := foldl apply_layer (values, layers) lms in
  let '(model', effort') := foldl (role_step model_key effort_key) (model, effort) lms.*2 in
  dict_get model_key values' = model'
  ∧ (if (layer_of layers' effort_key <? layer_of layers' model_key)%Z then None else dict_get effort_key values') = effort'.
Proof.
  intros Hkeys. pose proof (model_key_facts _ _ Hkeys) as (Hm1 & Hm2 & Hm3 & He1 & He2 & He3).
  revert from values layers model effort. induction lms as [|[l m] lms IH]; intros from values layers model effort Hinc Hlm Hle Hmod Heff.
  { done. }
  destruct Hinc as (Hfrom & Hwf & Hinc). rewrite fmap_cons. cbn [foldl apply_layer role_step snd].
  set (inc := (λ key, (key, dict_get key values)) <$> ROLE_MODEL_KEYS). set (layers1 := record_layer m layers l inc).
  assert (layer_of layers1 model_key = if changes (says m model_key) model then l else layer_of layers model_key) as E1.
  { unfold layer_of, layers1, record_layer. rewrite record_keys_get, bool_decide_true by done. unfold inc.
    rewrite incumbent_get by done. cbn [mjoin option_join]. rewrite records_model by done. cbn [andb]. rewrite Hmod.
    by destruct (changes _ _). }
  assert (layer_of layers1 effort_key = match says m effort_key with Some _ => l | None => layer_of layers effort_key end) as E2.
  { unfold layer_of, layers1, record_layer. rewrite record_keys_get, bool_decide_true by done.
    rewrite records_effort by done. cbn [andb]. by destruct (says m effort_key). }
  apply (IH (l + 1)%Z).
  - done.
  - rewrite E1. destruct (changes _ _); lia.
  - rewrite E2. destruct (says m effort_key); lia.
  - rewrite merge_layer_get by done. by rewrite Hmod.
  - rewrite merge_layer_get, E1, E2 by done. destruct (says m effort_key) as [e|]; cbn [over].
    + rewrite (proj2 (Z.ltb_ge _ _)); [done|]. destruct (changes _ _); lia.
    + destruct (changes _ _); [|done]. by rewrite (proj2 (Z.ltb_lt _ _)) by lia.
Qed.

Lemma clear_pair_get layers values pair k :
  dict_get k (clear_pair layers values pair)
  = if bool_decide (k = pair.2) && (layer_of layers pair.2 <? layer_of layers pair.1)%Z then None else dict_get k values.
Proof.
  destruct pair as [mk ek]. unfold clear_pair. cbn [fst snd]. unfold dict_mem.
  destruct (decide (k = ek)) as [->|Hne].
  - rewrite bool_decide_true by done. cbn [andb]. destruct (dict_get ek values) eqn:E; cbn [andb].
    + destruct (_ <? _)%Z; [|done]. apply dict_get_pop_eq.
    + by destruct (_ <? _)%Z.
  - rewrite bool_decide_false by done. cbn [andb]. case_match; [|done]. by rewrite dict_get_pop_ne by congruence.
Qed.

Lemma merged_role model_key effort_key lms :
  (model_key, effort_key) ∈ ROLE_MODEL_EFFORT_KEYS → increasing 0 lms →
  (dict_get model_key (merged lms), dict_get effort_key (merged lms)) = role_settings model_key effort_key lms.*2.
Proof.
  intros Hkeys Hinc. pose proof (apply_layers_role model_key effort_key lms 0 [] [] None None Hkeys Hinc ltac:(done) ltac:(done) eq_refl eq_refl) as Hr.
  unfold merged, role_settings. destruct (foldl apply_layer ([], []) lms) as [values layers].
  destruct (foldl (role_step _ _) (None, None) lms.*2) as [model effort]. destruct Hr as [Hm He].
  unfold clear_inherited_reasoning_effort, ROLE_MODEL_EFFORT_KEYS in *. cbn [foldl]. rewrite !clear_pair_get. cbn [fst snd].
  apply elem_of_cons in Hkeys as [E|[E|[]%not_elem_of_nil]%elem_of_cons]; injection E as -> ->;
    key_tests; by rewrite Hm, He.
Qed.

(** The other keys: the highest layer that has the key. *)
Lemma merged_other lms k :
  (k ∉ EMPTY_MEANS_ABSENT_KEYS) → increasing 0 lms → dict_get k (merged lms) = effective lms.*2 k.
Proof.
  intros Hk Hinc. unfold merged, effective.
  assert (∀ acc from, increasing from lms →
            dict_get k (foldl apply_layer acc lms).1 = foldl (λ a m, over (says m k) a) (dict_get k acc.1) lms.*2) as E.
  { clear Hinc. induction lms as [|[l m] lms IH]; intros [values layers] from Hinc; [done|].
    destruct Hinc as (_ & Hwf & Hinc). csimpl. rewrite (IH _ _ Hinc). cbn [apply_layer fst]. by rewrite merge_layer_get. }
  specialize (E ([], []) 0%Z Hinc). destruct (foldl apply_layer ([], []) lms) as [values layers]. cbn [fst] in E.
  cbn [dict_get] in E. rewrite <- E.
  unfold clear_inherited_reasoning_effort, ROLE_MODEL_EFFORT_KEYS. cbn [foldl]. rewrite !clear_pair_get. cbn [fst snd].
  rewrite !bool_decide_false; [done| |]; intros ->; apply Hk; apply (bool_decide_unpack _); vm_compute; exact I.
Qed.

(** ** The layers of a load *)

Lemma prod_map_wf (d : dict text text) : dict_wf d → dict_wf ((prod_map id PStr <$> d) : cfg_values).
Proof.
  unfold dict_wf, dict_keys. rewrite <- list_fmap_compose. intros Hd.
  rewrite (list_fmap_ext _ fst); [done|]. by intros i [k v].
Qed.

Lemma copy_key_wf section key target values : dict_wf values → dict_wf (copy_key section key target values).
Proof. intros Hv. unfold copy_key. case_match; [by apply dict_wf_set | done]. Qed.

Lemma copy_keys_wf section keys values : dict_wf values → dict_wf (copy_keys section keys values).
Proof.
  unfold copy_keys. revert values. induction keys as [|key keys IH]; intros values Hv; [done|]. cbn [foldl]. apply IH.
  case_match; [by apply dict_wf_set | done].
Qed.

Lemma load_toml_wf document values : load_toml_values document = Ret values → dict_wf values.
Proof.
  unfold load_toml_values. destruct (toml_section document "stt"); [|done]. destruct (toml_section document "tts"); [|done].
  destruct (toml_section document "turn"); [|done]. destruct (toml_section document "models"); [|done].
  destruct (toml_section document "features"); [|done]. cbn [rbind]. intros <-%Ret_inj.
  repeat (apply copy_key_wf || apply copy_keys_wf). apply dict_wf_nil.
Qed.

Definition env_source_wf (source : env_source) : Prop :=
  match source with EnvMapping d => dict_wf d | _ => True end.

Lemma env_lines_wf lines values : dict_wf values → dict_wf (foldl env_line values lines).
Proof.
  revert values. induction lines as [|l lines IH]; intros values Hv; [done|]. cbn [foldl]. apply IH.
  unfold env_line. repeat case_match; first [done | by apply dict_wf_set].
Qed.

Lemma layer_maps_increasing config_file values env_file (env : dict text text) :
  toml_layer config_file = Ret values → env_source_wf env_file → dict_wf env →
  increasing 0 (layer_maps_of values env_file env).
Proof.
  intros Ht Hf He. assert (dict_wf values) as Hv by (destruct config_file; [|done|]; by apply load_toml_wf in Ht).
  apply prod_map_wf in He. unfold layer_maps_of.
  destruct env_file as [|content|[|p d]]; simpl.
  - split_and!; try done; lia.
  - split_and!; try done; try lia. apply env_lines_wf, dict_wf_nil.
  - split_and!; try done; lia.
  - split_and!; try done; try lia. apply prod_map_wf in Hf. exact Hf.
Qed.

(** ** The steps and the fields they leave alone *)

Definition keeps {A} (p : Config → A) (s : Config → result Config) : Prop := ∀ c c', s c = Ret c' → p c' = p c.

Lemma run_steps_raise (steps : list (Config → result Config)) e :
  foldl (λ acc s, c ←? acc ;; s c) (Raise e) steps = Raise e.
Proof. by induction steps. Qed.

Lemma run_steps_app a b c : run_steps (a ++ b) c = (c ←? run_steps a c ;; run_steps b c).
Proof.
  unfold run_steps. rewrite foldl_app. destruct (foldl _ (Ret c) a); [done|]. apply run_steps_raise.
Qed.

Lemma run_steps_cons s steps c : run_steps (s :: steps) c = (c ←? s c ;; run_steps steps c).
Proof. unfold run_steps. cbn [foldl rbind]. destruct (s c); [done|]. apply run_steps_raise. Qed.

Lemma run_steps_keeps {A} (p : Config → A) steps c c' :
  Forall (keeps p) steps → run_steps steps c = Ret c' → p c' = p c.
Proof.
  intros Hs. revert c. induction Hs as [|s steps Hs _ IH]; intros c; [by intros [= <-]|].
  rewrite run_steps_cons. destruct (s c) as [d|] eqn:E; [|done]. cbn [rbind]. intros ->%IH. by apply Hs.
Qed.

Lemma keeps_converted {A B} (p : Config → A) values (f : pyval → result B) caught msg name set :
  (∀ b c, p (set b c) = p c) → keeps p (set_converted values f caught msg name set).
Proof. intros Hp c c'. unfold set_converted. case_match; [|by intros [= <-]]. case_match; [|done]. intros [= <-]. apply Hp. Qed.

Lemma keeps_truthy {A} (p : Config → A) values name set :
  (∀ b c, p (set b c) = p c) → keeps p (set_truthy values name set).
Proof. intros Hp c c'. unfold set_truthy. case_match; [|by intros [= <-]]. intros [= <-]. case_match; [apply Hp | done]. Qed.

Lemma keeps_raw {A} (p : Config → A) values name set :
  (∀ b c, p (set b c) = p c) → keeps p (set_raw values name set).
Proof. intros Hp c c'. unfold set_raw. case_match; intros [= <-]; [apply Hp | done]. Qed.

Lemma keeps_bool {A} (p : Config → A) values name set :
  (∀ b c, p (set b c) = p c) → keeps p (set_bool values name set).
Proof. intros Hp c c'. unfold set_bool. case_match; [|by intros [= <-]]. destruct (parse_strict_bool _ _); [|done]. intros [= <-]. apply Hp. Qed.

Lemma keeps_string {A} (p : Config → A) values name set :
  (∀ b c, p (set b c) = p c) → keeps p (set_string values name set).
Proof. intros Hp c c'. unfold set_string. repeat case_match; try done; intros [= <-]; [apply Hp | done]. Qed.

Lemma keeps_alias {A} (p : Config → A) values row :
  (∀ v c, p (c <| openai_api_key := v |>) = p c) → (∀ v c, p (c <| deepgram_api_key := v |>) = p c) →
  (∀ v c, p (c <| cartesia_api_key := v |>) = p c) → (∀ v c, p (c <| cartesia_voice_id := v |>) = p c) →
  keeps p (set_alias values row).
Proof.
  intros H1 H2 H3 H4 c c'. unfold set_alias. destruct row as [[] ms]; (case_match; [|by intros [= <-]]);
    intros <-%Ret_inj; first [apply H1 | apply H2 | apply H3 | apply H4].
Qed.

Lemma keeps_endpoint {A} (p : Config → A) values lms :
  (∀ v c, p (c <| stt_endpoint := v |>) = p c) → (∀ v c, p (c <| tts_endpoint := v |>) = p c) →
  keeps p (endpoint_step values lms).
Proof.
  intros H1 H2 c c'. unfold endpoint_step. case_match; [done|].
  destruct (build_stt_endpoint _ _) as [[e|]|]; [| |done]; cbn [rbind];
    (destruct (build_tts_endpoint _ _) as [[e'|]|]; [| |done]); cbn [rbind]; intros <-%Ret_inj; by rewrite ?H2, ?H1.
Qed.

(** ** What a load does to the roles *)

Definition updated values (name : string) (set : pyval → Config → Config) c : Config :=
  match dict_get (txt name) values with Some raw => if truthy raw then set raw c else c | None => c end.

Lemma set_truthy_updated values name set c : set_truthy values name set c = Ret (updated values name set c).
Proof. unfold set_truthy, updated. by destruct (dict_get (txt name) values). Qed.

Lemma updated_keeps {A} (p : Config → A) values name set c :
  (∀ v c, p (set v c) = p c) → p (updated values name set c) = p c.
Proof. intros Hp. unfold updated. repeat case_match; [apply Hp | done | done]. Qed.

(** What a role setting of the specification becomes in the configuration *)
Definition shown (v : option pyval) (fallback : text) : text := match v with Some v => py_str v | None => fallback end.

Definition truthy_some (v : option pyval) : Prop := match v with Some v => truthy v = true | None => True end.

Lemma updated_sets {A} (p : Config → A) values name set c (f : pyval → A) :
  truthy_some (dict_get (txt name) values) → (∀ v, p (set v c) = f v) →
  p (updated values name set c) = match dict_get (txt name) values with Some v => f v | None => p c end.
Proof. intros Ht Hp. unfold updated. destruct (dict_get _ values) as [v|]; [|done]. simpl in Ht. by rewrite Ht. Qed.

Lemma role_settings_truthy model_key effort_key ms :
  (model_key, effort_key) ∈ ROLE_MODEL_EFFORT_KEYS →
  truthy_some (role_settings model_key effort_key ms).1 ∧ truthy_some (role_settings model_key effort_key ms).2.
Proof.
  intros Hkeys. pose proof (model_key_facts _ _ Hkeys) as (_ & _ & Hm & _ & _ & He).
  assert (∀ k m, k ∈ EMPTY_MEANS_ABSENT_KEYS → truthy_some (says m k)) as Hs.
  { intros k m Hk. unfold says. rewrite bool_decide_true by done. destruct (dict_get k m) as [v|]; [|done]. cbn [andb].
    destruct (effectively_set v) eqn:E; [|done]. by apply andb_true_iff in E as [? _]. }
  unfold role_settings. assert (truthy_some (None, None : option pyval).1 ∧ truthy_some (None : option pyval, None : option pyval).2) as Hacc by done.
  revert Hacc. generalize ((None, None) : option pyval * option pyval). induction ms as [|m ms IH]; intros [model effort] [H1 H2]; [done|].
  cbn [foldl]. apply IH. cbn [role_step fst snd] in *. split.
  - specialize (Hs model_key m Hm). by destruct (says m model_key).
  - specialize (Hs effort_key m He). destruct (says m effort_key); [done|]. by destruct (changes _ _).
Qed.

Lemma model_steps_roles values c d :
  truthy_some (dict_get (txt "WEBSEARCH_ROUTER_MODEL") values) →
  truthy_some (dict_get (txt "WEBSEARCH_WORKER_MODEL") values) →
  truthy_some (dict_get (txt "WEBSEARCH_ROUTER_REASONING_EFFORT") values) →
  truthy_some (dict_get (txt "WEBSEARCH_WORKER_REASONING_EFFORT") values) →
  router_model_policy c = router_model_policy default_config → worker_model_policy c = worker_model_policy default_config →
  router_reasoning_effort_policy c = [] → worker_reasoning_effort_policy c = [] →
  run_steps (model_steps values) c = Ret d →
  router_model_policy d = [(txt "fast", shown (dict_get (txt "WEBSEARCH_ROUTER_MODEL") values) (txt "gpt-5-mini"))]
  ∧ worker_model_policy d = [(txt "deep", shown (dict_get (txt "WEBSEARCH_WORKER_MODEL") values) (txt "gpt-5"))]
  ∧ router_reasoning_effort_policy d
    = match dict_get (txt "WEBSEARCH_ROUTER_REASONING_EFFORT") values with Some e => [(txt "fast", py_str e)] | None => [] end
  ∧ worker_reasoning_effort_policy d
    = match dict_get (txt "WEBSEARCH_WORKER_REASONING_EFFORT") values with Some e => [(txt "deep", py_str e)] | None => [] end.
Proof.
  intros T1 T2 T3 T4 E1 E2 E3 E4. unfold model_steps, set_text. rewrite !run_steps_cons.
  repeat (rewrite set_truthy_updated; cbn [rbind]; rewrite ?run_steps_cons). intros <-%Ret_inj.
  match goal with |- context [updated values "WEBSEARCH_OPENAI_API_KEY_ENV" ?f c] => set (c1 := updated values "WEBSEARCH_OPENAI_API_KEY_ENV" f c) end.
  match goal with |- context [updated values "WEBSEARCH_ROUTER_MODEL" ?f c1] => set (c2 := updated values "WEBSEARCH_ROUTER_MODEL" f c1) end.
  match goal with |- context [updated values "WEBSEARCH_WORKER_MODEL" ?f c2] => set (c3 := updated values "WEBSEARCH_WORKER_MODEL" f c2) end.
  assert (router_model_policy c3 = [(txt "fast", shown (dict_get (txt "WEBSEARCH_ROUTER_MODEL") values) (txt "gpt-5-mini"))]) as R.
  { unfold c3, c2. rewrite updated_keeps by done.
    rewrite (updated_sets _ _ _ _ _ (λ v, [(txt "fast", py_str v)])) by done. unfold c1. rewrite updated_keeps by done. rewrite E1.
    by destruct (dict_get (txt "WEBSEARCH_ROUTER_MODEL") values). }
  assert (worker_model_policy c3 = [(txt "deep", shown (dict_get (txt "WEBSEARCH_WORKER_MODEL") values) (txt "gpt-5"))]) as W.
  { unfold c3. rewrite (updated_sets _ _ _ _ _ (λ v, [(txt "deep", py_str v)])) by done. unfold c2, c1. rewrite !updated_keeps by done. rewrite E2.
    by destruct (dict_get (txt "WEBSEARCH_WORKER_MODEL") values). }
  split_and!.
  - by rewrite !(updated_keeps router_model_policy) by done.
  - by rewrite !(updated_keeps worker_model_policy) by done.
  - rewrite (updated_keeps router_reasoning_effort_policy) by done.
    rewrite (updated_sets router_reasoning_effort_policy _ _ _ _ (λ v, [(txt "fast", py_str v)])); [|done|intros v; cbn [router_reasoning_effort_policy]; unfold registered_policy_labels].
    + unfold c3, c2, c1. by rewrite !(updated_keeps router_reasoning_effort_policy), E3 by done.
    + change (effort_policy v (dict_keys (router_model_policy c3)) = [(txt "fast", py_str v)]). by rewrite R.
  - rewrite (updated_sets worker_reasoning_effort_policy _ _ _ _ (λ v, [(txt "deep", py_str v)])); [|done|intros v].
    + unfold c3, c2, c1. by rewrite !(updated_keeps worker_reasoning_effort_policy), E4 by done.
    + match goal with |- _ (setter _ _ ?c4) = _ => change (effort_policy v (dict_keys (worker_model_policy c4)) = [(txt "deep", py_str v)]) end.
      rewrite (updated_keeps worker_model_policy) by done. by rewrite W.
Qed.

Lemma post_init_id c d : post_init c = Ret d → d = c.
Proof.
  unfold post_init. destruct (check_limits c); [|done]. destruct (check_network c); [|done]. destruct (check_speech c); [|done].
  destruct (check_release c); [|done]. destruct (check_policies c); [|done]. cbn [rbind]. by intros <-%Ret_inj.
Qed.

Lemma load_layers_split lms c :
  load_layers lms = Ret c → run_steps (resolve_steps lms) default_config = Ret c ∧ post_init c = Ret c.
Proof.
  unfold load_layers. destruct (run_steps _ _) as [d|] eqn:E; [|done]. cbn [rbind]. intros Hp.
  by pose proof (post_init_id _ _ Hp) as ->.
Qed.

(** ** Which member of a family wins *)

Definition complete values (keys : list text) : Prop :=
  Forall (λ key, family_key_set (dict_get key values) = true) keys.

(** The highest layer at which a key of the member is set *)
Definition family_layer values lms (keys : list text) : Z := max_layer (key_layer values lms <$> keys).

(** The specification of the winner: a complete member, strictly above every
    complete member declared before it and not below any declared after it. *)
Definition wins values lms (members : family) (winner : option string) : Prop :=
  match winner with
  | None => ∀ name keys, (name, keys) ∈ members → ¬ complete values keys
  | Some w =>
      ∃ before keys after, members = before ++ (w, keys) :: after ∧ complete values keys
        ∧ (∀ name keys', (name, keys') ∈ before → complete values keys' →
             (family_layer values lms keys' < family_layer values lms keys)%Z)
        ∧ (∀ name keys', (name, keys') ∈ after → complete values keys' →
             (family_layer values lms keys' <= family_layer values lms keys)%Z)
  end.

Lemma max_first_spec {A} (l : list (A * Z)) best :
  ∃ before after, best :: l = before ++ max_first best l :: after
    ∧ Forall (λ x, x.2 < (max_first best l).2)%Z before ∧ Forall (λ x, x.2 <= (max_first best l).2)%Z after.
Proof.
  revert best. induction l as [|x l IH]; intros best; [by exists [], []|]. cbn [max_first].
  destruct (best.2 <? x.2)%Z eqn:E.
  - destruct (IH x) as (before & after & Heq & Hb & Ha). apply Z.ltb_lt in E. exists (best :: before), after. rewrite Heq.
    split_and!; [done| |done]. constructor; [|done]. destruct before as [|y before]; injection Heq as Hx _.
    + by rewrite <- Hx.
    + apply Forall_cons in Hb as [Hb _]. rewrite <- Hx in Hb. lia.
  - destruct (IH best) as (before & after & Heq & Hb & Ha). apply Z.ltb_ge in E. destruct before as [|y before].
    + exists [], (x :: after). injection Heq as Heq Hl. rewrite <- Heq in *. rewrite Hl at 1. split_and!; [done..|]. by constructor.
    + injection Heq as <- Hl. apply Forall_cons in Hb as [Hb0 Hb]. exists (best :: x :: before), after. cbn [app].
      split_and!; [by rewrite <- Hl| |done]. repeat constructor; [done|lia|done].
Qed.

Lemma omap_split {A B} (f : A → option B) (l : list A) before b after :
  omap f l = before ++ b :: after →
  ∃ l1 a l2, l = l1 ++ a :: l2 ∧ f a = Some b ∧ omap f l1 = before ∧ omap f l2 = after.
Proof.
  revert before. induction l as [|x l IH]; intros before E; [by destruct before|]. cbn [omap list_omap] in E.
  destruct (f x) as [y|] eqn:Ef.
  - destruct before as [|z before]; injection E as -> E.
    + exists [], x, l. done.
    + destruct (IH _ E) as (l1 & a & l2 & -> & Ha & <- & <-). exists (x :: l1), a, l2. split_and!; [done..| |done]. cbn. by rewrite Ef.
  - destruct (IH _ E) as (l1 & a & l2 & -> & Ha & <- & <-). exists (x :: l1), a, l2. split_and!; [done..| |done]. cbn. by rewrite Ef.
Qed.

Lemma family_layers_get values lms keys k :
  dict_get k (family_layers values lms keys) = if bool_decide (k ∈ keys) then Some (key_layer values lms k) else None.
Proof.
  unfold family_layers. assert (∀ acc, dict_get k (foldl (λ acc key, dict_set key (key_layer values lms key) acc) acc keys)
    = if bool_decide (k ∈ keys) then Some (key_layer values lms k) else dict_get k acc) as E; [|by rewrite E].
  induction keys as [|j keys IH]; intros acc; [done|]. cbn [foldl]. rewrite IH, dict_get_set.
  destruct (decide (k ∈ keys)) as [Hk|Hk].
  - rewrite !bool_decide_true; [done | by right | done].
  - rewrite (bool_decide_false (k ∈ keys)) by done. destruct (decide (j = k)) as [->|Hj].
    + rewrite bool_decide_true by left. done.
    + rewrite bool_decide_false; [done|]. intros [?|]%elem_of_cons; congruence.
Qed.

Lemma layer_of_family values lms members k :
  k ∈ family_keys members → layer_of (family_layers values lms (family_keys members)) k = key_layer values lms k.
Proof. intros Hk. unfold layer_of. by rewrite family_layers_get, bool_decide_true. Qed.

Lemma member_layer_family values lms members name keys :
  (name, keys) ∈ members → member_layer (family_layers values lms (family_keys members)) keys = family_layer values lms keys.
Proof.
  intros Hm. unfold member_layer, family_layer. f_equal. apply list_fmap_ext. intros i k Hk.
  apply layer_of_family. apply list_elem_of_bind. exists (name, keys). split; [|done]. by eapply list_elem_of_lookup_2.
Qed.

Lemma complete_forallb values keys :
  forallb (λ key, family_key_set (dict_get key values)) keys = true ↔ complete values keys.
Proof.
  unfold complete. rewrite forallb_forall, Forall_forall. split; intros Hk x Hx; apply Hk; by apply list_elem_of_In.
Qed.

Lemma present_member values layers members name keys :
  (name, keys) ∈ members → complete values keys → (name, member_layer layers keys) ∈ present_members values layers members.
Proof.
  intros Hm Hc%complete_forallb. apply list_elem_of_omap. exists (name, keys). split; [done|]. by rewrite Hc.
Qed.

Lemma resolve_family_wins values lms members : wins values lms members (resolve_family values lms members).1.
Proof.
  unfold resolve_family, winning_family_member. cbn [fst]. set (layers := family_layers _ _ _).
  destruct (present_members values layers members) as [|x l] eqn:E; cbn [wins].
  - intros name keys Hm Hc. pose proof (present_member values layers members name keys Hm Hc) as Hp. rewrite E in Hp. by apply not_elem_of_nil in Hp.
  - destruct (max_first_spec l x) as (before & after & Heq & Hb & Ha). rewrite <- E in Heq. clear E.
    destruct (max_first x l) as [w n]. cbn [fst snd] in *.
    apply omap_split in Heq as (ms1 & [w' keys] & ms2 & Hms & Hw & <- & <-).
    case_match eqn:Hc; [|done]. injection Hw as -> <-. apply complete_forallb in Hc.
    assert (∀ n ks, (n, ks) ∈ ms1 ∨ (n, ks) = (w, keys) ∨ (n, ks) ∈ ms2 → member_layer layers ks = family_layer values lms ks) as Hl.
    { intros n ks Hin. apply (member_layer_family _ _ _ n). rewrite Hms. set_solver. }
    exists ms1, keys, ms2. rewrite Forall_forall in Hb, Ha. rewrite (Hl w keys) in Hb, Ha by auto.
    split_and!; [done|done| |]; intros name keys' Hin Hc'.
    + specialize (Hb _ (present_member values layers ms1 name keys' Hin Hc')). cbn [snd] in Hb. rewrite (Hl name) in Hb by auto. done.
    + specialize (Ha _ (present_member values layers ms2 name keys' Hin Hc')). cbn [snd] in Ha. rewrite (Hl name) in Ha by auto. done.
Qed.

Lemma effective_says ms k v : effective ms k = Some v → ∃ m, m ∈ ms ∧ dict_get k m = Some v.
Proof.
  unfold effective. assert (∀ acc, foldl (λ a m, over (says m k) a) acc ms = Some v →
    acc = Some v ∨ ∃ m, m ∈ ms ∧ dict_get k m = Some v) as Hg; [|intros [|]%Hg; done].
  induction ms as [|m ms IH]; intros acc E; [by left|]. cbn [foldl] in E. apply IH in E as [E|(m' & Hm & E)].
  - destruct (says m k) as [u|] eqn:Es; [|by left]. cbn [over] in E. simplify_eq. right. exists m. split; [by left|].
    unfold says in Es. repeat case_match; by simplify_eq.
  - right. exists m'. split; [by right | done].
Qed.

Lemma increasing_layer lms from l m : increasing from lms → (l, m) ∈ lms → (from <= l)%Z.
Proof.
  revert from. induction lms as [|[l' m'] lms IH]; intros from Hinc Hin; [by apply not_elem_of_nil in Hin|].
  destruct Hinc as (Hf & _ & Hinc). apply elem_of_cons in Hin as [?|Hin]; simplify_eq; [done|].
  specialize (IH _ Hinc Hin). lia.
Qed.

Lemma max_layer_ge xs x : x ∈ xs → (x <= max_layer xs)%Z.
Proof. unfold max_layer. induction xs as [|y xs IH]; [by intros ?%not_elem_of_nil|]. cbn. intros [->|Hx%IH]%elem_of_cons; lia. Qed.

(** A key that is set was set by some layer. *)
Lemma key_layer_set lms k :
  (k ∉ EMPTY_MEANS_ABSENT_KEYS) → increasing 0 lms → family_key_set (dict_get k (merged lms)) = true →
  (0 <= key_layer (merged lms) lms k)%Z.
Proof.
  intros Hk Hinc Hset. unfold key_layer. rewrite Hset. rewrite merged_other in Hset by done.
  destruct (effective lms.*2 k) as [v|] eqn:E; [|done]. apply effective_says in E as (m & Hm & E).
  apply list_elem_of_fmap in Hm as ([l m'] & -> & Hm). transitivity l; [by eapply increasing_layer|].
  apply max_layer_ge. apply list_elem_of_fmap. exists (l, m'). split; [done|]. apply list_elem_of_filter. cbn [snd] in *. by rewrite E.
Qed.

Lemma member_keys_of (members : family) w keys : NoDup members.*1 → (w, keys) ∈ members → member_keys members w = Some keys.
Proof.
  unfold member_keys. induction members as [|[n ks] members IH]; [by intros _ ?%not_elem_of_nil|].
  rewrite fmap_cons, NoDup_cons. cbn [fst]. intros [Hn Hnd] Hin. rewrite filter_cons. cbn [fst].
  apply elem_of_cons in Hin as [E|Hin].
  - injection E as -> ->. by rewrite decide_True.
  - rewrite decide_False; [by apply IH|]. intros ->. apply Hn. apply list_elem_of_fmap. by exists (w, keys).
Qed.

(** Half of a pair that no member outranks is at or below the winner. *)
Lemma half_pair_covered lms winner :
  increasing 0 lms → half_pair_wins (merged lms) lms = false →
  winner = (resolve_family (merged lms) lms TTS_ENDPOINT_MEMBERS).1 →
  family_key_set (dict_get (txt "WEBSEARCH_TTS_WS_HOST") (merged lms))
    ≠ family_key_set (dict_get (txt "WEBSEARCH_TTS_WS_PORT") (merged lms)) →
  ∃ w keys, winner = Some w ∧ (w, keys) ∈ TTS_ENDPOINT_MEMBERS
    ∧ (Z.max (key_layer (merged lms) lms (txt "WEBSEARCH_TTS_WS_HOST")) (key_layer (merged lms) lms (txt "WEBSEARCH_TTS_WS_PORT"))
       <= family_layer (merged lms) lms keys)%Z.
Proof.
  intros Hinc Eh -> Hx. set (values := merged lms) in *. unfold half_pair_wins in Eh.
  pose proof (resolve_family_wins values lms TTS_ENDPOINT_MEMBERS) as Hw.
  destruct (resolve_family values lms TTS_ENDPOINT_MEMBERS) as [winner layers] eqn:Er.
  assert (layers = family_layers values lms (family_keys TTS_ENDPOINT_MEMBERS)) as -> by (by injection Er as _ <-).
  apply andb_false_iff in Eh as [Eh|Eh].
  { exfalso. apply Hx. by destruct (family_key_set (dict_get (txt "WEBSEARCH_TTS_WS_HOST") values)), (family_key_set (dict_get (txt "WEBSEARCH_TTS_WS_PORT") values)). }
  apply Z.ltb_ge in Eh. rewrite !layer_of_family in Eh by (apply (bool_decide_unpack _); vm_compute; exact I).
  destruct winner as [w|]; cbn [winning_family_layer wins fst] in *.
  - destruct Hw as (before & keys & after & Hm & _). exists w, keys.
    assert ((w, keys) ∈ TTS_ENDPOINT_MEMBERS) as Hin by (rewrite Hm; set_solver). split_and!; [done|done|].
    rewrite (member_keys_of TTS_ENDPOINT_MEMBERS w keys), (member_layer_family _ _ _ w) in Eh by (done || (apply (bool_decide_unpack _); vm_compute; exact I)).
    exact Eh.
  - exfalso. destruct (family_key_set (dict_get (txt "WEBSEARCH_TTS_WS_HOST") values)) eqn:Eh1.
    + pose proof (key_layer_set lms (txt "WEBSEARCH_TTS_WS_HOST") ltac:(apply (bool_decide_unpack _); vm_compute; exact I) Hinc Eh1) as Hl.
      fold values in Hl. lia.
    + destruct (family_key_set (dict_get (txt "WEBSEARCH_TTS_WS_PORT") values)) eqn:Eh2; [|done].
      pose proof (key_layer_set lms (txt "WEBSEARCH_TTS_WS_PORT") ltac:(apply (bool_decide_unpack _); vm_compute; exact I) Hinc Eh2) as Hl.
      fold values in Hl. lia.
Qed.

(** The value of the first key that is set *)
Fixpoint first_set values (keys : list text) : option pyval :=
  match keys with
  | [] => None
  | k :: keys' => if family_key_set (dict_get k values) then dict_get k values else first_set values keys'
  end.

Lemma winning_alias_first values scoped bare v :
  match winning_alias_key values [("scoped", scoped); ("bare", bare)] with Some k => dict_get k values | None => v end
  = over (first_set values [scoped; bare]) v.
Proof.
  unfold winning_alias_key. rewrite !filter_cons. cbn [snd first_set].
  destruct (family_key_set (dict_get scoped values)) eqn:Es.
  - rewrite decide_True by done. cbn [head snd]. destruct (dict_get scoped values); [done|discriminate].
  - rewrite decide_False by congruence. destruct (family_key_set (dict_get bare values)) eqn:Eb.
    + rewrite decide_True by done. cbn [snd]. destruct (dict_get bare values); [done|discriminate].
    + by rewrite decide_False by congruence.
Qed.

Lemma credentials_set values c d :
  run_steps (credential_steps values) c = Ret d →
  openai_api_key d = over (first_set values [txt "WEBSEARCH_OPENAI_API_KEY"; openai_key_name values]) (openai_api_key c)
  ∧ deepgram_api_key d = over (first_set values [txt "WEBSEARCH_DEEPGRAM_API_KEY"; txt "DEEPGRAM_API_KEY"]) (deepgram_api_key c)
  ∧ cartesia_api_key d = over (first_set values [txt "WEBSEARCH_CARTESIA_API_KEY"; txt "CARTESIA_API_KEY"]) (cartesia_api_key c)
  ∧ cartesia_voice_id d = over (first_set values [txt "WEBSEARCH_CARTESIA_VOICE_ID"; txt "CARTESIA_VOICE_ID"]) (cartesia_voice_id c).
Proof.
  unfold credential_steps, alias_families, ALIAS_FAMILY_SPELLINGS. rewrite !fmap_cons, fmap_nil, !run_steps_cons.
  unfold set_alias. cbn [default from_option]. unfold id. rewrite <- !winning_alias_first. intros E.
  destruct (winning_alias_key values [("scoped", txt "WEBSEARCH_OPENAI_API_KEY"); _]);
  destruct (winning_alias_key values [("scoped", txt "WEBSEARCH_DEEPGRAM_API_KEY"); _]);
  destruct (winning_alias_key values [("scoped", txt "WEBSEARCH_CARTESIA_API_KEY"); _]);
  destruct (winning_alias_key values [("scoped", txt "WEBSEARCH_CARTESIA_VOICE_ID"); _]);
  cbn [rbind] in E; apply Ret_inj in E; subst d; split_and!; reflexivity.
Qed.

End facts.

(** Check that none of the steps sets a field. *)
Ltac keeps_step :=
  unfold set_int, set_float, set_text;
  first [apply keeps_converted | apply keeps_truthy | apply keeps_raw | apply keeps_bool | apply keeps_string
        | apply keeps_endpoint | apply keeps_alias]; intros; reflexivity.

Ltac keeps_steps :=
  lazymatch goal with
  | |- Forall _ (_ ++ _) => apply Forall_app; split; keeps_steps
  | |- Forall _ [] => constructor
  | |- Forall _ (_ :: _) => constructor; [keeps_step | keeps_steps]
  | |- Forall _ (_ <$> _) => apply Forall_fmap, Forall_forall; intros ? _; keeps_step
  | |- _ =>
      progress unfold credential_steps, number_steps, speech_steps, network_steps, feature_steps, model_steps;
      keeps_steps
  end.

Section theorems.
Context `{PyRuntime} `{HostEnv}.
Implicit Types (values : cfg_values) (lms : list (Z * cfg_values)) (c : Config).

(** C11.  A role's model and reasoning effort, as loaded, are those of the
    layer-by-layer specification: the highest layer that names a model or an
    effort supplies it, an empty override says nothing, and an effort inherited
    from below is dropped exactly when a layer changes the model without naming
    an effort; re-asserting the same model keeps it.  With nothing said the
    packaged models apply and no effort is sent. *)
Theorem role_settings_loaded config_file env_file (env : dict text text) toml c :
  env_source_wf env_file → dict_wf env →
  toml_layer config_file = Ret toml → load_config config_file env_file env = Ret c →
  let ms := (layer_maps_of toml env_file env).*2 in
  let router := role_settings (txt "WEBSEARCH_ROUTER_MODEL") (txt "WEBSEARCH_ROUTER_REASONING_EFFORT") ms in
  let worker := role_settings (txt "WEBSEARCH_WORKER_MODEL") (txt "WEBSEARCH_WORKER_REASONING_EFFORT") ms in
  resolve_router_model c (txt "fast") = Ret (shown router.1 (txt "gpt-5-mini"))
  ∧ resolve_router_reasoning_effort c (txt "fast") = Ret (py_str <$> router.2)
  ∧ resolve_worker_model c (txt "deep") = Ret (shown worker.1 (txt "gpt-5"))
  ∧ resolve_worker_reasoning_effort c (txt "deep") = Ret (py_str <$> worker.2).
Proof.
  intros Hf He Ht. unfold load_config. rewrite Ht. cbn [rbind]. set (lms := layer_maps_of toml env_file env). intros Hl.
  pose proof (layer_maps_increasing _ _ _ _ Ht Hf He) as Hinc. fold lms in Hinc. cbv zeta.
  apply load_layers_split in Hl as [Hs _]. unfold resolve_steps in Hs. set (values := merged lms) in Hs.
  rewrite !app_assoc in Hs. rewrite run_steps_app in Hs. apply rbind_ret in Hs as (c2 & Hs & Hend).
  rewrite run_steps_app in Hs. apply rbind_ret in Hs as (c1 & Hs & Hmod).
  assert ((txt "WEBSEARCH_ROUTER_MODEL", txt "WEBSEARCH_ROUTER_REASONING_EFFORT") ∈ ROLE_MODEL_EFFORT_KEYS) as Kr by set_solver.
  assert ((txt "WEBSEARCH_WORKER_MODEL", txt "WEBSEARCH_WORKER_REASONING_EFFORT") ∈ ROLE_MODEL_EFFORT_KEYS) as Kw by set_solver.
  destruct (role_settings_truthy _ _ lms.*2 Kr) as [T1 T2]. destruct (role_settings_truthy _ _ lms.*2 Kw) as [T3 T4].
  rewrite <- (merged_role _ _ lms Kr Hinc) in T1, T2 |- *. rewrite <- (merged_role _ _ lms Kw Hinc) in T3, T4 |- *.
  fold values in T1, T2, T3, T4 |- *. cbn [fst snd] in *.
  destruct (model_steps_roles values c1 c2 T1 T3 T2 T4) as (R1 & W1 & R2 & W2); try done.
  1-4: eapply run_steps_keeps in Hs; [exact Hs | keeps_steps].
  unfold resolve_router_model, resolve_worker_model, resolve_router_reasoning_effort, resolve_worker_reasoning_effort, resolve.
  assert (router_model_policy c = router_model_policy c2) as -> by (eapply run_steps_keeps; [|exact Hend]; keeps_steps).
  assert (worker_model_policy c = worker_model_policy c2) as -> by (eapply run_steps_keeps; [|exact Hend]; keeps_steps).
  assert (router_reasoning_effort_policy c = router_reasoning_effort_policy c2) as -> by (eapply run_steps_keeps; [|exact Hend]; keeps_steps).
  assert (worker_reasoning_effort_policy c = worker_reasoning_effort_policy c2) as -> by (eapply run_steps_keeps; [|exact Hend]; keeps_steps).
  rewrite R1, W1, R2, W2. unfold dict_mem. cbn [dict_get]. rewrite !decide_True by done.
  split_and!; try done.
  - by destruct (dict_get (txt "WEBSEARCH_ROUTER_REASONING_EFFORT") values).
  - by destruct (dict_get (txt "WEBSEARCH_WORKER_REASONING_EFFORT") values).
Qed.

(** The endpoint in force is the one the operator set at the highest
    layer: for speech-to-text and text-to-speech alike the spelling that is used
    is complete, lies strictly above every complete spelling with a higher
    declared priority and not below any with a lower one, and is parsed into the
    configuration; with no complete spelling there is no endpoint.  Half of the
    host and port pair is never passed over: a load that succeeds with one of
    them missing has a winner at least as high. *)
Theorem endpoint_from_highest_layer config_file env_file (env : dict text text) toml c :
  env_source_wf env_file → dict_wf env →
  toml_layer config_file = Ret toml → load_config config_file env_file env = Ret c →
  let lms := layer_maps_of toml env_file env in
  let values := merged lms in
  let host := txt "WEBSEARCH_TTS_WS_HOST" in
  let port := txt "WEBSEARCH_TTS_WS_PORT" in
  ∃ stt tts,
    wins values lms STT_ENDPOINT_MEMBERS stt ∧ build_stt_endpoint stt values = Ret (stt_endpoint c)
    ∧ wins values lms TTS_ENDPOINT_MEMBERS tts ∧ build_tts_endpoint tts values = Ret (tts_endpoint c)
    ∧ (family_key_set (dict_get host values) ≠ family_key_set (dict_get port values) →
       ∃ w keys, tts = Some w ∧ (w, keys) ∈ TTS_ENDPOINT_MEMBERS
         ∧ (Z.max (key_layer values lms host) (key_layer values lms port) <= family_layer values lms keys)%Z).
Proof.
  intros Hf He Ht. unfold load_config. rewrite Ht. cbn [rbind]. set (lms := layer_maps_of toml env_file env). intros Hl.
  pose proof (layer_maps_increasing _ _ _ _ Ht Hf He) as Hinc. fold lms in Hinc. cbv zeta.
  apply load_layers_split in Hl as [Hs _]. unfold resolve_steps in Hs. set (values := merged lms) in *.
  rewrite !app_assoc in Hs. rewrite run_steps_app in Hs. apply rbind_ret in Hs as (d & Hs & Hend).
  assert (stt_endpoint d = None) as Ed1 by (eapply run_steps_keeps in Hs; [exact Hs | keeps_steps]).
  assert (tts_endpoint d = None) as Ed2 by (eapply run_steps_keeps in Hs; [exact Hs | keeps_steps]).
  rewrite run_steps_cons in Hend. apply rbind_ret in Hend as (c' & Hend & Hnil). apply Ret_inj in Hnil as <-.
  unfold endpoint_step in Hend. destruct (half_pair_wins values lms) eqn:Eh; [done|].
  exists (resolve_family values lms STT_ENDPOINT_MEMBERS).1, (resolve_family values lms TTS_ENDPOINT_MEMBERS).1.
  apply rbind_ret in Hend as (stt & Es & Hend). apply rbind_ret in Hend as (tts & Et & Hend).
  rewrite Es, Et. apply Ret_inj in Hend. split_and!.
  - apply resolve_family_wins.
  - subst c'. destruct stt, tts; cbn; by rewrite ?Ed1.
  - apply resolve_family_wins.
  - subst c'. destruct stt, tts; cbn; by rewrite ?Ed2.
  - by apply half_pair_covered.
Qed.

(** Credentials: each vendor credential is the scoped spelling if the merged
    layers set it, whatever layer that was, and only otherwise the bare vendor
    name, which for the OpenAI key is the one the operator chose.  So a
    credential that happens to be in the environment never replaces the one
    configured for this application. *)
Theorem scoped_credential_wins config_file env_file (env : dict text text) toml c :
  env_source_wf env_file → dict_wf env →
  toml_layer config_file = Ret toml → load_config config_file env_file env = Ret c →
  let lms := layer_maps_of toml env_file env in
  let values := merged lms in
  openai_api_key c = first_set values [txt "WEBSEARCH_OPENAI_API_KEY"; openai_key_name values]
  ∧ deepgram_api_key c = first_set values [txt "WEBSEARCH_DEEPGRAM_API_KEY"; txt "DEEPGRAM_API_KEY"]
  ∧ cartesia_api_key c = first_set values [txt "WEBSEARCH_CARTESIA_API_KEY"; txt "CARTESIA_API_KEY"]
  ∧ cartesia_voice_id c = first_set values [txt "WEBSEARCH_CARTESIA_VOICE_ID"; txt "CARTESIA_VOICE_ID"]
  ∧ (∀ k, k ∉ EMPTY_MEANS_ABSENT_KEYS → dict_get k values = effective lms.*2 k).
Proof.
  intros Hf He Ht. unfold load_config. rewrite Ht. cbn [rbind]. set (lms := layer_maps_of toml env_file env). intros Hl.
  pose proof (layer_maps_increasing _ _ _ _ Ht Hf He) as Hinc. fold lms in Hinc. cbv zeta.
  apply load_layers_split in Hl as [Hs _]. unfold resolve_steps in Hs. set (values := merged lms) in *.
  rewrite run_steps_app in Hs. apply rbind_ret in Hs as (d & Hd & Hs).
  apply credentials_set in Hd as (E1 & E2 & E3 & E4).
  assert (∀ v, over v (None : option pyval) = v) as Ho by by intros [].
  cbn [default_config openai_api_key deepgram_api_key cartesia_api_key cartesia_voice_id] in *. rewrite Ho in E1, E2, E3, E4.
  rewrite <- E1, <- E2, <- E3, <- E4. split_and!; try (eapply run_steps_keeps; [|exact Hs]; keeps_steps).
  intros k Hk. by apply merged_other.
Qed.

End theorems.

(** ** A runtime and a host to evaluate with *)

Definition sample_runtime : PyRuntime :=
  {| unicode_digits := {| other_digit := λ _, false; other_decimal := λ _, None |};
     float_repr := λ _, txt "1.0"; parse_float := λ _, None;
     date_str := λ _, txt "2026-01-01"; date_eq := N.eqb;
     container_repr := λ _, txt "[]"; container_eq := λ _ _, false;
     other_id_start := λ _, false; other_id_continue := λ _, false; other_case := λ _, Uncased |}.

Definition sample_host : HostEnv :=
  {| expanduser := id;
     ip_is_loopback := λ t, Some (bool_decide (t = txt "127.0.0.1"));
     urlparse := λ _, Ret (txt "http", txt "127.0.0.1:7860");
     fromisoformat := λ _, None;
     DEFAULT_RELEASE_VERSION := txt "0.1.3";
     VALID_REASONING_EFFORTS := txt <$> ["none"; "minimal"; "low"; "medium"; "high"; "xhigh"; "max"] |}.

#[local] Existing Instance sample_runtime.
#[local] Existing Instance sample_host.

(** A document that pins a worker model with its effort and a speech endpoint,
    an env file with a scoped key, and an environment that changes the model, moves
    the endpoint and holds a stray vendor key *)
Definition sample_toml : toml_file :=
  TomlDocument
    [(txt "models", PTable [(txt "worker_model", PStr (txt "gpt-5.6-terra")); (txt "worker_reasoning_effort", PStr (txt "medium"));
                            (txt "router_model", PStr (txt "gpt-5.6-luna")); (txt "router_reasoning_effort", PStr (txt "medium"))]);
     (txt "tts", PTable [(txt "tts_ws_uri", PStr (txt "ws://127.0.0.1:8080")); (txt "tts_ws_host", PStr (txt "127.0.0.1"))])].

Definition sample_env_file : env_source := EnvText (txt "# local" ++ [10]%N ++ txt "WEBSEARCH_OPENAI_API_KEY='sk-app'").

Definition sample_env : dict text text :=
  [(txt "WEBSEARCH_WORKER_MODEL", txt "gpt-5"); (txt "WEBSEARCH_ROUTER_MODEL", txt "gpt-5.6-luna");
   (txt "WEBSEARCH_TTS_WS_SOCKET", txt "/tmp/tts.sock"); (txt "OPENAI_API_KEY", txt "sk-ambient")].

Definition sample_toml_values : cfg_values :=
  Eval vm_compute in match toml_layer sample_toml with Ret v => v | Raise _ => [] end.

Definition sample_config : Config :=
  Eval vm_compute in match load_config sample_toml sample_env_file sample_env with Ret c => c | Raise _ => default_config end.

Lemma sample_toml_loads : toml_layer sample_toml = Ret sample_toml_values.
Proof. vm_compute. reflexivity. Qed.

Lemma sample_loads : load_config sample_toml sample_env_file sample_env = Ret sample_config.
Proof. vm_compute. reflexivity. Qed.

Lemma sample_env_wf : dict_wf sample_env.
Proof. apply (bool_decide_unpack _). vm_compute. exact I. Qed.

(** The environment's model drops the document's effort for the worker; the
    router's re-asserted model keeps it. *)
Lemma role_settings_loaded_witness :
  resolve_worker_model sample_config (txt "deep") = Ret (txt "gpt-5")
  ∧ resolve_worker_reasoning_effort sample_config (txt "deep") = Ret None
  ∧ resolve_router_reasoning_effort sample_config (txt "fast") = Ret (Some (txt "medium")).
Proof.
  pose proof (role_settings_loaded sample_toml sample_env_file sample_env sample_toml_values sample_config I
                sample_env_wf sample_toml_loads sample_loads) as Hr.
  cbv zeta in Hr. destruct Hr as (_ & R2 & W1 & W2). rewrite R2, W1, W2. split_and!; vm_compute; reflexivity.
Defined.

(** The socket in the environment wins over the document's URI. *)
Lemma endpoint_from_highest_layer_witness :
  tts_endpoint sample_config = Some (txt "uds", txt "/tmp/tts.sock")
  ∧ ∃ tts, wins (merged (layer_maps_of sample_toml_values sample_env_file sample_env))
             (layer_maps_of sample_toml_values sample_env_file sample_env) TTS_ENDPOINT_MEMBERS tts.
Proof.
  pose proof (endpoint_from_highest_layer sample_toml sample_env_file sample_env sample_toml_values sample_config I
                sample_env_wf sample_toml_loads sample_loads) as Hr.
  cbv zeta in Hr. destruct Hr as (_ & tts & _ & _ & Hw & _ & _). split; [vm_compute; reflexivity | by exists tts].
Defined.

(** The scoped key of the env file wins over the environment's vendor key. *)
Lemma scoped_credential_wins_witness : openai_api_key sample_config = Some (PStr (txt "sk-app")).
Proof.
  pose proof (scoped_credential_wins sample_toml sample_env_file sample_env sample_toml_values sample_config I
                sample_env_wf sample_toml_loads sample_loads) as Hr.
  cbv zeta in Hr. destruct Hr as (-> & _). vm_compute. reflexivity.
Defined.
