(* ===== verification/ConfigValid.v ===== *)
(** What a loaded configuration guarantees to the rest of the program, and
    where loading raises something other than a configuration error. *)

From S2P Require Import Prelude PyDict PyText PyValue ConfigLayers Config ConfigLoad ConfigFacts.

Section valid.
Context `{PyRuntime} `{HostEnv}.
Implicit Types (c : Config).

(** A finite float that satisfies a predicate *)
Definition seconds (f : pyfloat) (P : Q → Prop) : Prop := match f with Finite q => P q | _ => False end.

Record timing_ok c : Prop := {
  ok_foreground : seconds (foreground_search_timeout_seconds c) (λ f, 0 < f)%Q;
  ok_provider : seconds (provider_timeout_seconds c) (λ p,
    seconds (foreground_search_timeout_seconds c) (λ f, f < p)%Q ∧ seconds (router_timeout_seconds c) (λ r, r <= p)%Q);
  ok_router : seconds (router_timeout_seconds c) (λ r, 0 < r)%Q;
  ok_shutdown : seconds (shutdown_grace_seconds c) (λ r, 0 < r)%Q;
  ok_speech_start : seconds (speech_start_timeout_seconds c) (λ r, 0 < r)%Q;
  ok_transport : seconds (speech_transport_grace_seconds c) (λ r, 0 < r)%Q;
  ok_pending : seconds (pending_dialogue_timeout_seconds c) (λ r, 0 < r)%Q;
  ok_smart_turn : seconds (smart_turn_timeout_seconds c) (λ r, 0 < r ∧ r <= 60)%Q;
  ok_grace : seconds (smart_turn_complete_grace_seconds c) (λ r, 0 < r ∧ r <= 10)%Q
}.

Definition policy_ok (policy efforts : dict text text) : Prop :=
  policy ≠ [] ∧ (∀ label model, (label, model) ∈ policy → label ≠ [] ∧ model ≠ [])
  ∧ (∀ label effort, (label, effort) ∈ efforts →
       label ≠ [] ∧ effort ∈ VALID_REASONING_EFFORTS ∧ label ∈ dict_keys policy).

Record config_ok c : Prop := {
  ok_items : (2 <= max_work_items_per_turn c <= 4)%Z;
  ok_wait : (0 < multi_intent_wait_timeout_ms c)%Z;
  ok_citations : (1 <= max_citations c <= 50)%Z;
  ok_timing : timing_ok c;
  ok_bind : ∃ host, bind_host c = PStr host ∧ is_loopback_host host = true ∧ (1 <= bind_port c <= 65535)%Z;
  ok_url : ∃ url scheme netloc, known_client_url c = PStr url ∧ urlparse url = Ret (scheme, netloc)
             ∧ (scheme = txt "http" ∨ scheme = txt "https") ∧ netloc ≠ [];
  ok_key_env : ∃ name, openai_api_key_env c = PStr name ∧ isidentifier name = true ∧ isupper name = true;
  ok_stt : (stt_provider c = txt "local" ∨ stt_provider c = txt "deepgram") ∧ strip (stt_model c) ≠ []
             ∧ (stt_language c = txt "auto" ∨ language_code (stt_language c) = true);
  ok_tts : (tts_provider c = txt "local" ∨ tts_provider c = txt "cartesia") ∧ strip (tts_model c) ≠ []
             ∧ strip (tts_voice_id c) ≠ [];
  ok_text : strip (early_ack_text c) ≠ [] ∧ strip (release_version c) ≠ [];
  ok_deployed : ∀ at_utc, deployed_at_utc c = Some at_utc → ∃ us, parse_utc_timestamp at_utc = Ret us;
  ok_router_policy : policy_ok (router_model_policy c) (router_reasoning_effort_policy c);
  ok_worker_policy : policy_ok (worker_model_policy c) (worker_reasoning_effort_policy c)
}.

Lemma guard_ret bad msg u : guard bad msg = Ret u → bad = false.
Proof. by destruct bad. Qed.

Lemma finite_positive_ok f : finite_positive f = true → seconds f (λ r, 0 < r)%Q.
Proof.
  unfold finite_positive. destruct f as [q| | |]; try done. intros [_ Hn]%andb_true_iff.
  apply negb_true_iff in Hn. cbn [float_le] in Hn. by apply Qle_bool_lt in Hn.
Qed.

Lemma between_ok f hi : float_lt (Finite 0) f && float_le f (Finite hi) = true → seconds f (λ r, 0 < r ∧ r <= hi)%Q.
Proof.
  intros [H1 H2]%andb_true_iff. destruct f as [q| | |]; try done. cbn in *. split; [by apply Qltb_lt | by apply Qle_bool_iff].
Qed.

Lemma check_durations_ok c u : check_durations c = Ret u →
  seconds (foreground_search_timeout_seconds c) (λ r, 0 < r)%Q ∧ seconds (router_timeout_seconds c) (λ r, 0 < r)%Q
  ∧ seconds (provider_timeout_seconds c) (λ r, 0 < r)%Q ∧ seconds (shutdown_grace_seconds c) (λ r, 0 < r)%Q
  ∧ seconds (speech_start_timeout_seconds c) (λ r, 0 < r)%Q ∧ seconds (speech_transport_grace_seconds c) (λ r, 0 < r)%Q.
Proof.
  unfold check_durations. intros Hc.
  repeat (apply rbind_ret in Hc as (? & ?%guard_ret%negb_false_iff%finite_positive_ok & Hc)).
  apply guard_ret, negb_false_iff, finite_positive_ok in Hc. done.
Qed.

Lemma check_limits_ok c u : check_limits c = Ret u →
  (2 <= max_work_items_per_turn c <= 4)%Z ∧ (0 < multi_intent_wait_timeout_ms c)%Z ∧ (1 <= max_citations c <= 50)%Z
  ∧ seconds (pending_dialogue_timeout_seconds c) (λ r, 0 < r)%Q
  ∧ float_le (provider_timeout_seconds c) (foreground_search_timeout_seconds c) = false
  ∧ float_lt (provider_timeout_seconds c) (router_timeout_seconds c) = false
  ∧ check_durations c = Ret tt.
Proof.
  unfold check_limits. intros Hc. apply rbind_ret in Hc as (? & H1%guard_ret%negb_false_iff%bool_decide_eq_true_1 & Hc).
  apply rbind_ret in Hc as (? & H2%guard_ret & Hc). apply rbind_ret in Hc as ([] & H3 & Hc).
  apply rbind_ret in Hc as (? & H4%guard_ret & Hc). apply rbind_ret in Hc as (? & H5%guard_ret & Hc).
  apply rbind_ret in Hc as (? & H6%guard_ret%negb_false_iff & Hc). apply guard_ret, negb_false_iff, finite_positive_ok in Hc.
  apply andb_true_iff in H6 as [H6 H7]. apply Z.leb_le in H6, H7. apply Z.leb_gt in H2.
  rewrite !elem_of_cons, elem_of_nil in H1. split_and!; try done; lia.
Qed.

Lemma check_network_ok c u : check_network c = Ret u →
  (∃ host, bind_host c = PStr host ∧ is_loopback_host host = true ∧ (1 <= bind_port c <= 65535)%Z)
  ∧ (∃ url scheme netloc, known_client_url c = PStr url ∧ urlparse url = Ret (scheme, netloc)
       ∧ (scheme = txt "http" ∨ scheme = txt "https") ∧ netloc ≠ [])
  ∧ (∃ name, openai_api_key_env c = PStr name ∧ isidentifier name = true ∧ isupper name = true).
Proof.
  assert (∀ v t, as_str v = Ret t → v = PStr t) as Hs by (intros v s E; destruct v; cbn in E; congruence).
  unfold check_network. intros Hc. apply rbind_ret in Hc as (host & Hh%Hs & Hc). apply rbind_ret in Hc as (? & _ & Hc).
  apply rbind_ret in Hc as (? & H1%guard_ret%negb_false_iff & Hc). apply rbind_ret in Hc as (? & H2%guard_ret%negb_false_iff & Hc).
  apply rbind_ret in Hc as (url & Hu%Hs & Hc). apply rbind_ret in Hc as ([scheme netloc] & Hp & Hc).
  apply rbind_ret in Hc as (? & H3%guard_ret & Hc). apply rbind_ret in Hc as (name & Hn%Hs & Hc). apply guard_ret in Hc.
  apply orb_false_iff in H3 as [H3%negb_false_iff%bool_decide_eq_true_1 H4%bool_decide_eq_false_1].
  apply orb_false_iff in Hc as [H5%negb_false_iff H6%negb_false_iff]. apply andb_true_iff in H2 as [H2 H7].
  apply Z.leb_le in H2, H7. cbn [fst snd] in *. split_and!.
  - exists host. done.
  - exists url, scheme, netloc. rewrite !elem_of_cons, elem_of_nil in H3. split_and!; try done. naive_solver.
  - exists name. done.
Qed.

Lemma blank_ok t msg u : guard (blank t) msg = Ret u → strip t ≠ [].
Proof. intros E%guard_ret. by apply bool_decide_eq_false_1 in E. Qed.

Lemma one_of (a b t : text) msg u :
  guard (negb (bool_decide (t ∈ [a; b]))) msg = Ret u → t = a ∨ t = b.
Proof.
  intros E%guard_ret%negb_false_iff%bool_decide_eq_true_1. rewrite !elem_of_cons, elem_of_nil in E. naive_solver.
Qed.

Lemma check_speech_ok c u : check_speech c = Ret u →
  ((stt_provider c = txt "local" ∨ stt_provider c = txt "deepgram") ∧ strip (stt_model c) ≠ []
     ∧ (stt_language c = txt "auto" ∨ language_code (stt_language c) = true))
  ∧ ((tts_provider c = txt "local" ∨ tts_provider c = txt "cartesia") ∧ strip (tts_model c) ≠ [] ∧ strip (tts_voice_id c) ≠ [])
  ∧ seconds (smart_turn_timeout_seconds c) (λ r, 0 < r ∧ r <= 60)%Q
  ∧ seconds (smart_turn_complete_grace_seconds c) (λ r, 0 < r ∧ r <= 10)%Q.
Proof.
  unfold check_speech. intros Hc. apply rbind_ret in Hc as (? & _ & Hc). apply rbind_ret in Hc as (? & H1%one_of & Hc).
  apply rbind_ret in Hc as (? & H2%blank_ok & Hc). apply rbind_ret in Hc as (? & H3%guard_ret & Hc).
  apply rbind_ret in Hc as (? & H4%guard_ret%negb_false_iff%between_ok & Hc).
  apply rbind_ret in Hc as (? & H5%guard_ret%negb_false_iff%between_ok & Hc).
  apply rbind_ret in Hc as (? & H6%one_of & Hc). apply rbind_ret in Hc as (? & H7%blank_ok & Hc). apply blank_ok in Hc.
  split_and!; try done. apply andb_false_iff in H3 as [H3%negb_false_iff%bool_decide_eq_true_1|H3%negb_false_iff]; auto.
Qed.

Lemma check_release_ok c u : check_release c = Ret u →
  strip (early_ack_text c) ≠ [] ∧ strip (release_version c) ≠ []
  ∧ (∀ at_utc, deployed_at_utc c = Some at_utc → ∃ us, parse_utc_timestamp at_utc = Ret us).
Proof.
  unfold check_release. intros Hc. apply rbind_ret in Hc as (? & H1%blank_ok & Hc). apply rbind_ret in Hc as (? & H2%blank_ok & Hc).
  split_and!; try done. intros at_utc E. rewrite E in Hc. destruct (parse_utc_timestamp at_utc) as [us|[]]; try done. by exists us.
Qed.

Lemma models_ok policy policy' : models policy = Ret policy' →
  policy ≠ [] ∧ ∀ label model, (label, model) ∈ policy → label ≠ [] ∧ model ≠ [].
Proof.
  unfold models. destruct (_ || _) eqn:E; [done|]. intros _. apply orb_false_iff in E as [E1%bool_decide_eq_false_1 E2].
  split; [done|]. intros label model Hin. assert (∀ p, p ∈ policy → bool_decide (p.1 = []) || bool_decide (p.2 = []) = false) as Hp.
  { intros p Hp. apply not_true_iff_false. intros Ht. apply not_true_iff_false in E2. apply E2. apply existsb_exists. exists p.
    split; [by apply list_elem_of_In | done]. }
  apply Hp, orb_false_iff in Hin as [?%bool_decide_eq_false_1 ?%bool_decide_eq_false_1]. done.
Qed.

Lemma check_efforts_ok efforts u : check_efforts efforts = Ret u →
  ∀ label effort, (label, effort) ∈ efforts → label ≠ [] ∧ effort ∈ VALID_REASONING_EFFORTS.
Proof.
  revert u. induction efforts as [|[l e] efforts IH]; intros u; [by intros _ ? ? ?%not_elem_of_nil|]. cbn [check_efforts]. intros Hc.
  apply rbind_ret in Hc as (? & H1%guard_ret%bool_decide_eq_false_1 & Hc).
  apply rbind_ret in Hc as (? & H2%guard_ret%negb_false_iff%bool_decide_eq_true_1 & Hc).
  intros label effort [E|Hin]%elem_of_cons; [by simplify_eq | by eapply IH].
Qed.

Lemma unknown_labels_ok efforts policy label effort :
  unknown_labels efforts policy = [] → (label, effort) ∈ efforts → label ∈ dict_keys policy.
Proof.
  intros E Hin. apply dec_stable. intros Hn. assert (label ∈ unknown_labels efforts policy) as Hu.
  { apply list_elem_of_filter. split; [done|]. apply list_elem_of_fmap. by exists (label, effort). }
  rewrite E in Hu. by apply not_elem_of_nil in Hu.
Qed.

Lemma check_policies_ok c u : check_policies c = Ret u →
  policy_ok (router_model_policy c) (router_reasoning_effort_policy c)
  ∧ policy_ok (worker_model_policy c) (worker_reasoning_effort_policy c).
Proof.
  unfold check_policies, reasoning_efforts. intros Hc. apply rbind_ret in Hc as (? & [R1 R2]%models_ok & Hc).
  apply rbind_ret in Hc as (? & [W1 W2]%models_ok & Hc). apply rbind_ret in Hc as (? & Hr & Hc). apply rbind_ret in Hr as (? & Hr & _).
  apply rbind_ret in Hc as (? & Hw & Hc). apply rbind_ret in Hw as (? & Hw & _).
  apply rbind_ret in Hc as (? & Ur%guard_ret%negb_false_iff%bool_decide_eq_true_1 & Uw%guard_ret%negb_false_iff%bool_decide_eq_true_1).
  split; split_and!; try done; intros label effort Hin.
  - destruct (check_efforts_ok _ _ Hr _ _ Hin). split_and!; try done. by eapply unknown_labels_ok.
  - destruct (check_efforts_ok _ _ Hw _ _ Hin). split_and!; try done. by eapply unknown_labels_ok.
Qed.

Lemma post_init_ok c : post_init c = Ret c → config_ok c.
Proof.
  unfold post_init. intros Hc. apply rbind_ret in Hc as (? & L & Hc). apply rbind_ret in Hc as (? & N & Hc).
  apply rbind_ret in Hc as (? & S & Hc). apply rbind_ret in Hc as (? & R & Hc). apply rbind_ret in Hc as (? & P & _).
  apply check_limits_ok in L as (L1 & L2 & L3 & L4 & L5 & L6 & D). apply check_durations_ok in D as (D1 & D2 & D3 & D4 & D5 & D6).
  apply check_network_ok in N as (N1 & N2 & N3). apply check_speech_ok in S as (S1 & S2 & S3 & S4).
  apply check_release_ok in R as (R1 & R2 & R3). apply check_policies_ok in P as [P1 P2].
  constructor; try done. constructor; try done.
  destruct (provider_timeout_seconds c) as [p| | |], (foreground_search_timeout_seconds c) as [f| | |], (router_timeout_seconds c) as [r| | |]; try done.
  cbn in *. split; [by apply Qle_bool_lt | by apply Qltb_ge].
Qed.

(** C32.  Every configuration that loads is within its documented limits,
    whatever the files and the environment contain: the timeouts are finite and
    positive, the provider's exceeds the foreground one and is not below the
    router's, the counts and the port are in range, the server binds to a loopback
    address, no text that is spoken or reported is blank, and every reasoning
    effort is one the vendor knows, under a label that has a model. *)
Theorem loaded_config_ok config_file env_file (env : dict text text) c :
  load_config config_file env_file env = Ret c → config_ok c.
Proof.
  unfold load_config. intros Hc. apply rbind_ret in Hc as (toml & _ & Hc). apply load_layers_split in Hc as [_ Hc].
  by apply post_init_ok.
Qed.

End valid.

#[local] Existing Instance sample_runtime.
#[local] Existing Instance sample_host.

Lemma loaded_config_ok_witness : config_ok sample_config.
Proof. exact (loaded_config_ok sample_toml sample_env_file sample_env sample_config sample_loads). Defined.
