(* ===== verification/ConfigErrors.v ===== *)
(** How loading the configuration fails: without a TOML document every failure
    is a configuration error, up to the URL parser's own and a timestamp at the
    edge of the calendar; with one, an infinite number escapes the wrapping. *)

From S2P Require Import Prelude PyDict PyText PyValue ConfigLayers Config ConfigLoad ConfigFacts.

Definition is_config_error (e : exn) : bool := match e with ConfigError _ => true | _ => false end.

Section errors.
Context `{PyRuntime} `{HostEnv}.
Implicit Types (values : cfg_values) (lms : list (Z * cfg_values)) (c : Config).

Definition is_str (v : pyval) : Prop := match v with PStr _ => True | _ => False end.
Definition all_str values : Prop := Forall (λ p, is_str p.2) values.

Lemma all_str_get values k v : all_str values → dict_get k values = Some v → ∃ t, v = PStr t.
Proof.
  unfold all_str. rewrite Forall_forall. intros Hs Hg%dict_get_elem%Hs. destruct v; try done. by eexists.
Qed.

Lemma all_str_set k v values : is_str v → all_str values → all_str (dict_set k v values).
Proof. unfold all_str. rewrite !Forall_forall. intros Hv Hs p [->|Hp]%dict_set_elem; [done | by apply Hs]. Qed.

Lemma all_str_pop k values : all_str values → all_str (dict_pop k values).
Proof. unfold all_str, dict_pop. rewrite !Forall_forall. intros Hs p [_ Hp]%list_elem_of_filter. by apply Hs. Qed.

Lemma all_str_merged lms : Forall (λ lm, all_str lm.2) lms → all_str (merged lms).
Proof.
  intros Hl. unfold merged.
  assert (all_str (foldl apply_layer ([], []) lms).1) as Hv.
  { assert (all_str ([], [] : layer_numbers).1) as H1 by by unfold all_str. revert H1.
    generalize (([], []) : cfg_values * layer_numbers). induction Hl as [|[l m] lms Hm _ IH]; intros [values layers] Hv; [done|].
    cbn [foldl]. apply IH. cbn [apply_layer fst snd] in *. revert values Hv. induction Hm as [|[k v] m Hp _ IHm]; intros values Hv; [done|].
    cbn [foldl]. apply IHm. unfold merge_item. case_match; [done | by apply all_str_set]. }
  destruct (foldl apply_layer ([], []) lms) as [values layers]. cbn [fst] in Hv.
  unfold clear_inherited_reasoning_effort, ROLE_MODEL_EFFORT_KEYS. cbn [foldl]. unfold clear_pair.
  repeat case_match; repeat apply all_str_pop; done.
Qed.

Lemma all_str_env (d : dict text text) : all_str (prod_map id PStr <$> d).
Proof. unfold all_str. apply Forall_fmap, Forall_forall. by intros [k v] _. Qed.

Lemma all_str_lines lines values : all_str values → all_str (foldl env_line values lines).
Proof.
  revert values. induction lines as [|l lines IH]; intros values Hv; [done|]. cbn [foldl]. apply IH. unfold env_line.
  repeat case_match; first [done | by apply all_str_set].
Qed.

Lemma layer_maps_str env_file (env : dict text text) : Forall (λ lm, all_str lm.2) (layer_maps_of [] env_file env).
Proof.
  unfold layer_maps_of. constructor; [constructor|]. apply Forall_app. split.
  - destruct env_file as [|content|[|p d]]; cbn [env_file_layer]; [constructor| |constructor|];
      apply Forall_singleton; cbn [snd].
    + apply all_str_lines. constructor.
    + apply (all_str_env (p :: d)).
  - apply Forall_singleton. apply all_str_env.
Qed.

(** ** The steps *)

(** What the steps keep true of the fields that stay raw *)
Definition raw_ok values c : Prop :=
  is_str (bind_host c) ∧ is_str (known_client_url c) ∧ is_str (openai_api_key_env c)
  ∧ (∀ t, deployed_at_utc c = Some t → dict_get (txt "PIPECAT_DEPLOYED_AT_UTC") values = Some (PStr t)).

Definition wrapped values (s : Config → result Config) : Prop :=
  ∀ c, raw_ok values c → match s c with Ret d => raw_ok values d | Raise e => is_config_error e = true end.

Lemma run_steps_wrapped values steps : Forall (wrapped values) steps → wrapped values (run_steps steps).
Proof.
  induction 1 as [|s steps Hs _ IH]; intros c Hc; [done|]. rewrite run_steps_cons. specialize (Hs c Hc).
  destruct (s c); [by apply IH | done].
Qed.

Lemma py_int_error t e : py_int t = Raise e → ∃ m, e = ValueError m.
Proof. unfold py_int. repeat case_match; intros; simplify_eq; by eexists. Qed.

Lemma int_of_text_error t e : int_of_text t = Raise e → ∃ m, e = ValueError m.
Proof.
  unfold int_of_text. destruct (split_sign (strip t)) as [b t']. destruct (numeral_digits t'); [|intros [= <-]; by eexists].
  destruct (py_int _) eqn:E; [done|]. cbn [rbind]. intros [= <-]. by apply py_int_error in E.
Qed.

Lemma converted_wrapped {A} values (f : pyval → result A) caught msg name set :
  all_str values → (∀ t e, f (PStr t) = Raise e → caught e = true) → (∀ a c, raw_ok values c → raw_ok values (set a c)) →
  wrapped values (set_converted values f caught msg name set).
Proof.
  intros Hs Hf Hset c Hc. unfold set_converted. destruct (dict_get (txt name) values) as [v|] eqn:E; [|done].
  destruct (all_str_get _ _ _ Hs E) as [t ->]. destruct (f (PStr t)) eqn:Ef; [by apply Hset|]. by rewrite (Hf _ _ Ef).
Qed.

Lemma int_wrapped values name set caught :
  all_str values → (∀ m, caught (ValueError m) = true) → (∀ a c, raw_ok values c → raw_ok values (set a c)) →
  wrapped values (set_converted values int_of caught " must be an integer" name set).
Proof. intros Hs Hc Hset. apply converted_wrapped; [done| |done]. intros t e [m ->]%int_of_text_error. apply Hc. Qed.

Lemma float_wrapped values name set :
  all_str values → (∀ a c, raw_ok values c → raw_ok values (set a c)) → wrapped values (set_float values name set).
Proof.
  intros Hs Hset. apply converted_wrapped; [done| |done]. intros t e. cbn [float_of]. case_match; [done|]. by intros [= <-].
Qed.

Lemma truthy_wrapped values name set :
  all_str values → (∀ t c, raw_ok values c → raw_ok values (set (PStr t) c)) → wrapped values (set_truthy values name set).
Proof.
  intros Hs Hset c Hc. unfold set_truthy. destruct (dict_get (txt name) values) as [v|] eqn:E; [|done].
  destruct (all_str_get _ _ _ Hs E) as [t ->]. case_match; [by apply Hset | done].
Qed.

Lemma raw_wrapped values name set :
  all_str values → (∀ t c, raw_ok values c → raw_ok values (set (PStr t) c)) → wrapped values (set_raw values name set).
Proof.
  intros Hs Hset c Hc. unfold set_raw. destruct (dict_get (txt name) values) as [v|] eqn:E; [|done].
  destruct (all_str_get _ _ _ Hs E) as [t ->]. by apply Hset.
Qed.

Lemma bool_wrapped values name set :
  (∀ b c, raw_ok values c → raw_ok values (set b c)) → wrapped values (set_bool values name set).
Proof.
  intros Hset c Hc. unfold set_bool, parse_strict_bool. repeat case_match; try done; simplify_eq/=; by try apply Hset.
Qed.

Lemma string_wrapped values name set :
  (∀ t c, dict_get (txt name) values = Some (PStr t) → raw_ok values c → raw_ok values (set t c)) →
  wrapped values (set_string values name set).
Proof. intros Hset c Hc. unfold set_string. repeat case_match; simplify_eq/=; try done. by apply Hset. Qed.

Lemma alias_wrapped values row : wrapped values (set_alias values row).
Proof. intros c Hc. unfold set_alias. destruct row as [[] ms]; destruct (winning_alias_key values ms); exact Hc. Qed.

(** ** Endpoints *)

Definition only_config {A} (x : result A) : Prop := match x with Ret _ => True | Raise e => is_config_error e = true end.

Lemma only_config_bind {A B} (x : result A) (f : A → result B) :
  only_config x → (∀ a, only_config (f a)) → only_config (rbind x f).
Proof. intros Hx Hf. destruct x; [apply Hf | exact Hx]. Qed.

Lemma expand_socket_only t : only_config (expand_socket t).
Proof. unfold expand_socket. by case_match. Qed.

Lemma parse_endpoint_only t : only_config (parse_endpoint t).
Proof.
  unfold parse_endpoint. repeat case_match; try done. apply only_config_bind; [apply expand_socket_only | done].
Qed.

Lemma winner_keys values lms members w keys key :
  NoDup members.*1 → (resolve_family values lms members).1 = Some w → (w, keys) ∈ members → key ∈ keys →
  is_Some (dict_get key values).
Proof.
  intros Hnd Hw Hin Hk. pose proof (resolve_family_wins values lms members) as Hwin. rewrite Hw in Hwin.
  destruct Hwin as (before & keys' & after & Hm & Hc & _).
  assert ((w, keys') ∈ members) as Hin' by (rewrite Hm; set_solver).
  apply (member_keys_of _ _ _ Hnd) in Hin, Hin'. rewrite Hin in Hin'. injection Hin' as <-.
  unfold complete in Hc. rewrite Forall_forall in Hc. specialize (Hc _ Hk). destruct (dict_get key values); [by eexists | done].
Qed.

Lemma item_only {A} values key (f : pyval → result A) :
  is_Some (dict_get (txt key) values) → (∀ v, only_config (f v)) → only_config (rbind (item values key) f).
Proof. intros [v E] Hf. unfold item. rewrite E. apply Hf. Qed.

Lemma endpoint_at_only values key : is_Some (dict_get (txt key) values) → only_config (endpoint_at values key).
Proof.
  intros Hk. apply item_only; [done|]. intros v. apply only_config_bind; [apply parse_endpoint_only | done].
Qed.

Lemma socket_at_only values key : is_Some (dict_get (txt key) values) → only_config (socket_at values key).
Proof.
  intros Hk. apply item_only; [done|]. intros v. apply only_config_bind; [apply expand_socket_only | done].
Qed.

Lemma build_stt_only values lms : only_config (build_stt_endpoint (resolve_family values lms STT_ENDPOINT_MEMBERS).1 values).
Proof.
  assert (NoDup STT_ENDPOINT_MEMBERS.*1) as Hnd by (apply (bool_decide_unpack _); vm_compute; exact I).
  unfold build_stt_endpoint, member_is. case_bool_decide as E1; [|case_bool_decide as E2; [|done]].
  - apply endpoint_at_only. eapply winner_keys; [exact Hnd | exact E1 | by left | by left].
  - apply socket_at_only. eapply winner_keys; [exact Hnd | exact E2 | by right; left | by left].
Qed.

Lemma build_tts_only values lms : only_config (build_tts_endpoint (resolve_family values lms TTS_ENDPOINT_MEMBERS).1 values).
Proof.
  assert (NoDup TTS_ENDPOINT_MEMBERS.*1) as Hnd by (apply (bool_decide_unpack _); vm_compute; exact I).
  unfold build_tts_endpoint, member_is.
  case_bool_decide as E1; [|case_bool_decide as E2; [|case_bool_decide as E3; [|case_bool_decide as E4; [|done]]]].
  - apply endpoint_at_only. eapply winner_keys; [exact Hnd | exact E1 | by left | by left].
  - apply endpoint_at_only. eapply winner_keys; [exact Hnd | exact E2 | by right; left | by left].
  - apply socket_at_only. eapply winner_keys; [exact Hnd | exact E3 | by right; right; left | by left].
  - repeat case_match; done.
Qed.

Lemma endpoint_wrapped values lms : wrapped values (endpoint_step values lms).
Proof.
  intros c Hc. unfold endpoint_step. destruct (half_pair_wins values lms); [done|]. pose proof (build_stt_only values lms) as Hs. pose proof (build_tts_only values lms) as Ht.
  destruct (build_stt_endpoint _ _) as [stt|]; [|done]. cbn [rbind]. destruct (build_tts_endpoint _ _) as [tts|]; [|done]. cbn [rbind].
  destruct stt, tts; exact Hc.
Qed.

Lemma steps_wrapped lms : all_str (merged lms) → wrapped (merged lms) (run_steps (resolve_steps lms)).
Proof.
  intros Hs. apply run_steps_wrapped. unfold resolve_steps. set (values := merged lms) in *. repeat (apply Forall_app; split).
  - apply Forall_fmap, Forall_forall. intros row _. apply alias_wrapped.
  - repeat apply Forall_cons_2; first [apply int_wrapped | apply float_wrapped | apply Forall_nil_2];
      try done; intros ? ? Hc; exact Hc.
  - repeat apply Forall_cons_2; first [apply truthy_wrapped | apply float_wrapped | apply Forall_nil_2];
      try done; intros ? ? Hc; exact Hc.
  - repeat apply Forall_cons_2; first [apply raw_wrapped | apply int_wrapped | apply Forall_nil_2];
      try done; intros ? c (? & ? & ? & ?); done.
  - repeat apply Forall_cons_2; first [apply bool_wrapped; intros ? ? Hc; exact Hc | apply string_wrapped | apply Forall_nil_2];
      intros t c E (? & ? & ? & ?); split_and!; try done. intros t' [= <-]. exact E.
  - repeat apply Forall_cons_2; first [apply truthy_wrapped | apply Forall_nil_2]; try done; intros t c (? & ? & ? & ?); done.
  - apply Forall_singleton, endpoint_wrapped.
Qed.

(** ** Validation *)

Lemma guard_only bad msg : only_config (guard bad msg).
Proof. by destruct bad. Qed.

Lemma check_efforts_only efforts : only_config (check_efforts efforts).
Proof.
  induction efforts as [|[l e] efforts IH]; [done|]. cbn [check_efforts].
  repeat (apply only_config_bind; [apply guard_only|intros _]). done.
Qed.

Lemma models_only policy : only_config (models policy).
Proof. unfold models. by case_match. Qed.

(** The errors validation may raise besides its own *)
Definition foreign_error values (e : exn) : Prop :=
  (∃ url, urlparse url = Raise e)
  ∨ (∃ t, dict_get (txt "PIPECAT_DEPLOYED_AT_UTC") values = Some (PStr t) ∧ parse_utc_timestamp t = Raise overflow_error
          ∧ e = overflow_error).

Definition explained {A} values (x : result A) : Prop :=
  match x with Ret _ => True | Raise e => is_config_error e = true ∨ foreign_error values e end.

Lemma explained_bind {A B} values (x : result A) (f : A → result B) :
  explained values x → (∀ a, x = Ret a → explained values (f a)) → explained values (rbind x f).
Proof. intros Hx Hf. destruct x; [by apply Hf | exact Hx]. Qed.

Lemma explained_guard {A} values bad msg (f : unit → result A) :
  explained values (f tt) → explained values (rbind (guard bad msg) f).
Proof. intros Hf. destruct bad; [by left | exact Hf]. Qed.

Lemma only_explained {A} values (x : result A) : only_config x → explained values x.
Proof. destruct x; [done | by left]. Qed.

Lemma as_str_explained {A} values v (f : text → result A) :
  is_str v → (∀ t, explained values (f t)) → explained values (rbind (as_str v) f).
Proof. destruct v; try done. intros _ Hf. apply Hf. Qed.

Lemma check_limits_only c : only_config (check_limits c).
Proof.
  unfold check_limits, check_durations. repeat (apply only_config_bind; [first [apply guard_only | repeat (apply only_config_bind; [apply guard_only|intros _]); apply guard_only]|intros _]).
  apply guard_only.
Qed.

Lemma check_network_explained values c : raw_ok values c → explained values (check_network c).
Proof.
  intros (Hb & Hu & Hk & _). unfold check_network. apply as_str_explained; [done|]. intros host. do 3 apply explained_guard.
  apply as_str_explained; [done|]. intros url. apply explained_bind.
  { destruct (urlparse url) eqn:E; [done|]. right. left. by exists url. }
  intros parsed _. apply explained_guard. apply as_str_explained; [done|]. intros name. apply only_explained, guard_only.
Qed.

Lemma check_speech_only c : only_config (check_speech c).
Proof. unfold check_speech. repeat (apply only_config_bind; [apply guard_only|intros _]). apply guard_only. Qed.

Lemma parse_timestamp_error t e : parse_utc_timestamp t = Raise e → e = overflow_error ∨ ∃ m, e = ValueError m.
Proof. unfold parse_utc_timestamp. cbv zeta. intros E. repeat case_match; simplify_eq; eauto. Qed.

Lemma check_release_explained values c : raw_ok values c → explained values (check_release c).
Proof.
  intros (_ & _ & _ & Hd). unfold check_release. do 2 apply explained_guard.
  destruct (deployed_at_utc c) as [t|]; [|done]. destruct (parse_utc_timestamp t) as [us|e] eqn:E; [done|].
  destruct (parse_timestamp_error _ _ E) as [->|[m ->]]; [|by left]. right. right. exists t. split_and!; [by apply Hd | done | done].
Qed.

Lemma check_policies_only c : only_config (check_policies c).
Proof.
  unfold check_policies, reasoning_efforts. do 2 (apply only_config_bind; [apply models_only|intros _]).
  do 2 (apply only_config_bind; [apply only_config_bind; [apply check_efforts_only|done]|intros _]).
  apply only_config_bind; [apply guard_only|intros _]. apply guard_only.
Qed.

Lemma post_init_explained values c : raw_ok values c → explained values (post_init c).
Proof.
  intros Hc. unfold post_init. apply explained_bind; [apply only_explained, check_limits_only|]. intros _ _.
  apply explained_bind; [by apply check_network_explained|]. intros _ _.
  apply explained_bind; [apply only_explained, check_speech_only|]. intros _ _.
  apply explained_bind; [by apply check_release_explained|]. intros _ _.
  apply explained_bind; [apply only_explained, check_policies_only|]. done.
Qed.


(** The document [[turn] max_citations = inf] *)
Definition infinite_citations : toml_file :=
  TomlDocument [(txt "turn", PTable [(txt "max_citations", PFloat PosInf)])].

Lemma credential_steps_ret values c : ∃ d, run_steps (credential_steps values) c = Ret d.
Proof.
  unfold credential_steps. generalize (alias_families (openai_key_name values)). intros rows. revert c.
  induction rows as [|row rows IH]; intros c; [by exists c|]. rewrite fmap_cons, run_steps_cons.
  assert (∃ d, set_alias values row c = Ret d) as [d ->] by (unfold set_alias; destruct row as [[] ms]; destruct (winning_alias_key values ms); by eexists).
  apply IH.
Qed.

Lemma effective_silent ms k acc :
  (∀ m, m ∈ ms → dict_get k m = None) → foldl (λ a m, over (says m k) a) acc ms = acc.
Proof.
  revert acc. induction ms as [|m ms IH]; intros acc Hm; [done|]. cbn [foldl]. rewrite IH by (intros; apply Hm; by right).
  unfold says. by rewrite (Hm m) by by left.
Qed.

(** Not every conversion is wrapped: a TOML document whose citation limit is
    infinite makes [load_config] raise [OverflowError] and not [ConfigError],
    since [int] of an infinite float is neither a type nor a value error. *)
Theorem infinite_limit_escapes env_file (env : dict text text) :
  env_source_wf env_file → dict_wf env →
  (∀ m k, m ∈ (layer_maps_of [] env_file env).*2 →
     k ∈ [txt "WEBSEARCH_MAX_WORK_ITEMS_PER_TURN"; txt "WEBSEARCH_MULTI_INTENT_WAIT_TIMEOUT_MS"; txt "WEBSEARCH_MAX_CITATIONS"] →
     dict_get k m = None) →
  load_config infinite_citations env_file env = Raise (OtherException "OverflowError").
Proof.
  intros Hf He Hno. unfold load_config.
  assert (toml_layer infinite_citations = Ret [(txt "WEBSEARCH_MAX_CITATIONS", PFloat PosInf)]) as Ht by reflexivity.
  pose proof (layer_maps_increasing _ _ _ _ Ht Hf He) as Hinc. rewrite Ht. cbn [rbind].
  set (lms := layer_maps_of [(txt "WEBSEARCH_MAX_CITATIONS", PFloat PosInf)] env_file env) in *.
  assert (∀ k, k ∈ [txt "WEBSEARCH_MAX_WORK_ITEMS_PER_TURN"; txt "WEBSEARCH_MULTI_INTENT_WAIT_TIMEOUT_MS"; txt "WEBSEARCH_MAX_CITATIONS"] →
    dict_get k (merged lms) = dict_get k [(txt "WEBSEARCH_MAX_CITATIONS", PFloat PosInf)]) as Hg.
  { intros k Hk. assert (k ∉ EMPTY_MEANS_ABSENT_KEYS) as Hr.
    { rewrite !elem_of_cons, elem_of_nil in Hk. destruct Hk as [->|[->|[->|[]]]]; apply (bool_decide_unpack _); vm_compute; exact I. }
    rewrite merged_other by done. unfold effective, lms, layer_maps_of. rewrite fmap_cons. cbn [foldl snd].
    rewrite effective_silent.
    - unfold says. rewrite (bool_decide_false (k ∈ EMPTY_MEANS_ABSENT_KEYS)) by done. cbn [andb].
      by destruct (dict_get k [(txt "WEBSEARCH_MAX_CITATIONS", PFloat PosInf)]).
    - intros m Hm. apply (Hno m); [|done]. unfold layer_maps_of. rewrite fmap_cons. by right. }
  unfold load_layers, resolve_steps. rewrite run_steps_app. destruct (credential_steps_ret (merged lms) default_config) as [d ->].
  cbn [rbind]. rewrite run_steps_app. unfold number_steps. rewrite !run_steps_cons. unfold set_int, set_converted.
  rewrite !Hg by set_solver. reflexivity.
Qed.

End errors.

#[local] Existing Instance sample_runtime.
#[local] Existing Instance sample_host.


Lemma infinite_limit_escapes_witness :
  load_config infinite_citations NoEnvFile [] = Raise (OtherException "OverflowError").
Proof.
  apply (infinite_limit_escapes NoEnvFile []); [exact I | apply dict_wf_nil |].
  intros m k Hm _. cbn in Hm. rewrite !elem_of_cons, elem_of_nil in Hm. destruct Hm as [->|[->|[]]]; reflexivity.
Defined.
