(* ===== verification/TurnCore.v ===== *)
(** The ground of the turn handlers ([SessionHost] of [src/server/pipeline.py]):
    the state a turn's coroutine acts on, its awaits, and the calls the
    handlers share.

    A handler is a computation on [TurnState]: the session host, the worker
    registry and the handler's local variables.  It may raise or be cancelled, and
    only an await suspends it.  What happens outside the handler is an argument:
    [ev_other n] is whatever other tasks do to the host during the await number
    [n], [ev_fate n] how that await ends, and the other functions are the clock, the
    minted ids and the answers of the router and of the search workers at that
    point.  [ts_tick] counts the points. *)

From S2P Require Import Prelude PyDict Contracts SessionState ConnectionArbiter WorkTaskLedger SpeechLifecycle SpeechScheduler SpeechSystem TurnAckLedger Routing WorkItemCoordinator WorkStatusPublisher PerfMetrics WorkerProjection SessionHost Delegation TurnEpilogue.

(** How an await ends for the coroutine that awaits *)
Inductive fate := Resumed | FailedWith (e : exn) | CancelledHere.

(** [DispatchOutcome]; [OUnknown] is any other kind, or a route without a decision *)
Inductive turn_outcome :=
| OControl (control_action : option string) (work_items : list string)
| OMultiIntent (pending : option PendingDialogue) (work_items : list string)
| OContinuePending (pending : option PendingDialogue) (work_items : list string)
| ORouted (decision : RoutingDecision) (prose : option string) (snapshot : option WorkerCatalogue)
| OUnknown.

(** What a search task has become when the foreground wait ends *)
Inductive search_end :=
| SearchRunning
| SearchReturned (r : option GroundedResult)
| SearchRaised (e : exn)
| SearchCancelled.

(** What a handler returns *)
Inductive reply :=
| RTranscript (t : string)
| ROutcome (o : turn_outcome)
| RResult (r : GroundedResult)
| RResults (l : list GroundedResult)
| RNothing.

Record TurnEnv (L : Type) := mkEnv {
  ev_now : nat → Q;
  ev_mint : nat → string;
  ev_stamp : nat → string;
  ev_slot : nat → slot_env;
  ev_other : nat → Host L → Host L;
  ev_fate : nat → fate;
  ev_turn_task : nat;
  ev_arbitrate : nat → Prelude.result turn_outcome;
  ev_route : nat → Prelude.result (RoutingDecision * option string);
  ev_search : nat → search_end;
  ev_label : nat → option string;     (* the outcome label [execute] left for an item *)
  ev_commit_ms : Q;                   (* the measured duration of the commit *)
  ev_supports_status : bool           (* [origin.supports_work_status] *)
}.
Arguments mkEnv {L}. Arguments ev_now {L}. Arguments ev_mint {L}. Arguments ev_stamp {L}. Arguments ev_slot {L}.
Arguments ev_other {L}. Arguments ev_fate {L}. Arguments ev_turn_task {L}. Arguments ev_arbitrate {L}.
Arguments ev_route {L}. Arguments ev_search {L}. Arguments ev_label {L}. Arguments ev_commit_ms {L}. Arguments ev_supports_status {L}.

Record TurnState (L : Type) := mkTurnState {
  ts_host : Host L;
  ts_registry : WorkerRegistry;
  ts_recorder : AppTurnRecorder;
  ts_children : dict string (option string);    (* [delegated_children] *)
  ts_retained_open : bool;                      (* [retained_still_open] *)
  ts_retained_items : list string;              (* [retained_work_items] *)
  ts_late : dict string LateDeliveryContext;    (* what the late-result callbacks captured *)
  ts_tick : nat
}.
Arguments mkTurnState {L}. Arguments ts_host {L}. Arguments ts_registry {L}. Arguments ts_recorder {L}.
Arguments ts_children {L}. Arguments ts_retained_open {L}. Arguments ts_retained_items {L}. Arguments ts_late {L}.
Arguments ts_tick {L}.

#[export] Instance eta_TurnState L : Eta (TurnState L) := λ r,
  mkTurnState (ts_host r) (ts_registry r) (ts_recorder r) (ts_children r) (ts_retained_open r) (ts_retained_items r)
    (ts_late r) (ts_tick r).

Declare Scope turn_scope.
Delimit Scope turn_scope with turn.

(** ** Computations *)

Section computation.
Context {L : Type}.

Definition M (A : Type) : Type := TurnState L → TurnState L * TurnEpilogue.ended A.

Definition mret {A} (a : A) : M A := λ s, (s, Finished a).
Definition mraise {A} (e : exn) : M A := λ s, (s, Raised e).

Definition mbind {A B} (m : M A) (k : A → M B) : M B := λ s,
  match m s with
  | (s, Finished a) => k a s
  | (s, Raised e) => (s, Raised e)
  | (s, Interrupted) => (s, Interrupted)
  end.

(** [try: m except Exception as exc: handler(exc)]; a cancellation passes *)
Definition mtry {A} (m : M A) (handler : exn → M A) : M A := λ s,
  match m s with
  | (s, Raised e) => handler e s
  | r => r
  end.

Definition lift {A} (x : Prelude.result A) : M A :=
  match x with Ret a => mret a | Raise e => mraise e end.

Definition gets {A} (f : TurnState L → A) : M A := λ s, (s, Finished (f s)).
Definition modify (f : TurnState L → TurnState L) : M unit := λ s, (f s, Finished tt).

(** A call on the host that may raise, with what it returns *)
Definition on_host {A} (f : Host L → Host L * Prelude.result A) : M A := λ s,
  let (h, out) := f (ts_host s) in
  (s <| ts_host := h |>, match out with Ret a => Finished a | Raise e => Raised e end).

Definition on_host_ (f : Host L → Host L) : M unit := modify (λ s, s <| ts_host ::= f |>).

(** A point at which the environment is consulted *)
Definition tick : M nat := λ s, (s <| ts_tick ::= S |>, Finished (ts_tick s)).

End computation.

Arguments M : clear implicits.

Notation "x ⇐ m ;; k" := (mbind m (λ x, k))
  (at level 100, m at next level, right associativity) : turn_scope.
Notation "m ;; k" := (mbind m (λ _, k)) (at level 100, right associativity) : turn_scope.
Open Scope turn_scope.

Section shared.
Context {L : Type} `{!SpeechSlot L} {retention : RetentionConfig} `{CoordinatorConfig}.
Context (env : TurnEnv L).

(** [await]: other tasks run, then the coroutine goes on, raises or is cancelled *)
Definition await : M L unit := λ s,
  let n := ts_tick s in
  let s := s <| ts_tick ::= S |> <| ts_host ::= ev_other env n |> in
  (s, match ev_fate env n with Resumed => Finished tt | FailedWith e => Raised e | CancelledHere => Interrupted end).

(** [try: await ... except CancelledError: cleanup; raise] *)
Definition await_or (cleanup : M L unit) : M L unit := λ s,
  match await s with
  | (s, Interrupted) => match cleanup s with (s, Raised e) => (s, Raised e) | (s, _) => (s, Interrupted) end
  | r => r
  end.

Definition clock : M L Q := n ⇐ tick ;; mret (ev_now env n).

Definition on_recorder (f : Q → AppTurnRecorder → AppTurnRecorder) : M L unit :=
  now ⇐ clock ;; modify (λ s, s <| ts_recorder ::= f now |>).

(** [turn_recorder.finalize] *)
Definition finalize_turn_as (outcome action control_outcome : option string) : M L unit :=
  on_recorder (turn_finalize outcome action control_outcome None None).

(** [child.finalize] *)
Definition finalize_child_as (child : nat) (outcome : string) (details : ChildDetails) : M L unit :=
  on_recorder (child_finalize child outcome details).

(** [canonical_result] with a minted id and a timestamp *)
Definition canonical (worker_id turn_id text : string) (epoch : N) : M L GroundedResult :=
  n ⇐ tick ;;
  lift (canonical_result worker_id turn_id text None (ev_mint env n) (ev_stamp env n) (Some epoch)).

(** [_emit_work_status] *)
Definition emit_as (t : StatusTarget) (item : string) (worker : option string) (d : TurnEpilogue.status) : M L unit :=
  now ⇐ clock ;; on_host (host_emit_work_status t item worker d now).

(** [_commit_and_speak]: the awaited [start_next] suspends when it has started
    a generation; what it adds to [suppressed_out] is returned *)
Definition commit_as (p : nat) (role : SpeechRole) (require_tts : bool) (r : GroundedResult)
    : M L (GroundedResult * list string) :=
  n ⇐ tick ;;
  c ⇐ on_host (SessionHost.commit_and_speak r p role require_tts (ev_mint env n) (ev_stamp env n) (ev_slot env n)
                 (ev_now env n)) ;;
  match c with
  | CSpeaking _ => (await ;; mret (r, []))
  | CSuppressed item => mret (r, [item])
  | CHistoryOnly | CQueued => mret (r, [])
  end.

(** The answer of the turn's own worker [main], committed and spoken *)
Definition say (p : nat) (turn_id text : string) (epoch : N) (require_tts : bool) : M L GroundedResult :=
  r ⇐ canonical "main" turn_id text epoch ;;
  c ⇐ commit_as p ROLE_RESULT require_tts r ;;
  mret c.1.

(** [emit_early_ack]: it yields once when it is given a search task *)
Definition early_ack (p : nat) (turn_id : string) (epoch : N) (dispatched search_task : bool) : M L unit :=
  n ⇐ tick ;;
  before ⇐ gets (λ s, length (emits (h_acks (ts_host s)))) ;;
  on_host (with_acks p (emit_early_ack p turn_id epoch dispatched search_task (ev_mint env n))) ;;
  after ⇐ gets (λ s, length (emits (h_acks (ts_host s)))) ;;
  if bool_decide (before < after)%nat then await else mret tt.

(** [_begin_delegation], with the turn's recorder and its children *)
Definition begin_as (r : DelegationRequest) (finalize_turn_on_failure : bool) : M L (option DelegatedChild) :=
  now ⇐ clock ;;
  λ s,
    let '(h, t, out) := begin_delegation r finalize_turn_on_failure now (ts_host s)
                          (mkLocals (ts_recorder s) (ts_children s)) in
    (s <| ts_host := h |> <| ts_recorder := tl_recorder t |> <| ts_children := tl_children t |>,
     match out with Ret c => Finished c | Raise e => Raised e end).

(** [coordinator.dispatch] behind [_dispatch]; the coordinator must be open *)
Definition dispatch_as (d : RoutingDecision) (c : option WorkerCatalogue) : M L (option WorkerObject) := λ s,
  match h_coordinator (ts_host s) with
  | None => (s, Raised (RuntimeError "coordinator is required to execute work"))
  | Some co =>
      match ensure_open co with
      | Raise e => (s, Raised e)
      | Ret _ =>
          let (r, out) := dispatch d c (ts_registry s) in
          (s <| ts_registry := r |>,
           match out with Ret w => Finished (rw_worker <$> w) | Raise e => Raised e end)
      end
  end.

(** A call on the coordinator *)
Definition on_coordinator {A} (f : WorkItemCoordinator late_value → WorkItemCoordinator late_value * A) : M L A := λ s,
  match h_coordinator (ts_host s) with
  | None => (s, Raised (RuntimeError "coordinator is required to execute work"))
  | Some co =>
      let (co, a) := f co in
      (s <| ts_host ::= (λ h, h <| h_coordinator := Some co |>) |>, Finished a)
  end.

(** [work_item_id in self._work_ledger.cancelled_ids] *)
Definition is_cancelled (item : string) : M L bool :=
  gets (λ s, bool_decide (item ∈ cancelled_ids (work_ledger (ts_host s)))).

(** [replaces_legacy_result_for(origin)] *)
Definition replaces_legacy : M L bool :=
  gets (λ s, replaces_legacy_result_for (ev_supports_status env) (h_background_status (ts_host s))).

(** [_new_late_delivery_context] *)
Definition new_late_delivery_context (turn_id work_item_id : string) (epoch : N) (accepted_turn_sequence : option N)
    (parent : option string) (live_sequence : N) : LateDeliveryContext :=
  mkLateContext turn_id work_item_id epoch parent (default live_sequence accepted_turn_sequence).

(** The callback given to the coordinator captures a context. *)
Definition capture (turn_id work_item_id : string) (epoch accepted_turn_sequence : N) (parent : option string) : M L unit :=
  modify (λ s, s <| ts_late ::= dict_set work_item_id
    (new_late_delivery_context turn_id work_item_id epoch (Some accepted_turn_sequence) parent
       (turn_sequence (host_ledger (ts_host s)))) |>).

Definition sequence_now : M L N := gets (λ s, turn_sequence (host_ledger (ts_host s))).

(** [_recorder_factory.new_retained_recorder] *)
Definition new_retained (turn_id work_item_id worker_id : string) (epoch : N) : M L RetainedRecorder :=
  now ⇐ clock ;;
  session ⇐ gets (λ s, session_id (h_state (ts_host s))) ;;
  mret (RetainedRecorder_init session (Z.of_N epoch) turn_id work_item_id worker_id now).

Definition register_recorder (item : string) (r : RetainedRecorder) : M L unit :=
  on_host_ (λ h, h <| h_recorders ::= register_if_open item r |>).

(** ** The search *)

Inductive search_execution := Completed (r : option GroundedResult) | Retained | CapacityRejected | RetentionRejected.

(** [_dispatch_search_task] *)
Definition dispatch_search_task : M L (option nat) := on_coordinator (start_task Opaque false).

(** [_search_with_timeout] with a dispatched task; a cancellation during the
    wait cancels the search and waits for it *)
Definition search_with_timeout (task : option nat) (turn_id work_item_id worker_id : string) (epoch : N)
    : M L search_execution :=
  match task with
  | None => mret CapacityRejected
  | Some t =>
      on_host_ (λ h, h <| h_work ::= register_work_task work_item_id t |>) ;;
      sequence ⇐ sequence_now ;;
      recorder ⇐ new_retained turn_id work_item_id worker_id epoch ;;
      n ⇐ gets ts_tick ;;
      await_or (on_coordinator (λ c, (cancel_task t c, tt)) ;; await) ;;
      match ev_search env n with
      | SearchReturned r => mret (Completed r)
      | SearchRaised e => mraise e
      | SearchCancelled => λ s, (s, Interrupted)
      | SearchRunning =>
          register_recorder work_item_id recorder ;;
          capture turn_id work_item_id epoch sequence None ;;
          accepted ⇐ on_coordinator (retain_late_task t work_item_id worker_id SyncCallback) ;;
          if (accepted : bool) then mret Retained
          else on_host_ (λ h, h <| h_recorders ::= dict_pop work_item_id |>) ;; mret RetentionRejected
      end
  end.

(** ** The ends of a handler *)

(** [_finalize_turn_exception] *)
Definition turn_exception (cancelled_turn : bool) (t : StatusTarget) (children : dict string (option string)) (p : nat)
    : M L unit :=
  now ⇐ clock ;;
  on_host (finalize_turn_exception cancelled_turn t children (Some p) now) ;;
  finalize_turn_as (Some (if cancelled_turn then "cancelled" else "failed")) None None.

(** [try: body except CancelledError: ... raise except Exception: ... raise
    finally: ...]; an exception of a handler replaces the one it handles *)
Definition turn_frame {A} (body : M L A) (on_exception : bool → M L unit) (finally : M L unit) : M L A := λ s,
  let '(s, out) :=
    match body s with
    | (s, Interrupted) =>
        match on_exception true s with
        | (s, Finished _) => (s, Interrupted)
        | (s, Raised e) => (s, Raised e)
        | (s, Interrupted) => (s, Interrupted)
        end
    | (s, Raised e) =>
        match on_exception false s with
        | (s, Finished _) => (s, Raised e)
        | (s, Raised e') => (s, Raised e')
        | (s, Interrupted) => (s, Interrupted)
        end
    | r => r
    end in
  match finally s with
  | (s, Finished _) => (s, out)
  | (s, Raised e) => (s, Raised e)
  | (s, Interrupted) => (s, Interrupted)
  end.

(** [release_all_turn_work_items] *)
Definition release_turn (turn_id : string) : M L unit := on_host_ (on_ledger (release_all_turn_work_items turn_id)).

(** The context of the epilogue, on this state *)
Definition run_unit (m : M L unit) (s : TurnState L) : TurnState L := (m s).1.

Definition epilogue_context (p : nat) (t : StatusTarget) (child : option (nat * string)) (search_ms : option Q)
    (idle : option WorkerObject) : TurnEpilogueContext (TurnState L) :=
  let turn_id := tg_turn_id t in
  mkContext
    (λ cancel_admitted, run_unit (now ⇐ clock ;;
       on_host_ (λ h, (with_acks p (λ y, (settle_turn_ack p turn_id cancel_admitted now y, tt)) h).1)))
    (λ item worker d s, match emit_as t item worker d s with
                        | (s, Finished _) => (s, Ret tt)
                        | (s, Raised e) => (s, Raise e)
                        | (s, Interrupted) => (s, Ret tt)
                        end)
    (λ item, run_unit (on_host_ (on_ledger (release_turn_work_item turn_id item))))
    (run_unit (release_turn turn_id))
    (λ r role s, match commit_as p role true r s with
                 | (s, Finished (r, suppressed)) => (s, CommitReturned r suppressed)
                 | (s, Raised e) => (s, CommitRaised e)
                 | (s, Interrupted) => (s, CommitCancelled)
                 end)
    (λ outcome result, match child with
                       | Some (n, worker) =>
                           run_unit (finalize_child_as n outcome
                                       (mkDetails (Some worker) result search_ms (Some (ev_commit_ms env)) None None None None))
                       | None => id
                       end)
    (run_unit (modify (λ s, s <| ts_recorder ::= record_commit_ms (ev_commit_ms env) |>)))
    (run_unit (finalize_turn_as None None None))
    (match idle with
     | Some w => Some (λ latest s, s <| ts_host ::= (λ h, h <| h_state ::=
                                      project w (default 0%N (tg_epoch t)) "idle" latest |>) |>)
     | None => None
     end).

End shared.
