(* ===== verification/TurnHandlers.v ===== *)
(** The turn handlers for one intent and for the answer to a clarification
    ([_handle_transcript_impl] and [_handle_pending] of [SessionHost],
    [src/server/pipeline.py]), on the ground of [TurnCore.v]. *)

From stdpp Require Import pretty.
From S2P Require Import Prelude PyDict Contracts SessionState ConnectionArbiter WorkTaskLedger SpeechLifecycle SpeechScheduler SpeechSystem TurnAckLedger Routing WorkItemCoordinator WorkStatusPublisher PerfMetrics WorkerProjection SessionHost Delegation TurnEpilogue TurnCore.

(** ** Texts *)

Definition CONTROL_ACK_TEXT : dict string string :=
  [("pause", "Pausing the active response."); ("resume", "Resuming the paused response.");
   ("cancel", "Cancelling the active response."); ("stop", "Stopping the active response.")].

Definition CONTROL_MISS_ACK_TEXT : dict string string :=
  [("unknown_target", "I could not find that active work item.");
   ("no_active", "There is no active response to cancel.")].

Definition ROUTING_UNAVAILABLE_TEXT := "Routing is temporarily unavailable. Please try that request again.".
Definition SEARCH_UNAVAILABLE_TEXT := "The web search is temporarily unavailable.".
Definition NO_RELIABLE_RESULT_TEXT := "I could not find a reliable result for that request.".
Definition SEARCH_BUSY_TEXT := "The search service is busy; please try again shortly.".
Definition PENDING_REQUEST_INCOMPLETE_TEXT := "The pending web request could not be completed.".
Definition CAPABILITY_UNAVAILABLE_TEXT := "I cannot access that capability here.".
Definition FOREGROUND_TIMEOUT_TEXT := "That is taking longer than expected; I will continue in the background.".

Definition action_name (a : RouteAction) : string :=
  match a with
  | direct => "direct" | unsupported => "unsupported" | clarify => "clarify"
  | existing_worker => "existing_worker" | new_worker => "new_worker"
  end.

(** The routes that are answered without a worker, and the text used when the
    router gave none *)
Definition direct_text (a : RouteAction) : option string :=
  match a with
  | direct => Some "I could not produce a direct answer yet."
  | unsupported => Some "I cannot access that capability here."
  | clarify => Some "Could you clarify what you want me to search for?"
  | existing_worker | new_worker => None
  end.

(** [except (RoutingValidationError, UnsupportedWorkerType)] *)
Definition undispatchable (e : exn) : bool :=
  match e with RoutingValidationError _ => true | _ => bool_decide (e = UnsupportedWorkerType) end.

(** [_failure_child_outcome] on the kinds the coordinator reports *)
Definition failure_child_outcome (f : WorkItemFailure) : string :=
  match wf_kind f with
  | capacity_rejected => "capacity_rejected"
  | retention_rejected => "retention_rejected"
  | failure_cancelled => "cancelled"
  | failure_failed => "failed"
  end.

Section handlers.
Context {L : Type} `{!SpeechSlot L} {retention : RetentionConfig} `{CoordinatorConfig}.
Context (env : TurnEnv L) (p : nat) (origin_epoch : N).
Implicit Types (turn_id : string).

Definition target turn_id : StatusTarget := mkTarget turn_id None (Some origin_epoch).

(** ** Control turns *)

Definition control_speech {A} (f : Scheduler SessionState L → Scheduler SessionState L * A) : M L (option A) := λ s,
  let (h, a) := with_scheduler p f (ts_host s) in (s <| ts_host := h |>, Finished a).

(** The work item of the speech that is being played *)
Definition active_work (s : TurnState L) : option string :=
  pl ← pipelines (h_acks (ts_host s)) !! p;
  si_work_item_id ∘ lease_item <$> active (pl_scheduler pl).

Definition control_pause (items : list string) : M L (string * option string) :=
  a ⇐ gets active_work ;;
  match a with
  | None => mret ("no_active", None)
  | Some playing =>
      now ⇐ clock env ;;
      control_speech (λ s, (pause (default playing (head items)) now s, tt)) ;;
      await env ;;
      mret ("applied", None)
  end.

Definition control_resume (items : list string) : M L (string * option string) :=
  n ⇐ tick ;;
  replay ⇐ control_speech (resume_speech (match head items with Some k => TKey k | None => TNone end) (ev_mint env n)) ;;
  match replay with
  | Some (Raise e) => mraise e
  | Some (Ret (Some i)) =>
      started ⇐ control_speech (start_next (Some (si_work_item_id i)) (ev_slot env n) (ev_now env n)) ;;
      match started with Some (Some _) => await env | _ => mret tt end ;;
      mret ("applied", None)
  | _ => mret ("no_active", None)
  end.

(** A cancel is routed through the host's cancellation boundary, for the turn
    that owns the target. *)
Definition control_cancel turn_id (work_item_id : string) (items : list string) : M L (string * option string) :=
  let named := head items in
  owner ⇐ gets (λ s, match named with
                     | Some t => ack_turn_for_work_item t (host_ledger (ts_host s))
                     | None => Some turn_id
                     end) ;;
  now ⇐ clock env ;;
  cancelled ⇐ on_host (λ h, let (h, c) := cancel_turn_or_child owner named (Some p) (Some work_item_id) now h in
                            (h, Ret c)) ;;
  await env ;;
  let '(work, speech) := cancelled in
  match work, speech with
  | [], [] =>
      let outcome := match named with Some _ => "unknown_target" | None => "no_active" end in
      mret (outcome, dict_get outcome CONTROL_MISS_ACK_TEXT)
  | _, _ => mret ("applied", None)
  end.

Definition handle_control turn_id (work_item_id : string) (action : option string) (items : list string) : M L reply :=
  o ⇐ match action with
      | Some a =>
          if decide (a = "pause") then control_pause items
          else if decide (a = "resume") then control_resume items
          else if bool_decide (a ∈ ["cancel"; "stop"]) then control_cancel turn_id work_item_id items
          else if decide (a = "consent") then mret ("no_pending", None)
          else mret ("unknown_target", None)
      | None => mret ("unknown_target", None)
      end ;;
  let '(outcome, override) := o in
  let text := match override with
              | Some t => t
              | None => default "Control request noted." (a ← action; dict_get a CONTROL_ACK_TEXT)
              end in
  r ⇐ say env p turn_id text origin_epoch true ;;
  match action with
  | None => finalize_turn_as env (Some "failed") None None
  | Some a => finalize_turn_as env (Some "control") (Some a) (Some outcome)
  end ;;
  mret (RResult r).

(** ** A delegated child *)

(** The epilogue of a turn with one child *)
Definition close_child turn_id (worker : option WorkerObject) (c : DelegatedChild) (result : GroundedResult)
    (label : string) (was_cancelled : bool) (search_ms : option Q) (idle cancel_admitted record_commit : bool)
    (derive : option string → bool → option string → option TurnEpilogue.status) : M L reply :=
  retained ⇐ gets ts_retained_open ;;
  o ⇐ finalize_single_child_turn
        (epilogue_context env p (target turn_id) (Some (dc_child c, dc_worker_id c)) search_ms worker) derive
        (mkSingle (dc_work_item_id c) (dc_worker_id c) result label retained was_cancelled
           (speech_role_for_child_outcome label) idle cancel_admitted record_commit) ;;
  modify (λ s, s <| ts_retained_open := o.2 |>) ;;
  mret (RResult o.1).

(** What the search of a single intent comes to: a reply that ends the turn at
    once, or a result with the child's outcome label *)
Definition search_child turn_id (work_item_id : string) (c : DelegatedChild) : M L (reply + GroundedResult * string) :=
  let say_as text label := r ⇐ canonical env (dc_worker_id c) turn_id text origin_epoch ;; mret (inr (r, label)) in
  task ⇐ dispatch_search_task ;;
  match task with
  | Some t => on_host_ (λ h, h <| h_work ::= register_work_task work_item_id t |>)
  | None => mret tt
  end ;;
  now ⇐ clock env ;;
  on_host (mark_delegation_searching c (target turn_id) now) ;;
  early_ack env p turn_id origin_epoch true (match task with Some _ => true | None => false end) ;;
  execution ⇐ search_with_timeout env task turn_id work_item_id (dc_worker_id c) origin_epoch ;;
  match execution with
  | Completed (Some r) => mret (inr (r, "completed"))
  | Completed None => say_as NO_RELIABLE_RESULT_TEXT "declined"
  | Retained =>
      emit_as env (target turn_id) work_item_id (Some (dc_worker_id c)) (background, None) ;;
      replaces ⇐ replaces_legacy env ;;
      if replaces then
        finalize_child_as env (dc_child c) "retained" (mkDetails (Some (dc_worker_id c)) None None None None None None None) ;;
        finalize_turn_as env None None None ;;
        modify (λ s, s <| ts_retained_open := true |>) ;;
        mret (inl RNothing)
      else say_as FOREGROUND_TIMEOUT_TEXT "retained"
  | CapacityRejected => say_as SEARCH_BUSY_TEXT "capacity_rejected"
  | RetentionRejected => say_as SEARCH_BUSY_TEXT "retention_rejected"
  end.

(** [except WorkerClarify], [except WorkerDeclined] and [except Exception] *)
Definition search_failed turn_id (transcript : string) (c : DelegatedChild) (e : exn) : M L (reply + GroundedResult * string) :=
  match e with
  | WorkerClarify question =>
      n ⇐ tick ;;
      r ⇐ on_host (λ h, let (cs, r) := clarification_result (dc_worker_id c) turn_id question transcript (Some origin_epoch)
                                         (ev_mint env n) (ev_stamp env n) (h_candidates h) in
                        (h <| h_candidates := cs |>, r)) ;;
      mret (inr (r, "clarify"))
  | WorkerDeclined =>
      r ⇐ canonical env (dc_worker_id c) turn_id NO_RELIABLE_RESULT_TEXT origin_epoch ;; mret (inr (r, "declined"))
  | _ => r ⇐ canonical env (dc_worker_id c) turn_id SEARCH_UNAVAILABLE_TEXT origin_epoch ;; mret (inr (r, "failed"))
  end.

Definition delegate_single turn_id (work_item_id transcript : string) (worker : option WorkerObject) (o : turn_outcome)
    : M L reply :=
  delegation ⇐ begin_as env (mkRequest turn_id work_item_id worker origin_epoch None None) true ;;
  match delegation with
  | None => mret (ROutcome o)
  | Some c =>
      started ⇐ clock env ;;
      found ⇐ mtry (search_child turn_id work_item_id c) (search_failed turn_id transcript c) ;;
      match found with
      | inl r => mret r
      | inr (result, label) =>
          now ⇐ clock env ;;
          was_cancelled ⇐ is_cancelled work_item_id ;;
          modify (λ s, s <| ts_retained_open := bool_decide (label = "retained") && negb was_cancelled |>) ;;
          close_child turn_id worker c result label was_cancelled (Some ((now - started) * 1000)%Q) true false true
            status_omitted_while_retained
      end
  end.

(** ** A routed turn *)

Definition handle_routed turn_id (work_item_id transcript : string) (d : RoutingDecision) (prose : option string)
    (snapshot : option WorkerCatalogue) : M L reply :=
  on_host_ (λ h, h <| h_state ::= (λ s,
    (set_routing (mkRoutingState turn_id (action d) (rd_worker_id d) (rd_worker_type d) (rd_topic d) (rd_model_policy d)
                    (Some origin_epoch)) s).1) |>) ;;
  match direct_text (action d) with
  | Some fallback =>
      r ⇐ say env p turn_id (py_or prose fallback) origin_epoch false ;;
      finalize_turn_as env (Some (action_name (action d))) None None ;;
      mret (RResult r)
  | None =>
      worker ⇐ mtry (w ⇐ dispatch_as d snapshot ;; await env ;; mret (inr w))
                 (λ e, if undispatchable e then
                         r ⇐ say env p turn_id CAPABILITY_UNAVAILABLE_TEXT origin_epoch true ;;
                         finalize_turn_as env (Some "failed") None None ;; mret (inl (RResult r))
                       else mraise e) ;;
      match worker with
      | inl r => mret r
      | inr w => delegate_single turn_id work_item_id transcript w (ORouted d prose snapshot)
      end
  end.

(** ** The answer to a pending clarification *)

(** The submission of a task; its results are collected when the wait is over; another
    task never removes its frame.  [execute] returns result objects, which
    [materialize_result] leaves alone. *)
Definition frame_of (sub : nat) (c : WorkItemCoordinator late_value) : option nat :=
  fst <$> list_find (λ f, fr_submission f = sub) (frames c).

Definition collect_submission (sub : nat) : M L (SubmittedOutcome late_value) :=
  out ⇐ on_coordinator (λ c, match frame_of sub c with Some n => submit_collect id n c | None => (c, None) end) ;;
  match out with
  | Some o => mret o
  | None => mraise (RuntimeError "submission lost")
  end.

(** A cancelled submission cancels its items and waits for them. *)
Definition abandon_submission (sub : nat) : M L unit :=
  let on_frame f := on_coordinator (λ c, (match frame_of sub c with Some n => f n c | None => c end, tt)) in
  on_frame submit_cancelled ;; await env ;; on_frame submit_raise.

(** [coordinator.submit]; the handler's own task runs it *)
Definition submit_as (turn_key : string) (items : list (string * string)) (ids : list string)
    : M L (SubmittedOutcome late_value) :=
  let sub := ev_turn_task env in
  begun ⇐ on_coordinator (submit_begin sub turn_key items (Some ids) SyncCallback) ;;
  lift begun ;;
  await_or env (abandon_submission sub) ;;
  collect_submission sub.

(** [registry.get(owner)]; its ValueError leaves the handler *)
Definition owner_worker (owner : option string) : M L (option WorkerObject) :=
  match owner with
  | None => mret None
  | Some o =>
      if bool_decide (o = EmptyString) then mret None
      else r ⇐ gets ts_registry ;; w ⇐ lift (Routing.get o r) ;; mret (Some (rw_worker w))
  end.

(** A result of the coordinator that is not a grounded result has no id. *)
Definition grounded (v : late_value) : M L GroundedResult :=
  match v with Grounded r => mret r | Ungrounded => mraise (OtherException "AttributeError") end.

Definition child_details (worker_id : string) (result : option string) : ChildDetails :=
  mkDetails (Some worker_id) result None None None None None None.

Definition pending_result turn_id (work_item_id : string) (c : DelegatedChild) (recorder : RetainedRecorder)
    (o : SubmittedOutcome late_value) (label : string) : M L (reply + GroundedResult * string) :=
  match so_results o, so_pending_work_item_ids o with
  | v :: _, _ =>
      r ⇐ grounded v ;;
      finalize_child_as env (dc_child c) label (child_details (dc_worker_id c) (Some (result_id r))) ;;
      mret (inr (r, label))
  | [], _ :: _ =>
      modify (λ s, s <| ts_retained_open := true |>) ;;
      finalize_child_as env (dc_child c) "retained" (child_details (dc_worker_id c) None) ;;
      register_recorder work_item_id recorder ;;
      emit_as env (target turn_id) work_item_id (Some (dc_worker_id c)) (background, None) ;;
      replaces ⇐ replaces_legacy env ;;
      if replaces then finalize_turn_as env None None None ;; mret (inl RNothing)
      else r ⇐ canonical env (dc_worker_id c) turn_id FOREGROUND_TIMEOUT_TEXT origin_epoch ;; mret (inr (r, "retained"))
  | [], [] =>
      let failure := match so_failures o with f :: _ => failure_child_outcome f | [] => "failed" end in
      r ⇐ canonical env (dc_worker_id c) turn_id PENDING_REQUEST_INCOMPLETE_TEXT origin_epoch ;;
      finalize_child_as env (dc_child c) failure (child_details (dc_worker_id c) None) ;;
      mret (inr (r, failure))
  end.

Definition pending_body turn_id (transcript : string) (pending : option PendingDialogue) (items : list string) : M L reply :=
  let owner := match pd_owner_id <$> pending with Some o => Some o | None => head items end in
  let work_item_id := work_item_of_turn turn_id in
  sequence ⇐ sequence_now ;;
  worker ⇐ owner_worker owner ;;
  match worker with Some _ => await env | None => mret tt end ;;
  delegation ⇐ begin_as env (mkRequest turn_id work_item_id worker origin_epoch (Some (py_or owner "main")) None) true ;;
  match delegation with
  | None => mret (ROutcome (OContinuePending pending items))
  | Some c =>
      recorder ⇐ new_retained env turn_id work_item_id (dc_worker_id c) origin_epoch ;;
      early_ack env p turn_id origin_epoch false false ;;
      capture turn_id work_item_id origin_epoch sequence None ;;
      now ⇐ clock env ;;
      on_host (mark_delegation_searching c (target turn_id) now) ;;
      n ⇐ gets ts_tick ;;
      submitted ⇐ submit_as work_item_id [(dc_worker_id c, transcript)] [work_item_id] ;;
      found ⇐ pending_result turn_id work_item_id c recorder submitted (default "completed" (ev_label env n)) ;;
      match found with
      | inl r => mret r
      | inr (result, label) =>
          was_cancelled ⇐ is_cancelled work_item_id ;;
          modify (λ s, s <| ts_retained_open := ts_retained_open s && negb was_cancelled |>) ;;
          close_child turn_id worker c result label was_cancelled None false
            (bool_decide (so_results submitted = []) && bool_decide (so_pending_work_item_ids submitted = [])) false
            child_work_status_after_dispatch
      end
  end.

(** The frame of both handlers *)
Definition single_frame {A} turn_id (body : M L A) : M L A :=
  turn_frame body
    (λ cancelled_turn,
       retained ⇐ gets ts_retained_open ;;
       children ⇐ gets ts_children ;;
       turn_exception env cancelled_turn (target turn_id) (if retained then [] else children) p)
    (retained ⇐ gets ts_retained_open ;; if retained then mret tt else release_turn turn_id).

(** A handler called by another has local variables of its own. *)
Definition nested {A} (m : M L A) : M L A := λ s,
  let (s', out) := m (s <| ts_children := [] |> <| ts_retained_open := false |> <| ts_retained_items := [] |>) in
  (s' <| ts_children := ts_children s |> <| ts_retained_open := ts_retained_open s |>
      <| ts_retained_items := ts_retained_items s |>, out).

Definition handle_pending turn_id (transcript : string) (pending : option PendingDialogue) (items : list string) : M L reply :=
  nested (single_frame turn_id (pending_body turn_id transcript pending items)).

End handlers.
