(* ===== verification/MultiIntent.v ===== *)
(** Compound turns ([_handle_multi_intent] of [SessionHost],
    [src/server/pipeline.py]) and the handler that dispatches a turn to the
    others ([_handle_transcript_impl]).

    The clarification contexts only reach the search workers and are left out. *)

From stdpp Require Import pretty.
From S2P Require Import Prelude PyDict Contracts SessionState ConnectionArbiter WorkTaskLedger SpeechLifecycle SpeechScheduler SpeechSystem TurnAckLedger Routing WorkItemCoordinator WorkStatusPublisher PerfMetrics WorkerProjection SessionHost Delegation TurnEpilogue TurnCore TurnHandlers.

Definition item_turn (turn_id : string) (index : nat) : string := turn_id +:+ "-" +:+ pretty (N.of_nat index).
Definition item_work (turn_id : string) (index : nat) : string := work_item_of_turn (item_turn turn_id index).

Definition ITEM_TIMEOUT_TEXT := "That item is taking longer than expected; I will continue in the background.".

(** The local variables the fan-out loop fills: [results], the runnable items
    with their index, and the children's recorders *)
Record FanOut := mkFanOut {
  fo_results : dict nat GroundedResult;
  fo_runnable : list (nat * (string * string));
  fo_recorders : dict nat nat
}.

#[export] Instance eta_FanOut : Eta FanOut := λ r, mkFanOut (fo_results r) (fo_runnable r) (fo_recorders r).

(** The local variables of the fan-in *)
Record FanIn := mkFanIn {
  fi_results : dict nat GroundedResult;
  fi_attributed : list nat;
  fi_deferred : dict nat deferred;
  fi_roles : dict nat SpeechRole
}.

#[export] Instance eta_FanIn : Eta FanIn := λ r,
  mkFanIn (fi_results r) (fi_attributed r) (fi_deferred r) (fi_roles r).

(** A loop over a list that threads an accumulator *)
Fixpoint mfold {L A B} (f : B → A → M L B) (b : B) (l : list A) : M L B :=
  match l with
  | [] => mret b
  | a :: l' => b ⇐ f b a ;; mfold f b l'
  end.

Section multi.
Context {L : Type} `{!SpeechSlot L} {retention : RetentionConfig} `{CoordinatorConfig}.
Context (env : TurnEnv L) (p : nat) (origin_epoch : N).
Implicit Types (turn_id : string) (fo : FanOut) (fi : FanIn).

Definition child_target turn_id : StatusTarget := mkTarget turn_id (Some (work_item_of_turn turn_id)) (Some origin_epoch).

(** ** Routing each item *)

(** An item answered at once: its result, and a child record of its own *)
Definition answer_item turn_id (index : nat) (text outcome : string) fo : M L FanOut :=
  r ⇐ canonical env "main" (item_turn turn_id index) text origin_epoch ;;
  on_recorder env (λ now rec, let (rec, n) := new_child (item_work turn_id index) now rec in
                              child_finalize n outcome no_details now rec) ;;
  mret (fo <| fo_results ::= dict_set index r |>).

(** The worker of an item, or the item already answered *)
Definition route_item turn_id (pending : option PendingDialogue) (index : nat) (item_text : string) fo
    : M L (FanOut + option WorkerObject) :=
  match index, pending with
  | O, Some d => r ⇐ gets ts_registry ;; w ⇐ lift (Routing.get (pd_owner_id d) r) ;; mret (inr (Some (rw_worker w)))
  | _, _ =>
      snapshot ⇐ gets (λ s, catalogue (ts_registry s)) ;;
      routed ⇐ mtry (n ⇐ gets ts_tick ;; await env ;; r ⇐ lift (ev_route env n) ;; mret (Some r)) (λ _, mret None) ;;
      match routed with
      | None => fo ⇐ answer_item turn_id index ROUTING_UNAVAILABLE_TEXT "failed" fo ;; mret (inl fo)
      | Some (d, prose) =>
          match direct_text (action d) with
          | Some fallback =>
              fo ⇐ answer_item turn_id index (py_or prose fallback) (action_name (action d)) fo ;; mret (inl fo)
          | None =>
              mtry (await env ;; w ⇐ dispatch_as d (Some snapshot) ;; await env ;; mret (inr w))
                (λ e, if undispatchable e then
                        fo ⇐ answer_item turn_id index CAPABILITY_UNAVAILABLE_TEXT "failed" fo ;; mret (inl fo)
                      else mraise e)
          end
      end
  end.

Definition fan_out_item turn_id (pending : option PendingDialogue) fo (item : nat * string) : M L FanOut :=
  let (index, item_text) := item in
  routed ⇐ route_item turn_id pending index item_text fo ;;
  match routed with
  | inl fo => mret fo
  | inr worker =>
      delegation ⇐ begin_as env (mkRequest turn_id (item_work turn_id index) worker origin_epoch None
                                   (Some (work_item_of_turn turn_id))) false ;;
      match delegation with
      | None =>
          r ⇐ canonical env "main" (item_turn turn_id index) CAPABILITY_UNAVAILABLE_TEXT origin_epoch ;;
          mret (fo <| fo_results ::= dict_set index r |>)
      | Some c =>
          early_ack env p turn_id origin_epoch false false ;;
          mret (fo <| fo_runnable ::= (λ l, l ++ [(index, (dc_worker_id c, item_text))]) |>
                   <| fo_recorders ::= dict_set index (dc_child c) |>)
      end
  end.

(** ** Collecting the submission *)

Definition index_for (key : nat → string) fo (id : string) : option nat :=
  fst <$> head (filter (λ r, key r.1 = id) (fo_runnable fo)).

Definition worker_of fo (index : nat) : string :=
  default EmptyString (fst ∘ snd <$> head (filter (λ r, r.1 = index) (fo_runnable fo))).

Definition attribute_ (index : nat) (fi : FanIn) : FanIn := fi <| fi_attributed ::= (λ l, index :: l) |>.

Definition defer (index : nat) (item : string) (worker : string) (d : option TurnEpilogue.status) fi : FanIn :=
  match d with
  | Some d => fi <| fi_deferred ::= dict_set index (mkDeferred item (Some worker) d) |>
  | None => fi
  end.

Definition finalize_index fo (index : nat) (outcome worker : string) (result : option string) : M L unit :=
  match dict_get index (fo_recorders fo) with
  | Some n => finalize_child_as env n outcome (child_details worker result)
  | None => mraise KeyError
  end.

(** The first pass: the last result for an index wins *)
Definition settle_result turn_id fo (acc : FanIn * dict nat GroundedResult) (v : late_value)
    : M L (FanIn * dict nat GroundedResult) :=
  r ⇐ grounded v ;;
  match index_for (item_turn turn_id) fo (gr_turn_id r) with
  | None => mret acc
  | Some index => mret (acc.1 <| fi_results ::= dict_set index r |>, dict_set index r acc.2)
  end.

(** The second pass: attribute each matched item once *)
Definition attribute_result turn_id fo (labels : nat) fi (item : nat * GroundedResult) : M L FanIn :=
  let (index, r) := item in
  let worker := worker_of fo index in
  let outcome := default "completed" (ev_label env (labels + index)) in
  finalize_index fo index outcome worker (Some (result_id r)) ;;
  was_cancelled ⇐ is_cancelled (item_work turn_id index) ;;
  mret (defer index (item_work turn_id index) worker
          (work_status_for_outcome (Some outcome) was_cancelled true (Some outcome)) (attribute_ index fi)).

Definition attribute_pending turn_id fo (recorders : dict string RetainedRecorder) fi (id : string) : M L FanIn :=
  match index_for (item_work turn_id) fo id with
  | None => mret fi
  | Some index =>
      was_cancelled ⇐ is_cancelled id ;;
      modify (λ s, if was_cancelled then s else s <| ts_retained_items ::= (λ l, l ++ [id]) |>) ;;
      let worker := worker_of fo index in
      replaces ⇐ replaces_legacy env ;;
      fi ⇐ (if replaces then mret (attribute_ index fi)
            else r ⇐ canonical env worker (item_turn turn_id index) ITEM_TIMEOUT_TEXT origin_epoch ;;
                 mret (attribute_ index fi <| fi_results ::= dict_set index r |>
                                           <| fi_roles ::= dict_set index ROLE_TIMEOUT_NOTICE |>)) ;;
      finalize_index fo index "retained" worker None ;;
      was_cancelled ⇐ is_cancelled id ;;
      match child_work_status_after_dispatch (Some "retained") was_cancelled None with
      | Some d => emit_as env (child_target turn_id) id (Some worker) d
      | None => mret tt
      end ;;
      match dict_get id recorders with Some r => register_recorder id r | None => mret tt end ;;
      mret fi
  end.

Definition attribute_failure turn_id fo fi (f : WorkItemFailure) : M L FanIn :=
  match index_for (item_work turn_id) fo (wf_work_item_id f) with
  | None => mret fi
  | Some index =>
      r ⇐ canonical env (wf_worker_id f) (item_turn turn_id index) SEARCH_UNAVAILABLE_TEXT origin_epoch ;;
      let outcome := failure_child_outcome f in
      finalize_index fo index outcome (wf_worker_id f) None ;;
      was_cancelled ⇐ is_cancelled (wf_work_item_id f) ;;
      mret (defer index (wf_work_item_id f) (wf_worker_id f)
              (work_status_for_outcome (Some outcome) was_cancelled true (Some outcome))
              (attribute_ index fi <| fi_results ::= dict_set index r |>))
  end.

(** A dispatched child that no bucket accounts for *)
Definition reconcile turn_id fo (attributed : list nat) (u : unit) (item : nat * (string * string)) : M L unit :=
  let (index, w) := item in
  if bool_decide (index ∈ attributed) then mret tt
  else
    finalize_index fo index "failed" w.1 None ;;
    was_cancelled ⇐ is_cancelled (item_work turn_id index) ;;
    emit_as env (child_target turn_id) (item_work turn_id index) (Some w.1)
      (if was_cancelled then cancelled else failed, None).

(** ** The handler *)

Definition fan_context turn_id : TurnEpilogueContext (TurnState L) :=
  epilogue_context env p (child_target turn_id) None None None.

Definition new_recorders turn_id (sequence : N) (acc : dict string RetainedRecorder) (item : nat * (string * string))
    : M L (dict string RetainedRecorder) :=
  let (index, w) := item in
  r ⇐ new_retained env turn_id (item_work turn_id index) w.1 origin_epoch ;;
  capture turn_id (item_work turn_id index) origin_epoch sequence (Some (work_item_of_turn turn_id)) ;;
  mret (dict_set (item_work turn_id index) r acc).

Definition multi_body turn_id (pending : option PendingDialogue) (items : list string) : M L reply :=
  sequence ⇐ sequence_now ;;
  fo ⇐ mfold (fan_out_item turn_id pending) (mkFanOut [] [] []) (zip (seq 0 (length items)) items) ;;
  recorders ⇐ mfold (new_recorders turn_id sequence) [] (fo_runnable fo) ;;
  children ⇐ gets ts_children ;;
  mfold (λ _ '(id, worker), emit_as env (child_target turn_id) id worker (searching, None)) tt children ;;
  labels ⇐ gets ts_tick ;;
  submitted ⇐ submit_as env (work_item_of_turn turn_id) (fo_runnable fo).*2 (item_work turn_id <$> (fo_runnable fo).*1) ;;
  settled ⇐ mfold (settle_result turn_id fo) (mkFanIn (fo_results fo) [] [] [], []) (so_results submitted) ;;
  fi ⇐ mfold (attribute_result turn_id fo labels) settled.1 settled.2 ;;
  fi ⇐ mfold (attribute_pending turn_id fo recorders) fi (so_pending_work_item_ids submitted) ;;
  fi ⇐ mfold (attribute_failure turn_id fo) fi (so_failures submitted) ;;
  mfold (reconcile turn_id fo (fi_attributed fi)) tt (fo_runnable fo) ;;
  retained ⇐ gets ts_retained_items ;;
  l ⇐ finalize_fan_out_turn (fan_context turn_id) (fi_results fi) (fi_roles fi)
        (negb (bool_decide (fi_attributed fi = []))) (negb (bool_decide (retained = []))) (fi_deferred fi) ;;
  mret (RResults l).

Definition multi_frame {A} turn_id (body : M L A) : M L A :=
  turn_frame body
    (λ cancelled_turn,
       retained ⇐ gets ts_retained_items ;;
       children ⇐ gets ts_children ;;
       turn_exception env cancelled_turn (child_target turn_id) (filter (λ c, c.1 ∉ retained) children) p)
    (modify (λ s, release_fan_out_turn_work_items (fan_context turn_id) (ts_children s) (ts_retained_items s) s)).

Definition handle_multi_intent turn_id (pending : option PendingDialogue) (items : list string) : M L reply :=
  nested (multi_frame turn_id (multi_body turn_id pending items)).

(** ** Every turn *)

Definition transcript_body turn_id (work_item_id transcript : string) : M L reply :=
  n ⇐ tick ;;
  on_host_ (λ h, h <| h_work ::= register_turn_task work_item_id (ev_turn_task env) |>
                   <| h_state ::= (λ s, (append_transcript (mkTranscriptEntry user transcript turn_id (ev_stamp env n)
                                                              (Some origin_epoch)) s).1) |>) ;;
  outcome ⇐ mtry (started ⇐ clock env ;;
                  k ⇐ gets ts_tick ;;
                  await env ;;
                  o ⇐ lift (ev_arbitrate env k) ;;
                  on_recorder env (λ now, record_routing ((now - started) * 1000)%Q) ;;
                  mret (Some o))
              (λ _, mret None) ;;
  match outcome with
  | None =>
      r ⇐ say env p turn_id ROUTING_UNAVAILABLE_TEXT origin_epoch true ;;
      finalize_turn_as env (Some "failed") None None ;;
      mret (RResult r)
  | Some (OControl act items) => handle_control env p origin_epoch turn_id work_item_id act items
  | Some (OMultiIntent dialogue items) => handle_multi_intent turn_id dialogue items
  | Some (OContinuePending dialogue items) =>
      handle_pending env p origin_epoch turn_id transcript dialogue items
  | Some (ORouted d prose snapshot) => handle_routed env p origin_epoch turn_id work_item_id transcript d prose snapshot
  | Some OUnknown => finalize_turn_as env (Some "failed") None None ;; mret (ROutcome OUnknown)
  end.

End multi.

Section every_turn.
Context {L : Type} `{!SpeechSlot L} {retention : RetentionConfig} `{CoordinatorConfig}.
Context (env : TurnEnv L) (p : nat).

(** The guard of [_handle_transcript_impl], with the pipeline of the turn *)
Definition turn_admitted (h : Host L) : option (Pipeline SessionState L) :=
  match h_coordinator h, pipelines (h_acks h) !! p with
  | Some _, Some pl =>
      if bool_decide (connection (h_acks h) = Some p) && pl_active pl && host_accepts (Some (pl_epoch pl)) h
      then Some pl else None
  | _, _ => None
  end.

(** The local variables when the [try] block is entered *)
Definition turn_start (turn_id : string) (epoch : N) (h : Host L) (r : WorkerRegistry) : TurnState L :=
  mkTurnState h r (AppTurnRecorder_init (session_id (h_state h)) (Z.of_N epoch) turn_id (ev_now env 0)) [] false [] [] 1.

(** [_handle_transcript_impl] for a turn of the pipeline [p] *)
Definition handle_transcript_impl (transcript : string) (h : Host L) (r : WorkerRegistry)
    : TurnState L * TurnEpilogue.ended reply :=
  match turn_admitted h with
  | None => (turn_start EmptyString 0 h r, Finished (RTranscript transcript))
  | Some pl =>
      let (l, turn_id) := next_turn_id (host_ledger h) in
      single_frame env p (pl_epoch pl) turn_id
        (transcript_body env p (pl_epoch pl) turn_id (work_item_of_turn turn_id) transcript)
        (turn_start turn_id (pl_epoch pl) (on_ledger (λ _, l) h) r)
  end.

End every_turn.
