(* ===== verification/TurnFacts.v ===== *)
(** Facts about the turn handlers: whether a turn finishes, raises or is
    cancelled, its recorder is finalized. *)

From stdpp Require Import pretty.
From S2P Require Import Prelude PyDict Contracts SessionState SessionLedger ConnectionArbiter WorkTaskLedger SpeechLifecycle SpeechScheduler SpeechSystem TurnAckLedger Routing WorkItemCoordinator WorkStatusPublisher PerfMetrics WorkerProjection SessionHost SessionHostFacts Delegation TurnEpilogue TurnCore TurnHandlers MultiIntent.

Section facts.
Context {L : Type} `{!SpeechSlot L} {retention : RetentionConfig} `{CoordinatorConfig}.
Implicit Types (s : TurnState L) (env : TurnEnv L) (h : Host L) (p : nat) (e : N).

(** ** What holds when a computation finishes *)

Definition post {A} (P : TurnState L → Prop) (m : M L A) : Prop :=
  ∀ s, match m s with (s', Finished _) => P s' | _ => True end.

Lemma post_bind {A B} P (m : M L A) (k : A → M L B) : (∀ a, post P (k a)) → post P (mbind m k).
Proof. intros Hk s. unfold mbind. destruct (m s) as [s' [a| |]]; [apply Hk | done | done]. Qed.

Lemma post_try {A} P (m : M L A) (f : exn → M L A) : post P m → (∀ x, post P (f x)) → post P (mtry m f).
Proof. intros Hm Hf s. specialize (Hm s). unfold mtry. destruct (m s) as [s' [a|x|]]; [done | apply Hf | done]. Qed.

Lemma post_raise {A} P x : post P (mraise x : M L A).
Proof. done. Qed.

(** The value a computation ends with, under a condition on the state it leaves *)
Definition post_value {A} (P : A → TurnState L → Prop) (m : M L A) : Prop :=
  ∀ s, match m s with (s', Finished a) => P a s' | _ => True end.

Lemma post_value_bind {A B} (P : A → TurnState L → Prop) Q (m : M L A) (k : A → M L B) :
  post_value P m → (∀ a s, P a s → match k a s with (s', Finished b) => Q b s' | _ => True end) → post_value Q (mbind m k).
Proof. intros Hm Hk s. specialize (Hm s). unfold mbind. destruct (m s) as [s' [a| |]]; [by apply Hk | done | done]. Qed.

Definition recorded (s : TurnState L) : Prop := at_finalized (ts_recorder s) = true.

Definition keeps {A} (P : TurnState L → Prop) (m : M L A) : Prop := ∀ s, P s → P (m s).1.

Lemma keeps_ret {A} P (a : A) : keeps P (mret a : M L A).
Proof. by intros s. Qed.

Lemma keeps_gets {A} P (f : TurnState L → A) : keeps P (gets f).
Proof. by intros s. Qed.

Lemma keeps_raise {A} P x : keeps P (mraise x : M L A).
Proof. by intros s. Qed.

Lemma keeps_bind {A B} P (m : M L A) (k : A → M L B) : keeps P m → (∀ a, keeps P (k a)) → keeps P (mbind m k).
Proof. intros Hm Hk s Hs. specialize (Hm s Hs). unfold mbind. destruct (m s) as [s' [a| |]]; [by apply Hk | done | done]. Qed.

Lemma keeps_try {A} P (m : M L A) (f : exn → M L A) : keeps P m → (∀ x, keeps P (f x)) → keeps P (mtry m f).
Proof. intros Hm Hf s Hs. specialize (Hm s Hs). unfold mtry. destruct (m s) as [s' [a|x|]]; [done | by apply Hf | done]. Qed.

Lemma keeps_lift {A} P (x : Prelude.result A) : keeps P (lift x).
Proof. by destruct x; intros s. Qed.

Lemma post_seq {A B} P (m : M L A) (k : A → M L B) : post P m → (∀ a, keeps P (k a)) → post P (mbind m k).
Proof.
  intros Hm Hk s. specialize (Hm s). unfold mbind. destruct (m s) as [s' [a| |]]; [|done|done].
  specialize (Hk a s' Hm). by destruct (k a s') as [s'' []].
Qed.

Lemma post_post_value {A} P (m : M L A) : post P m → post_value (λ _, P) m.
Proof. done. Qed.

(** ** Every turn is recorded *)

Lemma child_finalize_flag n o d now t : at_finalized (child_finalize n o d now t) = at_finalized t.
Proof. unfold child_finalize. repeat case_match; done. Qed.

Lemma sweep_flag o now t : at_finalized (sweep_children o now t) = at_finalized t.
Proof.
  unfold sweep_children. generalize (dict_values (at_open t)). intros l. revert t. induction l as [|n l IH]; intros t; [done|].
  cbn [foldl]. by rewrite IH, child_finalize_flag.
Qed.

Lemma turn_finalize_flag o a c sc k now t : at_finalized (turn_finalize o a c sc k now t) = true.
Proof.
  unfold turn_finalize. destruct (at_finalized t) eqn:E; [done|]. cbv zeta. cbn [at_finalized setter eta]. by rewrite sweep_flag.
Qed.

Lemma finalize_turn_records env o a c : post recorded (finalize_turn_as env o a c).
Proof. intros s. apply turn_finalize_flag. Qed.

Lemma reject_records r o w re now h t :
  at_finalized (tl_recorder (reject_delegation r o w re true now h t).1.2) = true.
Proof.
  unfold reject_delegation. destruct (new_child _ _ _) as [rec n]. destruct (host_emit_work_status _ _ _ _ _ _) as [h' out].
  apply turn_finalize_flag.
Qed.

(** A delegation that is refused on behalf of the turn ends it. *)
Lemma begin_records env r : post_value (λ c s, c = None → recorded s) (begin_as env r true).
Proof.
  intros s. unfold begin_as, mbind, clock, tick, mret. cbn. unfold begin_delegation.
  assert (∀ w o re h t, match reject_delegation r o w re true (ev_now env (ts_tick s)) h t with
    | (h', t', Ret c) => c = None → at_finalized (tl_recorder t') = true | _ => True end) as Hr.
  { intros w o re h t. pose proof (reject_records r o w re (ev_now env (ts_tick s)) h t) as Hrec.
    destruct (reject_delegation _ _ _ _ _ _ _ _) as [[h' t'] [c|]]; [|done]. by intros _. }
  destruct (dr_worker r) as [w|].
  - destruct (negb (wo_search w)).
    + match goal with |- context [reject_delegation r ?o ?w ?re true ?n ?h ?t] => specialize (Hr w o re h t); destruct (reject_delegation r o w re true n h t) as [[h' t'] [c|]] end; done.
    + destruct (new_child _ _ _) as [rec n]. destruct (host_emit_work_status _ _ _ _ _ _) as [h' [u|]]; done.
  - match goal with |- context [reject_delegation r ?o ?w ?re true ?n ?h ?t] => specialize (Hr w o re h t); destruct (reject_delegation r o w re true n h t) as [[h' t'] [c|]] end; done.
Qed.

(** The epilogues finalize the turn before they return. *)
Lemma single_epilogue_records env p t child ms idle derive a :
  post recorded (finalize_single_child_turn (epilogue_context env p t child ms idle) derive a).
Proof.
  intros s. unfold finalize_single_child_turn. cbv zeta.
  destruct (TurnEpilogue.commit_and_speak _ _ _ _) as [s1 [r sup|x|]]; [| |done].
  - destruct (emit_opt _ _ _ _ _) as [s2 [u|x]]; [|done].
    match goal with |- context [TurnEpilogue.finalize_turn ?ctx ?s3] => set (s3' := s3) end. clearbody s3'.
    assert (recorded (TurnEpilogue.finalize_turn (epilogue_context env p t child ms idle) s3')) as Hr by apply turn_finalize_flag.
    destruct (sc_project_idle a); [|exact Hr]. cbn [TurnEpilogue.project_idle epilogue_context].
    destruct idle as [w|]; [|done]. exact Hr.
  - by destruct (emit_opt _ _ _ _ _) as [s2 [u|x']].
Qed.

Lemma fan_epilogue_records env p t results roles a b deferred :
  post recorded (finalize_fan_out_turn (epilogue_context env p t None None None) results roles a b deferred).
Proof.
  intros s. unfold finalize_fan_out_turn. cbv zeta. destruct (commit_loop _ _ _ _ _ _ _ _) as [s1 [[[l xs] pending]|x|]]; [|done|done].
  destruct (sweep_deferred _ _ _) as [s2 [u|x]]; [|done]. destruct xs; [|done]. apply turn_finalize_flag.
Qed.

Lemma say_then_records env p turn text e q o a c :
  post recorded (r ⇐ say env p turn text e q ;; finalize_turn_as env o a c ;; mret (RResult r)).
Proof.
  apply post_bind. intros r. apply post_seq; [apply finalize_turn_records|]. intros _. apply keeps_ret.
Qed.

Lemma control_records env p e turn item act items : post recorded (handle_control env p e turn item act items).
Proof.
  unfold handle_control. apply post_bind. intros [outcome override]. apply post_bind. intros r.
  destruct act; (apply post_seq; [apply finalize_turn_records | intros _; apply keeps_ret]).
Qed.

Lemma close_records env p e turn w c r label was ms idle admitted commit derive :
  post recorded (close_child env p e turn w c r label was ms idle admitted commit derive).
Proof.
  unfold close_child. apply post_bind. intros retained. apply post_seq; [apply single_epilogue_records|]. intros o.
  apply keeps_bind; [by intros s | intros _; apply keeps_ret].
Qed.

(** A value that ends the turn comes with the turn recorded. *)
Definition ends {B} (found : reply + B) (s : TurnState L) : Prop := match found with inl _ => recorded s | inr _ => True end.

Lemma ends_bind {A B} (m : M L A) (k : A → M L (reply + B)) : (∀ a, post_value ends (k a)) → post_value ends (mbind m k).
Proof. intros Hk s. unfold mbind. destruct (m s) as [s' [a| |]]; [apply Hk | done | done]. Qed.

Lemma ends_inr {B} (b : B) : post_value (ends (B := B)) (mret (inr b) : M L (reply + B)).
Proof. by intros s. Qed.

Lemma ends_inl {A B} (m : M L A) (r : reply) (k : A → M L (reply + B)) :
  post recorded m → (∀ a, k a = mret (inl r)) → post_value ends (mbind m k).
Proof. intros Hm Hk s. specialize (Hm s). unfold mbind. destruct (m s) as [s' [a| |]]; [|done|done]. by rewrite Hk. Qed.

Lemma ends_try {B} (m : M L (reply + B)) f : post_value ends m → (∀ x, post_value ends (f x)) → post_value ends (mtry m f).
Proof. intros Hm Hf s. specialize (Hm s). unfold mtry. destruct (m s) as [s' [a|x|]]; [done | apply Hf | done]. Qed.

Lemma ends_use {B} (m : M L (reply + B)) (k : B → M L reply) :
  post_value ends m → (∀ b, post recorded (k b)) →
  post recorded (found ⇐ m ;; match found with inl r => mret r | inr b => k b end).
Proof. intros Hm Hk s. specialize (Hm s). unfold mbind. destruct (m s) as [s' [[r|b]| |]]; [done | apply Hk | done | done]. Qed.

Ltac ends_steps := repeat lazymatch goal with |- post_value _ (mbind _ _) => apply ends_bind; intros ? end.
Ltac post_steps := repeat lazymatch goal with |- post _ (mbind _ _) => apply post_bind; intros ? end.

Lemma ends_post {B} (m : M L (reply + B)) : post recorded m → post_value ends m.
Proof. intros Hm s. specialize (Hm s). destruct (m s) as [s' [[r|b]| |]]; done. Qed.

Lemma search_child_ends env p e turn item c : post_value ends (search_child env p e turn item c).
Proof.
  unfold search_child. do 6 (apply ends_bind; intros ?).
  match goal with |- post_value _ (match ?x with _ => _ end) => destruct x as [[r|]| | |] end;
    try (ends_steps; apply ends_inr).
  do 2 (apply ends_bind; intros ?). match goal with |- context [if ?b then _ else _] => destruct b end; [|ends_steps; apply ends_inr].
  apply ends_bind. intros _. apply ends_post, post_seq; [apply finalize_turn_records|]. intros _.
  apply keeps_bind; [by intros s | intros _; apply keeps_ret].
Qed.

Lemma search_failed_ends env e turn t c x : post_value ends (search_failed env e turn t c x).
Proof. unfold search_failed. case_match; ends_steps; apply ends_inr. Qed.

Lemma delegate_records env p e turn item t w o : post recorded (delegate_single env p e turn item t w o).
Proof.
  unfold delegate_single. intros s. unfold mbind at 1. pose proof (begin_records env (mkRequest turn item w e None None) s) as Hb.
  destruct (begin_as _ _ _ s) as [s1 [[c|]| |]]; [|by apply Hb|done|done]. revert s1 Hb. intros s1 _. revert s1.
  apply post_bind. intros started. apply ends_use.
  - apply ends_try; [apply search_child_ends | intros x; apply search_failed_ends].
  - intros [r label]. post_steps. apply close_records.
Qed.

Lemma routed_records env p e turn item t d prose snap : post recorded (handle_routed env p e turn item t d prose snap).
Proof.
  unfold handle_routed. apply post_bind. intros _. destruct (direct_text (action d)); [apply say_then_records|].
  apply ends_use; [|intros w; apply delegate_records]. apply ends_try.
  - ends_steps. apply ends_inr.
  - intros x. case_match; [|by intros s]. apply ends_bind. intros r. eapply ends_inl; [apply finalize_turn_records | done].
Qed.

Lemma pending_result_ends env e turn item c rec o label : post_value ends (pending_result env e turn item c rec o label).
Proof.
  unfold pending_result. destruct (so_results o); [|ends_steps; apply ends_inr]. destruct (so_pending_work_item_ids o).
  - ends_steps. apply ends_inr.
  - do 5 (apply ends_bind; intros ?). match goal with |- context [if ?b then _ else _] => destruct b end; [|ends_steps; apply ends_inr].
    eapply ends_inl; [apply finalize_turn_records | done].
Qed.

Lemma pending_records env p e turn t d items : post recorded (pending_body env p e turn t d items).
Proof.
  unfold pending_body. cbv zeta. do 3 (apply post_bind; intros ?). intros s. unfold mbind at 1.
  match goal with |- context [begin_as env ?r true s] => pose proof (begin_records env r s) as Hb; destruct (begin_as env r true s) as [s1 [[c|]| |]] end;
    [|by apply Hb|done|done]. clear Hb. revert s1. do 7 (apply post_bind; intros ?).
  apply ends_use; [apply pending_result_ends|]. intros [r label]. post_steps. apply close_records.
Qed.

Lemma multi_records env p e turn d items : post recorded (multi_body env p e turn d items).
Proof.
  unfold multi_body. do 13 (apply post_bind; intros ?). apply post_seq; [apply fan_epilogue_records | intros ?; apply keeps_ret].
Qed.

(** ** The frames *)

Lemma terminalize_returns enabled t children d now st :
  tg_turn_id t ≠ EmptyString → (d.2 ≠ None → d.1 = failed) →
  (terminalize_children enabled t children d now st).2 = Ret tt.
Proof.
  intros Ht Hd. revert st. induction children as [|[i w] children IH]; intros st; [done|]. cbn [terminalize_children].
  assert ((emit_status enabled t i w d now st).2 = Ret tt) as E.
  { unfold emit_status. destruct enabled; [|done]. cbn [negb].
    pose proof (set_child_returns (tg_turn_id t) i (tg_parent t) w d.1 (tg_epoch t) d.2 now st (conj Ht Hd)) as Hr.
    destruct (set_child_work_status _ _ _ _ _ _ _ _ _) as [st' [ev|x]]; [done|done]. }
  destruct (emit_status enabled t i w d now st) as [st' r]. cbn [snd] in E. subst r. apply IH.
Qed.

Lemma exception_returns b t children o now h :
  tg_turn_id t ≠ EmptyString → (finalize_turn_exception b t children o now h).2 = Ret tt.
Proof.
  intros Ht. unfold finalize_turn_exception. cbv zeta.
  match goal with |- context [terminalize_children ?e t children ?d now ?st] =>
    pose proof (terminalize_returns e t children d now st Ht ltac:(by destruct b)) as Hr;
    destruct (terminalize_children e t children d now st) as [st' r] end. exact Hr.
Qed.

(** The exception epilogue does not raise, and records the turn. *)
Lemma turn_exception_records env b t children p s :
  tg_turn_id t ≠ EmptyString → ∃ s', turn_exception env b t children p s = (s', Finished tt) ∧ recorded s'.
Proof.
  intros Ht. unfold turn_exception. unfold clock, tick, on_host, mbind, mret. cbv beta iota.
  match goal with |- context [finalize_turn_exception b t children ?o ?now ?h] =>
    pose proof (exception_returns b t children o now h Ht) as Hr;
    destruct (finalize_turn_exception b t children o now h) as [h' r] end. cbn [snd] in Hr. subst r.
  eexists. split; [reflexivity|]. apply turn_finalize_flag.
Qed.

Lemma frame_records {A} (body : M L A) on_exception (finally : M L unit) s :
  post recorded body → (∀ b s, ∃ s', on_exception b s = (s', Finished tt) ∧ recorded s') → keeps recorded finally →
  recorded (turn_frame body on_exception finally s).1.
Proof.
  intros Hb Hx Hf. unfold turn_frame. specialize (Hb s).
  assert (∀ s out, recorded s → recorded (match finally s with
    | (s, Finished _) => (s, out : TurnEpilogue.ended A) | (s, Raised e) => (s, Raised e) | (s, Interrupted) => (s, Interrupted) end).1) as Hfin.
  { intros s1 out Hs. specialize (Hf s1 Hs). by destruct (finally s1) as [s2 []]. }
  destruct (body s) as [s1 [a|x|]].
  - by apply Hfin.
  - destruct (Hx false s1) as (s2 & -> & Hs). by apply Hfin.
  - destruct (Hx true s1) as (s2 & -> & Hs). by apply Hfin.
Qed.

Lemma post_frame {A} (body : M L A) on_exception (finally : M L unit) :
  post recorded body → (∀ b s, ∃ s', on_exception b s = (s', Finished tt) ∧ recorded s') → keeps recorded finally →
  post recorded (turn_frame body on_exception finally).
Proof.
  intros Hb Hx Hf s. pose proof (frame_records body on_exception finally s Hb Hx Hf) as Hr.
  destruct (turn_frame body on_exception finally s) as [s' []]; done.
Qed.

Lemma post_nested {A} (m : M L A) : post recorded m → post recorded (nested m).
Proof.
  intros Hm s. unfold nested. specialize (Hm (s <| ts_children := [] |> <| ts_retained_open := false |> <| ts_retained_items := [] |>)).
  destruct (m _) as [s' []]; done.
Qed.

Lemma single_frame_records {A} env p e turn (body : M L A) :
  turn ≠ EmptyString → post recorded body →
  (∀ s, recorded (single_frame env p e turn body s).1) ∧ post recorded (single_frame env p e turn body).
Proof.
  intros Ht Hb. assert (∀ b s, ∃ s', (retained ⇐ gets ts_retained_open ;; children ⇐ gets ts_children ;;
    turn_exception env b (target e turn) (if retained then [] else children) p) s = (s', Finished tt) ∧ recorded s') as Hx.
  { intros b s. unfold mbind, gets. apply turn_exception_records. done. }
  assert (keeps recorded (retained ⇐ gets ts_retained_open ;; if retained then mret tt else release_turn turn)) as Hf.
  { apply keeps_bind; [apply keeps_gets|]. intros []; by intros s. }
  split; [intros s; by apply frame_records | by apply post_frame].
Qed.

Lemma release_keeps_recorder env p e turn children retained s :
  ts_recorder (release_fan_out_turn_work_items (fan_context env p e turn) children retained s) = ts_recorder s.
Proof.
  unfold release_fan_out_turn_work_items. destruct retained as [|i l]; [done|]. generalize (dict_keys children). intros ks.
  revert s. induction ks as [|k ks IH]; intros s; [done|]. cbn [foldl]. rewrite IH. by case_bool_decide.
Qed.

Lemma multi_frame_records {A} env p e turn (body : M L A) :
  turn ≠ EmptyString → post recorded body → post recorded (multi_frame env p e turn body).
Proof.
  intros Ht Hb. apply post_frame; [done| |].
  - intros b s. unfold mbind, gets. by apply turn_exception_records.
  - intros s Hs. unfold recorded in *. cbn [modify fst]. by rewrite release_keeps_recorder.
Qed.

Lemma transcript_records env p e turn item t : turn ≠ EmptyString → post recorded (transcript_body env p e turn item t).
Proof.
  intros Ht. unfold transcript_body. do 3 (apply post_bind; intros ?).
  match goal with |- post _ (match ?o with _ => _ end) => destruct o as [[act items|d items|d items|d prose snap|]|] end.
  - apply control_records.
  - apply post_nested, multi_frame_records, multi_records. done.
  - apply post_nested, single_frame_records, pending_records. done.
  - apply routed_records.
  - apply post_seq; [apply finalize_turn_records | intros _; apply keeps_ret].
  - apply say_then_records.
Qed.

(** C5.  Every turn is recorded: however an accepted turn ends, whether it
    returns, raises or is cancelled, on every branch of routing, control,
    delegation, clarification and compound work, with other tasks doing
    anything to the host at every await, its recorder has been finalized, so that
    exactly one foreground record of the turn has been offered to the metrics. *)
Theorem turn_always_recorded env p transcript h r pl :
  turn_admitted p h = Some pl →
  at_finalized (ts_recorder (handle_transcript_impl env p transcript h r).1) = true.
Proof.
  intros Ha. unfold handle_transcript_impl. rewrite Ha. unfold next_turn_id, turn_id_of. cbv zeta. apply single_frame_records; [done|].
  by apply transcript_records.
Qed.

End facts.

(** What a turn leaves in the registry of acknowledged work, with a concrete
    turn run from its transcript to its end. *)
Section release.
Context {L : Type} `{!SpeechSlot L} {retention : RetentionConfig} `{CoordinatorConfig}.
Implicit Types (s : TurnState L) (env : TurnEnv L) (h : Host L) (p : nat) (e : N).

(** The turn id of an admitted transcript *)
Definition turn_of (h : Host L) : string := (next_turn_id (host_ledger h)).2.

(** The outcomes that are handed to a nested handler *)
Definition nested_outcome (o : turn_outcome) : bool :=
  match o with OMultiIntent _ _ | OContinuePending _ _ => true | _ => false end.

Definition closed (s : TurnState L) : Prop := ts_retained_open s = false.

Lemma nested_keeps_closed {A} (m : M L A) : keeps closed (nested m).
Proof. intros s Hs. unfold nested. by destruct (m _) as [s' out]. Qed.

Lemma await_keeps_closed env : keeps closed (await env).
Proof. by intros s. Qed.

Lemma on_host_keeps_closed {A} (f : Host L → Host L * Prelude.result A) : keeps closed (on_host f).
Proof. intros s Hs. unfold on_host. by destruct (f (ts_host s)). Qed.

Lemma commit_keeps_closed env p role q r : keeps closed (commit_as env p role q r).
Proof.
  unfold commit_as. apply keeps_bind; [by intros s|]. intros n. apply keeps_bind; [apply on_host_keeps_closed|].
  intros []; try apply keeps_ret. apply keeps_bind; [apply await_keeps_closed | intros; apply keeps_ret].
Qed.

Lemma say_keeps_closed env p turn text e q : keeps closed (say env p turn text e q).
Proof.
  unfold say, canonical. apply keeps_bind; [apply keeps_bind; [by intros s | intros; apply keeps_lift]|]. intros r.
  apply keeps_bind; [apply commit_keeps_closed | intros; apply keeps_ret].
Qed.

(** The local [retained_still_open] of the outer handler is never set on behalf
    of a nested one. *)
Lemma transcript_keeps_closed env p e turn item t :
  (∀ n o, ev_arbitrate env n = Ret o → nested_outcome o = true) → keeps closed (transcript_body env p e turn item t).
Proof.
  intros Ho. unfold transcript_body. apply keeps_bind; [by intros s|]. intros n. apply keeps_bind; [by intros s|]. intros _ s Hs.
  unfold mbind at 1.
  match goal with |- context [mtry ?m ?f s] => assert (match mtry m f s with
    | (s', Finished (Some o)) => closed s' ∧ nested_outcome o = true | (s', _) => closed s' end) as Hm end.
  { unfold mtry, mbind, gets, clock, tick, mret, await, lift. cbn. destruct (ev_fate env _); [|done|done].
    destruct (ev_arbitrate env _) as [o|x] eqn:E; cbn; [|done]. split; [done|]. by eapply Ho. }
  destruct (mtry _ _ s) as [s1 [[o|]| |]]; [|apply keeps_bind; [apply say_keeps_closed| |done]|done|done].
  - destruct Hm as [Hc Hn]. destruct o; try done; by apply nested_keeps_closed.
  - intros r. apply keeps_bind; [by intros s'|]. intros _. apply keeps_ret.
Qed.

Lemma exception_keeps_closed env b t children p : keeps closed (turn_exception env b t children p).
Proof.
  unfold turn_exception. apply keeps_bind; [by intros s|]. intros now.
  apply keeps_bind; [apply on_host_keeps_closed | intros; by intros s].
Qed.

Lemma release_turn_releases turn s :
  children_of turn (host_ledger (ts_host (release_turn turn s).1)) = ∅ ∧
  turn ∉ ack_emitted_turns (host_ledger (ts_host (release_turn turn s).1)).
Proof. unfold release_turn, children_of. cbn. rewrite dict_get_pop_eq. set_solver. Qed.

(** The outer frame releases the turn when its own flag is not set. *)
Lemma single_frame_releases {A} env p e turn (body : M L A) s :
  keeps closed body → closed s →
  let h' := ts_host (single_frame env p e turn body s).1 in
  children_of turn (host_ledger h') = ∅ ∧ turn ∉ ack_emitted_turns (host_ledger h').
Proof.
  intros Hb Hs. unfold single_frame, turn_frame. specialize (Hb s Hs).
  assert (∀ b, keeps closed (retained ⇐ gets ts_retained_open ;; children ⇐ gets ts_children ;;
    turn_exception env b (target e turn) (if retained : bool then [] else children) p)) as Hx.
  { intros b. apply keeps_bind; [apply keeps_gets|]. intros r. apply keeps_bind; [apply keeps_gets|]. intros c.
    apply exception_keeps_closed. }
  assert (∀ s1 (out : TurnEpilogue.ended A), closed s1 → let h' := ts_host (match
      (retained ⇐ gets ts_retained_open ;; if retained : bool then mret tt else release_turn turn) s1 with
    | (s, Finished _) => (s, out) | (s, Raised x) => (s, Raised x) | (s, Interrupted) => (s, Interrupted) end).1 in
    children_of turn (host_ledger h') = ∅ ∧ turn ∉ ack_emitted_turns (host_ledger h')) as Hf.
  { intros s1 out Hc. unfold mbind, gets. rewrite Hc. apply release_turn_releases. }
  destruct (body s) as [s1 [a|x|]]; [by apply Hf| |];
    [specialize (Hx false s1 Hb) | specialize (Hx true s1 Hb)]; destruct (mbind _ _ s1) as [s2 []]; by apply Hf.
Qed.


End release.

(** ** A turn that answers a clarification

    The worker asked a question in an earlier turn; the user answers it, and the
    search is still running when the foreground wait is over. *)

#[local] Existing Instance w_config.
#[local] Existing Instance RETENTION_FALLBACK.
#[local, refine] Instance tw_config : CoordinatorConfig :=
  {| max_background_tasks := 4; max_work_items_per_turn := 4; pending_dialogue_timeout := 60 |}.
Proof. lia. Defined.

Definition tw_worker : WorkerObject :=
  mkWorkerObject true (Some (mkMetadata "worker-1" "web" "topic" "summary" "fast" [])) "idle".
Definition tw_registry : WorkerRegistry :=
  mkRegistry [] None [("worker-1", mkRegistered (mkMetadata "worker-1" "web" "topic" "summary" "fast" []) tw_worker)] 1.
Definition tw_dialogue : PendingDialogue := mkPending "s" "worker" "worker-1" "turn-0" "r-0" 60 "query" "which one?".
Definition tw_host : Host Coordinator :=
  mkHost w_init
    (mkAckSystem TurnAckLedger_init [mkPipeline true true 1%N (Scheduler_init w_init Coordinator_init)] (Some 0%nat)
       (λ _, true) true "ack" [] [] [])
    World_init [] (Some WorkItemCoordinator_init) [] [] wh_arbiter false true.
Definition tw_env (o : turn_outcome) : TurnEnv Coordinator :=
  mkEnv (λ n, inject_Z (Z.of_nat n)) (λ n, "id-" +:+ pretty n) (λ _, "ts") (λ n, mkSlotEnv (Some true) ("token-" +:+ pretty n))
    (λ _ h, h) (λ _, Resumed) 100 (λ _, Ret o) (λ _, Raise (RuntimeError "unused")) (λ _, SearchRunning) (λ _, None) 0 true.
Definition tw_answer : turn_outcome := OContinuePending (Some tw_dialogue) [].
Definition tw_run : TurnState Coordinator * TurnEpilogue.ended reply :=
  handle_transcript_impl (tw_env tw_answer) 0 "the second one" tw_host tw_registry.

Lemma turn_always_recorded_witness : at_finalized (ts_recorder tw_run.1) = true.
Proof. exact (turn_always_recorded (tw_env tw_answer) 0 "the second one" tw_host tw_registry _ eq_refl). Defined.

(** The search was handed to the background, and the late-delivery context waits for it. *)
Lemma tw_retained :
  late_tasks <$> h_coordinator (ts_host tw_run.1) = Some {[0%nat]} ∧ dict_keys (ts_late tw_run.1) = ["work-turn-1"].
Proof. apply (bool_decide_unpack _). vm_compute. exact I. Qed.

