(* ===== verification/TurnControl.v ===== *)
(** Facts about control turns: what a cancel reports against what it found, and
    a pause that reports what it did not do. *)

From S2P Require Import Prelude PyDict Contracts SessionState SessionLedger ConnectionArbiter WorkTaskLedger SpeechLifecycle SpeechScheduler SpeechSystem TurnAckLedger Routing WorkItemCoordinator WorkStatusPublisher PerfMetrics WorkerProjection SessionHost SessionHostFacts Delegation TurnEpilogue TurnCore TurnHandlers MultiIntent TurnFacts.

Section control.
Context {L : Type} `{!SpeechSlot L} {retention : RetentionConfig} `{CoordinatorConfig}.
Implicit Types (s : TurnState L) (env : TurnEnv L) (h : Host L) (p : nat) (e : N).

(** The scheduler holds speech of a selected work item. *)
Definition holds_speech (key : option string) (c : Scheduler SessionState L) : Prop :=
  (∃ k i, selects key k ∧ (i ∈ queued k c ∨ dict_get k (paused_items c) = Some i)) ∨
  (∃ a, active c = Some a ∧ selects key (si_work_item_id (lease_item a))).

Lemma selected_keys {V} key k (d : dict string V) :
  selects key k → is_Some (dict_get k d) → k ∈ match key with Some j => [j] | None => dict_keys d end.
Proof. intros [-> | ->] Hk; [by apply dict_get_is_Some | by apply list_elem_of_singleton]. Qed.

Lemma keys_selected {V} key k (d : dict string V) : k ∈ match key with Some j => [j] | None => dict_keys d end → selects key k.
Proof. destruct key as [j|]; [|by left]. intros ->%list_elem_of_singleton. by right. Qed.

(** A cancel returns something exactly when there is something to cancel. *)
Lemma cancel_returns key now (c : Scheduler SessionState L) :
  (SpeechScheduler.cancel key now c).2 ≠ [] ↔ holds_speech key c.
Proof.
  unfold SpeechScheduler.cancel, holds_speech. pose proof (cancel_active_fields key now c) as (Eq & Ep & _ & _).
  assert ((cancel_active key now c).2 ≠ [] ↔ ∃ a, active c = Some a ∧ selects key (si_work_item_id (lease_item a))) as Ha.
  { unfold cancel_active. destruct (active c) as [a|]; [|by split; [|intros (? & ? & ?)]]. case_decide as Hd.
    - split; [by exists a | done].
    - split; [done | intros (? & [= <-] & Hs); by destruct Hd]. }
  destruct (cancel_active key now c) as [c1 first]. cbn [fst snd] in *. rewrite <- Ha. unfold queued in *. rewrite Eq, Ep.
  destruct first as [|f first]; [|by split; [by right | done]]. cbn [app]. split.
  - intros Hn. left. match type of Hn with ?l ≠ [] => destruct l as [|i r] eqn:El; [done|]; assert (i ∈ l) as Hi by (rewrite El; by constructor) end.
    apply elem_of_app in Hi as [Hi|Hi].
    + apply list_elem_of_In, in_concat in Hi as (q & Hq & Hi). apply list_elem_of_In in Hq, Hi.
      apply list_elem_of_fmap in Hq as (k & -> & Hk). exists k, i. split; [by eapply keys_selected | by left].
    + apply list_elem_of_omap in Hi as (k & Hk & Hi). exists k, i. split; [by eapply keys_selected | by right].
  - intros [(k & i & Hs & Hi)|?]; [|done]. intros El.
    match type of El with ?l = [] => assert (i ∈ l) as Hin; [|rewrite El in Hin; by apply not_elem_of_nil in Hin] end.
    apply elem_of_app. destruct Hi as [Hi|Hi].
    + left. apply list_elem_of_In, in_concat. exists (default [] (dict_get k (queues c))). rewrite <- !list_elem_of_In.
      split; [|done]. apply list_elem_of_fmap. exists k. split; [done|]. apply selected_keys; [done|].
      destruct (dict_get k (queues c)); [by eexists | by apply not_elem_of_nil in Hi].
    + right. apply list_elem_of_omap. exists k. split; [|done]. apply selected_keys; [done | by eexists].
Qed.

Lemma cancel_found turn key p exclude now h pl :
  pipelines (h_acks h) !! p = Some pl →
  let found := (cancel_turn_or_child turn key (Some p) exclude now h).2 in
  (found ≠ ([], [])) ↔ (∃ i, cancellable key exclude h i) ∨ holds_speech key (pl_scheduler pl).
Proof.
  intros Hp. unfold cancel_turn_or_child. cbv zeta. pose proof (cancel_work_spec key exclude h) as Hw.
  destruct (cancel_work key exclude h) as [h1 work]. destruct Hw as (Ea & Es & _ & _ & _ & Hsel). rewrite <- Ea in Hp.
  destruct (with_scheduler_at p (SpeechScheduler.cancel key now) h1 pl Hp) as (Eret & _).
  destruct (with_scheduler p _ h1) as [h2 cancelled]. cbn [fst snd] in *. subst cancelled. cbn [default from_option]. unfold id.
  pose proof (cancel_returns key now ((pl_scheduler pl) <| sink := h_state h1 |>)) as Hc.
  change (holds_speech key ((pl_scheduler pl) <| sink := h_state h1 |>)) with (holds_speech key (pl_scheduler pl)) in Hc.
  set (speech := (SpeechScheduler.cancel key now _).2) in *. clearbody speech.
  assert (∀ h', (h', (work, speech)).2 ≠ ([], []) ↔ (∃ i, cancellable key exclude h i) ∨ holds_speech key (pl_scheduler pl)) as Hg.
  { intros h'. cbn [snd]. rewrite <- Hc. split.
    - intros Hn. destruct work as [|i work]; [right; by intros -> | left; exists i; apply Hsel; by constructor].
    - intros [[i Hi%Hsel]|Hs] [= -> ->]; [by apply not_elem_of_nil in Hi | done]. }
  destruct key as [k|]; [destruct turn as [t|]|]; [destruct (pl_scheduler <$> pipelines (h_acks h2) !! p); [case_decide|]|..]; apply Hg.
Qed.


(** The host when nothing is called on it: the scheduler reads the session state. *)
Definition untouched p h : Host L := (with_scheduler p (λ c, (c, tt)) h).1.

(** A pause that names a work item other than the one being played does nothing
    and is reported as applied: after it the host is the one it was, up to what other
    tasks did while it was awaited, and the turn speaks
    [Pausing the active response]. *)
Theorem missed_pause_reported_applied env p item items s pl lease :
  pipelines (h_acks (ts_host s)) !! p = Some pl → active (pl_scheduler pl) = Some lease →
  si_work_item_id (lease_item lease) ≠ item → ev_fate env (S (ts_tick s)) = Resumed →
  ∃ s', control_pause env p (item :: items) s = (s', Finished ("applied", None)) ∧
    ts_host s' = ev_other env (S (ts_tick s)) (untouched p (ts_host s)) ∧
    dict_get "pause" CONTROL_ACK_TEXT = Some "Pausing the active response.".
Proof.
  intros Hp Ha Hi Hf. unfold control_pause, mbind, gets, active_work, clock, tick, mret, control_speech. rewrite Hp. cbn. rewrite Ha. cbn.
  assert (∀ now, with_scheduler p (λ c, (pause item now c, tt)) (ts_host s) = with_scheduler p (λ c, (c, tt)) (ts_host s)) as E.
  { intros now. unfold with_scheduler, with_acks, sched_call. cbn. rewrite list_lookup_alter_eq, Hp. cbn. unfold pause. cbn. rewrite Ha.
    by rewrite decide_False by done. }
  rewrite E. unfold untouched. destruct (with_scheduler p (λ c, (c, tt)) (ts_host s)) as [h' r]. unfold await. cbn. rewrite Hf.
  eexists. split; [reflexivity|]. done.
Qed.

End control.

(** ** A control turn while a result is being spoken *)

#[local] Existing Instance w_config.
#[local] Existing Instance RETENTION_FALLBACK.
#[local] Existing Instance tw_config.

Definition tc_env : TurnEnv Coordinator := tw_env OUnknown.
Definition tc_state : TurnState Coordinator := turn_start tc_env "turn-2" 1 wh_spoken.1 tw_registry.
Definition tc_pipeline : Pipeline SessionState Coordinator :=
  default (mkPipeline true true 1%N (Scheduler_init w_init Coordinator_init)) (pipelines (h_acks wh_spoken.1) !! 0%nat).

Lemma tc_pipeline_at : pipelines (h_acks (ts_host tc_state)) !! 0%nat = Some tc_pipeline.
Proof. vm_compute. reflexivity. Qed.

Lemma tc_missed :
  (control_cancel tc_env 0 "turn-2" "work-turn-2" ["work-turn-9"] tc_state).2 =
  Finished ("unknown_target", Some "I could not find that active work item.").
Proof. vm_compute. reflexivity. Qed.


Definition tc_lease : UtteranceLease :=
  mkLease (mkItem (Some "result-1") "work-turn-1" "run-turn-1" "answer" "utt-1" (Some 1%N) ROLE_RESULT None None) "token-1".

Lemma tc_playing : active (pl_scheduler tc_pipeline) = Some tc_lease.
Proof. vm_compute. reflexivity. Qed.

Lemma missed_pause_reported_applied_witness :
  ∃ s', control_pause tc_env 0 ["work-turn-9"] tc_state = (s', Finished ("applied", None)) ∧
    ts_host s' = untouched 0 (ts_host tc_state).
Proof.
  assert (si_work_item_id (lease_item tc_lease) ≠ "work-turn-9") as Hn by (intros [=]).
  destruct (missed_pause_reported_applied tc_env 0 "work-turn-9" [] tc_state tc_pipeline tc_lease tc_pipeline_at tc_playing Hn eq_refl)
    as (s' & E & Eh & _).
  exists s'. split; [exact E | exact Eh].
Defined.
