(* ===== verification/Citations.v ===== *)
(** The citations of a search answer ([_response_citations] of
    [src/server/workers/web_search.py] and [normalize_citations] of
    [src/server/results.py]).

    A provider response is a graph of Python objects: a value is a scalar or a reference,
    and references may be shared or form cycles.  The walk over it is breadth first,
    with a budget of nodes, a limit of depth and a limit of candidates.  How other
    values print and which of them are true is a class, and so are the two checks of
    [urllib.parse] that go beyond the text of a URL: the validity of a bracketed address
    and the compatibility normalization of a host. *)

From S2P Require Import Prelude PyDict PyText PyValue.

Inductive value :=
| VText (t : text)
| VScalar (n : N)                         (* bytes, a number or a boolean *)
| VNone
| VRef (l : N).

Inductive object :=
| OMap (items : dict (list N) value)
| OSeq (items : list value)
| OOther (attributes : dict (list N) value).

Class ObjectRuntime := {
  value_str : value → text;               (* [str] of what is not a text *)
  value_true : value → bool;              (* [bool] of a scalar or another object *)
  bracketed_ok : text → bool;             (* [_check_bracketed_netloc] accepts *)
  netloc_ok : text → bool                 (* [_checknetloc] accepts *)
}.

Section citations.
Context `{ObjectRuntime}.

(** ** The walk *)

Section walk.
Context (heap : N → object).

Definition empty_object (o : object) : option bool :=
  match o with OMap d => Some (bool_decide (d = [])) | OSeq l => Some (bool_decide (l = [])) | OOther _ => None end.

Definition truth (v : value) : bool :=
  match v with
  | VText t => negb (bool_decide (t = []))
  | VNone => false
  | VScalar _ => value_true v
  | VRef l => match empty_object (heap l) with Some e => negb e | None => value_true v end
  end.

Definition str_of (v : value) : text := match v with VText t => t | VNone => txt "None" | _ => value_str v end.

(** [str(v or "")], for a value that may be missing *)
Definition str_or_empty (v : option value) : text :=
  match v with Some v => if truth v then str_of v else [] | None => [] end.

Fixpoint contains (p t : text) : bool :=
  match prefix_of_text p t with
  | Some _ => true
  | None => match t with _ :: t' => contains p t' | [] => false end
  end.

(** A citation as the walk collects it: its title and its URL *)
Definition candidate : Type := list N * list N.

Definition key (s : string) : list N := txt s.

(** The text ["citation"] in [str(type).lower()]: no code point beyond ASCII lowers into that word *)
Definition citation_typed (d : dict (list N) value) : bool :=
  contains (txt "citation") (ascii_lower <$> match dict_get (key "type") d with Some v => str_of v | None => [] end).

Definition citation_of (l : N) : option candidate :=
  match heap l with
  | OMap d =>
      match dict_get (key "url") d with
      | Some (VText url) =>
          if citation_typed d || dict_mem (key "title") d then Some (str_or_empty (dict_get (key "title") d), url) else None
      | _ => None
      end
  | OSeq _ => None
  | OOther a =>
      match dict_get (key "url") a with
      | Some (VText url) => Some (str_or_empty (dict_get (key "title") a), url)
      | _ => None
      end
  end.

Definition CHILD_NAMES : list string := ["output"; "content"; "annotations"; "results"; "action"; "sources"].

Definition children (l : N) : list value :=
  match heap l with
  | OMap d => dict_values d
  | OSeq vs => vs
  | OOther a => omap (λ n, match dict_get (key n) a with Some VNone | None => None | Some v => Some v end) CHILD_NAMES
  end.

Context (max_candidates max_depth max_nodes : nat).

(** Whether the children of an object at a depth are looked at *)
Definition descends (l : N) (depth : nat) : bool :=
  match heap l with OSeq _ => true | _ => bool_decide (depth < max_depth)%nat end.

Record Scan := mkScan {
  sc_pending : list (value * nat);
  sc_seen : gset N;
  sc_citations : list candidate;
  sc_visited : nat
}.

(** The queue takes children until the budget of nodes is promised. *)
Fixpoint push (visited : nat) (pending : list (value * nat)) (vs : list value) (depth : nat) : list (value * nat) :=
  match vs with
  | [] => pending
  | v :: vs' =>
      if bool_decide (max_nodes <= visited + length pending)%nat then pending
      else push visited (pending ++ [(v, depth)]) vs' depth
  end.

Definition expand (l : N) (depth : nat) (s : Scan) : Scan :=
  mkScan (if descends l depth then push (sc_visited s) (sc_pending s) (children l) (S depth) else sc_pending s)
    ({[l]} ∪ sc_seen s) (sc_citations s ++ option_list (citation_of l)) (sc_visited s).

(** One round of the loop, for the value at the head of the queue *)
Definition visit (v : value) (depth : nat) (s : Scan) : Scan :=
  if bool_decide (max_depth < depth)%nat then s
  else match v with
       | VRef l => if bool_decide (l ∈ sc_seen s) then s else expand l depth s
       | _ => s
       end.

Fixpoint scan (fuel : nat) (s : Scan) : Scan :=
  match fuel with
  | O => s
  | S fuel =>
      match sc_pending s with
      | (v, depth) :: rest =>
          if bool_decide (sc_visited s < max_nodes)%nat && bool_decide (length (sc_citations s) < max_candidates)%nat
          then scan fuel (visit v depth (mkScan rest (sc_seen s) (sc_citations s) (S (sc_visited s))))
          else s
      | [] => s
      end
  end.

Definition scan_start (root : value) : Scan := mkScan [(root, 0%nat)] ∅ [] 0.

(** Every round visits a node, so that the budget bounds the rounds. *)
Definition scan_all (root : value) : Scan := scan max_nodes (scan_start root).

Definition response_citations (root : value) : list candidate := sc_citations (scan_all root).

End walk.

(** ** URLs *)

Definition scheme_char (c : N) : bool := ascii_alpha c || ascii_digit c || bool_decide (c ∈ [43; 45; 46]%N).

(** The text up to the first character of a set, and the rest *)
Fixpoint break_at (stop : N → bool) (t : text) : text * text :=
  match t with
  | [] => ([], [])
  | c :: t' => if stop c then ([], t) else let (u, v) := break_at stop t' in (c :: u, v)
  end.

(** [lstrip] of the control characters and the space, then without tab, newline and return *)
Fixpoint drop_controls (t : text) : text :=
  match t with c :: t' => if (c <=? 32)%N then drop_controls t' else t | [] => [] end.

Definition cleaned (t : text) : text := filter (λ c, c ∉ [9; 13; 10]%N) (drop_controls t).

(** The scheme, lowered, and what follows its colon *)
Definition split_scheme (t : text) : text * text :=
  match t with
  | c :: _ =>
      match break_at (N.eqb 58) t with
      | (s, _ :: rest) => if ascii_alpha c && forallb scheme_char s then (ascii_lower <$> s, rest) else ([], t)
      | _ => ([], t)
      end
  | [] => ([], t)
  end.

(** [urlsplit]: the scheme and the network location; [None] is its ValueError *)
Definition urlsplit (url : text) : option (text * text) :=
  let (scheme, rest) := split_scheme (cleaned url) in
  let netloc := match prefix_of_text [47; 47]%N rest with
                | Some r => (break_at (λ c, bool_decide (c ∈ [47; 63; 35]%N)) r).1
                | None => []
                end in
  let opens := bool_decide (91%N ∈ netloc) in
  let closes := bool_decide (93%N ∈ netloc) in
  if xorb opens closes then None
  else if opens && negb (bracketed_ok netloc) then None
  else if netloc_ok netloc then Some (scheme, netloc) else None.

(** [rpartition("@")[2]] *)
Fixpoint after_last_at (acc t : text) : text :=
  match t with c :: t' => if (c =? 64)%N then after_last_at t' t' else after_last_at acc t' | [] => acc end.

(** [SplitResult.hostname] is not empty *)
Definition has_host (netloc : text) : bool :=
  let info := after_last_at netloc netloc in
  let host := match (break_at (N.eqb 91) info).2 with
              | _ :: bracketed => (break_at (N.eqb 93) bracketed).1
              | [] => (break_at (N.eqb 58) info).1
              end in
  negb (bool_decide (host = [])).

(** The conditions of [normalize_citations] on a URL *)
Definition wanted (url : text) : bool :=
  match urlsplit url with
  | Some (scheme, netloc) =>
      (bool_decide (scheme = txt "http") || bool_decide (scheme = txt "https")) && negb (bool_decide (netloc = []))
      && has_host netloc && negb (existsb py_isspace url)
  | None => false
  end.

(** The pattern [^https?://[^\s]+$] of the [Citation] model; its white space is
    contained in Python's, which [wanted] has excluded already *)
Definition citation_url (url : text) : bool :=
  let rest := match prefix_of_text (txt "http://") url with Some r => Some r | None => prefix_of_text (txt "https://") url end in
  match rest with Some (c :: r) => forallb (λ c, negb (py_isspace c)) (c :: r) | _ => false end.

(** [normalize_citations]: the first citation of each URL *)
Fixpoint normalize (seen : list (list N)) (items : list candidate) : result (list candidate) :=
  match items with
  | [] => Ret []
  | (title, url) :: items' =>
      if negb (wanted url) || bool_decide (url ∈ seen) then normalize seen items'
      else if citation_url url then
        match normalize (url :: seen) items' with Ret l => Ret ((title, url) :: l) | Raise e => Raise e end
      else Raise (ValueError "String should match pattern '^https?://[^\s]+$'")
  end.

Definition normalize_citations (items : list candidate) : result (list candidate) := normalize [] items.

End citations.
