(* ===== verification/CitationsFacts.v ===== *)
(** Facts about citations: the walk over a provider response ends within its
    budgets and finds every citation when they suffice, and what the
    normalization keeps. *)

From Stdlib Require Import Sorted.
From S2P Require Import Prelude PyDict PyText PyValue Citations.

Section walk.
Context `{ObjectRuntime} (heap : N → object) (max_candidates max_depth max_nodes : nat).

Abbreviation Scan := Citations.Scan.
Implicit Types (s : Scan) (v : value) (l : N) (d : nat).

(** ** Budgets *)

Definition promised s : nat := sc_visited s + length (sc_pending s).

Lemma push_length visited pending vs d :
  (visited + length pending <= max_nodes)%nat →
  (length pending <= length (push max_nodes visited pending vs d))%nat ∧
  (visited + length (push max_nodes visited pending vs d) <= max_nodes)%nat.
Proof.
  revert pending. induction vs as [|v vs IH]; intros pending Hp; cbn [push]; [lia|]. case_bool_decide as Hf; [lia|].
  destruct (IH (pending ++ [(v, d)])) as [H1 H2]; rewrite length_app in *; simpl in *; lia.
Qed.

Lemma visit_budget v d s :
  (promised s <= max_nodes)%nat → (length (sc_citations s) < max_candidates)%nat →
  let s' := visit heap max_depth max_nodes v d s in
  (promised s <= promised s' <= max_nodes)%nat ∧ (length (sc_citations s') <= max_candidates)%nat ∧ sc_visited s' = sc_visited s.
Proof.
  intros Hp Hc. unfold visit. cbv zeta. case_bool_decide; [lia|]. destruct v as [| | |l]; try lia.
  case_bool_decide; [lia|]. unfold expand, promised in *. cbn [sc_visited sc_pending sc_citations].
  rewrite length_app. assert (length (option_list (citation_of heap l)) <= 1)%nat by (destruct (citation_of heap l); simpl; lia).
  destruct (descends heap max_depth l d); [|lia]. destruct (push_length (sc_visited s) (sc_pending s) (children heap l) (S d) Hp). lia.
Qed.

(** A round of the loop keeps what every visit keeps. *)
Lemma scan_ind (P : Scan → Prop) :
  (∀ s v d rest, P s → sc_pending s = (v, d) :: rest → (sc_visited s < max_nodes)%nat →
     (length (sc_citations s) < max_candidates)%nat →
     P (visit heap max_depth max_nodes v d (mkScan rest (sc_seen s) (sc_citations s) (S (sc_visited s))))) →
  ∀ fuel s, P s → P (scan heap max_candidates max_depth max_nodes fuel s).
Proof.
  intros Hstep fuel. induction fuel as [|fuel IH]; intros s Hs; [done|]. cbn [scan].
  destruct (sc_pending s) as [|[v d] rest] eqn:E; [done|].
  case_bool_decide as H1; [|done]. case_bool_decide as H2; [|done]. cbn [andb]. apply IH. by apply Hstep.
Qed.

(** The fuel is enough: the loop stops by its own condition. *)
Lemma scan_stops fuel s :
  (max_nodes <= sc_visited s + fuel)%nat →
  let s' := scan heap max_candidates max_depth max_nodes fuel s in
  sc_pending s' = [] ∨ (max_nodes <= sc_visited s')%nat ∨ (max_candidates <= length (sc_citations s'))%nat.
Proof.
  revert s. induction fuel as [|fuel IH]; intros s Hf; cbn [scan]; [right; left; lia|].
  destruct (sc_pending s) as [|[v d] rest] eqn:E; [by left|].
  case_bool_decide as H1; [|right; left; cbn [andb]; lia]. case_bool_decide as H2; [|right; right; cbn [andb]; lia]. cbn [andb].
  apply IH. assert (∀ s0, sc_visited (visit heap max_depth max_nodes v d s0) = sc_visited s0) as ->; [|simpl; lia].
  intros s0. unfold visit. repeat case_match; done.
Qed.

(** The walk over a provider response is bounded, whatever the response is,
    cyclic ones included: it visits at most the budget of nodes, never promises more
    nodes than that in its queue, returns at most the wanted number of candidates, and it
    stops only because the queue is empty or one of the two limits is reached. *)
Theorem walk_bounded root :
  (1 <= max_nodes)%nat →
  let s := scan_all heap max_candidates max_depth max_nodes root in
  (sc_visited s + length (sc_pending s) <= max_nodes)%nat ∧
  (length (response_citations heap max_candidates max_depth max_nodes root) <= max_candidates)%nat ∧
  (sc_pending s = [] ∨ sc_visited s = max_nodes ∨ length (sc_citations s) = max_candidates).
Proof.
  intros Hn. set (s := scan_all heap max_candidates max_depth max_nodes root).
  assert (promised s <= max_nodes ∧ length (sc_citations s) <= max_candidates)%nat as [Hp Hc].
  { apply (scan_ind (λ s, (promised s <= max_nodes ∧ length (sc_citations s) <= max_candidates)%nat)).
    - intros s0 v d rest [Hp Hc] E H1 H2. unfold promised in Hp. rewrite E in Hp. simpl in Hp.
      destruct (visit_budget v d (mkScan rest (sc_seen s0) (sc_citations s0) (S (sc_visited s0)))) as (? & ? & _);
        unfold promised in *; simpl in *; lia.
    - unfold promised. simpl. lia. }
  unfold promised in Hp. split_and!; [done|exact Hc|].
  pose proof (scan_stops max_nodes (scan_start root) ltac:(simpl; lia)) as Hst. cbv zeta in Hst.
  change (scan heap max_candidates max_depth max_nodes max_nodes (scan_start root)) with s in Hst. destruct Hst as [?|[?|?]]; [by left|lia|lia].
Qed.

(** ** Completeness *)

Inductive reach (root : value) : value → nat → Prop :=
| ReachRoot : reach root root 0
| ReachChild l d v : reach root (VRef l) d → descends heap max_depth l d = true → v ∈ children heap l → reach root v (S d).

(** A value at a depth has been dealt with, or waits in the queue. *)
Definition covered (order : list (N * nat)) (pending : list (value * nat)) v d : Prop :=
  (max_depth < d)%nat ∨ (∀ l, v ≠ VRef l) ∨
  (∃ l d', v = VRef l ∧ (l, d') ∈ order ∧ (d' <= d)%nat) ∨ (∃ d', (v, d') ∈ pending ∧ (d' <= d)%nat).

(** The state of the walk: the objects in the order of their expansion with their
    depth, and the depth reached *)
Record good (root : value) (order : list (N * nat)) (cur : nat) s : Prop := {
  good_nodup : NoDup order.*1;
  good_seen : sc_seen s = list_to_set order.*1;
  good_citations : sc_citations s = omap (citation_of heap) order.*1;
  good_order : Forall (λ x, reach root (VRef x.1) x.2 ∧ (x.2 <= max_depth)%nat ∧ (x.2 <= cur)%nat) order;
  good_pending : Forall (λ x, reach root x.1 x.2 ∧ (cur <= x.2 <= S cur)%nat) (sc_pending s);
  good_sorted : StronglySorted (λ x y, (x.2 <= y.2)%nat) (sc_pending s);
  good_children : ∀ l d v, (l, d) ∈ order → descends heap max_depth l d = true → v ∈ children heap l →
                    covered order (sc_pending s) v (S d);
  good_root : covered order (sc_pending s) root 0
}.

Lemma covered_weaken order order' pending pending' v d :
  order ⊆ order' → pending ⊆ pending' → covered order pending v d → covered order' pending' v d.
Proof.
  intros Ho Hp [?|[?|[(l & d' & -> & Hl & Hd)|(d' & Hv & Hd)]]]; [by left|right; by left| |].
  - right. right. left. exists l, d'. split_and!; [done|by apply Ho|done].
  - right. right. right. exists d'. split; [by apply Hp|done].
Qed.

(** What waited in the head of the queue is dealt with. *)
Lemma covered_pop order order' rest rest' v d w e :
  order ⊆ order' → rest ⊆ rest' → (∀ e, (d <= e)%nat → covered order' rest' v e) →
  covered order ((v, d) :: rest) w e → covered order' rest' w e.
Proof.
  intros Ho Hp Hv [?|[?|[(l & d' & -> & Hl & Hd)|(d' & [Hw|Hw]%elem_of_cons & Hd)]]]; [by left|right; by left| | |].
  - right. right. left. exists l, d'. split_and!; [done|by apply Ho|done].
  - injection Hw as -> ->. by apply Hv.
  - right. right. right. exists d'. split; [by apply Hp|done].
Qed.

(** The queue after the children were pushed, unless the budget ran out *)
Lemma push_full visited pending vs d :
  (visited + length (push max_nodes visited pending vs d) < max_nodes)%nat →
  push max_nodes visited pending vs d = pending ++ ((λ v, (v, d)) <$> vs).
Proof.
  revert pending. induction vs as [|v vs IH]; intros pending; cbn [push]; [by rewrite app_nil_r|].
  case_bool_decide as Hf; [lia|]. intros Hl%IH. by rewrite Hl, <- app_assoc.
Qed.

Section step.
Context (root : value).

Lemma good_skip order cur s v d rest :
  good root order cur s → sc_pending s = (v, d) :: rest →
  (∀ e, (d <= e)%nat → covered order rest v e) →
  good root order d (mkScan rest (sc_seen s) (sc_citations s) (S (sc_visited s))).
Proof.
  intros [G1 G2 G3 G4 G5 G6 G7 G8] E Hv. rewrite E in *. apply Forall_cons in G5 as [[Hr Hd] G5]. apply StronglySorted_inv in G6 as [G6 Hle].
  simpl in *. split; simpl; try done.
  - eapply Forall_impl; [exact G4|]. simpl. naive_solver lia.
  - rewrite Forall_forall in *. intros x Hx. specialize (G5 x Hx). specialize (Hle x Hx). simpl in *. split; [tauto|lia].
  - intros l e w Hl Hde Hw. by eapply covered_pop; [..|eapply G7].
  - by eapply covered_pop; [..|exact G8].
Qed.

Lemma sorted_app_le {A} (R : A → A → Prop) (l1 l2 : list A) :
  StronglySorted R l1 → StronglySorted R l2 → (∀ x y, x ∈ l1 → y ∈ l2 → R x y) → StronglySorted R (l1 ++ l2).
Proof.
  induction 1 as [|x l1 Hs IH Hf]; intros H2 Hr; [done|]. simpl. constructor.
  - apply IH; [done|]. intros y z Hy Hz. by apply Hr; [constructor|].
  - apply Forall_app. split; [done|]. apply Forall_forall. intros y Hy. by apply Hr; [constructor|].
Qed.

Lemma sorted_level (vs : list value) d : StronglySorted (λ x y, (x.2 <= y.2)%nat) ((λ v, (v, d)) <$> vs).
Proof.
  induction vs as [|v vs IH]; [constructor|]. rewrite fmap_cons. constructor; [done|]. apply Forall_forall. intros y Hy.
  by apply list_elem_of_fmap in Hy as (? & -> & _).
Qed.

Lemma good_expand order cur s l d rest :
  good root order cur s → sc_pending s = (VRef l, d) :: rest → (d <= max_depth)%nat → l ∉ sc_seen s →
  let s' := expand heap max_depth max_nodes l d (mkScan rest (sc_seen s) (sc_citations s) (S (sc_visited s))) in
  (promised s' < max_nodes)%nat → good root (order ++ [(l, d)]) d s'.
Proof.
  intros [G1 G2 G3 G4 G5 G6 G7 G8] E Hm Hl s' Hp. rewrite E in *. apply Forall_cons in G5 as [[Hr Hd] G5].
  apply StronglySorted_inv in G6 as [G6 Hle]. simpl in *.
  set (new := if descends heap max_depth l d then (λ v, (v, S d)) <$> children heap l else []).
  assert (sc_pending s' = rest ++ new) as Ep.
  { unfold s', expand, promised, new in *. simpl in *. destruct (descends heap max_depth l d); [by apply push_full|by rewrite app_nil_r]. }
  assert (∀ x, x ∈ new → x.2 = S d ∧ reach root x.1 (S d)) as Hnew.
  { intros x Hx. unfold new in Hx. destruct (descends heap max_depth l d) eqn:Ed; [|by apply not_elem_of_nil in Hx].
    apply list_elem_of_fmap in Hx as (v & -> & Hv). split; [done|]. by econstructor. }
  assert (∀ x, x ∈ rest → reach root x.1 x.2 ∧ (d <= x.2 <= S d)%nat) as Hrest.
  { intros x Hx. rewrite Forall_forall in G5, Hle. specialize (G5 x Hx). specialize (Hle x Hx). simpl in *. split; [tauto|lia]. }
  split; rewrite ?Ep.
  - rewrite fmap_app. apply NoDup_app. split_and!; [done| |by apply NoDup_singleton]. intros x Hx Hx'.
    apply list_elem_of_singleton in Hx'. subst x. apply Hl. rewrite G2. by apply elem_of_list_to_set.
  - simpl. rewrite G2, fmap_app, list_to_set_app_L. simpl. set_solver.
  - simpl. rewrite G3, fmap_app, omap_app. by f_equal.
  - apply Forall_app. split; [|by repeat constructor]. eapply Forall_impl; [exact G4|]. simpl. naive_solver lia.
  - apply Forall_app. split; apply Forall_forall; intros x Hx; [by apply Hrest|]. destruct (Hnew x Hx) as [-> ?]. split; [done|lia].
  - apply sorted_app_le; [done| |].
    + unfold new. destruct (descends heap max_depth l d); [|constructor]. apply sorted_level.
    + intros x y Hx Hy. destruct (Hnew y Hy) as [-> _]. destruct (Hrest x Hx) as [_ ?]. lia.
  - assert (∀ e, (d <= e)%nat → covered (order ++ [(l, d)]) (rest ++ new) (VRef l) e) as Hcov.
    { intros e He. right. right. left. exists l, d. split_and!; [done| |done]. apply elem_of_app. right. by constructor. }
    intros l' e w [Ho|Ho]%elem_of_app Hde Hw.
    + eapply covered_pop; [..|by eapply G7]; [set_solver|set_solver|done].
    + apply list_elem_of_singleton in Ho. injection Ho as -> ->. right. right. right. exists (S d). split; [|done].
      apply elem_of_app. right. unfold new. rewrite Hde. apply list_elem_of_fmap. by exists w.
  - eapply covered_pop; [..|exact G8]; [set_solver|set_solver|].
    intros e He. right. right. left. exists l, d. split_and!; [done| |done]. apply elem_of_app. right. by constructor.
Qed.

Definition walking s : Prop :=
  (promised s <= max_nodes)%nat ∧ (promised s = max_nodes ∨ ∃ order cur, good root order cur s).

Lemma walking_step s v d rest :
  walking s → sc_pending s = (v, d) :: rest → (length (sc_citations s) < max_candidates)%nat →
  walking (visit heap max_depth max_nodes v d (mkScan rest (sc_seen s) (sc_citations s) (S (sc_visited s)))).
Proof.
  intros [Hp Hg] E Hc. set (s1 := mkScan rest (sc_seen s) (sc_citations s) (S (sc_visited s))).
  assert (promised s1 = promised s) as Ep by (unfold promised, s1; rewrite E; simpl; lia).
  destruct (visit_budget v d s1 ltac:(lia) Hc) as (Hp' & _ & _). split; [lia|].
  destruct Hg as [Hfull|(order & cur & G)]; [left; lia|].
  unfold visit in *. case_bool_decide as Hd.
  - right. exists order, d. eapply good_skip; [done|exact E|]. intros e He. left. lia.
  - destruct v as [t|n| |l].
    1-3: right; exists order, d; eapply good_skip; [done|exact E|]; intros e He; right; left; by intros l.
    case_bool_decide as Hs.
    + right. exists order, d. eapply good_skip; [done|exact E|]. intros e He. right. right. left.
      unfold s1 in Hs. simpl in Hs. rewrite (good_seen _ _ _ _ G) in Hs. apply elem_of_list_to_set, list_elem_of_fmap in Hs as ([l' d'] & -> & Hl).
      exists l', d'. split_and!; [done|done|]. pose proof (good_order _ _ _ _ G) as Ho. rewrite Forall_forall in Ho. specialize (Ho _ Hl).
      pose proof (good_pending _ _ _ _ G) as Hq. rewrite E in Hq. apply Forall_cons in Hq as [Hq _]. simpl in *. lia.
    + destruct (decide (promised (expand heap max_depth max_nodes l d s1) = max_nodes)) as [Hf|Hf]; [by left|]. right.
      exists (order ++ [(l, d)]), d. eapply good_expand; [done|exact E|lia|done|]. fold s1. lia.
Qed.

End step.

(** C30.  The walk finds every citation when its budgets suffice: if it ended below both
    limits, its candidates are those of the objects within the depth limit, each
    object taken once however often it is shared or cyclic, and no other. *)
Theorem walk_complete root :
  let s := scan_all heap max_candidates max_depth max_nodes root in
  (sc_visited s < max_nodes)%nat → (length (sc_citations s) < max_candidates)%nat →
  ∃ order : list N, NoDup order ∧
    response_citations heap max_candidates max_depth max_nodes root = omap (citation_of heap) order ∧
    ∀ l, l ∈ order ↔ ∃ d, (d <= max_depth)%nat ∧ reach root (VRef l) d.
Proof.
  intros s Hv Hc. assert (walking root s) as [Hp Hg].
  { assert (walking root (scan_start root)) as H0.
    { split; [unfold promised; simpl; lia|]. right. exists [], 0%nat. split; simpl.
      - apply NoDup_nil_2.
      - done.
      - done.
      - constructor.
      - apply Forall_singleton. split; [constructor|simpl; lia].
      - by repeat constructor.
      - intros ? ? ? Hx. by apply not_elem_of_nil in Hx.
      - right. right. right. exists 0%nat. split; [by constructor|done]. }
    apply (scan_ind (walking root)); [|done]. intros s0 v d rest Hw E _ H2. by apply walking_step. }
  pose proof (scan_stops max_nodes (scan_start root) ltac:(simpl; lia)) as Hst. cbv zeta in Hst.
  change (scan heap max_candidates max_depth max_nodes max_nodes (scan_start root)) with s in Hst.
  assert (sc_pending s = []) as Epend by (destruct Hst as [?|[?|?]]; [done|lia|lia]).
  destruct Hg as [Hf|(order & cur & G)]; [unfold promised in Hf; rewrite Epend in Hf; simpl in Hf; lia|].
  exists order.*1. split; [apply G|]. split; [apply G|]. intros l. split.
  - intros ([l' d] & -> & Hl)%list_elem_of_fmap. pose proof (good_order _ _ _ _ G) as Ho. rewrite Forall_forall in Ho.
    destruct (Ho _ Hl) as (? & ? & _). by exists d.
  - intros (d & Hd & Hr). assert (∀ v d, reach root v d → (d <= max_depth)%nat → ∀ l, v = VRef l → ∃ d', (l, d') ∈ order ∧ (d' <= d)%nat) as Hall.
    { clear l d Hd Hr. assert (∀ v d, covered order [] v d → (d <= max_depth)%nat → ∀ l, v = VRef l → ∃ d', (l, d') ∈ order ∧ (d' <= d)%nat) as Hcov.
      { intros v d [?|[Hn|[(l & d' & -> & Hl & Hd)|(d' & Hx & _)]]] Hm l' El; [lia|by destruct (Hn l')|injection El as <-; by exists d'|by apply not_elem_of_nil in Hx]. }
      pose proof (good_children _ _ _ _ G) as Hch. pose proof (good_root _ _ _ _ G) as Hro. rewrite Epend in Hch, Hro.
      intros v d Hr. induction Hr as [|l d v Hr IH Hde Hv']; intros Hd l0 El; [by eapply Hcov|].
      destruct (IH ltac:(lia) l eq_refl) as (d' & Hl & Hle).
      assert (descends heap max_depth l d' = true) as Hde'.
      { unfold descends in *. destruct (heap l); [|done|]; apply bool_decide_eq_true in Hde; apply bool_decide_eq_true; lia. }
      destruct (Hcov v (S d') (Hch _ _ _ Hl Hde' Hv') ltac:(lia) l0 El) as (d2 & ? & ?). exists d2. split; [done|lia]. }
    destruct (Hall _ _ Hr Hd l eq_refl) as (d' & Hl & _). apply list_elem_of_fmap. by exists (l, d').
Qed.

End walk.

(** ** Normalization *)

Section normalization.
Context `{ObjectRuntime}.
Implicit Types (items l : list candidate) (seen : list (list N)).

Definition accepted (c : candidate) : Prop := wanted c.2 = true ∧ citation_url c.2 = true.

Lemma normalize_inv seen items l :
  normalize seen items = Ret l →
  sublist l items ∧ Forall accepted l ∧ NoDup l.*2 ∧ (∀ u, u ∈ l.*2 → u ∉ seen) ∧
  (∀ u, u ∈ items.*2 → wanted u = true → u ∈ seen ∨ u ∈ l.*2).
Proof.
  revert seen l. induction items as [|[t u] items IH]; intros seen l; cbn [normalize].
  - intros [= <-]. split_and!; [constructor|constructor|constructor|..]; by intros u ?%not_elem_of_nil.
  - destruct (wanted u) eqn:Ew; cbn [negb orb].
    + case_bool_decide as Hs.
      * intros (H1 & H2 & H3 & H4 & H5)%IH. split_and!; [by constructor|done|done|done|].
        intros v [->|Hv]%elem_of_cons Hw; [by left|by apply H5].
      * destruct (citation_url u) eqn:Ec; [|done]. destruct (normalize (u :: seen) items) as [l'|] eqn:E; [|done].
        intros [= <-]. apply IH in E as (H1 & H2 & H3 & H4 & H5). rewrite !fmap_cons. split_and!.
        -- by constructor.
        -- by constructor.
        -- constructor; [intros Hu; by apply (H4 u Hu); constructor|done].
        -- intros v [->|Hv]%elem_of_cons; [done|]. intros Hx. apply (H4 v Hv). by constructor.
        -- intros v [->|Hv]%elem_of_cons Hw; [right; by constructor|]. destruct (H5 v Hv Hw) as [[->|?]%elem_of_cons|?];
             [right; by constructor|by left|right; by constructor].
    + intros (H1 & H2 & H3 & H4 & H5)%IH. split_and!; [by constructor|done|done|done|].
      intros v [->|Hv]%elem_of_cons Hw; [simpl in Hw; congruence|by apply H5].
Qed.

(** A list of distinct accepted citations is kept as it is. *)
Lemma normalize_id seen l :
  Forall accepted l → NoDup l.*2 → (∀ u, u ∈ l.*2 → u ∉ seen) → normalize seen l = Ret l.
Proof.
  intros Hf. revert seen. induction Hf as [|[t u] l [Hw Hc] _ IH]; intros seen Hn Hs; [done|]. cbn [normalize].
  simpl in Hw, Hc. rewrite fmap_cons in *. apply NoDup_cons in Hn as [Hu Hn]. rewrite Hw. cbn [negb orb].
  rewrite bool_decide_false by (apply Hs; by constructor). rewrite Hc, IH; [done|done|].
  intros v Hv [->|Hx]%elem_of_cons; [done|]. eapply Hs; [by constructor|done].
Qed.

Lemma normalized_parts items l n :
  normalize_citations items = Ret l →
  sublist l items ∧ NoDup l.*2 ∧ Forall (λ c, wanted c.2 = true) l ∧ normalize_citations (take n l) = Ret (take n l).
Proof.
  intros (H1 & H2 & H3 & _ & H5)%normalize_inv. split_and!; [done|done| |].
  - eapply Forall_impl; [exact H2|]. by intros c [? _].
  - apply normalize_id; [by apply Forall_take| |by intros u _ ?%not_elem_of_nil].
    rewrite fmap_take. eapply sublist_NoDup; [done|apply sublist_take].
Qed.

(** What normalization keeps: the candidates with an acceptable URL, in their order,
    the first of each URL and no other; no acceptable URL is lost.  Any initial part of
    the list is left alone by a second normalization, so that the worker's cut to its
    limit is what the result carries. *)
Theorem normalized_citations items l n :
  normalize_citations items = Ret l →
  sublist l items ∧ NoDup l.*2 ∧ Forall (λ c, wanted c.2 = true) l ∧
  (∀ u, u ∈ items.*2 → wanted u = true → u ∈ l.*2) ∧
  normalize_citations (take n l) = Ret (take n l).
Proof.
  intros Hl. destruct (normalized_parts _ _ n Hl) as (H1 & H2 & H3 & H4). split_and!; [done|done|done| |done].
  apply normalize_inv in Hl as (_ & _ & _ & _ & H5). intros u Hu Hw. by destruct (H5 u Hu Hw) as [?%not_elem_of_nil|?].
Qed.

(** One URL can fail the whole answer.  Normalization raises exactly when a
    candidate passes its checks and not the pattern of the citation model, and
    an upper-case scheme does that: the checks compare the lowered scheme, the
    pattern the URL as it is written. *)
Theorem unmatched_url_fails items :
  (∃ x, normalize_citations items = Raise x) ↔ ∃ u, u ∈ items.*2 ∧ wanted u = true ∧ citation_url u = false.
Proof.
  unfold normalize_citations. split.
  - assert (∀ seen, (∃ x, normalize seen items = Raise x) → ∃ u, u ∈ items.*2 ∧ wanted u = true ∧ citation_url u = false) as Hg; [|by apply Hg].
    induction items as [|[t u] items IH]; intros seen; cbn [normalize]; [by intros [x ?]|]. intros [x Hx].
    destruct (wanted u) eqn:Ew; cbn [negb orb] in Hx.
    + case_bool_decide.
      * destruct (IH seen (ex_intro _ _ Hx)) as (v & ? & ?). exists v. split; [by constructor|done].
      * destruct (citation_url u) eqn:Ec; [|exists u; split; [by constructor|done]].
        destruct (normalize (u :: seen) items) as [|x'] eqn:E; [done|].
        destruct (IH (u :: seen) (ex_intro _ _ E)) as (v & ? & ?). exists v. split; [by constructor|done].
    + destruct (IH seen (ex_intro _ _ Hx)) as (v & ? & ?). exists v. split; [by constructor|done].
  - intros (u & Hu & Hw & Hc). destruct (normalize [] items) as [l|x] eqn:E; [|by exists x].
    apply normalize_inv in E as (_ & H2 & _ & _ & H5). destruct (H5 u Hu Hw) as [?%not_elem_of_nil|Hl]; [done|].
    apply list_elem_of_fmap in Hl as (c & -> & Hc'). rewrite Forall_forall in H2. destruct (H2 c Hc') as [_ ?]. congruence.
Qed.

End normalization.

(** ** A cyclic response *)

Definition cr_runtime : ObjectRuntime :=
  {| value_str := λ _, []; value_true := λ _, true; bracketed_ok := λ _, true; netloc_ok := λ _, true |}.
#[local] Existing Instance cr_runtime.

(** A message whose annotation refers back to the message *)
Definition cr_heap (l : N) : object :=
  if (l =? 0)%N then OOther [(txt "output", VRef 1)]
  else if (l =? 1)%N then OSeq [VRef 2; VRef 2]
  else OMap [(txt "type", VText (txt "URL_Citation")); (txt "url", VText (txt "https://example.org/a")); (txt "parent", VRef 0)].

Definition cr_scan : Scan := scan_all cr_heap 48 64 100 (VRef 0).

Lemma cr_below :
  (sc_visited (scan_all cr_heap 48 64 100 (VRef 0)) < 100)%nat ∧ (length (sc_citations (scan_all cr_heap 48 64 100 (VRef 0))) < 48)%nat.
Proof. split; apply (bool_decide_unpack _); vm_compute; exact I. Qed.

Lemma walk_bounded_witness :
  (sc_visited cr_scan + length (sc_pending cr_scan) <= 100)%nat ∧ (length (response_citations cr_heap 48 64 100 (VRef 0)) <= 48)%nat.
Proof.
  unfold cr_scan. assert (1 <= 100)%nat as Hn by lia. destruct (walk_bounded cr_heap 48 64 100 (VRef 0) Hn) as (H1 & H2 & _).
  split; [exact H1|exact H2].
Defined.

Lemma walk_complete_witness :
  ∃ order : list N, NoDup order ∧ response_citations cr_heap 48 64 100 (VRef 0) = omap (citation_of cr_heap) order ∧ 2%N ∈ order.
Proof.
  destruct (walk_complete cr_heap 48 64 100 (VRef 0) (proj1 cr_below) (proj2 cr_below)) as (order & Hn & E & Ho).
  exists order. split; [exact Hn|]. split; [exact E|]. apply Ho. exists 2%nat. split; [lia|].
  apply (ReachChild _ _ _ 1 1); [|reflexivity|left].
  apply (ReachChild _ _ _ 0 0); [constructor|reflexivity|left].
Defined.

Definition cr_items : list candidate :=
  [(txt "A", txt "https://example.org/a"); ([], txt "ftp://example.org"); (txt "again", txt "https://example.org/a")].

Lemma cr_normalized : normalize_citations cr_items = Ret [(txt "A", txt "https://example.org/a")].
Proof. vm_compute. reflexivity. Qed.

Lemma normalized_citations_witness :
  normalize_citations (take 1 [(txt "A", txt "https://example.org/a")]) = Ret [(txt "A", txt "https://example.org/a")].
Proof.
  destruct (normalized_citations cr_items _ 1 cr_normalized) as (_ & _ & _ & _ & E). exact E.
Defined.

(** An upper-case scheme raises. *)
Lemma cr_shouted : normalize_citations [(txt "B", txt "HTTPS://example.org/")] =
  Raise (ValueError "String should match pattern '^https?://[^\s]+$'").
Proof. vm_compute. reflexivity. Qed.
