(* ===== verification/SearchWorker.v ===== *)
(** The web search worker ([src/server/workers/web_search.py], with
    [ClarificationContext.provider_query] of [src/server/workers/base.py]).

    The worker's mailbox is in [Mailbox.v]; here are the operation it submits and what
    comes before it.  The provider's answer is an argument, and so is the reading of
    its JSON text. *)

From S2P Require Import Prelude PyDict PyText Contracts TurnAckLedger WorkItemCoordinator WorkerProjection SessionHost PyValue Regex Intent Citations CitationsFacts.

(** ** When to ask *)

Definition WEATHER_MODIFIER_WORDS : list string :=
  ["afternoon"; "april"; "august"; "autumn"; "c"; "celsius"; "centigrade"; "coming"; "december"; "degrees"; "evening";
   "f"; "fahrenheit"; "fall"; "february"; "friday"; "hour"; "hours"; "january"; "july"; "june"; "k"; "kelvin"; "last";
   "march"; "may"; "midnight"; "monday"; "month"; "morning"; "next"; "night"; "noon"; "november"; "now"; "october";
   "saturday"; "september"; "spring"; "summer"; "sunday"; "the"; "this"; "thursday"; "today"; "tomorrow"; "tonight";
   "tuesday"; "wednesday"; "week"; "weekend"; "winter"; "year"; "yesterday"].

Definition WEATHER_TEMPORAL_WORDS : list string :=
  filter (λ w, w ∉ ["c"; "celsius"; "centigrade"; "degrees"; "f"; "fahrenheit"; "k"; "kelvin"; "the"]) WEATHER_MODIFIER_WORDS.

Section clarification.
Context `{UnicodeText}.
Implicit Types (t : text).

Definition digits (lo : nat) (hi : option nat) : regex := Chars is_digit lo hi.
Definition am_pm (word : string → regex) : regex := Alt (word "am") (word "pm").

(** [\d{1,2}(?::\d{2})?\s*(?:am|pm)] *)
Definition clock_time (word : string → regex) : regex :=
  seq_of [digits 1 (Some 2%nat); opt (Seq (one (N.eqb 58)) (digits 2 (Some 2%nat))); spaces0; am_pm word].

Definition WEATHER_TEMPORAL_PREFIX : regex :=
  seq_of [Start;
          Alt (clock_time folded)
              (seq_of [alt_of ((folded <$> ["zero"; "one"; "two"; "three"; "four"; "five"; "six"; "seven"; "eight"; "nine"; "ten"])
                                 ++ [digits 1 None]);
                       spaces1;
                       alt_of (folded <$> ["minute"; "minutes"; "hour"; "hours"; "day"; "days"; "week"; "weeks"; "month"; "months"])]);
          Bound].

Definition PREPOSITION : regex := seq_of [Bound; alt_of (exact <$> ["in"; "for"; "at"; "near"]); Bound].

(** The time of day or the date a place cannot be *)
Definition TIME_OR_DATE : regex :=
  Alt (clock_time exact)
      (seq_of [digits 4 (Some 4%nat); exact "-"; digits 1 (Some 2%nat); exact "-"; digits 1 (Some 2%nat)]).

Definition cfk (c : N) : bool := bool_decide (c ∈ [99; 102; 107]%N).

(** [(?:°?[cfk]|[-+]?\d+(?:\.\d+)?°[cfk]?)] *)
Definition TEMPERATURE : regex :=
  Alt (Seq (opt (one (N.eqb 176))) (one cfk))
      (seq_of [opt (one (λ c, (c =? 45) || (c =? 43))%N); digits 1 None; opt (Seq (one (N.eqb 46)) (digits 1 None));
               one (N.eqb 176); opt (one cfk)]).

(** [re.findall] of [[^\s,;?.!]+]; [w] is the token being read, reversed *)
Definition token_char (c : N) : bool := negb (py_isspace c || bool_decide (c ∈ [44; 59; 63; 46; 33]%N)).

Fixpoint tokens_from (w t : text) : list text :=
  match t with
  | [] => match w with [] => [] | _ => [reverse w] end
  | c :: t' =>
      if token_char c then tokens_from (c :: w) t'
      else match w with [] => tokens_from [] t' | _ => reverse w :: tokens_from [] t' end
  end.

(** [strip] of quotes and brackets *)
Definition bare t : text := strip_chars [34; 39; 40; 41; 91; 93; 123; 125]%N t.

Definition one_of (ws : list string) t : bool := existsb (λ w, bool_decide (t = txt w)) ws.

Definition matched_full r t : bool := match fullmatch r t with Some _ => true | None => false end.

(** The text after a preposition begins with a plausible place. *)
Definition names_place (suffix : text) : bool :=
  match take 3 (tokens_from [] suffix) with
  | [] => false
  | token :: more =>
      let first := casefold (bare token) in
      let second := match more with t :: _ => casefold (bare t) | [] => [] end in
      if matched WEATHER_TEMPORAL_PREFIX (join (bare <$> (token :: more))) then false
      else if one_of WEATHER_MODIFIER_WORDS first
      then bool_decide (first = txt "the") && negb (one_of WEATHER_TEMPORAL_WORDS second)
      else if one_of ["degree"; "degrees"; "hour"; "hours"] second && isdigit first then false
      else negb (matched_full TIME_OR_DATE first || matched_full TEMPERATURE first)
  end.

Definition has_weather_location (query : text) : bool := existsb (λ e, names_place e.2) (match_ends PREPOSITION query).

Definition found r t : bool := match search r t with Some _ => true | None => false end.

Definition WEATHER_WORD : regex := seq_of [Bound; alt_of (exact <$> ["weather"; "forecast"; "temperature"]); Bound].
Definition UNFINISHED : regex := seq_of [Bound; alt_of (exact <$> ["search"; "find"; "look for"]); spaces0; Finish].

Definition default_web_clarification (query : text) : option text :=
  let lowered := casefold (normalized query) in
  if found WEATHER_WORD lowered && negb (has_weather_location lowered) then Some (txt "Which location should I use?")
  else if found UNFINISHED lowered then Some (txt "What should I search for?")
  else None.

End clarification.

(** ** The worker *)

(** An entry of the worker's context *)
Record Entry := mkEntry { en_turn_id : string; en_query : text; en_text : text; en_result_id : string }.

Record SearchWorker := mkSearchWorker {
  sw_worker_id : string;
  sw_history : list Entry;
  sw_max_citations : nat;
  sw_decline : list N → bool;
  sw_needs_clarification : list N → option (list N)
}.

#[export] Instance eta_SearchWorker : Eta SearchWorker := λ w,
  mkSearchWorker (sw_worker_id w) (sw_history w) (sw_max_citations w) (sw_decline w) (sw_needs_clarification w).

(** How the call of the provider ends *)
Inductive provider_end := Responded (response : value) | ProviderRaised (e : exn) | ProviderTimedOut.

(** The JSON object with exactly the two text fields of [WebSearchAnswer], before its validators *)
Class AnswerReader := { answer_fields : text → option (list N * list N) }.

(** [" ".join(value.strip().split())[:limit]] *)
Definition bounded (value : text) (limit : nat) : text := take limit (normalized value).

(** [ClarificationContext.provider_query] *)
Definition provider_query (original_query question answer : text) : text :=
  txt "Original request: " ++ bounded original_query 650 ++ [10%N]
  ++ txt "Clarification asked: " ++ bounded question 400 ++ [10%N] ++ txt "User answer: " ++ bounded answer 800.

(** [rstrip(" ;")] *)
Definition rstrip_chars (chars : list N) (t : text) : text := reverse (lstrip_chars chars (reverse t)).

Definition refine_query (query : text) : text :=
  let n := normalized query in
  let head := match split_once (txt "refined:") n with Some (a, _) => a | None => n end in
  take 2000 (rstrip_chars [32; 59]%N head).

(** [l[-4:]] *)
Definition last_four {A} (l : list A) : list A := drop (length l - 4) l.

Definition previous (e : Entry) : text :=
  txt "Previous query: " ++ en_query e ++ [10%N] ++ txt "Previous answer: " ++ take 1200 (en_text e).

Fixpoint join_lines (l : list text) : text :=
  match l with [] => [] | [t] => t | t :: l' => t ++ 10%N :: join_lines l' end.

Definition contextual_input (history : list Entry) (query : text) : text :=
  match history with
  | [] => query
  | _ => txt "Use this prior topic context when useful:" ++ [10%N] ++ join_lines (previous <$> last_four history)
         ++ [10%N] ++ txt "Current request: " ++ query
  end.

Section worker.
Context `{UnicodeText} `{ObjectRuntime} `{AnswerReader}.
Context (heap : N → object).

(** [_value] *)
Definition field (v : value) (name : string) : option value :=
  match v with
  | VRef l => match heap l with OMap d | OOther d => dict_get (txt name) d | OSeq _ => None end
  | _ => None
  end.

(** [for x in v or []] *)
Definition iterate (v : option value) : result (list value) :=
  match v with
  | None => Ret []
  | Some v =>
      if negb (truth heap v) then Ret []
      else match v with
           | VText t => Ret ((λ c, VText [c]) <$> t)
           | VRef l => match heap l with
                       | OSeq vs => Ret vs
                       | OMap d => Ret (VText <$> dict_keys d)
                       | OOther _ => Raise (OtherException "TypeError")
                       end
           | _ => Raise (OtherException "TypeError")
           end
  end.

Definition text_chunks (contents : list value) : list text :=
  omap (λ c, match field c "text" with Some (VText t) => Some t | _ => None end) contents.

Fixpoint item_chunks (items : list value) : result (list text) :=
  match items with
  | [] => Ret []
  | i :: items' =>
      match iterate (field i "content"), item_chunks items' with
      | Ret cs, Ret l => Ret (text_chunks cs ++ l)
      | Raise e, _ => Raise e
      | _, Raise e => Raise e
      end
  end.

Definition response_text (response : value) : result text :=
  match field response "output_text" with
  | Some (VText (c :: t)) => Ret (c :: t)
  | _ => match iterate (field response "output") with
         | Ret items => match item_chunks items with Ret l => Ret (strip (join_lines l)) | Raise e => Raise e end
         | Raise e => Raise e
         end
  end.

(** The validators of [WebSearchAnswer]: both texts stripped and not empty, the
    spoken one bounded; [None] is the ValidationError *)
Definition validated (fields : list N * list N) : option (list N * list N) :=
  let display := strip fields.1 in
  let spoken := strip fields.2 in
  if bool_decide (display = []) || bool_decide (spoken = []) || bool_decide (600 < length spoken)%nat then None
  else Some (display, spoken).

Definition response_answer (response : value) : result (list N * list N) :=
  match response_text response with
  | Raise e => Raise e
  | Ret [] => Raise WorkerDeclined
  | Ret raw => match answer_fields raw with
               | Some fields => match validated fields with Some a => Ret a | None => Raise WorkerDeclined end
               | None => Raise WorkerDeclined
               end
  end.

(** What [search] does before it submits: the provider's query, or an exception *)
Definition search_begin (w : SearchWorker) (query : text) (context : option (list N * list N * list N)) : result text :=
  let refined := match context with Some (o, q, a) => provider_query o q a | None => refine_query query end in
  if sw_decline w refined then Raise WorkerDeclined
  else match context, sw_needs_clarification w refined with
       | None, Some (c :: t) => Raise (WorkerClarify (utf8 (c :: t)))
       | _, _ => Ret refined
       end.

(** The candidates asked of the walk, and its default limits *)
Definition search_candidates (w : SearchWorker) (response : value) : list candidate :=
  response_citations heap (Nat.max (sw_max_citations w * 4) (sw_max_citations w)) 64 (N.to_nat 10000) response.

Definition citation (c : candidate) : Citation := mkCitation (utf8 c.1) (utf8 c.2).

(** [execute], in the mailbox, after the provider has ended; [canonical_result]
    normalizes the citations again *)
Definition search_execute (turn_id : string) (refined : text) (origin_epoch : option N) (mint stamp : string)
    (e : provider_end) (w : SearchWorker) : SearchWorker * Prelude.result GroundedResult :=
  match e with
  | ProviderRaised x => (w, Raise x)
  | ProviderTimedOut => (w, Raise (OtherException "TimeoutError"))
  | Responded response =>
      match response_answer response with
      | Raise x => (w, Raise x)
      | Ret (display, spoken) =>
          match normalize_citations (search_candidates w response) with
          | Raise x => (w, Raise x)
          | Ret citations =>
              match normalize_citations (take (sw_max_citations w) citations) with
              | Raise x => (w, Raise x)
              | Ret kept =>
                  match new_GroundedResult (mkGroundedResult mint (sw_worker_id w) turn_id stamp (utf8 display)
                                              (citation <$> kept) (utf8 spoken) origin_epoch) with
                  | Raise x => (w, Raise x)
                  | Ret r => (w <| sw_history ::= (λ h, h ++ [mkEntry turn_id refined display (result_id r)]) |>, Ret r)
                  end
              end
          end
      end
  end.

End worker.

(** Facts about the web search worker: what a search returns and remembers, and
    the size of what is sent to the provider. *)
Section facts.
Context `{UnicodeText} `{ObjectRuntime} `{AnswerReader}.
Context (heap : N → object).
Implicit Types (w : SearchWorker) (h : list Entry) (q t : text).

(** ** Results *)

Lemma response_answer_ok response display spoken :
  response_answer heap response = Ret (display, spoken) →
  display ≠ [] ∧ spoken ≠ [] ∧ (length spoken <= 600)%nat.
Proof.
  unfold response_answer. destruct (response_text heap response) as [[|c t]|x]; [done| |done].
  destruct (answer_fields (c :: t)) as [fields|]; [|done]. unfold validated. destruct (_ || _) eqn:E; [done|]. intros [= <- <-].
  rewrite !orb_false_iff, !bool_decide_eq_false in E. destruct E as [[E1 E2] E3]. split_and!; [done|done|lia].
Qed.

Lemma new_result_fields r r' : new_GroundedResult r = Ret r' → r' = r.
Proof. unfold new_GroundedResult, validate_projections. repeat case_match; congruence. Qed.

(** A search is remembered exactly when it returns a result.  The result
    carries the two texts of the answer, neither empty and the spoken one within
    its limit, and as many citations as the worker allows at most, which are
    candidates of the response with distinct acceptable URLs in their order; the worker's context
    grows by the one entry of that result.  A search that fails leaves the worker
    as it was. *)
Theorem search_remembers_result turn refined epoch mint stamp e w :
  match search_execute heap turn refined epoch mint stamp e w with
  | (w', Ret r) =>
      ∃ response display spoken kept,
        e = Responded response ∧ response_answer heap response = Ret (display, spoken) ∧
        display ≠ [] ∧ spoken ≠ [] ∧ (length spoken <= 600)%nat ∧
        r = mkGroundedResult mint (sw_worker_id w) turn stamp (utf8 display) (citation <$> kept) (utf8 spoken) epoch ∧
        (length kept <= sw_max_citations w)%nat ∧ NoDup kept.*2 ∧ Forall (λ c, wanted c.2 = true) kept ∧
        sublist kept (search_candidates heap w response) ∧
        w' = w <| sw_history ::= (λ h, h ++ [mkEntry turn refined display mint]) |>
  | (w', Raise _) => w' = w
  end.
Proof.
  unfold search_execute. destruct e as [response| |]; [|done|done].
  destruct (response_answer heap response) as [[display spoken]|x] eqn:Ea; [|done].
  destruct (normalize_citations (search_candidates heap w response)) as [l|x] eqn:En; [|done].
  destruct (normalized_parts _ _ (sw_max_citations w) En) as (Hsub & Hnd & Hw & Eagain). rewrite Eagain.
  destruct (new_GroundedResult _) as [r|x] eqn:Er; [|done]. apply new_result_fields in Er. subst r. cbn [result_id].
  destruct (response_answer_ok _ _ _ Ea) as (? & ? & ?).
  exists response, display, spoken, (take (sw_max_citations w) l). split_and!; try done.
  - rewrite length_take. lia.
  - rewrite fmap_take. eapply sublist_NoDup; [done|apply sublist_take].
  - by apply Forall_take.
  - etrans; [apply sublist_take|done].
Qed.

(** ** The provider's input *)

Lemma search_begin_bounded w q c refined : search_begin w q c = Ret refined → (length refined <= 2000)%nat.
Proof.
  unfold search_begin. set (r := match c with Some _ => _ | None => _ end). intros Hr. assert (refined = r) as ->.
  { repeat case_match; congruence. }
  unfold r. destruct c as [[[o qu] a]|].
  - unfold provider_query, bounded. rewrite !length_app, !length_take.
    change (length (txt "Original request: ")) with 18%nat. change (length (txt "Clarification asked: ")) with 21%nat.
    change (length (txt "User answer: ")) with 13%nat. cbn [length]. lia.
  - unfold refine_query. rewrite length_take. lia.
Qed.

(** The worker between searches: it starts without context, and each search it runs was begun by it *)
Inductive served (w0 : SearchWorker) : SearchWorker → Prop :=
| ServedNone : sw_history w0 = [] → served w0 w0
| ServedOne w q c refined turn epoch mint stamp e :
    served w0 w → search_begin w0 q c = Ret refined →
    served w0 (search_execute heap turn refined epoch mint stamp e w).1.

Lemma served_bounded w0 w : served w0 w → Forall (λ x, (length (en_query x) <= 2000)%nat) (sw_history w).
Proof.
  induction 1 as [->|w q c refined turn epoch mint stamp e _ IH Hb]; [constructor|].
  unfold search_execute. repeat case_match; try done. cbn. apply Forall_app. split; [done|]. constructor; [|constructor].
  by eapply search_begin_bounded.
Qed.

Lemma join_lines_length (l : list text) k :
  Forall (λ t, (length t <= k)%nat) l → (length (join_lines l) <= length l * S k)%nat.
Proof.
  induction 1 as [|t l Ht _ IH]; [done|]. destruct l as [|t' l]; [simpl; lia|]. change (join_lines (t :: t' :: l)) with (t ++ 10%N :: join_lines (t' :: l)).
  rewrite length_app. change (length (10%N :: join_lines (t' :: l))) with (S (length (join_lines (t' :: l)))).
  change (length (t :: t' :: l)) with (S (length (t' :: l))). rewrite Nat.mul_succ_l. lia.
Qed.

(** What is sent to the provider is bounded whatever the conversation was: the
    context holds the last four exchanges, each cut, and the request is cut, so that the
    input never exceeds 15,000 characters. *)
Theorem provider_input_bounded w0 w q c refined :
  served w0 w → search_begin w0 q c = Ret refined →
  (length (contextual_input (sw_history w) refined) <= N.to_nat 15000)%nat.
Proof.
  intros Hs%served_bounded Hr%search_begin_bounded. unfold contextual_input. destruct (sw_history w) as [|x h] eqn:E; [lia|].
  rewrite <- E in *. clear E x h. rewrite !length_app.
  assert (length (join_lines (previous <$> last_four (sw_history w))) <= 4 * S 3234)%nat as Hj.
  { etrans; [apply (join_lines_length _ 3234)|].
    - apply Forall_fmap. unfold last_four. apply Forall_drop. eapply Forall_impl; [exact Hs|]. intros x Hx. unfold compose, previous.
      rewrite !length_app, length_take. change (length (txt "Previous query: ")) with 16%nat.
      change (length (txt "Previous answer: ")) with 17%nat. cbn [length]. cbv beta in Hx. lia.
    - rewrite length_fmap. unfold last_four. rewrite length_drop. lia. }
  change (length (txt "Use this prior topic context when useful:")) with 41%nat. change (length (txt "Current request: ")) with 17%nat.
  cbn [length]. lia.
Qed.

End facts.

(** ** A worker that has answered once *)

#[local] Instance sf_text : UnicodeText :=
  {| text_digits := {| other_digit := λ _, false; other_decimal := λ _, None |}; other_word := λ _, false; other_fold := λ c, [c] |}.
#[local] Instance sf_objects : ObjectRuntime :=
  {| value_str := λ _, []; value_true := λ _, true; bracketed_ok := λ _, true; netloc_ok := λ _, true |}.
#[local] Instance sf_reader : AnswerReader := {| answer_fields := λ t, Some (t, t) |}.

Definition sf_heap (l : N) : object := OOther [(txt "output_text", VText (txt " It is sunny. "))].
Definition sf_worker : SearchWorker := mkSearchWorker "worker-1" [] 12 (λ _, false) default_web_clarification.
Definition sf_query : text := txt "weather in Rome".
Definition sf_answered : SearchWorker :=
  (search_execute sf_heap "turn-1" (refine_query sf_query) (Some 1%N) "result-1" "ts" (Responded (VRef 0)) sf_worker).1.

Lemma sf_begun : search_begin sf_worker sf_query None = Ret (refine_query sf_query).
Proof. vm_compute. reflexivity. Qed.

Lemma sf_remembered : sw_history sf_answered = [mkEntry "turn-1" (refine_query sf_query) (txt "It is sunny.") "result-1"].
Proof. vm_compute. reflexivity. Qed.

Lemma provider_input_bounded_witness :
  (length (contextual_input (sw_history sf_answered) (refine_query sf_query)) <= N.to_nat 15000)%nat.
Proof.
  apply (provider_input_bounded sf_heap sf_worker sf_answered sf_query None); [|exact sf_begun].
  apply (ServedOne sf_heap sf_worker sf_worker sf_query None); [|exact sf_begun]. apply ServedNone. reflexivity.
Defined.
