(* ===== verification/RunnerSupervisor.v ===== *)
(** Registration of workers with the persistent runner
    ([RunnerSupervisor] of [src/server/runner_supervisor.py]).

    A registration is a task of the event loop: it calls [add_workers] in its
    first step, may wait for it, and records the worker when that succeeds; its done
    callback runs in a later turn of the loop.  Callers wait behind [asyncio.shield],
    so that cancelling a caller leaves the task alone.  The runner, which belongs to
    the framework, is its answers. *)

From S2P Require Import Prelude PyDict.

(** How a call of [add_workers] answers its first step *)
Inductive add_answer := AddDone | AddWaits | AddRaises.

Inductive registration_state := Created | Adding | Ended (succeeded : bool).

Record Registration := mkRegistration { rg_worker : string; rg_state : registration_state }.

Record Supervisor := mkSupervisor {
  accepts_workers : bool;                  (* the runner has [add_workers] *)
  runner_registered : gset string;
  runner_registrations : dict string nat;
  registration_tasks : list Registration;
  add_calls : list string                  (* the calls of [add_workers], in order *)
}.

#[export] Instance eta_Supervisor : Eta Supervisor := λ s,
  mkSupervisor (accepts_workers s) (runner_registered s) (runner_registrations s) (registration_tasks s) (add_calls s).

Definition Supervisor_init (accepts : bool) : Supervisor := mkSupervisor accepts ∅ [] [] [].

Implicit Types (s : Supervisor) (t : nat) (worker : string).

(** [register_worker] up to its await: the task the caller waits for, if any *)
Definition register_worker (worker : option string) s : Supervisor * option nat :=
  match worker with
  | None => (s, None)
  | Some w =>
      if bool_decide (w = EmptyString) || bool_decide (w ∈ runner_registered s) || negb (accepts_workers s) then (s, None)
      else match dict_get w (runner_registrations s) with
           | Some t => (s, Some t)
           | None =>
               let t := length (registration_tasks s) in
               (s <| registration_tasks ::= (λ l, l ++ [mkRegistration w Created]) |>
                  <| runner_registrations ::= dict_set w t |>, Some t)
           end
  end.

Definition set_state t (st : registration_state) s : Supervisor :=
  s <| registration_tasks ::= alter (λ r, mkRegistration (rg_worker r) st) t |>.

(** [register] after [add_workers] *)
Definition finish_registration t (succeeded : bool) s : Supervisor :=
  match registration_tasks s !! t with
  | None => s
  | Some r =>
      let s := if succeeded then s <| runner_registered ::= (λ x, {[rg_worker r]} ∪ x) |> else s in
      set_state t (Ended succeeded) s
  end.

(** The first step of [register] *)
Definition run_registration t (a : add_answer) s : Supervisor :=
  match registration_tasks s !! t with
  | Some (mkRegistration w Created) =>
      let s := s <| add_calls ::= (λ l, l ++ [w]) |> in
      match a with
      | AddDone => finish_registration t true s
      | AddRaises => finish_registration t false s
      | AddWaits => set_state t Adding s
      end
  | _ => s
  end.

(** The awaited [add_workers] ends *)
Definition settle_registration t (succeeded : bool) s : Supervisor :=
  match registration_tasks s !! t with
  | Some (mkRegistration _ Adding) => finish_registration t succeeded s
  | _ => s
  end.

(** A cancelled task ends without recording the worker. *)
Definition cancel_registration t s : Supervisor :=
  match registration_tasks s !! t with
  | Some (mkRegistration _ (Created | Adding)) => finish_registration t false s
  | _ => s
  end.

(** The done callback, which an ended task runs once *)
Definition completed t s : Supervisor :=
  match registration_tasks s !! t with
  | Some (mkRegistration w (Ended _)) =>
      if bool_decide (dict_get w (runner_registrations s) = Some t) then s <| runner_registrations ::= dict_pop w |> else s
  | _ => s
  end.

(** [cancel_registrations] *)
Definition cancel_registrations s : Supervisor :=
  foldl (λ s t, cancel_registration t s) s (dict_values (runner_registrations s)).

Inductive sup_op :=
| SRegister (worker : option string)
| SRun (t : nat) (a : add_answer)
| SSettle (t : nat) (succeeded : bool)
| SCompleted (t : nat)
| SCancelAll.

Definition sup_exec (o : sup_op) s : Supervisor :=
  match o with
  | SRegister w => (register_worker w s).1
  | SRun t a => run_registration t a s
  | SSettle t ok => settle_registration t ok s
  | SCompleted t => completed t s
  | SCancelAll => cancel_registrations s
  end.

Definition sup_run (os : list sup_op) s : Supervisor := foldl (λ s o, sup_exec o s) s os.

(** ** Facts *)

Definition live (st : registration_state) : bool := match st with Ended _ => false | _ => true end.

Record sup_inv s : Prop := {
  live_current : ∀ t r, registration_tasks s !! t = Some r → live (rg_state r) = true →
                   dict_get (rg_worker r) (runner_registrations s) = Some t;
  success_registered : ∀ w, w ∈ runner_registered s ↔ ∃ t, registration_tasks s !! t = Some (mkRegistration w (Ended true));
  earlier_failed : ∀ t t' r r', registration_tasks s !! t = Some r → registration_tasks s !! t' = Some r' →
                     (t < t')%nat → rg_worker r = rg_worker r' → rg_state r = Ended false
}.

Lemma init_sup_inv accepts : sup_inv (Supervisor_init accepts).
Proof.
  split; cbn; [by intros t r ?|intros w|by intros t t' r r' ?]. split; [set_solver|]. by intros (t & ?).
Qed.

Lemma set_state_lookup t st s t' r :
  registration_tasks (set_state t st s) !! t' = Some r →
  ∃ r0, registration_tasks s !! t' = Some r0 ∧ rg_worker r = rg_worker r0 ∧ rg_state r = if decide (t = t') then st else rg_state r0.
Proof.
  unfold set_state. cbn. destruct (decide (t = t')) as [->|Hn].
  - rewrite list_lookup_alter_eq. destruct (registration_tasks s !! t') as [r0|]; [|done]. intros [= <-]. by exists r0.
  - rewrite list_lookup_alter_ne by done. intros E. by exists r.
Qed.

Lemma register_sup_inv w s : sup_inv s → sup_inv (register_worker w s).1.
Proof.
  intros I. destruct w as [w|]; [|done]. unfold register_worker. destruct (_ || _) eqn:E; [done|].
  rewrite !orb_false_iff, !bool_decide_eq_false in E. destruct E as [[_ Hr] _].
  destruct (dict_get w (runner_registrations s)) as [t0|] eqn:Eg; [done|]. destruct I as [I1 I2 I3].
  assert (∀ t r, registration_tasks s !! t = Some r → rg_worker r = w → rg_state r = Ended false) as Hw.
  { intros t [w' st] Ht Ew. simpl in Ew. subst w'. destruct st as [| |[]]; [| | |done].
    - specialize (I1 t _ Ht eq_refl). simpl in I1. congruence.
    - specialize (I1 t _ Ht eq_refl). simpl in I1. congruence.
    - exfalso. apply Hr, I2. by exists t. }
  split; cbn.
  - intros t r [Ht|[-> Er]]%lookup_snoc_Some Hl.
    + destruct Ht as [_ Ht]. rewrite dict_get_set. destruct (decide (w = rg_worker r)) as [Ew|?]; [|by apply I1]. symmetry in Ew.
      rewrite (Hw t r Ht Ew) in Hl. done.
    + subst r. cbn. by rewrite dict_get_set, decide_True.
  - intros w'. rewrite I2. split; intros [t Ht]; exists t.
    + apply lookup_snoc_Some. left. split; [by eapply lookup_lt_Some|done].
    + by apply lookup_snoc_Some in Ht as [[_ ?]|[_ ?]].
  - intros t t' r r' [[_ Ht]|[-> <-]]%lookup_snoc_Some [[Hl' Ht']|[-> <-]]%lookup_snoc_Some Hlt Ew.
    + by eapply I3.
    + by eapply Hw.
    + lia.
    + lia.
Qed.

(** A live task ends, or goes on. *)
Lemma transition_sup_inv t r st s :
  sup_inv s → registration_tasks s !! t = Some r → live (rg_state r) = true →
  sup_inv (set_state t st (match st with Ended true => s <| runner_registered ::= (λ x, {[rg_worker r]} ∪ x) |> | _ => s end)).
Proof.
  intros [I1 I2 I3] Ht Hl. set (s0 := match st with Ended true => _ | _ => s end).
  assert (registration_tasks s0 = registration_tasks s ∧ runner_registrations s0 = runner_registrations s) as [Et Er] by (unfold s0; by destruct st as [| |[]]).
  split.
  - intros t' r' Hr' Hl'. apply set_state_lookup in Hr' as (r0 & Hr0 & -> & Es). rewrite Et in Hr0. cbn. rewrite Er.
    apply I1; [done|]. destruct (decide (t = t')) as [->|?]; [by simplify_eq|by rewrite Es in Hl'].
  - intros w. cbn [runner_registered set_state setter eta]. assert (w ∈ runner_registered s0 ↔ w ∈ runner_registered s ∨ st = Ended true ∧ w = rg_worker r) as Hs0.
    { unfold s0. destruct st as [| |[]]; cbn; set_solver. }
    cbn. rewrite Hs0, I2, Et. split.
    + intros [[t' Ht']|[-> ->]].
      * exists t'. destruct (decide (t = t')) as [->|Hn]; [simplify_eq; done|]. by rewrite list_lookup_alter_ne.
      * exists t. by rewrite list_lookup_alter_eq, Ht.
    + intros [t' Ht']. destruct (decide (t = t')) as [->|Hn].
      * rewrite list_lookup_alter_eq, Ht in Ht'. injection Ht' as <- ->. by right.
      * rewrite list_lookup_alter_ne in Ht' by done. left. by exists t'.
  - intros t1 t2 r1 r2 H1 H2 Hlt Ew. apply set_state_lookup in H1 as (q1 & Hq1 & E1 & S1), H2 as (q2 & Hq2 & E2 & S2). rewrite Et in Hq1, Hq2.
    rewrite E1, E2 in Ew. pose proof (I3 _ _ _ _ Hq1 Hq2 Hlt Ew) as Hf. rewrite S1. destruct (decide (t = t1)) as [->|?]; [|done].
    simplify_eq. by rewrite Hf in Hl.
Qed.

Lemma add_calls_inv f s : sup_inv s → sup_inv (s <| add_calls ::= f |>).
Proof. intros [I1 I2 I3]. by split. Qed.

Lemma finish_sup_inv t r ok s :
  sup_inv s → registration_tasks s !! t = Some r → live (rg_state r) = true → sup_inv (finish_registration t ok s).
Proof.
  intros I Ht Hl. unfold finish_registration. rewrite Ht. pose proof (transition_sup_inv t r (Ended ok) s I Ht Hl) as Hi. by destruct ok.
Qed.

Lemma cancel_one_inv t s : sup_inv s → sup_inv (cancel_registration t s).
Proof.
  intros I. unfold cancel_registration. destruct (registration_tasks s !! t) as [[w []]|] eqn:E; try done; by eapply finish_sup_inv.
Qed.

Lemma sup_exec_inv o s : sup_inv s → sup_inv (sup_exec o s).
Proof.
  intros I. destruct o as [w|t a|t ok|t|]; cbn [sup_exec].
  - by apply register_sup_inv.
  - unfold run_registration. destruct (registration_tasks s !! t) as [[w []]|] eqn:E; try done.
    destruct a; [eapply finish_sup_inv; [by apply add_calls_inv|exact E|done]| |eapply finish_sup_inv; [by apply add_calls_inv|exact E|done]].
    exact (transition_sup_inv t _ Adding _ (add_calls_inv _ s I) E eq_refl).
  - unfold settle_registration. destruct (registration_tasks s !! t) as [[w []]|] eqn:E; try done. by eapply finish_sup_inv.
  - unfold completed. destruct (registration_tasks s !! t) as [[w []]|] eqn:E; try done. case_bool_decide as Hc; [|done].
    destruct I as [I1 I2 I3]. split; cbn; [|done|done]. intros t' r Ht' Hl. rewrite dict_get_pop. destruct (decide (w = rg_worker r)) as [Ew|?]; [|by apply I1]. symmetry in Ew.
    pose proof (I1 t' r Ht' Hl) as Hr. rewrite Ew, Hc in Hr. injection Hr as ->. rewrite E in Ht'. by injection Ht' as <-.
  - unfold cancel_registrations. generalize (dict_values (runner_registrations s)). intros l. revert s I. induction l as [|t l IH]; intros s I; [done|].
    cbn. by apply IH, cancel_one_inv.
Qed.

(** Registration is coalesced and happens once.  Over any interleaving of requests,
    task steps, done callbacks and cancellations: of two registration tasks of one
    worker the earlier has ended without success before the later was created, so that
    at most one is in flight and at most one ever succeeds, and [add_workers] is never
    called for a worker that is registered already. *)
Theorem registered_once accepts os o :
  let s := sup_run os (Supervisor_init accepts) in
  (∀ t t' r r', registration_tasks s !! t = Some r → registration_tasks s !! t' = Some r' →
     (t < t')%nat → rg_worker r = rg_worker r' → rg_state r = Ended false) ∧
  (∀ w, add_calls (sup_exec o s) = add_calls s ++ [w] → w ∉ runner_registered s).
Proof.
  intros s. assert (sup_inv s) as I.
  { unfold s, sup_run. generalize (Supervisor_init accepts) (init_sup_inv accepts). induction os as [|o' os IH]; intros s0 I; [done|].
    cbn. by apply IH, sup_exec_inv. }
  split; [apply I|]. intros w Ew. assert (∃ t, registration_tasks s !! t = Some (mkRegistration w Created)) as [t Ht].
  { assert (∀ t st s, add_calls (set_state t st s) = add_calls s) as Hset by done.
    assert (∀ t ok s, add_calls (finish_registration t ok s) = add_calls s) as Hfin.
    { intros t ok s1. unfold finish_registration. destruct (registration_tasks s1 !! t); [|done]. by destruct ok. }
    assert (∀ l, add_calls s ≠ add_calls s ++ [l]) as Hne by (intros l E; apply (f_equal length) in E; rewrite length_app in E; simpl in E; lia).
    destruct o as [w'|t a|t ok|t|]; cbn [sup_exec] in Ew.
    - exfalso. apply (Hne w). rewrite <- Ew. unfold register_worker. by repeat case_match.
    - unfold run_registration in Ew. destruct (registration_tasks s !! t) as [[w' []]|] eqn:E; try (by destruct (Hne w)).
      exists t. destruct a; rewrite ?Hfin, ?Hset in Ew; cbn in Ew; apply app_inv_head in Ew; by injection Ew as ->.
    - exfalso. apply (Hne w). rewrite <- Ew. unfold settle_registration. by repeat case_match; rewrite ?Hfin.
    - exfalso. apply (Hne w). rewrite <- Ew. unfold completed. by repeat case_match.
    - exfalso. apply (Hne w). rewrite <- Ew. unfold cancel_registrations. generalize (dict_values (runner_registrations s)). intros l.
      generalize s. induction l as [|t l IH]; intros s1; [done|]. cbn. rewrite <- (IH (cancel_registration t s1)). unfold cancel_registration.
      by repeat case_match; rewrite ?Hfin. }
  intros (t' & Ht')%I. destruct (Nat.lt_trichotomy t t') as [Hlt|[->|Hlt]].
  - by pose proof (earlier_failed _ I _ _ _ _ Ht Ht' Hlt eq_refl).
  - congruence.
  - by pose proof (earlier_failed _ I _ _ _ _ Ht' Ht Hlt eq_refl).
Qed.
