(* ===== verification/Router.v ===== *)
(** The router's handling of a model's answer ([Router.route_envelope] and
    [_complete_unambiguous_new_worker_fields] of [src/server/router.py]).

    The answer is a JSON value.  Reading it as a [RouterEnvelope] is the
    validation library's: a class. *)

From S2P Require Import Prelude PyDict Contracts PyText PyValue Routing Regex WorkItemCoordinator TurnAckLedger SessionHost Intent.

#[warnings="-register-all"]
Inductive json :=
| JNull
| JBool (b : bool)
| JNumber (q : Q)
| JString (s : string)
| JArray (l : list json)
| JObject (d : dict string json).

(** [RouterEnvelope.model_validate]; [None] is its ValidationError *)
Class EnvelopeReader := { read_envelope : json → option (RoutingDecision * option string) }.

(** What the provider hands back: an envelope, a decision or JSON *)
Inductive raw_route :=
| RawEnvelope (d : RoutingDecision) (prose : option string)
| RawDecision (d : RoutingDecision)
| RawJson (j : json).

Definition string_or_null (s : option string) : json := match s with Some s => JString s | None => JNull end.

Definition action_text (a : RouteAction) : string :=
  match a with
  | direct => "direct" | unsupported => "unsupported" | clarify => "clarify"
  | existing_worker => "existing_worker" | new_worker => "new_worker"
  end.

(** [RoutingDecision.model_dump] *)
Definition model_dump (d : RoutingDecision) : json :=
  JObject [("action", JString (action_text (action d))); ("worker_id", string_or_null (rd_worker_id d));
           ("worker_type", string_or_null (rd_worker_type d)); ("topic", string_or_null (rd_topic d));
           ("capability", string_or_null (rd_capability d)); ("capability_available", JBool (rd_capability_available d));
           ("model_policy", string_or_null (rd_model_policy d)); ("catalogue_version", JString (rd_catalogue_version d));
           ("catalogue_worker_ids", JArray (JString <$> rd_catalogue_worker_ids d));
           ("origin_epoch", match rd_origin_epoch d with Some e => JNumber (inject_Z (Z.of_N e)) | None => JNull end)].

Abbreviation fields := (dict string json) (only parsing).

(** [d.get(k) is None] *)
Definition absent (k : string) (d : fields) : bool :=
  match dict_get k d with None | Some JNull => true | Some _ => false end.

(** [if d.get(k) is None and ...: d[k] = v] *)
Definition fill (k : string) (v : option string) (d : fields) : fields :=
  match v with Some v => if absent k d then dict_set k (JString v) d else d | None => d end.

(** The only element of a set *)
Definition sole (l : list string) : option string :=
  match remove_dups l with [x] => Some x | _ => None end.

Definition complete_decision (transcript : text) (c : WorkerCatalogue) (d : fields) : fields :=
  let types := match ce_worker_type <$> cat_workers c with [] => ["web_search"] | l => l end in
  let d := fill "worker_type" (sole types) d in
  let d := fill "model_policy" (match cat_model_policies c with [p] => Some p | _ => None end) d in
  let searches := match dict_get "worker_type" d with Some (JString t) => bool_decide (t = "web_search") | _ => false end in
  let d := fill "capability" (if searches && bool_decide ("public_web" ∈ cat_capability_labels c) then Some "public_web" else None) d in
  let topic := strip (join (words transcript)) in
  fill "topic" (match topic with [] => None | _ => Some (utf8 (take 200 topic)) end) d.

(** [_complete_unambiguous_new_worker_fields] *)
Definition complete_unambiguous_new_worker_fields (payload : json) (transcript : text) (c : WorkerCatalogue) : json :=
  match payload with
  | JObject p =>
      match (match dict_get "decision" p with Some d => d | None => payload end) with
      | JObject d =>
          match dict_get "action" d with
          | Some (JString a) =>
              if bool_decide (a = "new_worker") then
                let completed := JObject (complete_decision transcript c d) in
                if dict_mem "decision" p then JObject (dict_set "decision" completed p) else completed
              else payload
          | _ => payload
          end
      | _ => payload
      end
  | _ => payload
  end.

Section router.
Context `{EnvelopeReader}.

Definition envelope_payload (j : json) : json :=
  match j with
  | JObject p => if dict_mem "decision" p then j else JObject [("decision", j)]
  | _ => JObject [("decision", j)]
  end.

(** [route_envelope] for a catalogue snapshot, with the provider's answer *)
Definition route_envelope (raw : raw_route) (transcript : text) (c : WorkerCatalogue)
    : Prelude.result (RoutingDecision * option string) :=
  let envelope :=
    match raw with
    | RawEnvelope d prose => Some (d, prose)
    | RawDecision d => read_envelope (envelope_payload (complete_unambiguous_new_worker_fields (model_dump d) transcript c))
    | RawJson j => read_envelope (envelope_payload (complete_unambiguous_new_worker_fields j transcript c))
    end in
  match envelope with
  | None => Raise (RoutingValidationError "router returned an invalid routing decision")
  | Some (d, prose) => match validate_decision d c with Raise e => Raise e | Ret _ => Ret (d, prose) end
  end.

End router.

(** ** Facts *)

(** The fields of the decision inside a payload *)
Definition decision_fields (payload : json) : option fields :=
  match payload with
  | JObject p => match (match dict_get "decision" p with Some d => d | None => payload end) with JObject d => Some d | _ => None end
  | _ => None
  end.

Definition fillable (k : string) : Prop := k ∈ ["worker_type"; "model_policy"; "capability"; "topic"].

Lemma fill_get k v d k' :
  dict_get k' (fill k v d) = match v with
                             | Some v => if decide (k = k' ∧ absent k d = true) then Some (JString v) else dict_get k' d
                             | None => dict_get k' d
                             end.
Proof.
  unfold fill. destruct v as [v|]; [|done]. destruct (absent k d) eqn:E.
  - rewrite dict_get_set. destruct (decide (k = k')) as [->|Hn]; [by rewrite decide_True|]. rewrite decide_False; [done|]. tauto.
  - rewrite decide_False; [done|]. by intros [_ ?].
Qed.

(** A step keeps every value that is set and touches its own key only. *)
Lemma fill_conservative k v d k' :
  (absent k' d = false → dict_get k' (fill k v d) = dict_get k' d) ∧ (k ≠ k' → dict_get k' (fill k v d) = dict_get k' d).
Proof.
  rewrite fill_get. destruct v; [|done]. split; intros Hk; (rewrite decide_False; [done|]); intros [-> Ha]; congruence.
Qed.

Lemma fill_present k v d k' : absent k' d = false → absent k' (fill k v d) = false.
Proof. intros Hk. unfold absent. by rewrite (proj1 (fill_conservative k v d k') Hk). Qed.

(** Completing a model's answer is conservative.  Only a new-worker decision is
    completed, and only the four fields that have one possible value are filled, each
    only when the model left it out or null: every other field, and every value the
    model gave, reaches validation unchanged. *)
Theorem completion_conservative payload transcript c d :
  decision_fields payload = Some d →
  ∃ d', decision_fields (complete_unambiguous_new_worker_fields payload transcript c) = Some d' ∧
    (∀ k, absent k d = false ∨ ¬ fillable k → dict_get k d' = dict_get k d) ∧
    (dict_get "action" d ≠ Some (JString "new_worker") → d' = d).
Proof.
  intros Hd. unfold complete_unambiguous_new_worker_fields. destruct payload as [| | | | |p]; try done. cbn [decision_fields] in Hd.
  destruct (match dict_get "decision" p with Some _ => _ | None => _ end) as [| | | | |d0] eqn:Ed; try done. injection Hd as ->.
  assert (decision_fields (JObject p) = Some d) as Hp by (cbn; by rewrite Ed).
  destruct (dict_get "action" d) as [[| | |a| |]|] eqn:Ea; try (exists d; by split_and!).
  case_bool_decide as Hn; [|exists d; split_and!; [done|done|done]]. subst a.
  exists (complete_decision transcript c d). split_and!.
  - unfold dict_mem. destruct (dict_get "decision" p) as [x|] eqn:Ep; cbn.
    + rewrite dict_get_set, decide_True by done. done.
    + injection Ed as ->. assert (dict_get "decision" (complete_decision transcript c d) = None) as ->; [|done].
      unfold complete_decision. cbv zeta. rewrite !(proj2 (fill_conservative _ _ _ "decision")) by done. done.
  - intros k Hk. unfold complete_decision. cbv zeta. destruct Hk as [Hk|Hk].
    + rewrite !(proj1 (fill_conservative _ _ _ k)); [done|done|by repeat apply fill_present..].
    + rewrite !(proj2 (fill_conservative _ _ _ k)); [done|..]; intros <-; apply Hk; unfold fillable; set_solver.
  - done.
Qed.

(** ** A terse answer *)

Definition rt_catalogue : WorkerCatalogue := mkCatalogue "catalogue-1" [] ["public_web"] ["deep"].
Definition rt_answer : fields := [("action", JString "new_worker"); ("topic", JString "rust"); ("worker_type", JNull)].

Lemma rt_filled :
  decision_fields (complete_unambiguous_new_worker_fields (JObject rt_answer) (txt "news about rust") rt_catalogue) =
  Some [("action", JString "new_worker"); ("topic", JString "rust"); ("worker_type", JString "web_search");
        ("model_policy", JString "deep"); ("capability", JString "public_web")].
Proof. vm_compute. reflexivity. Qed.

Lemma completion_conservative_witness :
  ∃ d', decision_fields (complete_unambiguous_new_worker_fields (JObject rt_answer) (txt "news about rust") rt_catalogue) = Some d' ∧
    dict_get "topic" d' = Some (JString "rust").
Proof.
  destruct (completion_conservative (JObject rt_answer) (txt "news about rust") rt_catalogue rt_answer eq_refl) as (d' & E & Hk & _).
  exists d'. split; [exact E|]. rewrite Hk; [reflexivity|]. left. reflexivity.
Defined.
