(* ===== verification/Interruption.v ===== *)
(** The interruption controller ([src/server/interruptions.py], with the
    [InterruptionEvent] model of [src/server/contracts.py]). *)

From S2P Require Import Prelude PyDict Contracts.

Record InterruptionEvent := mkInterruption {
  ie_interruption_id : string;
  ie_stage : string;
  ie_policy : string;
  ie_template_used : bool;
  ie_resume_outcome : string;
  ie_work_item_id : string;
  ie_run_id : string;
  ie_utterance_id : string
}.

Record InterruptionController := mkController {
  ic_policy : string;
  ic_pending : dict string (string * string);
  ic_delivery : dict string DeliveryState
}.

#[export] Instance eta_InterruptionController : Eta InterruptionController := λ c,
  mkController (ic_policy c) (ic_pending c) (ic_delivery c).

Implicit Types (c : InterruptionController).

Definition InterruptionController_init (policy : string) : InterruptionController := mkController policy [] [].

Definition STAGES : list string := ["result_pending"; "voice_llm_accepted"; "speech_active"].

Definition result_ready (result_id work_item_id : string) c : InterruptionController :=
  c <| ic_pending ::= dict_set result_id (result_id, work_item_id) |>.

Definition pending_result (result_id : string) c : option (string * string) := dict_get result_id (ic_pending c).

(** The event is validated before the delivery state is written. *)
Definition interrupt (stage work_item_id run_id utterance_id : string) c
    : InterruptionController * result InterruptionEvent :=
  let template := bool_decide (ic_policy c = "resume_after_soft_interrupt") && bool_decide (stage = "speech_active") in
  if bool_decide (stage ∈ STAGES) then
    (c <| ic_delivery ::= dict_set utterance_id INTERRUPTED |>,
     Ret (mkInterruption ("interrupt-" +:+ utterance_id) stage (ic_policy c) template
            (if template then "resumed" else "declined") work_item_id run_id utterance_id))
  else (c, Raise (ValueError "Input should be 'result_pending', 'voice_llm_accepted' or 'speech_active'")).

Definition ended_delivery (s : DeliveryState) : bool :=
  bool_decide (s ∈ [INTERRUPTED; INTERRUPTED_BY_RECONNECT; DELIVERY_COMPLETED; DELIVERY_UNKNOWN]).

Definition mark_delivery (utterance_id : string) (state : DeliveryState) c : InterruptionController * DeliveryState :=
  match dict_get utterance_id (ic_delivery c) with
  | Some s => if ended_delivery s then (c, s) else (c <| ic_delivery ::= dict_set utterance_id state |>, state)
  | None => (c <| ic_delivery ::= dict_set utterance_id state |>, state)
  end.

Definition delivery_state (utterance_id : string) c : option DeliveryState := dict_get utterance_id (ic_delivery c).

Inductive int_op :=
| IReady (result_id work_item_id : string)
| IInterrupt (stage work_item_id run_id utterance_id : string)
| IMark (utterance_id : string) (state : DeliveryState).

Definition int_exec (o : int_op) c : InterruptionController :=
  match o with
  | IReady r w => result_ready r w c
  | IInterrupt s w r u => (interrupt s w r u c).1
  | IMark u s => (mark_delivery u s c).1
  end.

(** An utterance that has ended stays ended: after an end of delivery was recorded
    no sequence of calls brings it back to a state in progress, and without another
    interruption of it the recorded end itself stands. *)
Theorem ended_stays_ended utterance os c s :
  delivery_state utterance c = Some s → ended_delivery s = true →
  ∃ s', delivery_state utterance (foldl (λ c o, int_exec o c) c os) = Some s' ∧ ended_delivery s' = true ∧
    ((∀ st w r, IInterrupt st w r utterance ∉ os) → s' = s).
Proof.
  revert c s. induction os as [|o os IH]; intros c s Hs He; [by exists s|]. cbn.
  assert (∃ s1, delivery_state utterance (int_exec o c) = Some s1 ∧ ended_delivery s1 = true ∧
    ((∀ st w r, o ≠ IInterrupt st w r utterance) → s1 = s)) as (s1 & H1 & E1 & S1).
  { unfold delivery_state in *. destruct o as [r w|st w r u|u st]; cbn; [by exists s| |].
    - unfold interrupt. case_bool_decide; cbn; [|by exists s]. rewrite dict_get_set. destruct (decide (u = utterance)) as [->|?]; [|by exists s].
      exists INTERRUPTED. split_and!; [done|done|]. intros Hn. by destruct (Hn st w r).
    - unfold mark_delivery. destruct (decide (u = utterance)) as [->|Hn].
      + rewrite Hs, He. by exists s.
      + exists s. split_and!; [|done|done]. destruct (dict_get u (ic_delivery c)) as [s2|]; [destruct (ended_delivery s2)|]; cbn; [done|..];
          by rewrite dict_get_set, decide_False. }
  destruct (IH _ _ H1 E1) as (s' & H' & E' & S'). exists s'. split_and!; [done|done|]. intros Hn. rewrite S'.
  - apply S1. intros st w r ->. apply (Hn st w r). by constructor.
  - intros st w r Hx. apply (Hn st w r). by constructor.
Qed.

Definition in_ops : list int_op := [IMark "utt-1" STARTED; IMark "utt-1" DELIVERY_COMPLETED].
Definition in_done : InterruptionController := foldl (λ c o, int_exec o c) (InterruptionController_init "pause_current_work_item") in_ops.

Lemma ended_stays_ended_witness :
  ∃ s', delivery_state "utt-1" (foldl (λ c o, int_exec o c) in_done [IMark "utt-1" STARTED]) = Some s' ∧ ended_delivery s' = true.
Proof.
  destruct (ended_stays_ended "utt-1" [IMark "utt-1" STARTED] in_done DELIVERY_COMPLETED eq_refl eq_refl) as (s' & H1 & H2 & _).
  exists s'. split; [exact H1|exact H2].
Defined.
