(* ===== verification/Json.v ===== *)
(** What [json.loads] gives Python code: null, booleans, numbers, strings, lists
    and objects, with the tests the scripts make on them.

    An object is a dictionary in the order of its first occurrences; [json.loads]
    reads [NaN] and the infinities, so that a float is any float. *)

From S2P Require Import Prelude PyDict PyText PyValue.

#[warnings="-register-all"]
Inductive json :=
| JNull
| JBool (b : bool)
| JInt (z : Z)
| JFloat (f : pyfloat)
| JStr (t : text)
| JArr (l : list json)
| JObj (d : dict text json).

Implicit Types (v : json) (t : text).

(** [isinstance(v, str)] and the like; a bool is an int to Python. *)
Definition is_str v : bool := match v with JStr _ => true | _ => false end.
Definition is_obj v : bool := match v with JObj _ => true | _ => false end.
Definition is_list v : bool := match v with JArr _ => true | _ => false end.
Definition is_true v : bool := match v with JBool b => b | _ => false end.
Definition is_false v : bool := match v with JBool b => negb b | _ => false end.

(** [v == t] for a string *)
Definition eq_str v t : bool := match v with JStr u => bool_decide (u = t) | _ => false end.

(** [v == n] for an integer: a bool and a float of the same value compare equal. *)
Definition eq_int v (n : Z) : bool :=
  match v with
  | JInt z => bool_decide (z = n)
  | JBool b => bool_decide ((if b then 1 else 0) = n)%Z
  | JFloat (Finite q) => Qeq_bool q (inject_Z n)
  | _ => false
  end.

(** [d.get(key)], with [None] for an absent key *)
Definition get (d : dict text json) (key : string) : json := default JNull (dict_get (txt key) d).

(** The string or [None]; other values are neither. *)
Definition opt_str v : option (option text) :=
  match v with JNull => Some None | JStr t => Some (Some t) | _ => None end.

Lemma eq_str_spec v t : eq_str v t = true ↔ v = JStr t.
Proof.
  destruct v; simpl; try (split; congruence). rewrite bool_decide_eq_true. split; [by intros -> | by intros [= ->]].
Qed.
