(* ===== verification/EvalCommon.v ===== *)
(** What the evaluation scripts share ([src/scripts/eval_common.py]): the
    candidate models with their identity on the wire, correlating a turn's
    routing and metrics, and redacting text before it is written to a report.

    A stage metric of a record is absent, null or a number; Python's floats are
    exact rationals here as elsewhere. *)

From S2P Require Import Prelude PyDict PyText PyValue Regex ConfigLayers Config.

Abbreviation exc := (text * text)%type (only parsing).     (* class name and message *)

(** ** Candidates *)

Inductive role := RouterRole | WorkerRole.

#[global] Instance role_eq_dec : EqDecision role.
Proof. solve_decision. Defined.

Definition role_text (r : role) : text := match r with RouterRole => txt "router" | WorkerRole => txt "worker" end.

Record Candidate := mkCandidate {
  cd_label : text;
  cd_role : role;
  cd_model : text;
  cd_effort : option text
}.

#[global] Instance Candidate_eq_dec : EqDecision Candidate.
Proof. solve_decision. Defined.

Definition ROUTER_BASELINE : Candidate := mkCandidate (txt "baseline") RouterRole (txt "gpt-5-mini") None.
Definition ROUTER_CANDIDATES : list Candidate :=
  [mkCandidate (txt "luna-high") RouterRole (txt "gpt-5.6-luna") (Some (txt "high"));
   mkCandidate (txt "luna-medium") RouterRole (txt "gpt-5.6-luna") (Some (txt "medium"));
   mkCandidate (txt "terra-low") RouterRole (txt "gpt-5.6-terra") (Some (txt "low"))].
Definition WORKER_BASELINE : Candidate := mkCandidate (txt "baseline") WorkerRole (txt "gpt-5") None.
Definition WORKER_CANDIDATES : list Candidate :=
  [mkCandidate (txt "terra-medium") WorkerRole (txt "gpt-5.6-terra") (Some (txt "medium"));
   mkCandidate (txt "sol-low") WorkerRole (txt "gpt-5.6-sol") (Some (txt "low"))].
Definition ALL_ROUTER_CANDIDATES : list Candidate := ROUTER_BASELINE :: ROUTER_CANDIDATES.
Definition ALL_WORKER_CANDIDATES : list Candidate := WORKER_BASELINE :: WORKER_CANDIDATES.

Definition effective_router_reasoning_effort (model : text) (resolved_effort : option text) : option text :=
  match resolved_effort with
  | Some effort => Some effort
  | None => default_reasoning_effort_for_model model
  end.

Definition effective_effort_for_manifest_lookup (c : Candidate) : option text :=
  match cd_role c with
  | RouterRole => effective_router_reasoning_effort (cd_model c) (cd_effort c)
  | WorkerRole => cd_effort c
  end.

Definition candidate_wire_key (c : Candidate) : text * option text :=
  (cd_model c, effective_effort_for_manifest_lookup c).

Definition is_registered_candidate (c : Candidate) (registry : list Candidate) : bool :=
  existsb (λ r, bool_decide (candidate_wire_key r = candidate_wire_key c)) registry.

Definition registered_label (c : Candidate) (registry : list Candidate) : text :=
  match find (λ r, bool_decide (candidate_wire_key r = candidate_wire_key c)) registry with
  | None => txt "shipped"
  | Some r => cd_label r
  end.

(** [shipped_candidates], from the configuration that the shipped file gives *)
Definition shipped_candidates (c : Config) : result (Candidate * Candidate) :=
  rm ←? resolve_router_model c (txt "fast") ;;
  re ←? resolve_router_reasoning_effort c (txt "fast") ;;
  wm ←? resolve_worker_model c (txt "deep") ;;
  we ←? resolve_worker_reasoning_effort c (txt "deep") ;;
  let router := mkCandidate (txt "shipped") RouterRole rm re in
  let worker := mkCandidate (txt "shipped") WorkerRole wm we in
  Ret (mkCandidate (registered_label router ALL_ROUTER_CANDIDATES) RouterRole rm re,
       mkCandidate (registered_label worker ALL_WORKER_CANDIDATES) WorkerRole wm we).

(** ** Correlating a turn *)

(** [host.state.routing]: the action and the turn it was decided for *)
Definition turn_correlated_routing_action (routing : option (text * text)) (result_turn_id : text) : option text :=
  match routing with
  | Some (action, turn_id) => if bool_decide (turn_id = result_turn_id) then Some action else None
  | None => None
  end.

Inductive ms_field := MsAbsent | MsNull | Ms (q : Q).

Record MeasurementRecord := mkMeasurement {
  mr_event : text;
  mr_turn_id : option text;
  mr_routing_ms : ms_field;
  mr_search_ms : ms_field;
  mr_total_ms : ms_field
}.

(** [float(fields.get(key, default))] *)
Definition float_field (f : ms_field) (dflt : Q) : result Q :=
  match f with
  | MsAbsent => Ret dflt
  | MsNull => Raise (TypeError "float() argument must be a string or a real number, not 'NoneType'")
  | Ms q => Ret q
  end.

Definition records_of (event : string) (turn_id : text) (records : list MeasurementRecord) : list MeasurementRecord :=
  filter (λ r, mr_event r = txt event ∧ mr_turn_id r = Some turn_id) records.

Record StageMetrics := mkStages { st_routing_ms : Q; st_search_ms : Q; st_total_ms : Q }.

Definition latest_turn_stage_metrics (records : list MeasurementRecord) (elapsed_ms : Q) (turn_id : text) : result StageMetrics :=
  match last (records_of "app_turn_foreground" turn_id records) with
  | None => Raise (RuntimeError "no app_turn_foreground metric was emitted")
  | Some turn_record =>
      routing_ms ←? float_field (mr_routing_ms turn_record) 0 ;;
      search_ms ←? match last (records_of "work_item_foreground" turn_id records) with
                   | Some work_record => float_field (mr_search_ms work_record) 0
                   | None => Ret 0%Q
                   end ;;
      total_ms ←? float_field (mr_total_ms turn_record) elapsed_ms ;;
      Ret (mkStages routing_ms search_ms total_ms)
  end.

(** ** Redaction *)

(** [[\x00-\x08\x0b-\x1f\x7f-\x9f\u202a-\u202e\u2066-\u2069\u00ad\u200b-\u200f\u2060\ufeff]] *)
Definition control_char (c : N) : bool :=
  ((c <=? 8) || (11 <=? c) && (c <=? 31) || (127 <=? c) && (c <=? 159)
   || (8234 <=? c) && (c <=? 8238) || (8294 <=? c) && (c <=? 8297)
   || (c =? 173) || (8203 <=? c) && (c <=? 8207) || (c =? 8288) || (c =? 65279))%N.

Definition strip_control_chars (t : text) : text := filter (λ c, control_char c = false) t.

(** [t.replace(needle, by)] for a needle that is not empty.  A round takes at
    least one character, so that the length of the text is fuel enough. *)
Fixpoint replace_from (fuel : nat) (needle by_ t : text) : text :=
  match fuel with
  | O => t
  | S fuel =>
      match prefix_of_text needle t with
      | Some rest => by_ ++ replace_from fuel needle by_ rest
      | None => match t with c :: t' => c :: replace_from fuel needle by_ t' | [] => [] end
      end
  end.

Definition replace (needle by_ t : text) : text := replace_from (length t) needle by_ t.

Definition key_char (c : N) : bool := (ascii_alpha c || ascii_digit c || (c =? 95) || (c =? 45))%N.

(** The longest run of key characters *)
Fixpoint key_run (t : text) : nat * text :=
  match t with
  | c :: t' => if key_char c then let (n, rest) := key_run t' in (S n, rest) else (O, t)
  | [] => (O, [])
  end.

(** [sk-[A-Za-z0-9_-]{10,}] at the head of the text: what follows the match.  The
    class is repeated without bound, so that the greedy match takes the whole run. *)
Definition api_key_at (t : text) : option text :=
  match prefix_of_text (txt "sk-") t with
  | Some t' => let (n, rest) := key_run t' in if (10 <=? n)%nat then Some rest else None
  | None => None
  end.

Fixpoint sub_api_keys (fuel : nat) (t : text) : text :=
  match fuel with
  | O => t
  | S fuel =>
      match api_key_at t with
      | Some rest => txt "sk-***REDACTED***" ++ sub_api_keys fuel rest
      | None => match t with c :: t' => c :: sub_api_keys fuel t' | [] => [] end
      end
  end.

Definition redact (t : text) (credential : option text) : text :=
  let t := strip_control_chars t in
  let stripped_credential := match credential with Some c => strip_control_chars c | None => [] end in
  let t := if (8 <=? length stripped_credential)%nat then replace stripped_credential (txt "***REDACTED***") t else t in
  sub_api_keys (length t) t.

Definition error_text (e : exc) (credential : option text) (max_len : nat) : text :=
  take max_len (redact (e.1 ++ txt ": " ++ e.2) credential).

Definition sanitize_reason (t : text) (credential : option text) (max_len : nat) : text :=
  take max_len (redact t credential).

(** Redaction: what the evaluation scripts write to a report or a manifest
    contains neither the credential of the run, nor anything of the shape of an
    API key, nor a control character. *)
Definition occurs (n t : text) : Prop := ∃ a b, t = a ++ n ++ b.

(** ** Occurrences *)

Lemma prefix_of_text_spec p t rest : prefix_of_text p t = Some rest ↔ t = p ++ rest.
Proof.
  revert t. induction p as [|a p IH]; intros t; simpl; [by split; [intros [= ->]|intros ->]|].
  destruct t as [|b t]; [by split|]. destruct (N.eqb_spec a b) as [->|Hn].
  - rewrite IH. split; [by intros -> | by intros [= ->]].
  - split; [done|]. intros [= -> _]. done.
Qed.

Lemma prefix_of_text_none p t : prefix_of_text p t = None → ¬ p `prefix_of` t.
Proof. intros Hn [rest Hr]. apply prefix_of_text_spec in Hr. congruence. Qed.

Lemma occurs_cons n c t : occurs n (c :: t) → n `prefix_of` c :: t ∨ occurs n t.
Proof. intros (a & b & E). destruct a as [|x a]; [left; by exists b|]. right. exists a, b. by injection E. Qed.

Lemma occurs_suffix n a t : occurs n t → occurs n (a ++ t).
Proof. intros (x & y & ->). exists (a ++ x), y. by rewrite (assoc_L (++)). Qed.

Lemma occurs_prefix n t b : occurs n t → occurs n (t ++ b).
Proof. intros (x & y & ->). exists x, (y ++ b). by rewrite <- !(assoc_L (++)). Qed.

(** A character that the needle does not have separates its occurrences. *)
Lemma occurs_split n s x y : s ∉ n → occurs n (x ++ s :: y) → occurs n x ∨ occurs n y.
Proof.
  intros Hs. induction x as [|c x IH]; simpl.
  - intros [Hp|Ho]%occurs_cons; [|by right]. destruct n as [|a n]; [left; by exists [], []|].
    destruct Hp as [r Hr]. injection Hr as <- _. exfalso. apply Hs. left.
  - intros [Hp|Ho]%occurs_cons.
    + destruct (decide (length n ≤ length (c :: x))%nat) as [Hl|Hl].
      * left. destruct Hp as [r Hr]. exists [], (drop (length n) (c :: x)). simpl app at 1.
        rewrite <- (take_drop (length n) (c :: x)) at 1. f_equal.
        assert (take (length n) (c :: x ++ s :: y) = n) as E by (rewrite Hr; apply take_app_length).
        change (c :: x ++ s :: y) with ((c :: x) ++ s :: y) in E. by rewrite take_app_le in E.
      * exfalso. apply Hs. destruct Hp as [r Hr].
        assert ((c :: x ++ s :: y) !! length (c :: x) = Some s) as El
          by (change (c :: x ++ s :: y) with ((c :: x) ++ s :: y); by rewrite lookup_app_r, Nat.sub_diag).
        rewrite Hr, lookup_app_l in El by lia. by eapply list_elem_of_lookup_2.
    + destruct (IH Ho) as [H1|H1]; [left|by right]. by apply (occurs_suffix _ [c]).
Qed.

Lemma occurs_short n t : (length t < length n)%nat → ¬ occurs n t.
Proof. intros Hl (a & b & ->). rewrite !length_app in Hl. lia. Qed.

(** [REDACTED] *)
Definition R : text := [82; 69; 68; 65; 67; 84; 69; 68]%N.

Lemma occurs_same n : (8 ≤ length n)%nat → occurs n R → R = n.
Proof.
  intros Hl (a & b & E). pose proof (f_equal length E) as El. rewrite !length_app in El. simpl in El.
  assert (a = [] ∧ b = []) as [-> ->] by (split; apply nil_length_inv; lia). by rewrite app_nil_r in E.
Qed.

Lemma occurs_marked n t :
  42%N ∉ n → (8 ≤ length n)%nat → n ≠ R → occurs n (txt "***REDACTED***" ++ t) → occurs n t.
Proof.
  intros Hs Hl Hn Ho.
  change (occurs n ([] ++ 42%N :: ([] ++ 42%N :: ([] ++ 42%N :: (R ++ 42%N :: ([] ++ 42%N :: ([] ++ 42%N :: t))))))) in Ho.
  do 6 (apply occurs_split in Ho as [Ho|Ho]; [exfalso| |exact Hs];
        [first [revert Ho; apply occurs_short; simpl; lia|exact (Hn (eq_sym (occurs_same _ Hl Ho)))]|]).
  exact Ho.
Qed.

Lemma marked_prefix p t : 42%N ∉ p → p `prefix_of` txt "***REDACTED***" ++ t → p = [].
Proof. intros Hs [r Hr]. destruct p as [|c p]; [done|]. injection Hr as <- _. exfalso. apply Hs. left. Qed.

(** ** [str.replace] *)

Lemma replace_prefix fuel n t p :
  42%N ∉ p → p `prefix_of` replace_from fuel n (txt "***REDACTED***") t → p `prefix_of` t.
Proof.
  revert t p. induction fuel as [|fuel IH]; intros t p Hs Hp; [done|]. cbn [replace_from] in Hp.
  destruct (prefix_of_text n t) as [rest|] eqn:E; [apply marked_prefix in Hp as ->; [by exists t|done]|].
  destruct t as [|c t]; [done|]. destruct p as [|d p]; [by exists (c :: t)|].
  apply prefix_cons_inv_1 in Hp as Hd. apply prefix_cons_inv_2 in Hp. subst d.
  apply prefix_cons, IH; set_solver.
Qed.

Lemma replace_removes fuel n t :
  42%N ∉ n → (8 ≤ length n)%nat → n ≠ R → (length t ≤ fuel)%nat →
  ¬ occurs n (replace_from fuel n (txt "***REDACTED***") t).
Proof.
  intros Hs Hl Hn. revert t. induction fuel as [|fuel IH]; intros t Hf; cbn [replace_from].
  { apply occurs_short. lia. }
  destruct (prefix_of_text n t) as [rest|] eqn:E.
  - apply prefix_of_text_spec in E as ->. intros Ho. apply occurs_marked in Ho; [|done..].
    apply IH in Ho; [done|]. rewrite length_app in Hf. lia.
  - destruct t as [|c t]; [apply occurs_short; simpl; lia|].
    intros [Hp|Ho]%occurs_cons; [|apply IH in Ho; [done|simpl in Hf; lia]].
    apply prefix_of_text_none in E. apply E.
    destruct n as [|d n]; [simpl in Hl; lia|]. apply prefix_cons_inv_1 in Hp as Hd. apply prefix_cons_inv_2 in Hp. subst d.
    apply prefix_cons, (replace_prefix fuel (c :: n)); set_solver.
Qed.

(** ** API keys *)

Lemma key_run_spec t n rest : key_run t = (n, rest) → ∃ k, t = k ++ rest ∧ length k = n ∧ Forall (λ c, key_char c = true) k.
Proof.
  revert n rest. induction t as [|c t IH]; intros n rest; simpl; [intros [= <- <-]; by exists []|].
  destruct (key_char c) eqn:E; [|intros [= <- <-]; by exists []].
  destruct (key_run t) as [m r] eqn:Er. intros [= <- <-]. destruct (IH m r eq_refl) as (k & -> & <- & Hk).
  exists (c :: k). split; [done|]. split; [done|]. by constructor.
Qed.

Lemma key_run_long k t : Forall (λ c, key_char c = true) k → (length k ≤ (key_run (k ++ t)).1)%nat.
Proof. induction 1 as [|c k Hc _ IH]; simpl; [lia|]. rewrite Hc. destruct (key_run (k ++ t)). simpl in *. lia. Qed.

Lemma api_key_at_none k t :
  (10 ≤ length k)%nat → Forall (λ c, key_char c = true) k → api_key_at t = None → ¬ (txt "sk-" ++ k) `prefix_of` t.
Proof.
  intros Hl Hk Hn [r Hr]. unfold api_key_at in Hn. rewrite <- (assoc_L (++)) in Hr.
  apply prefix_of_text_spec in Hr. rewrite Hr in Hn. pose proof (key_run_long k r Hk) as Hlong.
  destruct (key_run (k ++ r)) as [n rest]. simpl in Hlong. destruct (Nat.leb_spec 10 n); [done|lia].
Qed.

Lemma api_key_at_some t rest : api_key_at t = Some rest → ∃ k, t = txt "sk-" ++ k ++ rest.
Proof.
  unfold api_key_at. destruct (prefix_of_text (txt "sk-") t) as [t'|] eqn:E; [|done].
  apply prefix_of_text_spec in E as ->. destruct (key_run t') as [n r] eqn:Er.
  destruct (10 <=? n)%nat; [|done]. intros [= <-]. apply key_run_spec in Er as (k & -> & _). by exists k.
Qed.

Lemma sub_prefix fuel t p : 42%N ∉ p → p `prefix_of` sub_api_keys fuel t → p `prefix_of` t.
Proof.
  revert t p. induction fuel as [|fuel IH]; intros t p Hs Hp; [done|]. cbn [sub_api_keys] in Hp.
  destruct (api_key_at t) as [rest|] eqn:E.
  - apply api_key_at_some in E as [k ->].
    change (txt "sk-***REDACTED***" ++ sub_api_keys fuel rest)
      with (txt "sk-" ++ (txt "***REDACTED***" ++ sub_api_keys fuel rest)) in Hp.
    apply prefix_app_r. destruct (decide (length p ≤ 3)%nat) as [Hl|Hl].
    + destruct Hp as [r Hr]. exists (drop (length p) (txt "sk-")).
      rewrite <- (take_drop (length p) (txt "sk-")) at 1. f_equal.
      assert (take (length p) (txt "sk-" ++ txt "***REDACTED***" ++ sub_api_keys fuel rest) = p) as Ep
        by (rewrite Hr; apply take_app_length).
      by rewrite take_app_le in Ep.
    + exfalso. destruct Hp as [r Hr]. apply Hs. apply (list_elem_of_lookup_2 _ 3).
      rewrite <- (lookup_app_l p r) by lia. rewrite <- Hr. reflexivity.
  - destruct t as [|c t]; [done|]. destruct p as [|d p]; [by exists (c :: t)|].
    apply prefix_cons_inv_1 in Hp as Hd. apply prefix_cons_inv_2 in Hp. subst d. apply prefix_cons, IH; set_solver.
Qed.

(** Replacing API keys makes no new occurrence of a needle that is not part of
    the mark. *)
Lemma sub_occurs fuel t n :
  42%N ∉ n → (8 ≤ length n)%nat → n ≠ R → occurs n (sub_api_keys fuel t) → occurs n t.
Proof.
  intros Hs Hl Hn. revert t. induction fuel as [|fuel IH]; intros t Ho; [done|]. cbn [sub_api_keys] in Ho.
  destruct (api_key_at t) as [rest|] eqn:E.
  - apply api_key_at_some in E as [k ->].
    change (txt "sk-***REDACTED***" ++ sub_api_keys fuel rest)
      with (txt "sk-" ++ 42%N :: (txt "**REDACTED***" ++ sub_api_keys fuel rest)) in Ho.
    apply occurs_split in Ho as [Ho|Ho]; [exfalso; revert Ho; apply occurs_short; simpl; lia| |exact Hs].
    apply (occurs_suffix _ [42%N]), (occurs_marked n (sub_api_keys fuel rest)) in Ho; [|done..].
    by apply occurs_suffix, occurs_suffix, IH.
  - destruct t as [|c t]; [done|]. apply occurs_cons in Ho as [Hp|Ho]; [|by apply (occurs_suffix _ [c]), IH].
    destruct (sub_prefix (S fuel) (c :: t) n Hs) as [r ->]; [cbn [sub_api_keys]; by rewrite E|]. by exists [], r.
Qed.

Lemma sub_no_keys fuel t k :
  (10 ≤ length k)%nat → Forall (λ c, key_char c = true) k → (length t ≤ fuel)%nat →
  ¬ occurs (txt "sk-" ++ k) (sub_api_keys fuel t).
Proof.
  intros Hl Hk. assert (42%N ∉ txt "sk-" ++ k) as Hs.
  { rewrite elem_of_app. intros [Hi|Hi]; [by apply (bool_decide_pack _) in Hi; vm_compute in Hi|].
    rewrite Forall_forall in Hk. by specialize (Hk _ Hi). }
  assert (8 ≤ length (txt "sk-" ++ k))%nat as Hl8 by (rewrite length_app; lia).
  revert t. induction fuel as [|fuel IH]; intros t Hf; cbn [sub_api_keys].
  { apply occurs_short. lia. }
  destruct (api_key_at t) as [rest|] eqn:E.
  - pose proof E as E'. apply api_key_at_some in E' as [k' ->]. intros Ho.
    change (txt "sk-***REDACTED***" ++ sub_api_keys fuel rest)
      with (txt "sk-" ++ 42%N :: (txt "**REDACTED***" ++ sub_api_keys fuel rest)) in Ho.
    apply occurs_split in Ho as [Ho|Ho]; [revert Ho; apply occurs_short; rewrite length_app; simpl; lia| |exact Hs].
    apply (occurs_suffix _ [42%N]), (occurs_marked _ (sub_api_keys fuel rest)) in Ho; [|done..].
    apply IH in Ho; [done|]. rewrite !length_app in Hf. simpl in Hf. lia.
  - destruct t as [|c t]; [apply occurs_short; rewrite length_app; simpl; lia|].
    intros [Hp|Ho]%occurs_cons; [|apply IH in Ho; [done|simpl in Hf; lia]].
    eapply api_key_at_none; [exact Hl|exact Hk|exact E|]. apply (sub_prefix (S fuel)); [done|].
    cbn [sub_api_keys]. by rewrite E.
Qed.

(** ** Control characters *)

Lemma sub_keeps fuel t c : c ∈ sub_api_keys fuel t → c ∈ t ∨ c ∈ txt "sk-***REDACTED***".
Proof.
  revert t. induction fuel as [|fuel IH]; intros t; cbn [sub_api_keys]; [by left|].
  destruct (api_key_at t) as [rest|] eqn:E.
  - apply api_key_at_some in E as [k ->]. intros [Hc|Hc]%elem_of_app; [by right|].
    destruct (IH _ Hc); [left; rewrite !elem_of_app; auto|by right].
  - destruct t as [|d t]; [by left|]. intros [->|Hc]%elem_of_cons; [left; left|].
    destruct (IH _ Hc); [left; by right|by right].
Qed.

Lemma replace_keeps fuel n t c : c ∈ replace_from fuel n (txt "***REDACTED***") t → c ∈ t ∨ c ∈ txt "***REDACTED***".
Proof.
  revert t. induction fuel as [|fuel IH]; intros t; cbn [replace_from]; [by left|].
  destruct (prefix_of_text n t) as [rest|] eqn:E.
  - apply prefix_of_text_spec in E as ->. intros [Hc|Hc]%elem_of_app; [by right|].
    destruct (IH _ Hc); [left; rewrite elem_of_app; auto|by right].
  - destruct t as [|d t]; [by left|]. intros [->|Hc]%elem_of_cons; [left; left|].
    destruct (IH _ Hc); [left; by right|by right].
Qed.

Lemma redact_clean t credential c : c ∈ redact t credential → control_char c = false.
Proof.
  assert (∀ l, Forall (λ c, control_char c = false) l → c ∈ l → control_char c = false) as Hlit
    by (intros l Hl Hi; rewrite Forall_forall in Hl; auto).
  assert (∀ u, c ∈ strip_control_chars u → control_char c = false) as Hstrip.
  { intros u Hu. unfold strip_control_chars in Hu. by apply list_elem_of_filter in Hu as [? _]. }
  intros [Hc|Hc]%sub_keeps; [|revert Hc; apply Hlit; by vm_compute; repeat constructor].
  destruct (8 <=? _)%nat; [|by apply Hstrip in Hc].
  apply replace_keeps in Hc as [Hc|Hc]; [by apply Hstrip in Hc|]. revert Hc. apply Hlit. by vm_compute; repeat constructor.
Qed.

(** C15.  Whatever text a provider or the judge sends, what is kept of it has none
    of the credential's occurrences (for a credential of eight characters or more
    that has no asterisk and is not the mark's own word), nothing of the shape of
    an API key and no control character, and is no longer than the limit. *)
Theorem credential_redacted t credential max_len :
  let needle := strip_control_chars credential in
  let kept := sanitize_reason t (Some credential) max_len in
  (8 ≤ length needle)%nat → 42%N ∉ needle → needle ≠ txt "REDACTED" →
  ¬ occurs needle kept
  ∧ (∀ k, (10 ≤ length k)%nat → Forall (λ c, key_char c = true) k → ¬ occurs (txt "sk-" ++ k) kept)
  ∧ Forall (λ c, control_char c = false) kept
  ∧ (length kept ≤ max_len)%nat.
Proof.
  intros needle kept Hl Hs Hn.
  assert (∀ n, occurs n kept → occurs n (redact t (Some credential))) as Hpre.
  { intros n Ho. rewrite <- (take_drop max_len (redact t (Some credential))). by apply occurs_prefix. }
  assert (redact t (Some credential) =
          sub_api_keys (length (replace needle (txt "***REDACTED***") (strip_control_chars t)))
            (replace needle (txt "***REDACTED***") (strip_control_chars t))) as Er.
  { unfold redact. fold needle. by rewrite (proj2 (Nat.leb_le 8 (length needle)) Hl). }
  split_and!.
  - intros Ho%Hpre. rewrite Er in Ho. apply sub_occurs in Ho; [|done..]. by apply replace_removes in Ho.
  - intros k Hk1 Hk2 Ho%Hpre. rewrite Er in Ho. by apply sub_no_keys in Ho.
  - apply Forall_forall. intros c Hc. apply (redact_clean t (Some credential)).
    rewrite <- (take_drop max_len (redact t (Some credential))). apply elem_of_app. by left.
  - unfold kept, sanitize_reason. rewrite length_take. lia.
Qed.

(** A leaked credential with a zero-width space in it, beside another key *)
Definition leak : text := txt "401: Bearer proxy-" ++ 8203%N :: txt "token-1 and sk-abcdefghijkl".

Lemma credential_redacted_witness :
  sanitize_reason leak (Some (txt "proxy-token-1")) 2000 = txt "401: Bearer ***REDACTED*** and sk-***REDACTED***"
  ∧ ¬ occurs (txt "proxy-token-1") (sanitize_reason leak (Some (txt "proxy-token-1")) 2000).
Proof.
  split; [vm_compute; reflexivity|].
  assert (strip_control_chars (txt "proxy-token-1") = txt "proxy-token-1") as E by (vm_compute; reflexivity).
  pose proof (credential_redacted leak (txt "proxy-token-1") 2000) as Hr. cbv zeta in Hr. rewrite E in Hr.
  apply Hr; [vm_compute; lia|apply (bool_decide_unpack _); vm_compute; exact I|vm_compute; congruence].
Defined.
