(* ===== verification/EvalMatrix.v ===== *)
(** The matrix of an evaluation run ([src/scripts/eval_model_comparison.py],
    [src/evals/scenarios.py]): which router and worker candidates are paired, how
    cells that send the same request are collapsed, and what a run may cost.

    The theorems are about any registry of candidates; the one of the source is
    [REGISTRY]. *)

From S2P Require Import Prelude PyDict PyText PyValue ConfigLayers Config EvalCommon.

(** ** Scenarios *)

Record Turn := mkTurn {
  tn_query : text;
  tn_judge_criterion : option text;
  tn_expect_action : option text;
  tn_expect_delegated : bool;
  tn_expect_citations : bool
}.

(** [__post_init__] *)
Definition Turn_init query judge_criterion expect_action expect_delegated expect_citations : result Turn :=
  if expect_citations && negb expect_delegated
  then Raise (ValueError "expect_citations=True requires expect_delegated=True")
  else Ret (mkTurn query judge_criterion expect_action expect_delegated expect_citations).

Record Scenario := mkScenario { sn_name : text; sn_turns : list Turn }.

(** [if turn.judge_criterion]: an empty criterion is none. *)
Definition judged_turn (t : Turn) : bool :=
  match tn_judge_criterion t with Some c => negb (bool_decide (c = [])) | None => false end.

(** ** Pairs *)

Record RunPair := mkPair {
  rp_router : Candidate;
  rp_worker : Candidate;
  enforce_latency_budget : bool
}.

Definition pair_label (p : RunPair) : text :=
  txt "router=" ++ cd_label (rp_router p) ++ txt "/worker=" ++ cd_label (rp_worker p).

Definition pair_cell_key (p : RunPair) : (text * option text) * (text * option text) :=
  (candidate_wire_key (rp_router p), candidate_wire_key (rp_worker p)).

Record Registry := mkRegistry {
  rg_router_baseline : Candidate;
  rg_routers : list Candidate;           (* without the baseline *)
  rg_worker_baseline : Candidate;
  rg_workers : list Candidate
}.

Definition REGISTRY : Registry := mkRegistry ROUTER_BASELINE ROUTER_CANDIDATES WORKER_BASELINE WORKER_CANDIDATES.

Definition is_historical_baseline_pair (g : Registry) (router worker : Candidate) : bool :=
  bool_decide (candidate_wire_key router = candidate_wire_key (rg_router_baseline g))
  && bool_decide (candidate_wire_key worker = candidate_wire_key (rg_worker_baseline g)).

Definition pair_invariant_error : exn := OtherException "PairInvariantError".

(** The loop of [_dedupe_pairs] *)
Fixpoint collapse_pairs (seen : dict ((text * option text) * (text * option text)) bool) (pairs : list RunPair)
    : result (list RunPair) :=
  match pairs with
  | [] => Ret []
  | p :: pairs' =>
      match dict_get (pair_cell_key p) seen with
      | Some enforced =>
          if negb (Bool.eqb enforced (enforce_latency_budget p)) then Raise pair_invariant_error
          else collapse_pairs seen pairs'
      | None =>
          unique ←? collapse_pairs (dict_set (pair_cell_key p) (enforce_latency_budget p) seen) pairs' ;;
          Ret (p :: unique)
      end
  end.

Definition dedupe_pairs (pairs : list RunPair) : result (list RunPair) :=
  unique ←? collapse_pairs [] pairs ;;
  if bool_decide (NoDup (pair_label <$> unique)) then Ret unique else Raise pair_invariant_error.

(** [RunPair(r, w, enforce_latency_budget=_is_historical_baseline_pair(r, w))] *)
Definition ruled_pair (g : Registry) (router worker : Candidate) : RunPair :=
  mkPair router worker (is_historical_baseline_pair g router worker).

Definition default_sweep_pairs (g : Registry) : result (list RunPair) :=
  dedupe_pairs
    (mkPair (rg_router_baseline g) (rg_worker_baseline g) true
     :: ((λ c, ruled_pair g c (rg_worker_baseline g)) <$> rg_routers g)
     ++ ((λ c, ruled_pair g (rg_router_baseline g) c) <$> rg_workers g)).

Definition full_matrix_pairs (g : Registry) : result (list RunPair) :=
  dedupe_pairs
    ((rg_router_baseline g :: rg_routers g) ≫= (λ r, (λ w, ruled_pair g r w) <$> rg_worker_baseline g :: rg_workers g)).

(** [*_SELECTABLE_BY_LABEL[label]]: of two candidates of one label the last *)
Definition selectable (label : text) (candidates : list Candidate) : option Candidate :=
  last (filter (λ c, cd_label c = label) candidates).

(** [if args.router]: the option parser's choices are not empty. *)
Definition resolve_pairs (g : Registry) (router worker : option text) (full_matrix : bool) : result (list RunPair) :=
  match router, worker with
  | None, None => if full_matrix then full_matrix_pairs g else default_sweep_pairs g
  | _, _ =>
      match selectable (default (txt "baseline") router) (rg_router_baseline g :: rg_routers g),
            selectable (default (txt "baseline") worker) (rg_worker_baseline g :: rg_workers g) with
      | Some r, Some w => Ret [ruled_pair g r w]
      | _, _ => Raise KeyError
      end
  end.

(** ** What a run may cost *)

Record CallAccounting := mkAccounting { router_calls : Z; worker_calls : Z; judge_calls : Z }.

Definition total_calls (a : CallAccounting) : Z := (router_calls a + worker_calls a + judge_calls a)%Z.

Definition estimated_cost_usd (a : CallAccounting) : Q :=
  (inject_Z (router_calls a) * (1 # 100) + inject_Z (worker_calls a) * (3 # 100) * 2
   + inject_Z (judge_calls a) * (2 # 1000))%Q.

Definition scenario_call_counts (s : Scenario) : Z * Z * Z :=
  (Z.of_nat (length (sn_turns s)), Z.of_nat (length (sn_turns s)),
   Z.of_nat (length (filter (λ t, judged_turn t = true) (sn_turns s)))).

Definition RETRY_WORST_CASE_MULTIPLIER : Z := 1 + 2.

Definition add_scenario (acc : Z * Z * Z) (s : Scenario) : Z * Z * Z :=
  let '(r, w, j) := scenario_call_counts s in
  let '(router, worker, judge) := acc in
  (router + r, worker + w, judge + j)%Z.

Definition matrix_call_accounting (pairs : list RunPair) (scenarios : list Scenario) (repeat_count : Z) : CallAccounting :=
  let '(r, w, j) := foldl (λ acc _, foldl add_scenario acc scenarios) (0, 0, 0)%Z pairs in
  mkAccounting (r * RETRY_WORST_CASE_MULTIPLIER * repeat_count) (w * RETRY_WORST_CASE_MULTIPLIER * repeat_count)
    (j * RETRY_WORST_CASE_MULTIPLIER * repeat_count).

Definition exceeds (a : CallAccounting) (max_calls : option Z) (max_cost : option Q) : bool :=
  match max_calls with Some m => (m <? total_calls a)%Z | None => false end
  || match max_cost with Some m => Qltb m (estimated_cost_usd a) | None => false end.

(** What the operator answers: no terminal, the end of input, or a line *)
Inductive answer := NotATerminal | EndOfInput | Line (t : text).

Definition confirm_spend (a : CallAccounting) (max_calls : option Z) (max_cost : option Q) (assume_yes : bool)
    (operator : answer) : bool :=
  if negb (exceeds a max_calls max_cost) then true
  else if assume_yes then true
  else match operator with
       | NotATerminal | EndOfInput => false
       | Line t => lower_is (strip t) "y" || lower_is (strip t) "yes"
       end.

(** ** Facts about pairs *)

Section pairs.
Implicit Types (p q : RunPair) (pairs unique : list RunPair).

Lemma not_NoDup_pair {A} `{EqDecision A} (l : list A) :
  ¬ NoDup l → ∃ i j a, i ≠ j ∧ l !! i = Some a ∧ l !! j = Some a.
Proof.
  induction l as [|a l IH]; intros Hn; [destruct Hn; constructor|]. destruct (decide (a ∈ l)) as [Hin|Hin].
  - apply list_elem_of_lookup in Hin as [j Hj]. by exists 0%nat, (S j), a.
  - destruct IH as (i & j & b & Hij & Hi & Hj); [intros Hd; apply Hn; by constructor|].
    exists (S i), (S j), b. split; [congruence|done].
Qed.

Lemma collapse_pairs_spec seen pairs unique :
  collapse_pairs seen pairs = Ret unique →
  sublist unique pairs
  ∧ NoDup (pair_cell_key <$> unique)
  ∧ (∀ p, p ∈ unique → dict_get (pair_cell_key p) seen = None)
  ∧ (∀ p, p ∈ pairs → dict_get (pair_cell_key p) seen = Some (enforce_latency_budget p)
                      ∨ ∃ q, q ∈ unique ∧ pair_cell_key q = pair_cell_key p
                             ∧ enforce_latency_budget q = enforce_latency_budget p).
Proof.
  revert seen unique. induction pairs as [|p pairs IH]; intros seen unique; simpl.
  { intros [= <-]. split_and!; [done|constructor|set_solver|set_solver]. }
  destruct (dict_get (pair_cell_key p) seen) as [e|] eqn:Es.
  - destruct (Bool.eqb e (enforce_latency_budget p)) eqn:Ee; [|done]. apply Bool.eqb_prop in Ee as ->. simpl.
    intros (Hs & Hn & Hu & Hp)%IH. split_and!; [by constructor|done|done|].
    intros q [->|Hq]%elem_of_cons; [by left|auto].
  - destruct (collapse_pairs _ pairs) as [u|] eqn:Eu; [|done]. simpl. intros [= <-].
    apply IH in Eu as (Hs & Hn & Hu & Hp). split_and!.
    + by constructor.
    + rewrite fmap_cons. constructor; [|done]. intros (q & Eq & Hq)%list_elem_of_fmap.
      specialize (Hu q Hq). by rewrite <- Eq, dict_get_set_eq in Hu.
    + intros q [->|Hq]%elem_of_cons; [done|]. specialize (Hu q Hq). rewrite dict_get_set in Hu. by case_decide.
    + intros q [->|Hq]%elem_of_cons; [right; exists p; by split; [left|]|].
      destruct (Hp q Hq) as [Hg|(q' & Hq' & E1 & E2)]; [|right; exists q'; by split; [right|]].
      rewrite dict_get_set in Hg. case_decide as Ek; [|by left].
      right. exists p. split; [left|]. split; [done|congruence].
Qed.

(** Where the request decides the enforcement, collapsing never fails. *)
Lemma collapse_pairs_returns seen pairs (rule : (text * option text) * (text * option text) → bool) :
  (∀ p, p ∈ pairs → enforce_latency_budget p = rule (pair_cell_key p)) →
  (∀ k b, dict_get k seen = Some b → b = rule k) →
  ∃ unique, collapse_pairs seen pairs = Ret unique.
Proof.
  revert seen. induction pairs as [|p pairs IH]; intros seen Hp Hseen; simpl; [eauto|].
  destruct (dict_get (pair_cell_key p) seen) as [e|] eqn:Es.
  - rewrite (Hseen _ _ Es), (Hp p) by left. rewrite Bool.eqb_reflx. simpl. apply IH; [|done]. intros q Hq. apply Hp. by right.
  - destruct (IH (dict_set (pair_cell_key p) (enforce_latency_budget p) seen)) as [u ->]; [|..|by eexists].
    + intros q Hq. apply Hp. by right.
    + intros k b. rewrite dict_get_set. case_decide as Ek; [|apply Hseen]. intros [= <-]. subst k. apply Hp. by left.
Qed.

(** The requests of a sweep or of the whole matrix, before collapsing *)
Definition requested (g : Registry) (full_matrix : bool) : list RunPair :=
  if full_matrix
  then (rg_router_baseline g :: rg_routers g) ≫= (λ r, (λ w, ruled_pair g r w) <$> rg_worker_baseline g :: rg_workers g)
  else mkPair (rg_router_baseline g) (rg_worker_baseline g) true
       :: ((λ c, ruled_pair g c (rg_worker_baseline g)) <$> rg_routers g)
       ++ ((λ c, ruled_pair g (rg_router_baseline g) c) <$> rg_workers g).

Lemma requested_ruled g full_matrix p :
  p ∈ requested g full_matrix →
  enforce_latency_budget p
  = bool_decide (pair_cell_key p = (candidate_wire_key (rg_router_baseline g), candidate_wire_key (rg_worker_baseline g))).
Proof.
  assert (∀ r w, is_historical_baseline_pair g r w
                 = bool_decide ((candidate_wire_key r, candidate_wire_key w)
                                = (candidate_wire_key (rg_router_baseline g), candidate_wire_key (rg_worker_baseline g)))) as Hr.
  { intros r w. unfold is_historical_baseline_pair. rewrite <- bool_decide_and. apply bool_decide_ext.
    split; [intros [E1 E2]; by f_equal | intros E; split; [exact (f_equal fst E) | exact (f_equal snd E)]]. }
  destruct full_matrix; cbn [requested].
  - intros (r & (w & -> & _)%list_elem_of_fmap & _)%list_elem_of_bind. apply Hr.
  - intros [->|[(c & -> & _)%list_elem_of_fmap|(c & -> & _)%list_elem_of_fmap]%elem_of_app]%elem_of_cons; [|apply Hr..].
    symmetry. by apply bool_decide_true.
Qed.

Lemma resolve_requested g full_matrix : resolve_pairs g None None full_matrix = dedupe_pairs (requested g full_matrix).
Proof. by destruct full_matrix. Qed.

(** For any registry, a sweep or a whole matrix either resolves to cells that
    are pairwise different requests under pairwise different labels, with every
    requested request among them exactly once and the latency budget enforced for
    the baseline's request only; or it is refused, and then two different requests
    share a label.  No request is paid for twice, and a candidate that is a copy of
    the baseline is collapsed into the enforced cell. *)
Theorem cells_paid_once g full_matrix :
  match resolve_pairs g None None full_matrix with
  | Ret unique =>
      sublist unique (requested g full_matrix)
      ∧ NoDup (pair_cell_key <$> unique) ∧ NoDup (pair_label <$> unique)
      ∧ (∀ p, p ∈ requested g full_matrix → pair_cell_key p ∈ pair_cell_key <$> unique)
      ∧ (∀ q, q ∈ unique →
           enforce_latency_budget q = true
           ↔ pair_cell_key q = (candidate_wire_key (rg_router_baseline g), candidate_wire_key (rg_worker_baseline g)))
  | Raise e =>
      e = pair_invariant_error
      ∧ ∃ p q, p ∈ requested g full_matrix ∧ q ∈ requested g full_matrix
               ∧ pair_label p = pair_label q ∧ pair_cell_key p ≠ pair_cell_key q
  end.
Proof.
  rewrite resolve_requested. unfold dedupe_pairs.
  destruct (collapse_pairs_returns [] (requested g full_matrix)
              (λ k, bool_decide (k = (candidate_wire_key (rg_router_baseline g), candidate_wire_key (rg_worker_baseline g)))))
    as [u Eu]; [apply requested_ruled|done|].
  rewrite Eu. simpl. apply collapse_pairs_spec in Eu as (Hs & Hn & _ & Hp).
  case_bool_decide as Hl.
  - split_and!; [done..| |].
    + intros p Hq. destruct (Hp p Hq) as [?|(q & Hq' & E & _)]; [done|]. apply list_elem_of_fmap. by exists q.
    + intros q Hq. assert (q ∈ requested g full_matrix) as Hr by (by apply (sublist_subseteq _ _ Hs)).
      rewrite (requested_ruled _ _ _ Hr). apply bool_decide_eq_true.
  - split; [done|]. apply not_NoDup_pair in Hl as (i & j & a & Hij & Hi & Hj).
    rewrite list_lookup_fmap in Hi, Hj.
    destruct (u !! i) as [p|] eqn:Ei; [|done]. destruct (u !! j) as [q|] eqn:Ej; [|done].
    simpl in Hi, Hj. exists p, q.
    split; [by eapply (sublist_subseteq _ _ Hs), list_elem_of_lookup_2|].
    split; [by eapply (sublist_subseteq _ _ Hs), list_elem_of_lookup_2|]. split; [congruence|].
    intros Ek. apply Hij. apply (NoDup_lookup _ i j (pair_cell_key p) Hn); rewrite list_lookup_fmap, ?Ei, ?Ej; simpl; congruence.
Qed.

End pairs.
