(* ===== verification/EvalVote.v ===== *)
(** The outcomes of an evaluation run and the votes over repetitions
    ([src/scripts/eval_model_comparison.py]): [_majority_with_tiebreak],
    [_majority_bool], [_average], [_latency_budget_exceeded],
    [_aggregate_turn_repeats] and [_aggregate_cell_repeats]. *)

From S2P Require Import Prelude PyDict PyText PyValue ConfigLayers Config EvalCommon EvalMatrix.

(** ** Outcomes *)

Inductive TurnStatus := TOk | TProviderError | TTimeout | TSetupError | TTurnError | TSkipped.
Inductive CellStatus := COk | CProviderError | CTimeout | CSetupError | CTurnError | CManifestRejected.
Inductive JudgeVerdict := VYes | VNo | VContinue | VJudgeError.

#[global] Instance TurnStatus_eq_dec : EqDecision TurnStatus.
Proof. solve_decision. Defined.
#[global] Instance CellStatus_eq_dec : EqDecision CellStatus.
Proof. solve_decision. Defined.
#[global] Instance JudgeVerdict_eq_dec : EqDecision JudgeVerdict.
Proof. solve_decision. Defined.

Definition turn_status_text (s : TurnStatus) : text :=
  txt match s with
      | TOk => "ok" | TProviderError => "provider-error" | TTimeout => "timeout" | TSetupError => "setup-error"
      | TTurnError => "turn-error" | TSkipped => "skipped"
      end.

Definition cell_status_text (s : CellStatus) : text :=
  txt match s with
      | COk => "ok" | CProviderError => "provider-error" | CTimeout => "timeout" | CSetupError => "setup-error"
      | CTurnError => "turn-error" | CManifestRejected => "manifest-rejected"
      end.

Record TurnOutcome := mkOutcome {
  to_query : text;
  to_status : TurnStatus;
  judge_verdict : option JudgeVerdict;
  judge_reason : option text;
  to_error : option text;
  deterministic_action_pass : option bool;
  deterministic_action_unevaluated_reason : option text;
  citations_pass : option bool;
  worker_presence_pass : option bool;
  routing_ms : option Q;
  search_ms : option Q;
  total_ms : option Q;
  latency_budget_exceeded : option bool;
  latency_budget_enforced : bool
}.

#[export] Instance eta_TurnOutcome : Eta TurnOutcome := λ t,
  mkOutcome (to_query t) (to_status t) (judge_verdict t) (judge_reason t) (to_error t) (deterministic_action_pass t)
    (deterministic_action_unevaluated_reason t) (citations_pass t) (worker_presence_pass t) (routing_ms t) (search_ms t)
    (total_ms t) (latency_budget_exceeded t) (latency_budget_enforced t).

(** [TurnOutcome(query=..., status=...)] *)
Definition new_outcome (query : text) (status : TurnStatus) : TurnOutcome :=
  mkOutcome query status None None None None None None None None None None None false.

#[warnings="-register-all"]
Inductive CellOutcome := mkCell {
  co_pair_label : text;
  co_scenario_name : text;
  co_status : CellStatus;
  co_error : option text;
  co_turns : option (list TurnOutcome);
  co_router_timeout_seconds : option pyfloat;
  co_foreground_search_timeout_seconds : option pyfloat;
  co_repeats : option (list CellOutcome)
}.

(** ** Votes *)

Section vote.
Context {A : Type} `{EqDecision A}.
Implicit Types (values priority : list A) (clean : A).

(** [Counter(values)[v]] *)
Definition tally (v : A) values : nat := length (filter (λ x, x = v) values).

Definition max_count values : nat := foldr Nat.max 0%nat ((λ v, tally v values) <$> values).

Definition winners values : list A := filter (λ v, tally v values = max_count values) values.

(** The first element of a set is arbitrary; here it is the first in order of
    appearance.  It is taken only when no winner has a priority. *)
Definition majority_with_tiebreak values priority clean : result A :=
  match winners values with
  | [] => Raise (ValueError "_majority_with_tiebreak requires at least one value")
  | some_winner :: _ =>
      let winner := default some_winner (head (filter (λ c, c ∈ winners values) priority)) in
      if bool_decide (winner = clean) && (tally clean values * 2 <=? length values)%nat
      then Ret (default winner (head (filter (λ c, c ≠ clean ∧ c ∈ values) priority)))
      else Ret winner
  end.

End vote.

Definition majority_bool (values : list (option bool)) : option bool :=
  match omap id values with
  | [] => None
  | present => Some (length present <? length (filter (λ b, b = true) present) * 2)%nat
  end.

Definition average (values : list (option Q)) : option Q :=
  match omap id values with
  | [] => None
  | present => Some (foldr Qplus 0%Q present / inject_Z (Z.of_nat (length present)))%Q
  end.

Definition over_budget (ms : option Q) (seconds : Q) : bool :=
  match ms with Some q => Qltb (seconds * 1000)%Q q | None => false end.

Definition budget_exceeded (routing total : option Q) (max_routing_seconds max_latency_seconds : Q) : option bool :=
  match routing, total with
  | None, None => None
  | _, _ => Some (over_budget routing max_routing_seconds || over_budget total max_latency_seconds)
  end.

Definition CELL_STATUS_TIE_PRIORITY : list CellStatus :=
  [CProviderError; CTimeout; CSetupError; CTurnError; CManifestRejected; COk].
Definition TURN_STATUS_TIE_PRIORITY : list TurnStatus :=
  [TProviderError; TTimeout; TSetupError; TTurnError; TSkipped; TOk].
Definition JUDGE_VERDICT_TIE_PRIORITY : list JudgeVerdict := [VJudgeError; VNo; VContinue; VYes].

(** ** Text of the summaries *)

Definition nat_text (n : nat) : text := decimal (N.of_nat n).

(** [f"{n}/{m}"] *)
Definition ratio_text (n m : nat) : text := nat_text n ++ 47%N :: nat_text m.

(** [sep.join(l)] *)
Fixpoint join_with (sep : text) (l : list text) : text :=
  match l with
  | [] => []
  | [t] => t
  | t :: l' => t ++ sep ++ join_with sep l'
  end.

Fixpoint text_ltb (a b : text) : bool :=
  match a, b with
  | _, [] => false
  | [], _ :: _ => true
  | x :: a', y :: b' => if (x =? y)%N then text_ltb a' b' else (x <? y)%N
  end.

Fixpoint insert_text (t : text) (l : list text) : list text :=
  match l with
  | [] => [t]
  | u :: l' => if bool_decide (t = u) then l else if text_ltb t u then t :: l else u :: insert_text t l'
  end.

(** [sorted(set(l))] *)
Definition sorted_set (l : list text) : list text := foldr insert_text [] l.

(** [a or b] for strings *)
Definition nonempty (t : option text) : option text :=
  match t with Some u => if bool_decide (u = []) then None else Some u | None => None end.

(** ** Repetitions of a turn *)

Section aggregate.
Context (max_routing_seconds max_latency_seconds : Q).

Definition ok_turns (l : list TurnOutcome) : list TurnOutcome := filter (λ t, to_status t = TOk) l.

Definition verdict_summary (l : list TurnOutcome) (verdicts : list JudgeVerdict) : option text :=
  match verdicts with
  | [] => None
  | _ =>
      let reason_bits := omap (λ t, nonempty (judge_reason t)) (ok_turns l) in
      Some (ratio_text (tally VYes verdicts) (length verdicts) ++ txt " judged repeats (of " ++ nat_text (length l)
            ++ txt ") judged yes"
            ++ match reason_bits with [] => [] | _ => txt "; reasons: " ++ join_with (txt " | ") reason_bits end)
  end.

Definition failure_summary (l : list TurnOutcome) : option text :=
  match filter (λ t, to_status t ≠ TOk) l with
  | [] => None
  | non_ok =>
      Some (ratio_text (length non_ok) (length l) ++ txt " repeats failed: "
            ++ join_with (txt "; ") (sorted_set ((λ t, default (turn_status_text (to_status t)) (nonempty (to_error t))) <$> non_ok)))
  end.

Definition unevaluated_note (reasons : list text) (ok : list TurnOutcome) : option text :=
  match reasons with
  | [] => None
  | first_reason :: _ => Some (ratio_text (length reasons) (length ok) ++ txt " repeats: " ++ first_reason)
  end.

Definition aggregate_turn_repeats (l : list TurnOutcome) : result TurnOutcome :=
  match l with
  | [lone] => Ret lone
  | _ =>
      agg_status ←? majority_with_tiebreak (to_status <$> l) TURN_STATUS_TIE_PRIORITY TOk ;;
      let ok := ok_turns l in
      let verdicts := omap judge_verdict ok in
      agg_verdict ←? match verdicts with
                     | [] => Ret None
                     | _ => v ←? majority_with_tiebreak verdicts JUDGE_VERDICT_TIE_PRIORITY VYes ;; Ret (Some v)
                     end ;;
      let unevaluated := omap deterministic_action_unevaluated_reason ok in
      let note := unevaluated_note unevaluated ok in
      let majority := (length ok <? length unevaluated * 2)%nat in
      let agg_error := failure_summary l in
      let agg_error := match note with
                       | Some minority_note =>
                           if majority then agg_error
                           else Some match agg_error with Some e => e ++ txt "; " ++ minority_note | None => minority_note end
                       | None => agg_error
                       end in
      let agg_routing_ms := average (routing_ms <$> ok) in
      let agg_total_ms := average (total_ms <$> ok) in
      Ret {| to_query := default [] (head (filter (λ q, q ≠ []) (to_query <$> l)));
             to_status := agg_status;
             judge_verdict := agg_verdict;
             judge_reason := verdict_summary l verdicts;
             to_error := agg_error;
             deterministic_action_pass := majority_bool (deterministic_action_pass <$> ok);
             deterministic_action_unevaluated_reason := if majority then note else None;
             citations_pass := majority_bool (citations_pass <$> ok);
             worker_presence_pass := majority_bool (worker_presence_pass <$> ok);
             routing_ms := agg_routing_ms;
             search_ms := average (search_ms <$> ok);
             total_ms := agg_total_ms;
             latency_budget_exceeded := budget_exceeded agg_routing_ms agg_total_ms max_routing_seconds max_latency_seconds;
             latency_budget_enforced := existsb latency_budget_enforced l |}
  end.

(** ** Repetitions of a cell *)

Definition turn_at (i : nat) (c : CellOutcome) : TurnOutcome :=
  default (new_outcome [] TSkipped) (turns ← co_turns c; turns !! i).

Definition turn_count (repeats : list CellOutcome) : nat :=
  foldr Nat.max 0%nat ((λ c, length (default [] (co_turns c))) <$> repeats).

Fixpoint rmap {A B} (f : A → result B) (l : list A) : result (list B) :=
  match l with
  | [] => Ret []
  | x :: l' => y ←? f x ;; ys ←? rmap f l' ;; Ret (y :: ys)
  end.

Definition aggregate_cell_repeats (label scenario_name : text) (repeats : list CellOutcome) : result CellOutcome :=
  if existsb (λ c, bool_decide (is_Some (co_repeats c))) repeats
  then Raise (ValueError "CellOutcome.repeats must be depth-1")
  else
  match repeats with
  | [lone] => Ret lone
  | _ =>
      let statuses := co_status <$> repeats in
      agg_status ←? majority_with_tiebreak statuses CELL_STATUS_TIE_PRIORITY COk ;;
      let non_ok := filter (λ s, s ≠ COk) statuses in
      let agg_error := match non_ok with
                       | [] => None
                       | _ => Some (ratio_text (length non_ok) (length repeats) ++ txt " repeats did not complete cleanly: "
                                    ++ join_with (txt ", ") (sorted_set (cell_status_text <$> non_ok)))
                       end in
      agg_turns ←? rmap (λ i, aggregate_turn_repeats (turn_at i <$> repeats)) (seq 0 (turn_count repeats)) ;;
      Ret {| co_pair_label := label; co_scenario_name := scenario_name; co_status := agg_status; co_error := agg_error;
             co_turns := Some agg_turns;
             co_router_timeout_seconds := head (omap co_router_timeout_seconds repeats);
             co_foreground_search_timeout_seconds := head (omap co_foreground_search_timeout_seconds repeats);
             co_repeats := Some repeats |}
  end.

End aggregate.

(** ** Facts about votes *)

Section vote_facts.
Context {A : Type} `{EqDecision A}.
Implicit Types (values priority : list A) (clean v w : A).

Lemma tally_le v values : (tally v values ≤ length values)%nat.
Proof. apply length_filter. Qed.

Lemma tally_pos v values : v ∈ values ↔ (0 < tally v values)%nat.
Proof.
  unfold tally. split.
  - intros Hv. assert (v ∈ filter (λ x, x = v) values) as Hf by by apply list_elem_of_filter.
    destruct (filter _ values); [by apply elem_of_nil in Hf|simpl; lia].
  - destruct (filter (λ x, x = v) values) as [|x l] eqn:E; simpl; [lia|]. intros _.
    assert (x ∈ filter (λ x, x = v) values) as Hx by (rewrite E; left). by apply list_elem_of_filter in Hx as [<- ?].
Qed.

Lemma tally_sum v w values : v ≠ w → (tally v values + tally w values ≤ length values)%nat.
Proof.
  intros Hn. unfold tally. induction values as [|x l IH]; [simpl; lia|]. rewrite !filter_cons. simpl length.
  repeat case_decide; subst; simpl; try congruence; lia.
Qed.

Lemma max_count_ge v values : v ∈ values → (tally v values ≤ max_count values)%nat.
Proof.
  unfold max_count. intros Hv. assert (tally v values ∈ (λ v, tally v values) <$> values) as Hi by exact (list_elem_of_fmap_2 (λ v, tally v values) _ _ Hv).
  induction ((λ v, tally v values) <$> values) as [|x l IH]; [by apply elem_of_nil in Hi|].
  apply elem_of_cons in Hi as [->|Hi]; simpl; [lia|]. specialize (IH Hi). lia.
Qed.

Lemma max_count_reached values : values ≠ [] → ∃ v, v ∈ values ∧ tally v values = max_count values.
Proof.
  unfold max_count. intros Hn. assert (∃ n, n ∈ (λ v, tally v values) <$> values ∧
    n = foldr Nat.max 0%nat ((λ v, tally v values) <$> values)) as (n & Hn1 & Hn2).
  { assert ((λ v, tally v values) <$> values ≠ []) as Hm by by destruct values.
    induction ((λ v, tally v values) <$> values) as [|x l IH]; [done|]. simpl.
    destruct l as [|y l]; [exists x; split; [left|simpl; lia]|]. destruct IH as (m & Hm1 & Hm2); [done|].
    destruct (Nat.max_spec x m) as [[_ E]|[_ E]]; rewrite <- Hm2, E; [exists m; split; [by right|done]|exists x; split; [left|done]]. }
  apply list_elem_of_fmap in Hn1 as (v & -> & Hv). eauto.
Qed.

Lemma winners_spec v values : v ∈ winners values ↔ v ∈ values ∧ tally v values = max_count values.
Proof. unfold winners. rewrite list_elem_of_filter. tauto. Qed.

Lemma head_filter {B} (P : B → Prop) `{∀ x, Decision (P x)} (l : list B) x : head (filter P l) = Some x → P x ∧ x ∈ l.
Proof. intros Hh. apply (list_elem_of_filter P l x). destruct (filter P l); [done|]. injection Hh as ->. left. Qed.

Lemma head_filter_none {B} (P : B → Prop) `{∀ x, Decision (P x)} (l : list B) x : head (filter P l) = None → x ∈ l → ¬ P x.
Proof.
  intros Hh Hx Hp. assert (x ∈ filter P l) as Hf by by apply list_elem_of_filter.
  destruct (filter P l); [by apply elem_of_nil in Hf|done].
Qed.

(** The vote gives one of the values, and the clean one exactly when a strict
    majority of the values is clean. *)
Lemma majority_spec values priority clean :
  values ≠ [] → (∀ v, v ∈ priority) →
  ∃ v, majority_with_tiebreak values priority clean = Ret v ∧ v ∈ values
       ∧ (v = clean ↔ (length values < tally clean values * 2)%nat).
Proof.
  intros Hn Hall. destruct (max_count_reached values Hn) as (v0 & Hv0 & Et).
  unfold majority_with_tiebreak. destruct (winners values) as [|w0 ws] eqn:Ew.
  { assert (v0 ∈ winners values) as Hw by by apply winners_spec. rewrite Ew in Hw. by apply elem_of_nil in Hw. }
  destruct (head (filter (λ c, c ∈ w0 :: ws) priority)) as [w|] eqn:Eh.
  2: { exfalso. apply (head_filter_none _ _ w0) in Eh; [|done]. apply Eh. left. }
  cbn [default]. apply head_filter in Eh as [Hw _]. rewrite <- Ew in Hw. apply winners_spec in Hw as [Hwv Hwt].
  destruct (decide (w = clean)) as [->|Hwc]; [rewrite bool_decide_true by done | rewrite bool_decide_false by done]; cbn [andb].
  - destruct (Nat.leb_spec (tally clean values * 2) (length values)) as [Hle|Hgt].
    + destruct (head (filter (λ c, c ≠ clean ∧ c ∈ values) priority)) as [c|] eqn:Ec.
      * apply head_filter in Ec as [[Hc Hcv] _]. exists c. split; [done|]. split; [done|]. split; [done|lia].
      * exfalso. assert (∀ c, c ∈ values → c = clean) as Hcl.
        { intros c Hc. destruct (decide (c = clean)) as [|Hcn]; [done|].
          exfalso. apply (head_filter_none _ _ c Ec (Hall c)). done. }
        assert (tally clean values = length values) as El.
        { unfold tally. rewrite filter_all; [done|]. by apply Forall_forall. }
        apply tally_pos in Hwv. lia.
    + exists clean. split; [done|]. split; [done|]. split; [lia|done].
  - exists w. split; [done|]. split; [done|]. split; [congruence|]. intros Hgt. exfalso.
    assert (clean ∈ values) as Hcv by (apply tally_pos; lia). pose proof (max_count_ge clean values Hcv).
    pose proof (tally_sum w clean values Hwc). lia.
Qed.

End vote_facts.
