(* ===== verification/EvalManifest.v ===== *)
(** The manifest of verified candidates ([src/scripts/eval_model_comparison.py]):
    which (role, model, effort) combinations an evaluation run may pay for.

    What git and the file system say is an argument: the commit of the checkout,
    whether the attested sources are modified, and the manifest's bytes as
    [json.loads] reads them. *)

From S2P Require Import Prelude PyDict PyText PyValue Json ConfigLayers Config EvalCommon.

Definition MANIFEST_VERSION : Z := 1.
Definition ROUTER_MANIFEST_TOOLS : list text := [txt "text"].
Definition WORKER_MANIFEST_TOOLS : list text := [txt "web_search"].

Record ManifestStatus := mkStatus {
  ms_exists : bool;
  ms_source_commit : option text;
  ms_current_commit : option text;
  ms_stale : bool;
  ms_accepted : list (text * text * option text)
}.

(** ** The shape of a request *)

(** The keys that [build_router_request_kwargs] and its siblings always set, less
    the ones that vary per call *)
Definition ROUTER_KEYS : list string := ["model"; "input"; "store"; "text"].
Definition WORKER_KEYS : list string := ["model"; "tools"; "tool_choice"; "text"; "store"].

Definition judge_extra_kwargs (model : text) : dict text json :=
  match default_reasoning_effort_for_model model with
  | Some effort => [(txt "reasoning_effort", JStr effort)]
  | None => []
  end.

Definition JUDGE_KEYS (model : text) : list text := [txt "model"; txt "messages"] ++ dict_keys (judge_extra_kwargs model).

Definition has_keys (keys : list text) (kwargs : dict text json) : bool := forallb (λ k, dict_mem k kwargs) keys.

(** [reasoning is None], or an object whose effort is the expected one *)
Definition reasoning_ok (kwargs : dict text json) (effort : option text) : bool :=
  match effort, get kwargs "reasoning" with
  | None, JNull => true
  | Some e, JObj d => eq_str (get d "effort") e
  | _, _ => false
  end.

Definition web_search_tool (v : json) : bool :=
  match v with JObj d => eq_str (get d "type") (txt "web_search") | _ => false end.

Definition judge_message (v : json) : bool :=
  match v with JObj d => dict_mem (txt "role") d && dict_mem (txt "content") d | _ => false end.

Definition router_shape_ok (model : text) (effort : option text) (kwargs : dict text json) : bool :=
  has_keys (txt <$> ROUTER_KEYS) kwargs
  && eq_str (get kwargs "model") model
  && reasoning_ok kwargs (effective_router_reasoning_effort model effort)
  && is_false (get kwargs "store")
  && is_obj (get kwargs "text")
  && match get kwargs "input" with JStr t => negb (bool_decide (t = [])) | _ => false end.

Definition worker_shape_ok (model : text) (effort : option text) (kwargs : dict text json) : bool :=
  has_keys (txt <$> WORKER_KEYS) kwargs
  && eq_str (get kwargs "model") model
  && reasoning_ok kwargs effort
  && is_false (get kwargs "store")
  && eq_str (get kwargs "tool_choice") (txt "required")
  && is_obj (get kwargs "text")
  && match get kwargs "tools" with JArr tools => existsb web_search_tool tools | _ => false end.

Definition judge_shape_ok (model : text) (kwargs : dict text json) : bool :=
  has_keys (JUDGE_KEYS model) kwargs
  && eq_str (get kwargs "model") model
  && match default_reasoning_effort_for_model model, get kwargs "reasoning_effort" with
     | None, JNull => true
     | Some e, v => eq_str v e
     | None, _ => false
     end
  && match get kwargs "messages" with
     | JArr messages => (1 <=? length messages)%nat && forallb judge_message messages
     | _ => false
     end.

Definition request_kwargs_shape_ok (kind model : text) (effort : option text) (kwargs : dict text json) : bool :=
  if bool_decide (kind = txt "router") then router_shape_ok model effort kwargs
  else if bool_decide (kind = txt "worker") then worker_shape_ok model effort kwargs
  else if bool_decide (kind = txt "judge") then judge_shape_ok model kwargs
  else true.

(** ** Loading *)

(** A list or an object cannot be hashed. *)
Definition hashable (v : json) : bool := match v with JArr _ | JObj _ => false | _ => true end.

(** [set(expected).issubset(tools)] hashes every element of the list *)
Definition issubset (expected : list text) (tools : list json) : result bool :=
  if forallb hashable tools then Ret (forallb (λ t, existsb (λ v, eq_str v t) tools) expected)
  else Raise (TypeError "unhashable type").

Definition tools_ok (kind : text) (entry : dict text json) : result bool :=
  let check expected := match get entry "tools" with JArr tools => issubset expected tools | _ => Ret false end in
  if bool_decide (kind = txt "worker") then check WORKER_MANIFEST_TOOLS
  else if bool_decide (kind = txt "router") then check ROUTER_MANIFEST_TOOLS
  else Ret true.

(** One entry of the results: what it adds to the accepted combinations *)
Definition accept_entry (v : json) : result (option (text * text * option text)) :=
  match v with
  | JObj entry =>
      if negb (is_true (get entry "accepted")) then Ret None
      else match get entry "kind", get entry "model", opt_str (get entry "effort"), get entry "request_kwargs" with
           | JStr kind, JStr model, Some effort, JObj kwargs =>
               if negb (request_kwargs_shape_ok kind model effort kwargs) then Ret None
               else ok ←? tools_ok kind entry ;;
                    Ret (if ok then Some (kind, model, effort) else None)
           | _, _, _, _ => Ret None
           end
  | _ => Ret None
  end.

Fixpoint accept_entries (l : list json) : result (list (text * text * option text)) :=
  match l with
  | [] => Ret []
  | v :: l' => a ←? accept_entry v ;; rest ←? accept_entries l' ;; Ret (option_list a ++ rest)
  end.

(** What reading the manifest gives: refused by the reader (with what [exists]
    then says), not JSON, or a value *)
Inductive manifest_bytes := Unreadable (exists_ : bool) | NotJson | Parsed (v : json).

Definition load_manifest_status (current_commit : option text) (tree_dirty : option bool) (bytes : manifest_bytes)
    : result ManifestStatus :=
  let malformed ex := Ret (mkStatus ex None current_commit true []) in
  match bytes with
  | Unreadable ex => malformed ex
  | NotJson => malformed true
  | Parsed (JObj manifest) =>
      match get manifest "results" with
      | JArr results =>
          if negb (eq_int (get manifest "manifest_version") MANIFEST_VERSION) then malformed true
          else
            let source_commit := match get manifest "source_commit" with JStr t => Some t | _ => None end in
            let stale := negb (match current_commit, source_commit with
                               | Some c, Some s => bool_decide (s = c)
                               | _, _ => false
                               end)
                         || negb (bool_decide (tree_dirty = Some false)) in
            accepted ←? accept_entries results ;;
            Ret (mkStatus true source_commit current_commit stale accepted)
      | _ => malformed true
      end
  | Parsed _ => malformed true
  end.

Definition candidate_accepted (c : Candidate) (status : ManifestStatus) : bool :=
  bool_decide ((role_text (cd_role c), cd_model c, effective_effort_for_manifest_lookup c) ∈ ms_accepted status).

Definition judge_accepted (judge_model : text) (status : ManifestStatus) : bool :=
  bool_decide ((txt "judge", judge_model, None) ∈ ms_accepted status).

(** [ManifestError] *)
Definition manifest_error : exn := OtherException "ManifestError".

Definition require_manifest_ok_for_live_run (status : ManifestStatus) (allow_stale : bool) (candidates : list Candidate)
    (judge_model : text) : result unit :=
  if negb (ms_exists status) then Raise manifest_error
  else if ms_stale status && negb allow_stale then Raise manifest_error
  else if existsb (λ c, negb (candidate_accepted c status)) candidates then Raise manifest_error
  else if negb (judge_accepted judge_model status) then Raise manifest_error
  else Ret tt.

(** ** Facts *)

Lemma accept_entries_spec l accepted a :
  accept_entries l = Ret accepted → a ∈ accepted → ∃ v, v ∈ l ∧ accept_entry v = Ret (Some a).
Proof.
  revert accepted. induction l as [|v l IH]; intros accepted; simpl; [intros [= <-] Ha; by apply elem_of_nil in Ha|].
  destruct (accept_entry v) as [o|] eqn:E; [|done]. simpl. destruct (accept_entries l) as [r|] eqn:El; [|done]. simpl.
  intros [= <-]. rewrite elem_of_app. intros [Ha|Ha]; [|destruct (IH r eq_refl Ha) as (w & Hw & Ew); exists w; split; [by right|done]].
  exists v. split; [left|]. destruct o as [b|]; simpl in Ha; [|by apply elem_of_nil in Ha].
  apply list_elem_of_singleton in Ha as <-. done.
Qed.

(** What an accepted entry has shown: its own role, model and effort, with the
    request that was probed for them. *)
Record evidence (entry : dict text json) (kind model : text) (effort : option text) : Prop := {
  ev_accepted : get entry "accepted" = JBool true;
  ev_kind : get entry "kind" = JStr kind;
  ev_model : get entry "model" = JStr model;
  ev_effort : get entry "effort" = match effort with Some e => JStr e | None => JNull end;
  ev_request : ∃ kwargs, get entry "request_kwargs" = JObj kwargs
                         ∧ request_kwargs_shape_ok kind model effort kwargs = true
}.

Lemma accept_entry_spec v kind model effort :
  accept_entry v = Ret (Some (kind, model, effort)) → ∃ entry, v = JObj entry ∧ evidence entry kind model effort.
Proof.
  destruct v as [| | | | | |entry]; simpl; try done. destruct (is_true (get entry "accepted")) eqn:Ea; simpl; [|done].
  destruct (get entry "kind") as [| | | |k| |] eqn:Ek; try done.
  destruct (get entry "model") as [| | | |m| |] eqn:Em; try done.
  destruct (opt_str (get entry "effort")) as [e|] eqn:Ee; [|done].
  destruct (get entry "request_kwargs") as [| | | | | |kw] eqn:Er; try done.
  destruct (request_kwargs_shape_ok k m e kw) eqn:Es; simpl; [|done].
  destruct (tools_ok k entry) as [[]|]; simpl; [|done..]. intros [= <- <- <-].
  exists entry. split; [done|]. split; [by destruct (get entry "accepted") as [|[]| | | | |]|done..| |by exists kw].
  destruct (get entry "effort") as [| | | |t| |]; simpl in Ee; try done; by injection Ee as <-.
Qed.

(** What the preflight established of one candidate: the request it will send was
    probed, with its model and the effort that goes on the wire. *)
Definition probed (results : list json) (c : Candidate) : Prop :=
  ∃ entry kwargs, JObj entry ∈ results
    ∧ get entry "accepted" = JBool true
    ∧ get entry "kind" = JStr (role_text (cd_role c))
    ∧ get entry "request_kwargs" = JObj kwargs
    ∧ get kwargs "model" = JStr (cd_model c)
    ∧ get kwargs "store" = JBool false
    ∧ match effective_effort_for_manifest_lookup c with
      | Some e => ∃ d, get kwargs "reasoning" = JObj d ∧ get d "effort" = JStr e
      | None => get kwargs "reasoning" = JNull
      end.

Lemma reasoning_ok_spec kwargs effort :
  reasoning_ok kwargs effort = true →
  match effort with
  | Some e => ∃ d, get kwargs "reasoning" = JObj d ∧ get d "effort" = JStr e
  | None => get kwargs "reasoning" = JNull
  end.
Proof.
  unfold reasoning_ok. destruct effort as [e|]; destruct (get kwargs "reasoning") as [| | | | | |d]; try done.
  intros He%eq_str_spec. by exists d.
Qed.

Lemma is_false_spec v : is_false v = true → v = JBool false.
Proof. by destruct v as [|[]| | | | |]. Qed.

Lemma effective_idempotent model effort :
  effective_router_reasoning_effort model (effective_router_reasoning_effort model effort)
  = effective_router_reasoning_effort model effort.
Proof. unfold effective_router_reasoning_effort. destruct effort; [done|]. by destruct (default_reasoning_effort_for_model model). Qed.

Lemma accepted_probed results accepted c :
  accept_entries results = Ret accepted →
  (role_text (cd_role c), cd_model c, effective_effort_for_manifest_lookup c) ∈ accepted → probed results c.
Proof.
  intros Ha Hin. destruct (accept_entries_spec _ _ _ Ha Hin) as (v & Hv & Ev).
  destruct (accept_entry_spec _ _ _ _ Ev) as (entry & -> & [E1 E2 E3 E4 (kwargs & E5 & Hs)]). exists entry, kwargs.
  unfold request_kwargs_shape_ok in Hs. unfold effective_effort_for_manifest_lookup in Hs |- *.
  destruct (cd_role c); cbn [role_text] in *.
  - rewrite bool_decide_true in Hs by done. unfold router_shape_ok in Hs. rewrite effective_idempotent, !andb_true_iff in Hs.
    destruct Hs as [[[[[_ Hm] Hr] Hst] _] _]. split_and!; [done..|by apply eq_str_spec|by apply is_false_spec|by apply reasoning_ok_spec].
  - rewrite bool_decide_false, bool_decide_true in Hs by done. unfold worker_shape_ok in Hs. rewrite !andb_true_iff in Hs.
    destruct Hs as [[[[[[_ Hm] Hr] Hst] _] _] _]. split_and!; [done..|by apply eq_str_spec|by apply is_false_spec|by apply reasoning_ok_spec].
Qed.

(** The preflight fails closed: when a live run is let through, the manifest
    was read and understood, every candidate of the run was probed with the very
    model and effort it will send, and, unless the operator overrode it, the
    manifest was made at the commit that is checked out, with nothing modified. *)
Theorem live_run_verified current_commit tree_dirty bytes status allow_stale candidates judge_model :
  load_manifest_status current_commit tree_dirty bytes = Ret status →
  require_manifest_ok_for_live_run status allow_stale candidates judge_model = Ret tt →
  ∃ manifest results,
    bytes = Parsed (JObj manifest) ∧ get manifest "results" = JArr results
    ∧ eq_int (get manifest "manifest_version") MANIFEST_VERSION = true
    ∧ Forall (probed results) candidates
    ∧ (allow_stale = false →
       tree_dirty = Some false ∧ ∃ commit, get manifest "source_commit" = JStr commit ∧ current_commit = Some commit).
Proof.
  intros Hl Hr. unfold require_manifest_ok_for_live_run in Hr.
  destruct (ms_exists status); simpl in Hr; [|done].
  destruct (ms_stale status && negb allow_stale) eqn:Est; [done|].
  destruct (existsb _ candidates) eqn:Ec; [done|]. destruct (judge_accepted judge_model status) eqn:Ej; simpl in Hr; [|done].
  assert (ms_accepted status ≠ []) as Hne.
  { intros E. unfold judge_accepted in Ej. rewrite E in Ej. apply bool_decide_eq_true in Ej. by apply elem_of_nil in Ej. }
  unfold load_manifest_status in Hl. destruct bytes as [ex| |[| | | | | |manifest]]; try (by injection Hl as <-).
  destruct (get manifest "results") as [| | | | |results|] eqn:Ers; try (by injection Hl as <-).
  destruct (eq_int (get manifest "manifest_version") MANIFEST_VERSION) eqn:Ev; simpl in Hl; [|by injection Hl as <-].
  destruct (accept_entries results) as [accepted|] eqn:Ea; [|done]. simpl in Hl. injection Hl as <-. cbn in Est, Ec.
  exists manifest, results. split_and!; [done..| |].
  - apply Forall_forall. intros c Hc. apply (accepted_probed _ _ _ Ea). assert (candidate_accepted c (mkStatus true None None false accepted) = true) as Hcc; [|by apply bool_decide_eq_true in Hcc].
    apply not_false_is_true. intros En. apply not_true_iff_false in Ec. apply Ec, existsb_exists. exists c.
    split; [by apply list_elem_of_In|]. unfold candidate_accepted in En |- *. cbn in En |- *. by rewrite En.
  - intros ->. rewrite andb_true_r in Est. apply orb_false_iff in Est as [E1 E2].
    apply negb_false_iff in E1. apply negb_false_iff, bool_decide_eq_true in E2. split; [done|].
    destruct current_commit as [cc|]; [|done]. destruct (get manifest "source_commit") as [| | | |sc| |]; try done.
    apply bool_decide_eq_true in E1 as <-. by exists sc.
Qed.

(** The docstring says that loading never raises; a tool that is an object in an
    accepted entry raises. *)
Definition odd_manifest : json :=
  JObj [(txt "manifest_version", JInt 1); (txt "source_commit", JStr (txt "c0"));
        (txt "results", JArr
           [JObj [(txt "accepted", JBool true); (txt "kind", JStr (txt "router")); (txt "model", JStr (txt "m"));
                  (txt "tools", JArr [JStr (txt "text"); JObj []]);
                  (txt "request_kwargs", JObj [(txt "model", JStr (txt "m")); (txt "input", JStr (txt "p"));
                                               (txt "store", JBool false); (txt "text", JObj [])])]])].

Lemma loading_can_raise :
  load_manifest_status (Some (txt "c0")) (Some false) (Parsed odd_manifest) = Raise (TypeError "unhashable type").
Proof. vm_compute. reflexivity. Qed.

(** A manifest that lets a run of one candidate through *)
Definition sample_candidate : Candidate := mkCandidate (txt "baseline") RouterRole (txt "gpt-5-mini") None.

Definition sample_kwargs (extra : dict text json) : dict text json := (txt "model", JStr (txt "gpt-5-mini")) :: extra.

Definition sample_manifest : json :=
  JObj [(txt "manifest_version", JInt 1); (txt "source_commit", JStr (txt "c0"));
        (txt "results", JArr
           [JObj [(txt "accepted", JBool true); (txt "kind", JStr (txt "router")); (txt "model", JStr (txt "gpt-5-mini"));
                  (txt "effort", JStr (txt "minimal")); (txt "tools", JArr [JStr (txt "text")]);
                  (txt "request_kwargs",
                     JObj (sample_kwargs [(txt "input", JStr (txt "p")); (txt "store", JBool false); (txt "text", JObj []);
                                          (txt "reasoning", JObj [(txt "effort", JStr (txt "minimal"))])]))];
            JObj [(txt "accepted", JBool true); (txt "kind", JStr (txt "judge")); (txt "model", JStr (txt "gpt-5-mini"));
                  (txt "request_kwargs",
                     JObj (sample_kwargs [(txt "reasoning_effort", JStr (txt "minimal"));
                                          (txt "messages", JArr [JObj [(txt "role", JStr (txt "user"));
                                                                       (txt "content", JStr (txt "p"))]])]))]])].

Definition sample_status : ManifestStatus :=
  mkStatus true (Some (txt "c0")) (Some (txt "c0")) false
    [(txt "router", txt "gpt-5-mini", Some (txt "minimal")); (txt "judge", txt "gpt-5-mini", None)].

Lemma live_run_verified_witness :
  ∃ manifest results,
    Parsed sample_manifest = Parsed (JObj manifest) ∧ get manifest "results" = JArr results
    ∧ Forall (probed results) [sample_candidate].
Proof.
  destruct (live_run_verified (Some (txt "c0")) (Some false) (Parsed sample_manifest) sample_status false [sample_candidate]
              (txt "gpt-5-mini")) as (m & r & E1 & E2 & _ & E3 & _); [vm_compute; reflexivity..|].
  by exists m, r.
Defined.
