(* ===== verification/EvalRun.v ===== *)
(** An evaluation run ([src/scripts/eval_model_comparison.py]): scoring a turn,
    running a cell and a matrix, the verdict and the report, and [main] up to the
    report.

    What a run meets is an argument: how the host answers a query, what its state
    and its metrics then say, what the judge answers, and which of the calls that
    build and close sessions raise.  Calls that cost money are recorded in order.
    An exception is its class and its message. *)

From Stdlib Require Import Qround.
From S2P Require Import Prelude PyDict PyText PyValue ConfigLayers Config TurnIds EvalCommon EvalMatrix EvalManifest EvalVote.

(** How Python prints what the messages quote *)
Class Printing := {
  str_repr : text → text;                  (* [repr] of a string *)
  printed_runtime :: PyRuntime
}.

Inductive paid_call := HostCall (query : text) | JudgeCall (query : text).

(** ** What a run meets *)

Record Reply := mkReply { re_ui_text : text; re_turn_id : text; re_worker_id : text; re_citations : list text }.

(** What [_handle_transcript] returns beside results *)
Inductive item := INone | IText (t : text) | IReply (r : Reply).

Inductive handled := HTimeout | HRaise (e : exc) | HOne (i : item) | HTuple (l : list item).

Inductive judged := JudgeTimeout | JudgeRaise (e : exc) | Judged (verdict : JudgeVerdict) (reason : text).

Record TurnAnswer := mkAnswer {
  an_handled : handled;
  an_elapsed_ms : Q;
  an_routing : option (text * text);
  an_workers : list (text * (option text * option text));    (* id, model and effort *)
  an_records : list MeasurementRecord;
  an_judged : judged
}.

Record CellEnv := mkCellEnv {
  ce_import : option exc;
  ce_session : option exc;
  ce_judge_service : option exc;
  ce_connect : option exc;               (* the judge, [host.start] and [host.connect] *)
  ce_turn : nat → TurnAnswer;
  ce_shutdown : option exc;
  ce_close_judge : option exc;
  ce_close_clients : option exc
}.

Definition SAFE_FALLBACKS : list text :=
  [txt "Routing is temporarily unavailable. Please try that request again.";
   txt "The web search is temporarily unavailable.";
   txt "I could not find a reliable result for that request.";
   txt "The search service is busy; please try again shortly.";
   txt "The pending web request could not be completed.";
   txt "I cannot access that capability here."].

Definition TIMEOUT_FALLBACKS : list text :=
  [txt "That is taking longer than expected; I will continue in the background."].

Definition JUDGE_INFRA_ERROR_REASON_PREFIXES : list text :=
  [txt "judge call failed"; txt "judge returned empty response"; txt "could not parse judge response"].

Definition starts_with (t p : text) : bool := match prefix_of_text p t with Some _ => true | None => false end.

(** [round(q, 1)]: to the nearest tenth, ties to the even one *)
Definition round1 (q : Q) : Q :=
  let z := Qfloor (q * 10) in
  let r := (q * 10 - inject_Z z)%Q in
  let up := Qltb (1 # 2) r || (Qeq_bool r (1 # 2) && Z.odd z) in
  ((if up then z + 1 else z)%Z # 10)%Q.

Definition exc_of (e : exn) : exc :=
  match e with
  | ValueError m => (txt "ValueError", txt m)
  | RuntimeError m => (txt "RuntimeError", txt m)
  | TypeError m => (txt "TypeError", txt m)
  | KeyError => (txt "KeyError", [])
  | ConfigError m => (txt "ConfigError", txt m)
  | RoutingValidationError m => (txt "RoutingValidationError", txt m)
  | WorkerClarify q => (txt "WorkerClarify", txt q)
  | WorkerDeclined => (txt "WorkerDeclined", [])
  | OtherException c => (txt c, [])
  end.

(** [str(v)] of a string or [None] *)
Definition show_opt (t : option text) : text := default (txt "None") t.

Section run.
Context `{Printing} `{HostEnv}.
Context (max_routing_seconds max_latency_seconds : Q).

(** ** The configuration of a cell *)

(** [max] and [min] give their first argument unless the second is beyond it. *)
Definition float_max (a b : pyfloat) : pyfloat := if float_lt a b then b else a.
Definition float_min (a b : pyfloat) : pyfloat := if float_lt b a then b else a.

Definition effort_policy (label : string) (effort : option text) : dict text text :=
  match effort with Some e => [(txt label, e)] | None => [] end.

Definition per_run_config (base : Config) (p : RunPair) : result Config :=
  let foreground := (max_latency_seconds + 30)%Q in
  let provider := float_max (provider_timeout_seconds base) (Finite (foreground + 15)) in
  let router := float_min (float_max (router_timeout_seconds base) (Finite (max_routing_seconds + 5))) provider in
  post_init (base <| router_model_policy := [(txt "fast", cd_model (rp_router p))] |>
                  <| worker_model_policy := [(txt "deep", cd_model (rp_worker p))] |>
                  <| router_reasoning_effort_policy := effort_policy "fast" (cd_effort (rp_router p)) |>
                  <| worker_reasoning_effort_policy := effort_policy "deep" (cd_effort (rp_worker p)) |>
                  <| router_timeout_seconds := router |>
                  <| foreground_search_timeout_seconds := Finite foreground |>
                  <| provider_timeout_seconds := provider |>).

Definition credential_of (c : Config) : option text :=
  match openai_api_key c with Some (PStr t) => Some t | _ => None end.

(** ** Scoring a turn *)

Inductive turn_end :=
| Appended (o : TurnOutcome) (checked : list text)       (* the loop goes on *)
| Stopped (o : TurnOutcome) (status : CellStatus) (error : text)
| Escaped (e : exc).                                     (* to the handler around the loop *)

(** Every worker not checked before must run the candidate's model and effort. *)
Fixpoint check_workers (p : RunPair) (checked : list text) (workers : list (text * (option text * option text)))
    : list text * option text :=
  match workers with
  | [] => (checked, None)
  | (worker_id, (model, effort)) :: workers' =>
      if bool_decide (worker_id ∈ checked) then check_workers p checked workers'
      else if bool_decide (model = Some (cd_model (rp_worker p))) && bool_decide (effort = cd_effort (rp_worker p))
      then check_workers p (worker_id :: checked) workers'
      else (worker_id :: checked,
            Some (txt "worker config did not resolve to the candidate: got " ++ show_opt model ++ 64%N :: show_opt effort
                  ++ txt ", wanted " ++ cd_model (rp_worker p) ++ 64%N :: show_opt (cd_effort (rp_worker p))))
  end.

(** [any(f(r) for r in results)]; only a result has the attribute *)
Fixpoint any_reply (f : Reply → bool) (l : list item) : result bool :=
  match l with
  | [] => Ret false
  | IReply r :: l' => if f r then Ret true else any_reply f l'
  | _ :: _ => Raise (OtherException "AttributeError")
  end.

Definition delegated (routing_action : option text) (results : list item) : result bool :=
  if bool_decide (routing_action ∈ [Some (txt "new_worker"); Some (txt "existing_worker")]) then Ret true
  else any_reply (λ r, negb (bool_decide (re_worker_id r = txt "main"))) results.

Definition is_multi_intent_item_turn_id (records : list MeasurementRecord) (result_turn_id : text) : result bool :=
  split ←? split_multi_intent_turn_id result_turn_id ;;
  Ret match split with
      | None => false
      | Some (base, _) =>
          existsb (λ r, bool_decide (mr_event r = txt "app_turn_foreground" ∧ mr_turn_id r = Some base)) records
      end.

(** The measured stages, or that there are none to be had; a turn without its
    metric is a turn error. *)
Inductive measured := Measured (s : StageMetrics) | PerItem | Missing | MeasureRaised (e : exn).

Definition measure_turn (a : TurnAnswer) (turn_id : text) : measured :=
  match latest_turn_stage_metrics (an_records a) (an_elapsed_ms a) turn_id with
  | Ret s => Measured s
  | Raise (RuntimeError _) =>
      match is_multi_intent_item_turn_id (an_records a) turn_id with
      | Ret true => PerItem
      | Ret false => Missing
      | Raise e => MeasureRaised e
      end
  | Raise e => MeasureRaised e
  end.

Definition record_stages (p : RunPair) (s : StageMetrics) (o : TurnOutcome) : TurnOutcome :=
  let routing := round1 (st_routing_ms s) in
  let total := round1 (st_total_ms s) in
  o <| routing_ms := Some routing |> <| search_ms := Some (round1 (st_search_ms s)) |> <| total_ms := Some total |>
    <| latency_budget_enforced := enforce_latency_budget p |>
    <| latency_budget_exceeded := budget_exceeded (Some routing) (Some total) max_routing_seconds max_latency_seconds |>.

Definition judge_turn (credential : option text) (t : Turn) (j : judged) (o : TurnOutcome) : TurnOutcome * list paid_call :=
  if negb (judged_turn t) then (o, [])
  else
    (match j with
     | JudgeTimeout =>
         o <| judge_verdict := Some VJudgeError |>
           <| judge_reason := Some (txt "judge.evaluate() exceeded the runner's 60.0s timeout") |>
     | JudgeRaise e =>
         o <| judge_verdict := Some VJudgeError |>
           <| judge_reason := Some (txt "judge.evaluate() raised: " ++ error_text e credential 2000) |>
     | Judged verdict reason =>
         o <| judge_verdict :=
                Some (if existsb (starts_with reason) JUDGE_INFRA_ERROR_REASON_PREFIXES then VJudgeError else verdict) |>
           <| judge_reason := Some (sanitize_reason reason credential 2000) |>
     end, [JudgeCall (tn_query t)]).

(** The assertions that need no measurement *)
Definition assert_action (t : Turn) (routing_action : option text) (o : TurnOutcome) : TurnOutcome :=
  match tn_expect_action t with
  | None => o
  | Some expected =>
      match routing_action with
      | None =>
          o <| deterministic_action_unevaluated_reason :=
                 Some (txt "routing_action was unavailable for this turn (stale or missing host.state.routing read); the deterministic action assertion never ran") |>
      | Some action => o <| deterministic_action_pass := Some (bool_decide (action = expected)) |>
      end
  end.

Definition stop (o : TurnOutcome) (turn_status : TurnStatus) (cell_status : CellStatus) (error cell_error : text) : turn_end :=
  Stopped (o <| to_status := turn_status |> <| to_error := Some error |>) cell_status cell_error.

(** The turn of a result that carries text *)
Definition score_reply (p : RunPair) (credential : option text) (t : Turn) (a : TurnAnswer) (results : list item) (r : Reply)
    (checked : list text) : turn_end * list paid_call :=
  let o := new_outcome (tn_query t) TOk in
  if bool_decide (re_ui_text r ∈ TIMEOUT_FALLBACKS)
  then let msg := txt "host returned the foreground-search-timeout placeholder" in (stop o TTimeout CTimeout msg msg, [])
  else
  let routing_action := turn_correlated_routing_action (an_routing a) (re_turn_id r) in
  if bool_decide (re_ui_text r ∈ SAFE_FALLBACKS) && negb (bool_decide (routing_action = Some (txt "unsupported")))
  then let msg := txt "host returned a safe fallback" in (stop o TProviderError CProviderError msg msg, [])
  else
  match check_workers p checked (an_workers a) with
  | (_, Some msg) => (stop o TSetupError CSetupError msg msg, [])
  | (checked, None) =>
      let o := assert_action t routing_action o in
      match delegated routing_action results with
      | Raise e => (Escaped (exc_of e), [])
      | Ret d =>
          let o := o <| worker_presence_pass := Some (Bool.eqb d (tn_expect_delegated t)) |> in
          match (if tn_expect_citations t then c ←? any_reply (λ r, negb (bool_decide (re_citations r = []))) results ;; Ret (Some c)
                 else Ret None) with
          | Raise e => (Escaped (exc_of e), [])
          | Ret c =>
              let o := o <| citations_pass := c |> in
              match measure_turn a (re_turn_id r) with
              | MeasureRaised e => (Escaped (exc_of e), [])
              | Missing =>
                  (Appended (o <| to_status := TTurnError |>
                               <| to_error := Some (txt "no app_turn_foreground metric was emitted for turn_id="
                                                    ++ str_repr (re_turn_id r)) |>) checked, [])
              | PerItem => let (o, calls) := judge_turn credential t (an_judged a) o in (Appended o checked, calls)
              | Measured s =>
                  let (o, calls) := judge_turn credential t (an_judged a) (record_stages p s o) in (Appended o checked, calls)
              end
          end
      end
  end.

Definition wait_for_text (c : Config) : text :=
  float_repr match router_timeout_seconds c, foreground_search_timeout_seconds c with
             | Finite a, Finite b => Finite (a + b + 10)
             | f, _ => f
             end.

Definition type_name (i : item) : text := match i with INone => txt "NoneType" | IText _ => txt "str" | IReply _ => txt "GroundedResult" end.

Definition run_turn (p : RunPair) (c : Config) (t : Turn) (a : TurnAnswer) (checked : list text) : turn_end * list paid_call :=
  let o := new_outcome (tn_query t) TOk in
  let results := match an_handled a with HTuple l => l | HOne i => [i] | _ => [] end in
  let '(e, calls) :=
    match an_handled a with
    | HTimeout =>
        (stop o TTimeout CTimeout (txt "turn exceeded the runner's " ++ wait_for_text c ++ txt "s wait_for budget")
           (txt "turn " ++ str_repr (tn_query t) ++ txt " timed out"), [])
    | HRaise e => let msg := error_text e (credential_of c) 2000 in (stop o TProviderError CProviderError msg msg, [])
    | _ =>
        match results with
        | [] => let msg := txt "expected at least one result, received none" in
                (stop o TProviderError CProviderError msg msg, [])
        | IReply r :: _ => score_reply p (credential_of c) t a results r checked
        | i :: _ =>
            let msg := txt "_handle_transcript returned " ++ type_name i
                       ++ txt " instead of a result with .ui_text (e.g. the background-status no-op path, or a bare str transcript)" in
            (stop o TProviderError CProviderError msg msg, [])
        end
    end in
  (e, HostCall (tn_query t) :: calls).

(** ** A cell *)

Record CellRun := mkRun { cr_turns : list TurnOutcome; cr_status : CellStatus; cr_error : option text; cr_calls : list paid_call }.

Fixpoint run_turns (p : RunPair) (c : Config) (answers : nat → TurnAnswer) (i : nat) (turns : list Turn) (checked : list text)
    : CellRun :=
  match turns with
  | [] => mkRun [] COk None []
  | t :: turns' =>
      match run_turn p c t (answers i) checked with
      | (Appended o checked', calls) =>
          let r := run_turns p c answers (S i) turns' checked' in
          mkRun (o :: cr_turns r) (cr_status r) (cr_error r) (calls ++ cr_calls r)
      | (Stopped o status error, calls) => mkRun [o] status (Some error) calls
      | (Escaped e, calls) =>
          mkRun [new_outcome (tn_query t) TTurnError] CTurnError (Some (error_text e (credential_of c) 2000)) calls
      end
  end.

Definition skipped_turn_outcomes (s : Scenario) (already_run : nat) : list TurnOutcome :=
  (λ t, new_outcome (tn_query t) TSkipped) <$> drop already_run (sn_turns s).

Definition never_ran_cell (p : RunPair) (s : Scenario) (status : CellStatus) (error : text) (c : option Config) : CellOutcome :=
  mkCell (pair_label p) (sn_name s) status (Some error) (Some (skipped_turn_outcomes s 0))
    (router_timeout_seconds <$> c) (foreground_search_timeout_seconds <$> c) None.

(** An exception before the first turn *)
Definition setup_failed (c : option Config) (e : exc) : CellRun :=
  mkRun [] CSetupError (Some (error_text e (c ≫= credential_of) 2000)) [].

(** The steps of [finally]: a failure to clean up is reported only for a cell
    that has nothing else to report. *)
Definition cleanup (credential : option text) (what : string) (applies : bool) (e : option exc) (r : CellRun) : CellRun :=
  match e with
  | Some e =>
      if applies && bool_decide (cr_status r = COk)
      then mkRun (cr_turns r) CTurnError (Some (txt what ++ txt "() raised: " ++ error_text e credential 2000)) (cr_calls r)
      else r
  | None => r
  end.

Definition finish_cell (p : RunPair) (s : Scenario) (env : CellEnv) (c : option Config) (host judge : bool) (r : CellRun)
    : CellOutcome * list paid_call :=
  let credential := c ≫= credential_of in
  let r := cleanup credential "host.shutdown" host (ce_shutdown env) r in
  let r := cleanup credential "close_judge_llm_service" judge (ce_close_judge env) r in
  let r := cleanup credential "close_session_provider_clients" host (ce_close_clients env) r in
  let turns := if bool_decide (cr_status r = COk) then cr_turns r
               else cr_turns r ++ skipped_turn_outcomes s (length (cr_turns r)) in
  (mkCell (pair_label p) (sn_name s) (cr_status r) (cr_error r) (Some turns)
     (router_timeout_seconds <$> c) (foreground_search_timeout_seconds <$> c) None, cr_calls r).

(** What the per-run configuration resolves the router to *)
Definition resolved_router (c : Config) : result (text * option text) :=
  m ←? resolve_router_model c (txt "fast") ;; e ←? resolve_router_reasoning_effort c (txt "fast") ;; Ret (m, e).

Definition run_cell (p : RunPair) (s : Scenario) (base : Config) (env : CellEnv) : CellOutcome * list paid_call :=
  match ce_import env with
  | Some e => finish_cell p s env None false false (setup_failed None e)
  | None =>
  match per_run_config base p with
  | Raise e => finish_cell p s env None false false (setup_failed None (exc_of e))
  | Ret c =>
  match resolved_router c with
  | Raise e => finish_cell p s env (Some c) false false (setup_failed (Some c) (exc_of e))
  | Ret (model, effort) =>
      if negb (bool_decide (model = cd_model (rp_router p)) && bool_decide (effort = cd_effort (rp_router p)))
      then (never_ran_cell p s CSetupError
              (txt "router config did not resolve to the candidate: got " ++ model ++ 64%N :: show_opt effort
               ++ txt ", wanted " ++ cd_model (rp_router p) ++ 64%N :: show_opt (cd_effort (rp_router p))) (Some c), [])
      else
      match ce_session env, ce_judge_service env, ce_connect env with
      | Some e, _, _ => finish_cell p s env (Some c) false false (setup_failed (Some c) e)
      | None, Some e, _ => finish_cell p s env (Some c) true false (setup_failed (Some c) e)
      | None, None, Some e => finish_cell p s env (Some c) true true (setup_failed (Some c) e)
      | None, None, None =>
          finish_cell p s env (Some c) true true (run_turns p c (ce_turn env) 0 (sn_turns s) [])
      end
  end end end.

(** ** The matrix *)

Definition run_repeats (status : ManifestStatus) (repeat_count : nat) (base : Config) (p : RunPair) (s : Scenario)
    (env : nat → CellEnv) : result CellOutcome * list paid_call :=
  if negb (candidate_accepted (rp_router p) status) || negb (candidate_accepted (rp_worker p) status)
  then (aggregate_cell_repeats max_routing_seconds max_latency_seconds (pair_label p) (sn_name s)
          (replicate repeat_count
             (never_ran_cell p s CManifestRejected (txt "one or both candidates are absent from the manifest") None)), [])
  else
    let runs := (λ k, run_cell p s base (env k)) <$> seq 0 repeat_count in
    (aggregate_cell_repeats max_routing_seconds max_latency_seconds (pair_label p) (sn_name s) runs.*1,
     concat runs.*2).

(** [for pair in pairs: for scenario in scenarios] *)
Definition matrix_cells (pairs : list RunPair) (scenarios : list Scenario) : list (RunPair * Scenario) :=
  pairs ≫= (λ p, (λ s, (p, s)) <$> scenarios).

Fixpoint run_cells (status : ManifestStatus) (repeat_count : nat) (base : Config) (env : nat → nat → CellEnv) (i : nat)
    (cells : list (RunPair * Scenario)) : result (list CellOutcome) * list paid_call :=
  match cells with
  | [] => (Ret [], [])
  | (p, s) :: cells' =>
      match run_repeats status repeat_count base p s (env i) with
      | (Raise e, calls) => (Raise e, calls)
      | (Ret o, calls) =>
          let (r, calls') := run_cells status repeat_count base env (S i) cells' in
          (outcomes ←? r ;; Ret (o :: outcomes), calls ++ calls')
      end
  end.

(** The environment of the [k]th repetition of the [i]th cell is [env i k]. *)
Definition run_matrix (pairs : list RunPair) (scenarios : list Scenario) (base : Config) (status : ManifestStatus)
    (repeat_count : Z) (env : nat → nat → CellEnv) : result (list CellOutcome) * list paid_call :=
  if (repeat_count <? 1)%Z then (Raise (ValueError "repeat_count must be at least 1"), [])
  else run_cells status (Z.to_nat repeat_count) base env 0 (matrix_cells pairs scenarios).

(** ** The verdict *)

Definition cell_label (c : CellOutcome) : text := co_pair_label c ++ 47%N :: co_scenario_name c.

(** The reasons of one turn, below their common prefix *)
Definition turn_failure_reasons (label : text) (t : TurnOutcome) : list text :=
  let reason kind what := txt kind ++ txt ": " ++ label ++ 32%N :: str_repr (to_query t) ++ txt " " ++ what in
  if negb (bool_decide (to_status t = TOk)) then
    [reason "infra" (txt "turn status=" ++ str_repr (turn_status_text (to_status t))
                     ++ match nonempty (to_error t) with Some e => txt " (" ++ str_repr e ++ txt ")" | None => [] end)]
  else
    match judge_verdict t with
    | Some VJudgeError => [reason "infra" (txt "judge-error (" ++ default (txt "None") (str_repr <$> judge_reason t) ++ txt ")")]
    | Some VNo => [reason "semantic" (txt "judge verdict=no")]
    | Some VContinue => [reason "semantic" (txt "judge verdict=continue")]
    | _ => []
    end
    ++ match deterministic_action_pass t with
       | Some false => [reason "semantic" (txt "deterministic action assertion failed")]
       | _ => []
       end
    ++ match deterministic_action_unevaluated_reason t with
       | Some r => [reason "infra" (txt "deterministic action assertion requested but unevaluated (" ++ str_repr r ++ txt ")")]
       | None => []
       end
    ++ match worker_presence_pass t with
       | Some false => [reason "semantic" (txt "worker presence/absence assertion failed")]
       | _ => []
       end
    ++ match citations_pass t with
       | Some false => [reason "semantic" (txt "citations assertion failed")]
       | _ => []
       end
    ++ match latency_budget_exceeded t with
       | Some true => if latency_budget_enforced t then [reason "semantic" (txt "enforced latency budget exceeded")] else []
       | _ => []
       end.

Definition cell_failure_reasons (c : CellOutcome) : list text :=
  let label := cell_label c in
  (if bool_decide (co_status c ≠ COk)
   then [txt "infra: " ++ label ++ txt " cell status=" ++ str_repr (cell_status_text (co_status c))] else [])
  ++ (default [] (co_turns c) ≫= turn_failure_reasons label).

Definition clean_cell (c : CellOutcome) : bool := bool_decide (cell_failure_reasons c = []).

Definition repeat_reasons (c : CellOutcome) : list text :=
  match co_repeats c with
  | None => []
  | Some repeats =>
      let clean_repeats := length (filter (λ r, clean_cell r = true) repeats) in
      if (clean_repeats * 2 <=? length repeats)%nat
      then [txt "repeat: " ++ cell_label c ++ txt " only " ++ ratio_text clean_repeats (length repeats)
            ++ txt " repetitions passed every assertion end-to-end (no strict majority of clean repeats)"]
      else []
  end.

Definition overall_status (reasons : list text) : text := match reasons with [] => txt "PASS" | _ => txt "FAIL" end.

Definition compute_pass_fail (outcomes : list CellOutcome) : text * list text :=
  let reasons := outcomes ≫= (λ c, repeat_reasons c ++ cell_failure_reasons c) in
  (overall_status reasons, reasons).

End run.
