(* ===== verification/EvalReport.v ===== *)
(** The report of an evaluation run and [main]
    ([src/scripts/eval_model_comparison.py], the scenarios of
    [src/evals/scenarios.py]).

    [main] is followed from the parsed arguments to its exit code.  What it reads
    from outside is a record; printing is left out.  The report is a record: how
    its fields are written as JSON is left out. *)

From stdpp Require Import sorting.
From S2P Require Import Prelude PyDict PyText PyValue Json ConfigLayers Config EvalCommon EvalMatrix EvalManifest EvalVote EvalRun.

(** ** The scenarios of the suite *)

Definition DEFAULT_QUERY : text := txt "What is the latest stable Pipecat release?".

Definition SINGLE_TURN_DEFAULT : Scenario :=
  mkScenario (txt "single-turn-default")
    [mkTurn DEFAULT_QUERY
       (Some (txt "The reply states a specific Pipecat release version number and does not claim to be unable to answer or refuse the request."))
       None true true].

Definition ROUTING_REGRESSION : Scenario :=
  mkScenario (txt "routing-regression")
    [mkTurn (txt "Hi.") None (Some (txt "direct")) false false;
     mkTurn (txt "Tell me the weather in Riga. For today.")
       (Some (txt "The reply names a specific weather condition or temperature for Riga.")) None true false;
     mkTurn (txt "Could you tell me the weather in Helsinki today?")
       (Some (txt "The reply names a specific weather condition or temperature for Helsinki.")) None true false].

Definition SCENARIOS : list Scenario := [SINGLE_TURN_DEFAULT; ROUTING_REGRESSION].

Definition resolve_scenarios (name : option text) : result (list Scenario) :=
  match name with
  | None => Ret SCENARIOS
  | Some n => match last (filter (λ s, sn_name s = n) SCENARIOS) with Some s => Ret [s] | None => Raise KeyError end
  end.

Section report.
Context `{Printing} `{HostEnv}.

(** ** The shipped cells *)

Record ShippedCells := mkShipped { sc_router_cells : list text; sc_worker_cells : list text; sc_unmatched_roles : list role }.

(** Labels of the outcomes that are not labels of a pair *)
Definition unmatched_label (pairs : list RunPair) (labels : list text) : option text :=
  head (filter (λ l, l ∉ pair_label <$> pairs) labels).

(** Of two pairs of one label a dictionary keeps the last. *)
Definition pair_of_label (pairs : list RunPair) (label : text) : option RunPair :=
  last (filter (λ p, pair_label p = label) pairs).

Definition cells_of (pairs : list RunPair) (side : RunPair → Candidate) (c : Candidate) (labels : list text) : list text :=
  filter (λ l, (candidate_wire_key ∘ side) <$> pair_of_label pairs l = Some (candidate_wire_key c)) labels.

Definition shipped_config_cells_annotation (outcomes : list CellOutcome) (shipped : Candidate * Candidate)
    (pairs : list RunPair) : ShippedCells + text :=
  let labels := sorted_set (co_pair_label <$> outcomes) in
  match unmatched_label pairs labels with
  | Some l =>
      inr (txt "_shipped_config_cells_annotation: outcome pair_label " ++ str_repr l
           ++ txt " has no matching RunPair in `pairs` -- outcomes must be produced from these pairs")
  | None =>
      inl (mkShipped (cells_of pairs rp_router shipped.1 labels) (cells_of pairs rp_worker shipped.2 labels)
             ((if is_registered_candidate shipped.1 ALL_ROUTER_CANDIDATES then [] else [RouterRole])
              ++ (if is_registered_candidate shipped.2 ALL_WORKER_CANDIDATES then [] else [WorkerRole])))
  end.

(** ** The report *)

Record Report := mkReport {
  rep_repetition_count_per_cell : Z;
  rep_call_accounting : option CallAccounting;
  rep_cells : list CellOutcome;
  rep_shipped_config_cells : option (ShippedCells + text);
  rep_overall_status : text;
  rep_failure_reasons : list text
}.

Definition observed_repeats (c : CellOutcome) : nat := match co_repeats c with Some l => length l | None => 1 end.

(** The numbers of repetitions that the cells have, in order *)
Definition observed_text (outcomes : list CellOutcome) : text :=
  txt "[" ++ join_with (txt ", ") (nat_text <$> merge_sort (≤)%nat (remove_dups (observed_repeats <$> outcomes))) ++ txt "]".

Definition mismatch_reasons (outcomes : list CellOutcome) (repeat_count : Z) : list text :=
  if existsb (λ c, negb (Z.of_nat (observed_repeats c) =? repeat_count)%Z) outcomes
  then [txt "repeat_count mismatch: declared " ++ decimal_Z repeat_count ++ txt ", observed " ++ observed_text outcomes]
  else [].

Definition annotation_reasons (a : option (ShippedCells + text)) : list text :=
  match a with Some (inr e) => [txt "shipped-cell annotation failed: " ++ e] | _ => [] end.

Definition build_report (outcomes : list CellOutcome) (accounting : option CallAccounting) (repeat_count : Z)
    (shipped_cells : option ((Candidate * Candidate) * list RunPair)) : Report :=
  let annotation := (λ sc : (Candidate * Candidate) * list RunPair, shipped_config_cells_annotation outcomes sc.1 sc.2)
                    <$> shipped_cells in
  let reasons := (compute_pass_fail outcomes).2 ++ mismatch_reasons outcomes repeat_count ++ annotation_reasons annotation in
  mkReport repeat_count accounting outcomes annotation (overall_status reasons) reasons.

(** ** [main] *)

Record Args := mkArgs {
  ar_dry_run : bool;
  ar_full_matrix : bool;
  ar_repeat : Z;
  ar_router : option text;
  ar_worker : option text;
  ar_scenario : option text;
  ar_max_calls : option Z;
  ar_max_cost : option Q;
  ar_yes : bool;
  ar_allow_stale : bool;
  ar_judge_model : text;
  ar_max_routing_seconds : Q;
  ar_max_latency_seconds : Q;
  ar_out : bool                        (* given on the command line *)
}.

Record Outside := mkOutside {
  os_out_confined : bool;              (* [confined_output_path] accepts the path *)
  os_current_commit : option text;
  os_tree_dirty : option bool;
  os_manifest : manifest_bytes;
  os_config : result Config;           (* [load_config()] *)
  os_shipped_config : result Config;   (* the shipped file with an empty environment *)
  os_operator : answer;
  os_cell : nat → nat → CellEnv;
  os_write : bool                      (* confining and writing the report succeed *)
}.

Inductive main_end := Exited (code : Z) | Crashed (e : exn).

(** How a run ends, what it paid for, and the report it wrote *)
Record MainRun := mkMain { mn_end : main_end; mn_calls : list paid_call; mn_written : option Report }.

Definition refused (code : Z) : MainRun := mkMain (Exited code) [] None.
Definition crashed (e : exn) : MainRun := mkMain (Crashed e) [] None.

Definition run_candidates (pairs : list RunPair) : list Candidate := pairs ≫= (λ p, [rp_router p; rp_worker p]).

Definition live_run (a : Args) (o : Outside) (g : Registry) (pairs : list RunPair) (scenarios : list Scenario)
    (status : ManifestStatus) (base : Config) (shipped : Candidate * Candidate) : MainRun :=
  let accounting := matrix_call_accounting pairs scenarios (ar_repeat a) in
  if negb (confirm_spend accounting (ar_max_calls a) (ar_max_cost a) (ar_yes a) (os_operator o)) then refused 1
  else
  match run_matrix (ar_max_routing_seconds a) (ar_max_latency_seconds a) pairs scenarios base status (ar_repeat a) (os_cell o) with
  | (Raise e, calls) => mkMain (Crashed e) calls None
  | (Ret outcomes, calls) =>
      let report := build_report outcomes (Some accounting) (ar_repeat a) (Some (shipped, pairs)) in
      if negb (os_write o) then mkMain (Exited 1) calls None
      else mkMain (Exited (if bool_decide (rep_overall_status report = txt "PASS") then 0 else 1)) calls (Some report)
  end.

Definition main (a : Args) (o : Outside) (g : Registry) : MainRun :=
  if ar_full_matrix a && (bool_decide (is_Some (ar_router a)) || bool_decide (is_Some (ar_worker a))) then refused 2
  else if ar_out a && negb (os_out_confined o) then refused 1
  else
  match resolve_pairs g (ar_router a) (ar_worker a) (ar_full_matrix a) with
  | Raise e => if bool_decide (e = pair_invariant_error) then refused 1 else crashed e
  | Ret pairs =>
  match resolve_scenarios (ar_scenario a) with
  | Raise e => crashed e
  | Ret scenarios =>
  match load_manifest_status (os_current_commit o) (os_tree_dirty o) (os_manifest o) with
  | Raise e => crashed e
  | Ret status =>
      if ar_dry_run a then refused 0
      else
      match require_manifest_ok_for_live_run status (ar_allow_stale a) (run_candidates pairs) (ar_judge_model a) with
      | Raise _ => refused 1
      | Ret _ =>
          match os_config o with
          | Raise e => crashed e
          | Ret base =>
              if negb match openai_api_key base with Some v => truthy v | None => false end then refused 1
              else match (c ←? os_shipped_config o ;; shipped_candidates c) with
                   | Raise e => crashed e
                   | Ret shipped => live_run a o g pairs scenarios status base shipped
                   end
          end
      end
  end end end.

End report.
