(* ===== verification/EvalFacts.v ===== *)
(** Facts about evaluation runs: what a clean repetition is, in terms of what the
    run met; that a run passes only when a strict majority of the repetitions of
    every cell was clean, and does when all were. *)

From S2P Require Import Prelude PyDict PyText PyValue Json ConfigLayers Config EvalCommon EvalMatrix EvalManifest EvalVote EvalRun EvalReport ConfigFacts.

Section facts.
Context `{Printing} `{HostEnv}.
Context (max_routing_seconds max_latency_seconds : Q).
Implicit Types (p : RunPair) (t : Turn) (s : Scenario) (a : TurnAnswer) (o : TurnOutcome).

Local Abbreviation run_turn := (run_turn max_routing_seconds max_latency_seconds).
Local Abbreviation run_turns := (run_turns max_routing_seconds max_latency_seconds).
Local Abbreviation run_cell := (run_cell max_routing_seconds max_latency_seconds).
Local Abbreviation score_reply := (score_reply max_routing_seconds max_latency_seconds).
Local Abbreviation record_stages := (record_stages max_routing_seconds max_latency_seconds).

(** ** What passing means *)

Definition reply_of a : option (list item * Reply) :=
  match an_handled a with
  | HOne (IReply r) => Some ([IReply r], r)
  | HTuple (IReply r :: l) => Some (IReply r :: l, r)
  | _ => None
  end.

(** The stages of the turn are measured and, where the pair enforces the budget,
    within it; the items of a compound turn have no stages of their own. *)
Definition latency_ok p a (turn_id : text) : Prop :=
  match measure_turn a turn_id with
  | Measured m =>
      enforce_latency_budget p = true →
      (round1 (st_routing_ms m) <= max_routing_seconds * 1000)%Q ∧ (round1 (st_total_ms m) <= max_latency_seconds * 1000)%Q
  | PerItem => True
  | _ => False
  end.

Record turn_passed_with p t a (results : list item) (r : Reply) : Prop := {
  tp_no_timeout : re_ui_text r ∉ TIMEOUT_FALLBACKS;
  tp_no_fallback :
    re_ui_text r ∈ SAFE_FALLBACKS →
    turn_correlated_routing_action (an_routing a) (re_turn_id r) = Some (txt "unsupported");
  tp_action : ∀ e, tn_expect_action t = Some e → turn_correlated_routing_action (an_routing a) (re_turn_id r) = Some e;
  tp_delegated : delegated (turn_correlated_routing_action (an_routing a) (re_turn_id r)) results = Ret (tn_expect_delegated t);
  tp_citations :
    tn_expect_citations t = true → any_reply (λ r, negb (bool_decide (re_citations r = []))) results = Ret true;
  tp_judged :
    judged_turn t = true →
    ∃ reason, an_judged a = Judged VYes reason ∧ existsb (starts_with reason) JUDGE_INFRA_ERROR_REASON_PREFIXES = false;
  tp_latency : latency_ok p a (re_turn_id r)
}.

Definition turn_passed p t a : Prop := ∃ results r, reply_of a = Some (results, r) ∧ turn_passed_with p t a results r.

(** Every worker, when it is first seen, runs the candidate's model and effort. *)
Definition first_sightings_ok p (seen : list text) (workers : list (text * (option text * option text))) : Prop :=
  ∀ k id me, workers !! k = Some (id, me) → id ∉ seen → (∀ k' w, (k' < k)%nat → workers !! k' = Some w → w.1 ≠ id) →
             me = (Some (cd_model (rp_worker p)), cd_effort (rp_worker p)).

Definition workers_seen (answers : nat → TurnAnswer) (i n : nat) : list (text * (option text * option text)) :=
  seq i n ≫= (λ k, an_workers (answers k)).

Record cell_passed p s (base : Config) (env : CellEnv) : Prop := {
  cp_setup : ce_import env = None ∧ ce_session env = None ∧ ce_judge_service env = None ∧ ce_connect env = None;
  cp_cleanup : ce_shutdown env = None ∧ ce_close_judge env = None ∧ ce_close_clients env = None;
  cp_config : ∃ c, per_run_config max_routing_seconds max_latency_seconds base p = Ret c;
  cp_turns : ∀ i t, sn_turns s !! i = Some t → turn_passed p t (ce_turn env i);
  cp_workers : first_sightings_ok p [] (workers_seen (ce_turn env) 0 (length (sn_turns s)))
}.

(** ** Clean outcomes *)

Record clean_turn o : Prop := {
  ct_status : to_status o = TOk;
  ct_verdict : judge_verdict o = None ∨ judge_verdict o = Some VYes;
  ct_action : deterministic_action_pass o ≠ Some false;
  ct_evaluated : deterministic_action_unevaluated_reason o = None;
  ct_presence : worker_presence_pass o ≠ Some false;
  ct_citations : citations_pass o ≠ Some false;
  ct_latency : latency_budget_enforced o = true → latency_budget_exceeded o ≠ Some true
}.

Lemma turn_reasons_clean label o : turn_failure_reasons label o = [] ↔ clean_turn o.
Proof.
  unfold turn_failure_reasons. destruct (decide (to_status o = TOk)) as [Es|Es].
  2: { rewrite bool_decide_false by done. simpl. split; [done|]. by intros [? _ _ _ _ _ _]. }
  rewrite bool_decide_true by done. cbn [negb]. rewrite !app_nil. split.
  - intros (H1 & H2 & H3 & H4 & H5 & H6). split; [done|..].
    + destruct (judge_verdict o) as [[]|]; try done; auto.
    + by destruct (deterministic_action_pass o) as [[]|].
    + by destruct (deterministic_action_unevaluated_reason o).
    + by destruct (worker_presence_pass o) as [[]|].
    + by destruct (citations_pass o) as [[]|].
    + intros He. rewrite He in H6. by destruct (latency_budget_exceeded o) as [[]|].
  - intros [_ H1 H2 H3 H4 H5 H6]. split_and!.
    + by destruct H1 as [->| ->].
    + by destruct (deterministic_action_pass o) as [[]|].
    + by rewrite H3.
    + by destruct (worker_presence_pass o) as [[]|].
    + by destruct (citations_pass o) as [[]|].
    + destruct (latency_budget_exceeded o) as [[]|]; [|done..]. destruct (latency_budget_enforced o); [by destruct H6|done].
Qed.

Lemma clean_cell_spec c :
  clean_cell c = true ↔ co_status c = COk ∧ Forall clean_turn (default [] (co_turns c)).
Proof.
  unfold clean_cell. rewrite bool_decide_eq_true. unfold cell_failure_reasons. rewrite app_nil. apply ZifyClasses.and_morph.
  - destruct (decide (co_status c = COk)) as [E|E]; [rewrite bool_decide_false by auto | rewrite bool_decide_true by auto]; done.
  - rewrite Forall_forall. induction (default [] (co_turns c)) as [|o l IH]; simpl; [split; [intros _ x Hx; by apply elem_of_nil in Hx|done]|].
    rewrite app_nil, IH, turn_reasons_clean. split.
    + intros [H1 H2] x [->|Hx]%elem_of_cons; auto.
    + intros Hx. split; [apply Hx; left|]. intros x Hx'. apply Hx. by right.
Qed.

(** ** Scoring *)

(** What an appended outcome records of latency *)
Definition latency_recorded p o : Prop :=
  (routing_ms o = None ∧ total_ms o = None ∧ latency_budget_enforced o = false)
  ∨ ∃ r m, routing_ms o = Some r ∧ total_ms o = Some m ∧ latency_budget_enforced o = enforce_latency_budget p
           ∧ latency_budget_exceeded o = budget_exceeded (Some r) (Some m) max_routing_seconds max_latency_seconds.

Lemma budget_within r m :
  budget_exceeded (Some r) (Some m) max_routing_seconds max_latency_seconds ≠ Some true
  ↔ (r <= max_routing_seconds * 1000)%Q ∧ (m <= max_latency_seconds * 1000)%Q.
Proof.
  assert (∀ q b, over_budget (Some q) b = false ↔ (q <= b * 1000)%Q) as Ho by (intros q b; apply Qltb_ge).
  rewrite <- !Ho. unfold budget_exceeded. generalize (over_budget (Some r) max_routing_seconds), (over_budget (Some m) max_latency_seconds).
  intros [] []; simpl; split; intros Hb; try done; by destruct Hb.
Qed.

(** The fields that the judge does not touch *)
Lemma judge_turn_keeps credential t j o o' calls :
  judge_turn credential t j o = (o', calls) →
  to_query o' = to_query o ∧ to_status o' = to_status o ∧ deterministic_action_pass o' = deterministic_action_pass o
  ∧ deterministic_action_unevaluated_reason o' = deterministic_action_unevaluated_reason o
  ∧ worker_presence_pass o' = worker_presence_pass o ∧ citations_pass o' = citations_pass o
  ∧ routing_ms o' = routing_ms o ∧ total_ms o' = total_ms o
  ∧ latency_budget_exceeded o' = latency_budget_exceeded o ∧ latency_budget_enforced o' = latency_budget_enforced o.
Proof. unfold judge_turn. destruct (judged_turn t); [destruct j|]; intros [= <- _]; by split_and!. Qed.

Lemma judge_turn_verdict credential t j o o' calls :
  judge_turn credential t j o = (o', calls) → judge_verdict o = None →
  (judge_verdict o' = None ∨ judge_verdict o' = Some VYes)
  ↔ (judged_turn t = true →
     ∃ reason, j = Judged VYes reason ∧ existsb (starts_with reason) JUDGE_INFRA_ERROR_REASON_PREFIXES = false).
Proof.
  unfold judge_turn. destruct (judged_turn t); cbn [negb]; [|intros [= <- _] ->; split; [done|by left]].
  destruct j as [|e|v reason].
  - intros [= <- _] _. simpl. split; [by intros [?|?]|]. intros Hj. by destruct (Hj eq_refl) as (? & ? & _).
  - intros [= <- _] _. simpl. split; [by intros [?|?]|]. intros Hj. by destruct (Hj eq_refl) as (? & ? & _).
  - destruct (existsb (starts_with reason) JUDGE_INFRA_ERROR_REASON_PREFIXES) eqn:E; intros [= <- _] _.
    + split; [by intros [?|?]|]. intros Hj. destruct (Hj eq_refl) as (r' & [= <- <-] & E'). congruence.
    + split; [intros [?|[= ->]]; [done|eauto]|]. intros Hj. destruct (Hj eq_refl) as (r' & [= -> _] & _). by right.
Qed.

(** The turn from its measurements on *)
Lemma score_measured p credential t a results r checked action d c checked0 :
  action = turn_correlated_routing_action (an_routing a) (re_turn_id r) →
  check_workers p checked0 (an_workers a) = (checked, None) →
  re_ui_text r ∉ TIMEOUT_FALLBACKS → (re_ui_text r ∈ SAFE_FALLBACKS → action = Some (txt "unsupported")) →
  delegated action results = Ret d →
  (tn_expect_citations t = true →
   (c ≠ Some false ↔ any_reply (λ r, negb (bool_decide (re_citations r = []))) results = Ret true)) →
  (tn_expect_citations t = false → c = None) →
  let o := (assert_action t action (new_outcome (tn_query t) TOk))
             <| worker_presence_pass := Some (Bool.eqb d (tn_expect_delegated t)) |> <| citations_pass := c |> in
  match (match measure_turn a (re_turn_id r) with
         | MeasureRaised e => (Escaped (exc_of e), [])
         | Missing =>
             (Appended (o <| to_status := TTurnError |>
                          <| to_error := Some (txt "no app_turn_foreground metric was emitted for turn_id="
                                               ++ str_repr (re_turn_id r)) |>) checked, [])
         | PerItem => let (o, calls) := judge_turn credential t (an_judged a) o in (Appended o checked, calls)
         | Measured s =>
             let (o, calls) := judge_turn credential t (an_judged a) (record_stages p s o) in (Appended o checked, calls)
         end).1 with
  | Appended o checked' =>
      check_workers p checked0 (an_workers a) = (checked', None) ∧ to_query o = tn_query t
      ∧ (clean_turn o ↔ turn_passed_with p t a results r)
      ∧ (to_status o = TOk → latency_recorded p o)
  | Stopped o status _ => status ≠ COk ∧ to_query o = tn_query t
                          ∧ (turn_passed_with p t a results r → (check_workers p checked0 (an_workers a)).2 ≠ None)
  | Escaped _ => ¬ turn_passed_with p t a results r
  end.
Proof.
  intros Ha Hw Ht Hf Hd Hc Hc' o.
  assert (to_query o = tn_query t ∧ to_status o = TOk ∧ judge_verdict o = None
          ∧ routing_ms o = None ∧ total_ms o = None ∧ latency_budget_enforced o = false
          ∧ worker_presence_pass o = Some (Bool.eqb d (tn_expect_delegated t)) ∧ citations_pass o = c
          ∧ (deterministic_action_pass o ≠ Some false ∧ deterministic_action_unevaluated_reason o = None
             ↔ ∀ e, tn_expect_action t = Some e → action = Some e))
    as (Oq & Os & Ov & Or & Ot & Oe & Op & Oc & Oa).
  { unfold o, assert_action. destruct (tn_expect_action t) as [e|]; [destruct action as [b|]|]; split_and!; try done; simpl.
    - destruct (decide (b = e)) as [->|Hn]; [rewrite bool_decide_true by done | rewrite bool_decide_false by done].
      + split; [by intros _ e' [= <-]|done].
      + split; [by intros [? _]|]. intros He. specialize (He e eq_refl). congruence.
    - split; [by intros [_ ?]|]. intros He. by specialize (He e eq_refl). }
  clearbody o.
  assert (∀ o' calls ol, judge_turn credential t (an_judged a) ol = (o', calls) →
            judge_verdict ol = None → to_status ol = TOk → deterministic_action_pass ol = deterministic_action_pass o →
            deterministic_action_unevaluated_reason ol = deterministic_action_unevaluated_reason o →
            worker_presence_pass ol = worker_presence_pass o → citations_pass ol = citations_pass o →
            ((latency_budget_enforced ol = true → latency_budget_exceeded ol ≠ Some true) ↔ latency_ok p a (re_turn_id r)) →
            clean_turn o' ↔ turn_passed_with p t a results r) as Hclean.
  { intros o' calls ol Hj Hv Hs H1 H2 H3 H4 Hl.
    pose proof (judge_turn_verdict _ _ _ _ _ _ Hj Hv) as Hver.
    apply judge_turn_keeps in Hj as (_ & K1 & K2 & K3 & K4 & K5 & _ & _ & K6 & K7).
    split.
    - intros [_ C2 C3 C4 C5 C6 C7]. rewrite K2, H1 in C3. rewrite K3, H2 in C4. rewrite K4, H3, Op in C5. rewrite K5, H4, Oc in C6.
      rewrite K6, K7 in C7. split.
      + done.
      + by rewrite <- Ha.
      + rewrite <- Ha. by apply Oa.
      + rewrite <- Ha, Hd. f_equal. apply Bool.eqb_prop. by destruct (Bool.eqb d (tn_expect_delegated t)).
      + intros He. by apply Hc.
      + by apply Hver.
      + by apply Hl.
    - intros [_ _ T3 T4 T5 T6 T7]. rewrite <- Ha in T3, T4. apply Oa in T3 as [T3 T3'].
      split; [congruence|by apply Hver|by rewrite K2, H1|by rewrite K3, H2| | |].
      + rewrite K4, H3, Op. rewrite Hd in T4. injection T4 as ->. by rewrite Bool.eqb_reflx.
      + rewrite K5, H4, Oc. destruct (tn_expect_citations t); [by apply Hc, T5|by rewrite Hc'].
      + rewrite K6, K7. by apply Hl. }
  destruct (measure_turn a (re_turn_id r)) as [m| | |e] eqn:Em.
  - destruct (judge_turn credential t (an_judged a) (record_stages p m o)) as [o' calls] eqn:Ej. cbn [fst].
    pose proof (judge_turn_keeps _ _ _ _ _ _ Ej) as (K0 & _ & _ & _ & _ & _ & K6 & K7 & K8 & K9).
    split_and!; [done|by rewrite K0| |].
    + apply (Hclean o' calls _ Ej); try done. unfold latency_ok. rewrite Em.
      by rewrite <- (budget_within (round1 (st_routing_ms m)) (round1 (st_total_ms m))).
    + intros _. right. rewrite K6, K7, K8, K9. by eexists _, _.
  - destruct (judge_turn credential t (an_judged a) o) as [o' calls] eqn:Ej. cbn [fst].
    pose proof (judge_turn_keeps _ _ _ _ _ _ Ej) as (K0 & _ & _ & _ & _ & _ & K6 & K7 & K8 & K9).
    split_and!; [done|by rewrite K0| |].
    + apply (Hclean o' calls _ Ej); try done. unfold latency_ok. rewrite Em, Oe. done.
    + intros _. left. by rewrite K6, K7, K9.
  - cbn. split_and!; [done|done| |done]. split; [by intros [? _ _ _ _ _ _]|]. intros [_ _ _ _ _ _ Hl]. unfold latency_ok in Hl.
    by rewrite Em in Hl.
  - cbn. intros [_ _ _ _ _ _ Hl]. unfold latency_ok in Hl. by rewrite Em in Hl.
Qed.

(** A turn that the loop goes on from is clean exactly when it passed and its
    workers run the candidate. *)
Lemma score_reply_clean p credential t a results r checked :
  match (score_reply p credential t a results r checked).1 with
  | Appended o checked' =>
      check_workers p checked (an_workers a) = (checked', None) ∧ to_query o = tn_query t
      ∧ (clean_turn o ↔ turn_passed_with p t a results r)
      ∧ (to_status o = TOk → latency_recorded p o)
  | Stopped o status _ => status ≠ COk ∧ to_query o = tn_query t
                          ∧ (turn_passed_with p t a results r → (check_workers p checked (an_workers a)).2 ≠ None)
  | Escaped _ => ¬ turn_passed_with p t a results r
  end.
Proof.
  unfold EvalRun.score_reply.
  destruct (decide (re_ui_text r ∈ TIMEOUT_FALLBACKS)) as [Ht|Ht];
    [rewrite bool_decide_true by done | rewrite bool_decide_false by done].
  { cbn. split_and!; [done..|]. by intros [? _ _ _ _ _ _]. }
  set (action := turn_correlated_routing_action (an_routing a) (re_turn_id r)).
  destruct (bool_decide (re_ui_text r ∈ SAFE_FALLBACKS) && negb (bool_decide (action = Some (txt "unsupported")))) eqn:Ef.
  { cbn. split_and!; [done..|]. intros [_ Hf _ _ _ _ _]. apply andb_true_iff in Ef as [E1 E2].
    apply bool_decide_eq_true in E1. apply negb_true_iff, bool_decide_eq_false in E2. by destruct (E2 (Hf E1)). }
  assert (re_ui_text r ∈ SAFE_FALLBACKS → action = Some (txt "unsupported")) as Hf.
  { intros Hs. rewrite bool_decide_true in Ef by done. simpl in Ef. apply negb_false_iff, bool_decide_eq_true in Ef. done. }
  destruct (check_workers p checked (an_workers a)) as [checked' [msg|]] eqn:Ec; [cbn; by split_and!|].
  rewrite <- Ec. destruct (delegated action results) as [d|e] eqn:Ed; [|cbn; intros [_ _ _ Hd _ _ _]; fold action in Hd; congruence].
  destruct (tn_expect_citations t) eqn:Eexp.
  - destruct (any_reply _ results) as [c|e] eqn:Eany; cbn [rbind];
      [|cbn; intros [_ _ _ _ Hc _ _]; specialize (Hc Eexp); congruence].
    apply (score_measured p credential t a results r checked' action d (Some c)); try done; fold action; try done.
    + intros _. rewrite Eany. split; [intros Hn; by destruct c|by intros [= ->]].
    + congruence.
  - apply (score_measured p credential t a results r checked' action d None); try done; fold action; try done. congruence.
Qed.

Lemma run_turn_clean p c t a checked :
  match (run_turn p c t a checked).1 with
  | Appended o checked' =>
      check_workers p checked (an_workers a) = (checked', None) ∧ to_query o = tn_query t
      ∧ (clean_turn o ↔ turn_passed p t a)
      ∧ (to_status o = TOk → latency_recorded p o)
  | Stopped o status _ => status ≠ COk ∧ to_query o = tn_query t
                          ∧ (turn_passed p t a → (check_workers p checked (an_workers a)).2 ≠ None)
  | Escaped _ => ¬ turn_passed p t a
  end.
Proof.
  assert (∀ results r, reply_of a = Some (results, r) → turn_passed p t a ↔ turn_passed_with p t a results r) as Hsome.
  { intros results r E. split; [intros (l & r' & E' & Ht); congruence|]. intros Ht. by exists results, r. }
  assert (reply_of a = None → ¬ turn_passed p t a) as Hnone by (intros E (l & r' & E' & _); congruence).
  unfold EvalRun.run_turn, reply_of in *.
  destruct (an_handled a) as [|e|[|u|r]|[|[|u|r] l]]; cbn [fst];
    try (split_and!; [done..|]; intros Hp; by destruct (Hnone eq_refl)).
  - pose proof (score_reply_clean p (credential_of c) t a [IReply r] r checked) as Hs.
    destruct (EvalRun.score_reply _ _ p _ t a _ r checked) as [e calls]. cbn [fst] in *. destruct e; rewrite (Hsome _ _ eq_refl); done.
  - pose proof (score_reply_clean p (credential_of c) t a (IReply r :: l) r checked) as Hs.
    destruct (EvalRun.score_reply _ _ p _ t a _ r checked) as [e calls]. cbn [fst] in *. destruct e; rewrite (Hsome _ _ eq_refl); done.
Qed.

(** ** Workers *)

Lemma check_workers_app p checked l1 l2 :
  check_workers p checked (l1 ++ l2)
  = match check_workers p checked l1 with (checked', None) => check_workers p checked' l2 | r => r end.
Proof.
  revert checked. induction l1 as [|[id [m e]] l1 IH]; intros checked; simpl; [done|].
  destruct (bool_decide (id ∈ checked)); [apply IH|]. destruct (bool_decide _ && bool_decide _); [apply IH|done].
Qed.

Lemma check_workers_spec p checked l : (check_workers p checked l).2 = None ↔ first_sightings_ok p checked l.
Proof.
  revert checked. induction l as [|[id [m e]] l IH]; intros checked; simpl; [split; [by intros _ [] |done]|].
  destruct (decide (id ∈ checked)) as [Hin|Hin]; [rewrite bool_decide_true by done | rewrite bool_decide_false by done].
  - rewrite IH. split.
    + intros Hf [|k] id' me Hk Hn Hfirst; [by injection Hk as <- <-|]. apply (Hf k id' me Hk Hn).
      intros k' w Hk' Hw. apply (Hfirst (S k') w); [lia|done].
    + intros Hf k id' me Hk Hn Hfirst. apply (Hf (S k) id' me Hk Hn).
      intros [|k'] w Hk' Hw; [injection Hw as <-; simpl; congruence|]. apply (Hfirst k' w); [lia|done].
  - destruct (decide ((m, e) = (Some (cd_model (rp_worker p)), cd_effort (rp_worker p)))) as [E|E].
    + injection E as -> ->. rewrite !bool_decide_true by done. cbn [andb]. rewrite IH. split.
      * intros Hf [|k] id' me Hk Hn Hfirst; [by injection Hk as <- <-|].
        apply (Hf k id' me Hk); [|intros k' w Hk' Hw; apply (Hfirst (S k') w); [lia|done]].
        intros [->|Hi]%elem_of_cons; [|done]. by destruct (Hfirst 0%nat (id, (Some (cd_model (rp_worker p)), cd_effort (rp_worker p))) ltac:(lia) eq_refl).
      * intros Hf k id' me Hk Hn Hfirst. apply (Hf (S k) id' me Hk); [intros Hi; apply Hn; by right|].
        intros [|k'] w Hk' Hw; [injection Hw as <-; simpl; intros ->; apply Hn; left|]. apply (Hfirst k' w); [lia|done].
    + assert (bool_decide (m = Some (cd_model (rp_worker p))) && bool_decide (e = cd_effort (rp_worker p)) = false) as ->.
      { apply andb_false_iff. rewrite !bool_decide_eq_false.
        destruct (decide (m = Some (cd_model (rp_worker p)))); [right|by left]. congruence. }
      simpl. split; [done|]. intros Hf. destruct E. apply (Hf 0%nat id (m, e)); [done..|lia].
Qed.

(** ** Cells *)

Lemma run_turns_clean p c answers i turns checked :
  (cr_status (run_turns p c answers i turns checked) = COk ∧ Forall clean_turn (cr_turns (run_turns p c answers i turns checked)))
  ↔ (∀ k t, turns !! k = Some t → turn_passed p t (answers (i + k)%nat))
    ∧ (check_workers p checked (workers_seen answers i (length turns))).2 = None.
Proof.
  revert i checked. induction turns as [|t turns IH]; intros i checked.
  { cbn. split; [intros _; split; [by intros [] ? ?|done]|]. by intros _. }
  cbn [EvalRun.run_turns]. pose proof (run_turn_clean p c t (answers i) checked) as Ht.
  destruct (EvalRun.run_turn _ _ p c t (answers i) checked) as [[o checked'|o status e|e] calls]; cbn [fst] in Ht.
  - destruct Ht as (Hw & _ & Hc & _). cbn [cr_status cr_turns]. rewrite Forall_cons, Hc.
    unfold workers_seen. cbn [length seq]. rewrite bind_cons, check_workers_app, Hw. fold (workers_seen answers (S i) (length turns)).
    specialize (IH (S i) checked'). split.
    + intros (Hs & Hp & Hf). destruct (proj1 IH (conj Hs Hf)) as [H1 H2]. split; [|done].
      intros [|k] t' Hk; [injection Hk as <-; by rewrite Nat.add_0_r|]. rewrite Nat.add_succ_r. by apply (H1 k).
    + intros [H1 H2]. destruct (proj2 IH) as [Hs Hf].
      { split; [|done]. intros k t' Hk. specialize (H1 (S k) t' Hk). by rewrite Nat.add_succ_r in H1. }
      split; [done|]. split; [|done]. specialize (H1 0%nat t eq_refl). by rewrite Nat.add_0_r in H1.
  - destruct Ht as (Hs & _ & Hp). cbn [cr_status cr_turns]. split; [by intros [? _]|]. intros [H1 H2]. exfalso.
    specialize (H1 0%nat t eq_refl). rewrite Nat.add_0_r in H1. apply (Hp H1).
    unfold workers_seen in H2. cbn [length seq] in H2. rewrite bind_cons, check_workers_app in H2.
    by destruct (check_workers p checked (an_workers (answers i))) as [? []].
  - cbn [cr_status cr_turns]. split; [by intros [? _]|]. intros [H1 _]. destruct Ht.
    specialize (H1 0%nat t eq_refl). by rewrite Nat.add_0_r in H1.
Qed.

Lemma cleanup_ok credential what applies e r :
  cr_status (cleanup credential what applies e r) = COk ↔ cr_status r = COk ∧ (applies = true → e = None).
Proof.
  destruct e as [e|]; simpl; [|tauto]. destruct applies; simpl; [|naive_solver].
  destruct (decide (cr_status r = COk)) as [E|E]; [rewrite bool_decide_true by done | rewrite bool_decide_false by done]; simpl.
  - split; [done|]. intros [_ Hn]. by specialize (Hn eq_refl).
  - split; [done|]. by intros [? _].
Qed.

Lemma cleanup_keeps credential what applies e r :
  cr_turns (cleanup credential what applies e r) = cr_turns r ∧ cr_calls (cleanup credential what applies e r) = cr_calls r.
Proof. unfold cleanup. by repeat case_match. Qed.

Lemma finish_cell_clean p s env c host judge r :
  clean_cell (finish_cell p s env c host judge r).1 = true
  ↔ (cr_status r = COk ∧ Forall clean_turn (cr_turns r))
    ∧ (host = true → ce_shutdown env = None ∧ ce_close_clients env = None) ∧ (judge = true → ce_close_judge env = None).
Proof.
  rewrite clean_cell_spec. unfold finish_cell. cbn [fst co_status co_turns default].
  set (r1 := cleanup (c ≫= credential_of) "host.shutdown" host (ce_shutdown env) r).
  set (r2 := cleanup (c ≫= credential_of) "close_judge_llm_service" judge (ce_close_judge env) r1).
  set (r3 := cleanup (c ≫= credential_of) "close_session_provider_clients" host (ce_close_clients env) r2).
  assert (cr_turns r3 = cr_turns r) as Et.
  { unfold r3, r2, r1. by rewrite !(proj1 (cleanup_keeps _ _ _ _ _)). }
  assert (cr_status r3 = COk ↔ cr_status r = COk ∧ (host = true → ce_shutdown env = None)
          ∧ (judge = true → ce_close_judge env = None) ∧ (host = true → ce_close_clients env = None)) as Hs.
  { unfold r3, r2, r1. rewrite !cleanup_ok. tauto. }
  split.
  - intros [H1 H2]. rewrite bool_decide_true in H2 by done. rewrite Et in H2. apply Hs in H1. cbn [from_option] in H2. naive_solver.
  - intros ((H1 & H2) & H3 & H4). assert (cr_status r3 = COk) as E by (apply Hs; naive_solver).
    split; [done|]. rewrite bool_decide_true by done. by rewrite Et.
Qed.

(** The configuration of a cell resolves to its candidates. *)
Lemma per_run_resolves base p c :
  per_run_config max_routing_seconds max_latency_seconds base p = Ret c →
  resolved_router c = Ret (cd_model (rp_router p), cd_effort (rp_router p)).
Proof.
  unfold per_run_config. intros ->%post_init_id. unfold resolved_router, resolve_router_model, resolve_router_reasoning_effort, resolve.
  cbn -[txt]. rewrite decide_True by done. cbn -[txt]. unfold effort_policy.
  destruct (cd_effort (rp_router p)) as [e|]; cbn -[txt]; [by rewrite decide_True|done].
Qed.

(** A repetition is clean exactly when what it met passes. *)
Lemma clean_cell_passed p s base env : clean_cell (run_cell p s base env).1 = true ↔ cell_passed p s base env.
Proof.
  assert (∀ c host judge e, ¬ clean_cell (finish_cell p s env c host judge (setup_failed c e)).1 = true) as Hfail.
  { intros c host judge e Hc. apply finish_cell_clean in Hc. by destruct Hc as [[? _] _]. }
  unfold EvalRun.run_cell.
  destruct (ce_import env) as [e|] eqn:Ei; [split; [by intros ?%Hfail|]; intros [(? & _) _ _ _ _]; congruence|].
  destruct (per_run_config max_routing_seconds max_latency_seconds base p) as [c|e] eqn:Ec.
  2: { split; [by intros ?%Hfail|]. intros [_ _ [c Hc] _ _]. congruence. }
  rewrite (per_run_resolves _ _ _ Ec), !bool_decide_true by done. cbn [andb negb].
  destruct (ce_session env) as [e|] eqn:Es; [split; [by intros ?%Hfail|]; intros [(_ & ? & _) _ _ _ _]; congruence|].
  destruct (ce_judge_service env) as [e|] eqn:Ej; [split; [by intros ?%Hfail|]; intros [(_ & _ & ? & _) _ _ _ _]; congruence|].
  destruct (ce_connect env) as [e|] eqn:En; [split; [by intros ?%Hfail|]; intros [(_ & _ & _ & ?) _ _ _ _]; congruence|].
  rewrite finish_cell_clean, run_turns_clean, check_workers_spec. split.
  - intros ((Ht & Hw) & Hh & Hj). split; [done| |by exists c|done|done]. destruct (Hh eq_refl) as [H1 H2]. by rewrite H1, H2, Hj.
  - intros [_ (H1 & H2 & H3) _ Ht Hw]. split_and!; done.
Qed.

End facts.
