(* ===== verification/EvalVerdict.v ===== *)
(** The verdict of an evaluation run: it passes only when a strict majority of
    the repetitions of every cell met what the scenario asks for, and it does when
    all of them did. *)

From S2P Require Import Prelude PyDict PyText PyValue Json ConfigLayers Config EvalCommon EvalMatrix EvalManifest EvalVote EvalRun EvalReport EvalFacts.

(** ** Votes that agree *)

Lemma tally_all {A} `{EqDecision A} (v : A) l : Forall (λ x, x = v) l → tally v l = length l.
Proof. intros Hl. unfold tally. by rewrite filter_all. Qed.

Lemma majority_agrees {A} `{EqDecision A} (v : A) l priority :
  l ≠ [] → (∀ x, x ∈ priority) → Forall (λ x, x = v) l → majority_with_tiebreak l priority v = Ret v.
Proof.
  intros Hn Hp Hl. destruct (majority_spec l priority v Hn Hp) as (w & E & _ & Hw). rewrite E. f_equal. apply Hw.
  rewrite tally_all by done. destruct l; [done|simpl; lia].
Qed.

Lemma turn_priority_full (x : TurnStatus) : x ∈ TURN_STATUS_TIE_PRIORITY.
Proof. destruct x; apply (bool_decide_unpack _); exact I. Qed.
Lemma cell_priority_full (x : CellStatus) : x ∈ CELL_STATUS_TIE_PRIORITY.
Proof. destruct x; apply (bool_decide_unpack _); exact I. Qed.
Lemma verdict_priority_full (x : JudgeVerdict) : x ∈ JUDGE_VERDICT_TIE_PRIORITY.
Proof. destruct x; apply (bool_decide_unpack _); exact I. Qed.

Lemma majority_bool_agrees l : Forall (λ v, v ≠ Some false) l → majority_bool l ≠ Some false.
Proof.
  intros Hl. unfold majority_bool. assert (Forall (λ b, b = true) (omap id l)) as Ht.
  { induction Hl as [|[[]|] l Hv _ IH]; simpl; [constructor| |done|done]. by constructor. }
  destruct (omap id l) as [|b present] eqn:E; [done|]. rewrite filter_all by done.
  destruct (Nat.ltb_spec (length (b :: present)) (length (b :: present) * 2)); [done|simpl in *; lia].
Qed.

Lemma sum_le (B : Q) l : Forall (λ q, (q <= B)%Q) l → (foldr Qplus 0 l <= B * inject_Z (Z.of_nat (length l)))%Q.
Proof.
  induction 1 as [|q l Hq _ IH]; cbn [foldr length]; [change (Z.of_nat 0) with 0%Z; unfold inject_Z; lra|].
  rewrite Nat2Z.inj_succ, <- Z.add_1_r, inject_Z_plus. change (inject_Z 1) with 1%Q. lra.
Qed.

Lemma average_le (B : Q) l m : Forall (λ v, ∀ q, v = Some q → (q <= B)%Q) l → average l = Some m → (m <= B)%Q.
Proof.
  intros Hl. unfold average. assert (Forall (λ q, (q <= B)%Q) (omap id l)) as Hb.
  { induction Hl as [|[q|] l Hv _ IH]; simpl; [constructor| |done]. constructor; [by apply Hv|done]. }
  destruct (omap id l) as [|q present]; [done|]. intros [= <-]. apply Qle_shift_div_r; [|exact (sum_le B (q :: present) Hb)].
  unfold Qlt. simpl. lia.
Qed.

Lemma rmap_returns {A B} (f : A → result B) l : (∀ x, x ∈ l → ∃ y, f x = Ret y) → ∃ ys, rmap f l = Ret ys.
Proof.
  induction l as [|x l IH]; intros Hf; simpl; [eauto|]. destruct (Hf x) as [y ->]; [left|]. simpl.
  destruct IH as [ys ->]; [intros z Hz; apply Hf; by right|]. simpl. eauto.
Qed.

Lemma rmap_elem {A B} (f : A → result B) l ys y : rmap f l = Ret ys → y ∈ ys → ∃ x, x ∈ l ∧ f x = Ret y.
Proof.
  revert ys. induction l as [|x l IH]; intros ys; simpl; [intros [= <-] Hy; by apply elem_of_nil in Hy|].
  destruct (f x) as [z|] eqn:Ef; simpl; [|done]. destruct (rmap f l) as [zs|] eqn:Er; simpl; [|done].
  intros [= <-] [->|Hy]%elem_of_cons; [exists x; split; [left|done]|].
  destruct (IH zs eq_refl Hy) as (x' & Hx & E). exists x'. split; [by right|done].
Qed.

Section verdict.
Context `{Printing} `{HostEnv}.
Context (max_routing_seconds max_latency_seconds : Q).
Implicit Types (p : RunPair) (s : Scenario) (o : TurnOutcome) (c : CellOutcome).

Local Abbreviation run_cell := (run_cell max_routing_seconds max_latency_seconds).
Local Abbreviation run_turns := (run_turns max_routing_seconds max_latency_seconds).
Local Abbreviation run_repeats := (run_repeats max_routing_seconds max_latency_seconds).
Local Abbreviation run_cells := (run_cells max_routing_seconds max_latency_seconds).
Local Abbreviation run_matrix := (run_matrix max_routing_seconds max_latency_seconds).
Local Abbreviation cell_passed := (cell_passed max_routing_seconds max_latency_seconds).
Local Abbreviation latency_recorded := (latency_recorded max_routing_seconds max_latency_seconds).
Local Abbreviation aggregate_turn := (aggregate_turn_repeats max_routing_seconds max_latency_seconds).
Local Abbreviation aggregate_cell := (aggregate_cell_repeats max_routing_seconds max_latency_seconds).

(** ** Repetitions of a turn *)

Lemma aggregate_turn_returns l : l ≠ [] → ∃ o, aggregate_turn l = Ret o.
Proof.
  intros Hn. unfold aggregate_turn_repeats. destruct l as [|x [|y l]]; [done|eauto|]. set (l0 := x :: y :: l) in *.
  destruct (majority_spec (to_status <$> l0) TURN_STATUS_TIE_PRIORITY TOk) as (v & E & _); [done|apply turn_priority_full|].
  rewrite E. cbn [rbind]. destruct (omap judge_verdict (ok_turns l0)) as [|w ws] eqn:Ew; [cbn [rbind]; eauto|].
  destruct (majority_spec (w :: ws) JUDGE_VERDICT_TIE_PRIORITY VYes) as (v' & E' & _); [done|apply verdict_priority_full|].
  rewrite E'. cbn [rbind]. eauto.
Qed.

Lemma not_exceeded (routing total : option Q) :
  (∀ q, routing = Some q → (q <= max_routing_seconds * 1000)%Q) → (∀ q, total = Some q → (q <= max_latency_seconds * 1000)%Q) →
  budget_exceeded routing total max_routing_seconds max_latency_seconds ≠ Some true.
Proof.
  intros Hr Ht. unfold budget_exceeded.
  assert (∀ v B, (∀ q, v = Some q → (q <= B * 1000)%Q) → over_budget v B = false) as Ho.
  { intros [q|] B Hv; [|done]. apply Qltb_ge. by apply Hv. }
  rewrite (Ho routing _ Hr), (Ho total _ Ht). by destruct routing, total.
Qed.

Lemma aggregate_turn_clean p l o :
  Forall clean_turn l → Forall (latency_recorded p) l → aggregate_turn l = Ret o → clean_turn o.
Proof.
  intros Hc Hl. unfold aggregate_turn_repeats. destruct l as [|x [|y l]]; [done|intros [= <-]; by apply Forall_inv in Hc|].
  set (l0 := x :: y :: l) in *.
  assert (∀ (P : TurnOutcome → Prop), (∀ z, clean_turn z → P z) → Forall P l0) as Hall
    by (intros P HP; eapply Forall_impl; [exact Hc|done]).
  rewrite (majority_agrees TOk) by (done || apply turn_priority_full || (apply Forall_fmap; apply Hall; by intros z [])).
  cbn [rbind]. assert (ok_turns l0 = l0) as -> by (apply filter_all, Hall; by intros z []).
  assert (Forall (λ v, v = VYes) (omap judge_verdict l0)) as Hv.
  { apply Forall_forall. intros v (z & Hz & Ez)%list_elem_of_omap. rewrite Forall_forall in Hc.
    destruct (Hc z Hz) as [_ [E|E] _ _ _ _ _]; congruence. }
  assert ((match omap judge_verdict l0 with
           | [] => Ret None
           | _ => v ←? majority_with_tiebreak (omap judge_verdict l0) JUDGE_VERDICT_TIE_PRIORITY VYes ;; Ret (Some v)
           end = Ret None) ∨
          (match omap judge_verdict l0 with
           | [] => Ret None
           | _ => v ←? majority_with_tiebreak (omap judge_verdict l0) JUDGE_VERDICT_TIE_PRIORITY VYes ;; Ret (Some v)
           end = Ret (Some VYes))) as Hverdict.
  { destruct (omap judge_verdict l0) as [|w ws] eqn:Ew; [by left|]. right. rewrite (majority_agrees VYes); [done|done|apply verdict_priority_full|done]. }
  assert (omap deterministic_action_unevaluated_reason l0 = []) as ->.
  { destruct (omap deterministic_action_unevaluated_reason l0) as [|u us] eqn:Eu; [done|]. exfalso.
    assert (u ∈ omap deterministic_action_unevaluated_reason l0) as Hu by (rewrite Eu; left).
    apply list_elem_of_omap in Hu as (z & Hz & Ez). rewrite Forall_forall in Hc. destruct (Hc z Hz). congruence. }
  assert (existsb latency_budget_enforced l0 = true →
          budget_exceeded (average (routing_ms <$> l0)) (average (total_ms <$> l0)) max_routing_seconds max_latency_seconds ≠ Some true)
    as Hlat.
  { intros (z & Hz & Ez)%existsb_exists. apply list_elem_of_In in Hz. rewrite Forall_forall in Hl, Hc.
    assert (enforce_latency_budget p = true) as Hp.
    { destruct (Hl z Hz) as [(_ & _ & E)|(r & m & _ & _ & E & _)]; congruence. }
    assert (∀ z r m, z ∈ l0 → routing_ms z = Some r → total_ms z = Some m →
              (r <= max_routing_seconds * 1000)%Q ∧ (m <= max_latency_seconds * 1000)%Q) as Hin.
    { intros z' r m Hz' Hr Hm. destruct (Hl z' Hz') as [(E & _)|(r' & m' & E1 & E2 & E3 & E4)]; [congruence|].
      apply budget_within. rewrite Hr in E1. rewrite Hm in E2. injection E1 as <-. injection E2 as <-. rewrite <- E4.
      destruct (Hc z' Hz') as [_ _ _ _ _ _ Hlz]. apply Hlz. congruence. }
    apply not_exceeded; intros q Hq; revert Hq; apply average_le, Forall_fmap, Forall_forall; intros z' Hz' q' Eq'; simpl in Eq'.
    - destruct (Hl z' Hz') as [(E & _)|(r' & m' & E1 & E2 & _)]; [congruence|]. rewrite E1 in Eq'. injection Eq' as <-.
      by eapply Hin.
    - destruct (Hl z' Hz') as [(_ & E & _)|(r' & m' & E1 & E2 & _)]; [congruence|]. rewrite E2 in Eq'. injection Eq' as <-.
      by eapply Hin. }
  assert (∀ f, (∀ z, clean_turn z → f z ≠ Some false) → majority_bool (f <$> l0) ≠ Some false) as Hb
    by (intros f Hf; apply majority_bool_agrees, Forall_fmap, Hall, Hf).
  intros Hret. destruct Hverdict as [Hverdict|Hverdict]; rewrite Hverdict in Hret; cbn [rbind] in Hret; injection Hret as <-;
    (split; [done|first [by left | by right]|exact (Hb deterministic_action_pass ltac:(by intros z []))|done
            |exact (Hb worker_presence_pass ltac:(by intros z []))|exact (Hb citations_pass ltac:(by intros z []))|exact Hlat]).
Qed.

(** ** Repetitions of a cell *)

Lemma run_turns_recorded p cfg answers i turns checked :
  cr_status (run_turns p cfg answers i turns checked) = COk →
  length (cr_turns (run_turns p cfg answers i turns checked)) = length turns
  ∧ Forall (λ o, to_status o = TOk → latency_recorded p o) (cr_turns (run_turns p cfg answers i turns checked)).
Proof.
  revert i checked. induction turns as [|t turns IH]; intros i checked; cbn [EvalRun.run_turns]; [done|].
  pose proof (run_turn_clean max_routing_seconds max_latency_seconds p cfg t (answers i) checked) as Ht.
  destruct (run_turn _ _ p cfg t (answers i) checked) as [[o checked'|o status e|e] calls]; cbn [fst] in Ht; [|by destruct Ht|done].
  destruct Ht as (_ & _ & _ & Hl). cbn [cr_status cr_turns]. intros Hs. destruct (IH _ _ Hs) as [E Hf].
  cbn [length]. split; [by rewrite E|]. by constructor.
Qed.

Lemma run_cell_single p s base env :
  co_repeats (run_cell p s base env).1 = None ∧ co_pair_label (run_cell p s base env).1 = pair_label p.
Proof. unfold EvalRun.run_cell, finish_cell. by repeat case_match. Qed.

Lemma run_cell_clean_turns p s base env :
  clean_cell (run_cell p s base env).1 = true →
  ∃ ts, co_turns (run_cell p s base env).1 = Some ts ∧ length ts = length (sn_turns s)
        ∧ Forall clean_turn ts ∧ Forall (latency_recorded p) ts.
Proof.
  intros Hc. pose proof Hc as [(Hi & Hse & Hj & Hn) _ [cfg Hcfg] _ _]%clean_cell_passed.
  revert Hc. unfold EvalRun.run_cell. rewrite Hi, Hcfg, (per_run_resolves _ _ _ _ _ Hcfg), !bool_decide_true, Hse, Hj, Hn by done.
  cbn [andb negb]. intros Hc. pose proof Hc as [[Hs Hf] _]%finish_cell_clean. apply clean_cell_spec in Hc as [Hcs Hct].
  destruct (run_turns_recorded _ _ _ _ _ _ Hs) as [Hlen Hrec].
  set (r := run_turns p cfg (ce_turn env) 0 (sn_turns s) []) in *.
  assert (co_turns (finish_cell p s env (Some cfg) true true r).1 = Some (cr_turns r)) as Et.
  { unfold finish_cell in Hcs |- *. cbn [fst co_status co_turns] in Hcs |- *. rewrite bool_decide_true by done.
    by rewrite !(proj1 (cleanup_keeps _ _ _ _ _)). }
  exists (cr_turns r). rewrite Et. split_and!; [done..|]. apply Forall_forall. intros o Ho. rewrite Forall_forall in Hrec, Hf.
  apply Hrec; [done|]. by destruct (Hf o Ho).
Qed.

Lemma aggregate_cell_returns label name repeats :
  repeats ≠ [] → Forall (λ c, co_repeats c = None) repeats → ∃ c, aggregate_cell label name repeats = Ret c.
Proof.
  intros Hn Hr. unfold aggregate_cell_repeats.
  assert (existsb (λ c, bool_decide (is_Some (co_repeats c))) repeats = false) as ->.
  { apply not_true_iff_false. intros (c & Hc & Es)%existsb_exists. apply list_elem_of_In in Hc. rewrite Forall_forall in Hr.
    rewrite (Hr c Hc) in Es. by apply bool_decide_eq_true, is_Some_None in Es. }
  destruct repeats as [|c1 [|c2 repeats]]; [done|eauto|]. set (l := c1 :: c2 :: repeats) in *.
  destruct (majority_spec (co_status <$> l) CELL_STATUS_TIE_PRIORITY COk) as (v & -> & _); [done|apply cell_priority_full|].
  cbn [rbind]. destruct (rmap_returns (λ i, aggregate_turn (turn_at i <$> l)) (seq 0 (turn_count l))) as [ts ->];
    [|cbn [rbind]; eauto].
  intros i _. by apply aggregate_turn_returns.
Qed.

(** Of two repetitions or more the aggregate keeps every one. *)
Lemma aggregate_cell_repeated label name repeats c :
  aggregate_cell label name repeats = Ret c →
  repeats = [c] ∨ (co_repeats c = Some repeats ∧ co_pair_label c = label ∧ length repeats ≠ 1%nat).
Proof.
  unfold aggregate_cell_repeats. destruct (existsb _ repeats); [done|]. destruct repeats as [|c1 [|c2 repeats]].
  - intros Hr. simpl in Hr. done.
  - intros [= ->]. by left.
  - set (l := c1 :: c2 :: repeats). destruct (majority_with_tiebreak _ _ _) as [v|]; [|done]. cbn [rbind].
    destruct (rmap _ _) as [ts|]; [|done]. cbn [rbind]. intros [= <-]. by right.
Qed.

Lemma turn_count_le (l : list CellOutcome) n : Forall (λ c, length (default [] (co_turns c)) ≤ n)%nat l → (turn_count l ≤ n)%nat.
Proof. unfold turn_count. induction 1 as [|c l Hc _ IH]; [simpl; lia|]. rewrite fmap_cons. cbn [foldr]. lia. Qed.

Lemma aggregate_cell_clean p label name repeats c n :
  aggregate_cell label name repeats = Ret c →
  Forall (λ r, clean_cell r = true ∧ ∃ ts, co_turns r = Some ts ∧ length ts = n ∧ Forall clean_turn ts ∧ Forall (latency_recorded p) ts)
    repeats →
  clean_cell c = true.
Proof.
  unfold aggregate_cell_repeats. destruct (existsb _ repeats); [done|]. intros Ha Hr.
  destruct repeats as [|c1 [|c2 repeats]]; [done|injection Ha as <-; by apply Forall_inv in Hr as [? _]|].
  set (l := c1 :: c2 :: repeats) in *.
  rewrite (majority_agrees COk) in Ha.
  2: done. 2: apply cell_priority_full.
  2: { apply Forall_fmap. eapply Forall_impl; [exact Hr|]. intros r [Hc _]. by apply clean_cell_spec in Hc as [? _]. }
  cbn [rbind] in Ha. destruct (rmap _ (seq 0 (turn_count l))) as [ts|] eqn:Er; [|done]. cbn [rbind] in Ha. injection Ha as <-.
  apply clean_cell_spec. cbn [co_status co_turns default from_option]. split; [done|].
  assert (turn_count l ≤ n)%nat as Hcount.
  { apply turn_count_le. eapply Forall_impl; [exact Hr|]. intros r [_ (ts' & E & El & _)]. rewrite E. cbn [default from_option id]. lia. }
  apply Forall_forall. intros o Ho. destruct (rmap_elem _ _ _ _ Er Ho) as (i & Hi & Ei). apply elem_of_seq in Hi.
  assert (Forall (λ o, clean_turn o ∧ latency_recorded p o) (turn_at i <$> l)) as Hf.
  { apply Forall_fmap. eapply Forall_impl; [exact Hr|]. intros r [_ (ts' & E & El & Hc & Hl)].
    change (clean_turn (turn_at i r) ∧ latency_recorded p (turn_at i r)).
    destruct (ts' !! i) as [o'|] eqn:Eo; [|apply lookup_ge_None in Eo; lia].
    assert (turn_at i r = o') as -> by (unfold turn_at; rewrite E; simpl; by rewrite Eo).
    rewrite Forall_lookup in Hc, Hl. eauto. }
  eapply (aggregate_turn_clean p); [| |exact Ei]; eapply Forall_impl; try exact Hf; by intros ? [? ?].
Qed.

(** The verdict over a cell and its repetitions *)
Lemma clean_majority label name repeats c :
  aggregate_cell label name repeats = Ret c → repeat_reasons c ++ cell_failure_reasons c = [] →
  (length repeats < 2 * length (filter (λ r, clean_cell r = true) repeats))%nat.
Proof.
  intros Ha [Hr Hc]%app_nil. apply aggregate_cell_repeated in Ha as [->|(E & _ & _)].
  - assert (clean_cell c = true) as Hcl by (apply bool_decide_true; done). rewrite filter_cons_True by done. simpl. lia.
  - unfold repeat_reasons in Hr. rewrite E in Hr.
    destruct (Nat.leb_spec (length (filter (λ r, clean_cell r = true) repeats) * 2) (length repeats)); [done|lia].
Qed.

(** ** The matrix *)

Lemma run_cells_lookup status n base env i cells outcomes calls :
  run_cells status n base env i cells = (Ret outcomes, calls) →
  length outcomes = length cells
  ∧ ∀ k p s, cells !! k = Some (p, s) →
             ∃ c, outcomes !! k = Some c ∧ (run_repeats status n base p s (env (i + k)%nat)).1 = Ret c.
Proof.
  revert i outcomes calls. induction cells as [|[p s] cells IH]; intros i outcomes calls; cbn [EvalRun.run_cells].
  { intros [= <- <-]. split; [done|]. by intros [] ? ? ?. }
  destruct (EvalRun.run_repeats _ _ status n base p s (env i)) as [[c|e] calls'] eqn:Er; [|done].
  destruct (EvalRun.run_cells _ _ status n base env (S i) cells) as [[os|e] calls''] eqn:Ec; [|done]. cbn [rbind].
  intros [= <- _]. destruct (IH _ _ _ Ec) as [Hlen Hk]. split; [simpl; by rewrite Hlen|].
  intros [|k] p' s' Hp'; [injection Hp' as <- <-; exists c; rewrite Nat.add_0_r, Er; done|].
  destruct (Hk k p' s' Hp') as (c' & Hc' & Hr). exists c'. by rewrite Nat.add_succ_r.
Qed.

Lemma run_cells_returns status n base env i cells :
  (0 < n)%nat → ∃ outcomes calls, run_cells status n base env i cells = (Ret outcomes, calls).
Proof.
  intros Hn. revert i. induction cells as [|[p s] cells IH]; intros i; cbn [EvalRun.run_cells]; [eauto|].
  assert (∃ c, (run_repeats status n base p s (env i)).1 = Ret c) as [c Hc].
  { unfold EvalRun.run_repeats. destruct (_ || _); cbn [fst].
    - apply aggregate_cell_returns; [destruct n; [lia|done]|]. by apply Forall_replicate.
    - apply aggregate_cell_returns.
      + destruct n; [lia|]. done.
      + do 2 apply Forall_fmap. apply Forall_forall. intros k _. by destruct (run_cell_single p s base (env i k)). }
  destruct (EvalRun.run_repeats _ _ status n base p s (env i)) as [r calls']. cbn [fst] in Hc. subst r.
  destruct (IH (S i)) as (os & calls'' & ->). cbn [rbind]. eauto.
Qed.

Lemma length_filter_fmap {A B} (f : A → B) (P : B → Prop) `{∀ x, Decision (P x)} l :
  length (filter P (f <$> l)) = length (filter (λ x, P (f x)) l).
Proof. induction l as [|x l IH]; [done|]. rewrite fmap_cons, !filter_cons. case_decide; simpl; by rewrite IH. Qed.

(** A cell that the manifest rejects is never clean. *)
Lemma rejected_never_clean p s error n :
  ¬ (length (replicate n (never_ran_cell p s CManifestRejected error None))
     < 2 * length (filter (λ r, clean_cell r = true) (replicate n (never_ran_cell p s CManifestRejected error None))))%nat.
Proof.
  assert (filter (λ r, clean_cell r = true) (replicate n (never_ran_cell p s CManifestRejected error None)) = []) as ->.
  { induction n as [|n IH]; [done|]. simpl replicate. rewrite filter_cons_False; [done|]. by intros [? _]%clean_cell_spec. }
  simpl. lia.
Qed.

Lemma pass_reasons outcomes accounting repeat_count shipped :
  rep_overall_status (build_report outcomes accounting repeat_count shipped) = txt "PASS" ↔
  (compute_pass_fail outcomes).2 = [] ∧ mismatch_reasons outcomes repeat_count = []
  ∧ rep_failure_reasons (build_report outcomes accounting repeat_count shipped) = [].
Proof.
  unfold build_report. cbn [rep_overall_status rep_failure_reasons]. rewrite !app_nil. unfold overall_status.
  split.
  - intros Hp. destruct (_ ++ _) as [|x l] eqn:E; [|vm_compute in Hp; congruence]. apply app_nil in E as [E1 [E2 E3]%app_nil]. by split_and!.
  - intros (E1 & E2 & _ & _ & E3). by rewrite E1, E2, E3.
Qed.

(** C12.  A run that is reported as passed has earned it.  For every pair and every
    scenario of the matrix, the manifest covers both candidates, and in a strict
    majority of the repetitions everything the scenario asks for was met: the host
    was built, answered every turn with a result that is no placeholder, routed and
    delegated as expected, cited where citations are expected, ran the candidate's
    model in every worker, satisfied the judge, was measured within the budget where
    the pair enforces it, and was shut down without an error. *)
Theorem pass_is_earned pairs scenarios base status repeat_count env outcomes calls accounting shipped :
  run_matrix pairs scenarios base status repeat_count env = (Ret outcomes, calls) →
  rep_overall_status (build_report outcomes accounting repeat_count shipped) = txt "PASS" →
  ∀ i p s, matrix_cells pairs scenarios !! i = Some (p, s) →
    candidate_accepted (rp_router p) status = true ∧ candidate_accepted (rp_worker p) status = true
    ∧ ∃ ks, NoDup ks ∧ (repeat_count < 2 * Z.of_nat (length ks))%Z
            ∧ ∀ k, k ∈ ks → (Z.of_nat k < repeat_count)%Z ∧ cell_passed p s base (env i k).
Proof.
  intros Hm Hp i p s Hi. unfold EvalRun.run_matrix in Hm. destruct (Z.ltb_spec repeat_count 1) as [|Hge]; [done|].
  apply run_cells_lookup in Hm as [_ Hm]. destruct (Hm i p s Hi) as (c & Hc & Hr). rewrite Nat.add_0_l in Hr.
  assert (repeat_reasons c ++ cell_failure_reasons c = []) as Hclean.
  { apply pass_reasons in Hp as [Hp _]. unfold compute_pass_fail in Hp. cbn [snd] in Hp.
    destruct (repeat_reasons c ++ cell_failure_reasons c) as [|x l] eqn:E; [done|]. exfalso.
    assert (x ∈ outcomes ≫= (λ c, repeat_reasons c ++ cell_failure_reasons c)) as Hx.
    { apply list_elem_of_bind. exists c. split; [rewrite E; left|by eapply list_elem_of_lookup_2]. }
    rewrite Hp in Hx. by apply elem_of_nil in Hx. }
  unfold EvalRun.run_repeats in Hr.
  destruct (candidate_accepted (rp_router p) status) eqn:E1, (candidate_accepted (rp_worker p) status) eqn:E2;
    cbn [negb orb fst] in Hr; apply (clean_majority _ _ _ _ Hr) in Hclean;
    [|exfalso; by eapply rejected_never_clean..].
  split_and!; [done..|]. rewrite !length_fmap, length_seq in Hclean.
  exists (filter (λ k, clean_cell (run_cell p s base (env i k)).1 = true) (seq 0 (Z.to_nat repeat_count))). split_and!.
  - apply NoDup_filter, NoDup_seq.
  - rewrite !length_filter_fmap in Hclean. lia.
  - intros k [Hk Hs]%list_elem_of_filter. apply elem_of_seq in Hs. split; [lia|]. by apply clean_cell_passed.
Qed.

Lemma insert_text_elem x t l : x ∈ insert_text t l → x = t ∨ x ∈ l.
Proof.
  induction l as [|u l IH]; simpl; [rewrite list_elem_of_singleton; auto|].
  case_bool_decide; [auto|]. destruct (text_ltb t u); rewrite ?elem_of_cons; naive_solver.
Qed.

Lemma sorted_texts_incl x l : x ∈ sorted_set l → x ∈ l.
Proof.
  induction l as [|t l IH]; [done|]. change (sorted_set (t :: l)) with (insert_text t (sorted_set l)).
  intros [->|Hx]%insert_text_elem; [left|right; auto].
Qed.

Lemma matrix_cells_pair pairs scenarios i p s : matrix_cells pairs scenarios !! i = Some (p, s) → p ∈ pairs.
Proof. intros (p' & (s' & [= <- <-] & _)%list_elem_of_fmap & Hp)%list_elem_of_lookup_2%list_elem_of_bind. done. Qed.

(** What a cell whose repetitions all pass contributes to the report *)
Lemma passed_cell status n base p s (env : nat → CellEnv) c :
  (0 < n)%nat → candidate_accepted (rp_router p) status = true → candidate_accepted (rp_worker p) status = true →
  (∀ k, (k < n)%nat → cell_passed p s base (env k)) →
  (run_repeats status n base p s env).1 = Ret c →
  repeat_reasons c ++ cell_failure_reasons c = [] ∧ observed_repeats c = n ∧ co_pair_label c = pair_label p.
Proof.
  intros Hn E1 E2 Hk. unfold EvalRun.run_repeats. rewrite E1, E2. cbn [negb orb fst].
  set (repeats := ((λ k, run_cell p s base (env k)) <$> seq 0 n).*1). intros Ha.
  assert (Forall (λ r, clean_cell r = true ∧ ∃ ts, co_turns r = Some ts ∧ length ts = length (sn_turns s)
                       ∧ Forall clean_turn ts ∧ Forall (latency_recorded p) ts) repeats) as Hall.
  { unfold repeats. do 2 apply Forall_fmap. apply Forall_forall. intros k Hks%elem_of_seq. cbn [compose].
    assert (clean_cell (run_cell p s base (env k)).1 = true) as Hc by (apply clean_cell_passed, Hk; lia).
    split; [done|]. by apply run_cell_clean_turns. }
  assert (length repeats = n) as Hlen by (unfold repeats; by rewrite !length_fmap, length_seq).
  pose proof (aggregate_cell_clean p _ _ _ _ (length (sn_turns s)) Ha Hall) as Hc.
  unfold clean_cell in Hc. apply bool_decide_eq_true in Hc. rewrite Hc, app_nil_r.
  apply aggregate_cell_repeated in Ha as [E|(E & El & _)].
  - assert (c ∈ repeats) as Hin by (rewrite E; left). unfold repeats in Hin.
    apply list_elem_of_fmap in Hin as (x & -> & (k & -> & _)%list_elem_of_fmap).
    destruct (run_cell_single p s base (env k)) as [R1 R2]. unfold repeat_reasons, observed_repeats. rewrite R1, R2.
    rewrite E in Hlen. simpl in Hlen. done.
  - unfold repeat_reasons, observed_repeats. rewrite E, El, filter_all, Hlen.
    2: { eapply Forall_impl; [exact Hall|]. by intros ? [? _]. }
    destruct (Nat.leb_spec (n * 2) n); [lia|done].
Qed.

(** A run raises no false alarm: when every repetition of every cell meets
    what the scenario asks for, the matrix returns and the report says that the run
    passed, for any number of repetitions.  The averages over repetitions within the
    budget are within it. *)
Theorem clean_run_passes pairs scenarios base status repeat_count env accounting shipped :
  (1 ≤ repeat_count)%Z →
  (∀ i p s, matrix_cells pairs scenarios !! i = Some (p, s) →
     candidate_accepted (rp_router p) status = true ∧ candidate_accepted (rp_worker p) status = true
     ∧ ∀ k, (Z.of_nat k < repeat_count)%Z → cell_passed p s base (env i k)) →
  ∃ outcomes calls,
    run_matrix pairs scenarios base status repeat_count env = (Ret outcomes, calls)
    ∧ rep_overall_status (build_report outcomes accounting repeat_count (Some (shipped, pairs))) = txt "PASS".
Proof.
  intros Hge Hpass. unfold EvalRun.run_matrix. destruct (Z.ltb_spec repeat_count 1) as [|_]; [lia|].
  destruct (run_cells_returns status (Z.to_nat repeat_count) base env 0 (matrix_cells pairs scenarios)) as (os & calls & E); [lia|].
  exists os, calls. split; [done|]. apply run_cells_lookup in E as [Hlen Hk].
  assert (∀ c, c ∈ os → repeat_reasons c ++ cell_failure_reasons c = [] ∧ observed_repeats c = Z.to_nat repeat_count
                        ∧ co_pair_label c ∈ pair_label <$> pairs) as Hc.
  { intros c [i Hi]%list_elem_of_lookup. destruct (matrix_cells pairs scenarios !! i) as [[p s]|] eqn:Ep.
    2: { apply lookup_ge_None in Ep. apply lookup_lt_Some in Hi. lia. }
    destruct (Hk i p s Ep) as (c' & Hi' & Hr). rewrite Hi in Hi'. injection Hi' as <-. rewrite Nat.add_0_l in Hr.
    destruct (Hpass i p s Ep) as (A1 & A2 & A3).
    destruct (passed_cell status (Z.to_nat repeat_count) base p s (env i) c) as (R1 & R2 & R3);
      [lia|done|done|intros k Hlt; apply A3; lia|done|].
    split_and!; [done..|]. rewrite R3. apply list_elem_of_fmap_2. by eapply matrix_cells_pair. }
  unfold build_report. cbn [rep_overall_status].
  assert ((compute_pass_fail os).2 = []) as ->.
  { unfold compute_pass_fail. cbn [snd]. clear -Hc. induction os as [|c os IH]; [done|]. rewrite bind_cons.
    destruct (Hc c) as [-> _]; [left|]. apply IH. intros c' Hc'. apply Hc. by right. }
  assert (mismatch_reasons os repeat_count = []) as ->.
  { unfold mismatch_reasons. destruct (existsb _ os) eqn:Ex; [|done]. apply existsb_exists in Ex as (c & Hin & En).
    apply list_elem_of_In in Hin. destruct (Hc c Hin) as (_ & Eo & _). rewrite Eo in En.
    apply negb_true_iff, Z.eqb_neq in En. lia. }
  cbn [fmap option_fmap option_map fst snd]. unfold shipped_config_cells_annotation.
  destruct (unmatched_label pairs _) as [l|] eqn:El; [|done]. exfalso. unfold unmatched_label in El.
  apply head_filter in El as [Hn Hin]. apply sorted_texts_incl, list_elem_of_fmap in Hin as (c & -> & Hin).
  by destruct (Hc c Hin) as (_ & _ & ?).
Qed.

End verdict.
