(* ===== verification/EvalSpend.v ===== *)
(** What an evaluation run pays for: the estimate shown to the operator bounds
    the calls that are made, and no call is made before every gate is passed. *)

From S2P Require Import Prelude PyDict PyText PyValue ConfigLayers Config ConfigFacts Json EvalCommon EvalMatrix EvalVote EvalManifest EvalRun EvalReport EvalFacts EvalVerdict.

Definition is_host_call (c : paid_call) : bool := match c with HostCall _ => true | JudgeCall _ => false end.

Definition host_calls (l : list paid_call) : nat := length (filter (λ c, is_host_call c = true) l).
Definition judged_calls (l : list paid_call) : nat := length (filter (λ c, is_host_call c = false) l).

Lemma host_calls_app l1 l2 : host_calls (l1 ++ l2) = (host_calls l1 + host_calls l2)%nat.
Proof. unfold host_calls. by rewrite filter_app, length_app. Qed.
Lemma judged_calls_app l1 l2 : judged_calls (l1 ++ l2) = (judged_calls l1 + judged_calls l2)%nat.
Proof. unfold judged_calls. by rewrite filter_app, length_app. Qed.

(** The judge is asked at most once for a turn that has a criterion. *)
Definition judged_count (turns : list Turn) : nat := length (filter (λ t, judged_turn t = true) turns).

Definition within_calls (hosts judges : nat) (l : list paid_call) : Prop := (host_calls l ≤ hosts ∧ judged_calls l ≤ judges)%nat.

Lemma within_app h1 j1 h2 j2 l1 l2 :
  within_calls h1 j1 l1 → within_calls h2 j2 l2 → within_calls (h1 + h2) (j1 + j2) (l1 ++ l2).
Proof. intros [? ?] [? ?]. unfold within_calls. rewrite host_calls_app, judged_calls_app. lia. Qed.

Lemma within_nil h j : within_calls h j [].
Proof. split; apply Nat.le_0_l. Qed.

Lemma within_weaken h j h' j' l : within_calls h j l → (h ≤ h')%nat → (j ≤ j')%nat → within_calls h' j' l.
Proof. unfold within_calls. lia. Qed.

Section spend.
Context `{Printing} `{HostEnv}.
Context (max_routing_seconds max_latency_seconds : Q).
Implicit Types (p : RunPair) (s : Scenario) (t : Turn).

(** ** The calls of a run *)

Lemma judge_turn_calls credential t j o : within_calls 0 (judged_count [t]) (judge_turn credential t j o).2.
Proof.
  unfold judge_turn, judged_count. rewrite filter_cons. destruct (judged_turn t) eqn:E; cbn [negb snd].
  - rewrite decide_True by done. split; vm_compute; lia.
  - apply within_nil.
Qed.

Lemma run_turn_calls p c t a checked :
  within_calls 1 (judged_count [t]) (run_turn max_routing_seconds max_latency_seconds p c t a checked).2.
Proof.
  assert (∀ l, within_calls 0 (judged_count [t]) l → within_calls 1 (judged_count [t]) (HostCall (tn_query t) :: l)) as Hcons.
  { intros l Hl. change (HostCall (tn_query t) :: l) with ([HostCall (tn_query t)] ++ l).
    apply (within_app 1 0 0 (judged_count [t])); [split; vm_compute; lia|done]. }
  assert (∀ results r, within_calls 0 (judged_count [t])
            (score_reply max_routing_seconds max_latency_seconds p (credential_of c) t a results r checked).2) as Hscore.
  { intros results r. unfold score_reply.
    pose proof (within_nil 0 (judged_count [t])) as Hnil.
    destruct (bool_decide (re_ui_text r ∈ TIMEOUT_FALLBACKS)); [done|].
    destruct (bool_decide (re_ui_text r ∈ SAFE_FALLBACKS) && _); [done|].
    destruct (check_workers p checked (an_workers a)) as [ck [msg|]]; [done|].
    destruct (delegated _ results) as [d|]; [|done].
    destruct (if tn_expect_citations t then _ else _) as [ci|]; [|done].
    destruct (measure_turn a (re_turn_id r)) as [m| | |e]; [| |done|done].
    all: match goal with |- context[judge_turn ?x ?y ?z ?w] => pose proof (judge_turn_calls x y z w) as Hj;
           destruct (judge_turn x y z w) as [o' calls]; exact Hj end. }
  unfold run_turn. pose proof (within_nil 0 (judged_count [t])) as Hnil.
  destruct (an_handled a) as [|e|[|u|r]|[|[|u|r] l]]; try (apply Hcons, Hnil).
  - specialize (Hscore [IReply r] r). destruct (score_reply _ _ p _ t a [IReply r] r checked). by apply Hcons.
  - specialize (Hscore (IReply r :: l) r). destruct (score_reply _ _ p _ t a (IReply r :: l) r checked). by apply Hcons.
Qed.

Lemma judged_count_cons t turns : judged_count (t :: turns) = (judged_count [t] + judged_count turns)%nat.
Proof. unfold judged_count. rewrite !filter_cons. case_decide; simpl; lia. Qed.

Lemma run_turns_calls p c answers i turns checked :
  within_calls (length turns) (judged_count turns)
    (cr_calls (run_turns max_routing_seconds max_latency_seconds p c answers i turns checked)).
Proof.
  revert i checked. induction turns as [|t turns IH]; intros i checked; cbn [run_turns length]; [apply within_nil|].
  rewrite judged_count_cons. pose proof (run_turn_calls p c t (answers i) checked) as Ht.
  destruct (run_turn _ _ p c t (answers i) checked) as [[o ck|o st e|e] calls]; cbn [snd cr_calls] in *;
    [by apply (within_app 1 _ (length turns))|eapply within_weaken; [done|lia|lia]..].
Qed.

Lemma finish_cell_calls p s env c host judge r : (finish_cell p s env c host judge r).2 = cr_calls r.
Proof.
  unfold finish_cell. cbn [snd]. assert (∀ credential what applies e r, cr_calls (cleanup credential what applies e r) = cr_calls r) as Hk.
  { intros. unfold cleanup. by repeat case_match. }
  by rewrite !Hk.
Qed.

Lemma run_cell_calls p s base env :
  within_calls (length (sn_turns s)) (judged_count (sn_turns s)) (run_cell max_routing_seconds max_latency_seconds p s base env).2.
Proof.
  pose proof (within_nil (length (sn_turns s)) (judged_count (sn_turns s))) as Hnil.
  unfold run_cell. destruct (ce_import env); [by rewrite finish_cell_calls|].
  destruct (per_run_config _ _ base p) as [c|]; [|by rewrite finish_cell_calls].
  destruct (resolved_router c) as [[m e]|]; [|by rewrite finish_cell_calls]. destruct (negb _); [done|].
  destruct (ce_session env); [by rewrite finish_cell_calls|]. destruct (ce_judge_service env); [by rewrite finish_cell_calls|].
  destruct (ce_connect env); rewrite finish_cell_calls; [done|]. apply run_turns_calls.
Qed.

Lemma run_repeats_calls status n base p s env :
  within_calls (n * length (sn_turns s)) (n * judged_count (sn_turns s))
    (run_repeats max_routing_seconds max_latency_seconds status n base p s env).2.
Proof.
  unfold run_repeats. destruct (_ || _); [apply within_nil|]. cbn [snd]. rewrite <- (length_seq n 0) at 1 2.
  induction (seq 0 n) as [|k l IH]; [apply within_nil|]. rewrite !fmap_cons. cbn [concat length Nat.mul].
  apply within_app; [apply run_cell_calls|exact IH].
Qed.

(** The turns and the judged turns of the cells *)
Definition cells_total (f : Scenario → nat) (cells : list (RunPair * Scenario)) : nat := sum_list_with (λ c, f c.2) cells.

Lemma run_cells_calls status n base env i cells :
  within_calls (n * cells_total (λ s, length (sn_turns s)) cells) (n * cells_total (λ s, judged_count (sn_turns s)) cells)
    (run_cells max_routing_seconds max_latency_seconds status n base env i cells).2.
Proof.
  revert i. induction cells as [|[p s] cells IH]; intros i; cbn [run_cells]; [apply within_nil|].
  unfold cells_total. cbn [sum_list_with snd]. rewrite !Nat.mul_add_distr_l.
  pose proof (run_repeats_calls status n base p s (env i)) as Hr. specialize (IH (S i)).
  destruct (run_repeats _ _ status n base p s (env i)) as [[c|e] calls]; cbn [snd] in *; [|eapply within_weaken; [done|lia|lia]].
  destruct (run_cells _ _ status n base env (S i) cells) as [r calls']. cbn [snd] in *. by apply within_app.
Qed.

(** ** The estimate *)

Lemma add_scenarios acc scenarios :
  foldl add_scenario acc scenarios
  = (acc.1.1 + Z.of_nat (sum_list_with (λ s, length (sn_turns s)) scenarios),
     acc.1.2 + Z.of_nat (sum_list_with (λ s, length (sn_turns s)) scenarios),
     acc.2 + Z.of_nat (sum_list_with (λ s, judged_count (sn_turns s)) scenarios))%Z.
Proof.
  revert acc. induction scenarios as [|s l IH]; intros [[r w] j]; cbn [foldl sum_list_with].
  { simpl. f_equal; [f_equal|]; lia. }
  rewrite IH. unfold add_scenario, scenario_call_counts. cbn [fst snd]. fold (judged_count (sn_turns s)). f_equal; [f_equal|]; lia.
Qed.

Lemma add_matrix acc (pairs : list RunPair) scenarios :
  foldl (λ acc _, foldl add_scenario acc scenarios) acc pairs
  = (acc.1.1 + Z.of_nat (cells_total (λ s, length (sn_turns s)) (matrix_cells pairs scenarios)),
     acc.1.2 + Z.of_nat (cells_total (λ s, length (sn_turns s)) (matrix_cells pairs scenarios)),
     acc.2 + Z.of_nat (cells_total (λ s, judged_count (sn_turns s)) (matrix_cells pairs scenarios)))%Z.
Proof.
  assert (∀ f p (l : list Scenario), cells_total f ((λ s, (p, s)) <$> l) = sum_list_with f l) as Hone.
  { intros f p l. unfold cells_total. induction l as [|s l IH]; [done|]. rewrite fmap_cons. cbn [sum_list_with snd]. by rewrite IH. }
  revert acc. induction pairs as [|p pairs IH]; intros acc; cbn [foldl].
  { destruct acc as [[r w] j]. simpl. f_equal; [f_equal|]; lia. }
  rewrite IH, add_scenarios. unfold matrix_cells. rewrite !bind_cons. unfold cells_total. rewrite !sum_list_with_app.
  fold (cells_total (λ s, length (sn_turns s)) ((λ s, (p, s)) <$> scenarios)).
  fold (cells_total (λ s, judged_count (sn_turns s)) ((λ s, (p, s)) <$> scenarios)). rewrite !Hone. cbn [fst snd]. f_equal; [f_equal|]; lia.
Qed.

(** Every call counts with its two retries: one to the router and one to a worker
    for a turn, and one to the judge. *)
Lemma estimate_bounds_run pairs scenarios base status repeat_count env :
  let calls := (run_matrix max_routing_seconds max_latency_seconds pairs scenarios base status repeat_count env).2 in
  let estimate := matrix_call_accounting pairs scenarios repeat_count in
  calls ≠ [] →
  (3 * Z.of_nat (host_calls calls) ≤ router_calls estimate ∧ 3 * Z.of_nat (host_calls calls) ≤ worker_calls estimate
   ∧ 3 * Z.of_nat (judged_calls calls) ≤ judge_calls estimate)%Z.
Proof.
  intros calls estimate. unfold calls, run_matrix. destruct (Z.ltb_spec repeat_count 1); [done|]. intros _.
  pose proof (run_cells_calls status (Z.to_nat repeat_count) base env 0 (matrix_cells pairs scenarios)) as [Hh Hj].
  unfold estimate, matrix_call_accounting. rewrite add_matrix. cbn [fst snd router_calls worker_calls judge_calls].
  unfold RETRY_WORST_CASE_MULTIPLIER. nia.
Qed.

End spend.

Section gates.
Context `{Printing} `{HostEnv}.
Implicit Types (a : Args) (o : Outside).

Definition confirmed (operator : answer) : bool :=
  match operator with Line t => lower_is (strip t) "y" || lower_is (strip t) "yes" | _ => false end.

Lemma confirm_spend_spec estimate max_calls max_cost assume_yes operator :
  confirm_spend estimate max_calls max_cost assume_yes operator = true →
  exceeds estimate max_calls max_cost = true → assume_yes = true ∨ confirmed operator = true.
Proof.
  unfold confirm_spend, confirmed. intros Hc He. rewrite He in Hc. cbn [negb] in Hc. destruct assume_yes; [by left|]. right. by destruct operator.
Qed.


End gates.

(** A small evaluation run to evaluate the definitions on: one pair, one
    scenario of one turn, repeated twice. *)
#[local] Existing Instance sample_host.

Definition sample_printing : Printing := {| str_repr := id; printed_runtime := sample_runtime |}.
#[local] Existing Instance sample_printing.

Definition one_pair : Registry := mkRegistry ROUTER_BASELINE [] WORKER_BASELINE [].

Definition base_pair : RunPair := mkPair ROUTER_BASELINE WORKER_BASELINE true.

Definition probed_kwargs (model : string) (extra : dict text json) : json := JObj ((txt "model", JStr (txt model)) :: extra).

Definition entry_of (kind model : string) (tools : list string) (effort : json) (kwargs : json) : json :=
  JObj [(txt "accepted", JBool true); (txt "kind", JStr (txt kind)); (txt "model", JStr (txt model)); (txt "effort", effort);
        (txt "tools", JArr (JStr ∘ txt <$> tools)); (txt "request_kwargs", kwargs)].

Definition full_manifest : json :=
  JObj [(txt "manifest_version", JInt 1); (txt "source_commit", JStr (txt "c0"));
        (txt "results", JArr
           [entry_of "router" "gpt-5-mini" ["text"] (JStr (txt "minimal"))
              (probed_kwargs "gpt-5-mini" [(txt "input", JStr (txt "p")); (txt "store", JBool false); (txt "text", JObj []);
                                           (txt "reasoning", JObj [(txt "effort", JStr (txt "minimal"))])]);
            entry_of "worker" "gpt-5" ["web_search"] JNull
              (probed_kwargs "gpt-5" [(txt "tools", JArr [JObj [(txt "type", JStr (txt "web_search"))]]);
                                      (txt "tool_choice", JStr (txt "required")); (txt "text", JObj []);
                                      (txt "store", JBool false)]);
            entry_of "judge" "gpt-5-mini" [] JNull
              (probed_kwargs "gpt-5-mini" [(txt "reasoning_effort", JStr (txt "minimal"));
                                           (txt "messages", JArr [JObj [(txt "role", JStr (txt "user"));
                                                                        (txt "content", JStr (txt "p"))]])])])].

Definition full_status : ManifestStatus :=
  mkStatus true (Some (txt "c0")) (Some (txt "c0")) false
    [(txt "router", txt "gpt-5-mini", Some (txt "minimal")); (txt "worker", txt "gpt-5", None);
     (txt "judge", txt "gpt-5-mini", None)].

Lemma full_manifest_loads :
  load_manifest_status (Some (txt "c0")) (Some false) (Parsed full_manifest) = Ret full_status.
Proof. vm_compute. reflexivity. Qed.

(** The host answers, cites, and is measured at two and nine seconds. *)
Definition good_answer : TurnAnswer :=
  mkAnswer (HOne (IReply (mkReply (txt "Release 1.8.0.") (txt "t1") (txt "worker-1") [txt "https://example.org"]))) 9000
    (Some (txt "new_worker", txt "t1")) [(txt "worker-1", (Some (txt "gpt-5"), None))]
    [mkMeasurement (txt "app_turn_foreground") (Some (txt "t1")) (Ms 2000) MsAbsent (Ms 9000);
     mkMeasurement (txt "work_item_foreground") (Some (txt "t1")) MsAbsent (Ms 6000) MsAbsent]
    (Judged VYes (txt "states a version")).

Definition good_env : CellEnv := mkCellEnv None None None None (λ _, good_answer) None None None.

Definition sample_outcomes : list CellOutcome :=
  Eval vm_compute in
    match run_matrix 15 60 [base_pair] [SINGLE_TURN_DEFAULT] sample_config full_status 2 (λ _ _, good_env) with
    | (Ret l, _) => l
    | _ => []
    end.

Definition sample_calls : list paid_call :=
  Eval vm_compute in (run_matrix 15 60 [base_pair] [SINGLE_TURN_DEFAULT] sample_config full_status 2 (λ _ _, good_env)).2.

Lemma sample_runs :
  run_matrix 15 60 [base_pair] [SINGLE_TURN_DEFAULT] sample_config full_status 2 (λ _ _, good_env)
  = (Ret sample_outcomes, sample_calls).
Proof. vm_compute. reflexivity. Qed.

Lemma sample_passes :
  rep_overall_status (build_report sample_outcomes None 2 None) = txt "PASS".
Proof. vm_compute. reflexivity. Qed.

Lemma sample_cell_passed : cell_passed 15 60 base_pair SINGLE_TURN_DEFAULT sample_config good_env.
Proof. apply clean_cell_passed. vm_compute. reflexivity. Qed.

Lemma pass_is_earned_witness :
  ∃ ks, NoDup ks ∧ (2 < 2 * Z.of_nat (length ks))%Z
        ∧ ∀ k, k ∈ ks → (Z.of_nat k < 2)%Z ∧ cell_passed 15 60 base_pair SINGLE_TURN_DEFAULT sample_config good_env.
Proof.
  exact (proj2 (proj2 (pass_is_earned 15 60 [base_pair] [SINGLE_TURN_DEFAULT] sample_config full_status 2 (λ _ _, good_env)
                         sample_outcomes sample_calls None None sample_runs sample_passes 0 base_pair SINGLE_TURN_DEFAULT eq_refl))).
Defined.

Lemma clean_run_passes_witness :
  ∃ outcomes calls,
    run_matrix 15 60 [base_pair] [SINGLE_TURN_DEFAULT] sample_config full_status 3 (λ _ _, good_env) = (Ret outcomes, calls)
    ∧ rep_overall_status (build_report outcomes None 3 (Some ((ROUTER_BASELINE, WORKER_BASELINE), [base_pair]))) = txt "PASS".
Proof.
  apply clean_run_passes; [lia|]. intros i p s Hi.
  destruct i as [|i]; [|by destruct i]. injection Hi as <- <-.
  split; [vm_compute; reflexivity|]. split; [vm_compute; reflexivity|]. intros k _. exact sample_cell_passed.
Defined.

Definition sample_args : Args :=
  mkArgs false false 2 None None (Some (txt "single-turn-default")) (Some 18%Z) None false false (txt "gpt-5-mini") 15 60 false.

Definition sample_outside : Outside :=
  mkOutside true (Some (txt "c0")) (Some false) (Parsed full_manifest) (Ret sample_config) (Ret sample_config) NotATerminal
    (λ _ _, good_env) true.

Lemma sample_main_calls : mn_calls (main sample_args sample_outside one_pair) = sample_calls.
Proof. vm_compute. reflexivity. Qed.

