(* ===== verification/Evidence.v ===== *)
(** The shared part of the evidence scripts ([scripts/evidence_common.py]): reading
    and writing artifacts, type checks on what was read, confinement of paths, and
    the check of a record against its fixture.

    What the operating system, the JSON reader and the hash function answer is a
    class.  A file descriptor is what [fstat] says of it and what successive [read]
    calls return; the files do not change while a script runs.  A path is absolute and
    given by its components.  An exception keeps its class, not its message. *)

From Stdlib Require Import QArith Qabs Qminmax.
From S2P Require Import Prelude PyDict PyText PyValue Json EvalVote.

Definition EvidenceGateError : exn := OtherException "EvidenceGateError".
Definition MissingEvidenceInput : exn := OtherException "MissingEvidenceInput".
Definition OSError : exn := OtherException "OSError".
Definition JSONDecodeError : exn := OtherException "JSONDecodeError".
Definition UnicodeDecodeError : exn := OtherException "UnicodeDecodeError".

(** [except EvidenceGateError], which also catches the subclass *)
Definition is_gate_error (e : exn) : bool := bool_decide (e = EvidenceGateError ∨ e = MissingEvidenceInput).

Abbreviation bytes := (list N) (only parsing).
Abbreviation path := (list (list N)) (only parsing).

Inductive errno := ENOENT | ENXIO | ELOOP | OtherErrno.
Inductive read_step := Chunk (b : list N) | ReadFails.
Inductive write_step := Wrote (n : nat) | WriteFails.
Inductive opened (A : Type) := Opened (regular : bool) (steps : list A) | OpenFails (e : errno).
Arguments Opened {A} regular steps.
Arguments OpenFails {A} e.

Class EvidenceOS := {
  os_open : path → opened read_step;         (* [O_RDONLY | O_NOFOLLOW | O_NONBLOCK] *)
  os_open_write : path → opened write_step;  (* [O_WRONLY | O_CREAT | O_TRUNC | O_NOFOLLOW | O_NONBLOCK] *)
  path_exists : path → bool;
  is_symlink : path → bool;
  resolve : path → result path;              (* [Path.resolve] *)
  REPO_ROOT : path;
  sha256 : bytes → text;                     (* the hexadecimal digest *)
  json_decode : bytes → result text;         (* how [json.loads] decodes bytes *)
  utf8_decode : bytes → result text;
  json_loads : text → result json
}.

Section evidence.
Context `{EvidenceOS}.
Implicit Types (p root : path) (b : bytes) (v : json) (t raw : text).

Definition gate {A} : result A := Raise EvidenceGateError.
Definition require (b : bool) : result unit := if b then Ret tt else gate.

(** ** Reading *)

Definition MAX_EVIDENCE_INPUT_BYTES : N := 8 * 1024 * 1024.
Definition MAX_EVIDENCE_OUTPUT_BYTES : N := 8 * 1024 * 1024.

Definition require_regular_fd (regular : bool) : result unit := require regular.

(** The loop of [_iter_file_chunks] *)
Fixpoint read_chunks (max_bytes total : N) (steps : list read_step) : result (list (list N)) :=
  match steps with
  | [] | Chunk [] :: _ => Ret []
  | ReadFails :: _ => gate
  | Chunk c :: steps' =>
      let total := (total + N.of_nat (length c))%N in
      if (max_bytes <? total)%N then gate
      else rest ←? read_chunks max_bytes total steps' ;; Ret (c :: rest)
  end.

Definition iter_file_chunks p (max_bytes : N) : result (list (list N)) :=
  match os_open p with
  | OpenFails ENOENT => Raise MissingEvidenceInput
  | OpenFails _ => gate
  | Opened regular steps => _ ←? require_regular_fd regular ;; read_chunks max_bytes 0 steps
  end.

Definition read_bytes_no_follow p : result (list N) :=
  chunks ←? iter_file_chunks p MAX_EVIDENCE_INPUT_BYTES ;; Ret (concat chunks).

Definition read_bytes_if_present p : result (option (list N)) :=
  match read_bytes_no_follow p with
  | Ret b => Ret (Some b)
  | Raise e => if bool_decide (e = MissingEvidenceInput) then Ret None else Raise e
  end.

(** [digest.update] on each chunk is the digest of their concatenation. *)
Definition sha256_file p : result text :=
  chunks ←? iter_file_chunks p MAX_EVIDENCE_INPUT_BYTES ;; Ret (sha256 (concat chunks)).

(** The handlers around [json.loads] and [decode] *)
Definition wrap {A} (classes : list exn) (x : result A) : result A :=
  match x with Ret a => Ret a | Raise e => if bool_decide (e ∈ classes) then gate else Raise e end.

Definition load_json p : result json :=
  data ←? read_bytes_no_follow p ;;
  wrap [JSONDecodeError; UnicodeDecodeError] (t ←? json_decode data ;; json_loads t).

(** [t.split(c)] for a one-character separator *)
Fixpoint split_on (c : N) t : list (list N) :=
  match t with
  | [] => [[]]
  | x :: t' =>
      if (x =? c)%N then [] :: split_on c t'
      else match split_on c t' with u :: l => (x :: u) :: l | [] => [[x]] end
  end.

Fixpoint load_lines (validate_record : nat → dict text json → result unit) (line_no : nat) (lines : list (list N))
    : result (list (dict text json)) :=
  match lines with
  | [] => Ret []
  | raw_line :: lines' =>
      match strip raw_line with
      | [] => load_lines validate_record (S line_no) lines'
      | line =>
          v ←? wrap [JSONDecodeError] (json_loads line) ;;
          match v with
          | JObj record =>
              _ ←? validate_record line_no record ;;
              records ←? load_lines validate_record (S line_no) lines' ;;
              Ret (record :: records)
          | _ => gate
          end
      end
  end.

Definition load_jsonl p (validate_record : nat → dict text json → result unit) : result (list (dict text json)) :=
  data ←? read_bytes_no_follow p ;;
  t ←? wrap [UnicodeDecodeError] (utf8_decode data) ;;
  load_lines validate_record 1 (split_on 10 t).

(** ** Writing *)

Inductive write_end := Written | WritingFailed | StillWriting.

(** [while written < len(view)] and [os.fsync]: what reaches the file, and how it
    ends; the answer after the last [write] is that of [fsync].  A list of answers
    that runs out leaves the loop in a [write] call. *)
Fixpoint write_loop (view : bytes) (steps : list write_step) : bytes * write_end :=
  match view, steps with
  | [], WriteFails :: _ => ([], WritingFailed)
  | [], _ => ([], Written)
  | _, [] => ([], StillWriting)
  | _, WriteFails :: _ => ([], WritingFailed)
  | _, Wrote n :: steps' => let '(rest, e) := write_loop (drop n view) steps' in (take n view ++ rest, e)
  end.

(** What the regular file holds after the call, [None] if none was opened, and how
    the call ended; [None] for a call that has not ended *)
Definition write_bytes_no_follow p (payload : bytes) : option (list N) * option (result unit) :=
  if (MAX_EVIDENCE_OUTPUT_BYTES <? N.of_nat (length payload))%N then (None, Some gate)
  else
  match os_open_write p with
  | OpenFails ENXIO => (None, Some gate)
  | OpenFails _ => (None, Some (Raise OSError))
  | Opened regular steps =>
      match require_regular_fd regular with
      | Raise e => (None, Some (Raise e))
      | Ret _ =>
          let '(content, e) := write_loop payload steps in
          (Some content, match e with Written => Some (Ret tt) | WritingFailed => Some (Raise OSError) | StillWriting => None end)
      end
  end.

(** ** Types *)

Inductive kind := KStr | KInt | KFloat | KBool | KDict | KNone.
#[local] Instance kind_eq_dec : EqDecision kind.
Proof. solve_decision. Defined.

(** [isinstance(v, k)] *)
Definition has_kind v (k : kind) : bool :=
  match v, k with
  | JStr _, KStr | JInt _, KInt | JBool _, KInt | JFloat _, KFloat | JBool _, KBool | JObj _, KDict | JNull, KNone => true
  | _, _ => false
  end.

Definition is_bool v : bool := match v with JBool _ => true | _ => false end.

Definition require_type v (kinds : list kind) : result unit :=
  if is_bool v && negb (bool_decide (KBool ∈ kinds)) then gate else require (existsb (has_kind v) kinds).

Definition require_nonempty_str v : result text :=
  _ ←? require_type v [KStr] ;;
  match v with JStr (c :: t) => Ret (c :: t) | _ => gate end.

Definition hex_char (c : N) : bool := ascii_digit c || ((97 <=? c) && (c <=? 102))%N.

(** [HEX64_RE.fullmatch] *)
Definition HEX64_RE t : bool := bool_decide (length t = 64%nat) && forallb hex_char t.

Definition require_hex64 v : result text :=
  _ ←? require_type v [KStr] ;;
  match v with JStr t => _ ←? require (HEX64_RE t) ;; Ret t | _ => gate end.

(** [set(a) - b] has no element *)
Definition included (a b : list (list N)) : bool := forallb (λ k, bool_decide (k ∈ b)) a.

Definition closed_object (record : dict text json) (required allowed : list (list N)) : result unit :=
  _ ←? require (included (dict_keys record) allowed) ;; require (included required (dict_keys record)).

(** [record[key]] *)
Definition item (record : dict text json) (key : string) : result json :=
  match dict_get (txt key) record with Some v => Ret v | None => Raise KeyError end.

Definition unhashable v : bool := match v with JArr _ | JObj _ => true | _ => false end.

(** [v in s] for a set of strings *)
Definition in_set v (s : list (list N)) : result bool :=
  match v with
  | JArr _ | JObj _ => Raise (TypeError "unhashable type")
  | JStr t => Ret (bool_decide (t ∈ s))
  | _ => Ret false
  end.

(** [v == w]; a list or an object first compares elements by identity, and the NaNs
    that the reader gives are one object. *)
Definition is_nan v : bool := match v with JFloat NaN => true | _ => false end.

Definition number v : option pyfloat :=
  match v with
  | JBool b => Some (Finite (if b then 1 else 0)%Q)
  | JInt z => Some (Finite (inject_Z z))
  | JFloat f => Some f
  | _ => None
  end.

Fixpoint json_eqb (v w : json) {struct v} : bool :=
  match v, w with
  | JNull, JNull => true
  | JStr t, JStr u => bool_decide (t = u)
  | JArr l, JArr m =>
      (fix eqs (l m : list json) : bool :=
         match l, m with
         | [], [] => true
         | x :: l', y :: m' => (is_nan x && is_nan y || json_eqb x y) && eqs l' m'
         | _, _ => false
         end) l m
  | JObj d, JObj e =>
      bool_decide (length d = length e)
      && (fix all (d : dict text json) : bool :=
            match d with
            | [] => true
            | (k, x) :: d' => match dict_get k e with Some y => is_nan x && is_nan y || json_eqb x y | None => false end && all d'
            end) d
  | _, _ => match number v, number w with Some a, Some b => float_eq a b | _, _ => false end
  end.

(** ** Paths *)

(** The components of [Path(raw)] *)
Definition path_parts raw : path := filter (λ c, c ≠ [] ∧ c ≠ txt ".") (split_on 47 raw).
Definition is_absolute raw : bool := match raw with c :: _ => (c =? 47)%N | [] => false end.

Definition is_relative_to (p root : path) : bool := bool_decide (take (length root) p = root).

Definition denylisted (part : text) : bool := lower_is part ".git" || lower_is part ".github".

Definition refused : exn := ValueError "output path".

Definition confined_output_path raw (allowed_root : path) : result path :=
  root ←? resolve allowed_root ;;
  let resolved := if is_absolute raw then path_parts raw else root ++ path_parts raw in
  if is_symlink resolved then Raise refused
  else
    resolved ←? resolve resolved ;;
    if negb (is_relative_to resolved root) then Raise refused
    else if existsb denylisted resolved then Raise refused
    else Ret resolved.

(** [except ValueError], of which the gate's error is a subclass *)
Definition is_value_error (e : exn) : bool :=
  match e with ValueError _ | ConfigError _ | RoutingValidationError _ => true | _ => is_gate_error e end.

Definition confine_output_arg raw (allowed_root : path) : result path :=
  match confined_output_path raw allowed_root with
  | Ret p => Ret p
  | Raise e => if is_value_error e then gate else Raise e
  end.

Definition confined_evidence_input_path raw (allowed_root : path) : result (option path) :=
  if bool_decide (raw = []) then Ret None
  else
    root ←? resolve allowed_root ;;
    if is_absolute raw then Ret None
    else
      resolved ←? resolve (root ++ path_parts raw) ;;
      Ret (if is_relative_to resolved root then Some resolved else None).

End evidence.

(** ** Facts the gates share *)

Lemma require_true (b : bool) : require b = Ret tt ↔ b = true.
Proof. destruct b; split; done. Qed.

Lemma included_true a b : included a b = true ↔ a ⊆ b.
Proof.
  unfold included. rewrite forallb_forall. split.
  - intros Ha x Hx. apply list_elem_of_In in Hx. by apply Ha, bool_decide_eq_true in Hx.
  - intros Ha x Hx. apply bool_decide_eq_true, Ha. by apply list_elem_of_In.
Qed.

Lemma write_loop_whole view steps content : write_loop view steps = (content, Written) → content = view.
Proof.
  revert view content. induction steps as [|[n|] steps IH]; intros [|x view] content; simpl; try (by intros [= <-]).
  destruct (write_loop _ steps) as [rest e] eqn:E. intros [= <- ->]. apply IH in E as ->. by rewrite take_drop.
Qed.

Section paths.
Context `{EvidenceOS}.

(** Where an output may be: under the resolved root, through no symbolic link at its
    end, and under no directory that git or the workflows read *)
Lemma confined_output raw allowed_root p :
  confine_output_arg raw allowed_root = Ret p →
  ∃ root rest, resolve allowed_root = Ret root ∧ p = root ++ rest ∧ Forall (λ part, denylisted part = false) p
    ∧ is_symlink (if is_absolute raw then path_parts raw else root ++ path_parts raw) = false.
Proof.
  unfold confine_output_arg. destruct (confined_output_path raw allowed_root) as [p'|e] eqn:E; [|by destruct (is_value_error e)].
  intros [= <-]. unfold confined_output_path in E. apply rbind_ret in E as (root & Hr & E).
  destruct (is_symlink _) eqn:Es; [done|]. apply rbind_ret in E as (q & _ & E).
  destruct (is_relative_to q root) eqn:Ei; [|done]. destruct (existsb denylisted q) eqn:Ed; [done|]. simpl in E. simplify_eq.
  apply bool_decide_eq_true in Ei. exists root, (drop (length root) p'). split_and!; [done| |..|done].
  - rewrite <- Ei at 1. by rewrite take_drop.
  - apply Forall_forall. intros part Hp%list_elem_of_In. apply not_true_iff_false. intros Ht. apply not_true_iff_false in Ed.
    apply Ed, existsb_exists. by exists part.
Qed.

End paths.
