(* ===== verification/EvidenceFixture.v ===== *)
(** The check of a quality record against the versioned fixture ([FixtureIndex] and
    [validate_against_fixture] of [scripts/evidence_common.py]), for records and
    fixtures whose fields have the types the functions declare.  The quotient of two
    counts is taken exactly. *)

From Stdlib Require Import QArith Qabs Qminmax.
From S2P Require Import Prelude PyDict PyText PyValue Json Evidence.

Record FixtureCitation := mkCitation { fc_id : text; fc_fact_id : option text }.

Record FixtureTurn := mkTurn {
  ft_turn_id : text; required_facts : list text; expected_citations : list FixtureCitation; disallowed_claims : list text
}.

Record FixtureIndex := mkIndex { fx_version : text; fx_turns : dict text FixtureTurn }.

Record RawRecord := mkRaw {
  rr_fixture_version : text; rr_fixture_turn_id : text; matched_fact_ids : list text; matched_citation_ids : list text;
  matched_disallowed_claim_ids : list text; quality_score : pyfloat
}.

Implicit Types (index : FixtureIndex) (turn : FixtureTurn) (r : RawRecord).

Definition FixtureIndex_init (version : text) (turns : list FixtureTurn) : FixtureIndex :=
  mkIndex version (foldl (λ d t, dict_set (ft_turn_id t) t d) [] turns).

(** [fixture_turn_id.split("#", 1)[0]] *)
Definition base_id (t : text) : text := default [] (head (split_on 35 t)).

Definition turn_for index (fixture_turn_id : text) : result FixtureTurn :=
  match dict_get (base_id fixture_turn_id) (fx_turns index) with Some turn => Ret turn | None => gate end.

Definition check_ids_against_fixture (claimed known : list text) : result unit :=
  _ ←? require (included claimed known) ;; require (bool_decide (NoDup claimed)).

(** The loop over the citations of the fixture *)
Definition citation_backed r (c : FixtureCitation) : bool :=
  if bool_decide (fc_id c ∉ matched_citation_ids r) then true
  else match fc_fact_id c with Some f => bool_decide (f ∈ matched_fact_ids r) | None => true end.

Definition denominator turn : nat := length (required_facts turn) + length (expected_citations turn).

Definition numerator r : Z :=
  Z.of_nat (length (matched_fact_ids r)) + Z.of_nat (length (matched_citation_ids r))
  - Z.of_nat (length (matched_disallowed_claim_ids r)).

(** [max(0.0, min(1.0, numerator / denominator))] *)
Definition expected_score r turn : Q :=
  Qmax 0 (Qmin 1 (inject_Z (numerator r) / inject_Z (Z.of_nat (denominator turn))))%Q.

Definition TOLERANCE : Q := 1 # 1000000000.

(** [abs(float(score) - expected) > 1e-9] *)
Definition score_differs (score : pyfloat) (expected : Q) : bool :=
  match score with
  | Finite q => negb (Qle_bool (Qabs (q - expected)%Q) TOLERANCE)
  | NaN => false
  | _ => true
  end.

Definition validate_against_fixture index r : result unit :=
  _ ←? require (bool_decide (rr_fixture_version r = fx_version index)) ;;
  turn ←? turn_for index (rr_fixture_turn_id r) ;;
  _ ←? check_ids_against_fixture (matched_fact_ids r) (required_facts turn) ;;
  _ ←? check_ids_against_fixture (matched_citation_ids r) (fc_id <$> expected_citations turn) ;;
  _ ←? check_ids_against_fixture (matched_disallowed_claim_ids r) (disallowed_claims turn) ;;
  _ ←? require (forallb (citation_backed r) (expected_citations turn)) ;;
  _ ←? require (negb (bool_decide (denominator turn = 0%nat))) ;;
  require (negb (score_differs (quality_score r) (expected_score r turn))).

(** ** What an accepted record shows *)

Lemma check_ids_spec claimed known : check_ids_against_fixture claimed known = Ret tt ↔ claimed ⊆ known ∧ NoDup claimed.
Proof.
  unfold check_ids_against_fixture. destruct (included claimed known) eqn:E; simpl.
  - apply included_true in E. rewrite require_true, bool_decide_eq_true. naive_solver.
  - split; [done|]. intros [Hi _]. apply included_true in Hi. congruence.
Qed.

(** Distinct identifiers of the fixture are no more than it has. *)
Lemma claims_bounded (claimed known : list text) : claimed ⊆ known → NoDup claimed → (length claimed ≤ length known)%nat.
Proof. intros Hs Hn. by apply submseteq_length, NoDup_submseteq. Qed.

(** A record with as many matches as the fixture has targets, and no disallowed
    claim, must score one; without a match it must score zero. *)
Lemma full_marks r turn :
  numerator r = Z.of_nat (denominator turn) → denominator turn ≠ 0%nat → (expected_score r turn == 1)%Q.
Proof.
  intros E0 Hd. unfold expected_score. rewrite E0.
  assert (inject_Z (Z.of_nat (denominator turn)) / inject_Z (Z.of_nat (denominator turn)) == 1)%Q as E.
  { field. intros Hz. apply Hd. unfold Qeq in Hz. simpl in Hz. lia. }
  rewrite E. by vm_compute.
Qed.

Lemma expected_score_bounds r turn : (0 <= expected_score r turn <= 1)%Q.
Proof.
  unfold expected_score. split; [apply Q.le_max_l|]. apply Q.max_lub; [by vm_compute|apply Q.le_min_l].
Qed.

(** What the check asks of a record *)
Definition fixture_derived index r : Prop :=
  ∃ turn, dict_get (base_id (rr_fixture_turn_id r)) (fx_turns index) = Some turn
    ∧ rr_fixture_version r = fx_version index
    ∧ (matched_fact_ids r ⊆ required_facts turn ∧ NoDup (matched_fact_ids r))
    ∧ (matched_citation_ids r ⊆ fc_id <$> expected_citations turn ∧ NoDup (matched_citation_ids r))
    ∧ (matched_disallowed_claim_ids r ⊆ disallowed_claims turn ∧ NoDup (matched_disallowed_claim_ids r))
    ∧ (∀ c f, c ∈ expected_citations turn → fc_id c ∈ matched_citation_ids r → fc_fact_id c = Some f → f ∈ matched_fact_ids r)
    ∧ denominator turn ≠ 0%nat
    ∧ (quality_score r = NaN ∨ ∃ q, quality_score r = Finite q ∧ Qabs (q - expected_score r turn) <= TOLERANCE)%Q.

Lemma backed_spec r l :
  forallb (citation_backed r) l = true
  ↔ ∀ c f, c ∈ l → fc_id c ∈ matched_citation_ids r → fc_fact_id c = Some f → f ∈ matched_fact_ids r.
Proof.
  rewrite forallb_forall. unfold citation_backed. split.
  - intros Hl c f Hc Hm Hf. apply list_elem_of_In, Hl in Hc. case_bool_decide; [done|]. rewrite Hf in Hc. by apply bool_decide_eq_true in Hc.
  - intros Hl c Hc%list_elem_of_In. case_bool_decide as Hm; [done|]. destruct (fc_fact_id c) as [f|] eqn:Hf; [|done].
    apply bool_decide_eq_true. apply (Hl c f); [done| |done]. destruct (decide (fc_id c ∈ matched_citation_ids r)); tauto.
Qed.

Lemma score_spec s e : score_differs s e = false ↔ s = NaN ∨ ∃ q, s = Finite q ∧ (Qabs (q - e) <= TOLERANCE)%Q.
Proof.
  destruct s as [q| | |]; simpl; try (split; [try done; auto|naive_solver]).
  rewrite negb_false_iff, Qle_bool_iff. naive_solver.
Qed.

(** A record is accepted exactly when its fixture turn exists, its matches are
    distinct identifiers of that turn, every citation is backed by its fact, and its
    score is the one the fixture gives for them; only a score that is not a number
    escapes the comparison. *)
Theorem fixture_check_exact index r : validate_against_fixture index r = Ret tt ↔ fixture_derived index r.
Proof.
  unfold validate_against_fixture, fixture_derived, turn_for.
  destruct (bool_decide (rr_fixture_version r = fx_version index)) eqn:Ev; simpl.
  2: { apply bool_decide_eq_false in Ev. naive_solver. }
  apply bool_decide_eq_true in Ev.
  destruct (dict_get _ (fx_turns index)) as [turn|]; simpl; [|naive_solver].
  trans (check_ids_against_fixture (matched_fact_ids r) (required_facts turn) = Ret tt
         ∧ check_ids_against_fixture (matched_citation_ids r) (fc_id <$> expected_citations turn) = Ret tt
         ∧ check_ids_against_fixture (matched_disallowed_claim_ids r) (disallowed_claims turn) = Ret tt
         ∧ forallb (citation_backed r) (expected_citations turn) = true
         ∧ denominator turn ≠ 0%nat ∧ score_differs (quality_score r) (expected_score r turn) = false).
  - destruct (check_ids_against_fixture (matched_fact_ids r) _) as [[]|]; simpl; [|naive_solver].
    destruct (check_ids_against_fixture (matched_citation_ids r) _) as [[]|]; simpl; [|naive_solver].
    destruct (check_ids_against_fixture (matched_disallowed_claim_ids r) _) as [[]|]; simpl; [|naive_solver].
    destruct (forallb _ _); simpl; [|naive_solver]. case_bool_decide; simpl; [naive_solver|].
    destruct (score_differs _ _); simpl; naive_solver.
  - rewrite !check_ids_spec, backed_spec, score_spec. naive_solver.
Qed.
