(* ===== verification/Transport.v ===== *)
(** The gate for the transport and browser contract
    ([scripts/validate_phase2_transport_browser_contract.py]): the shape of the
    artifact, its binding to the locked dependency, the subset of npm's version ranges
    it understands, the source anchor, and the promotion predicate.

    What [urlsplit] makes of a URL and which texts [datetime.fromisoformat] accepts is
    a class.  The lock file's pattern has a lazy [.*?] where the model has a greedy
    one: what follows it is a quoted text without quotes up to the end of the line, so
    that there is one place where it can stop. *)

From S2P Require Import Prelude PyDict PyText PyValue Regex Json Evidence.

Record SplitUrl := mkUrl { url_scheme : text; url_hostname : option text; url_path : text }.

Class WebText := {
  urlsplit : text → result SplitUrl;
  fromisoformat : text → bool
}.

(** ** Constants *)

Definition PACKAGE_NAME : string := "@pipecat-ai/small-webrtc-transport".

Definition TOP_REQUIRED : list (list N) :=
  txt <$> ["status"; "reason"; "promotion_eligible"; "source_commit"; "source_tree_hash"; "package_version";
           "package_integrity"; "source_anchor"; "fake_route_artifact_sha256"; "audibility"].

Definition AUDIBILITY_REQUIRED : list (list N) := [txt "state"].

Definition AUDIBILITY_VERIFIED_REQUIRED : list (list N) :=
  txt <$> ["browser_name"; "browser_version"; "os_device_name"; "output_route"; "prior_user_gesture"; "check_method";
           "checked_at_utc"; "runner_identity"; "checked_source_commit"; "checked_source_tree_hash";
           "route_artifact_sha256"; "package_version"; "package_integrity"; "play_result"].

Definition AUDIBILITY_ALLOWED : list (list N) := txt "state" :: AUDIBILITY_VERIFIED_REQUIRED.

Definition STATUSES : list (list N) :=
  txt <$> ["promotion_eligible"; "evidence_unavailable"; "blocked"; "not_run"; "real_stratum_missing"; "contaminated";
           "malformed"; "unverified_source"; "invalid_fake_route"; "audibility_unverified"].

Definition ANCHOR_ALLOWED_HOSTS : list (list N) := txt <$> ["registry.npmjs.org"; "github.com"].

(** The fields whose non-empty strings the two loops require *)
Definition TOP_STRINGS : list string :=
  ["source_commit"; "source_tree_hash"; "package_version"; "package_integrity"; "source_anchor"].

Definition AUDIBILITY_STRINGS : list string :=
  ["browser_name"; "browser_version"; "os_device_name"; "output_route"; "check_method"; "runner_identity";
   "checked_source_commit"; "checked_source_tree_hash"; "route_artifact_sha256"; "package_version"; "package_integrity"].

Inductive range_operator := Exactly | AtLeast | Above | AtMost | Below | Tilde | Caret.

Section transport.
Context `{EvidenceOS} `{UnicodeText} `{WebText}.
Implicit Types (record audibility : dict text json) (t : text).

Definition PACKAGE_JSON_PATH : path := REPO_ROOT ++ [txt "web"; txt "package.json"].
Definition BUN_LOCK_PATH : path := REPO_ROOT ++ [txt "web"; txt "bun.lock"].

(** [t.endswith] of one of two characters, and the text before it *)
Definition require_utc_timestamp (value : text) : result unit :=
  let t := strip value in
  let t := match reverse t with
           | c :: r => if ((c =? 90) || (c =? 122))%N then reverse r ++ txt "+00:00" else t
           | [] => t
           end in
  require (fromisoformat t).

(** ** The locked dependency *)

Definition no_quote (c : N) : bool := negb (c =? 34)%N.
Definition no_newline (c : N) : bool := negb (c =? 10)%N.

Definition LOCK_ENTRY : regex :=
  seq_of [literal ([34%N] ++ txt PACKAGE_NAME ++ [34%N] ++ txt ":"); spaces0;
          literal ([91%N; 34%N] ++ txt PACKAGE_NAME ++ txt "@"); Group 1 (Chars no_quote 1 None); literal [34%N];
          Chars no_newline 0 None; literal [34%N]; Group 2 (Seq (exact "sha512-") (Chars no_quote 1 None));
          literal [34%N; 93%N]; Finish].

(** [t.rstrip(",")] *)
Definition rstrip_commas t : text := reverse (lstrip_chars [44%N] (reverse t)).

Fixpoint find_anchor (lines : list (list N)) : result (text * text) :=
  match lines with
  | [] => gate
  | line :: lines' =>
      let stripped := rstrip_commas (strip line) in
      match prefix_of_text ([34%N] ++ txt PACKAGE_NAME ++ [34%N] ++ txt ":") stripped with
      | None => find_anchor lines'
      | Some _ =>
          match match_at LOCK_ENTRY [] stripped with
          | Some (_, _, g) => Ret (default [] (group_of 1 g), default [] (group_of 2 g))
          | None => find_anchor lines'
          end
      end
  end.

Definition lockfile_dependency_anchor : result (text * text) :=
  data ←? read_bytes_no_follow BUN_LOCK_PATH ;;
  t ←? utf8_decode data ;;
  find_anchor (splitlines t).

Definition package_json_declared_version : result text :=
  data ←? load_json PACKAGE_JSON_PATH ;;
  let dependencies := match data with JObj d => get d "dependencies" | _ => JNull end in
  let version := match dependencies with JObj d => get d PACKAGE_NAME | _ => JNull end in
  match version with JStr (c :: t) => Ret (c :: t) | _ => gate end.

(** ** Version ranges *)

Definition RANGE_OPERATOR_RE : regex :=
  seq_of [Start;
          opt (Group 1 (alt_of [exact "^"; exact "~"; exact ">="; exact "<="; exact ">"; exact "<"; exact "="]));
          spaces0; opt (Group 2 (exact "v"));
          Group 3 (Chars is_digit 1 None); exact "."; Group 4 (Chars is_digit 1 None); exact ".";
          Group 5 (Chars is_digit 1 None);
          opt (Group 6 (Seq (one (λ c, (c =? 45) || (c =? 43))%N) (Chars no_newline 0 None))); Finish].

(** [bool(match.group(n))] *)
Definition has_group (n : nat) (g : list (nat * list N)) : bool :=
  match group_of n g with Some (_ :: _) => true | _ => false end.

Definition operator_of (g : list (nat * list N)) : range_operator :=
  match group_of 1 g with
  | None => Exactly
  | Some t =>
      if bool_decide (t = txt "=") then Exactly else if bool_decide (t = txt ">=") then AtLeast
      else if bool_decide (t = txt ">") then Above else if bool_decide (t = txt "<=") then AtMost
      else if bool_decide (t = txt "<") then Below else if bool_decide (t = txt "~") then Tilde else Caret
  end.

Definition version_of (g : list (nat * list N)) : result (N * N * N) :=
  major ←? py_int (default [] (group_of 3 g)) ;;
  minor ←? py_int (default [] (group_of 4 g)) ;;
  patch ←? py_int (default [] (group_of 5 g)) ;;
  Ret (major, minor, patch).

(** Tuples compare from the left. *)
Definition tuple_lt (a b : N * N * N) : bool :=
  let '(a1, a2, a3) := a in let '(b1, b2, b3) := b in
  if (a1 =? b1)%N then if (a2 =? b2)%N then (a3 <? b3)%N else (a2 <? b2)%N else (a1 <? b1)%N.

Definition range_admits (operator : range_operator) (want have : N * N * N) : bool :=
  let '(w1, w2, w3) := want in let '(h1, h2, h3) := have in
  let ge := negb (tuple_lt have want) in
  let major := (h1 =? w1)%N in
  let minor := major && (h2 =? w2)%N in
  match operator with
  | Exactly => bool_decide (have = want)
  | AtLeast => ge
  | Above => tuple_lt want have
  | AtMost => negb (tuple_lt want have)
  | Below => tuple_lt have want
  | Tilde => ge && minor
  | Caret =>
      if negb (w1 =? 0)%N then ge && major
      else if negb (w2 =? 0)%N then ge && minor
      else bool_decide (have = want)
  end.

Definition declared_range_admits (declared locked : text) : result bool :=
  match fullmatch RANGE_OPERATOR_RE (strip declared) with
  | None => gate
  | Some d =>
      if has_group 6 d then gate
      else
      match fullmatch RANGE_OPERATOR_RE (strip locked) with
      | None => gate
      | Some l =>
          if has_group 1 l || has_group 2 l || has_group 6 l then gate
          else want ←? version_of d ;; have ←? version_of l ;; Ret (range_admits (operator_of d) want have)
      end
  end.

(** ** The source anchor *)

(** [t.split(None, 1)[0:1]] *)
Definition take_word t : text := (fix go (t : text) : text := match t with c :: t' => if py_isspace c then [] else c :: go t' | [] => [] end) t.
Definition first_word t : option text := match lstrip t with [] => None | u => Some (take_word u) end.

Definition starts_with (p t : text) : bool := match prefix_of_text p t with Some _ => true | None => false end.

(** The segments of the path after the package, as the URL names it *)
Definition anchor_rest (package_name path : text) : option (list (list N)) :=
  let org_leaf := lstrip_chars [64%N] package_name in
  let path := strip_chars [47%N] path in
  let path := if starts_with (txt "@") package_name && starts_with (txt "@") path then drop 1 path else path in
  match prefix_of_text (org_leaf ++ txt "/") path with
  | Some rest => Some (split_on 47 rest)
  | None => None
  end.

Definition source_anchor_is_valid (anchor package_name locked_version : text) : result bool :=
  if bool_decide (first_word anchor = Some (package_name ++ txt "@" ++ locked_version)) then Ret true
  else
    parsed ←? urlsplit anchor ;;
    Ret
      match url_hostname parsed with
      | None => false
      | Some hostname =>
          if negb (bool_decide (url_scheme parsed = txt "http") || bool_decide (url_scheme parsed = txt "https")) then false
          else if negb (bool_decide (hostname ∈ ANCHOR_ALLOWED_HOSTS)) then false
          else
          match anchor_rest package_name (url_path parsed) with
          | None => false
          | Some rest =>
              let leaf := default [] (last (split_on 47 (lstrip_chars [64%N] package_name))) in
              let version_names := [locked_version; txt "v" ++ locked_version] in
              if bool_decide (hostname = txt "registry.npmjs.org") then
                bool_decide (rest = [locked_version]) || bool_decide (rest = [txt "-"; leaf ++ txt "-" ++ locked_version ++ txt ".tgz"])
              else if bool_decide (take 2 rest = [txt "releases"; txt "tag"]) then
                match rest with [_; _; v] => bool_decide (v ∈ version_names) | _ => false end
              else
                match rest with
                | k :: v :: _ => bool_decide (k ∈ [txt "tree"; txt "commit"; txt "blob"]) && bool_decide (v ∈ version_names)
                | _ => false
                end
          end
      end.

(** ** The artifact *)

Fixpoint require_strings record (fields : list string) : result unit :=
  match fields with
  | [] => Ret tt
  | f :: fields' => v ←? item record f ;; _ ←? require_nonempty_str v ;; require_strings record fields'
  end.

(** [a[f] == b[g]] *)
Definition same_item record (f : string) (other : dict text json) (g : string) : result unit :=
  v ←? item record f ;; w ←? item other g ;; require (json_eqb v w).

Definition validate_verified record audibility (fake_route_hash : text) : result unit :=
  _ ←? require (included AUDIBILITY_VERIFIED_REQUIRED (dict_keys audibility)) ;;
  _ ←? require_strings audibility AUDIBILITY_STRINGS ;;
  gesture ←? item audibility "prior_user_gesture" ;;
  _ ←? require_type gesture [KBool] ;;
  checked_at ←? item audibility "checked_at_utc" ;;
  checked_at_utc ←? require_nonempty_str checked_at ;;
  _ ←? require_utc_timestamp checked_at_utc ;;
  play_result ←? item audibility "play_result" ;;
  _ ←? require (eq_str play_result (txt "resolved")) ;;
  _ ←? same_item audibility "checked_source_commit" record "source_commit" ;;
  _ ←? same_item audibility "checked_source_tree_hash" record "source_tree_hash" ;;
  route ←? item audibility "route_artifact_sha256" ;;
  _ ←? require (eq_str route fake_route_hash) ;;
  _ ←? same_item audibility "package_version" record "package_version" ;;
  same_item audibility "package_integrity" record "package_integrity".

Definition validate_dependency record : result unit :=
  locked ←? lockfile_dependency_anchor ;;
  let '(locked_version, locked_integrity) := locked in
  version ←? item record "package_version" ;;
  integrity ←? item record "package_integrity" ;;
  _ ←? require (eq_str version locked_version && eq_str integrity locked_integrity) ;;
  declared_version ←? package_json_declared_version ;;
  admitted ←? declared_range_admits declared_version locked_version ;;
  _ ←? require admitted ;;
  anchor ←? item record "source_anchor" ;;
  match anchor with
  | JStr a => valid ←? source_anchor_is_valid a (txt PACKAGE_NAME) locked_version ;; require valid
  | _ => gate
  end.

Definition validate_artifact record : result unit :=
  _ ←? closed_object record TOP_REQUIRED TOP_REQUIRED ;;
  status ←? item record "status" ;;
  known ←? in_set status STATUSES ;;
  _ ←? require known ;;
  reason ←? item record "reason" ;;
  _ ←? require_type reason [KStr; KNone] ;;
  promotion_eligible ←? item record "promotion_eligible" ;;
  _ ←? require_type promotion_eligible [KBool] ;;
  _ ←? require_strings record TOP_STRINGS ;;
  fake_route ←? item record "fake_route_artifact_sha256" ;;
  fake_route_hash ←? require_hex64 fake_route ;;
  a ←? item record "audibility" ;;
  _ ←? require_type a [KDict] ;;
  match a with
  | JObj audibility =>
      _ ←? closed_object audibility AUDIBILITY_REQUIRED AUDIBILITY_ALLOWED ;;
      state ←? item audibility "state" ;;
      state_known ←? in_set state [txt "audibility_verified"; txt "audibility_unverified"] ;;
      _ ←? require state_known ;;
      let verified := eq_str state (txt "audibility_verified") in
      _ ←? (if verified then validate_verified record audibility fake_route_hash else Ret tt) ;;
      _ ←? validate_dependency record ;;
      let eligible := eq_str status (txt "promotion_eligible") && verified in
      require (json_eqb promotion_eligible (JBool eligible))
  | _ => gate
  end.

(** [main]: the exit code, or the exception that ends the script *)
Definition transport_main (input_path : path) : result nat :=
  match (v ←? load_json input_path ;; match v with JObj record => validate_artifact record | _ => gate end) with
  | Ret _ => Ret 0%nat
  | Raise e => if is_gate_error e || bool_decide (e = OSError) then Ret 1%nat else Raise e
  end.

End transport.

(** Theorems on the transport and browser contract: the version check against npm's
    intervals, and what an accepted artifact is bound to. *)
Section transport_facts.
Context `{EvidenceOS} `{UnicodeText} `{WebText}.
Implicit Types (record audibility : dict text json) (t : text).

(** ** Ranges as intervals of versions *)

Inductive version_lt : N * N * N → N * N * N → Prop :=
| lt_major a1 a2 a3 b1 b2 b3 : (a1 < b1)%N → version_lt (a1, a2, a3) (b1, b2, b3)
| lt_minor a1 a2 a3 b2 b3 : (a2 < b2)%N → version_lt (a1, a2, a3) (a1, b2, b3)
| lt_patch a1 a2 a3 b3 : (a3 < b3)%N → version_lt (a1, a2, a3) (a1, a2, b3).

Definition next_version (v : N * N * N) : N * N * N := let '(a, b, c) := v in (a, b, c + 1)%N.

(** The first version of a range, and the first one past it *)
Definition lower_bound (operator : range_operator) (want : N * N * N) : N * N * N :=
  match operator with
  | AtMost | Below => (0, 0, 0)%N
  | Above => next_version want
  | Exactly | AtLeast | Tilde | Caret => want
  end.

Definition upper_bound (operator : range_operator) (want : N * N * N) : option (N * N * N) :=
  let '(a, b, c) := want in
  match operator with
  | AtLeast | Above => None
  | Exactly | AtMost => Some (next_version want)
  | Below => Some want
  | Tilde => Some (a, b + 1, 0)%N
  | Caret => Some (if (a =? 0)%N then if (b =? 0)%N then (0, 0, c + 1)%N else (0, b + 1, 0)%N else (a + 1, 0, 0)%N)
  end.

Definition in_range (operator : range_operator) (want have : N * N * N) : Prop :=
  ¬ version_lt have (lower_bound operator want)
  ∧ match upper_bound operator want with Some u => version_lt have u | None => True end.

Lemma version_lt_iff a1 a2 a3 b1 b2 b3 :
  version_lt (a1, a2, a3) (b1, b2, b3) ↔ (a1 < b1 ∨ (a1 = b1 ∧ (a2 < b2 ∨ (a2 = b2 ∧ a3 < b3))))%N.
Proof.
  split; [inversion 1; lia|]. intros [?|(-> & [?|(-> & ?)])]; [by apply lt_major|by apply lt_minor|by apply lt_patch].
Qed.

Lemma tuple_lt_iff a b : tuple_lt a b = true ↔ version_lt a b.
Proof.
  destruct a as [[a1 a2] a3], b as [[b1 b2] b3]. rewrite version_lt_iff. unfold tuple_lt.
  destruct (N.eqb_spec a1 b1), (N.eqb_spec a2 b2); rewrite ?N.ltb_lt; lia.
Qed.

Lemma triple_eq (a1 a2 a3 b1 b2 b3 : N) : (a1, a2, a3) = (b1, b2, b3) ↔ a1 = b1 ∧ a2 = b2 ∧ a3 = b3.
Proof. naive_solver. Qed.

Lemma range_admits_interval operator want have : range_admits operator want have = true ↔ in_range operator want have.
Proof.
  destruct want as [[w1 w2] w3], have as [[h1 h2] h3]. unfold range_admits, in_range, lower_bound, upper_bound, next_version.
  destruct operator; try (destruct (N.eqb_spec w1 0), (N.eqb_spec w2 0); cbn [negb]);
    rewrite ?andb_true_iff, ?negb_true_iff, <- ?not_true_iff_false, ?tuple_lt_iff, ?bool_decide_eq_true, ?version_lt_iff, ?N.eqb_eq,
      ?triple_eq; lia.
Qed.

(** ** What the pattern of a range captures *)

Definition operators : list (list N) := txt <$> ["^"; "~"; ">="; "<="; ">"; "<"; "="].

Lemma operator_nonempty : [] ∉ operators.
Proof. apply (bool_decide_unpack _). by vm_compute. Qed.

Definition digits t : Prop := Forall (λ c, is_digit c = true) t ∧ t ≠ [].

(** An optional group: absent, or present with its text *)
Definition group_text (n : nat) (g : list (nat * list N)) t : Prop :=
  group_of n g = if decide (t = []) then None else Some t.

Lemma operator_match b a g b' a' g' :
  matches (opt (Group 1 (alt_of [exact "^"; exact "~"; exact ">="; exact "<="; exact ">"; exact "<"; exact "="]))) b a g b' a' g' →
  ∃ op, a = op ++ a' ∧ b' = reverse op ++ b ∧ (op = [] ∧ g' = g ∨ op ∈ operators ∧ g' = (1%nat, op) :: g).
Proof.
  intros [M|(-> & -> & ->)]%matches_opt; [|by exists []; auto].
  apply matches_group in M as (w & g1 & -> & -> & -> & M). exists w. split_and!; [done..|right].
  apply matches_alt in M as (r & Hr & M).
  assert (∃ s, txt s ∈ operators ∧ r = exact s) as (s & Hs & ->).
  { repeat (apply elem_of_cons in Hr as [->|Hr]; [eexists; split; [|done]; by apply (bool_decide_unpack _)|]).
    by apply elem_of_nil in Hr. }
  apply matches_exact in M as (E & _ & ->). apply app_inv_tail in E as ->. done.
Qed.

Lemma digits_match n b a g b' a' g' :
  matches (Group n (Chars is_digit 1 None)) b a g b' a' g' →
  ∃ w, a = w ++ a' ∧ b' = reverse w ++ b ∧ g' = (n, w) :: g ∧ digits w.
Proof.
  intros (w & g1 & -> & -> & -> & M)%matches_group. apply matches_chars in M as (w' & E & _ & -> & Hf & Hl).
  apply app_inv_tail in E as ->. exists w'. split_and!; [done..|split; [done|]]. intros ->. simpl in Hl. lia.
Qed.

Lemma tail_match b a g b' g' :
  matches (seq_of [opt (Group 6 (Seq (one (λ c, (c =? 45) || (c =? 43))%N) (Chars no_newline 0 None))); Finish]) b a g b' [] g' →
  a = [] ∧ g' = g ∨ a ≠ [] ∧ g' = (6%nat, a) :: g.
Proof.
  intros (b1 & a1 & g1 & M & F)%matches_seq. cbn in F. inversion F; subst. apply matches_opt in M as [M|(-> & -> & ->)]; [|by left].
  apply matches_group in M as (w & g2 & -> & -> & -> & M). rewrite app_nil_r. right.
  inversion M as [| |? ? ? ? ? ? ? ? ? ? ? M1 M2| | | | | | | | |]; subst. apply matches_one in M1 as (c & E & -> & -> & _).
  apply matches_chars in M2 as (u & -> & _ & -> & _). rewrite app_nil_r in E. subst w. done.
Qed.

(** A text the pattern accepts, with what it captures of it *)
Lemma range_match t g :
  fullmatch RANGE_OPERATOR_RE t = Some g →
  ∃ op sp v a b c suffix,
    t = op ++ sp ++ v ++ a ++ txt "." ++ b ++ txt "." ++ c ++ suffix
    ∧ (op = [] ∨ op ∈ operators) ∧ Forall (λ c, py_isspace c = true) sp ∧ (v = [] ∨ v = txt "v")
    ∧ digits a ∧ digits b ∧ digits c
    ∧ group_text 1 g op ∧ group_text 2 g v ∧ group_of 3 g = Some a ∧ group_of 4 g = Some b ∧ group_of 5 g = Some c
    ∧ group_text 6 g suffix.
Proof.
  intros (b' & M)%fullmatch_sound. unfold RANGE_OPERATOR_RE in M.
  apply matches_seq in M as (b1 & a1 & g1 & M1 & M). inversion M1; subst.
  apply matches_seq in M as (b2 & a2 & g2 & M2 & M). apply operator_match in M2 as (op & -> & -> & Hop).
  apply matches_seq in M as (b3 & a3 & g3 & M3 & M). apply matches_chars in M3 as (sp & -> & -> & -> & Hsp & _).
  apply matches_seq in M as (b4 & a4 & g4 & M4 & M).
  assert (∃ v, a3 = v ++ a4 ∧ (v = [] ∧ g4 = g2 ∨ v = txt "v" ∧ g4 = (2%nat, v) :: g2)) as (v & -> & Hv).
  { apply matches_opt in M4 as [M4|(-> & -> & ->)]; [|by exists []; auto].
    apply matches_group in M4 as (w & g5 & -> & -> & -> & M4). apply matches_exact in M4 as (E & _ & ->).
    apply app_inv_tail in E as ->. exists (txt "v"). auto. }
  apply matches_seq in M as (b5 & a5 & g5 & M5 & M). apply digits_match in M5 as (a & -> & -> & -> & Ha).
  apply matches_seq in M as (b6 & a6 & g6 & M6 & M). apply matches_exact in M6 as (-> & -> & ->).
  apply matches_seq in M as (b7 & a7 & g7 & M7 & M). apply digits_match in M7 as (b & -> & -> & -> & Hb).
  apply matches_seq in M as (b8 & a8 & g8 & M8 & M). apply matches_exact in M8 as (-> & -> & ->).
  apply matches_seq in M as (b9 & a9 & g9 & M9 & M). apply digits_match in M9 as (c & -> & -> & -> & Hc).
  apply tail_match in M. exists op, sp, v, a, b, c, a9.
  split_and!; try done; try naive_solver; unfold group_text;
    destruct Hop as [[-> ->]|[Hop ->]], Hv as [[-> ->]|[-> ->]], M as [[-> ->]|[Hs ->]];
    repeat (rewrite decide_False by done); try done; cbn; try rewrite (decide_False (P := _ = [])); try done;
    intros ->; by apply operator_nonempty in Hop.
Qed.

Lemma lstrip_suffix t : ∃ p, t = p ++ lstrip t.
Proof.
  induction t as [|c t [p IH]]; simpl; [by exists []|]. destruct (py_isspace c); [|by exists []]. exists (c :: p). simpl. by f_equal.
Qed.

Lemma lstrip_head t c u : lstrip t = c :: u → py_isspace c = false.
Proof. induction t as [|d t IH]; simpl; [done|]. destruct (py_isspace d) eqn:E; [done|]. by intros [= <- _]. Qed.

Lemma strip_head t c u : strip t = c :: u → py_isspace c = false.
Proof.
  unfold strip. intros E. destruct (lstrip_suffix (reverse (lstrip t))) as [p Hp]. apply (f_equal reverse) in Hp.
  rewrite reverse_involutive, reverse_app, E in Hp. simpl in Hp. by eapply lstrip_head.
Qed.

(** A declared range as it is written, and a locked version *)
Definition range_text (operator : range_operator) (sp v : text) (a b c : text) t : Prop :=
  ∃ op, t = op ++ sp ++ v ++ a ++ txt "." ++ b ++ txt "." ++ c
    ∧ op ∈ match operator with
           | Exactly => [[]; txt "="] | AtLeast => [txt ">="] | Above => [txt ">"] | AtMost => [txt "<="]
           | Below => [txt "<"] | Tilde => [txt "~"] | Caret => [txt "^"]
           end.

Definition reads_as (a b c : text) (version : N * N * N) : Prop :=
  let '(x, y, z) := version in py_int a = Ret x ∧ py_int b = Ret y ∧ py_int c = Ret z.

Lemma operator_of_text g op :
  group_text 1 g op → op = [] ∨ op ∈ operators →
  op ∈ match operator_of g with
       | Exactly => [[]; txt "="] | AtLeast => [txt ">="] | Above => [txt ">"] | AtMost => [txt "<="]
       | Below => [txt "<"] | Tilde => [txt "~"] | Caret => [txt "^"]
       end.
Proof.
  unfold group_text, operator_of. intros -> [->|Hop]; [rewrite decide_True by done; left|].
  rewrite decide_False by (intros ->; by apply operator_nonempty in Hop).
  repeat (apply elem_of_cons in Hop as [->|Hop]; [by apply (bool_decide_unpack _); vm_compute|]). by apply elem_of_nil in Hop.
Qed.

Lemma absent_group n g t : group_text n g t → has_group n g = false → t = [].
Proof. unfold group_text, has_group. intros ->. destruct (decide (t = [])); [done|]. by destruct t. Qed.

Lemma version_of_reads g a b c version :
  group_of 3 g = Some a → group_of 4 g = Some b → group_of 5 g = Some c → version_of g = Ret version → reads_as a b c version.
Proof.
  unfold version_of. intros -> -> ->. cbn [default]. intros Hv. apply rbind_ret in Hv as (x & Hx & Hv).
  apply rbind_ret in Hv as (y & Hy & Hv). apply rbind_ret in Hv as (z & Hz & [= <-]). done.
Qed.

(** C20.  Whenever the version check gives an answer, the range is one operator of the
    subset before a plain version, the locked text is a bare version of three numbers
    with nothing before or after it, and the answer is yes exactly when the locked
    version lies in the half-open interval that npm gives the range; anything else is
    refused by an error. *)
Theorem range_check_is_npm declared locked answer :
  declared_range_admits declared locked = Ret answer →
  ∃ operator sp v a b c a' b' c' want have,
    range_text operator sp v a b c (strip declared)
    ∧ Forall (λ c, py_isspace c = true) sp ∧ (v = [] ∨ v = txt "v")
    ∧ strip locked = a' ++ txt "." ++ b' ++ txt "." ++ c'
    ∧ Forall digits [a; b; c; a'; b'; c']
    ∧ reads_as a b c want ∧ reads_as a' b' c' have
    ∧ (answer = true ↔ in_range operator want have).
Proof.
  unfold declared_range_admits. destruct (fullmatch _ (strip declared)) as [d|] eqn:Ed; [|done].
  destruct (has_group 6 d) eqn:E6; [done|]. destruct (fullmatch _ (strip locked)) as [l|] eqn:El; [|done].
  destruct (has_group 1 l) eqn:L1; [done|]. destruct (has_group 2 l) eqn:L2; [done|]. destruct (has_group 6 l) eqn:L6; [done|].
  cbn [orb]. intros Ha. apply rbind_ret in Ha as (want & Hw & Ha). apply rbind_ret in Ha as (have & Hh & [= <-]).
  apply range_match in Ed as (op & sp & v & a & b & c & suffix & Ed & Hop & Hsp & Hv & A & B & C & G1 & G2 & G3 & G4 & G5 & G6).
  apply range_match in El as (op' & sp' & v' & a' & b' & c' & suffix' & El & _ & Hsp' & _ & A' & B' & C' & G1' & G2' & G3' & G4' & G5' & G6').
  apply (absent_group _ _ _ G6) in E6 as ->. apply (absent_group _ _ _ G1') in L1 as ->.
  apply (absent_group _ _ _ G2') in L2 as ->. apply (absent_group _ _ _ G6') in L6 as ->. rewrite app_nil_r in Ed, El.
  assert (sp' = []) as ->.
  { destruct sp' as [|s sp']; [done|]. apply Forall_cons in Hsp' as [Hs _]. apply strip_head in El. congruence. }
  exists (operator_of d), sp, v, a, b, c, a', b', c', want, have. split_and!; [|done..| | | |].
  - exists op. split; [done|]. by apply operator_of_text.
  - rewrite !Forall_cons. by split_and!.
  - by eapply version_of_reads.
  - by eapply version_of_reads.
  - apply range_admits_interval.
Qed.

(** ** What an accepted artifact is bound to *)

Definition has_string record (f : string) t : Prop := dict_get (txt f) record = Some (JStr t) ∧ t ≠ [].

(** The browser check an eligible artifact reports *)
Definition browser_check audibility (commit tree route version integrity : text) : Prop :=
  dict_get (txt "state") audibility = Some (JStr (txt "audibility_verified"))
  ∧ dict_get (txt "play_result") audibility = Some (JStr (txt "resolved"))
  ∧ (∀ f, f ∈ AUDIBILITY_STRINGS → ∃ t, has_string audibility f t)
  ∧ (∃ b, dict_get (txt "prior_user_gesture") audibility = Some (JBool b))
  ∧ (∃ t, has_string audibility "checked_at_utc" t ∧ require_utc_timestamp t = Ret tt)
  ∧ has_string audibility "checked_source_commit" commit
  ∧ has_string audibility "checked_source_tree_hash" tree
  ∧ has_string audibility "route_artifact_sha256" route
  ∧ has_string audibility "package_version" version
  ∧ has_string audibility "package_integrity" integrity.

Lemma item_ret record f v : item record f = Ret v ↔ dict_get (txt f) record = Some v.
Proof. unfold item. destruct (dict_get _ record); naive_solver. Qed.

Lemma require_ret (b : bool) u : require b = Ret u → b = true.
Proof. by destruct b. Qed.

Lemma nonempty_ret v t : require_nonempty_str v = Ret t → v = JStr t ∧ t ≠ [].
Proof. destruct v as [| | | |[|c u]| |]; cbn; try done. by intros [= <-]. Qed.

Lemma require_strings_ret record fields u :
  require_strings record fields = Ret u → ∀ f, f ∈ fields → ∃ t, has_string record f t.
Proof.
  induction fields as [|f fields IH]; cbn [require_strings]; [by intros _ f ?%elem_of_nil|].
  intros Hr. apply rbind_ret in Hr as (v & Hv%item_ret & Hr). apply rbind_ret in Hr as (t & [-> Ht]%nonempty_ret & Hr).
  intros f' [->|Hf]%elem_of_cons; [by exists t|by apply IH].
Qed.

Lemma json_eqb_str v t : json_eqb v (JStr t) = true → v = JStr t.
Proof. destruct v; cbn; try done. intros ->%bool_decide_eq_true. done. Qed.

Lemma same_item_string record f other g u t :
  same_item record f other g = Ret u → has_string other g t → has_string record f t.
Proof.
  unfold same_item. intros Hs [Hg Ht]. apply rbind_ret in Hs as (v & Hv%item_ret & Hs). apply rbind_ret in Hs as (w & Hw%item_ret & Hs).
  apply require_ret in Hs. rewrite Hg in Hw. injection Hw as <-. apply json_eqb_str in Hs as ->. done.
Qed.

Lemma verified_ret record audibility route commit tree version integrity u :
  has_string record "source_commit" commit → has_string record "source_tree_hash" tree →
  has_string record "package_version" version → has_string record "package_integrity" integrity →
  dict_get (txt "state") audibility = Some (JStr (txt "audibility_verified")) →
  validate_verified record audibility route = Ret u → browser_check audibility commit tree route version integrity.
Proof.
  intros Hc Ht Hv Hi Hst R. unfold validate_verified in R.
  apply rbind_ret in R as (? & _ & R). apply rbind_ret in R as (? & Hs & R). pose proof (require_strings_ret _ _ _ Hs) as Hs'.
  apply rbind_ret in R as (g & Hg%item_ret & R). apply rbind_ret in R as (? & Hb & R).
  apply rbind_ret in R as (? & Hca%item_ret & R). apply rbind_ret in R as (ts & [-> Hts]%nonempty_ret & R).
  apply rbind_ret in R as ([] & Hiso & R). apply rbind_ret in R as (? & Hp%item_ret & R).
  apply rbind_ret in R as (? & ->%require_ret%eq_str_spec & R).
  apply rbind_ret in R as (? & S1 & R). apply rbind_ret in R as (? & S2 & R).
  apply rbind_ret in R as (? & Hr%item_ret & R). apply rbind_ret in R as (? & ->%require_ret%eq_str_spec & R).
  apply rbind_ret in R as (? & S3 & R). unfold browser_check.
  split_and!; try done; try (by eapply same_item_string).
  - destruct g; try done. by eexists.
  - by exists ts.
  - destruct (Hs' "route_artifact_sha256") as (t & E & Hne); [by apply (bool_decide_unpack _)|].
    rewrite Hr in E. injection E as <-. done.
Qed.

Definition bound_to_lock record (version integrity anchor declared : text) : Prop :=
  lockfile_dependency_anchor = Ret (version, integrity)
  ∧ has_string record "package_version" version ∧ has_string record "package_integrity" integrity
  ∧ package_json_declared_version = Ret declared ∧ declared_range_admits declared version = Ret true
  ∧ has_string record "source_anchor" anchor ∧ source_anchor_is_valid anchor (txt PACKAGE_NAME) version = Ret true.

Lemma dependency_ret record u :
  (∀ f, f ∈ TOP_STRINGS → ∃ t, has_string record f t) → validate_dependency record = Ret u →
  ∃ version integrity anchor declared, bound_to_lock record version integrity anchor declared.
Proof.
  intros Hs R. unfold validate_dependency in R. apply rbind_ret in R as ([version integrity] & Hl & R).
  apply rbind_ret in R as (v & Hv%item_ret & R). apply rbind_ret in R as (i & Hi%item_ret & R).
  apply rbind_ret in R as (? & [->%eq_str_spec ->%eq_str_spec]%require_ret%andb_true_iff & R).
  apply rbind_ret in R as (declared & Hd & R). apply rbind_ret in R as (adm & Ha & R).
  apply rbind_ret in R as (? & ->%require_ret & R). apply rbind_ret in R as (a & Han%item_ret & R).
  assert (∀ f t, f ∈ TOP_STRINGS → dict_get (txt f) record = Some (JStr t) → has_string record f t) as Hne.
  { intros f t Hf E. destruct (Hs f Hf) as (t' & E' & Ht). rewrite E in E'. injection E' as <-. done. }
  destruct (Hs "source_anchor") as (anchor & Hat); [by apply (bool_decide_unpack _)|].
  pose proof (proj1 Hat) as E. rewrite Han in E. injection E as ->. apply rbind_ret in R as (valid & Hva & ->%require_ret).
  exists version, integrity, anchor, declared.
  split_and!; try done; apply Hne; try done; by apply (bool_decide_unpack _).
Qed.

(** An artifact that passes the gate is bound to the tree it is checked in: its
    package is the one the lock file pins, the declared range admits that version, the
    source anchor names it; and it counts as eligible exactly when its status says so
    and a browser check of the same commit, tree, route and package is reported, with
    audio that played. *)
Definition contract record (eligible : bool) : Prop :=
  ∃ commit tree route version integrity anchor declared status audibility,
    bound_to_lock record version integrity anchor declared
    ∧ has_string record "source_commit" commit ∧ has_string record "source_tree_hash" tree
    ∧ dict_get (txt "fake_route_artifact_sha256") record = Some (JStr route) ∧ HEX64_RE route = true
    ∧ dict_get (txt "status") record = Some (JStr status) ∧ status ∈ STATUSES
    ∧ dict_get (txt "promotion_eligible") record = Some (JBool eligible)
    ∧ dict_get (txt "audibility") record = Some (JObj audibility)
    ∧ (eligible = true ↔ status = txt "promotion_eligible"
                        ∧ dict_get (txt "state") audibility = Some (JStr (txt "audibility_verified")))
    ∧ (dict_get (txt "state") audibility = Some (JStr (txt "audibility_verified")) →
       browser_check audibility commit tree route version integrity).

Lemma hex64_ret v t : require_hex64 v = Ret t → v = JStr t ∧ HEX64_RE t = true.
Proof.
  destruct v; cbn; try done. destruct (HEX64_RE t0) eqn:E; cbn; [|done]. by intros [= ->].
Qed.

Lemma in_set_ret v s b : in_set v s = Ret b → b = true → ∃ t, v = JStr t ∧ t ∈ s.
Proof. destruct v; cbn; try (by intros [= <-]); try done. intros [= <-] Ht%bool_decide_eq_true. by exists t. Qed.

Lemma accepted_contract record u : validate_artifact record = Ret u → ∃ eligible, contract record eligible.
Proof.
  intros R. unfold validate_artifact in R.
  apply rbind_ret in R as (? & _ & R). apply rbind_ret in R as (? & Hst%item_ret & R).
  apply rbind_ret in R as (kn & Hin & R). apply rbind_ret in R as (? & Hk%require_ret & R).
  apply (in_set_ret _ _ _ Hin) in Hk as (status & -> & Hs).
  apply rbind_ret in R as (? & _ & R). apply rbind_ret in R as (? & _ & R).
  apply rbind_ret in R as (pe & Hpe%item_ret & R). apply rbind_ret in R as (? & Htb & R).
  assert (∃ eligible, pe = JBool eligible) as [eligible ->] by (destruct pe; try done; by eexists).
  apply rbind_ret in R as (? & Hs5 & R). pose proof (require_strings_ret _ _ _ Hs5) as Hss.
  apply rbind_ret in R as (? & Hfr%item_ret & R). apply rbind_ret in R as (route & [-> Hhex]%hex64_ret & R).
  apply rbind_ret in R as (a & Ha%item_ret & R). apply rbind_ret in R as (? & _ & R).
  destruct a as [| | | | | |audibility]; try done.
  apply rbind_ret in R as (? & _ & R). apply rbind_ret in R as (state & Hstate%item_ret & R).
  apply rbind_ret in R as (? & _ & R). apply rbind_ret in R as (? & _ & R).
  apply rbind_ret in R as (? & Hver & R). apply rbind_ret in R as (? & Hdep & R). apply require_ret in R.
  destruct (dependency_ret _ _ Hss Hdep) as (version & integrity & anchor & declared & Hb).
  destruct (Hss "source_commit") as (commit & Hc); [by apply (bool_decide_unpack _)|].
  destruct (Hss "source_tree_hash") as (tree & Ht); [by apply (bool_decide_unpack _)|].
  exists eligible, commit, tree, route, version, integrity, anchor, declared, status, audibility. split_and!; try done.
  - assert (eligible = eq_str (JStr status) (txt "promotion_eligible") && eq_str state (txt "audibility_verified")) as ->.
    { revert R. destruct eligible, (_ && _); done. }
    rewrite andb_true_iff, !eq_str_spec, Hstate. naive_solver.
  - intros E. rewrite Hstate in E. injection E as ->. destruct Hb as (_ & Hv & Hi & _).
    rewrite (proj2 (eq_str_spec _ _) eq_refl) in Hver. by eapply verified_ret.
Qed.

End transport_facts.
