(* ===== verification/EvidenceGate.v ===== *)
(** The evidence gate ([scripts/validate_v013_evidence.py]): the record schema, the
    coverage each phase must show, and the drift check of the committed manifest.

    A description of drift is a value of [drift]; its text is left out. *)

From S2P Require Import Prelude PyDict PyText PyValue Json Regex EvalVote Evidence Transport.

(** ** Vocabulary *)

Definition texts (l : list string) : list (list N) := txt <$> l.

Definition REQUIRED_FIELDS : list (list N) :=
  texts ["phase"; "scenario"; "turn_id"; "provider"; "model"; "routing_phase_latency_ms"; "outcome"; "disposition";
         "sample_timestamp_ms"; "run_id"; "sample_index"; "sample_count"].
Definition OPTIONAL_FIELDS : list (list N) := texts ["work_item_id"; "query_chars"; "context_chars"; "wall_clock_time"].
Definition PHASE1_FIELDS : list (list N) := texts ["ack_id"; "ack_enqueued"; "ack_enqueued_ms"; "ack_terminal_state"].
Definition ALL_FIELDS : list (list N) := REQUIRED_FIELDS ++ OPTIONAL_FIELDS ++ PHASE1_FIELDS.

Definition PHASES : list (list N) := texts ["phase0"; "phase1"; "phase2"; "phase3"; "phase4"].
Definition OUTCOMES : list (list N) :=
  texts ["direct"; "unsupported"; "control"; "clarify"; "completed"; "mixed"; "retained"; "declined"; "failed"; "cancelled"].
Definition DISPOSITIONS : list (list N) := texts ["autoplay"; "display_only"; "suppressed"; "not_applicable"].
Definition ACK_TERMINAL_STATES : list (list N) :=
  texts ["discarded"; "admitted_completed"; "no_tts"; "unavailable_transport"; "not_applicable"].

Definition PHASE_EXTRA_REQUIRED_FIELDS (phase : text) : list (list N) :=
  if bool_decide (phase = txt "phase1")
  then texts ["work_item_id"; "ack_id"; "ack_enqueued"; "ack_enqueued_ms"; "ack_terminal_state"] else [].

Record Minimums := mkMinimums {
  mn_scenarios : list (list N); mn_outcomes : list (list N); mn_strata : list (list N * list N)
}.

Definition PHASE_MINIMUMS (phase : text) : option Minimums :=
  if bool_decide (phase = txt "phase0") then
    Some (mkMinimums (texts ["direct"; "delegated_complete"; "retained_late"; "cancellation"; "reconnect"; "same_epoch_newer_turn"])
                     (texts ["direct"; "completed"; "retained"; "cancelled"]) [(txt "unavailable", txt "unavailable")])
  else if bool_decide (phase = txt "phase1") then
    Some (mkMinimums (texts ["ack_enqueued_timing"; "exactly_once"; "queued_discard"; "admitted_completion"; "no_tts"])
                     (texts ["completed"; "cancelled"]) [(txt "unavailable", txt "unavailable")])
  else None.

Definition PHASE_SCENARIO_MIN_COUNT (phase : text) : list (list N * nat) :=
  if bool_decide (phase = txt "phase1") then [(txt "queued_discard", 2%nat); (txt "admitted_completion", 2%nat)] else [].

Definition REAL_PROVIDER_ALLOWLIST : list (list N * list N) := [(txt "openai", txt "gpt-4o-search-preview")].

(** Of [server/config.py] *)
Definition MANIFEST_REQUIRED_FIELDS : list (list N) :=
  texts ["manifest_phase"; "promotion_eligible"; "reason"; "schema_hash"; "source_commit"; "source_tree_hash";
         "release_version"; "feature_policy_fingerprint"; "deployed_at_utc"; "generated_at_utc"; "inputs"].
Definition MANIFEST_REQUIRED_FINAL_INPUTS : list (list N) := texts ["phase0"; "phase1"; "phase2"; "phase3"].
Definition MANIFEST_REQUIRED_PROVISIONAL_INPUTS : list (list N) := texts ["phase0"; "phase1"; "phase2"].
Definition MANIFEST_STRING_FIELDS : list (list N) :=
  texts ["manifest_phase"; "schema_hash"; "source_commit"; "source_tree_hash"; "release_version";
         "feature_policy_fingerprint"; "deployed_at_utc"; "generated_at_utc"].

Definition PHASE3_COMPLETION_REQUIRED_FIELDS : list string :=
  ["source_commit"; "source_tree_hash"; "command_digest"; "generated_at_utc"].

Definition MANIFEST_VOLATILE_FIELDS : list (list N) :=
  texts ["deployed_at_utc"; "generated_at_utc"; "source_commit"; "source_tree_hash"].
Definition MANIFEST_VERIFIED_FIELDS : list (list N) :=
  texts ["inputs"; "schema_hash"; "manifest_phase"; "promotion_eligible"; "reason"; "release_version";
         "feature_policy_fingerprint"; "phase3_completion_hash"; "phase3_command_digest"].

Section gate.
Context `{EvidenceOS} `{UnicodeText} `{WebText}.
Implicit Types (record manifest : dict text json) (records : list (dict text json)) (v : json).

(** ** Records *)

(** [v < 0] for a number *)
Definition negative v : bool :=
  match v with
  | JInt z => (z <? 0)%Z
  | JFloat f => float_lt f (Finite 0)
  | _ => false
  end.

(** [_require_type(v, (int,), ...)] and the lower bound *)
Definition require_int v (minimum : Z) : result unit :=
  _ ←? require_type v [KInt] ;;
  match v with JInt z => require (minimum <=? z)%Z | _ => gate end.

(** The checks of an optional field, which may also be null *)
Definition when_present record (field : string) (check : json → result unit) : result unit :=
  match dict_get (txt field) record with
  | None | Some JNull => Ret tt
  | Some v => check v
  end.

Definition require_in v (s : list (list N)) : result unit := b ←? in_set v s ;; require b.

Definition nonempty_str v : result unit := _ ←? require_nonempty_str v ;; Ret tt.

Definition validate_record record : result unit :=
  _ ←? require (included (dict_keys record) ALL_FIELDS) ;;
  _ ←? require (included REQUIRED_FIELDS (dict_keys record)) ;;
  phase ←? item record "phase" ;;
  _ ←? require_in phase PHASES ;;
  _ ←? require (included (match phase with JStr p => PHASE_EXTRA_REQUIRED_FIELDS p | _ => [] end) (dict_keys record)) ;;
  _ ←? require_strings record ["scenario"; "turn_id"; "provider"; "model"; "run_id"] ;;
  outcome ←? item record "outcome" ;;
  _ ←? require_in outcome OUTCOMES ;;
  disposition ←? item record "disposition" ;;
  _ ←? require_in disposition DISPOSITIONS ;;
  _ ←? when_present record "routing_phase_latency_ms" (λ latency,
         _ ←? require_type latency [KInt; KFloat] ;; require (negb (negative latency))) ;;
  timestamp ←? item record "sample_timestamp_ms" ;;
  _ ←? require_int timestamp 0 ;;
  index ←? item record "sample_index" ;;
  _ ←? require_int index 0 ;;
  count ←? item record "sample_count" ;;
  _ ←? require_int count 1 ;;
  _ ←? when_present record "work_item_id" nonempty_str ;;
  _ ←? when_present record "query_chars" (λ v, require_int v 0) ;;
  _ ←? when_present record "context_chars" (λ v, require_int v 0) ;;
  _ ←? when_present record "wall_clock_time" (λ v, require_type v [KStr]) ;;
  _ ←? when_present record "ack_id" nonempty_str ;;
  _ ←? when_present record "ack_enqueued" (λ v, require_type v [KBool]) ;;
  _ ←? when_present record "ack_enqueued_ms" (λ v, require_int v 0) ;;
  when_present record "ack_terminal_state" (λ v, require_in v ACK_TERMINAL_STATES).

Definition load_records (input_path : path) : result (list (dict text json)) := load_jsonl input_path (λ _ _, Ret tt).

(** [r[field]] as an element of a set, or part of one *)
Definition set_item record (field : string) : result json :=
  v ←? item record field ;; if unhashable v then Raise (TypeError "unhashable type") else Ret v.

Fixpoint map_result {A B} (f : A → result B) (l : list A) : result (list B) :=
  match l with
  | [] => Ret []
  | x :: l' => y ←? f x ;; rest ←? map_result f l' ;; Ret (y :: rest)
  end.

Definition pair_item (f g : string) record : result (json * json) :=
  v ←? set_item record f ;; w ←? set_item record g ;; Ret (v, w).

Definition mem_str (t : text) (seen : list json) : bool := existsb (λ v, eq_str v t) seen.
Definition mem_pair (p : list N * list N) (seen : list (json * json)) : bool :=
  existsb (λ x, eq_str x.1 p.1 && eq_str x.2 p.2) seen.

Definition scenario_count (phase_records : list (dict text json)) (scenario : text) : nat :=
  length (filter (λ r, eq_str (get r "scenario") scenario = true) phase_records).

Definition of_phase (phase : text) record : bool := eq_str (get record "phase") phase.

Definition check_phase_minimums (phase : text) records : result unit :=
  match PHASE_MINIMUMS phase with
  | None => gate
  | Some minimums =>
      phases ←? map_result (λ r, item r "phase") records ;;
      let phase_records := filter (λ r, of_phase phase r = true) records in
      _ ←? require (match phase_records with [] => false | _ => true end) ;;
      seen_scenarios ←? map_result (λ r, set_item r "scenario") phase_records ;;
      _ ←? require (forallb (λ s, mem_str s seen_scenarios) (mn_scenarios minimums)) ;;
      seen_outcomes ←? map_result (λ r, set_item r "outcome") phase_records ;;
      _ ←? require (forallb (λ s, mem_str s seen_outcomes) (mn_outcomes minimums)) ;;
      seen_strata ←? map_result (pair_item "provider" "model") phase_records ;;
      _ ←? require (forallb (λ s, mem_pair s seen_strata) (mn_strata minimums)) ;;
      require (forallb (λ '(scenario, minimum), (minimum <=? scenario_count phase_records scenario)%nat)
                 (PHASE_SCENARIO_MIN_COUNT phase))
  end.

Definition validate_evidence (phase : text) (input_path : path) : result (list (dict text json)) :=
  records ←? load_records input_path ;;
  _ ←? map_result validate_record records ;;
  _ ←? check_phase_minimums phase records ;;
  Ret records.

(** [any((r["provider"], r["model"]) in REAL_PROVIDER_ALLOWLIST for r in records)] *)
Fixpoint has_real_provider_stratum records : result bool :=
  match records with
  | [] => Ret false
  | r :: records' =>
      p ←? pair_item "provider" "model" r ;;
      if existsb (λ a, mem_pair a [p]) REAL_PROVIDER_ALLOWLIST then Ret true else has_real_provider_stratum records'
  end.

Definition validate_transport_contract (input_path : path) : result (dict text json) :=
  v ←? load_json input_path ;;
  match v with JObj record => _ ←? validate_artifact record ;; Ret record | _ => gate end.

Definition read_phase3_completion (input_path : path) : result (dict text json) :=
  v ←? load_json input_path ;;
  match v with
  | JObj record =>
      _ ←? require (forallb (λ f, match get record f with JStr (_ :: _) => true | _ => false end) PHASE3_COMPLETION_REQUIRED_FIELDS) ;;
      Ret record
  | _ => gate
  end.

(** ** The verdict *)

Inductive manifest_phase := Provisional | Final.

Definition phase_text (m : manifest_phase) : text := match m with Provisional => txt "provisional" | Final => txt "final" end.

Definition promotion_verdict (m : manifest_phase) (real_stratum_present transport_eligible : bool) : bool * option text :=
  match m with
  | Provisional =>
      if negb real_stratum_present then (false, Some (txt "real_stratum_missing"))
      else if negb transport_eligible then (false, Some (txt "audibility_unverified"))
      else (false, Some (txt "provisional_manifest"))
  | Final =>
      if real_stratum_present && transport_eligible then (true, None)
      else (false, Some (if negb real_stratum_present then txt "real_stratum_missing" else txt "audibility_unverified"))
  end.

(** ** The drift check *)

Inductive drift :=
| MissingFields (fields : list (list N))
| WronglyTyped (fields : list (list N))
| EligibleNotBool
| UnknownManifestPhase
| RetiredInput
| UnrecognizedPhases (phases : list (list N))
| InputNotObject (phase : text)
| InputIncomplete (phase : text)
| InputEscapes (phase : text)
| InputUnreadable (phase : text)
| DigestDrift (phase : text)
| InputMissing (phase : text)
| SchemaDrift
| SchemaMissing
| CompletionHashMissing
| NotRederived (phases : list (list N))
| PhaseUnusable
| GateFails
| EligibleDrift
| ReasonDrift
| IdentityDrift (field : string)
| CommandDigestDrift
| CommandDigestUnchecked
| RetiredField
| CompletionHashDrift
| UncoveredFields (fields : list (list N)).

Definition SCHEMA_PATH : path := REPO_ROOT ++ [txt "shared"; txt "schemas"; txt "v013-evidence.json"].

(** [a - b] for sets of strings, as a list *)
Definition difference (a b : list (list N)) : list (list N) := filter (λ k, k ∉ b) a.

(** [drift.append(...)] if there is something to report *)
Definition report (fields : list (list N)) (d : list (list N) → drift) : list drift :=
  match fields with [] => [] | _ => [d (sorted_set fields)] end.

Definition drift_if (b : bool) (d : drift) : list drift := if b then [d] else [].

Definition declared (f : string) manifest : bool := dict_mem (txt f) manifest.

Definition format_drift manifest : list drift :=
  report (difference MANIFEST_REQUIRED_FIELDS (dict_keys manifest)) MissingFields
  ++ report (filter (λ f, match dict_get f manifest with Some v => negb (is_str v) | None => false end = true) MANIFEST_STRING_FIELDS)
       WronglyTyped
  ++ drift_if (negb (is_bool (get manifest "promotion_eligible"))) EligibleNotBool.

Definition read_manifest_phase manifest : option manifest_phase :=
  let v := get manifest "manifest_phase" in
  if eq_str v (txt "provisional") then Some Provisional else if eq_str v (txt "final") then Some Final else None.

Definition required_phases (m : option manifest_phase) : list (list N) :=
  match m with Some Final => MANIFEST_REQUIRED_FINAL_INPUTS | _ => MANIFEST_REQUIRED_PROVISIONAL_INPUTS end.

(** [sorted(inputs.items())] *)
Fixpoint insert_item (x : list N * json) (l : list (list N * json)) : list (list N * json) :=
  match l with
  | [] => [x]
  | y :: l' => if text_ltb y.1 x.1 then y :: insert_item x l' else x :: l
  end.

Definition sorted_items (inputs : dict text json) : list (list N * json) := foldr insert_item [] inputs.

(** One turn of the loop over the inputs: what it reports, or the file it accepts *)
Definition check_input (phase : text) (entry : json) : result (drift + path) :=
  match entry with
  | JObj e =>
      match get e "path", get e "sha256" with
      | JStr declared_path, JStr declared_sha =>
          candidate ←? confined_evidence_input_path declared_path REPO_ROOT ;;
          match candidate with
          | None => Ret (inl (InputEscapes phase))
          | Some c =>
              match sha256_file c with
              | Raise ex => if is_gate_error ex then Ret (inl (InputUnreadable phase)) else Raise ex
              | Ret actual_sha =>
                  if bool_decide (actual_sha = declared_sha) then Ret (inr c) else Ret (inl (DigestDrift phase))
              end
          end
      | _, _ => Ret (inl (InputIncomplete phase))
      end
  | _ => Ret (inl (InputNotObject phase))
  end.

Fixpoint check_inputs (items : list (list N * json)) (resolved : dict text path) : result (list drift * dict text path) :=
  match items with
  | [] => Ret ([], resolved)
  | (phase, entry) :: items' =>
      if bool_decide (phase = txt "phase4c") then check_inputs items' resolved
      else
        checked ←? check_input phase entry ;;
        match checked with
        | inl d => rest ←? check_inputs items' resolved ;; Ret (d :: rest.1, rest.2)
        | inr c => check_inputs items' (dict_set phase c resolved)
        end
  end.

Definition schema_drift manifest : result (list drift) :=
  if path_exists SCHEMA_PATH then
    actual ←? sha256_file SCHEMA_PATH ;;
    Ret (drift_if (negb (eq_str (get manifest "schema_hash") actual)) SchemaDrift)
  else Ret [SchemaMissing].

(** The artifacts read in the [try] block *)
Record Gates := mkGates {
  gt_phase0 : list (dict text json); gt_phase1 : list (dict text json); gt_transport : dict text json;
  gt_phase3 : option (dict text json)
}.

(** [resolved[phase]] *)
Definition resolved_path (resolved : dict text path) (phase : string) : result path :=
  match dict_get (txt phase) resolved with Some c => Ret c | None => Raise KeyError end.

Definition run_gates (resolved : dict text path) : result Gates :=
  p0 ←? resolved_path resolved "phase0" ;;
  phase0_records ←? validate_evidence (txt "phase0") p0 ;;
  p1 ←? resolved_path resolved "phase1" ;;
  phase1_records ←? validate_evidence (txt "phase1") p1 ;;
  p2 ←? resolved_path resolved "phase2" ;;
  transport_record ←? validate_transport_contract p2 ;;
  phase3_record ←? match dict_get (txt "phase3") resolved with
                   | Some c => r ←? read_phase3_completion c ;; Ret (Some r)
                   | None => Ret None
                   end ;;
  Ret (mkGates phase0_records phase1_records transport_record phase3_record).

(** [manifest.get("reason") != expected_reason] *)
Definition same_reason (v : json) (expected : option text) : bool :=
  match expected with Some t => eq_str v t | None => match v with JNull => true | _ => false end end.

Definition phase3_drift manifest (r : dict text json) : list drift :=
  drift_if (negb (json_eqb (get r "source_commit") (get manifest "source_commit"))) (IdentityDrift "source_commit")
  ++ drift_if (negb (json_eqb (get r "source_tree_hash") (get manifest "source_tree_hash"))) (IdentityDrift "source_tree_hash")
  ++ drift_if (declared "phase3_command_digest" manifest
               && negb (json_eqb (get manifest "phase3_command_digest") (get r "command_digest"))) CommandDigestDrift.

(** The [else] block: the verdict derived again; and whether the phase 3 record was
    compared *)
Definition verdict_drift manifest (m : manifest_phase) (g : Gates) : result (list drift * bool) :=
  real_stratum_present ←?
    has_real_provider_stratum (filter (λ r, of_phase (txt "phase0") r = true) (gt_phase0 g)
                               ++ filter (λ r, of_phase (txt "phase1") r = true) (gt_phase1 g)) ;;
  transport_eligible ←? item (gt_transport g) "promotion_eligible" ;;
  let '(expected_eligible, expected_reason) := promotion_verdict m real_stratum_present (is_true transport_eligible) in
  let eligible := get manifest "promotion_eligible" in
  Ret (drift_if (is_bool eligible && negb (Bool.eqb (is_true eligible) expected_eligible)) EligibleDrift
       ++ drift_if (negb (same_reason (get manifest "reason") expected_reason)) ReasonDrift
       ++ match gt_phase3 g with Some r => phase3_drift manifest r | None => [] end,
       match gt_phase3 g with Some _ => true | None => false end).

Definition rederive manifest (m : option manifest_phase) (resolved : dict text path) : result (list drift * bool) :=
  match difference (required_phases m) (dict_keys resolved) with
  | _ :: _ as unresolved => Ret ([NotRederived (sorted_set unresolved)], false)
  | [] =>
      match m with
      | None => Ret ([PhaseUnusable], false)
      | Some m =>
          match run_gates resolved with
          | Raise ex => if is_gate_error ex then Ret ([GateFails], false) else Raise ex
          | Ret g => verdict_drift manifest m g
          end
      end
  end.

Definition completion_hash_drift manifest (inputs : dict text json) : list drift :=
  if declared "phase3_completion_hash" manifest then
    let declared := match dict_get (txt "phase3") inputs with Some (JObj e) => get e "sha256" | _ => JNull end in
    drift_if (negb (json_eqb (get manifest "phase3_completion_hash") declared)) CompletionHashDrift
  else [].

Definition verify_inputs manifest (inputs : dict text json) : result (list drift) :=
  let m := read_manifest_phase manifest in
  checked ←? check_inputs (sorted_items inputs) [] ;;
  let '(input_drift, resolved) := checked in
  schema ←? schema_drift manifest ;;
  verdict ←? rederive manifest m resolved ;;
  Ret (format_drift manifest
       ++ drift_if (negb (bool_decide (is_Some m))) UnknownManifestPhase
       ++ drift_if (dict_mem (txt "phase4c") inputs) RetiredInput
       ++ report (difference (dict_keys inputs) (txt "phase4c" :: MANIFEST_REQUIRED_FINAL_INPUTS)) UnrecognizedPhases
       ++ input_drift
       ++ (InputMissing <$> sorted_set (difference (required_phases m) (dict_keys inputs)))
       ++ schema
       ++ drift_if (match m with Some Final => negb (declared "phase3_completion_hash" manifest) | _ => false end) CompletionHashMissing
       ++ verdict.1
       ++ drift_if (declared "phase3_command_digest" manifest && negb verdict.2) CommandDigestUnchecked
       ++ drift_if (declared "phase4c_artifact_sha256" manifest) RetiredField
       ++ completion_hash_drift manifest inputs
       ++ report (difference (dict_keys manifest) (MANIFEST_VOLATILE_FIELDS ++ MANIFEST_VERIFIED_FIELDS)) UncoveredFields).

Definition verify_manifest (manifest_path : path) : result (list drift) :=
  v ←? load_json manifest_path ;;
  match v with
  | JObj manifest =>
      match get manifest "inputs" with
      | JObj (x :: inputs) => verify_inputs manifest (x :: inputs)
      | _ => gate
      end
  | _ => gate
  end.

(** [main]: the exit code, or the exception that ends the script *)
Definition evidence_main (verify : option path) (phase : option text) (input : option path) : result nat :=
  match verify with
  | Some manifest_path =>
      match verify_manifest manifest_path with
      | Ret [] => Ret 0%nat
      | Ret _ => Ret 1%nat
      | Raise e => if is_gate_error e || bool_decide (e = OSError) then Ret 1%nat else Raise e
      end
  | None =>
      match phase, input with
      | Some phase, Some input_path =>
          match validate_evidence phase input_path with
          | Ret _ => Ret 0%nat
          | Raise e => if is_gate_error e then Ret 1%nat else Raise e
          end
      | _, _ => Ret 2%nat
      end
  end.

End gate.
