(* ===== verification/EvidenceGateFacts.v ===== *)
(** What the evidence gate guarantees: an empty drift report means that every binding
    of the manifest was evaluated and holds, and a manifest that promotes is backed by a
    record of a real provider and by a browser check. *)

From S2P Require Import Prelude PyDict PyText PyValue Regex Json EvalVote Evidence Transport EvidenceGate.

Section gate_facts.
Context `{EvidenceOS} `{UnicodeText} `{WebText}.
Implicit Types (record manifest : dict text json) (records : list (dict text json)) (v : json).

(** ** Empty reports *)

Lemma drift_if_nil (b : bool) d : drift_if b d = [] ↔ b = false.
Proof. by destruct b. Qed.

Lemma report_nil l (d : list (list N) → drift) : report l d = [] ↔ l = [].
Proof. by destruct l. Qed.

Lemma difference_nil a b : difference a b = [] ↔ a ⊆ b.
Proof.
  unfold difference. split.
  - intros E x Hx. destruct (decide (x ∈ b)); [done|]. assert (x ∈ filter (λ k, k ∉ b) a) as Hf by (apply list_elem_of_filter; auto).
    rewrite E in Hf. by apply elem_of_nil in Hf.
  - intros Hs. destruct (filter _ a) as [|x l] eqn:E; [done|]. assert (x ∈ filter (λ k, k ∉ b) a) as Hf by (rewrite E; left).
    apply list_elem_of_filter in Hf as [Hn Hx]. by apply Hs in Hx.
Qed.

Lemma sorted_set_nil l : sorted_set l = [] → l = [].
Proof.
  destruct l as [|x l]; [done|]. cbn. destruct (foldr insert_text [] l) as [|y m]; cbn; [done|].
  destruct (bool_decide (x = y)); [done|]. by destruct (text_ltb x y).
Qed.

Lemma format_drift_nil manifest :
  format_drift manifest = [] →
  MANIFEST_REQUIRED_FIELDS ⊆ dict_keys manifest
  ∧ (∀ f, f ∈ MANIFEST_STRING_FIELDS → ∃ t, dict_get f manifest = Some (JStr t))
  ∧ ∃ eligible, get manifest "promotion_eligible" = JBool eligible.
Proof.
  unfold format_drift. intros [F1%report_nil%difference_nil [F2%report_nil F3%drift_if_nil]%app_nil]%app_nil.
  assert (MANIFEST_STRING_FIELDS ⊆ MANIFEST_REQUIRED_FIELDS) as Hsub by (apply included_true; by vm_compute).
  split_and!; [done| |].
  - intros f Hf. assert (f ∈ dict_keys manifest) as Hk by auto.
    apply dict_get_is_Some in Hk as [v Hv]. destruct (is_str v) eqn:Es; [destruct v; try done; by eexists|].
    assert (f ∈ filter (λ f, match dict_get f manifest with Some v => negb (is_str v) | None => false end = true) MANIFEST_STRING_FIELDS)
      as Hin by (apply list_elem_of_filter; rewrite Hv, Es; done).
    rewrite F2 in Hin. by apply elem_of_nil in Hin.
  - apply negb_false_iff in F3. destruct (get manifest _); try done. by eexists.
Qed.

Lemma get_some manifest f v : dict_get (txt f) manifest = Some v → get manifest f = v.
Proof. unfold get. by intros ->. Qed.

Lemma declared_some manifest f v : dict_get (txt f) manifest = Some v → declared f manifest = true.
Proof. intros E. apply dict_mem_iff, dict_get_is_Some. by exists v. Qed.

Lemma json_str_eqb t v : json_eqb (JStr t) v = true → v = JStr t.
Proof. destruct v; cbn; try done. by intros ->%bool_decide_eq_true. Qed.

(** ** Inputs *)

(** An input whose path stays inside the tree and whose bytes have the digest declared *)
Definition input_bound (entry : json) (c : path) : Prop :=
  ∃ e declared_path declared_sha,
    entry = JObj e ∧ get e "path" = JStr declared_path ∧ get e "sha256" = JStr declared_sha
    ∧ confined_evidence_input_path declared_path REPO_ROOT = Ret (Some c) ∧ sha256_file c = Ret declared_sha.

Lemma check_input_bound phase entry c : check_input phase entry = Ret (inr c) → input_bound entry c.
Proof.
  unfold check_input. destruct entry as [| | | | | |e]; try done.
  destruct (get e "path") as [| | | |p| |] eqn:Ep; try done. destruct (get e "sha256") as [| | | |sha| |] eqn:Es; try done.
  intros R. apply rbind_ret in R as ([c'|] & Hc & R); [|done].
  destruct (sha256_file c') as [actual|ex] eqn:Ea; [|by destruct (is_gate_error ex)].
  case_bool_decide; [|done]. simplify_eq. by exists e, p, sha.
Qed.

Definition all_bound (inputs : list (list N * json)) (resolved : dict text path) : Prop :=
  ∀ phase c, dict_get phase resolved = Some c → ∃ entry, (phase, entry) ∈ inputs ∧ input_bound entry c.

Lemma check_inputs_clean items resolved out :
  check_inputs items resolved = Ret ([], out) →
  (∀ phase entry, (phase, entry) ∈ items → phase ≠ txt "phase4c" → ∃ c, input_bound entry c)
  ∧ (∀ phase c, dict_get phase out = Some c →
       dict_get phase resolved = Some c ∨ ∃ entry, (phase, entry) ∈ items ∧ input_bound entry c).
Proof.
  revert resolved. induction items as [|[phase entry] items IH]; intros resolved; cbn [check_inputs].
  - intros [= <-]. split; [by intros ? ? ?%elem_of_nil|by left].
  - case_bool_decide as E4.
    + intros R. apply IH in R as [R1 R2]. split.
      * intros p e [[= -> ->]|Hin]%elem_of_cons Hp; [done|by eapply R1].
      * intros p c [?|(e & Hin & Hb)]%R2; [by left|]. right. exists e. split; [by right|done].
    + intros R. apply rbind_ret in R as ([d|c] & Hc & R).
      * apply rbind_ret in R as ([? ?] & _ & R). done.
      * apply check_input_bound in Hc. apply IH in R as [R1 R2]. split.
        -- intros p e [[= -> ->]|Hin]%elem_of_cons Hp; [by exists c|by eapply R1].
        -- intros p c' [Hg|(e & Hin & Hb)]%R2; [|right; exists e; split; [by right|done]].
           rewrite dict_get_set in Hg. destruct (decide _) as [->|]; [|by left]. simplify_eq. right.
           exists entry. split; [left|done].
Qed.

Lemma insert_item_elem x y l : y ∈ insert_item x l ↔ y = x ∨ y ∈ l.
Proof.
  induction l as [|z l IH]; cbn; [by rewrite elem_of_cons|]. destruct (text_ltb z.1 x.1); rewrite ?elem_of_cons, ?IH; naive_solver.
Qed.

Lemma sorted_items_elem x inputs : x ∈ sorted_items inputs ↔ x ∈ inputs.
Proof. induction inputs as [|y l IH]; [done|]. cbn. rewrite insert_item_elem, IH, elem_of_cons. done. Qed.

(** ** The manifest *)

Lemma read_phase_text manifest m : read_manifest_phase manifest = Some m → get manifest "manifest_phase" = JStr (phase_text m).
Proof.
  unfold read_manifest_phase. destruct (eq_str _ (txt "provisional")) eqn:E1.
  - intros [= <-]. by apply eq_str_spec in E1.
  - destruct (eq_str _ (txt "final")) eqn:E2; [|done]. intros [= <-]. by apply eq_str_spec in E2.
Qed.

(** What the third phase's record is compared with *)
Definition phase3_bound manifest (r : dict text json) : Prop :=
  (∀ f, f ∈ ["source_commit"; "source_tree_hash"] → ∃ t, get r f = JStr t ∧ t ≠ [] ∧ get manifest f = JStr t)
  ∧ (∀ v, dict_get (txt "phase3_command_digest") manifest = Some v → v = get r "command_digest").

Record clean_manifest manifest (inputs : dict text json) (m : manifest_phase) (eligible : bool) (g : Gates) : Prop := {
  clean_fields : MANIFEST_REQUIRED_FIELDS ⊆ dict_keys manifest;
  clean_roster : dict_keys manifest ⊆ MANIFEST_VOLATILE_FIELDS ++ MANIFEST_VERIFIED_FIELDS;
  clean_strings : ∀ f, f ∈ MANIFEST_STRING_FIELDS → ∃ t, dict_get f manifest = Some (JStr t);
  clean_phase : get manifest "manifest_phase" = JStr (phase_text m);
  clean_eligible : get manifest "promotion_eligible" = JBool eligible;
  clean_phases : dict_keys inputs ⊆ MANIFEST_REQUIRED_FINAL_INPUTS;
  clean_required : required_phases (Some m) ⊆ dict_keys inputs;
  clean_inputs : ∀ phase entry, (phase, entry) ∈ inputs → ∃ c, input_bound entry c;
  clean_schema : ∃ h, sha256_file SCHEMA_PATH = Ret h ∧ get manifest "schema_hash" = JStr h;
  clean_gates : ∃ resolved, all_bound inputs resolved ∧ run_gates resolved = Ret g;
  clean_verdict : ∃ real te,
    has_real_provider_stratum (filter (λ r, of_phase (txt "phase0") r = true) (gt_phase0 g)
                               ++ filter (λ r, of_phase (txt "phase1") r = true) (gt_phase1 g)) = Ret real
    ∧ item (gt_transport g) "promotion_eligible" = Ret te
    ∧ eligible = (promotion_verdict m real (is_true te)).1
    ∧ same_reason (get manifest "reason") (promotion_verdict m real (is_true te)).2 = true;
  clean_phase3 : m = Final → ∃ r, gt_phase3 g = Some r ∧ phase3_bound manifest r;
  clean_completion : m = Final → ∃ e sha,
    dict_get (txt "phase3") inputs = Some (JObj e) ∧ get e "sha256" = JStr sha ∧ get manifest "phase3_completion_hash" = JStr sha
}.

Lemma phase3_read c r : read_phase3_completion c = Ret r → ∀ f, f ∈ PHASE3_COMPLETION_REQUIRED_FIELDS → ∃ t, get r f = JStr t ∧ t ≠ [].
Proof.
  unfold read_phase3_completion. intros R. apply rbind_ret in R as (v & _ & R). destruct v as [| | | | | |record]; try done.
  apply rbind_ret in R as (? & Hr%require_ret & [= <-]). intros f Hf%list_elem_of_In.
  rewrite forallb_forall in Hr. apply Hr in Hf. destruct (get record f) as [| | | |[|c' t]| |]; try done. by eexists.
Qed.

Lemma phase3_drift_nil manifest r :
  (∀ f, f ∈ PHASE3_COMPLETION_REQUIRED_FIELDS → ∃ t, get r f = JStr t ∧ t ≠ []) →
  phase3_drift manifest r = [] → phase3_bound manifest r.
Proof.
  intros Hr. unfold phase3_drift.
  intros [D1%drift_if_nil%negb_false_iff [D2%drift_if_nil%negb_false_iff D3%drift_if_nil]%app_nil]%app_nil. split.
  - intros f Hf. assert (f ∈ PHASE3_COMPLETION_REQUIRED_FIELDS) as (t & Et & Ht)%Hr.
    { apply elem_of_cons in Hf as [->|Hf%list_elem_of_singleton]; [left|subst; right; left]. }
    exists t. split_and!; [done..|].
    apply elem_of_cons in Hf as [->| ->%list_elem_of_singleton]; rewrite Et in *; by apply json_str_eqb.
  - intros v Hv. destruct (Hr "command_digest") as (t & Et & _); [by apply (bool_decide_unpack _)|].
    rewrite (get_some _ _ _ Hv), (declared_some _ _ _ Hv), Et in D3. rewrite Et. apply negb_false_iff in D3. by apply json_eqb_str.
Qed.

(** The artifacts the gates returned are those of the files the inputs name. *)
Lemma run_gates_ret resolved g :
  run_gates resolved = Ret g →
  (∃ p0, dict_get (txt "phase0") resolved = Some p0 ∧ validate_evidence (txt "phase0") p0 = Ret (gt_phase0 g))
  ∧ (∃ p1, dict_get (txt "phase1") resolved = Some p1 ∧ validate_evidence (txt "phase1") p1 = Ret (gt_phase1 g))
  ∧ (∃ p2, dict_get (txt "phase2") resolved = Some p2 ∧ validate_transport_contract p2 = Ret (gt_transport g))
  ∧ (∀ c, dict_get (txt "phase3") resolved = Some c → ∃ r, gt_phase3 g = Some r ∧ read_phase3_completion c = Ret r).
Proof.
  assert (∀ ph c, resolved_path resolved ph = Ret c → dict_get (txt ph) resolved = Some c) as Hp.
  { intros ph c. unfold resolved_path. destruct (dict_get _ resolved); [|done]. by intros [= ->]. }
  unfold run_gates. intros R. apply rbind_ret in R as (p0 & P0%Hp & R). apply rbind_ret in R as (r0 & H0' & R).
  apply rbind_ret in R as (p1 & P1%Hp & R). apply rbind_ret in R as (r1 & H1' & R).
  apply rbind_ret in R as (p2 & P2%Hp & R). apply rbind_ret in R as (t & Ht & R). apply rbind_ret in R as (r3 & H3 & [= <-]).
  split_and!; [by exists p0|by exists p1|by exists p2|].
  intros c Hc. rewrite Hc in H3. apply rbind_ret in H3 as (r & Hr & [= <-]). by exists r.
Qed.

Lemma completion_clean manifest inputs e sha :
  declared "phase3_completion_hash" manifest = true → dict_get (txt "phase3") inputs = Some (JObj e) → get e "sha256" = JStr sha →
  completion_hash_drift manifest inputs = [] → get manifest "phase3_completion_hash" = JStr sha.
Proof.
  unfold completion_hash_drift. intros -> -> ->. intros D%drift_if_nil%negb_false_iff. by apply json_eqb_str.
Qed.

Lemma rederive_clean manifest m inputs resolved checked eligible :
  get manifest "promotion_eligible" = JBool eligible → all_bound inputs resolved →
  rederive manifest m resolved = Ret ([], checked) →
  ∃ m' g, m = Some m' ∧ run_gates resolved = Ret g ∧ required_phases m ⊆ dict_keys resolved
    ∧ (∃ real te,
         has_real_provider_stratum (filter (λ r, of_phase (txt "phase0") r = true) (gt_phase0 g)
                                    ++ filter (λ r, of_phase (txt "phase1") r = true) (gt_phase1 g)) = Ret real
         ∧ item (gt_transport g) "promotion_eligible" = Ret te
         ∧ eligible = (promotion_verdict m' real (is_true te)).1
         ∧ same_reason (get manifest "reason") (promotion_verdict m' real (is_true te)).2 = true)
    ∧ (∀ r, gt_phase3 g = Some r → phase3_drift manifest r = []).
Proof.
  intros He Hb. unfold rederive. destruct (difference _ _) eqn:Ed; [|done]. apply difference_nil in Ed.
  destruct m as [m|]; [|done]. destruct (run_gates resolved) as [g|ex] eqn:Eg; [|by destruct (is_gate_error ex)].
  unfold verdict_drift. intros R. apply rbind_ret in R as (real & Hr & R). apply rbind_ret in R as (te & Hte & R).
  rewrite He in R. destruct (promotion_verdict m real (is_true te)) as [xe xr] eqn:Ev.
  injection R as R _. apply app_nil in R as [R1%drift_if_nil [R2%drift_if_nil R3]%app_nil].
  exists m, g. split_and!; [done..| |].
  - exists real, te. rewrite Ev. cbn [fst snd]. split_and!; [done..| |by apply negb_false_iff].
    cbn [is_bool is_true andb] in R1. by apply negb_false_iff, eqb_prop in R1.
  - intros r Hr3. by rewrite Hr3 in R3.
Qed.

Lemma empty_drift_facts manifest_path :
  verify_manifest manifest_path = Ret [] →
  ∃ manifest inputs m eligible g,
    load_json manifest_path = Ret (JObj manifest) ∧ get manifest "inputs" = JObj inputs
    ∧ clean_manifest manifest inputs m eligible g.
Proof.
  unfold verify_manifest. intros R. apply rbind_ret in R as (v & Hl & R). destruct v as [| | | | | |manifest]; try done.
  destruct (get manifest "inputs") as [| | | | | |[|x inputs]] eqn:Ei; try done.
  remember (x :: inputs) as ins eqn:Ex. clear Ex x inputs. unfold verify_inputs in R.
  apply rbind_ret in R as ([input_drift resolved] & Hc & R). apply rbind_ret in R as (schema & Hs & R).
  apply rbind_ret in R as ([verdict checked] & Hv & R). injection R as R. cbn [fst snd] in R.
  repeat (apply app_nil in R as [? R]).
  repeat match goal with E : drift_if _ _ = [] |- _ => apply drift_if_nil in E | E : report _ _ = [] |- _ => apply report_nil in E end.
  apply difference_nil in R. simplify_eq.
  match goal with E : format_drift _ = [] |- _ => apply format_drift_nil in E as (F1 & F2 & eligible & F3) end.
  match goal with E : difference (dict_keys ins) _ = [] |- _ => apply difference_nil in E as P1 end.
  match goal with E : _ <$> sorted_set _ = [] |- _ => apply fmap_nil_inv, sorted_set_nil, difference_nil in E as P2 end.
  match goal with E : dict_mem (txt "phase4c") ins = false |- _ => rename E into P3 end.
  apply check_inputs_clean in Hc as [C1 C2].
  assert (txt "phase4c" ∉ dict_keys ins) as P4 by (rewrite <- dict_mem_iff; congruence).
  assert (∀ phase entry, (phase, entry) ∈ ins → phase ∈ dict_keys ins) as Hkeys by (intros p e Hin; by apply (list_elem_of_fmap_2 fst) in Hin).
  assert (all_bound ins resolved) as Hb.
  { intros p c [?|(e & Hin & ?)]%C2; [done|]. exists e. split; [by apply sorted_items_elem|done]. }
  destruct (rederive_clean _ _ _ _ _ _ F3 Hb Hv) as (m & g & Em & Eg & Hreq & Hver & Hp3). rewrite Em in *.
  exists manifest, ins, m, eligible, g. split_and!; [done..|]. split; try done.
  - by apply read_phase_text.
  - intros p Hp. pose proof (P1 p Hp) as Hp'. apply elem_of_cons in Hp' as [->|?]; [done|done].
  - intros p e Hin. apply (C1 p e); [by apply sorted_items_elem|]. intros ->. eauto.
  - unfold schema_drift in Hs. destruct (path_exists SCHEMA_PATH); [|done]. apply rbind_ret in Hs as (h & Hh & Hs).
    injection Hs as Hs. apply drift_if_nil, negb_false_iff, eq_str_spec in Hs. by exists h.
  - by exists resolved.
  - intros ->. assert (txt "phase3" ∈ dict_keys resolved) as [c Hc3]%dict_get_is_Some by (apply Hreq; by apply (bool_decide_unpack _)).
    destruct (run_gates_ret _ _ Eg) as (_ & _ & _ & Hg3). destruct (Hg3 c Hc3) as (r & Er & Hr). exists r. split; [done|].
    apply phase3_drift_nil; [by eapply phase3_read|]. by apply Hp3.
  - intros ->. assert (txt "phase3" ∈ dict_keys ins) as [entry Hen]%dict_get_is_Some by (apply P2; by apply (bool_decide_unpack _)).
    destruct (C1 (txt "phase3") entry) as (c & e & dp & sha & -> & _ & Hsha & _);
      [by apply sorted_items_elem, dict_get_elem|done|].
    exists e, sha. split_and!; [done..|]. eapply completion_clean; [|done..]. by apply negb_false_iff.
Qed.

(** C16.  An empty report is a proof: if the check of a manifest finds no drift, the
    manifest has every required field with its type and no field beyond the roster,
    its phase is known and every input it implies is declared, every declared input
    stays inside the tree and still has the digest it is declared with, the schema has
    its digest, the gates of every phase passed on those very files, and the verdict
    and its reason are the ones the evidence supports; the record of the third phase
    agrees with the manifest where the manifest is final. *)
Theorem empty_drift_binds manifest_path :
  verify_manifest manifest_path = Ret [] →
  ∃ manifest inputs m eligible g,
    load_json manifest_path = Ret (JObj manifest) ∧ get manifest "inputs" = JObj inputs
    ∧ clean_manifest manifest inputs m eligible g.
Proof. apply empty_drift_facts. Qed.

(** ** Promotion *)

Lemma eq_pair_spec (x : json * json) (p : list N * list N) : mem_pair p [x] = true ↔ x = (JStr p.1, JStr p.2).
Proof. destruct x, p. unfold mem_pair. cbn. rewrite orb_false_r, andb_true_iff, !eq_str_spec. naive_solver. Qed.

Lemma pair_item_ret f g record x : pair_item f g record = Ret x → x = (get record f, get record g).
Proof.
  assert (∀ h v, set_item record h = Ret v → v = get record h) as Hs.
  { intros h v R. unfold set_item in R. apply rbind_ret in R as (w & Hw%item_ret & R). apply get_some in Hw as <-.
    destruct (unhashable _); [done|]. by injection R. }
  unfold pair_item. intros R. apply rbind_ret in R as (v & ->%Hs & R). apply rbind_ret in R as (w & ->%Hs & [= <-]). done.
Qed.

Definition from_real_provider record : Prop :=
  ∃ provider model, (provider, model) ∈ REAL_PROVIDER_ALLOWLIST ∧ get record "provider" = JStr provider ∧ get record "model" = JStr model.

Lemma real_stratum_found records : has_real_provider_stratum records = Ret true → ∃ r, r ∈ records ∧ from_real_provider r.
Proof.
  induction records as [|r records IH]; cbn [has_real_provider_stratum]; [done|]. intros R.
  apply rbind_ret in R as (x & ->%pair_item_ret & R). destruct (existsb _ _) eqn:Ex.
  - apply existsb_exists in Ex as ([provider model] & Hin%list_elem_of_In & [= E1 E2]%eq_pair_spec).
    exists r. split; [left|]. by exists provider, model.
  - apply IH in R as (r' & Hin & Hr). exists r'. split; [by right|done].
Qed.

Lemma map_result_all {A B} (f : A → result B) l out : map_result f l = Ret out → ∀ x, x ∈ l → ∃ y, f x = Ret y.
Proof.
  revert out. induction l as [|x l IH]; intros out; cbn [map_result]; [by intros _ ? ?%elem_of_nil|].
  intros R. apply rbind_ret in R as (y & Hy & R). apply rbind_ret in R as (rest & Hr & _).
  intros z [->|Hz]%elem_of_cons; [by exists y|by eapply IH].
Qed.

Lemma validated phase p records r : validate_evidence phase p = Ret records → r ∈ records → validate_record r = Ret tt.
Proof.
  unfold validate_evidence. intros R Hr. apply rbind_ret in R as (l & _ & R). apply rbind_ret in R as (us & Hm & R).
  apply rbind_ret in R as (? & _ & [= ->]). by destruct (map_result_all _ _ _ Hm r Hr) as ([] & ->).
Qed.

Lemma contract_unique record e e' : contract record e → dict_get (txt "promotion_eligible") record = Some (JBool e') → contract record e'.
Proof.
  intros C E. assert (e = e') as <-; [|done]. destruct C as (commit & tree & route & version & integrity & anchor & declared & status & aud & C).
  destruct C as (_ & _ & _ & _ & _ & _ & _ & E' & _). rewrite E in E'. by injection E'.
Qed.

Lemma verdict_promotes m real te : (promotion_verdict m real te).1 = true → m = Final ∧ real = true ∧ te = true.
Proof. destruct m, real, te; done. Qed.

(** C17.  A manifest that promotes is backed by evidence: when its check finds no drift and
    it says eligible, it is final and gives no reason; one of the records of the first
    two phases, in a file that has the digest the manifest declares and passes its
    gate, is of an allowed real provider; and the transport artifact, in its declared
    file, is bound to the lock file and reports a browser check of its own commit,
    tree, route and package, with audio that played. *)
Theorem promotion_is_backed manifest_path manifest :
  verify_manifest manifest_path = Ret [] → load_json manifest_path = Ret (JObj manifest) →
  get manifest "promotion_eligible" = JBool true →
  get manifest "manifest_phase" = JStr (txt "final") ∧ get manifest "reason" = JNull
  ∧ ∃ inputs, get manifest "inputs" = JObj inputs
    ∧ (∃ phase entry file records r,
         (phase, entry) ∈ inputs ∧ input_bound entry file ∧ validate_evidence phase file = Ret records
         ∧ r ∈ records ∧ validate_record r = Ret tt ∧ get r "phase" = JStr phase ∧ from_real_provider r)
    ∧ (∃ entry file record,
         (txt "phase2", entry) ∈ inputs ∧ input_bound entry file ∧ load_json file = Ret (JObj record) ∧ contract record true).
Proof.
  intros Hv Hl He. destruct (empty_drift_facts _ Hv) as (manifest' & inputs & m & eligible & g & Hl' & Hi & C).
  rewrite Hl in Hl'. injection Hl' as <-. rewrite (clean_eligible _ _ _ _ _ C) in He. injection He as ->.
  destruct (clean_verdict _ _ _ _ _ C) as (real & te & Hr & Hte%item_ret & Hel & Hre). symmetry in Hel.
  apply verdict_promotes in Hel as (-> & -> & Hte'). rewrite Hte' in Hre. cbn in Hre.
  destruct (clean_gates _ _ _ _ _ C) as (resolved & Hb & Hg). destruct (run_gates_ret _ _ Hg) as (G0 & G1 & G2 & _).
  split_and!; [apply (clean_phase _ _ _ _ _ C)|by destruct (get manifest "reason")|]. exists inputs. split_and!; [done| |].
  - apply real_stratum_found in Hr as (r & [Hin|Hin]%elem_of_app & Hreal);
      apply list_elem_of_filter in Hin as [Hph%eq_str_spec Hin];
      [destruct G0 as (p & Hp & Hval)|destruct G1 as (p & Hp & Hval)];
      destruct (Hb _ _ Hp) as (entry & Hen & Hbo); eexists _, entry, p, _, r; split_and!; try done; by eapply validated.
  - destruct G2 as (p & Hp & Hval). destruct (Hb _ _ Hp) as (entry & Hen & Hbo).
    unfold validate_transport_contract in Hval. apply rbind_ret in Hval as (v & Hlo & Hval). destruct v as [| | | | | |record]; try done.
    apply rbind_ret in Hval as (? & Hva & Hrec). injection Hrec as Hrec. rewrite <- Hrec in Hte.
    apply accepted_contract in Hva as (e & Hco). exists entry, p, record. split_and!; [done..|]. eapply contract_unique; [done|].
    rewrite Hte. destruct te as [|b| | | | |]; try done. cbn in Hte'. by rewrite Hte'.
Qed.

End gate_facts.

(** A small tree of evidence to evaluate the gates on: a final manifest that promotes,
    the artifacts of its four phases, a lock file and a package declaration. *)
#[local] Instance plain_text : UnicodeText :=
  {| text_digits := {| other_digit := λ _, false; other_decimal := λ _, None |}; other_word := λ _, false; other_fold := λ c, [c] |}.

#[local] Instance plain_web : WebText :=
  {| urlsplit := λ t, if bool_decide (t = txt "https://[") then Raise (ValueError "Invalid IPv6 URL")
                      else Ret (mkUrl (txt "https") (Some (txt "github.com"))
                                 (txt "/pipecat-ai/small-webrtc-transport/tree/v1.10.6"));
     fromisoformat := λ t, bool_decide (t = txt "2026-08-01T10:00:00+00:00") |}.

Definition str (s : string) : json := JStr (txt s).

(** A phase record, by scenario, outcome and stratum *)
Definition phase_record (phase scenario outcome provider model : string) (extra : dict text json) : json :=
  JObj ([(txt "phase", str phase); (txt "scenario", str scenario); (txt "turn_id", str "t1"); (txt "provider", str provider);
         (txt "model", str model); (txt "routing_phase_latency_ms", JInt 12); (txt "outcome", str outcome);
         (txt "disposition", str "autoplay"); (txt "sample_timestamp_ms", JInt 1); (txt "run_id", str "run"); (txt "sample_index", JInt 0);
         (txt "sample_count", JInt 1)] ++ extra).

Definition phase0_record (scenario outcome : string) : json := phase_record "phase0" scenario outcome "unavailable" "unavailable" [].

Definition acks : dict text json :=
  [(txt "work_item_id", JNull); (txt "ack_id", str "a"); (txt "ack_enqueued", JBool true); (txt "ack_enqueued_ms", JInt 3);
   (txt "ack_terminal_state", str "discarded")].
Definition phase1_record (scenario outcome : string) : json := phase_record "phase1" scenario outcome "unavailable" "unavailable" acks.

(** Sixty-four hexadecimal digits *)
Definition some_hash : json := JStr (repeat 97%N 64).

Definition checked : dict text json :=
  [(txt "state", str "audibility_verified"); (txt "browser_name", str "b"); (txt "browser_version", str "1"); (txt "os_device_name", str "d");
   (txt "output_route", str "speaker"); (txt "prior_user_gesture", JBool true); (txt "check_method", str "manual");
   (txt "checked_at_utc", str "2026-08-01T10:00:00Z"); (txt "runner_identity", str "me"); (txt "checked_source_commit", str "c0");
   (txt "checked_source_tree_hash", str "t0"); (txt "route_artifact_sha256", some_hash); (txt "package_version", str "1.10.6");
   (txt "package_integrity", str "sha512-abc"); (txt "play_result", str "resolved")].

Definition transport_record (anchor : string) : dict text json :=
  [(txt "status", str "promotion_eligible"); (txt "reason", JNull); (txt "promotion_eligible", JBool true); (txt "source_commit", str "c0");
   (txt "source_tree_hash", str "t0"); (txt "package_version", str "1.10.6"); (txt "package_integrity", str "sha512-abc");
   (txt "source_anchor", str anchor); (txt "fake_route_artifact_sha256", some_hash); (txt "audibility", JObj checked)].

Definition completion_record : json :=
  JObj [(txt "source_commit", str "c0"); (txt "source_tree_hash", str "t0"); (txt "command_digest", str "d0"); (txt "generated_at_utc", str "now")].

Definition input_entry (file : string) (content : text) : json := JObj [(txt "path", str file); (txt "sha256", JStr (txt "sha:" ++ content))].

Definition lines (l : list string) : text := foldr (λ s t, txt s ++ 10%N :: t) [] l.
Definition phase0_text : text := lines ["d"; "dc"; "rl"; "ca"; "re"; "sn"; "real"].
Definition phase1_text : text := lines ["at"; "eo"; "qd"; "qd"; "ac"; "ac"; "nt"].

Definition sample_manifest : dict text json :=
  [(txt "manifest_phase", str "final"); (txt "promotion_eligible", JBool true); (txt "reason", JNull);
   (txt "schema_hash", str "sha:schema"); (txt "source_commit", str "c0"); (txt "source_tree_hash", str "t0"); (txt "release_version", str "0.1.3");
   (txt "feature_policy_fingerprint", str "f"); (txt "deployed_at_utc", str "now"); (txt "generated_at_utc", str "now");
   (txt "phase3_completion_hash", str "sha:done"); (txt "phase3_command_digest", str "d0");
   (txt "inputs", JObj [(txt "phase3", input_entry "p3" (txt "done")); (txt "phase0", input_entry "p0" phase0_text);
                        (txt "phase2", input_entry "p2" (txt "transport")); (txt "phase1", input_entry "p1" phase1_text)])].

Definition documents : dict text json :=
  [(txt "manifest", JObj sample_manifest); (txt "done", completion_record);
   (txt "transport", JObj (transport_record "@pipecat-ai/small-webrtc-transport@1.10.6 (web/bun.lock)"));
   (txt "package", JObj [(txt "dependencies", JObj [(txt PACKAGE_NAME, str "^1.10.2")])]);
   (txt "d", phase0_record "direct" "direct"); (txt "dc", phase0_record "delegated_complete" "completed");
   (txt "rl", phase0_record "retained_late" "retained"); (txt "ca", phase0_record "cancellation" "cancelled");
   (txt "re", phase0_record "reconnect" "completed"); (txt "sn", phase0_record "same_epoch_newer_turn" "completed");
   (txt "real", phase_record "phase0" "direct" "direct" "openai" "gpt-4o-search-preview" []);
   (txt "at", phase1_record "ack_enqueued_timing" "completed"); (txt "eo", phase1_record "exactly_once" "completed");
   (txt "qd", phase1_record "queued_discard" "cancelled"); (txt "ac", phase1_record "admitted_completion" "completed");
   (txt "nt", phase1_record "no_tts" "completed")].

(** The entry of the lock file: the package, its version, and its integrity *)
Definition lock_text : text :=
  txt "  " ++ [34%N] ++ txt PACKAGE_NAME ++ [34%N] ++ txt ": [" ++ [34%N] ++ txt PACKAGE_NAME ++ txt "@1.10.6" ++ [34%N] ++ txt ", {}, " ++ [34%N]
  ++ txt "sha512-abc" ++ [34%N] ++ txt "]," ++ [10%N].

Definition files : dict path (list N) :=
  [([txt "r"; txt "m"], txt "manifest"); ([txt "r"; txt "p0"], phase0_text); ([txt "r"; txt "p1"], phase1_text);
   ([txt "r"; txt "p2"], txt "transport"); ([txt "r"; txt "p3"], txt "done"); ([txt "r"; txt "web"; txt "package.json"], txt "package");
   ([txt "r"; txt "web"; txt "bun.lock"], lock_text); ([txt "r"; txt "shared"; txt "schemas"; txt "v013-evidence.json"], txt "schema")].

#[local] Instance sample_os : EvidenceOS :=
  {| os_open := λ p, match dict_get p files with Some b => Opened true [Chunk b] | None => OpenFails ENOENT end;
     os_open_write := λ _, OpenFails ELOOP; path_exists := λ p, dict_mem p files; is_symlink := λ _, false; resolve := Ret;
     REPO_ROOT := [txt "r"]; sha256 := λ b, txt "sha:" ++ b; json_decode := Ret; utf8_decode := Ret;
     json_loads := λ t, match dict_get t documents with Some v => Ret v | None => Raise JSONDecodeError end |}.

Definition manifest_file : list (list N) := [txt "r"; txt "m"].

Lemma sample_verifies : verify_manifest manifest_file = Ret [].
Proof. vm_compute. reflexivity. Qed.

Lemma empty_drift_binds_witness :
  ∃ manifest inputs m eligible g,
    load_json manifest_file = Ret (JObj manifest) ∧ get manifest "inputs" = JObj inputs ∧ clean_manifest manifest inputs m eligible g.
Proof. apply (empty_drift_binds manifest_file). exact sample_verifies. Defined.

Lemma manifest_loads : load_json manifest_file = Ret (JObj sample_manifest).
Proof. vm_compute. reflexivity. Qed.

Lemma promotion_is_backed_witness : get sample_manifest "manifest_phase" = JStr (txt "final").
Proof. exact (proj1 (promotion_is_backed manifest_file sample_manifest sample_verifies manifest_loads eq_refl)). Defined.

Lemma caret_admits : declared_range_admits (txt "^1.10.2") (txt "1.10.6") = Ret true.
Proof. vm_compute. reflexivity. Qed.

Lemma range_check_is_npm_witness :
  ∃ operator sp v a b c a' b' c' want have,
    range_text operator sp v a b c (strip (txt "^1.10.2"))
    ∧ Forall (λ c, py_isspace c = true) sp ∧ (v = [] ∨ v = txt "v")
    ∧ strip (txt "1.10.6") = a' ++ txt "." ++ b' ++ txt "." ++ c'
    ∧ Forall digits [a; b; c; a'; b'; c']
    ∧ reads_as a b c want ∧ reads_as a' b' c' have ∧ (true = true ↔ in_range operator want have).
Proof. exact (range_check_is_npm (txt "^1.10.2") (txt "1.10.6") true caret_admits). Defined.

(** ** Behaviour the documentation does not expect *)

(** The gate's own errors are not the only ones: a phase that is a list, and a source
    anchor that the URL parser rejects, end the script with a traceback. *)
Lemma list_phase_escapes :
  validate_record ((txt "phase", JArr []) :: drop 1 (match phase0_record "direct" "direct" with JObj d => d | _ => [] end))
  = Raise (TypeError "unhashable type").
Proof. vm_compute. reflexivity. Qed.

Lemma bad_anchor_escapes : validate_artifact (transport_record "https://[") = Raise (ValueError "Invalid IPv6 URL").
Proof. vm_compute. reflexivity. Qed.

(** A latency that is not a number is not below zero. *)
Lemma nan_latency_accepted :
  validate_record (dict_set (txt "routing_phase_latency_ms") (JFloat NaN)
                     (match phase0_record "direct" "direct" with JObj d => d | _ => [] end)) = Ret tt.
Proof. vm_compute. reflexivity. Qed.
