(* ===== verification/Deployment.v ===== *)
(** Deployment identity ([scripts/emit_v013_deployment_metadata.py]) and the record of
    the third phase ([scripts/record_phase3_completion.py]): the hash over the runtime
    files, the lines written for the environment file, and the record written to a
    confined path.

    What git, the directory and the configuration answer is a class. *)

From S2P Require Import Prelude PyDict PyText PyValue Json Regex EvalVote Evidence.

Class Checkout := {
  git_head : result text;                    (* [git rev-parse HEAD] *)
  git_ls_files : result text;
  git_status : result text;                  (* [git status --porcelain] *)
  glob_files : string → list (list N);       (* regular files matching a pattern, relative to the root *)
  utf8_encode : text → list N;
  now_utc : text;
  feature_policy_fingerprint : result text;
  mkdir_parents : path → result unit;
  json_dumps : dict text json → list N       (* indented, with sorted keys, and encoded *)
}.

Definition RUNTIME_TREE_GLOBS : list string :=
  ["server/**/*.py"; "web/src/**/*.js"; "web/src/**/*.css"; "web/index.html"; "shared/protocol.md";
   "shared/schemas/rtvi-message.json"; "shared/schemas/snapshot-handshake.json"; "shared/schemas/work-status.json";
   "shared/schemas/runtime-snapshot.json"; "shared/schemas/grounded-result.json"; "web/package.json"; "web/bun.lock";
   "pyproject.toml"; "uv.lock"].

(** [n.to_bytes(k, "big")] *)
Fixpoint be_bytes (k : nat) (n : N) : list N :=
  match k with O => [] | S k => be_bytes k (n / 256) ++ [(n mod 256)%N] end.

Definition to_bytes (k : nat) (n : N) : result (list N) :=
  if (n <? 256 ^ N.of_nat k)%N then Ret (be_bytes k n) else Raise overflow_error.

(** What one file adds to the digest's input *)
Definition entry_bytes (rel data : list N) : result (list N) :=
  l1 ←? to_bytes 4 (N.of_nat (length rel)) ;;
  l2 ←? to_bytes 8 (N.of_nat (length data)) ;;
  Ret (l1 ++ rel ++ l2 ++ data).

Fixpoint tree_bytes (entries : list (list N * list N)) : result (list N) :=
  match entries with
  | [] => Ret []
  | (rel, data) :: entries' => b ←? entry_bytes rel data ;; rest ←? tree_bytes entries' ;; Ret (b ++ rest)
  end.

Section deployment.
Context `{EvidenceOS} `{Checkout} `{UnicodeText}.
Implicit Types (t : text).

(** [_run_git] strips its output. *)
Definition run_git (out : result text) : result text := t ←? out ;; Ret (strip t).

Definition source_commit : result text := run_git git_head.

Definition tracked_files : result (list (list N)) := t ←? run_git git_ls_files ;; Ret (splitlines t).

Fixpoint read_entries (rels : list (list N)) : result (list (list N * list N)) :=
  match rels with
  | [] => Ret []
  | rel :: rels' =>
      data ←? read_bytes_no_follow (REPO_ROOT ++ path_parts rel) ;;
      rest ←? read_entries rels' ;;
      Ret ((utf8_encode rel, data) :: rest)
  end.

(** The tracked files that match a pattern, in the order of their names *)
Definition runtime_files (tracked : list (list N)) : list (list N) :=
  sorted_set (filter (λ rel, rel ∈ tracked) (RUNTIME_TREE_GLOBS ≫= glob_files)).

Definition source_tree_hash : result text :=
  tracked ←? tracked_files ;;
  entries ←? read_entries (runtime_files tracked) ;;
  digest_input ←? tree_bytes entries ;;
  Ret (sha256 digest_input).

Definition deployed_at_utc : text := now_utc.

Definition is_dirty : result bool := t ←? run_git git_status ;; Ret (negb (bool_decide (strip t = []))).

(** Exit code and printed lines *)
Definition check_release_inputs : nat * list (list N) :=
  match (commit ←? source_commit ;; tree_hash ←? source_tree_hash ;; fingerprint ←? feature_policy_fingerprint ;;
         Ret (commit, tree_hash, fingerprint)) with
  | Raise _ => (1%nat, [])
  | Ret _ => (0%nat, [txt "OK: deployment metadata derivable"])
  end.

Definition upper_letter (c : N) : bool := ((65 <=? c) && (c <=? 90))%N.
Definition name_char (c : N) : bool := upper_letter c || ascii_digit c || (c =? 95)%N.
Definition value_char (c : N) : bool := ascii_alpha c || ascii_digit c || (c =? 58)%N || (c =? 46)%N || (c =? 43)%N || (c =? 45)%N.

Definition SHELL_EXPORT_LINE_RE : regex :=
  seq_of [Start; one upper_letter; Chars name_char 0 None; exact "="; Chars value_char 1 None; Finish].

Definition export_lines (commit tree_hash deployed_at fingerprint : text) : list (list N) :=
  [txt "PIPECAT_SOURCE_COMMIT=" ++ commit; txt "PIPECAT_SOURCE_TREE_HASH=" ++ tree_hash;
   txt "PIPECAT_DEPLOYED_AT_UTC=" ++ deployed_at; txt "PIPECAT_FEATURE_POLICY_FINGERPRINT=" ++ fingerprint].

Definition shell_export : nat * list (list N) :=
  match (dirty ←? is_dirty ;; commit ←? source_commit ;; tree_hash ←? source_tree_hash ;;
         fingerprint ←? feature_policy_fingerprint ;; Ret (dirty, export_lines commit tree_hash deployed_at_utc fingerprint)) with
  | Raise _ => (1%nat, [])
  | Ret (true, _) => (1%nat, [])
  | Ret (false, lines) =>
      if forallb (λ line, bool_decide (is_Some (fullmatch SHELL_EXPORT_LINE_RE line))) lines then (0%nat, lines) else (1%nat, [])
  end.

(** ** The record of the third phase *)

Definition build_record (commit tree_hash command_digest : text) : result (dict text json) :=
  _ ←? require_nonempty_str (JStr commit) ;;
  _ ←? require_nonempty_str (JStr tree_hash) ;;
  _ ←? require_nonempty_str (JStr command_digest) ;;
  Ret [(txt "source_commit", JStr commit); (txt "source_tree_hash", JStr tree_hash); (txt "command_digest", JStr command_digest);
       (txt "generated_at_utc", JStr now_utc)].

(** [main]: the file written, if any, and the exit code; [None] for a write that has
    not ended *)
Definition record_main (commit tree_hash command_digest output : text) : option (path * list N) * option (result nat) :=
  match (p ←? confine_output_arg output REPO_ROOT ;; record ←? build_record commit tree_hash command_digest ;;
         _ ←? mkdir_parents (removelast p) ;; Ret (p, record)) with
  | Raise e => (None, Some (if is_gate_error e || bool_decide (e = OSError) then Ret 1%nat else Raise e))
  | Ret (p, record) =>
      let '(content, ended) := write_bytes_no_follow p (json_dumps record ++ [10%N]) in
      ((λ c, (p, c)) <$> content,
       (λ r, match r with
             | Ret _ => Ret 0%nat
             | Raise e => if is_gate_error e || bool_decide (e = OSError) then Ret 1%nat else Raise e
             end) <$> ended)
  end.

End deployment.

(** ** The hash identifies the files *)

Lemma be_bytes_length k n : length (be_bytes k n) = k.
Proof. revert n. induction k as [|k IH]; intros n; simpl; [done|]. rewrite length_app, IH. simpl. lia. Qed.

Lemma be_bytes_inj k n m : (n < 256 ^ N.of_nat k)%N → (m < 256 ^ N.of_nat k)%N → be_bytes k n = be_bytes k m → n = m.
Proof.
  revert n m. induction k as [|k IH]; intros n m Hn Hm; [simpl in *; lia|]. cbn [be_bytes]. intros E.
  apply app_inj_2 in E as [E [= Em]]; [|done].
  rewrite Nat2N.inj_succ, N.pow_succ_r' in Hn, Hm.
  apply IH in E; [|apply N.Div0.div_lt_upper_bound; lia..].
  rewrite (N.div_mod n 256), (N.div_mod m 256), E, Em by lia. done.
Qed.

Lemma to_bytes_ret k n b : to_bytes k n = Ret b → (n < 256 ^ N.of_nat k)%N ∧ b = be_bytes k n.
Proof. unfold to_bytes. destruct (N.ltb_spec n (256 ^ N.of_nat k)); [|done]. by intros [= <-]. Qed.

(** A length-prefixed field ends where its length says. *)
Lemma field_inj k f g r s b c :
  to_bytes k (N.of_nat (length f)) = Ret b → to_bytes k (N.of_nat (length g)) = Ret c →
  b ++ f ++ r = c ++ g ++ s → f = g ∧ r = s.
Proof.
  intros [Hf ->]%to_bytes_ret [Hg ->]%to_bytes_ret E. apply app_inj_1 in E as [El E]; [|by rewrite !be_bytes_length].
  apply be_bytes_inj in El; [|done..]. apply app_inj_1 in E; [done|lia].
Qed.

Lemma entry_bytes_nonempty rel data b : entry_bytes rel data = Ret b → b ≠ [].
Proof.
  unfold entry_bytes. intros R. apply rbind_ret in R as (l1 & [_ ->]%to_bytes_ret & R). apply rbind_ret in R as (l2 & _ & R).
  by injection R as <-.
Qed.

(** The bytes that are hashed determine the files: two trees whose digest inputs are
    equal have the same names and the same contents in the same order; no file can be
    renamed, split, joined or moved against another without changing the input. *)
Theorem tree_bytes_injective entries entries' b :
  tree_bytes entries = Ret b → tree_bytes entries' = Ret b → entries = entries'.
Proof.
  revert entries' b. induction entries as [|[rel data] entries IH]; intros [|[rel' data'] entries'] b; cbn [tree_bytes]; [done|..].
  - intros [= <-] R. exfalso. apply rbind_ret in R as (b & Hb & R). apply rbind_ret in R as (rest & _ & R).
    apply entry_bytes_nonempty in Hb. by destruct b.
  - intros R [= <-]. exfalso. apply rbind_ret in R as (b & Hb & R). apply rbind_ret in R as (rest & _ & R).
    apply entry_bytes_nonempty in Hb. by destruct b.
  - intros R R'. apply rbind_ret in R as (e & He & R). apply rbind_ret in R as (rest & Hr & R). injection R as <-.
    apply rbind_ret in R' as (e' & He' & R'). apply rbind_ret in R' as (rest' & Hr' & R'). injection R' as E.
    unfold entry_bytes in He, He'. apply rbind_ret in He as (l1 & L1 & He). apply rbind_ret in He as (l2 & L2 & He). injection He as <-.
    apply rbind_ret in He' as (l1' & L1' & He'). apply rbind_ret in He' as (l2' & L2' & He'). injection He' as <-.
    rewrite <- !app_assoc in E. destruct (field_inj _ _ _ _ _ _ _ L1' L1 E) as [-> E2].
    destruct (field_inj _ _ _ _ _ _ _ L2' L2 E2) as [-> ->]. f_equal. by eapply IH.
Qed.

(** ** Lines for the environment file *)

Section export_facts.
Context `{EvidenceOS} `{Checkout} `{UnicodeText}.

(** A name and a value of the allowed characters, which are neither blanks nor line
    breaks nor of any meaning to a shell *)
Definition safe_line (line : list N) : Prop :=
  ∃ c name value, line = (c :: name) ++ txt "=" ++ value ∧ upper_letter c = true
    ∧ Forall (λ c, name_char c = true) name ∧ Forall (λ c, value_char c = true) value ∧ value ≠ [].

Lemma line_safe line : is_Some (fullmatch SHELL_EXPORT_LINE_RE line) → safe_line line.
Proof.
  intros [g (b & M)%fullmatch_sound]. unfold SHELL_EXPORT_LINE_RE in M.
  apply matches_seq in M as (b1 & a1 & g1 & M1 & M). inversion M1; subst.
  apply matches_seq in M as (b2 & a2 & g2 & M2 & M). apply matches_one in M2 as (c & -> & -> & -> & Hc).
  apply matches_seq in M as (b3 & a3 & g3 & M3 & M). apply matches_chars in M3 as (name & -> & -> & -> & Hn & _).
  apply matches_seq in M as (b4 & a4 & g4 & M4 & M). apply matches_exact in M4 as (-> & -> & ->).
  apply matches_seq in M as (b5 & a5 & g5 & M5 & M). apply matches_chars in M5 as (value & -> & -> & -> & Hv & Hl).
  cbn [seq_of] in M. inversion M; subst. exists c, name, value. rewrite app_nil_r.
  split_and!; [done..|]. intros ->. simpl in Hl. lia.
Qed.

(** The export prints all four lines or none: they are printed only for a clean
    tree, when every value could be derived, and each is a name, an equals sign and a
    value without blanks, line breaks or shell syntax. *)
Theorem export_all_or_nothing :
  shell_export = (1%nat, [])
  ∨ ∃ commit tree_hash fingerprint,
      is_dirty = Ret false ∧ source_commit = Ret commit ∧ source_tree_hash = Ret tree_hash
      ∧ feature_policy_fingerprint = Ret fingerprint
      ∧ shell_export = (0%nat, export_lines commit tree_hash deployed_at_utc fingerprint)
      ∧ Forall safe_line (export_lines commit tree_hash deployed_at_utc fingerprint).
Proof.
  unfold shell_export. destruct is_dirty as [[|]|]; cbn [rbind];
    destruct source_commit as [commit|]; cbn [rbind]; try (by left); destruct source_tree_hash as [tree_hash|]; cbn [rbind]; try (by left);
    destruct feature_policy_fingerprint as [fingerprint|]; cbn [rbind]; try (by left).
  destruct (forallb _ _) eqn:E; [|by left]. right. exists commit, tree_hash, fingerprint. split_and!; [done..|].
  apply Forall_forall. intros line Hl%list_elem_of_In. rewrite forallb_forall in E. apply E, bool_decide_eq_true in Hl. by apply line_safe.
Qed.

End export_facts.

(** ** The record of the third phase *)

Section record_facts.
Context `{EvidenceOS} `{Checkout}.

(** When the script reports success, the file holds the whole record and a line
    break, whatever short writes happened on the way, at a path inside the tree. *)
Theorem record_written_whole commit tree_hash command_digest output file :
  record_main commit tree_hash command_digest output = (file, Some (Ret 0%nat)) →
  ∃ root rest record, resolve REPO_ROOT = Ret root ∧ file = Some (root ++ rest, json_dumps record ++ [10%N])
    ∧ Forall (λ part, denylisted part = false) (root ++ rest)
    ∧ record = [(txt "source_commit", JStr commit); (txt "source_tree_hash", JStr tree_hash);
                (txt "command_digest", JStr command_digest); (txt "generated_at_utc", JStr now_utc)]
    ∧ commit ≠ [] ∧ tree_hash ≠ [] ∧ command_digest ≠ [].
Proof.
  unfold record_main. destruct (rbind _ _) as [[p record]|e] eqn:E.
  2: { destruct (_ || _); congruence. }
  apply rbind_ret in E as (p' & Hp & E). apply rbind_ret in E as (record' & Hr & E). apply rbind_ret in E as (? & _ & [= -> ->]).
  apply confined_output in Hp as (root & rest & Hroot & -> & Hd & _).
  unfold build_record in Hr. apply rbind_ret in Hr as (? & N1 & Hr). apply rbind_ret in Hr as (? & N2 & Hr).
  apply rbind_ret in Hr as (? & N3 & [= <-]).
  destruct (write_bytes_no_follow _ _) as [content ended] eqn:Ew. intros [= <- Hend].
  assert (ended = Some (Ret tt)) as ->.
  { destruct ended as [[[]|e]|]; [done| |done]. cbn in Hend. by destruct (is_gate_error e || _). }
  assert (content = Some (json_dumps [(txt "source_commit", JStr commit); (txt "source_tree_hash", JStr tree_hash);
                (txt "command_digest", JStr command_digest); (txt "generated_at_utc", JStr now_utc)] ++ [10%N])) as ->.
  { unfold write_bytes_no_follow in Ew. destruct (_ <? _)%N; [done|]. destruct (os_open_write _) as [[|] steps|[]]; try done. cbn in Ew.
    destruct (write_loop _ steps) as [c [| |]] eqn:El; try done. apply write_loop_whole in El as ->. by injection Ew as <-. }
  eexists root, rest, _. split_and!; try done; intros ->; done.
Qed.

End record_facts.
