(* ===== verification/Release.v ===== *)
(** The release check ([scripts/check_release_metadata.py]): the version of the
    project against the changelog, versions written out in scripts, and whether the CI
    workflow really runs the drift check of the frozen manifest.

    The readers of TOML and YAML and the shell tokenizer [shlex] are a class; of a
    workflow only entries under string keys are ever looked at.  The stack of pending
    jobs has its top at the head. *)

From S2P Require Import Prelude PyDict PyText PyValue Regex Json EvalCommon Evidence.

Definition ReleaseMetadataError : exn := OtherException "ReleaseMetadataError".
Definition TOMLDecodeError : exn := OtherException "TOMLDecodeError".
Definition YAMLError : exn := OtherException "YAMLError".

Class ReleaseTools := {
  toml_loads : text → result (dict text pyval);
  yaml_load : text → result json;
  shlex_tokens : text → result (list (list N));   (* posix, with punctuation separated *)
  python_files : path → list (list (list N))      (* [sorted(dir.glob("*.py"))] *)
}.

Definition refuse {A} : result A := Raise ReleaseMetadataError.

(** [except cls as exc: raise ReleaseMetadataError] *)
Definition translate {A} (classes : list exn) (x : result A) : result A :=
  match x with Ret a => Ret a | Raise e => if bool_decide (e ∈ classes) then refuse else Raise e end.

Definition MANIFEST_DRIFT_JOB : string := "promotion-manifest-drift".
Definition FROZEN_PROMOTION_MANIFEST : string := "docs/benchmarks/v0.1.3-promotion-manifest.json".
Definition MANIFEST_VERIFIER : string := "scripts/validate_v013_evidence.py".
Definition VERIFY_MANIFEST_FLAG : string := "--verify-manifest".

Definition COMMAND_WRAPPERS : list (list N) := txt <$> ["env"; "command"; "builtin"; "exec"; "nohup"; "time"; "sudo"].
Definition COMMAND_SEPARATORS : list (list N) := txt <$> [";"; "|"; "||"; "&"; "&&"; "("; ")"].
Definition REDIRECTIONS : list (list N) := txt <$> ["<"; ">"; ">>"; "<<"; "<<<"; ">|"; "<>"; "&>"; "&>>"].
Definition RUNNER_PREFIXES : list (list (list N)) :=
  (λ l : list string, txt <$> l) <$> [["uv"; "run"; "python3"]; ["uv"; "run"; "python"]; ["uv"; "run"]; ["python3"]; ["python"]].

Section release.
Context `{EvidenceOS} `{UnicodeText} `{PyRuntime} `{ReleaseTools}.
Implicit Types (t : text) (argv : list (list N)) (jobs job : dict text json).

(** ** Versions *)

Definition read_text (classes : list exn) (p : path) : result text :=
  translate classes (data ←? read_bytes_no_follow p ;; utf8_decode data).

Definition read_pyproject_version (p : path) : result text :=
  data ←? translate [TOMLDecodeError; UnicodeDecodeError] (b ←? read_bytes_no_follow p ;; t ←? utf8_decode b ;; toml_loads t) ;;
  match dict_get (txt "project") data with
  | Some (PTable project) => match dict_get (txt "version") project with Some (PStr (c :: v)) => Ret (c :: v) | _ => refuse end
  | _ => refuse
  end.

Definition count_of (n : nat) : regex := Chars is_digit n (Some n).
Definition date_pattern : regex := seq_of [count_of 4; exact "-"; count_of 2; exact "-"; count_of 2].

Definition CHANGELOG_HEADING_RE : regex :=
  seq_of [LineStart; exact "##"; spaces0; exact "["; Group 1 (Chars (λ c, negb (c =? 93)%N) 1 None); exact "]"; spaces0;
          opt (seq_of [exact "-"; spaces0; Group 2 date_pattern]); spaces0; LineFinish].

(** [re.findall] for a pattern whose matches are not empty: the groups of each match *)
Fixpoint findall_from (fuel : nat) (r : regex) (b a : list N) : list (list (nat * list N)) :=
  match fuel with
  | O => []
  | S fuel =>
      match match_at r b a with
      | Some (b', a', g) => g :: findall_from fuel r b' a'
      | None => match a with c :: a' => findall_from fuel r (c :: b) a' | [] => [] end
      end
  end.

Definition findall (r : regex) t : list (list (nat * list N)) := findall_from (S (length t)) r [] t.

(** The loop over the headings *)
Fixpoint first_release (headings : list (list (nat * list N))) : result (text * option text) :=
  match headings with
  | [] => refuse
  | g :: headings' =>
      let name := strip (default [] (group_of 1 g)) in
      if lower_is name "unreleased" then first_release headings' else Ret (name, strip <$> group_of 2 g)
  end.

Definition read_changelog_release (p : path) : result (text * option text) :=
  t ←? read_text [UnicodeDecodeError] p ;; first_release (findall CHANGELOG_HEADING_RE t).

Definition quote (c : N) : bool := (c =? 34)%N || (c =? 39)%N.

Fixpoint offending_files (version : text) (files : list (list (list N))) : result (list (list (list N))) :=
  match files with
  | [] => Ret []
  | p :: files' =>
      source ←? read_text [UnicodeDecodeError] p ;;
      rest ←? offending_files version files' ;;
      Ret (match search (seq_of [one quote; literal version; one quote]) source with Some _ => p :: rest | None => rest end)
  end.

Definition check_no_hardcoded_version_literals (scripts_dir : path) (version : text) : result unit :=
  offending ←? offending_files version (python_files scripts_dir) ;;
  match offending with [] => Ret tt | _ => refuse end.

(** ** Commands of a step *)

Definition word_start (c : N) : bool := ascii_alpha c || (c =? 95)%N.
Definition word_rest (c : N) : bool := word_start c || ascii_digit c.
Definition delimiter_word : regex := Group 2 (Seq (one word_start) (Chars word_rest 0 None)).

(** The quote before the word and the one after it, a back reference in the source,
    are the same, or there is none. *)
Definition HEREDOC_RE : regex :=
  seq_of [exact "<<"; opt (exact "-"); spaces0;
          alt_of [seq_of [exact "'"; delimiter_word; exact "'"]; seq_of [literal [34%N]; delimiter_word; literal [34%N]]; delimiter_word]].

Fixpoint search_groups (r : regex) (b a : list N) : option (list (nat * list N)) :=
  match match_at r b a with
  | Some (_, _, g) => Some g
  | None => match a with c :: a' => search_groups r (c :: b) a' | [] => None end
  end.

Fixpoint without_heredoc_bodies (delimiter : option text) (lines : list (list N)) : list (list N) :=
  match lines with
  | [] => []
  | line :: lines' =>
      match delimiter with
      | Some d => without_heredoc_bodies (if bool_decide (strip line = d) then None else delimiter) lines'
      | None =>
          let next := match search_groups HEREDOC_RE [] line with Some g => group_of 2 g | None => None end in
          line :: without_heredoc_bodies next lines'
      end
  end.

(** The loop over the tokens of a line *)
Fixpoint split_commands (drop_next : bool) argv (tokens : list (list N)) : list (list (list N)) :=
  match tokens with
  | [] => []
  | token :: tokens' =>
      if drop_next then split_commands false argv tokens'
      else if bool_decide (token ∈ REDIRECTIONS) then split_commands true argv tokens'
      else if bool_decide (token ∈ COMMAND_SEPARATORS) then
        match argv with [] => split_commands false [] tokens' | _ => argv :: split_commands false [] tokens' end
      else split_commands false (argv ++ [token]) tokens'
  end.

Definition line_commands (line : text) : list (list (list N)) :=
  match shlex_tokens line with
  | Raise _ => []
  | Ret tokens => split_commands false [] (tokens ++ [txt ";"])
  end.

Definition commands (command : text) : list (list (list N)) :=
  without_heredoc_bodies None (splitlines (replace [92%N; 10%N] (txt " ") command)) ≫= line_commands.

(** [PurePosixPath(token).name] *)
Definition base_name t : text := default [] (last (path_parts t)).

Definition is_assignment t : bool :=
  match split_once (txt "=") t with Some (name, _) => isidentifier name | None => false end.

Definition stepped_over t : bool :=
  is_assignment t || bool_decide (head t = Some 45%N) || bool_decide (base_name t ∈ COMMAND_WRAPPERS).

Fixpoint program_index argv : option nat :=
  match argv with
  | [] => None
  | token :: argv' => if stepped_over token then S <$> program_index argv' else Some 0%nat
  end.

Definition runner_end argv (index : nat) (prefix : list (list N)) : option nat :=
  let e := (index + length prefix)%nat in
  if bool_decide (take (length prefix) (drop index argv) = prefix) && (e <? length argv)%nat then Some e else None.

Definition program_position_index argv : option nat :=
  match program_index argv with
  | None => None
  | Some index => Some (default index (head (omap (runner_end argv index) RUNNER_PREFIXES)))
  end.

Definition removeprefix (p t : text) : text := default t (prefix_of_text p t).

(** The flag with the expected path right after it *)
Fixpoint flag_followed (expected : text) (rest : list (list N)) : bool :=
  match rest with
  | token :: ((next :: _) as rest') =>
      (bool_decide (token = txt VERIFY_MANIFEST_FLAG) && bool_decide (next = expected)) || flag_followed expected rest'
  | _ => false
  end.

Definition runs_verifier (expected : text) argv : bool :=
  match program_position_index argv with
  | None => false
  | Some index =>
      match argv !! index with
      | None => false
      | Some program =>
          bool_decide (removeprefix (txt "./") program = txt MANIFEST_VERIFIER) && flag_followed expected (drop (S index) argv)
      end
  end.

Definition verifies_manifest (command expected : text) : bool := existsb (runs_verifier expected) (commands command).

(** ** The workflow *)

(** [str(raw).strip().lower() not in ("", "false", "0")] for what is neither absent
    nor a bool; only strings and zero print as one of the three. *)
Definition is_truthy (raw : json) : bool :=
  match raw with
  | JNull => false
  | JBool b => b
  | JInt z => negb (z =? 0)%Z
  | JStr t => let u := strip t in negb (bool_decide (u = []) || lower_is u "false" || bool_decide (u = txt "0"))
  | _ => true
  end.

Definition needs_of jobs (name : text) : list json :=
  match dict_get name jobs with
  | Some (JObj job) => match get job "needs" with JStr n => [JStr n] | JArr l => l | _ => [] end
  | _ => []
  end.

(** The [for] loop: the ancestor found, or what was seen and what is pending *)
Fixpoint visit_needs jobs (names : list json) (seen pending : list (list N)) : text + list (list N) * list (list N) :=
  match names with
  | [] => inr (seen, pending)
  | JStr n :: names' =>
      if bool_decide (n ∈ seen) then visit_needs jobs names' seen pending
      else
        match dict_get n jobs with
        | Some (JObj ancestor) =>
            if dict_mem (txt "if") ancestor then inl n else visit_needs jobs names' (n :: seen) (n :: pending)
        | _ => inl n
        end
  | _ :: names' => visit_needs jobs names' seen pending
  end.

(** The [while] loop; [None] if the fuel does not suffice *)
Fixpoint walk_needs (fuel : nat) jobs (seen pending : list (list N)) : option (option text) :=
  match fuel with
  | O => None
  | S fuel =>
      match pending with
      | [] => Some None
      | current :: pending' =>
          match visit_needs jobs (needs_of jobs current) seen pending' with
          | inl n => Some (Some n)
          | inr (seen', pending'') => walk_needs fuel jobs seen' pending''
          end
      end
  end.

Definition conditional_needs_ancestor jobs (job_name : text) : option (option text) :=
  walk_needs (S (S (length jobs))) jobs [] [job_name].

Definition switchable (step : dict text json) : bool := dict_mem (txt "if") step || is_truthy (get step "continue-on-error").

(** The steps that run the verifier against the manifest *)
Definition matching_steps (steps : json) : list (dict text json) :=
  match steps with
  | JArr l =>
      omap (λ s, match s with
                 | JObj step =>
                     match get step "run" with
                     | JStr command => if verifies_manifest command (txt FROZEN_PROMOTION_MANIFEST) then Some step else None
                     | _ => None
                     end
                 | _ => None
                 end) l
  | _ => []
  end.

Definition check_job jobs : result unit :=
  match dict_get (txt MANIFEST_DRIFT_JOB) jobs with
  | Some (JObj job) =>
      if dict_mem (txt "if") job then refuse
      else if is_truthy (get job "continue-on-error") then refuse
      else
        match conditional_needs_ancestor jobs (txt MANIFEST_DRIFT_JOB) with
        | Some None =>
            match matching_steps (get job "steps") with
            | [] => refuse
            | matching => if existsb (λ step, negb (switchable step)) matching then Ret tt else refuse
            end
        | _ => refuse
        end
  | _ => refuse
  end.

Definition check_ci_uses_frozen_promotion_manifest (p : path) : result unit :=
  t ←? read_text [OSError; EvidenceGateError; MissingEvidenceInput; UnicodeDecodeError] p ;;
  workflow ←? translate [YAMLError] (yaml_load t) ;;
  check_job (match workflow with JObj w => match get w "jobs" with JObj jobs => jobs | _ => [] end | _ => [] end).

(** ** The whole check *)

Definition check (pyproject changelog : path) (ci_yml : option path) : result text :=
  version ←? read_pyproject_version pyproject ;;
  release ←? read_changelog_release changelog ;;
  let '(changelog_version, date) := release in
  if negb (bool_decide (version = changelog_version)) then refuse
  else if bool_decide (default [] date = []) then refuse
  else
    _ ←? check_no_hardcoded_version_literals (removelast pyproject ++ [txt "scripts"]) version ;;
    _ ←? match ci_yml with Some p => check_ci_uses_frozen_promotion_manifest p | None => Ret tt end ;;
    Ret version.

(** [main]: the exit code, or the exception that ends the script *)
Definition release_main (pyproject changelog ci_yml : path) (expected : option text) : result nat :=
  match (version ←? check pyproject changelog (Some ci_yml) ;;
         match expected with Some v => if bool_decide (version = v) then Ret tt else refuse | None => Ret tt end) with
  | Ret _ => Ret 0%nat
  | Raise e =>
      if bool_decide (e ∈ [ReleaseMetadataError; EvidenceGateError; MissingEvidenceInput; OSError; UnicodeDecodeError])
      then Ret 1%nat else Raise e
  end.

End release.

(** What the release check guarantees of the workflow: the search through a job's
    ancestors ends and is exact, and a workflow that passes runs the drift check
    unconditionally. *)
Section release_facts.
Context `{EvidenceOS} `{UnicodeText} `{PyRuntime} `{ReleaseTools}.
Implicit Types (jobs job : dict text json) (seen pending : list (list N)) (n : text).

(** ** Ancestors *)

(** [a] is needed by [n], directly or through other jobs. *)
Inductive ancestor jobs : text → text → Prop :=
| needs_directly n a : JStr a ∈ needs_of jobs n → ancestor jobs n a
| needs_through n m a : JStr m ∈ needs_of jobs n → ancestor jobs m a → ancestor jobs n a.

(** A job that exists and cannot be switched off *)
Definition unconditional jobs n : Prop := ∃ job, dict_get n jobs = Some (JObj job) ∧ txt "if" ∉ dict_keys job.

Lemma unconditional_dec jobs n :
  match dict_get n jobs with Some (JObj a) => negb (dict_mem (txt "if") a) | _ => false end = true ↔ unconditional jobs n.
Proof.
  unfold unconditional. destruct (dict_get n jobs) as [[| | | | | |a]|]; split; try done; try naive_solver.
  - intros Hm. exists a. split; [done|]. rewrite <- dict_mem_iff. by apply negb_true_iff, not_true_iff_false in Hm.
  - intros (a' & [= <-] & Hn). apply negb_true_iff, not_true_iff_false. by rewrite dict_mem_iff.
Qed.

Lemma ancestor_snoc jobs n m a : ancestor jobs n m → JStr a ∈ needs_of jobs m → ancestor jobs n a.
Proof. induction 1 as [n m Hm|n k m Hk Hm IH]; intros Ha; [by eapply needs_through, needs_directly|eapply needs_through; eauto]. Qed.

(** What the inner loop leaves: the names of the list are seen, nothing else is new,
    and what is new is unconditional and pending. *)
Lemma visit_needs_inr jobs names seen pending seen' pending' :
  visit_needs jobs names seen pending = inr (seen', pending') →
  ∃ new, seen' = new ++ seen ∧ pending' = new ++ pending
    ∧ Forall (λ n, (n ∉ seen) ∧ JStr n ∈ names ∧ unconditional jobs n) new ∧ NoDup new
    ∧ ∀ n, JStr n ∈ names → n ∈ seen'.
Proof.
  revert seen pending. induction names as [|v names IH]; intros seen pending; cbn [visit_needs].
  - intros [= <- <-]. exists []. split_and!; [done..|constructor|constructor|]. by intros n ?%elem_of_nil.
  - assert (∀ (Hv : ∀ n, v = JStr n → n ∈ seen) , visit_needs jobs names seen pending = inr (seen', pending') →
              ∃ new, seen' = new ++ seen ∧ pending' = new ++ pending
                ∧ Forall (λ n, (n ∉ seen) ∧ JStr n ∈ v :: names ∧ unconditional jobs n) new ∧ NoDup new
                ∧ ∀ n, JStr n ∈ v :: names → n ∈ seen') as Hskip.
    { intros Hv R. apply IH in R as (new & -> & -> & Hf & Hnd & Hin). exists new. split_and!; [done..| |done|].
      - eapply Forall_impl; [exact Hf|]. intros n (? & ? & ?). split_and!; [done|by right|done].
      - intros n [<-|Hn]%elem_of_cons; [apply elem_of_app; right; by apply Hv|by apply Hin]. }
    destruct v as [| | | |n| |]; try (by apply Hskip). case_bool_decide as Hs; [apply Hskip; by intros ? [= <-]|].
    destruct (dict_get n jobs) as [[| | | | | |a]|] eqn:Ed; try done. destruct (dict_mem (txt "if") a) eqn:Em; [done|].
    intros R. apply IH in R as (new & -> & -> & Hf & Hnd & Hin). exists (new ++ [n]).
    assert (unconditional jobs n) as Hu by (apply unconditional_dec; by rewrite Ed, Em).
    rewrite <- !app_assoc. split_and!; [done..| | |].
    + apply Forall_app. split; [|apply Forall_singleton; split_and!; [done|left|done]].
      eapply Forall_impl; [exact Hf|]. intros m (Hm & ? & ?). split_and!; [set_solver|by right|done].
    + apply NoDup_app. split_and!; [done| |apply NoDup_singleton]. intros m Hm ->%list_elem_of_singleton.
      rewrite Forall_forall in Hf. destruct (Hf n Hm) as [Hn _]. apply Hn. left.
    + intros m [[= <-]|Hm]%elem_of_cons; [set_solver|by apply Hin].
Qed.

Lemma visit_needs_inl jobs names seen pending n :
  visit_needs jobs names seen pending = inl n → JStr n ∈ names ∧ ¬ unconditional jobs n.
Proof.
  revert seen pending. induction names as [|v names IH]; intros seen pending; cbn [visit_needs]; [done|].
  destruct v as [| | | |m| |]; try (intros [? ?]%IH; split; [by right|done]).
  case_bool_decide; [intros [? ?]%IH; split; [by right|done]|]. rewrite <- unconditional_dec.
  destruct (dict_get m jobs) as [[| | | | | |a]|] eqn:Ed; try (intros [= <-]; split; [left|by rewrite Ed]).
  destruct (dict_mem (txt "if") a) eqn:Em; [intros [= <-]; split; [left|by rewrite Ed, Em]|].
  rewrite unconditional_dec. intros [? ?]%IH. split; [by right|done].
Qed.

(** ** The walk ends *)

(** The jobs that have not been seen *)
Definition unseen jobs seen : nat := length (filter (λ k, k ∉ seen) (dict_keys jobs)).

Lemma unseen_cons jobs seen n : n ∈ dict_keys jobs → n ∉ seen → (unseen jobs (n :: seen) < unseen jobs seen)%nat.
Proof.
  unfold unseen. intros Hn Hs. induction (dict_keys jobs) as [|k l IH]; [by apply elem_of_nil in Hn|].
  assert (∀ l' : list (list N), (length (filter (λ k, k ∉ n :: seen) l') ≤ length (filter (λ k, k ∉ seen) l'))%nat) as Hle.
  { clear. induction l' as [|x l' IH]; [done|]. rewrite !filter_cons. repeat case_decide; simpl; try lia. set_solver. }
  rewrite !filter_cons. destruct (decide (k = n)) as [->|Hne].
  - rewrite decide_False by set_solver. rewrite decide_True by done. simpl. specialize (Hle l). lia.
  - assert (n ∈ l) as Hl by set_solver. specialize (IH Hl). repeat case_decide; simpl; try lia; set_solver.
Qed.

Lemma unseen_app jobs seen new :
  Forall (λ n, (n ∉ seen) ∧ n ∈ dict_keys jobs) new → NoDup new → (unseen jobs (new ++ seen) + length new ≤ unseen jobs seen)%nat.
Proof.
  induction new as [|n new IH]; intros Hf Hnd; [simpl; lia|]. apply Forall_cons in Hf as [[Hs Hk] Hf]. apply NoDup_cons in Hnd as [Hn Hnd].
  specialize (IH Hf Hnd). assert (unseen jobs (n :: new ++ seen) < unseen jobs (new ++ seen))%nat.
  { apply unseen_cons; [done|]. rewrite elem_of_app. tauto. }
  simpl. lia.
Qed.

(** What holds before every round: what was seen is unconditional and an ancestor, and
    the needs of every job that is done are seen. *)
Definition walk_ok jobs start seen pending : Prop :=
  (∀ n, n ∈ seen → unconditional jobs n ∧ ancestor jobs start n)
  ∧ (∀ n, n ∈ pending → n = start ∨ n ∈ seen)
  ∧ (∀ n, n = start ∨ n ∈ seen → n ∉ pending → ∀ a, JStr a ∈ needs_of jobs n → a ∈ seen).

Definition verdict_right jobs start (found : option text) : Prop :=
  match found with
  | Some n => ancestor jobs start n ∧ ¬ unconditional jobs n
  | None => ∀ n, ancestor jobs start n → unconditional jobs n
  end.

Lemma closed_ancestors jobs start seen :
  (∀ n, n = start ∨ n ∈ seen → ∀ a, JStr a ∈ needs_of jobs n → a ∈ seen) → ∀ n, ancestor jobs start n → n ∈ seen.
Proof.
  intros Hc n Ha. assert (∀ m, ancestor jobs m n → m = start ∨ m ∈ seen → n ∈ seen) as Hall; [|by apply (Hall start); auto].
  clear Ha. induction 1 as [m n Hn|m k n Hk Hn IH]; intros Hm; [by eapply Hc|]. apply IH. right. by eapply Hc.
Qed.

Lemma walk_needs_exact fuel jobs start seen pending :
  walk_ok jobs start seen pending → (unseen jobs seen + length pending < fuel)%nat →
  ∃ found, walk_needs fuel jobs seen pending = Some found ∧ verdict_right jobs start found.
Proof.
  revert seen pending. induction fuel as [|fuel IH]; intros seen pending (W1 & W2 & W3) Hf; [lia|]. cbn [walk_needs].
  destruct pending as [|current pending].
  - exists None. split; [done|]. intros n Ha. apply W1. eapply closed_ancestors; [|done]. intros m Hm. apply W3; [done|by apply not_elem_of_nil].
  - assert (current = start ∨ ancestor jobs start current) as Hcur.
    { destruct (W2 current) as [->|Hs]; [left|auto|]. right. by apply W1. }
    assert (∀ a, JStr a ∈ needs_of jobs current → ancestor jobs start a) as Hanc.
    { intros a Ha. destruct Hcur as [->|Hcur]; [by apply needs_directly|by eapply ancestor_snoc]. }
    destruct (visit_needs jobs (needs_of jobs current) seen pending) as [n|[seen' pending']] eqn:Ev.
    + exists (Some n). split; [done|]. apply visit_needs_inl in Ev as [Hn Hu]. split; [by apply Hanc|done].
    + apply visit_needs_inr in Ev as (new & -> & -> & Hnew & Hnd & Hall). rewrite Forall_forall in Hnew. apply IH.
      * split_and!.
        -- intros n [Hn|Hn]%elem_of_app; [|by apply W1]. destruct (Hnew n Hn) as (_ & Hin & Hu). split; [done|by apply Hanc].
        -- intros n [Hn|Hn]%elem_of_app; [right; apply elem_of_app; by left|].
           destruct (W2 n) as [->|?]; [by right|by left|right; apply elem_of_app; by right].
        -- intros n Hn Hp a Ha. destruct (decide (n = current)) as [->|Hne]; [by apply Hall|].
           rewrite elem_of_app in Hp. apply elem_of_app. right. apply (W3 n); [|rewrite elem_of_cons; tauto|done].
           destruct Hn as [->|[Hn|Hn]%elem_of_app]; [by left|tauto|by right].
      * rewrite length_app. cbn [length] in Hf. assert (unseen jobs (new ++ seen) + length new ≤ unseen jobs seen)%nat; [|lia].
        apply unseen_app; [|done]. apply Forall_forall. intros n Hn. destruct (Hnew n Hn) as (Hs & _ & job & Hj & _). split; [done|].
        apply dict_get_is_Some. by exists (JObj job).
Qed.

Lemma needs_search jobs name :
  ∃ found, conditional_needs_ancestor jobs name = Some found ∧ verdict_right jobs name found.
Proof.
  unfold conditional_needs_ancestor. apply walk_needs_exact.
  - split_and!; [by intros ? ?%elem_of_nil| |].
    + intros n ->%list_elem_of_singleton. by left.
    + intros n [->|?%elem_of_nil] Hn; [|done]. exfalso. apply Hn. left.
  - unfold unseen. pose proof (length_filter (λ k, k ∉ ([] : list (list N))) (dict_keys jobs)) as Hl.
    assert (length (dict_keys jobs) = length jobs) as Hk by apply length_fmap.
    rewrite Hk in Hl. cbn [length]. lia.
Qed.

(** C19.  The search through the jobs a job needs ends for every workflow, cyclic ones
    included, and its answer is exact: a name is given for some ancestor that is
    missing or conditional, and none only if every ancestor exists without a condition. *)
Theorem needs_search_exact jobs name :
  ∃ found, conditional_needs_ancestor jobs name = Some found
    ∧ match found with
      | Some n => ancestor jobs name n ∧ ¬ unconditional jobs n
      | None => ∀ n, ancestor jobs name n → unconditional jobs n
      end.
Proof. apply needs_search. Qed.

(** ** Commands *)

(** The verifier in the position where the program stands, past assignments, wrappers
    with their flags and at most one runner, with the flag and the manifest's path
    side by side among its arguments *)
Definition verifier_command (expected : text) (argv : list (list N)) : Prop :=
  ∃ skipped runner program args args',
    argv = skipped ++ runner ++ program :: args ++ txt VERIFY_MANIFEST_FLAG :: expected :: args'
    ∧ Forall (λ t, stepped_over t = true) skipped ∧ (runner = [] ∨ runner ∈ RUNNER_PREFIXES)
    ∧ removeprefix (txt "./") program = txt MANIFEST_VERIFIER.

Lemma program_index_some argv i :
  program_index argv = Some i → Forall (λ t, stepped_over t = true) (take i argv) ∧ (i < length argv)%nat.
Proof.
  revert i. induction argv as [|t argv IH]; intros i; cbn [program_index]; [done|]. destruct (stepped_over t) eqn:E.
  - destruct (program_index argv) as [j|]; [|done]. intros [= <-]. destruct (IH j eq_refl) as [IH1 IH2]. simpl. split; [by constructor|lia].
  - intros [= <-]. simpl. split; [constructor|lia].
Qed.

Lemma program_position argv i :
  program_position_index argv = Some i →
  ∃ skipped runner, take i argv = skipped ++ runner ∧ Forall (λ t, stepped_over t = true) skipped
    ∧ (runner = [] ∨ runner ∈ RUNNER_PREFIXES).
Proof.
  unfold program_position_index. destruct (program_index argv) as [j|] eqn:Ej; [|done]. apply program_index_some in Ej as [Hs Hj].
  intros Hi. apply (inj Some) in Hi as <-. destruct (head (omap (runner_end argv j) RUNNER_PREFIXES)) as [e|] eqn:Eh; cbn [default].
  - apply head_Some_elem_of, list_elem_of_omap in Eh as (prefix & Hp & Er). unfold runner_end in Er.
    destruct (bool_decide _) eqn:Et; [|done]. destruct (_ <? _)%nat; [|done]. injection Er as <-. apply bool_decide_eq_true in Et.
    exists (take j argv), prefix. split_and!; [|done|by right]. trans (take j argv ++ take (length prefix) (drop j argv)); [|by rewrite Et]. symmetry. apply take_take_drop.
  - exists (take j argv), []. rewrite app_nil_r. split_and!; [done..|by left].
Qed.

Lemma flag_followed_split expected rest :
  flag_followed expected rest = true → ∃ a b, rest = a ++ txt VERIFY_MANIFEST_FLAG :: expected :: b.
Proof.
  induction rest as [|t [|u rest] IH]; cbn [flag_followed]; [done..|].
  intros [[->%bool_decide_eq_true ->%bool_decide_eq_true]%andb_true_iff|Hr]%orb_true_iff; [by exists [], rest|].
  apply IH in Hr as (a & b & E). exists (t :: a), b. by rewrite E.
Qed.

Lemma runs_verifier_command expected argv : runs_verifier expected argv = true → verifier_command expected argv.
Proof.
  unfold runs_verifier. destruct (program_position_index argv) as [i|] eqn:Ei; [|done].
  destruct (argv !! i) as [program|] eqn:Ep; [|done]. intros [Hv%bool_decide_eq_true Hf]%andb_true_iff.
  apply program_position in Ei as (skipped & runner & Et & Hs & Hr). apply flag_followed_split in Hf as (a & b & Ed).
  exists skipped, runner, program, a, b. split_and!; [|done..]. rewrite <- (take_drop i argv) at 1. rewrite Et, <- app_assoc.
  do 2 f_equal. rewrite <- Ed. by apply drop_S.
Qed.

(** ** The workflow *)

Definition never_switched_off (step : dict text json) : Prop :=
  (txt "if" ∉ dict_keys step) ∧ is_truthy (get step "continue-on-error") = false.

(** A job whose drift check runs whenever the workflow runs, and counts *)
Definition drift_checked jobs : Prop :=
  ∃ job steps step command argv,
    dict_get (txt MANIFEST_DRIFT_JOB) jobs = Some (JObj job) ∧ never_switched_off job
    ∧ (∀ n, ancestor jobs (txt MANIFEST_DRIFT_JOB) n → unconditional jobs n)
    ∧ get job "steps" = JArr steps ∧ JObj step ∈ steps ∧ never_switched_off step
    ∧ get step "run" = JStr command ∧ argv ∈ commands command ∧ verifier_command (txt FROZEN_PROMOTION_MANIFEST) argv.

Lemma not_switchable (d : dict text json) :
  dict_mem (txt "if") d = false → is_truthy (get d "continue-on-error") = false → never_switched_off d.
Proof. intros Hi Hc. split; [|done]. rewrite <- dict_mem_iff. congruence. Qed.

Lemma matching_steps_elem steps step :
  step ∈ matching_steps steps →
  ∃ l command, steps = JArr l ∧ JObj step ∈ l ∧ get step "run" = JStr command
    ∧ verifies_manifest command (txt FROZEN_PROMOTION_MANIFEST) = true.
Proof.
  unfold matching_steps. destruct steps as [| | | | |l|]; try (by intros ?%elem_of_nil).
  intros (v & Hv & E)%list_elem_of_omap. destruct v as [| | | | | |step']; try done.
  destruct (get step' "run") as [| | | |command| |] eqn:Er; try done. destruct (verifies_manifest _ _) eqn:Ev; [|done].
  injection E as <-. by exists l, command.
Qed.

Lemma check_job_ret jobs u : check_job jobs = Ret u → drift_checked jobs.
Proof.
  unfold check_job. destruct (dict_get _ jobs) as [[| | | | | |job]|] eqn:Ej; try done.
  destruct (dict_mem (txt "if") job) eqn:Ei; [done|]. destruct (is_truthy _) eqn:Ec; [done|].
  destruct (needs_search jobs (txt MANIFEST_DRIFT_JOB)) as (found & -> & Hf). destruct found as [n|]; [done|].
  destruct (matching_steps (get job "steps")) as [|m ms] eqn:Em; [done|]. destruct (existsb _ _) eqn:Ex; [|done]. intros _.
  apply existsb_exists in Ex as (step & Hin%list_elem_of_In & Hs%negb_true_iff). rewrite <- Em in Hin.
  apply matching_steps_elem in Hin as (l & command & El & Hl & Er & Hv). apply orb_false_iff in Hs as [Hs1 Hs2].
  apply existsb_exists in Hv as (argv & Ha%list_elem_of_In & Hrun%runs_verifier_command).
  exists job, l, step, command, argv. split_and!; try done; by apply not_switchable.
Qed.


End release_facts.

(** ** A workflow to evaluate the check on *)

Definition drift_steps : json :=
  JArr [JObj [(txt "run", JStr (txt "echo scripts/validate_v013_evidence.py --verify-manifest docs/benchmarks/v0.1.3-promotion-manifest.json"))];
        JObj [(txt "run", JStr (txt "LC_ALL=C uv run python scripts/validate_v013_evidence.py --verify-manifest docs/benchmarks/v0.1.3-promotion-manifest.json"))]].

Definition sample_workflow (condition : dict text json) : json :=
  JObj [(txt "jobs", JObj [(txt "test", JObj (condition ++ [(txt "steps", JArr [])]));
                           (txt MANIFEST_DRIFT_JOB, JObj [(txt "needs", JStr (txt "test")); (txt "steps", drift_steps)])])].

#[local] Instance sample_tree : EvidenceOS :=
  {| os_open := λ p, match p with [n] => Opened true [Chunk n] | _ => OpenFails ENOENT end; os_open_write := λ _, OpenFails ELOOP;
     path_exists := λ _, true; is_symlink := λ _, false; resolve := Ret; REPO_ROOT := []; sha256 := id; json_decode := Ret;
     utf8_decode := Ret; json_loads := λ _, Raise JSONDecodeError |}.

#[local] Instance sample_text : UnicodeText :=
  {| text_digits := {| other_digit := λ _, false; other_decimal := λ _, None |}; other_word := λ _, false; other_fold := λ c, [c] |}.

#[local] Instance sample_values : PyRuntime :=
  {| float_repr := λ _, []; parse_float := λ _, None; date_str := λ _, []; date_eq := N.eqb; container_repr := λ _, [];
     container_eq := λ _ _, false; other_id_start := λ _, false; other_id_continue := λ _, false; other_case := λ _, Uncased |}.

#[local] Instance sample_tools : ReleaseTools :=
  {| toml_loads := λ _, Raise TOMLDecodeError;
     yaml_load := λ t, Ret (sample_workflow (if bool_decide (t = txt "ci") then [] else [(txt "if", JBool false)]));
     shlex_tokens := λ t, Ret (split_on 32 t); python_files := λ _, [] |}.

Lemma sample_workflow_passes : check_ci_uses_frozen_promotion_manifest [txt "ci"] = Ret tt.
Proof. vm_compute. reflexivity. Qed.

(** The same workflow with a condition on the job it needs is refused. *)
Lemma conditional_ancestor_refused : check_ci_uses_frozen_promotion_manifest [txt "other"] = Raise ReleaseMetadataError.
Proof. vm_compute. reflexivity. Qed.


(** A verifier behind [true ||], which the shell never runs, counts as one that runs;
    so does one whose failure [|| true] discards. *)
Lemma short_circuit_counts :
  verifies_manifest (txt "true || scripts/validate_v013_evidence.py --verify-manifest m.json") (txt "m.json") = true
  ∧ verifies_manifest (txt "scripts/validate_v013_evidence.py --verify-manifest m.json || true") (txt "m.json") = true.
Proof. vm_compute. done. Qed.
