(* ===== verification/App.v ===== *)
(** The HTTP routes of the browser ([src/server/app.py]): the checks of a request's
    origin and of the handshake in its URL, [GET /api/session], [POST /api/rtc] and
    [PATCH /api/rtc], over the session host and its handshake gate.

    What Starlette answers about a request is part of the request: the bytes of the
    query string, [query_params.get], [query_params.getlist] and three headers.
    [json.loads] and [urlparse] are parameters.  A Python string is a sequence of code
    points; where the host's own identifiers are compared with it, it is the string
    of its UTF-8 bytes, and a text with a lone surrogate is what pydantic refuses.
    The Small WebRTC handler is the framework's: whether it calls the connection
    callback and what it answers are arguments, and it logs what the callback raises. *)

From Stdlib Require Ascii String.
From Stdlib Require Import Sorted.
From stdpp Require Import relations.
From S2P Require Import Prelude PyDict PyText PyValue Json Contracts SessionState ConnectionArbiter HandshakeGate WorkTaskLedger SpeechLifecycle SpeechScheduler SpeechSystem TurnAckLedger WorkItemCoordinator SessionHost HostConnection ConfigLayers Config ConfigLoad ConfigFacts.

Record ParsedUrl := mkParsedUrl {
  pu_scheme : text;
  pu_hostname : option text;
  pu_port : result (option N)         (* the property raises for a bad port *)
}.

Class WebServer := {
  parse_json : text → result json;    (* [json.loads]; its decode error is a [ValueError] *)
  parse_url : text → result ParsedUrl (* [urlparse] *)
}.

Inductive http_method := GET | POST | PATCH.

#[export] Instance http_method_eq : EqDecision http_method.
Proof. solve_decision. Defined.

Record Request := mkRequest {
  rq_method : http_method;
  rq_query_string : list N;
  rq_get : string → option text;
  rq_getlist : string → list text;
  rq_origin : option text;
  rq_sec_fetch_site : option text;
  rq_host : option text
}.

Definition HTTPException (status : string) : exn := OtherException ("HTTPException " +:+ status).

Definition bad_handshake {A} : result A := Raise (HTTPException "400").

(** ** Percent encoding *)

Definition hex_digit (c : N) : bool :=
  ascii_digit c || ((97 <=? c) && (c <=? 102))%N || ((65 <=? c) && (c <=? 70))%N.

(** [_validate_raw_percent_encoding]; the loop's index is where the rest starts *)
Fixpoint percent_encoded (bytes : list N) : bool :=
  match bytes with
  | [] => true
  | c :: rest =>
      if (c =? 37)%N then
        match rest with
        | a :: b :: rest' => hex_digit a && hex_digit b && percent_encoded rest'
        | _ => false
        end
      else percent_encoded rest
  end.

Definition validate_raw_percent_encoding (bytes : list N) : result unit :=
  if percent_encoded bytes then Ret tt else bad_handshake.

(** ** Python strings as the host's strings *)

Definition surrogate (c : N) : bool := ((55296 <=? c) && (c <=? 57343))%N.

Definition utf8 (c : N) : list N :=
  if (c <? 128)%N then [c]
  else if (c <? 2048)%N then [192 + c / 64; 128 + c mod 64]%N
  else if (c <? 65536)%N then [224 + c / 4096; 128 + (c / 64) mod 64; 128 + c mod 64]%N
  else [240 + c / 262144; 128 + (c / 4096) mod 64; 128 + (c / 64) mod 64; 128 + c mod 64]%N.

Definition as_str (t : text) : result string :=
  if existsb surrogate t then Raise (ValueError "string_unicode")
  else Ret (String.string_of_list_ascii (Ascii.ascii_of_N <$> (t ≫= utf8))).

Section web.
Context `{PyRuntime} `{WebServer}.
Implicit Types (q : Request) (t : text) (g : HandshakeGate).

(** ** The capabilities of the URL *)

Definition MAX_CAPABILITY_ENTRIES : nat := 16.
Definition MAX_CAPABILITY_NAME_LENGTH : nat := 64.
Definition MAX_CAPABILITY_FIELD_LENGTH : nat := 2 + MAX_CAPABILITY_ENTRIES * (MAX_CAPABILITY_NAME_LENGTH + 3).

(** [except ValueError] *)
Definition value_error (e : exn) : bool :=
  match e with ValueError _ | ConfigError _ | RoutingValidationError _ => true | _ => false end.

(** [except (TypeError, ValueError, RecursionError)] *)
Definition unreadable (e : exn) : bool :=
  match e with
  | TypeError _ => true
  | OtherException cls => bool_decide (cls = "RecursionError")
  | _ => value_error e
  end.

Fixpoint capability_names (items : list json) : result (list text) :=
  match items with
  | [] => Ret []
  | JStr t :: items' =>
      if bool_decide (t = []) || (MAX_CAPABILITY_NAME_LENGTH <? length t)%nat then bad_handshake
      else names ←? capability_names items' ;; Ret (t :: names)
  | _ => bad_handshake
  end.

Definition decode_capabilities q : result (list text * bool) :=
  match rq_getlist q "capabilities" with
  | [] => Ret ([], false)
  | [field] =>
      if (MAX_CAPABILITY_FIELD_LENGTH <? length field)%nat then bad_handshake
      else
        match parse_json field with
        | Raise e => if unreadable e then bad_handshake else Raise e
        | Ret (JArr items) =>
            if (MAX_CAPABILITY_ENTRIES <? length items)%nat then bad_handshake
            else names ←? capability_names items ;; Ret (names, true)
        | Ret _ => bad_handshake
        end
  | _ => bad_handshake
  end.

(** ** The handshake of the URL *)

Definition query_item q (key : string) : result text :=
  match rq_get q key with Some t => Ret t | None => Raise KeyError end.

(** [Field(ge=0)] *)
Definition non_negative (z : Z) : result N :=
  if (z <? 0)%Z then Raise (ValueError "greater_than_equal") else Ret (Z.to_N z).

Fixpoint as_strs (l : list text) : result (list string) :=
  match l with
  | [] => Ret []
  | t :: l' => s ←? as_str t ;; rest ←? as_strs l' ;; Ret (s :: rest)
  end.

Definition query_handshake q (capabilities : list text) (present : bool) : result SnapshotHandshake :=
  session ←? query_item q "session_id" ;;
  token ←? query_item q "resume_token" ;;
  epoch ←? query_item q "proposed_epoch" ;;
  epoch ←? int_of_text epoch ;;
  sequence ←? int_of_text (default (txt "0") (rq_get q "snapshot_sequence")) ;;
  version ←? match rq_get q "contract_version" with Some t => as_str t | None => Ret CONTRACT_VERSION end ;;
  session ←? as_str session ;;
  token ←? as_str token ;;
  epoch ←? non_negative epoch ;;
  sequence ←? non_negative sequence ;;
  names ←? as_strs capabilities ;;
  new_SnapshotHandshake version session token epoch sequence names present.

(** [except (KeyError, TypeError, ValueError)] *)
Definition malformed (e : exn) : bool :=
  match e with KeyError | TypeError _ => true | _ => value_error e end.

Definition url_handshake q : result SnapshotHandshake :=
  _ ←? validate_raw_percent_encoding (rq_query_string q) ;;
  decoded ←? decode_capabilities q ;;
  match query_handshake q decoded.1 decoded.2 with
  | Ret value => Ret value
  | Raise e => if malformed e then bad_handshake else Raise e
  end.

(** [_handshake_from_query]: the token of the URL is checked, and redeemed by a
    POST; the handshake that is passed on carries the session's own token *)
Definition handshake_from_query (s : SessionState) q (now now' : Q) g : HandshakeGate * result (SnapshotHandshake * string) :=
  match url_handshake q with
  | Raise e => (g, Raise e)
  | Ret value =>
      if negb (bool_decide (sh_session_id value = session_id s)) then (g, Raise (HTTPException "401"))
      else
        let (g, valid) := validate_handshake_token (sh_resume_token value) (sh_proposed_epoch value)
                            (bool_decide (rq_method q = POST)) now now' g in
        if valid then
          (g, Ret (mkSnapshotHandshake (sh_contract_version value) (sh_session_id value) (resume_token s)
                     (sh_proposed_epoch value) (sh_snapshot_sequence value) (sh_capabilities value)
                     (sh_capabilities_present value), sh_resume_token value))
        else (g, Raise (HTTPException "401"))
  end.

(** ** The origin *)

Definition LOOPBACK_HOSTS : list (option text) := [Some (txt "127.0.0.1"); Some (txt "localhost"); Some (txt "::1")].

(** [url.port or (443 if url.scheme == "https" else 80)] *)
Definition port_of (u : ParsedUrl) : result N :=
  p ←? pu_port u ;;
  Ret (match p with
       | Some (Npos n) => Npos n
       | _ => if bool_decide (pu_scheme u = txt "https") then 443%N else 80%N
       end).

Definition allowed_origin (configured : ParsedUrl) (value : text) : result bool :=
  match (candidate ←? parse_url value ;; port ←? port_of candidate ;; mine ←? port_of configured ;;
         Ret (candidate, port, mine)) with
  | Raise e => if value_error e then Ret false else Raise e
  | Ret (candidate, port, mine) =>
      let allowed_hosts := pu_hostname configured
        :: (if bool_decide (pu_hostname configured ∈ LOOPBACK_HOSTS) then LOOPBACK_HOSTS else []) in
      Ret (bool_decide (pu_scheme candidate = pu_scheme configured)
           && bool_decide (pu_hostname candidate ∈ allowed_hosts) && bool_decide (port = mine))
  end.

Definition forbidden {A} : result A := Raise (HTTPException "403").

Definition require_local_origin (known_client_url : text) q : result unit :=
  configured ←? parse_url known_client_url ;;
  match rq_origin q with
  | Some (c :: origin) =>
      ok ←? allowed_origin configured (c :: origin) ;; if ok then Ret tt else forbidden
  | _ =>
      if bool_decide (rq_sec_fetch_site q = Some (txt "same-origin")) then
        ok ←? allowed_origin configured (pu_scheme configured ++ txt "://" ++ default [] (rq_host q)) ;;
        if ok then Ret tt else forbidden
      else forbidden
  end.

End web.

(** ** The routes

    [app_capabilities] holds the capabilities of every connection pipeline's observer,
    by the index of the pipeline.  [app_log] is not part of the program: it records
    which tokens were handed out and redeemed and which connections were promoted. *)

Inductive event :=
| Issued (token : string) (epoch : N)
| Redeemed (token : string) (epoch : N)
| Promoted (epoch : N) (capabilities : list string).

Record App (L : Type) := mkApp {
  app_host : Host L;
  app_gate : HandshakeGate;
  app_capabilities : list (list string);
  app_log : list event
}.
Arguments mkApp {L}. Arguments app_host {L}. Arguments app_gate {L}. Arguments app_capabilities {L}. Arguments app_log {L}.

#[export] Instance eta_App L : Eta (App L) := λ r, mkApp (app_host r) (app_gate r) (app_capabilities r) (app_log r).

Section routes.
Context {L : Type} `{!SpeechSlot L} {retention : RetentionConfig} `{CoordinatorConfig} `{PyRuntime} `{WebServer}.
Context (known_client_url : text).
Implicit Types (a : App L) (q : Request) (now : Q).

Definition logged (e : event) a : App L := a <| app_log ::= (λ l, l ++ [e]) |>.

(** [session_handshake]: the epoch it proposes with the token minted for it *)
Definition session_handshake (token : string) now (now' : Q) a : App L * SnapshotHandshake :=
  let proposed_epoch := (arb_epoch (h_arbiter (app_host a)) + 1)%N in
  (logged (Issued token proposed_epoch) (a <| app_gate ::= issue_token proposed_epoch token now now' |>),
   mkSnapshotHandshake CONTRACT_VERSION (session_id (h_state (app_host a))) token proposed_epoch
     (sequence (h_state (app_host a))) [] false).

Definition session q (token : string) now (now' : Q) a : App L * result SnapshotHandshake :=
  match require_local_origin known_client_url q with
  | Raise e => (a, Raise e)
  | Ret _ => let (a, reply) := session_handshake token now now' a in (a, Ret reply)
  end.

(** The first statements of the two signaling routes *)
Definition admit_request q now (now' : Q) a : App L * result SnapshotHandshake :=
  match require_local_origin known_client_url q with
  | Raise e => (a, Raise e)
  | Ret _ =>
      let (g, out) := handshake_from_query (h_state (app_host a)) q now now' (app_gate a) in
      let a := a <| app_gate := g |> in
      match out with
      | Raise e => (a, Raise e)
      | Ret (h, token) =>
          (if bool_decide (rq_method q = POST) then logged (Redeemed token (sh_proposed_epoch h)) a else a, Ret h)
      end
  end.

(** The promotion that the connection callback starts with *)
Definition promote_connection (h : SnapshotHandshake) (tts : bool) (fresh : L) now a : App L * result nat :=
  let (host, out) := connect h tts fresh now (app_host a) in
  let a := a <| app_host := host |> in
  match out with
  | Ret p => (logged (Promoted (sh_proposed_epoch h) (sh_capabilities h)) (a <| app_capabilities ::= (λ l, l ++ [sh_capabilities h]) |>), Ret p)
  | Raise e => (a, Raise e)
  end.

(** [POST /api/rtc] up to the promotion; [callback] is given when the handler calls
    back, [answer] what it returns in the end *)
Definition offer q now (now' : Q) (callback : option (bool * L * Q)) (answer : result (option text)) a : App L * result text :=
  match admit_request q now now' a with
  | (a, Raise e) => (a, Raise e)
  | (a, Ret h) =>
      let a := match callback with
               | Some (tts, fresh, later) => (promote_connection h tts fresh later a).1
               | None => a
               end in
      (a, match answer with
          | Ret (Some t) => Ret t
          | Ret None => Raise (HTTPException "502")
          | Raise e => Raise e
          end)
  end.

(** The bound connection as [validate_patch_handshake] reads it *)
Definition bound_connection a : option Connection :=
  p ← connection (h_acks (app_host a));
  pl ← pipelines (h_acks (app_host a)) !! p;
  capabilities ← app_capabilities a !! p;
  Some (mkConnection (pl_epoch pl) (session_id (h_state (app_host a))) (resume_token (h_state (app_host a))) capabilities).

(** [PATCH /api/rtc]; [handled] is how the handler ends *)
Definition ice_candidate q now (now' : Q) (handled : result unit) a : App L * result unit :=
  match admit_request q now now' a with
  | (a, Raise e) => (a, Raise e)
  | (a, Ret h) =>
      if negb (host_accepts (Some (sh_proposed_epoch h)) (app_host a)) then (a, Raise (HTTPException "409"))
      else
        match validate_patch_handshake (bound_connection a) h with
        | Raise e => (a, if value_error e then Raise (HTTPException "400") else Raise e)
        | Ret _ => (a, handled)
        end
  end.

(** ** Runs: requests in any order, and the rest of the server in between *)

Inductive app_step : App L * bool → App L * bool → Prop :=
| ASession q token now now' a b : app_step (a, b) ((session q token now now' a).1, b)
| AOffer q now now' callback answer a :
    rq_method q = POST → app_step (a, true) ((offer q now now' callback answer a).1, true)
| APatch q now now' handled a b :
    rq_method q = PATCH → app_step (a, b) ((ice_candidate q now now' handled a).1, b)
| AHost h' b' a b :
    conn_step (app_host a, b) (h', b') → length (pipelines (h_acks h')) = length (pipelines (h_acks (app_host a))) →
    app_step (a, b) (a <| app_host := h' |>, b').

Definition new_app a : Prop :=
  new_host (app_host a) ∧ app_gate a = HandshakeGate_init ∧ app_capabilities a = [] ∧ app_log a = [].

End routes.

(** ** What the log says *)

Definition issued_as (tok : string) (e : event) : nat :=
  match e with Issued t _ => if decide (t = tok) then 1 else 0 | _ => 0 end.

Definition redeemed_as (tok : string) (e : event) : nat :=
  match e with Redeemed t _ => if decide (t = tok) then 1 else 0 | _ => 0 end.

Definition promotion (e : event) : option (N * list string) :=
  match e with Promoted n caps => Some (n, caps) | _ => None end.

Definition promotions (log : list event) : list (N * list string) := omap promotion log.

Lemma promotions_app l l' : promotions (l ++ l') = promotions l ++ promotions l'.
Proof. apply omap_app. Qed.

(** ** The token store *)

Lemma issue_get e tok now now' g t x :
  dict_wf g → dict_get t (issue_token e tok now now' g) = Some x →
  (t = tok ∧ x = (e, now' + 60, false)%Q) ∨ dict_get t g = Some x.
Proof.
  intros Hg E%evict_get. rewrite dict_get_set in E. case_decide as Ht; [left; by simplify_eq|].
  rewrite prune_get in E by done. right. destruct (dict_get t g) as [y|]; [|done]. by destruct (Qle_bool _ _).
Qed.

Lemma validate_get tok e r now now' g t x :
  dict_wf g → dict_get t (validate_handshake_token tok e r now now' g).1 = Some x →
  dict_get t g = Some x
  ∨ t = tok ∧ r = true ∧ (validate_handshake_token tok e r now now' g).2 = true
    ∧ ∃ y, x = (e, y, true) ∧ dict_get tok g = Some (e, y, false).
Proof.
  intros Hg. assert (∀ t x, dict_get t (prune_handshake_tokens now g) = Some x → dict_get t g = Some x) as Hp.
  { intros t' x'. rewrite prune_get by done. destruct (dict_get t' g) as [y|]; [|done]. by destruct (Qle_bool _ _). }
  unfold validate_handshake_token. destruct (dict_get tok (prune_handshake_tokens now g)) as [[[e' y] rd]|] eqn:Et; [|eauto].
  destruct (Qle_bool y now' || _) eqn:Eb; cbn [fst]. { rewrite dict_get_pop. destruct (decide (tok = t)); [done|eauto]. }
  apply orb_false_iff in Eb as [_ Ee]. apply negb_false_iff, bool_decide_eq_true in Ee as ->.
  destruct r; [destruct rd|]; cbn [fst snd]; [eauto| |eauto]. rewrite dict_get_set. destruct (decide (tok = t)) as [Ht|Ht]; [|eauto].
  intros [= <-]. right. split_and!; [done..|]. exists y. split; [done|]. by apply Hp.
Qed.

Section app_facts.
Context {L : Type} `{!SpeechSlot L} {retention : RetentionConfig} `{CoordinatorConfig} `{PyRuntime} `{WebServer}.
Context (known_client_url : text).
Implicit Types (a : App L) (q : Request) (now : Q).

(** ** What admits a request *)

(** The store and the log after the token check, and what the check said *)
Definition checked (tok : string) (e : N) (redeem : bool) now (now' : Q) (a a' : App L) (valid : bool) : Prop :=
  (app_gate a', valid) = validate_handshake_token tok e redeem now now' (app_gate a)
  ∧ app_log a' = app_log a ++ (if redeem && valid then [Redeemed tok e] else []).

Lemma admit_spec q now now' a a' out :
  admit_request known_client_url q now now' a = (a', out) →
  app_host a' = app_host a ∧ app_capabilities a' = app_capabilities a
  ∧ (app_gate a' = app_gate a ∧ app_log a' = app_log a ∧ returns out = false
     ∨ ∃ value, require_local_origin known_client_url q = Ret tt ∧ url_handshake q = Ret value
         ∧ sh_session_id value = session_id (h_state (app_host a))
         ∧ checked (sh_resume_token value) (sh_proposed_epoch value) (bool_decide (rq_method q = POST)) now now' a a' (returns out)
         ∧ ∀ h, out = Ret h → sh_proposed_epoch h = sh_proposed_epoch value ∧ sh_capabilities h = sh_capabilities value
             ∧ sh_capabilities_present h = sh_capabilities_present value).
Proof.
  unfold admit_request, handshake_from_query. destruct (require_local_origin _ q) as [[]|e] eqn:Eo.
  2: { intros [= <- <-]. split_and!; [done..|]. by left. }
  destruct (url_handshake q) as [value|e] eqn:Eu. 2: { intros [= <- <-]. split_and!; [done..|]. by left. }
  case_bool_decide as Es; cbn [negb]. 2: { intros [= <- <-]. split_and!; [done..|]. by left. }
  destruct (validate_handshake_token _ _ _ _ _ _) as [g valid] eqn:Ev.
  destruct valid; intros [= <- <-]; (split_and!; [(done || by case_bool_decide)..|]); right; exists value; (split_and!; try done).
  - unfold checked. split; [rewrite Ev; by case_bool_decide|]. rewrite andb_true_r. destruct (bool_decide _); [reflexivity|]. symmetry. apply app_nil_r.
  - intros h [= <-]. done.
  - unfold checked. split; [by rewrite Ev|]. by rewrite andb_false_r, app_nil_r.
Qed.

(** ** The invariant *)

Record app_inv (a : App L) (started : bool) : Prop := {
  ai_conn : conn_inv (app_host a) started;
  ai_wf : dict_wf (app_gate a);
  ai_gate : ∀ tok e x r, dict_get tok (app_gate a) = Some (e, x, r) →
    Issued tok e ∈ app_log a ∧ (r = true → Redeemed tok e ∈ app_log a);
  ai_issued : ∀ tok e, Redeemed tok e ∈ app_log a → Issued tok e ∈ app_log a;
  ai_budget : ∀ tok, (sum_list_with (redeemed_as tok) (app_log a) + HandshakeGate.live tok (app_gate a)
                      ≤ sum_list_with (issued_as tok) (app_log a))%nat;
  ai_epochs : (promotions (app_log a)).*1 = (lanes (app_host a)).*2;
  ai_capabilities : (promotions (app_log a)).*2 = app_capabilities a
}.

Lemma inv_checked tok e redeem now now' a a' b valid :
  checked tok e redeem now now' a a' valid → app_host a' = app_host a → app_capabilities a' = app_capabilities a →
  app_inv a b → app_inv a' b.
Proof.
  intros [Ev El] Eh Ec [Hc Hw Hg Hi Hb He Hp].
  assert (app_gate a' = (validate_handshake_token tok e redeem now now' (app_gate a)).1) as Eg by (by rewrite <- Ev).
  assert (valid = (validate_handshake_token tok e redeem now now' (app_gate a)).2) as Ebv by (by rewrite <- Ev).
  assert (∀ x, x ∈ app_log a → x ∈ app_log a') as Hin by (intros x; rewrite El; set_solver).
  split; rewrite ?Eh, ?Ec; try done.
  - rewrite Eg. by apply validate_wf.
  - intros t e' x r Ht. rewrite Eg in Ht. apply validate_get in Ht as [Ht|(-> & -> & Hv & y & [= -> -> ->] & Ht)]; [..|done].
    + destruct (Hg _ _ _ _ Ht). auto.
    + split; [apply Hin; by destruct (Hg _ _ _ _ Ht)|]. intros _. rewrite El, Ebv, Hv. set_solver.
  - intros t e' Hr. rewrite El in Hr. apply elem_of_app in Hr as [Hr|Hr]; [by apply Hin, Hi|]. destruct redeem, valid; cbn [andb] in Hr; try by apply elem_of_nil in Hr.
    apply list_elem_of_singleton in Hr as [= -> ->]. symmetry in Ebv. apply validate_answer in Ebv as (x & Hx & _); [|done].
    apply Hin. by destruct (Hg _ _ _ _ Hx).
  - intros t. pose proof (exec_call_budget t (Validate tok e redeem now now') (app_gate a) Hw) as Ht. specialize (Hb t).
    cbn [exec_call] in Ht. rewrite <- Ev in Ht. cbn [issues] in Ht. rewrite El, !sum_list_with_app.
    destruct redeem, valid; cbn [andb sum_list_with redemption issued_as redeemed_as] in *; lia.
  - rewrite El, promotions_app, fmap_app, He. destruct (redeem && valid); by rewrite app_nil_r.
  - rewrite El, promotions_app, fmap_app, Hp. destruct (redeem && valid); by rewrite app_nil_r.
Qed.

Lemma inv_admit q now now' a b : app_inv a b → app_inv (admit_request known_client_url q now now' a).1 b.
Proof.
  intros Hi. destruct (admit_request _ q now now' a) as [a' out] eqn:E. apply admit_spec in E as (Eh & Ec & [(Eg & El & _)|E]); cbn [fst].
  - destruct Hi as [Hc Hw Hg Hi Hb He Hp]. by split; rewrite ?Eh, ?Ec, ?Eg, ?El.
  - destruct E as (value & _ & _ & _ & Hck & _). by eapply inv_checked.
Qed.

Lemma inv_session q token now now' a b : app_inv a b → app_inv (session known_client_url q token now now' a).1 b.
Proof.
  intros Hi. unfold session. destruct (require_local_origin _ q); [|done]. destruct Hi as [Hc Hw Hg Hi Hb He Hp].
  unfold session_handshake, logged. set (e := (_ + 1)%N).
  split; cbn [app_host app_gate app_capabilities app_log setter fst].
  - done.
  - by apply issue_wf.
  - intros t e' x r Ht. apply issue_get in Ht as [[-> [= -> _ ->]]|Ht]; [split; [set_solver|done]| |done].
    destruct (Hg _ _ _ _ Ht). set_solver.
  - intros t e'. rewrite elem_of_app. intros [Hr|Hr%list_elem_of_singleton]; [|done]. apply Hi in Hr. set_solver.
  - intros t. specialize (Hb t). pose proof (exec_call_budget t (Issue e token now now') (app_gate a) Hw) as Ht.
    cbn [exec_call issues redemption] in Ht. rewrite !sum_list_with_app. cbn [sum_list_with redeemed_as issued_as]. lia.
  - by rewrite promotions_app, fmap_app, He, app_nil_r.
  - by rewrite promotions_app, fmap_app, Hp, app_nil_r.
Qed.

Lemma inv_promote h tts fresh now a : app_inv a true → app_inv (promote_connection h tts fresh now a).1 true.
Proof.
  intros [Hc Hw Hg Hi Hb He Hp]. unfold promote_connection. pose proof (inv_connect h tts fresh now _ Hc) as Hc'.
  pose proof (connect_epochs h tts fresh now (app_host a)) as Ee.
  destruct (connect h tts fresh now (app_host a)) as [host [p|err]]; cbn [fst] in *.
  2: { split; cbn [app_host app_gate app_capabilities app_log setter fst]; try done. by rewrite Ee. }
  destruct Ee as [_ Ee]. unfold logged. split; cbn [app_host app_gate app_capabilities app_log setter fst]; try done.
  - intros t e x r Ht. destruct (Hg _ _ _ _ Ht). set_solver.
  - intros t e. rewrite elem_of_app. intros [Hr|Hr%list_elem_of_singleton]; [|done]. apply Hi in Hr. set_solver.
  - intros t. specialize (Hb t). rewrite !sum_list_with_app. cbn [sum_list_with redeemed_as issued_as]. lia.
  - by rewrite promotions_app, fmap_app, He, Ee.
  - by rewrite promotions_app, fmap_app, Hp.
Qed.

Lemma inv_offer q now now' callback answer a :
  app_inv a true → app_inv (offer known_client_url q now now' callback answer a).1 true.
Proof.
  intros Hi. unfold offer. pose proof (inv_admit q now now' a true Hi) as Ha.
  destruct (admit_request _ q now now' a) as [a' [h|e]]; cbn [fst] in *; [|done].
  destruct callback as [[[tts fresh] later]|]; [by apply inv_promote|done].
Qed.

Lemma inv_patch q now now' handled a b :
  app_inv a b → app_inv (ice_candidate known_client_url q now now' handled a).1 b.
Proof.
  intros Hi. unfold ice_candidate. pose proof (inv_admit q now now' a b Hi) as Ha.
  destruct (admit_request _ q now now' a) as [a' [h|e]]; cbn [fst] in *; [|done].
  destruct (negb _); [done|]. by destruct (validate_patch_handshake _ _).
Qed.

Lemma inv_host h' b' a b :
  conn_step (app_host a, b) (h', b') → length (pipelines (h_acks h')) = length (pipelines (h_acks (app_host a))) →
  app_inv a b → app_inv (a <| app_host := h' |>) b'.
Proof.
  intros Hs Hl [Hc Hw Hg Hi Hb He Hp]. split; cbn [app_host app_gate app_capabilities app_log setter]; try done.
  - by apply (conn_step_inv _ _ Hs).
  - rewrite He. apply conn_step_epochs in Hs as [l El]. cbn [fst] in El. rewrite El.
    assert (length l = 0%nat) as ->%nil_length_inv; [|by rewrite app_nil_r].
    apply (f_equal length) in El. rewrite length_app, !length_fmap in El. unfold lanes in El. rewrite !length_fmap in El. lia.
Qed.

Lemma app_steps_inv x y : rtc (app_step known_client_url) x y → app_inv x.1 x.2 → app_inv y.1 y.2.
Proof.
  induction 1 as [|x y z Hs _ IH]; [done|]. intros Hi. apply IH. clear IH.
  destruct Hs; cbn [fst snd] in *;
    [by apply inv_session|by apply inv_offer|by apply inv_patch|by eapply inv_host].
Qed.

Lemma new_app_inv a : new_app a → app_inv a false.
Proof.
  intros (Hn & Eg & Ec & El). pose proof Hn as (Ep & _ & _). split; rewrite ?Eg, ?Ec, ?El; try done.
  - by apply new_host_inv.
  - apply dict_wf_nil.
  - by intros ? ? ?%elem_of_nil.
  - unfold lanes. by rewrite Ep.
Qed.

(** ** Theorem *)

(** What the bound connection carries is what its own offer declared. *)
Lemma bound_promoted a b e :
  app_inv a b → host_accepts (Some e) (app_host a) = true →
  ∃ c, bound_connection a = Some c ∧ Promoted e (cn_capabilities c) ∈ app_log a.
Proof.
  intros [Hc _ _ _ _ He Hp] Ha. destruct (conn_heard _ _ Hc) as (_ & _ & Hacc). apply Hacc in Ha as (_ & p & pl & Ep & Epl & _ & [= ->]).
  assert ((lanes (app_host a)).*2 !! p = Some (pl_epoch pl)) as Elp by (unfold lanes; by rewrite !list_lookup_fmap, Epl).
  rewrite <- He, list_lookup_fmap in Elp. apply fmap_Some in Elp as ([e caps] & Elp & ->).
  assert (app_capabilities a !! p = Some caps) as Ecap by (by rewrite <- Hp, list_lookup_fmap, Elp).
  unfold bound_connection. rewrite Ep. cbn [mbind option_bind]. rewrite Epl. cbn [mbind option_bind]. rewrite Ecap. cbn [mbind option_bind].
  eexists. split; [done|]. apply list_elem_of_lookup_2, list_elem_of_omap in Elp as (ev & Hev & Epr). destruct ev as [| |n cs]; try done. by injection Epr as -> ->.
Qed.

(** C23.  Signaling is admitted in order.  Over any sequence of session, offer and
    candidate requests by anyone at any time, with the rest of the server running in
    between: a token is redeemed no more often than it was handed out, and only for
    the epoch it was handed out for; the epochs of the promoted connections strictly
    increase; and a candidate is let through only if it comes from an allowed origin,
    names the session and a token that an offer has redeemed for the same epoch, that
    epoch is the one being heard, and it declares no capabilities or exactly those the
    connection of that epoch was promoted with. *)
Theorem signaling_admitted_in_order a0 a b :
  new_app a0 → rtc (app_step known_client_url) (a0, false) (a, b) →
  (∀ tok, (sum_list_with (redeemed_as tok) (app_log a) ≤ sum_list_with (issued_as tok) (app_log a))%nat)
  ∧ (∀ tok e, Redeemed tok e ∈ app_log a → Issued tok e ∈ app_log a)
  ∧ StronglySorted N.lt (promotions (app_log a)).*1
  ∧ ∀ q now now' handled a', rq_method q = PATCH →
      ice_candidate known_client_url q now now' handled a = (a', Ret tt) →
      ∃ value caps, require_local_origin known_client_url q = Ret tt ∧ url_handshake q = Ret value
        ∧ sh_session_id value = session_id (h_state (app_host a))
        ∧ Redeemed (sh_resume_token value) (sh_proposed_epoch value) ∈ app_log a
        ∧ host_accepts (Some (sh_proposed_epoch value)) (app_host a) = true
        ∧ Promoted (sh_proposed_epoch value) caps ∈ app_log a
        ∧ (sh_capabilities_present value = true → ∀ c, c ∈ sh_capabilities value ↔ c ∈ caps).
Proof.
  intros Hn Hr. pose proof (app_steps_inv _ _ Hr (new_app_inv _ Hn)) as Hinv. cbn [fst snd] in Hinv.
  pose proof Hinv as [Hc Hw Hg Hi Hb He Hp]. split_and!; [intros tok; specialize (Hb tok); lia|done|rewrite He; apply Hc|].
  intros q now now' handled a' Hq. unfold ice_candidate. pose proof (inv_admit q now now' a b Hinv) as Hinv'.
  destruct (admit_request _ q now now' a) as [a1 out] eqn:Ea. apply admit_spec in Ea as (Eh & Ec & E). cbn [fst] in Hinv'.
  destruct out as [h|]; [|done]. destruct E as [(_ & _ & ?)|(value & Ho & Hu & Hs & [Hv El] & Hh)]; [done|].
  destruct (Hh h eq_refl) as (Eep & Ecs & Ecp). rewrite Eep. destruct (host_accepts _ (app_host a1)) eqn:Hacc; [|done]. cbn [negb].
  destruct (bound_promoted _ _ _ Hinv' Hacc) as (c & Eb & Hprom).
  destruct (validate_patch_handshake _ h) as [[]|] eqn:Evp; [|intros E; exfalso; by destruct (value_error _)]. intros _.
  rewrite bool_decide_false in Hv, El by congruence. cbn [andb] in El. rewrite app_nil_r in El. rewrite El in Hprom. rewrite Eh in Hacc.
  exists value, (cn_capabilities c). split_and!; try done.
  - symmetry in Hv. apply (f_equal snd) in Hv. apply validate_answer in Hv as (x & Hx & _); [|done].
    by apply (Hg _ _ _ _ Hx).
  - rewrite <- Ecp, <- Ecs. intros Hpres. assert (returns (validate_patch_handshake (bound_connection a1) h) = true) as Hret by (by rewrite Evp).
    apply patch_capabilities in Hret as [?|Hret]; [congruence|]. by rewrite Eb in Hret.
Qed.

End app_facts.

(** ** A run: a browser asks for a handshake, connects and sends a candidate *)

#[local] Existing Instance sample_runtime.
#[local] Existing Instance w_config.
#[local] Existing Instance RETENTION_FALLBACK.
#[local] Existing Instance wc_config.

Definition sample_web : WebServer :=
  {| parse_json := λ _, Ret (JArr [JStr (txt "work_status_v1")]);
     parse_url := λ _, Ret (mkParsedUrl (txt "http") (Some (txt "127.0.0.1")) (Ret (Some 7860%N))) |}.
#[local] Existing Instance sample_web.

Definition browser (m : http_method) : Request :=
  mkRequest m (txt "session_id=s&resume_token=t0&proposed_epoch=1&capabilities=%5B%22work_status_v1%22%5D")
    (λ key, dict_get key [("session_id", txt "s"); ("resume_token", txt "t0"); ("proposed_epoch", txt "1")])
    (λ _, [txt "[]"]) (Some (txt "http://localhost:7860")) None None.

Definition app_new : App Coordinator := mkApp wc_new HandshakeGate_init [] [].
Definition app_started : App Coordinator := app_new <| app_host := start wc_new |>.
Definition app_issued : App Coordinator := (session [] (browser GET) "t0" 0 0 app_started).1.
Definition app_connected : App Coordinator :=
  (offer [] (browser POST) 1 1 (Some (true, Coordinator_init, 2%Q)) (Ret (Some [])) app_issued).1.

Lemma app_starts : app_step [] (app_new, false) (app_started, true).
Proof. exact (AHost [] (start wc_new) true app_new false (CStart wc_new) eq_refl). Qed.

Lemma app_issues : app_step [] (app_started, true) (app_issued, true).
Proof. exact (ASession [] (browser GET) "t0" 0 0 app_started true). Qed.

Lemma app_connects : app_step [] (app_issued, true) (app_connected, true).
Proof.
  exact (AOffer [] (browser POST) 1 1 (Some (true, Coordinator_init, 2%Q)) (Ret (Some [])) app_issued eq_refl).
Qed.

Lemma app_run : rtc (app_step []) (app_new, false) (app_connected, true).
Proof. eapply rtc_l; [exact app_starts|]. eapply rtc_l; [exact app_issues|]. apply rtc_once, app_connects. Qed.

Lemma candidate_accepted : ∃ a, ice_candidate [] (browser PATCH) 3 3 (Ret tt) app_connected = (a, Ret tt).
Proof. eexists. vm_compute. reflexivity. Qed.

Lemma signaling_admitted_in_order_witness :
  ∃ value caps, url_handshake (browser PATCH) = Ret value ∧ Promoted (sh_proposed_epoch value) caps ∈ app_log app_connected.
Proof.
  assert (new_app app_new) as Hn by (split; split_and!; reflexivity).
  destruct (signaling_admitted_in_order [] app_new app_connected true Hn app_run) as (_ & _ & _ & Hp).
  destruct candidate_accepted as [a Ha].
  destruct (Hp (browser PATCH) 3%Q 3%Q (Ret tt) a eq_refl Ha) as (value & caps & _ & Hu & _ & _ & _ & Hprom & _).
  exists value, caps. exact (conj Hu Hprom).
Defined.
