(* ===== verification/Setup.v ===== *)
(** Attaching a browser to the host ([_attach_connection],
    [_close_setup_connection] and the logging set-up of [src/server/app.py],
    [ConnectionPipeline.shutdown] of [src/server/connection_pipeline.py]), and the
    result adapter of its pipeline ([src/server/pipeline.py]).

    Set-up is a coroutine that promotes a connection, connects its speech service,
    builds the framework's pipeline and starts its worker.  What the framework answers
    is in [Setup] and [Teardown]: an awaited call returns, fails with an [Exception] or
    ends by the cancellation of the task.  At every await the rest of the server acts
    on the host: [others n] is what it does at the [n]-th of them.  A [Runtime] is what
    this coroutine makes of the connection; the shutdown that another task may run for
    the same connection releases the same things once more.  The snapshot
    handlers that set-up registers are in [Observer.v]; they run later. *)

From Stdlib Require Import Sorted.
From stdpp Require Import relations sorting.
From S2P Require Import Prelude PyDict PyText PyValue Json Contracts SessionState ConnectionArbiter WorkTaskLedger SpeechLifecycle SpeechScheduler SpeechSystem TurnAckLedger WorkItemCoordinator SessionHost HostConnection.

(** How an awaited call ends *)
Inductive ending := Returns | Fails | IsCancelled.

Inductive service := STT | TTS.

(** [ConnectionPipeline], apart from what the host keeps of it: the transport, the
    worker and its task, the output teardown, the observer's subscription and the
    sequence it was seeded with, the services that were cleaned up, and whether the
    lifecycle coordinator was told that the connection is closed *)
Record Runtime := mkRuntime {
  rt_pipeline : nat;
  rt_epoch : N;
  rt_transport : bool;
  rt_worker : bool;
  rt_worker_task : bool;
  rt_output_teardown : bool;
  rt_subscribed : bool;
  rt_seed : option N;
  rt_cleaned : list service;
  rt_lifecycle_closed : bool
}.

#[export] Instance eta_Runtime : Eta Runtime := λ r,
  mkRuntime (rt_pipeline r) (rt_epoch r) (rt_transport r) (rt_worker r) (rt_worker_task r) (rt_output_teardown r)
    (rt_subscribed r) (rt_seed r) (rt_cleaned r) (rt_lifecycle_closed r).

Definition Runtime_init (p : nat) (epoch : N) : Runtime := mkRuntime p epoch false false false false false None [] false.

(** The framework's answers while a connection is taken down; a service or a worker
    without the method has no answer *)
Record Teardown := mkTeardown {
  td_worker : option ending;   (* [worker.cancel] *)
  td_stt : option ending;      (* the services' [cleanup] *)
  td_tts : option ending;
  td_disconnect : ending       (* [connection.disconnect] *)
}.

(** ... and while it is set up.  [su_register] is the registration of workers that
    [connect] ends with, [su_tts_connect] is absent when the service has no
    [connect], [su_build] says whether the pipeline could be built, [su_workers] is
    absent for the framework's own runner and else the end of [add_workers].
    [su_teardown] is for a connection that was replaced meanwhile, [su_abort] for the
    handler of a failed set-up. *)
Record Setup := mkSetup {
  su_register : ending;
  su_tts_connect : option ending;
  su_build : bool;
  su_workers : option ending;
  su_teardown : Teardown;
  su_abort : Teardown
}.

Inductive attached := Refused (e : exn) | Unregistered | Attached | Replaced | SetupFailed.

Section setup.
Context {L : Type} `{!SpeechSlot L} {retention : RetentionConfig} `{CoordinatorConfig}.
Implicit Types (x : Host L * bool) (r : Runtime) (now : Q).
Context (others : nat → Host L * bool → Host L * bool).

(** ** [ConnectionPipeline.shutdown]; the flag says whether it ran to its end *)

Definition cancelled (e : option ending) : bool := match e with Some IsCancelled => true | _ => false end.

Definition awaited (n : nat) (e : option ending) x : Host L * bool := match e with Some _ => others n x | None => x end.

Definition stop_worker (td : Teardown) x r : Host L * bool * Runtime * bool :=
  if rt_worker r then
    (awaited 10 (td_worker td) x, if cancelled (td_worker td) then r else r <| rt_worker := false |>, negb (cancelled (td_worker td)))
  else (x, r, true).

(** The end of the task is awaited whatever it is, cancellation included *)
Definition stop_worker_task x r : Host L * bool * Runtime :=
  if rt_worker_task r then (others 11 x, r <| rt_worker_task := false |>) else (x, r).

Definition cleanup (n : nat) (s : service) (e : option ending) x r : Host L * bool * Runtime * bool :=
  match e with
  | Some _ => (others n x, r <| rt_cleaned ::= (λ l, l ++ [s]) |>, negb (cancelled e))
  | None => (x, r, true)
  end.

Definition shutdown (reconnect : bool) now (td : Teardown) x r : Host L * bool * Runtime * bool :=
  let x := (deactivate (rt_pipeline r) reconnect now x.1, x.2) in
  let '(x, r, ok) := stop_worker td x r in
  if negb ok then (x, r, false)
  else
    let '(x, r) := stop_worker_task x r in
    let r := r <| rt_subscribed := false |> in
    let '(x, r, ok) := cleanup 12 STT (td_stt td) x r in
    if negb ok then (x, r, false)
    else
      let '(x, r, ok) := cleanup 13 TTS (td_tts td) x r in
      if negb ok then (x, r, false) else (x, r <| rt_lifecycle_closed := true |>, true).

(** ** [_close_setup_connection], with the number of calls to [disconnect] *)

Definition close_setup_connection (td : Teardown) x (calls : nat) : Host L * bool * nat * bool :=
  (others 14 x, S calls, negb (cancelled (Some (td_disconnect td)))).

(** ** The ends of a set-up *)

(** [except BaseException], after which the exception is raised again *)
Definition setup_failed now (su : Setup) x r (calls : nat) : Host L * bool * Runtime * nat * attached :=
  let x := (abort_connection (rt_pipeline r) false now x.1, x.2) in
  let '(x, r, ok) := shutdown false now (su_abort su) x r in
  if ok then let '(x, calls, _) := close_setup_connection (su_abort su) x calls in (x, r, calls, SetupFailed)
  else (x, r, calls, SetupFailed).

(** [if not host.accepts(runtime.epoch)], inside the blocks: a cancellation that
    arrives meanwhile ends in the handler *)
Definition replaced now (su : Setup) x r : Host L * bool * Runtime * nat * attached :=
  let '(x, r, ok) := shutdown true now (su_teardown su) x r in
  if ok then
    let '(x, calls, ok) := close_setup_connection (su_teardown su) x 0 in
    if ok then (x, r, calls, Replaced) else setup_failed now su x r calls
  else setup_failed now su x r 0.

(** The worker's own task, or its registration with the runner *)
Definition start_worker now (su : Setup) x r : Host L * bool * Runtime * nat * attached :=
  match su_workers su with
  | None => (x, r <| rt_worker_task := true |>, 0%nat, Attached)
  | Some Returns => (others 2 x, r, 0%nat, Attached)
  | Some _ => setup_failed now su (others 2 x) r 0
  end.

(** The second block: the worker is installed, the observer seeded and subscribed,
    and the worker started *)
Definition install now (su : Setup) x r : Host L * bool * Runtime * nat * attached :=
  let r := r <| rt_transport := true |> <| rt_worker := true |> <| rt_output_teardown := true |> in
  if negb (host_accepts (Some (rt_epoch r)) x.1) then replaced now su x r
  else
    let r := r <| rt_seed := Some (sequence (h_state x.1)) |> <| rt_subscribed := true |> in
    start_worker now su x r.

(** The first block, on the promoted connection *)
Definition build now (su : Setup) x r : Host L * bool * Runtime * nat * attached :=
  let x := awaited 1 (su_tts_connect su) x in
  match su_tts_connect su with
  | Some Fails | Some IsCancelled => setup_failed now su x r 0
  | _ =>
      if negb (host_accepts (Some (rt_epoch r)) x.1) then replaced now su x r
      else if su_build su then install now su x r
      else setup_failed now su x r 0
  end.

(** [_attach_connection] on a started host.  The promotion is outside the blocks
    whose failures are handled. *)
Definition attach_connection (handshake : SnapshotHandshake) (tts : bool) (fresh : L) now (su : Setup) (h : Host L)
    : Host L * bool * option (Runtime * nat) * attached :=
  match connect handshake tts fresh now h with
  | (h, Raise e) => (h, true, None, Refused e)
  | (h, Ret p) =>
      let r := Runtime_init p (sh_proposed_epoch handshake) in
      let x := others 0 (h, true) in
      match su_register su with
      | Returns => let '(x, r, calls, out) := build now su x r in (x, Some (r, calls), out)
      | _ => (x, Some (r, 0%nat), Unregistered)
      end
  end.

End setup.

(** ** Facts *)

Section setup_facts.
Context {L : Type} `{!SpeechSlot L} {retention : RetentionConfig} `{CoordinatorConfig}.
Implicit Types (x y : Host L * bool) (r : Runtime) (now : Q).

(** A lane that was fenced stays fenced. *)
Lemma fenced_stays x y p e : conn_step x y → lanes x.1 !! p = Some (false, e) → lanes y.1 !! p = Some (false, e).
Proof.
  assert (∀ q (l : list (bool * N)), l !! p = Some (false, e) → alter (λ a, (false, a.2)) q l !! p = Some (false, e)) as Halt.
  { intros q l Hl. rewrite alter_lane_lookup, Hl. simpl. by case_decide. }
  intros Hs Hl. destruct Hs as [h|hs tts fresh now h|q rc now h b|q h b|q rc now h b|h b|now h b|now h b Hcl Hcn|h h' b Hsame]; cbn [fst snd] in *; try done.
  - unfold connect. destruct (h_closing h); [done|]. destruct (promote hs (h_arbiter h)) as [a [c|err]]; cbv zeta; cbn [fst]; [|done].
    set (h1 := on_acks _ _). assert (lanes h1 !! p = Some (false, e)) as Hl1.
    { transitivity ((lanes h ++ [(true, cn_epoch c)]) !! p); [unfold lanes, h1; simpl; by rewrite fmap_app|by apply lookup_app_l_Some]. }
    unfold retire_old_connection. destruct (connection (h_acks _)) as [q|]; [|done].
    destruct (deactivate_spec q true now h1) as (_ & _ & _ & _ & ->). by apply Halt.
  - unfold abort_connection. case_decide; [|done]. destruct (deactivate_spec q rc now h) as (_ & _ & _ & _ & E).
    transitivity (lanes (deactivate q rc now h) !! p); [done|]. rewrite E. by apply Halt.
  - rewrite fence_lanes. by apply Halt.
  - destruct (deactivate_spec q rc now h) as (_ & _ & _ & _ & ->). by apply Halt.
  - unfold shutdown_connection. destruct (connection (h_acks h)) as [q|]; [|done].
    destruct (deactivate_spec q false now h) as (_ & _ & _ & _ & E).
    transitivity (lanes (deactivate q false now h) !! p); [done|]. rewrite E. by apply Halt.
  - destruct Hsame as (_ & _ & _ & _ & E). unfold lanes, lane in *. by rewrite E.
Qed.

Lemma sorted_lookup_inj (l : list N) i j e : StronglySorted N.lt l → l !! i = Some e → l !! j = Some e → i = j.
Proof.
  intros Hs. revert i j. induction Hs as [|a l Hs IH Ha]; intros [|i] [|j] Hi Hj; simplify_eq/=; try done; [..|f_equal; by apply IH].
  all: rewrite Forall_lookup in Ha.
  - apply Ha in Hj. lia.
  - apply Ha in Hi. lia.
Qed.

(** The connection of [r] exists, and it is fenced *)
Definition held x r : Prop := conn_inv x.1 x.2 ∧ (lanes x.1).*2 !! rt_pipeline r = Some (rt_epoch r).
Definition gone x r : Prop := conn_inv x.1 x.2 ∧ lanes x.1 !! rt_pipeline r = Some (false, rt_epoch r).

Definition same_connection_of r r' : Prop := rt_pipeline r' = rt_pipeline r ∧ rt_epoch r' = rt_epoch r.

Lemma gone_unheard x r : gone x r → host_accepts (Some (rt_epoch r)) x.1 = false.
Proof.
  intros [Hc Hl]. destruct (host_accepts _ x.1) eqn:E; [|done]. pose proof Hc as [_ _ Hs _].
  destruct (conn_heard _ _ Hc) as (_ & _ & Hh). apply Hh in E as (_ & p & pl & _ & Hp & Ha & [= Ee]).
  assert (lanes x.1 !! p = Some (true, rt_epoch r)) as Hlp by (unfold lanes, lane; by rewrite list_lookup_fmap, Hp; simpl; rewrite Ha, Ee).
  assert (p = rt_pipeline r) as ->; [|congruence].
  by apply (sorted_lookup_inj _ _ _ (rt_epoch r) Hs); rewrite list_lookup_fmap; [rewrite Hlp|rewrite Hl].
Qed.

Lemma gone_held x r : gone x r → held x r.
Proof. intros [Hc Hl]. split; [done|]. by rewrite list_lookup_fmap, Hl. Qed.

Lemma held_steps x y r : rtc conn_step x y → held x r → held y r.
Proof.
  induction 1 as [|x y z Hs _ IH]; [done|]. intros [Hc Hl]. apply IH. split; [by eapply conn_step_inv|].
  apply conn_step_epochs in Hs as [l ->]. by apply lookup_app_l_Some.
Qed.

Lemma gone_steps x y r : rtc conn_step x y → gone x r → gone y r.
Proof.
  induction 1 as [|x y z Hs _ IH]; [done|]. intros [Hc Hl]. apply IH. split; [by eapply conn_step_inv|by eapply fenced_stays].
Qed.

Lemma held_deactivate x r reconnect now : held x r → gone (deactivate (rt_pipeline r) reconnect now x.1, x.2) r.
Proof.
  destruct x as [h b]. intros Hh. assert (held (deactivate (rt_pipeline r) reconnect now h, b) r) as [Hc' Hl'].
  { eapply held_steps; [|exact Hh]. apply rtc_once. constructor. }
  split; [done|]. cbn [fst] in *. destruct (deactivate_spec (rt_pipeline r) reconnect now h) as (_ & _ & _ & _ & E).
  rewrite E in Hl' |- *. rewrite alter_lane_epochs, list_lookup_fmap in Hl'. rewrite alter_lane_lookup.
  destruct (lanes h !! rt_pipeline r) as [[a e]|]; [|done]. simpl in *. rewrite decide_True by done. by simplify_eq.
Qed.
Context (others : nat → Host L * bool → Host L * bool).
Context (others_act : ∀ n x, rtc conn_step x (others n x)).

Definition uncancelled (td : Teardown) : Prop :=
  cancelled (td_worker td) = false ∧ cancelled (td_stt td) = false ∧ cancelled (td_tts td) = false.

(** Everything the connection held was given back. *)
Definition released (td : Teardown) r : Prop :=
  rt_worker r = false ∧ rt_worker_task r = false ∧ rt_subscribed r = false ∧ rt_lifecycle_closed r = true
  ∧ (td_stt td ≠ None → STT ∈ rt_cleaned r) ∧ (td_tts td ≠ None → TTS ∈ rt_cleaned r).

Lemma gone_others n x r : gone x r → gone (others n x) r.
Proof. apply gone_steps, others_act. Qed.

Lemma shutdown_spec reconnect now td x r x' r' ok :
  held x r → shutdown others reconnect now td x r = (x', r', ok) →
  gone x' r' ∧ same_connection_of r r' ∧ (ok = true → released td r') ∧ (uncancelled td → ok = true).
Proof.
  intros Hh%(held_deactivate _ _ reconnect now). unfold shutdown, stop_worker, stop_worker_task, cleanup, awaited.
  set (x0 := (deactivate _ _ _ _, _)) in *. unfold uncancelled.
  destruct r as [p e tr w wt ot sub seed cl lc]. cbn [rt_worker rt_worker_task].
  destruct td as [[[]|] [[]|] [[]|] d], w; cbn; try (destruct wt; cbn); intros [= <- <- <-];
    (split_and!; [repeat apply gone_others; exact Hh|done| |naive_solver]); intros Hok; try discriminate Hok;
    (split_and!; cbn; try done; set_solver).
Qed.
(** What an end other than success leaves: the connection fenced and, unless the
    handler itself is cancelled, everything released and the peer disconnected *)
Definition taken_down (su : Setup) r x' r' (calls : nat) : Prop :=
  gone x' r' ∧ same_connection_of r r'
  ∧ (uncancelled (su_abort su) → (0 < calls)%nat ∧ (released (su_teardown su) r' ∨ released (su_abort su) r')).

Lemma setup_failed_spec now su x r calls x' r' calls' out :
  held x r → setup_failed others now su x r calls = (x', r', calls', out) → out = SetupFailed ∧ taken_down su r x' r' calls'.
Proof.
  destruct x as [h b]. intros Hh. unfold setup_failed. cbn [fst snd].
  assert (held (abort_connection (rt_pipeline r) false now h, b) r) as Ha.
  { eapply held_steps; [|exact Hh]. apply rtc_once. constructor. }
  destruct (shutdown _ _ _ _ _ _) as [[x1 r1] ok] eqn:Es. apply shutdown_spec in Es as (Hg & Hsame & Hrel & Hun); [|done].
  destruct ok; cbn; intros [= <- <- <- <-]; (split; [done|]); split_and!; try done.
  - by apply gone_others.
  - intros _. split; [lia|]. right. by apply Hrel.
  - intros Hu. by apply Hun in Hu.
Qed.

Lemma replaced_spec now su x r x' r' calls out :
  held x r → replaced others now su x r = (x', r', calls, out) → out ≠ Attached ∧ taken_down su r x' r' calls.
Proof.
  intros Hh. unfold replaced. destruct (shutdown _ _ _ _ _ _) as [[x1 r1] ok] eqn:Es.
  apply shutdown_spec in Es as (Hg & [Hp He] & Hrel & Hun); [|done].
  assert (∀ x2 n, gone x2 r1 → setup_failed others now su x2 r1 n = (x', r', calls, out) → out ≠ Attached ∧ taken_down su r x' r' calls) as Hf.
  { intros x2 n Hg2 E. apply setup_failed_spec in E as (-> & Hg' & [Hp' He'] & Hrest); [|by apply gone_held].
    split; [done|]. split_and!; [done|by split; congruence|done]. }
  destruct ok; [|by apply Hf]. cbn. destruct (td_disconnect (su_teardown su)); cbn; [..|by apply Hf, gone_others].
  all: intros [= <- <- <- <-]; split; [done|]; split_and!; [by apply gone_others|done|]; intros _; split; [lia|]; left; by apply Hrel.
Qed.

(** A connection that is up: its transport, worker and teardown are installed and its
    observer is subscribed and seeded. *)
Definition installed r : Prop :=
  rt_transport r = true ∧ rt_worker r = true ∧ rt_output_teardown r = true ∧ rt_subscribed r = true ∧ is_Some (rt_seed r)
  ∧ rt_cleaned r = [] ∧ rt_lifecycle_closed r = false.

Lemma build_spec now su x p e x' r' calls out :
  let r := Runtime_init p e in
  held x r → build others now su x r = (x', r', calls, out) →
  out = Attached ∧ installed r' ∧ calls = 0%nat ∧ same_connection_of r r'
    ∧ (su_workers su = None → rt_seed r' = Some (sequence (h_state x'.1)) ∧ host_accepts (Some e) x'.1 = true)
  ∨ out ≠ Attached ∧ taken_down su r x' r' calls.
Proof.
  intros r Hh. unfold build. set (x1 := awaited others 1 (su_tts_connect su) x).
  assert (held x1 r) as Hh1 by (unfold x1, awaited; destruct (su_tts_connect su); [eapply held_steps; [apply others_act|done]|done]).
  assert (∀ x2 r2, held x2 r2 → same_connection_of r r2 → setup_failed others now su x2 r2 0 = (x', r', calls, out) →
    out ≠ Attached ∧ taken_down su r x' r' calls) as Hf.
  { intros x2 r2 Hh2 [Hp He] E. apply setup_failed_spec in E as (-> & Hg' & [Hp' He'] & Hrest); [|done].
    split; [done|]. split_and!; [done|by split; congruence|done]. }
  assert (match su_tts_connect su with Some Fails | Some IsCancelled => False | _ => True end
    ∨ build others now su x r = setup_failed others now su x1 r 0) as [Hok|E].
  { unfold build. fold x1. destruct (su_tts_connect su) as [[]|]; auto. }
  2: { unfold build in E. fold x1 in E. rewrite E. intros E'. right. by eapply Hf. }
  assert (∀ A (u v : A), match su_tts_connect su with Some Fails | Some IsCancelled => u | _ => v end = v) as Em
    by (intros; destruct (su_tts_connect su) as [[]|]; done).
  rewrite Em. destruct (host_accepts _ x1.1) eqn:Hacc; cbn [negb].
  2: { intros E. right. by eapply replaced_spec. }
  destruct (su_build su); [|intros E; right; by eapply Hf].
  unfold install, start_worker. cbv zeta.
  assert (host_accepts (Some (rt_epoch (r <| rt_transport := true |> <| rt_worker := true |> <| rt_output_teardown := true |>))) x1.1 = true)
    as -> by exact Hacc. cbn [negb].
  destruct (su_workers su) as [[]|]; intros E.
  - injection E as <- <- <- <-. left. split_and!; done.
  - right. eapply Hf; [..|exact E]; [|done]. eapply held_steps; [apply others_act|exact Hh1].
  - right. eapply Hf; [..|exact E]; [|done]. eapply held_steps; [apply others_act|exact Hh1].
  - injection E as <- <- <- <-. left. split_and!; done.
Qed.

End setup_facts.

(** ** The result adapter of the pipeline ([CanonicalResultAdapter] of [pipeline.py])

    A frame is a server message with its data, another value that carries a
    dictionary, or none of these.  The two models that validate data are parameters:
    [normalize] is [GroundedResult.model_validate] followed by [canonical_result],
    [envelope] is [RTVIMessage.model_validate] followed by [wire_payload]. *)

Inductive adapter_frame := ServerMessage (data : json) | Plain (data : json) | Lifecycle.

Class EnvelopeModels := {
  grounded_fields : list text;
  normalize : dict text json → option json;
  envelope : json → bool → option json
}.

Section adapter.
Context `{EnvelopeModels}.

Definition RESULT_FIELDS : list string := ["result_id"; "text"; "worker_id"; "turn_id"].

(** The envelope, or the data of a [canonical_result] *)
Definition result_data (data : json) : json :=
  match data with
  | JObj d => if eq_str (get d "kind") (txt "canonical_result") then default (JObj (dict_pop (txt "kind") d)) (dict_get (txt "data") d) else data
  | _ => data
  end.

Definition normalized_result (data : json) : option json :=
  match result_data data with
  | JObj d =>
      if forallb (λ f, is_str (get d f)) RESULT_FIELDS && forallb (λ k, bool_decide (k ∈ grounded_fields)) (dict_keys d)
      then normalize d else None
  | _ => None
  end.

Definition is_result (data : json) : bool :=
  match data with
  | JObj d => eq_str (get d "kind") (txt "canonical_result") || forallb (λ f, dict_mem (txt f) d) RESULT_FIELDS
  | _ => false
  end.

Definition adapter_accepts (f : adapter_frame) : bool :=
  match f with
  | Lifecycle => false
  | Plain data => is_result data && bool_decide (is_Some (normalized_result data))
  | ServerMessage data =>
      if is_result data then bool_decide (is_Some (normalized_result data))
      else is_obj data && bool_decide (is_Some (envelope data false))
  end.

(** [process_frame]: what is pushed on.  [entitled] is the connection's own answer, if
    the adapter was given one. *)
Definition adapter_frame_out (downstream : bool) (entitled : option bool) (f : adapter_frame) : result (option adapter_frame) :=
  if negb downstream then Ret None
  else
    match f with
    | Lifecycle => Ret (Some f)
    | Plain data =>
        if negb (is_obj data) then Ret (Some f)
        else if negb (adapter_accepts f) then Ret None
        else Ret (Plain <$> normalized_result data)
    | ServerMessage data =>
        if negb (adapter_accepts f) then Ret None
        else
          let inbound := match data with
                         | JObj d => match get d "data" with JObj p => dict_mem (txt "work_status") p | _ => false end
                         | _ => false
                         end in
          match envelope data (default inbound entitled) with
          | None => Raise (ValueError "ValidationError")
          | Some wired => Ret (if is_result wired then Plain <$> normalized_result wired else Some (ServerMessage wired))
          end
    end.

(** What passes downstream is a lifecycle frame, a normalized result, or an envelope
    that was validated and written again with the connection's own entitlement. *)
Lemma adapter_gates entitled f g :
  adapter_frame_out true entitled f = Ret (Some g) →
  match g with
  | Lifecycle => f = Lifecycle
  | Plain v => f = Plain v ∧ is_obj v = false ∨ ∃ data, normalized_result data = Some v
  | ServerMessage v => ∃ data include, f = ServerMessage data ∧ envelope data include = Some v
                         ∧ (∀ b, entitled = Some b → include = b) ∧ is_result v = false
  end.
Proof.
  unfold adapter_frame_out. cbn [negb]. destruct f as [data|data|]; [| |by intros [= <-]].
  - destruct (adapter_accepts _); cbn [negb]; [|done]. destruct (envelope data _) as [wired|] eqn:Ee; [|done].
    destruct (is_result wired) eqn:Er.
    + intros E. destruct (normalized_result wired) as [v|] eqn:En; [|done]. injection E as <-. right. by exists wired.
    + intros [= <-]. eexists data, _. split_and!; [done|exact Ee| |done]. by intros b ->.
  - destruct (is_obj data) eqn:Eo; cbn [negb]; [|intros [= <-]; by left]. destruct (adapter_accepts _); cbn [negb]; [|done].
    intros E. destruct (normalized_result data) as [v|] eqn:En; [|done]. injection E as <-. right. by exists data.
Qed.

(** Every frame on its way upstream ends at the adapter. *)
Lemma upstream_dropped entitled f : adapter_frame_out false entitled f = Ret None.
Proof. done. Qed.

End adapter.

(** ** Logging ([_configure_logging])

    A sink of the logger has an id and says whether it renders local variables. *)

Record Sink := mkSink { sk_id : nat; sk_backtrace : bool; sk_diagnose : bool }.

Record Logging := mkLogging {
  lg_configured : bool;
  lg_sinks : list Sink;
  lg_next_id : nat;
  lg_warnings : list (list nat)
}.

Definition unhardened_handler_ids (sinks : list Sink) : list nat :=
  sk_id <$> filter (λ k, sk_backtrace k || sk_diagnose k = true) sinks.

Definition warn_about_unhardened_handlers (l : Logging) : Logging :=
  match unhardened_handler_ids (lg_sinks l) with
  | [] => l
  | ids => mkLogging (lg_configured l) (lg_sinks l) (lg_next_id l) (lg_warnings l ++ [merge_sort le ids])
  end.

Definition configure_logging (l : Logging) : Logging :=
  if lg_configured l then l
  else
    let l := mkLogging true (filter (λ k, sk_id k ≠ 0%nat) (lg_sinks l)) (lg_next_id l) (lg_warnings l) in
    let l := warn_about_unhardened_handlers l in
    mkLogging (lg_configured l) (lg_sinks l ++ [mkSink (lg_next_id l) false false]) (S (lg_next_id l)) (lg_warnings l).

Definition reset_logging_configuration (l : Logging) : Logging :=
  mkLogging false (lg_sinks l) (lg_next_id l) (lg_warnings l).

(** Configuring twice is configuring once; the default sink goes, every other sink
    stays, the new one renders nothing, and a sink that still renders local variables
    is named in a warning. *)
Lemma logging_configured l :
  lg_configured l = false →
  let l' := configure_logging l in
  configure_logging l' = l'
  ∧ (∀ k, k ∈ lg_sinks l' ↔ k ∈ lg_sinks l ∧ sk_id k ≠ 0%nat ∨ k = mkSink (lg_next_id l) false false)
  ∧ (∀ k, k ∈ lg_sinks l' → sk_backtrace k || sk_diagnose k = true → ∃ ids, last (lg_warnings l') = Some ids ∧ sk_id k ∈ ids).
Proof.
  intros El l'. assert (lg_configured l' = true ∧ lg_sinks l' = filter (λ k, sk_id k ≠ 0%nat) (lg_sinks l) ++ [mkSink (lg_next_id l) false false]) as [Ec Es].
  { unfold l', configure_logging, warn_about_unhardened_handlers. rewrite El. by destruct (unhardened_handler_ids _). }
  split_and!.
  - unfold configure_logging. by rewrite Ec.
  - intros k. rewrite Es, elem_of_app, list_elem_of_filter, list_elem_of_singleton. tauto.
  - intros k Hk Hr. rewrite Es in Hk. apply elem_of_app in Hk as [Hk| ->%list_elem_of_singleton]; [|done].
    assert (sk_id k ∈ unhardened_handler_ids (filter (λ k, sk_id k ≠ 0%nat) (lg_sinks l))) as Hin.
    { apply list_elem_of_fmap. exists k. split; [done|]. by apply list_elem_of_filter. }
    unfold l', configure_logging, warn_about_unhardened_handlers. rewrite El. cbn [lg_sinks].
    destruct (unhardened_handler_ids _) as [|i ids]; [by apply elem_of_nil in Hin|]. cbn [lg_warnings lg_sinks].
    eexists. rewrite last_snoc. split; [done|]. by rewrite merge_sort_Permutation.
Qed.

(** ** Attempts *)

#[local] Existing Instance w_config.
#[local] Existing Instance RETENTION_FALLBACK.
#[local] Existing Instance wc_config.

Definition quiet (n : nat) (x : Host Coordinator * bool) : Host Coordinator * bool := x.

Definition clean : Teardown := mkTeardown (Some Returns) (Some Fails) (Some Returns) Returns.
Definition no_pipeline : Setup := mkSetup Returns (Some Returns) false None clean clean.
Definition no_runner : Setup := mkSetup Fails (Some Returns) true None clean clean.

Definition failed_attempt := attach_connection quiet (wc_handshake 1) true Coordinator_init 0 no_pipeline (start wc_new).

Lemma failed_attempt_ends : ∃ x r, failed_attempt = (x, Some (r, 1%nat), SetupFailed).
Proof. vm_compute. by eexists _, _. Qed.

Lemma started_inv : conn_inv (start wc_new) true.
Proof. apply (conn_step_inv (wc_new, false) (start wc_new, true) (CStart wc_new)), new_host_inv. by split_and!. Qed.


(** Two failures that the handlers do not cover: a second browser with the same epoch
    is refused, and a registration that fails leaves a connection that is heard and
    has no transport; in both the peer stays open. *)
Lemma refused_peer_left_open :
  (attach_connection quiet (wc_handshake 1) true Coordinator_init 1 no_pipeline wc_first.1).2 = Refused (ValueError "connection epoch is stale")
  ∧ (attach_connection quiet (wc_handshake 1) true Coordinator_init 1 no_pipeline wc_first.1).1.2 = None.
Proof. by vm_compute. Qed.

Lemma unregistered_still_heard :
  ∃ x r, attach_connection quiet (wc_handshake 1) true Coordinator_init 0 no_runner (start wc_new) = (x, Some (r, 0%nat), Unregistered)
    ∧ host_accepts (Some 1%N) x.1 = true ∧ rt_transport r = false.
Proof. eexists _, _. split; [vm_compute; reflexivity|]. by vm_compute. Qed.
