(* ===== verification/SpeechCallbacks.v ===== *)
(** The speech callbacks that [SessionHost.connect] wires into a connection
    ([_connect_queue_speech] to [_connect_on_tts_event] of [src/server/pipeline.py],
    [_SpeechCompletionProcessor] of [src/server/app.py]): between the host, the
    connection's scheduler, its lifecycle coordinator and the frames queued for its
    worker.

    A callback is bound to its pipeline [p].  Every connection has a coordinator; the
    code's branches for one that has none are kept ([coordinated]).  Whether the
    pipeline has a worker, whether the speech service makes correlated frames and how
    an awaited call ends are arguments; [others] is what the rest of the server does
    at an await. *)

From stdpp Require Import relations.
From S2P Require Import Prelude PyDict Contracts SessionState ConnectionArbiter WorkTaskLedger SpeechLifecycle SpeechScheduler SpeechSystem TurnAckLedger WorkItemCoordinator SessionHost SessionHostFacts Delegation HostConnection Setup.

Inductive queued_frame :=
| QMarker (token utterance work_item : string) (origin : option N)
| QSpeak (words : string) (correlation : option string)
| QInterruption
| QFlushAck (token : string).

Inductive tts_event := SynthesisStarted | SynthesisEnded | DeliveryCompleted | DeliveryUnknown.

Inductive tts_frame_kind := TTSStarted (context : string) | TTSStopped (context : string) | OtherFrame.

Section callbacks.
Context `{LifecycleConfig} {retention : RetentionConfig} `{CoordinatorConfig}.
Implicit Types (h : Host Coordinator) (p : nat) (now : Q) (i : SpeechItem).

(** [self.connection is pipeline] *)
Definition is_connection p h : bool := bool_decide (connection (h_acks h) = Some p).

Definition is_active p h : bool := match pipelines (h_acks h) !! p with Some pl => pl_active pl | None => false end.

Definition coordinator_of p h : option Coordinator := slot ∘ pl_scheduler <$> pipelines (h_acks h) !! p.

Definition scheduler_active p h : option UtteranceLease := pipelines (h_acks h) !! p ≫= active ∘ pl_scheduler.

(** A coroutine of the coordinator that is awaited here *)
Definition on_coordinator p (f : Coordinator → Coordinator) h : Host Coordinator :=
  (with_scheduler p (λ s, (s <| slot ::= f |>, tt)) h).1.

(** ** Speaking and stopping *)

Definition connect_queue_speech p i (worker correlated : bool) h : Prelude.result (list queued_frame) :=
  match pipelines (h_acks h) !! p with
  | None => Raise (RuntimeError "speech target is not the active TTS connection")
  | Some pl =>
      if negb (pl_tts pl) || negb (is_connection p h) || negb (pl_active pl)
         || negb (bool_decide (si_origin_epoch i = Some (pl_epoch pl))) || negb (host_accepts (Some (pl_epoch pl)) h)
      then Raise (RuntimeError "speech target is not the active TTS connection")
      else if negb worker then Raise (RuntimeError "active connection has no Pipecat worker for TTS")
      else
        Ret (match active (pl_scheduler pl) with
             | Some lease => [QMarker (lease_token lease) (si_utterance_id i) (si_work_item_id i) (si_origin_epoch i)]
             | None => []
             end
             ++ [QSpeak (si_text i) (if correlated then Some (si_utterance_id i) else None)])
  end.

(** [item] is absent when the coordinator asks for the clean-up of its own lane *)
Definition connect_stop_speech p (item : option SpeechItem) (worker : bool) h : list queued_frame :=
  match pipelines (h_acks h) !! p with
  | None => []
  | Some pl =>
      if negb (pl_tts pl) || negb (is_connection p h) || negb worker then []
      else
        let c := slot (pl_scheduler pl) in
        let generation := slot_token c ≫= λ t, dict_get t (generations c) in
        let other := match item, generation with
                     | None, _ => false
                     | Some _, None => true
                     | Some i, Some g => negb (bool_decide (gi_utterance_id (gen_identity g) = si_utterance_id i))
                     end in
        QInterruption :: match slot_token c with Some t => if other then [] else [QFlushAck t] | None => [] end
  end.

Definition connect_dispatch_lifecycle_cleanup p (worker : bool) h : list queued_frame := connect_stop_speech p None worker h.

(** ** The coordinator's notifications *)

Definition connect_on_lifecycle_terminal p (identity : GenerationIdentity) (d : option DeliveryDisposition) (env : slot_env) now h
    : Host Coordinator :=
  if negb (is_connection p h) then h
  else
    let h := if bool_decide (d = Some DD_DELIVERY_UNKNOWN)
             then (with_scheduler p (λ s, (delivery_unknown (gi_utterance_id identity) s, tt)) h).1 else h in
    if is_active p h && bool_decide (scheduler_active p h = None)
    then (with_scheduler p (start_next None env now) h).1 else h.

(** The host it leaves and the shutdown tasks it creates; [teardown] is the output's
    own teardown, if there is one *)
Definition connect_dispatch_lifecycle_teardown p (token : string) (teardown : option ending)
    (others : Host Coordinator * bool → Host Coordinator * bool) (x : Host Coordinator * bool) : Host Coordinator * bool * nat :=
  let x := (fence_lane p x.1, x.2) in
  match teardown with
  | None => (x, 1%nat)
  | Some e =>
      let x := others x in
      match e with
      | IsCancelled => (x, 0%nat)
      | Fails => (x, 1%nat)
      | Returns => (on_coordinator p (λ c, await (teardown_complete token c)) x.1, x.2, 1%nat)
      end
  end.

Definition connect_transport_acceptable p h : bool := is_connection p h && is_active p h.

(** Whether a final transcript is handled *)
Definition connect_on_final p h : bool := negb (negb (is_connection p h) || negb (is_active p h)).

(** ** Events of the speech service *)

(** After the host's own callback was awaited *)
Definition connect_on_tts_event p (e : tts_event) (context : string) (coordinated : bool) (env : slot_env) now h : Host Coordinator :=
  let current := is_connection p h && is_active p h in
  let call {A} (f : Scheduler SessionState Coordinator → Scheduler SessionState Coordinator * A) h := (with_scheduler p f h).1 in
  let h1 :=
    if negb current then h
    else
      match e with
      | SynthesisStarted => call (λ s, (provider_started context s, tt)) h
      | SynthesisEnded =>
          let h := call (provider_synthesis_ended context) h in
          if coordinated then h else call (provider_delivery_unknown context) h
      | DeliveryCompleted => if coordinated then h else call (provider_delivery_completed context) h
      | DeliveryUnknown =>
          match (if coordinated then coordinator_of p h ≫= λ c, dict_get context (context_tokens c) else None) with
          | Some token => on_coordinator p (λ c, await (begin_delivery_unknown token c)) h
          | None => call (provider_delivery_unknown context) h
          end
      end in
  if negb coordinated && match e with SynthesisStarted => false | _ => true end
     && is_connection p h1 && is_active p h1 && bool_decide (scheduler_active p h1 = None)
  then call (start_next None env now) h1 else h1.

(** [_SpeechCompletionProcessor.process_frame]; the frame is pushed on in every case *)
Definition speech_completion p (coordinated downstream : bool) (f : tts_frame_kind) (env : slot_env) now h : Host Coordinator :=
  if negb (downstream && is_connection p h && is_active p h) then h
  else
    match f with
    | TTSStarted c => (with_scheduler p (λ s, (provider_started c s, tt)) h).1
    | TTSStopped c =>
        match with_scheduler p (provider_synthesis_ended c) h with
        | (h, Some true) =>
            if coordinated then h
            else
              let h := (with_scheduler p (provider_delivery_unknown c) h).1 in
              (with_scheduler p (start_next None env now) h).1
        | (h, _) => h
        end
    | OtherFrame => h
    end.

End callbacks.

Section callback_facts.
Context `{LifecycleConfig} {retention : RetentionConfig} `{CoordinatorConfig}.
Implicit Types (h : Host Coordinator) (p : nat) (now : Q) (i : SpeechItem).

(** An utterance is handed to the speech service exactly when there is a worker, its
    pipeline has a service and is the host's connection, and the host accepts the very
    epoch of the utterance; then the last frame queued is the speech, after the marker
    with the token of the lease that is active. *)
Theorem speak_only_where_heard p i worker correlated h b :
  conn_inv h b →
  match connect_queue_speech p i worker correlated h with
  | Ret frames =>
      worker = true ∧ connection (h_acks h) = Some p ∧ host_accepts (si_origin_epoch i) h = true
      ∧ (∃ pl, pipelines (h_acks h) !! p = Some pl ∧ pl_tts pl = true ∧ si_origin_epoch i = Some (pl_epoch pl))
      ∧ last frames = Some (QSpeak (si_text i) (if correlated then Some (si_utterance_id i) else None))
      ∧ (∀ lease, scheduler_active p h = Some lease →
           head frames = Some (QMarker (lease_token lease) (si_utterance_id i) (si_work_item_id i) (si_origin_epoch i)))
  | Raise _ =>
      worker = false ∨ connection (h_acks h) ≠ Some p ∨ host_accepts (si_origin_epoch i) h = false
      ∨ ∃ pl, pipelines (h_acks h) !! p = Some pl ∧ pl_tts pl = false
  end.
Proof.
  intros Hc. unfold connect_queue_speech, scheduler_active, is_connection. destruct (conn_heard _ _ Hc) as (_ & _ & Hh).
  destruct (host_accepts (si_origin_epoch i) h) eqn:Ha.
  2: { destruct (pipelines (h_acks h) !! p) as [pl|]; [|tauto].
       destruct (bool_decide (si_origin_epoch i = _)) eqn:Ee; [apply bool_decide_eq_true in Ee; rewrite Ee in Ha; rewrite Ha|];
         rewrite ?orb_true_r; simpl; tauto. }
  pose proof Ha as Ha'. apply Hh in Ha as (_ & q & pl & Eq & Epl & Hact & Ee).
  destruct (decide (q = p)) as [->|Hne].
  2: { assert (connection (h_acks h) ≠ Some p) as Hn by congruence. rewrite (bool_decide_false _ Hn).
       destruct (pipelines (h_acks h) !! p); simpl; [rewrite orb_true_r; simpl|]; tauto. }
  rewrite Epl, Hact, (bool_decide_true _ Eq), (bool_decide_true _ Ee), <- Ee, Ha'. simpl.
  destruct (pl_tts pl) eqn:Et; simpl; [|right; right; right; by exists pl].
  destruct worker; simpl; [|by left]. split_and!; try done.
  - by exists pl.
  - by rewrite last_snoc.
  - intros lease ->. done.
Qed.

(** ** The connection under a call of its scheduler *)

Lemma with_scheduler_same {A} p (f : Scheduler SessionState Coordinator → Scheduler SessionState Coordinator * A) h :
  (∀ s, sink (f s).1 = sink s) → same_connection h (with_scheduler p f h).1.
Proof.
  intros Hf. destruct (pipelines (h_acks h) !! p) as [pl|] eqn:Ep.
  - destruct (with_scheduler_rest p f h pl Ep) as (Es & Ea & Ecl & Ec & El & Hr).
    destruct (with_scheduler_at p f h pl Ep) as (_ & Hp & _). split_and!; try done; [by rewrite Es, Hf|].
    apply list_eq. intros q. rewrite !list_lookup_fmap. destruct (decide (q = p)) as [->|Hq]; [by rewrite Hp, Ep|by rewrite Hr].
  - unfold with_scheduler, with_acks, sched_call. cbn. rewrite !list_lookup_alter_eq, Ep. cbn. split_and!; try done; cbn; [by rewrite list_lookup_alter_eq, Ep|]. f_equal.
    by apply alter_beyond.
Qed.

(** Tearing down the output fails closed: whatever becomes of the output's own
    teardown and of the rest of the server meanwhile, the lane is fenced first and its
    epoch is never heard again, and unless the task is cancelled one shutdown of the
    connection follows. *)
Theorem teardown_fails_closed p token teardown others h b pl x n :
  conn_inv h b → pipelines (h_acks h) !! p = Some pl → (∀ x, rtc conn_step x (others x)) →
  connect_dispatch_lifecycle_teardown p token teardown others (h, b) = (x, n) →
  (∀ y, rtc conn_step x y → host_accepts (Some (pl_epoch pl)) y.1 = false)
  ∧ (teardown ≠ Some IsCancelled → n = 1%nat).
Proof.
  intros Hc Hp Ho. unfold connect_dispatch_lifecycle_teardown. cbn [fst snd].
  set (x0 := (fence_lane p h, b)). set (r := Runtime_init p (pl_epoch pl)).
  assert (gone x0 r) as Hg.
  { split; [apply (conn_step_inv (h, b) x0 (CFence p h b) Hc)|]. cbn [x0 fst rt_pipeline rt_epoch r Runtime_init].
    rewrite fence_lanes, alter_lane_lookup. unfold lanes. rewrite list_lookup_fmap, Hp. simpl. by rewrite decide_True. }
  assert (∀ x, gone x r → ∀ y, rtc conn_step x y → host_accepts (Some (pl_epoch pl)) y.1 = false) as Hu.
  { intros x1 Hx y Hy. apply (gone_unheard y r). by apply (gone_steps x1). }
  assert (gone (others x0) r) as Hg' by (apply (gone_steps x0); auto).
  destruct teardown as [[]|]; intros [= <- <-]; (split; [|done]); apply Hu; try done.
  apply (gone_steps (others x0)); [|done]. apply rtc_once. destruct (others x0) as [h1 b1]. apply COther.
  by apply with_scheduler_same.
Qed.

(** ** Events of the service do not release the slot *)

Lemma with_scheduler_active {A} p (f : Scheduler SessionState Coordinator → Scheduler SessionState Coordinator * A) h :
  (∀ s, active (f s).1 = active s) → scheduler_active p (with_scheduler p f h).1 = scheduler_active p h.
Proof.
  intros Hf. unfold scheduler_active. destruct (pipelines (h_acks h) !! p) as [pl|] eqn:Ep.
  - destruct (with_scheduler_at p f h pl Ep) as (_ & -> & _). cbn. by rewrite Hf.
  - unfold with_scheduler, with_acks, sched_call. cbn. rewrite list_lookup_alter_eq, Ep. cbn. by rewrite list_lookup_alter_eq, Ep.
Qed.

Lemma started_active c (s : Scheduler SessionState Coordinator) : active (provider_started c s) = active s.
Proof. unfold provider_started. destruct (dict_mem _ _); [done|]. destruct (active s) eqn:E; [|done]. by case_decide. Qed.

Lemma emit_active i st e a (s : Scheduler SessionState Coordinator) : active (emit_progress i st e a s) = active s.
Proof. unfold emit_progress. by case_decide. Qed.

Lemma synthesis_active c (s : Scheduler SessionState Coordinator) : active (provider_synthesis_ended c s).1 = active s.
Proof.
  unfold provider_synthesis_ended, synthesis_ended. destruct (provider_item c s); [|done]. cbn [fst].
  destruct (active_item _ s); [|done]. apply emit_active.
Qed.

(** With a coordinator, no event of the speech service releases the lease of the
    utterance being spoken: only the coordinator's own barriers do; the one exception
    is a delivery that ended unknown in a context the coordinator does not know. *)
Theorem events_keep_lease p e context env now h :
  e ≠ DeliveryUnknown ∨ (∃ c token, coordinator_of p h = Some c ∧ dict_get context (context_tokens c) = Some token) →
  scheduler_active p (connect_on_tts_event p e context true env now h) = scheduler_active p h.
Proof.
  intros Hex. unfold connect_on_tts_event. cbn [negb andb]. destruct (negb (is_connection p h && is_active p h)); [done|].
  destruct e; [by apply with_scheduler_active, started_active|by apply with_scheduler_active, synthesis_active|done|].
  destruct Hex as [?|(c & token & -> & Ht)]; [done|]. cbn [mbind option_bind]. rewrite Ht.
  by apply with_scheduler_active.
Qed.

End callback_facts.

(** ** An utterance of the first connection *)

#[local] Existing Instance w_config.
#[local] Existing Instance RETENTION_FALLBACK.
#[local] Existing Instance wc_config.

Definition hello : SpeechItem := mkItem (Some "r") "work-turn-1" "run-turn-1" "hello" "utt-1" (Some 1%N) ROLE_RESULT None None.

Lemma hello_queued : connect_queue_speech 0 hello true true wc_first.1 = Ret [QSpeak "hello" (Some "utt-1")].
Proof. by vm_compute. Qed.

Lemma speak_only_where_heard_witness : host_accepts (Some 1%N) wc_first.1 = true.
Proof.
  assert (conn_inv wc_first.1 true) as Hc by (apply inv_connect, started_inv).
  pose proof (speak_only_where_heard 0 hello true true wc_first.1 true Hc) as Hs. rewrite hello_queued in Hs.
  exact (proj1 (proj2 (proj2 Hs))).
Defined.
