(* ===== verification/LocalSpeech.v ===== *)
(** The adapters to the local speech services ([src/server/services/tts.py],
    [stt.py], [ws_clients.py]): the websocket clients with their limits, the
    synthesis of an utterance and the transcription of a segment.

    A message of the socket is binary or a text with its size in bytes and what
    [json.loads] makes of it.  A generator ends early when its consumer closes it at
    a yield; [patience] is the number of frames after which the consumer resumes it.
    At a yield or an await other coroutines may act on the adapter: [others].  What
    the client, the callbacks and [base64] answer are arguments. *)

From S2P Require Import Prelude PyDict PyText PyValue Json.

Inductive wire :=
| BinaryMessage (size : N)
| TextMessage (size : N) (parsed : option json).

Definition wire_size (w : wire) : N := match w with BinaryMessage n | TextMessage n _ => n end.

(** How the socket's iteration ends *)
Inductive stream_end := StreamEnds | StreamTimesOut | ConnectionClosed.

Definition MAX_HANDSHAKE_EVENTS : nat := 128.
Definition MAX_EVENT_COUNT : N := 4096.
Definition MAX_MESSAGE_BYTES : N := 1024 * 1024.
Definition MAX_OPERATION_BYTES : N := 64 * 1024 * 1024.

Definition AttributeError : exn := OtherException "AttributeError".
Definition TimeoutError : exn := OtherException "TimeoutError".

(** ** The handshake of a client *)

(** [_receive_json]; no message is a timeout *)
Definition receive_json (m : option wire) : result json :=
  match m with
  | None => Raise TimeoutError
  | Some (BinaryMessage _) => Raise (TypeError "unexpected binary frame during local service handshake")
  | Some (TextMessage size parsed) =>
      if (MAX_MESSAGE_BYTES <? size)%N then Raise (RuntimeError "local service handshake message limit exceeded")
      else match parsed with Some v => Ret v | None => Raise (ValueError "JSONDecodeError") end
  end.

(** [event.get("type")] *)
Definition event_type (v : json) : result json :=
  match v with JObj d => Ret (get d "type") | _ => Raise AttributeError end.

Definition type_is (t : json) (names : list string) : bool := existsb (λ n, eq_str t (txt n)) names.

(** [_receive_until], on the messages that arrive *)
Fixpoint receive_until (rounds : nat) (expected : list string) (ms : list wire) : result json :=
  match rounds with
  | O => Raise (RuntimeError "local service handshake event limit exceeded")
  | S rounds =>
      event ←? receive_json (head ms) ;;
      t ←? event_type event ;;
      if type_is t expected then Ret event else receive_until rounds expected (tail ms)
  end.

(** A client's socket: open or not, and the number of times one was closed *)
Record WsClient := mkWsClient { ws_open : bool; ws_closes : nat }.

(** The [except BaseException] of both [connect]s *)
Definition on_failure {A} (r : result A) (c : WsClient) : WsClient * result A :=
  match r with
  | Ret v => (c, Ret v)
  | Raise e => (mkWsClient false (if ws_open c then S (ws_closes c) else ws_closes c), Raise e)
  end.

Definition close_client (c : WsClient) : WsClient :=
  mkWsClient false (if ws_open c then S (ws_closes c) else ws_closes c).

(** [LocalTTSClient.connect]; [opened] is whether the socket could be opened,
    [updated] whether the update could be sent *)
Definition tts_client_connect (voice opened updated : bool) (ms : list wire) (c : WsClient) : WsClient * result json :=
  let c := close_client c in
  if negb opened then on_failure (Raise (OtherException "OSError")) c
  else
    let c := mkWsClient true (ws_closes c) in
    on_failure
      (hello ←? receive_json (head ms) ;;
       t ←? event_type hello ;;
       if negb (type_is t ["server.hello"]) then Raise (RuntimeError "expected TTS server.hello")
       else if voice then
         if negb updated then Raise (OtherException "OSError")
         else
           created ←? receive_json (head (tail ms)) ;;
           t ←? event_type created ;;
           if type_is t ["session.created"; "session.updated"] then Ret hello
           else Raise (RuntimeError "expected TTS session.created")
       else Ret hello) c.

Definition stt_client_connect (language opened updated : bool) (ms : list wire) (c : WsClient) : WsClient * result unit :=
  let c := close_client c in
  if negb opened then on_failure (Raise (OtherException "OSError")) c
  else
    let c := mkWsClient true (ws_closes c) in
    on_failure
      (hello ←? receive_json (head ms) ;;
       t ←? event_type hello ;;
       if negb (type_is t ["server.hello"]) then Raise (RuntimeError "expected STT server.hello")
       else
         created ←? receive_json (head (tail ms)) ;;
         t ←? event_type created ;;
         if negb (type_is t ["session.created"]) then Raise (RuntimeError "expected STT session.created")
         else if language then
           if negb updated then Raise (OtherException "OSError")
           else _ ←? receive_until MAX_HANDSHAKE_EVENTS ["session.updated"; "transcription_session.updated"] (tail (tail ms)) ;; Ret tt
         else Ret tt) c.

(** ** The events of a client ([_events])

    One message, with the counts that include it: an event, nothing, or the end. *)
Definition read_message (count bytes : N) (w : wire) : result (option json) :=
  if (MAX_EVENT_COUNT <? count)%N || (MAX_OPERATION_BYTES <? bytes)%N
  then Raise (RuntimeError "local service event stream limit exceeded")
  else
    match w with
    | BinaryMessage _ => Ret None
    | TextMessage size parsed =>
        if (MAX_MESSAGE_BYTES <? size)%N then Raise (RuntimeError "local service message limit exceeded") else Ret parsed
    end.

(** What the iteration gives after the last message *)
Definition last_event (e : stream_end) : result (option json) :=
  match e with
  | StreamEnds => Ret None
  | StreamTimesOut => Raise (RuntimeError "local service event stream timed out")
  | ConnectionClosed => Ret (Some (JObj [(txt "type", JStr (txt "error"))]))
  end.

(** The text ends with a literal *)
Definition ends_with (t : text) (literal : string) : bool :=
  bool_decide (txt literal = drop (length t - length (txt literal)) t ∧ (length (txt literal) <= length t)%nat).

Section speech_services.
Context (b64decode : json → option (list N)).   (* [base64.b64decode(v, validate=True)], [None] where it raises *)

(** ** Synthesis *)

Inductive tts_frame := StartedFrame | AudioFrame (audio : list N) | StoppedFrame.

Inductive tts_event_kind :=
| Delta (audio : option (list N))
| Finished
| ProviderError
| Ignored
| NotAnEvent.        (* [event.get] or [endswith] raises *)

Definition classify_tts (v : json) : tts_event_kind :=
  match v with
  | JObj d =>
      match dict_get (txt "type") d with
      | Some (JStr kind) =>
          if ends_with kind "audio.delta" then Delta (dict_get (txt "audio") d ≫= b64decode)
          else if ends_with kind "audio.done" || ends_with kind "cancelled" then Finished
          else if bool_decide (kind = txt "error") || bool_decide (kind = txt "response.failed") then ProviderError
          else Ignored
      | None => Ignored
      | Some _ => NotAnEvent
      end
  | _ => NotAnEvent
  end.

Inductive tts_outcome := Completed | Failed (e : exn) | Abandoned.

Record counters := mkCounters { n_messages : N; n_bytes : N; n_events : N; n_audio : N }.

Context (max_events max_audio : N).

(** The effect of one event: it ends the loop, goes on, or yields audio *)
Definition tts_step (v : json) (c : counters) : tts_outcome + option (list N) :=
  if (max_events <? n_events c)%N then inl (Failed (RuntimeError "local TTS event limit exceeded"))
  else
    match classify_tts v with
    | Delta None => inl (Failed (RuntimeError "local TTS returned invalid audio"))
    | Delta (Some audio) =>
        if (max_audio <? n_audio c + N.of_nat (length audio))%N then inl (Failed (RuntimeError "local TTS audio limit exceeded"))
        else inr (Some audio)
    | Finished => inl Completed
    | ProviderError => inl (Failed (RuntimeError "local TTS error"))
    | Ignored => inr None
    | NotAnEvent => inl (Failed AttributeError)
    end.

(** [async for event in client.events()] *)
Fixpoint tts_loop (ms : list wire) (final : stream_end) (c : counters) (patience : nat) : list tts_frame * tts_outcome :=
  match ms with
  | [] =>
      match last_event final with
      | Raise e => ([], Failed e)
      | Ret (Some v) =>
          match tts_step v (mkCounters (n_messages c) (n_bytes c) (n_events c + 1) (n_audio c)) with
          | inl o => ([], o)
          | inr _ => ([], Failed (RuntimeError "local TTS stream ended before audio completion"))
          end
      | Ret None => ([], Failed (RuntimeError "local TTS stream ended before audio completion"))
      end
  | w :: ms' =>
      let c := mkCounters (n_messages c + 1) (n_bytes c + wire_size w) (n_events c) (n_audio c) in
      match read_message (n_messages c) (n_bytes c) w with
      | Raise e => ([], Failed e)
      | Ret None => tts_loop ms' final c patience
      | Ret (Some v) =>
          let c := mkCounters (n_messages c) (n_bytes c) (n_events c + 1) (n_audio c) in
          match tts_step v c with
          | inl o => ([], o)
          | inr None => tts_loop ms' final c patience
          | inr (Some audio) =>
              match patience with
              | O => ([AudioFrame audio], Abandoned)
              | S patience' =>
                  let c := mkCounters (n_messages c) (n_bytes c) (n_events c) (n_audio c + N.of_nat (length audio)) in
                  let (frames, o) := tts_loop ms' final c patience' in (AudioFrame audio :: frames, o)
              end
          end
      end
  end.

(** The adapter: its client and the client of every context, as identities *)
Record LocalTTS := mkLocalTTS {
  tts_started : bool;
  tts_client : option nat;
  context_clients : dict string nat;
  tts_minted : nat;
  tts_closed : list nat
}.

(** [_abort_client(client)]; the socket's own [close] may still raise afterwards *)
Definition abort_client (client : nat) (s : LocalTTS) : LocalTTS :=
  mkLocalTTS (tts_started s) (if decide (tts_client s = Some client) then None else tts_client s)
    (filter (λ p, p.2 ≠ client) (context_clients s)) (tts_minted s) (tts_closed s ++ [client]).

(** [connect]: the client in use, or a new one; [ok] is whether its handshake succeeds *)
Definition tts_connect (ok : bool) (s : LocalTTS) : LocalTTS * option nat :=
  match tts_client s with
  | Some client => (s, Some client)
  | None =>
      let client := tts_minted s in
      let s := mkLocalTTS (tts_started s) (Some client) (context_clients s) (S client) (tts_closed s) in
      if ok then (s, Some client) else (abort_client client s, None)
  end.

Definition on_audio_context_interrupted (context : string) (s : LocalTTS) : LocalTTS :=
  match dict_get context (context_clients s) with
  | Some client =>
      abort_client client (mkLocalTTS (tts_started s) (tts_client s) (dict_pop context (context_clients s)) (tts_minted s) (tts_closed s))
  | None => s
  end.

(** What an utterance meets: whether the handshake, [append] and [commit], the two
    callbacks and the final [close] succeed, whether the consumer resumes the
    generator after the first frame, and the messages *)
Record Utterance := mkUtterance {
  ut_connects : bool;
  ut_sends : bool;
  ut_started_returns : bool;
  ut_resumed : bool;
  ut_messages : list wire;
  ut_final : stream_end;
  ut_patience : nat;
  ut_ended_returns : bool;
  ut_closes : bool
}.

(** The body of the [try]: the frames, the callbacks made and how it ends *)
Definition tts_body (u : Utterance) : list tts_frame * list string * tts_outcome * bool :=
  if negb (ut_sends u) then ([], [], Failed TimeoutError, false)
  else if negb (ut_started_returns u) then ([], ["synthesis_started"], Failed (OtherException "Exception"), false)
  else if negb (ut_resumed u) then ([StartedFrame], ["synthesis_started"], Abandoned, false)
  else
    let (frames, o) := tts_loop (ut_messages u) (ut_final u) (mkCounters 0 0 0 0) (ut_patience u) in
    match o with
    | Completed =>
        if ut_ended_returns u
        then (StartedFrame :: frames ++ [StoppedFrame], ["synthesis_started"; "synthesis_ended"], Completed, true)
        else (StartedFrame :: frames, ["synthesis_started"; "synthesis_ended"], Failed (OtherException "Exception"), true)
    | _ => (StartedFrame :: frames, ["synthesis_started"], o, false)
    end.

(** [run_tts], with the frames it yields and the callbacks it makes *)
Definition run_tts (context : string) (u : Utterance) (others : LocalTTS → LocalTTS) (s : LocalTTS)
    : LocalTTS * list tts_frame * list string * tts_outcome :=
  if negb (tts_started s) then (s, [], [], Failed (RuntimeError "TTS service is not started"))
  else
    match tts_connect (ut_connects u) s with
    | (s, None) => (s, [], [], Failed TimeoutError)
    | (s, Some client) =>
        let s := mkLocalTTS (tts_started s) (tts_client s) (dict_set context client (context_clients s)) (tts_minted s) (tts_closed s) in
        let '(frames, calls, o, completed) := tts_body u in
        let s := others s in
        let s := if decide (dict_get context (context_clients s) = Some client)
                 then mkLocalTTS (tts_started s) (tts_client s) (dict_pop context (context_clients s)) (tts_minted s) (tts_closed s) else s in
        if completed then (s, frames, calls, o)
        else
          let s := abort_client client s in
          if ut_closes u then (s, frames, calls ++ ["delivery_unknown"], o)
          else (s, frames, calls, Failed (OtherException "OSError"))
    end.

(** ** Transcription *)

(** The transcript is passed on as it is in the message. *)
Inductive stt_frame := TranscriptionFrame (words : json) | ErrorFrame.

Inductive stt_outcome := Transcribed (words : json) | SttError | SttRaises (e : exn).

(** [bool(v)] *)
Definition says_something (v : json) : bool :=
  match v with
  | JNull => false
  | JBool b => b
  | JInt z => negb (z =? 0)%Z
  | JFloat f => negb (float_is_zero f)
  | JStr t => negb (bool_decide (t = []))
  | JArr l => match l with [] => false | _ => true end
  | JObj d => match d with [] => false | _ => true end
  end.

Definition stt_event (v : json) : option stt_outcome :=
  match v with
  | JObj d =>
      match dict_get (txt "type") d with
      | Some (JStr kind) =>
          if ends_with kind "transcription.completed" then
            Some (Transcribed (get d "transcript"))
          else if bool_decide (kind = txt "error") then Some SttError else None
      | None => None
      | Some _ => Some (SttRaises AttributeError)
      end
  | _ => Some (SttRaises AttributeError)
  end.

Fixpoint stt_loop (ms : list wire) (final : stream_end) (count bytes : N) : stt_outcome :=
  match ms with
  | [] =>
      match last_event final with
      | Raise e => SttRaises e
      | Ret (Some v) => default SttError (stt_event v)
      | Ret None => SttError
      end
  | w :: ms' =>
      match read_message (count + 1) (bytes + wire_size w) w with
      | Raise e => SttRaises e
      | Ret None => stt_loop ms' final (count + 1) (bytes + wire_size w)
      | Ret (Some v) =>
          match stt_event v with
          | Some o => o
          | None => stt_loop ms' final (count + 1) (bytes + wire_size w)
          end
      end
  end.

Record LocalSTT := mkLocalSTT { stt_started : bool; stt_client : option nat; stt_minted : nat; stt_closed : list nat }.

Definition stt_abort (client : nat) (s : LocalSTT) : LocalSTT :=
  mkLocalSTT (stt_started s) (if decide (stt_client s = Some client) then None else stt_client s) (stt_minted s) (stt_closed s ++ [client]).

(** [run_stt]: the frame it yields, the exception it raises, and whether the
    application's callback is started; closing the client succeeds *)
Definition run_stt (connects sends on_final resumed : bool) (ms : list wire) (final : stream_end) (s : LocalSTT)
    : LocalSTT * option stt_frame * option exn * bool :=
  if negb (stt_started s) then (s, None, Some (RuntimeError "STT service is not started"), false)
  else
    let '(client, connected, s) :=
      match stt_client s with
      | Some c => (c, true, s)
      | None => (stt_minted s, connects, mkLocalSTT (stt_started s) (Some (stt_minted s)) (S (stt_minted s)) (stt_closed s))
      end in
    if negb (connected && sends) then (stt_abort client s, None, Some TimeoutError, false)
    else
      match stt_loop ms final 0 0 with
      | Transcribed words =>
          if negb (says_something words) then (s, None, None, false)
          else if resumed then (s, Some (TranscriptionFrame words), None, on_final)
          else (stt_abort client s, Some (TranscriptionFrame words), Some (OtherException "GeneratorExit"), false)
      | SttError => (stt_abort client s, Some ErrorFrame, None, false)
      | SttRaises e => (stt_abort client s, None, Some e, false)
      end.

(** ** Facts *)

Definition audio_bytes (audio : list (list N)) : N := foldr (λ a n, N.of_nat (length a) + n)%N 0%N audio.

Lemma tts_step_audio v c audio :
  tts_step v c = inr (Some audio) → (n_events c <= max_events)%N ∧ (n_audio c + N.of_nat (length audio) <= max_audio)%N.
Proof.
  unfold tts_step. destruct (N.ltb_spec max_events (n_events c)); [done|]. destruct (classify_tts v) as [[a|]| | | |]; try done.
  destruct (N.ltb_spec max_audio (n_audio c + N.of_nat (length a))); [done|]. by intros [= <-].
Qed.

(** The loop yields audio only, within both limits. *)
Lemma tts_loop_frames ms final c patience frames o :
  tts_loop ms final c patience = (frames, o) → (n_events c <= max_events)%N → (n_audio c <= max_audio)%N →
  ∃ audio, frames = AudioFrame <$> audio ∧ (n_audio c + audio_bytes audio <= max_audio)%N
    ∧ (n_events c + N.of_nat (length audio) <= max_events)%N.
Proof.
  revert c patience frames o. induction ms as [|w ms IH]; intros c patience frames o E He Ha.
  { exists []. cbn in *. split_and!; [|lia|lia]. repeat case_match; by simplify_eq. }
  cbn [tts_loop] in E. cbv zeta in E. cbn [n_messages n_bytes n_events n_audio] in E.
  destruct (read_message _ _ w) as [[v|]|e] eqn:Er.
  2: { apply IH in E; [|done..]. exact E. }
  2: { simplify_eq. exists []. cbn. split_and!; [done|lia|lia]. }
  destruct (tts_step v _) as [o'|[audio|]] eqn:Es.
  - simplify_eq. exists []. cbn. split_and!; [done|lia|lia].
  - apply tts_step_audio in Es as [He' Ha']. cbn [n_events n_audio] in He', Ha'. destruct patience as [|patience].
    { simplify_eq. exists [audio]. cbn. split_and!; [done|lia|lia]. }
    destruct (tts_loop _ _ _ _) as [frames' o'] eqn:El. simplify_eq. apply IH in El as (l & -> & Hl1 & Hl2); [|done..].
    cbn [n_events n_audio] in Hl1, Hl2. exists (audio :: l). cbn [fmap list_fmap audio_bytes foldr length]. split_and!; [done|unfold audio_bytes in *; lia|lia].
  - destruct (N.ltb_spec max_events (n_events c + 1)) as [Hgt|Hle].
    { exfalso. unfold tts_step in Es. cbn [n_events] in Es. by rewrite (proj2 (N.ltb_lt _ _) Hgt) in Es. }
    apply IH in E as (l & -> & Hl1 & Hl2); [|done..]. cbn [n_events n_audio] in Hl1, Hl2. exists l. split_and!; [done|lia|lia].
Qed.

(** A client that is let go: no longer the adapter's, no context's, and closed *)
Definition let_go (client : nat) (s : LocalTTS) : Prop :=
  tts_client s ≠ Some client ∧ (∀ context, dict_get context (context_clients s) ≠ Some client) ∧ client ∈ tts_closed s.

Lemma abort_lets_go client s : let_go client (abort_client client s).
Proof.
  unfold abort_client. split_and!; cbn.
  - by case_decide.
  - intros context E. apply dict_get_elem, list_elem_of_filter in E as [E _]. done.
  - apply elem_of_app. right. apply list_elem_of_singleton. done.
Qed.

Lemma tts_body_spec u :
  let '(frames, calls, o, completed) := tts_body u in
  (∃ audio, (audio_bytes audio <= max_audio)%N ∧ (N.of_nat (length audio) <= max_events)%N
     ∧ (frames = [] ∨ frames = StartedFrame :: (AudioFrame <$> audio) ++ match o with Completed => [StoppedFrame] | _ => [] end))
  ∧ (if completed then calls = ["synthesis_started"; "synthesis_ended"]
     else o ≠ Completed ∧ (calls = [] ∨ calls = ["synthesis_started"])).
Proof.
  unfold tts_body. destruct (negb (ut_sends u)).
  { split; [exists []; cbn; split_and!; [lia|lia|by left]|]. split; [done|by left]. }
  destruct (negb (ut_started_returns u)).
  { split; [exists []; cbn; split_and!; [lia|lia|by left]|]. split; [done|by right]. }
  destruct (negb (ut_resumed u)).
  { split; [exists []; cbn; split_and!; [lia|lia|by right]|]. split; [done|by right]. }
  destruct (tts_loop _ _ _ _) as [frames o] eqn:El.
  apply tts_loop_frames in El as (audio & -> & Hl1 & Hl2); [|cbn; lia..]. cbn [n_events n_audio] in Hl1, Hl2.
  destruct o; [destruct (ut_ended_returns u)| |].
  all: split; [exists audio; split_and!; [lia|lia|]; right|]; cbn; rewrite ?app_nil_r; try done.
  all: split; [done|by right].
Qed.


(** A transcription yields one frame at most, and the client survives only when the
    service completed it and the consumer took the frame: after a failure the next
    segment opens a connection of its own. *)
Theorem segment_settled connects sends on_final resumed ms final s s' frame raised called :
  stt_started s = true → run_stt connects sends on_final resumed ms final s = (s', frame, raised, called) →
  (called = true → on_final = true ∧ raised = None ∧ ∃ words, frame = Some (TranscriptionFrame words) ∧ says_something words = true)
  ∧ (stt_client s' = None ∨ raised = None ∧ frame ≠ Some ErrorFrame ∧ stt_closed s' = stt_closed s).
Proof.
  intros Hs. unfold run_stt. rewrite Hs. cbn [negb].
  assert (∀ c s1, stt_client s1 = Some c → stt_client (stt_abort c s1) = None) as Hab by (intros c s1 E; unfold stt_abort; cbn; by case_decide).
  set (new := match stt_client s with Some c => _ | None => _ end). destruct new as [[client connected] s1] eqn:En.
  assert (stt_client s1 = Some client ∧ stt_closed s1 = stt_closed s) as [Ec Ecl].
  { unfold new in En. destruct (stt_client s) eqn:E; by simplify_eq. }
  destruct (negb (connected && sends)); [intros [= <- <- <- <-]; split; [done|left; by apply Hab]|].
  destruct (stt_loop ms final 0 0) as [words| |e]; [|intros [= <- <- <- <-]; split; [done|left; by apply Hab]..].
  destruct (says_something words) eqn:Ew; cbn [negb]; [|intros [= <- <- <- <-]; split; [done|by right]].
  destruct resumed; intros [= <- <- <- <-].
  - split; [|by right]. intros ->. split_and!; [done|done|by exists words].
  - split; [done|]. left. by apply Hab.
Qed.

(** The handshakes: a client that could not connect holds no socket, and its socket was closed. *)
Lemma failed_handshake_closes voice opened updated ms c c' e :
  tts_client_connect voice opened updated ms c = (c', Raise e) →
  ws_open c' = false ∧ ws_closes c' = (ws_closes c + (if ws_open c then 1 else 0) + (if opened then 1 else 0))%nat.
Proof.
  unfold tts_client_connect, on_failure, close_client. destruct opened; cbn [negb ws_open ws_closes].
  - destruct (rbind _ _); [done|]. intros [= <- <-]. cbn. split; [done|]. destruct (ws_open c); lia.
  - intros [= <- <-]. cbn. split; [done|]. destruct (ws_open c); lia.
Qed.

End speech_services.

(** ** An utterance *)

Definition message (kind : string) (more : dict text json) : json := JObj ((txt "type", JStr (txt kind)) :: more).

Definition spoken_utterance : Utterance :=
  mkUtterance true true true true
    [TextMessage 60 (Some (message "response.audio.delta" [(txt "audio", JStr (txt "AAA="))])); BinaryMessage 8; TextMessage 5 None;
     TextMessage 40 (Some (message "response.audio.done" []))] StreamEnds 9 true true.

Definition idle : LocalTTS := mkLocalTTS true None [] 0 [].

Lemma spoken_utterance_ends :
  run_tts (λ _, Some [0; 0]%N) 4096 33554432 "utt-1" spoken_utterance id idle
  = (mkLocalTTS true (Some 0%nat) [] 1 [], [StartedFrame; AudioFrame [0; 0]%N; StoppedFrame], ["synthesis_started"; "synthesis_ended"], Completed).
Proof. by vm_compute. Qed.

