(* ===== verification/EvalProbe.v ===== *)
(** The probe of the candidate models ([src/scripts/verify_eval_candidates.py]), the
    producer of the manifest that [EvalManifest.v] consumes, and the requests that it
    shares with production ([build_router_request_kwargs], [build_worker_request_kwargs],
    [build_judge_request_kwargs], [structured_outputs.py], [LazyRouterProvider]).

    What the provider answers may depend on everything asked before; the exchanges are
    kept in order.  How Python prints a tuple, the schemas that pydantic generates, the
    text of [json.dumps], git and the clock are a class.  An exception of the provider
    is its class and its message. *)

From S2P Require Import Routing Prelude PyDict PyText PyValue Json ConfigLayers Config EvalCommon EvalManifest ConfigFacts EvalVote EvalRun EvalReport Evidence.

(** ** Schemas *)

Definition required_of (properties : dict text json) : json := JArr (JStr <$> dict_keys properties).

(** What [strict_json_schema] does to an object whose values are done *)
Definition strict_object (result : dict text json) : dict text json :=
  let result := match dict_get (txt "properties") result with
                | Some (JObj properties) => dict_set (txt "required") (required_of properties) result
                | _ => result
                end in
  dict_pop (txt "default") result.

Fixpoint strict_json_schema (value : json) : json :=
  match value with
  | JArr l => JArr (strict_json_schema <$> l)
  | JObj d => JObj (strict_object (prod_map id strict_json_schema <$> d))
  | _ => value
  end.

Definition structured_text_format (schema : json) (name : text) : dict text json :=
  [(txt "format", JObj [(txt "type", JStr (txt "json_schema")); (txt "name", JStr name); (txt "strict", JBool true);
                        (txt "schema", strict_json_schema schema)])].

(** ** What the scripts meet *)

Inductive call := Retrieve (model : text) | Create (kwargs : dict text json) | Complete (kwargs : dict text json).

(** An exception, or the [id] of the response *)
Abbreviation reply := (exc + option text)%type (only parsing).
Abbreviation exchange := (call * (exc + option text))%type (only parsing).

(** The judge's service: the message of the [AttributeError] where it has no [_client];
    else the [close] of its client, if there is one, with what it raises *)
Abbreviation judge_service := (text + option (option exc))%type (only parsing).

Class ProbeWorld := {
  entries_repr : list WorkerCatalogueEntry → text;
  names_repr : list string → text;
  RouterEnvelope_schema : json;                                        (* [model_json_schema()] *)
  WebSearchAnswer_schema : json;
  answer : list exchange → call → reply;
  OpenAILLMService : text → dict text json → option text → exc + judge_service;
  rev_parse : option (Z * text);                                       (* the exit code and the output; [None]: not run *)
  now_utc : text;
  json_dumps : json → list N;
  mkdir_parents : list (list N) → result unit
}.

Record LazyRouterProvider (Client : Type) := mkProvider {
  lp_config : Config;
  lp_factory : option (result Client);      (* what the injected factory gives *)
  lp_responses : option Client
}.
Arguments mkProvider {Client} _ _ _.
Arguments lp_config {Client} _.
Arguments lp_factory {Client} _.
Arguments lp_responses {Client} _.

Section probe.
Context `{!PyRuntime} `{!HostEnv} `{!EvidenceOS} `{W : ProbeWorld}.
Implicit Types (model : text) (effort : option text) (log : list exchange) (api_key : option text).

(** ** Requests *)

Definition build_router_request_kwargs model effort (prompt : text) (timeout : pyfloat) : dict text json :=
  let kwargs := [(txt "model", JStr model); (txt "input", JStr prompt); (txt "store", JBool false);
                 (txt "timeout", JFloat timeout);
                 (txt "text", JObj (structured_text_format RouterEnvelope_schema (txt "router_envelope")))] in
  match effective_router_reasoning_effort model effort with
  | Some e => dict_set (txt "reasoning") (JObj [(txt "effort", JStr e)]) kwargs
  | None => kwargs
  end.

Definition WEB_SEARCH_INSTRUCTIONS : text :=
  txt ("Use hosted web search to answer the current request. Return a complete, normal readable "
  ++ "answer in display_text and a concise standalone version for text-to-speech in spoken_text. "
  ++ "spoken_text must be plain speech, use at most 80 words and 600 characters, and contain no "
  ++ "Markdown, URLs, citation markers, source lists, tables, headings, or stage directions. "
  ++ "Preserve names, dates, quantities, qualifications, and uncertainty needed to answer the "
  ++ "request accurately. Every claim in spoken_text must also be supported by display_text and "
  ++ "the same web-search sources; never introduce a fact only in the spoken projection. Prefer "
  ++ "three to six authoritative sources and avoid exhaustive source lists.")%string.

Definition build_worker_request_kwargs model effort (query instructions : text) : dict text json :=
  let kwargs := [(txt "model", JStr model); (txt "tools", JArr [JObj [(txt "type", JStr (txt "web_search"))]]);
                 (txt "tool_choice", JStr (txt "required"));
                 (txt "include", JArr [JStr (txt "web_search_call.action.sources")]);
                 (txt "instructions", JStr instructions); (txt "input", JStr query);
                 (txt "text", JObj (structured_text_format WebSearchAnswer_schema (txt "web_search_answer")));
                 (txt "store", JBool false)] in
  match effort with
  | Some e => dict_set (txt "reasoning") (JObj [(txt "effort", JStr e)]) kwargs
  | None => kwargs
  end.

Definition JUDGE_MAX_TOKENS : Z := 500.
Definition JUDGE_PROBE_MAX_TOKENS : Z := 32.

(** [{..., **judge_extra_kwargs(model)}] *)
Definition build_judge_request_kwargs model (messages : list json) (max_completion_tokens : Z) : dict text json :=
  foldl (λ d '(k, v), dict_set k v d)
    [(txt "model", JStr model); (txt "messages", JArr messages); (txt "max_completion_tokens", JInt max_completion_tokens)]
    (judge_extra_kwargs model).

(** [WorkerCatalogue.prompt] *)
Definition catalogue_prompt (c : WorkerCatalogue) (transcript : text) : text :=
  txt ("Route the user transcript using only this immutable catalogue and these rules. "
  ++ "Do not use tools. Do not invent existing worker IDs. "
  ++ "Classify conversational intent before selecting a worker. Greetings, thanks, "
  ++ "acknowledgements, goodbyes, and casual conversation that does not need external "
  ++ "data are direct: return no worker fields and put a concise response in prose. "
  ++ "Do not create a worker for those requests. "
  ++ "A public factual, current, or historical request is available through the "
  ++ "public_web capability. Select an existing matching worker only when its topic "
  ++ "matches the request; otherwise return action=new_worker, worker_id=null, "
  ++ "worker_type=web_search, "
  ++ "capability=public_web, capability_available=true, and model_policy=deep. "
  ++ "For existing_worker, copy worker_id, worker_type, topic, and model_policy "
  ++ "verbatim from the matching catalogue entry. The topic is immutable worker "
  ++ "metadata, not the current transcript; never change an existing worker's topic "
  ++ "to match a new request. "
  ++ "Use unsupported only for a capability that is genuinely unavailable, such as "
  ++ "private account data. For direct, unsupported, or clarify, worker_id, worker_type, "
  ++ "topic, and model_policy must all be null. "
  ++ "catalogue_version=")%string ++ txt (cat_version c) ++ txt "; workers=" ++ entries_repr (cat_workers c)
  ++ txt "; capabilities=" ++ names_repr (cat_capability_labels c)
  ++ txt "; model_policies=" ++ names_repr (cat_model_policies c) ++ txt "; transcript=" ++ transcript.

(** ** [LazyRouterProvider]

    Calling the client raises or gives the response's [output_text]. *)

Section provider.
Context {Client : Type} (create : Client → dict text json → result json) (build_client : pyval → pyfloat → result Client).
Implicit Type p : LazyRouterProvider Client.

Definition keep p (r : result Client) : LazyRouterProvider Client * result Client :=
  match r with
  | Ret client => (mkProvider (lp_config p) (lp_factory p) (Some client), Ret client)
  | Raise e => (p, Raise e)
  end.

Definition get_responses p : LazyRouterProvider Client * result Client :=
  match lp_responses p with
  | Some client => (p, Ret client)
  | None =>
      match lp_factory p with
      | Some made => keep p made
      | None =>
          match openai_api_key (lp_config p) with
          | Some key => if truthy key then keep p (build_client key (provider_timeout_seconds (lp_config p)))
                        else (p, Raise (RuntimeError "router provider is unavailable"))
          | None => (p, Raise (RuntimeError "router provider is unavailable"))
          end
      end
  end.

Definition response_text (output_text : json) : result text :=
  match output_text with
  | JStr (c :: t) => Ret (c :: t)
  | _ => Raise (RoutingValidationError "router provider returned no structured output")
  end.

Definition read_envelope (output_text : json) : result (dict text json) :=
  payload ←? match (t ←? response_text output_text ;; json_loads t) with
             | Raise e => Raise (if bool_decide (e = JSONDecodeError)
                                 then RoutingValidationError "router provider returned invalid JSON" else e)
             | r => r
             end ;;
  match payload with
  | JObj d => Ret d
  | _ => Raise (RoutingValidationError "router provider returned a non-object envelope")
  end.

(** The provider after the call, the request that went out, and the answer *)
Definition provider_call p (prompt : text)
    : LazyRouterProvider Client * option (dict text json) * result (dict text json) :=
  match (model ←? resolve_router_model (lp_config p) (txt "fast") ;;
         effort ←? resolve_router_reasoning_effort (lp_config p) (txt "fast") ;; Ret (model, effort)) with
  | Raise e => (p, None, Raise e)
  | Ret (model, effort) =>
      let kwargs := build_router_request_kwargs model effort prompt (router_timeout_seconds (lp_config p)) in
      match get_responses p with
      | (p, Raise e) => (p, None, Raise e)
      | (p, Ret client) => (p, Some kwargs, output_text ←? create client kwargs ;; read_envelope output_text)
      end
  end.

End provider.

(** ** The probes *)

Definition PHASE0_ROUTER_PROBES : list (text * option text) := candidate_wire_key <$> ALL_ROUTER_CANDIDATES.
Definition PHASE0_WORKER_PROBES : list (text * option text) := candidate_wire_key <$> ALL_WORKER_CANDIDATES.

Definition model_existence_ids (judge_model : text) : list text :=
  sorted_set (judge_model :: (PHASE0_ROUTER_PROBES ++ PHASE0_WORKER_PROBES).*1).

Definition ROUTER_PROBE_TRANSCRIPT : text := txt "Hi.".
Definition WORKER_PROBE_QUERY : text := txt "What is the current weather in London?".
Definition JUDGE_PROBE_MESSAGE : text := txt "Reply with exactly the single word: ok".

Record ProbeResult := mkProbe {
  pr_kind : text;
  pr_model : text;
  pr_effort : option text;
  pr_tools : list text;
  pr_request_kwargs : dict text json;
  pr_accepted : bool;
  pr_error : option text;
  pr_response_id : option text
}.

(** [Config().router_timeout_seconds] *)
Definition router_timeout : pyfloat := router_timeout_seconds default_config.

Definition probe_catalogue : WorkerCatalogue := mkCatalogue "verify-eval-candidates-1" [] ["public_web"%string] ["deep"%string].

Definition router_kwargs model effort (timeout : pyfloat) : dict text json :=
  build_router_request_kwargs model effort (catalogue_prompt probe_catalogue ROUTER_PROBE_TRANSCRIPT) timeout.

Definition worker_kwargs model effort : dict text json :=
  build_worker_request_kwargs model effort WORKER_PROBE_QUERY WEB_SEARCH_INSTRUCTIONS.

Definition judge_kwargs (judge_model : text) : dict text json :=
  build_judge_request_kwargs judge_model
    [JObj [(txt "role", JStr (txt "user")); (txt "content", JStr JUDGE_PROBE_MESSAGE)]] JUDGE_PROBE_MAX_TOKENS.

Definition opt_json (t : option text) : json := match t with Some t => JStr t | None => JNull end.
Definition strs (l : list text) : json := JArr (JStr <$> l).

Definition plan_entry (kind : string) model effort (tools : list text) (request_kwargs : option (dict text json)) : dict text json :=
  [(txt "kind", JStr (txt kind)); (txt "model", JStr model); (txt "effort", opt_json effort); (txt "tools", strs tools)]
  ++ match request_kwargs with Some kwargs => [(txt "request_kwargs", JObj kwargs)] | None => [] end.

Definition build_plan (judge_model : text) (timeout : pyfloat) : list (dict text json) :=
  ((λ model, plan_entry "model_existence" model None [] None) <$> model_existence_ids judge_model)
  ++ ((λ '(model, effort), plan_entry "router" model effort ROUTER_MANIFEST_TOOLS (Some (router_kwargs model effort timeout)))
      <$> PHASE0_ROUTER_PROBES)
  ++ ((λ '(model, effort), plan_entry "worker" model effort WORKER_MANIFEST_TOOLS (Some (worker_kwargs model effort)))
      <$> PHASE0_WORKER_PROBES)
  ++ [plan_entry "judge" judge_model None [] (Some (judge_kwargs judge_model))].

Definition ask (c : call) log : list exchange * reply := let r := answer log c in (log ++ [(c, r)], r).

(** The two ends of a probe *)
Definition ended (kind : string) model effort (tools : list text) (kwargs : dict text json) api_key (r : reply) : ProbeResult :=
  match r with
  | inl e => mkProbe (txt kind) model effort tools kwargs false (Some (error_text e api_key 2000)) None
  | inr response_id => mkProbe (txt kind) model effort tools kwargs true None response_id
  end.

Definition probe_model_existence api_key model log : list exchange * ProbeResult :=
  let '(log, r) := ask (Retrieve model) log in
  (log, ended "model_existence" model None [] [(txt "model", JStr model)] api_key
          match r with inl e => inl e | inr _ => inr None end).

Definition probe_router api_key (timeout : pyfloat) (key : text * option text) log : list exchange * ProbeResult :=
  let '(model, effort) := key in
  let kwargs := router_kwargs model effort timeout in
  let '(log, r) := ask (Create kwargs) log in
  (log, ended "router" model effort ROUTER_MANIFEST_TOOLS kwargs api_key r).

Definition probe_worker api_key (key : text * option text) log : list exchange * ProbeResult :=
  let '(model, effort) := key in
  let kwargs := worker_kwargs model effort in
  let '(log, r) := ask (Create kwargs) log in
  (log, ended "worker" model effort WORKER_MANIFEST_TOOLS kwargs api_key r).

Definition build_judge_llm_service model api_key : exc + judge_service := OpenAILLMService model (judge_extra_kwargs model) api_key.

(** What closing raises *)
Definition close_judge_llm_service (service : judge_service) : option exc :=
  match service with inr (Some close) => close | _ => None end.

Definition plumbing_broke (exc_text : text) : exc :=
  (txt "RuntimeError",
   txt ("judge probe plumbing broke: OpenAILLMService no longer exposes the "
        ++ "private `_client` attribute this probe relies on (")%string ++ exc_text ++ txt ")").

(** What [_call] does: [finally] closes the service, and what that raises replaces the
    outcome. *)
Definition judge_call (judge_model : text) api_key log : list exchange * reply :=
  match build_judge_llm_service judge_model api_key with
  | inl e => (log, inl e)
  | inr service =>
      let '(log, r) := match service with
                       | inl exc_text => (log, inl (plumbing_broke exc_text))
                       | inr _ => ask (Complete (judge_kwargs judge_model)) log
                       end in
      (log, match close_judge_llm_service service with Some e => inl e | None => r end)
  end.

Definition probe_judge (judge_model : text) api_key log : list exchange * ProbeResult :=
  let '(log, r) := judge_call judge_model api_key log in
  (log, ended "judge" judge_model None [] (judge_kwargs judge_model) api_key r).

Fixpoint probe_each {A} (probe : A → list exchange → list exchange * ProbeResult) (l : list A) log
    : list exchange * list ProbeResult :=
  match l with
  | [] => (log, [])
  | a :: l' =>
      let '(log, r) := probe a log in
      let '(log, rs) := probe_each probe l' log in
      (log, r :: rs)
  end.

(** ** The run *)

Definition CredentialResolutionError : exn := RuntimeError "load_config() failed".

Definition resolve_openai_api_key (config : result Config) : result (option text) :=
  match config with Ret c => Ret (credential_of c) | Raise _ => Raise CredentialResolutionError end.

Definition run_verification (config : result Config) (judge_model : text)
    : list exchange * result (list ProbeResult * pyfloat) :=
  match resolve_openai_api_key config with
  | Raise e => ([], Raise e)
  | Ret None | Ret (Some []) => ([], Raise (RuntimeError "No OpenAI API key resolved"))
  | Ret (Some key) =>
      let api_key := Some key in
      let '(log, existing) := probe_each (probe_model_existence api_key) (model_existence_ids judge_model) [] in
      let '(log, routers) := probe_each (probe_router api_key router_timeout) PHASE0_ROUTER_PROBES log in
      let '(log, workers) := probe_each (probe_worker api_key) PHASE0_WORKER_PROBES log in
      let '(log, judge) := probe_judge judge_model api_key log in
      (log, Ret (existing ++ routers ++ workers ++ [judge], router_timeout))
  end.

(** ** The manifest *)

Definition asdict (r : ProbeResult) : json :=
  JObj [(txt "kind", JStr (pr_kind r)); (txt "model", JStr (pr_model r)); (txt "effort", opt_json (pr_effort r));
        (txt "tools", strs (pr_tools r)); (txt "request_kwargs", JObj (pr_request_kwargs r));
        (txt "accepted", JBool (pr_accepted r)); (txt "error", opt_json (pr_error r));
        (txt "response_id", opt_json (pr_response_id r))].

Definition git_head : option text :=
  match rev_parse with
  | Some (returncode, stdout) =>
      if negb (returncode =? 0)%Z then None else match strip stdout with [] => None | t => Some t end
  | None => None
  end.

Definition manifest_of (results : list ProbeResult) : json :=
  JObj [(txt "manifest_version", JInt MANIFEST_VERSION); (txt "source_commit", opt_json git_head);
        (txt "verified_at_utc", JStr now_utc); (txt "results", JArr (asdict <$> results))].

(** What the file then holds, [None] if none was opened, and how the call ended;
    [None] for a call that has not ended *)
Definition write_no_follow (p : list (list N)) (content : list N) : option (list N) * option (result unit) :=
  match mkdir_parents p with
  | Raise e => (None, Some (Raise e))
  | Ret _ => write_bytes_no_follow p content
  end.

Definition write_manifest (out : text) (results : list ProbeResult) : option (list (list N) * list N) * option (result json) :=
  let manifest := manifest_of results in
  match confined_output_path out REPO_ROOT with
  | Raise e => (None, Some (Raise e))
  | Ret p =>
      let '(content, r) := write_no_follow p (json_dumps manifest ++ [10%N]) in
      ((p,.) <$> content,
       match r with
       | Some (Ret _) => Some (Ret manifest)
       | Some (Raise e) => Some (Raise e)
       | None => None
       end)
  end.

(** The lines of the summary, each with whether it goes to the error stream *)
Definition summary_line (r : ProbeResult) : bool * text :=
  let status := if pr_accepted r then txt "OK" else txt "REJECTED" in
  let effort := default (txt "(unset)") (pr_effort r) in
  let tools := match pr_tools r with [] => txt "(none)" | l => join_with (txt ",") l end in
  (negb (pr_accepted r),
   txt "[" ++ status ++ txt "] " ++ pr_kind r ++ txt " model=" ++ pr_model r ++ txt " effort=" ++ effort
   ++ txt " tools=" ++ tools
   ++ if pr_accepted r then [] else txt " error=" ++ default (txt "None") (pr_error r)).

Definition print_summary (results : list ProbeResult) : list (bool * text) :=
  let rejected := filter (λ r, pr_accepted r = false) results in
  (summary_line <$> results)
  ++ [(negb (bool_decide (rejected = [])),
       10%N :: nat_text (length results - length rejected) ++ txt "/" ++ nat_text (length results) ++ txt " probes accepted"
       ++ match rejected with [] => [] | _ => txt "; " ++ nat_text (length rejected) ++ txt " REJECTED" end)].

(** ** [main] *)

Record ProbeArgs := mkProbeArgs { pa_out : text; pa_judge_model : text; pa_dry_run : bool }.

(** How a run ends, if it does, what it asked the provider, the plan or the summary that
    it printed, and the file that it opened with what it holds *)
Record ProbeRun := mkProbeRun {
  pn_end : option main_end;
  pn_log : list exchange;
  pn_plan : option (list (dict text json));
  pn_summary : list (bool * text);
  pn_file : option (list (list N) * list N)
}.

Definition is_runtime_error (e : exn) : bool := match e with RuntimeError _ => true | _ => false end.
Definition is_os_error (e : exn) : bool := bool_decide (e = OSError).

(** The exit code once the manifest is written *)
Definition exit_code (results : list ProbeResult) : Z :=
  let code := match git_head with None => 2 | Some _ => 0 end%Z in
  if existsb (λ r, negb (pr_accepted r)) results then if (code =? 0)%Z then 1 else code else code.

Definition probe_main (a : ProbeArgs) (config : result Config) : ProbeRun :=
  if pa_dry_run a then
    mkProbeRun (Some (Exited 0)) [] (Some (build_plan (pa_judge_model a) router_timeout)) [] None
  else
  match run_verification config (pa_judge_model a) with
  | (log, Raise e) => mkProbeRun (Some (if is_runtime_error e then Exited 2 else Crashed e)) log None [] None
  | (log, Ret (results, _)) =>
      let '(file, r) := write_manifest (pa_out a) results in
      mkProbeRun match r with
                 | None => None
                 | Some (Raise e) => Some (if is_value_error e || is_os_error e then Exited 2 else Crashed e)
                 | Some (Ret _) => Some (Exited (exit_code results))
                 end log None (print_summary results) file
  end.

End probe.

(** ** Strict schemas *)

Lemma json_induction (P : json → Prop) :
  P JNull → (∀ b, P (JBool b)) → (∀ z, P (JInt z)) → (∀ f, P (JFloat f)) → (∀ t, P (JStr t)) →
  (∀ l, Forall P l → P (JArr l)) → (∀ d, Forall (λ e, P e.2) d → P (JObj d)) → ∀ v, P v.
Proof.
  intros H1 H2 H3 H4 H5 H6 H7. fix IH 1. intros [| | | | |l|d]; [done..| |].
  - apply H6. induction l as [|v l IHl]; constructor; [apply IH|done].
  - apply H7. induction d as [|[k v] d IHd]; constructor; [apply IH|done].
Qed.

(** What the provider's strict mode asks of every object of a schema: no default, and
    all the properties required *)
#[warnings="-register-all"]
Inductive strict_schema : json → Prop :=
| strict_leaf v : match v with JArr _ | JObj _ => False | _ => True end → strict_schema v
| strict_list l : Forall strict_schema l → strict_schema (JArr l)
| strict_dict d :
    Forall (λ e, strict_schema e.2) d → dict_get (txt "default") d = None →
    (∀ properties, dict_get (txt "properties") d = Some (JObj properties) →
                   dict_get (txt "required") d = Some (required_of properties)) →
    strict_schema (JObj d).

Lemma required_of_strict properties : strict_schema (required_of properties).
Proof. apply strict_list, Forall_fmap, Forall_true. intros k. by constructor. Qed.

Lemma strict_object_strict d : Forall (λ e, strict_schema e.2) d → strict_schema (JObj (strict_object d)).
Proof.
  intros Hd. unfold strict_object.
  set (d' := match dict_get (txt "properties") d with Some (JObj _) => _ | _ => d end).
  assert (dict_get (txt "properties") d' = dict_get (txt "properties") d) as Hp.
  { unfold d'. repeat case_match; try done. rewrite dict_get_set_ne; [done|by vm_compute]. }
  apply strict_dict.
  - apply Forall_forall. intros e [_ He]%list_elem_of_filter. rewrite Forall_forall in Hd. unfold d' in He.
    repeat case_match; try by apply Hd. apply dict_set_elem in He as [->|He]; [apply required_of_strict|by apply Hd].
  - apply dict_get_pop_eq.
  - intros properties. rewrite !dict_get_pop_ne by (by vm_compute). rewrite Hp. unfold d'. intros E. rewrite E.
    apply dict_get_set_eq.
Qed.

Lemma strict_json_schema_strict v : strict_schema (strict_json_schema v).
Proof.
  induction v as [| | | | |l IH|d IH] using json_induction; simpl; [by constructor..| |].
  - apply strict_list. by apply Forall_fmap.
  - apply strict_object_strict. by apply Forall_fmap.
Qed.

Lemma strict_dict_inv d :
  strict_schema (JObj d) →
  Forall (λ e, strict_schema e.2) d ∧ dict_get (txt "default") d = None
  ∧ (∀ properties, dict_get (txt "properties") d = Some (JObj properties) →
                   dict_get (txt "required") d = Some (required_of properties)).
Proof. inversion 1; by subst. Qed.

Lemma strict_list_inv l : strict_schema (JArr l) → Forall strict_schema l.
Proof. inversion 1; by subst. Qed.

Lemma strict_object_fixed d : strict_schema (JObj d) → strict_object d = d.
Proof.
  intros (_ & Hd & Hr)%strict_dict_inv. unfold strict_object.
  assert (∀ d', d' = d → dict_pop (txt "default") d' = d) as Hp.
  { intros ? ->. by apply dict_pop_notin, dict_get_None. }
  apply Hp. repeat case_match; try done. by apply dict_set_get_id, Hr.
Qed.

(** Normalising a schema again changes nothing. *)
Lemma strict_json_schema_fixed v : strict_schema v → strict_json_schema v = v.
Proof.
  induction v as [| | | | |l IH|d IH] using json_induction; simpl; try done; intros Hs.
  - f_equal. apply strict_list_inv in Hs as Hl. rewrite <- (list_fmap_id l) at 2. apply list_fmap_ext. intros i v Hv.
    rewrite Forall_lookup in IH. rewrite Forall_lookup in Hl. eauto.
  - f_equal. rewrite <- (strict_object_fixed d Hs) at 2. f_equal. apply strict_dict_inv in Hs as (Hl & _ & _).
    rewrite <- (list_fmap_id d) at 2. apply list_fmap_ext. intros i [k v] Hv.
    rewrite Forall_lookup in IH. rewrite Forall_lookup in Hl. unfold prod_map. simpl. f_equal. exact (IH _ _ Hv (Hl _ _ Hv)).
Qed.

Section facts.
Context `{!PyRuntime} `{!HostEnv} `{!EvidenceOS} `{W : ProbeWorld}.
Implicit Types (model : text) (effort : option text) (log : list exchange) (api_key : option text).

(** ** The requests pass the shape check *)

Lemma eq_str_refl t : eq_str (JStr t) t = true.
Proof. by apply eq_str_spec. Qed.

Lemma router_gets model effort prompt timeout :
  let d := build_router_request_kwargs model effort prompt timeout in
  has_keys (txt <$> ROUTER_KEYS) d = true ∧ get d "model" = JStr model ∧ get d "store" = JBool false
  ∧ is_obj (get d "text") = true ∧ get d "input" = JStr prompt ∧ get d "tools" = JNull
  ∧ get d "reasoning" = match effective_router_reasoning_effort model effort with
                        | Some e => JObj [(txt "effort", JStr e)]
                        | None => JNull
                        end.
Proof. unfold build_router_request_kwargs. by destruct (effective_router_reasoning_effort model effort). Qed.

Lemma worker_gets model effort query instructions :
  let d := build_worker_request_kwargs model effort query instructions in
  has_keys (txt <$> WORKER_KEYS) d = true ∧ get d "model" = JStr model ∧ get d "store" = JBool false
  ∧ is_obj (get d "text") = true ∧ get d "tool_choice" = JStr (txt "required")
  ∧ get d "tools" = JArr [JObj [(txt "type", JStr (txt "web_search"))]]
  ∧ get d "reasoning" = match effort with Some e => JObj [(txt "effort", JStr e)] | None => JNull end.
Proof. by destruct effort. Qed.

Lemma judge_gets model messages tokens :
  let d := build_judge_request_kwargs model messages tokens in
  has_keys (JUDGE_KEYS model) d = true ∧ get d "model" = JStr model ∧ get d "messages" = JArr messages
  ∧ get d "reasoning_effort" = opt_json (default_reasoning_effort_for_model model).
Proof.
  unfold build_judge_request_kwargs, JUDGE_KEYS, judge_extra_kwargs. by destruct (default_reasoning_effort_for_model model).
Qed.

Lemma reasoning_ok_set d effort :
  get d "reasoning" = match effort with Some e => JObj [(txt "effort", JStr e)] | None => JNull end →
  reasoning_ok d effort = true.
Proof. unfold reasoning_ok. intros ->. destruct effort as [e|]; [|done]. apply eq_str_refl. Qed.

(** The consumer's check accepts every request that the router sends, whatever its
    configuration and its prompt. *)
Lemma router_request_ok model effort prompt timeout :
  prompt ≠ [] → router_shape_ok model effort (build_router_request_kwargs model effort prompt timeout) = true.
Proof.
  intros Hp. destruct (router_gets model effort prompt timeout) as (E1 & E2 & E3 & E4 & E5 & _ & E6).
  unfold router_shape_ok. rewrite E1, E2, E3, E4, E5, eq_str_refl, (reasoning_ok_set _ _ E6), bool_decide_false by done. done.
Qed.

Lemma worker_request_ok model effort query instructions :
  worker_shape_ok model effort (build_worker_request_kwargs model effort query instructions) = true.
Proof.
  destruct (worker_gets model effort query instructions) as (E1 & E2 & E3 & E4 & E5 & E6 & E7).
  unfold worker_shape_ok. rewrite E1, E2, E3, E4, E5, E6, !eq_str_refl, (reasoning_ok_set _ _ E7). done.
Qed.

Lemma judge_request_ok model messages tokens :
  messages ≠ [] → forallb judge_message messages = true →
  judge_shape_ok model (build_judge_request_kwargs model messages tokens) = true.
Proof.
  intros Hne Hm. destruct (judge_gets model messages tokens) as (E1 & E2 & E3 & E4).
  unfold judge_shape_ok. rewrite E1, E2, E3, E4, eq_str_refl, Hm. destruct messages; [done|].
  destruct (default_reasoning_effort_for_model model); simpl; [by rewrite bool_decide_true|done].
Qed.

Lemma txt_nonempty a s (t : text) : txt (String a s) ++ t ≠ [].
Proof. done. Qed.

Lemma catalogue_prompt_nonempty c transcript : catalogue_prompt c transcript ≠ [].
Proof. apply txt_nonempty. Qed.

(** Resolving the effort before the request is built changes nothing: the probe of a
    wire key sends what production sends. *)
Lemma router_effort_resolved model effort prompt timeout :
  build_router_request_kwargs model (effective_router_reasoning_effort model effort) prompt timeout
  = build_router_request_kwargs model effort prompt timeout.
Proof. unfold build_router_request_kwargs. by rewrite effective_idempotent. Qed.

(** The production client is made once, and the router sends exactly the request that
    the probe of its configured candidate certifies, up to the input and the timeout. *)
Lemma client_made_once {Client} (build_client : pyval → pyfloat → result Client) p p' client :
  get_responses build_client p = (p', Ret client) → get_responses build_client p' = (p', Ret client).
Proof.
  assert (∀ made, keep p made = (p', Ret client) → get_responses build_client p' = (p', Ret client)) as Hk.
  { intros [c|]; [|done]. by intros [= <- <-]. }
  unfold get_responses at 1. destruct (lp_responses p) as [c|] eqn:E; [intros [= <- <-]; unfold get_responses; by rewrite E|].
  destruct (lp_factory p); [apply Hk|]. destruct (openai_api_key _) as [key|]; [|done]. by destruct (truthy key); [apply Hk|].
Qed.

Lemma router_sends_certified {Client} (create : Client → dict text json → result json) build_client p prompt p' kwargs r
    router worker :
  prompt ≠ [] → shipped_candidates (lp_config p) = Ret (router, worker) →
  provider_call create build_client p prompt = (p', Some kwargs, r) →
  kwargs = build_router_request_kwargs (cd_model router) (cd_effort router) prompt (router_timeout_seconds (lp_config p))
  ∧ request_kwargs_shape_ok (txt "router") (cd_model router) (effective_effort_for_manifest_lookup router) kwargs = true.
Proof.
  intros Hp Hs. unfold provider_call. unfold shipped_candidates in Hs.
  destruct (resolve_router_model (lp_config p) (txt "fast")) as [model|]; [|done]. cbn [rbind] in *.
  destruct (resolve_router_reasoning_effort (lp_config p) (txt "fast")) as [effort|]; [|done]. cbn [rbind] in *.
  apply rbind_ret in Hs as (wm & _ & Hs). apply rbind_ret in Hs as (we & _ & Hs). injection Hs as <- _.
  destruct (get_responses build_client p) as [q [client|e]]; [|done]. intros [= _ <- _]. split; [done|].
  cbn [cd_model cd_effort cd_role effective_effort_for_manifest_lookup]. rewrite <- router_effort_resolved.
  by apply router_request_ok.
Qed.

(** ** The entries of the manifest *)

Definition key_of (r : ProbeResult) : option (text * text * option text) :=
  if pr_accepted r then Some (pr_kind r, pr_model r, pr_effort r) else None.

Definition well_probed (r : ProbeResult) : Prop :=
  request_kwargs_shape_ok (pr_kind r) (pr_model r) (pr_effort r) (pr_request_kwargs r) = true
  ∧ (pr_kind r, pr_tools r) ∈ [(txt "model_existence", []); (txt "router", ROUTER_MANIFEST_TOOLS);
                               (txt "worker", WORKER_MANIFEST_TOOLS); (txt "judge", [])].

Definition entry_of_probe (r : ProbeResult) : dict text json := match asdict r with JObj d => d | _ => [] end.

Lemma entry_gets r :
  let d := entry_of_probe r in
  get d "accepted" = JBool (pr_accepted r) ∧ get d "kind" = JStr (pr_kind r) ∧ get d "model" = JStr (pr_model r)
  ∧ get d "effort" = opt_json (pr_effort r) ∧ get d "request_kwargs" = JObj (pr_request_kwargs r)
  ∧ get d "tools" = strs (pr_tools r).
Proof. done. Qed.

Lemma accept_asdict r : well_probed r → accept_entry (asdict r) = Ret (key_of r).
Proof.
  intros [Hs Ht]. change (asdict r) with (JObj (entry_of_probe r)). unfold accept_entry, key_of.
  destruct (entry_gets r) as (-> & -> & -> & -> & -> & E). destruct (pr_accepted r); [|done]. cbn [is_true negb].
  assert (opt_str (opt_json (pr_effort r)) = Some (pr_effort r)) as -> by (by destruct (pr_effort r)).
  rewrite Hs. cbn [negb]. assert (tools_ok (pr_kind r) (entry_of_probe r) = Ret true) as ->; [|done].
  unfold tools_ok. rewrite E. rewrite !elem_of_cons, elem_of_nil in Ht.
  destruct Ht as [[= -> ->]|[[= -> ->]|[[= -> ->]|[[= -> ->]|[]]]]]; reflexivity.
Qed.

Lemma accept_results results :
  Forall well_probed results → accept_entries (asdict <$> results) = Ret (omap key_of results).
Proof.
  induction 1 as [|r results Hr _ IH]; [done|]. cbn [fmap list_fmap accept_entries omap list_omap].
  rewrite (accept_asdict r Hr). cbn [rbind]. rewrite IH. cbn [rbind]. by destruct (key_of r).
Qed.

Lemma ended_key kind model effort tools kwargs api_key r :
  key_of (ended kind model effort tools kwargs api_key r)
  = match r with inl _ => None | inr _ => Some (txt kind, model, effort) end.
Proof. by destruct r. Qed.

Lemma ended_well kind model effort tools kwargs api_key r :
  request_kwargs_shape_ok (txt kind) model effort kwargs = true →
  (txt kind, tools) ∈ [(txt "model_existence", []); (txt "router", ROUTER_MANIFEST_TOOLS);
                       (txt "worker", WORKER_MANIFEST_TOOLS); (txt "judge", [])] →
  well_probed (ended kind model effort tools kwargs api_key r).
Proof. by destruct r. Qed.

(** ** What a run asks and records *)

Definition existence_result api_key (p : text * reply) : ProbeResult :=
  ended "model_existence" p.1 None [] [(txt "model", JStr p.1)] api_key match p.2 with inl e => inl e | inr _ => inr None end.

Definition router_result api_key (p : text * option text * reply) : ProbeResult :=
  ended "router" p.1.1 p.1.2 ROUTER_MANIFEST_TOOLS (router_kwargs p.1.1 p.1.2 router_timeout) api_key p.2.

Definition worker_result api_key (p : text * option text * reply) : ProbeResult :=
  ended "worker" p.1.1 p.1.2 WORKER_MANIFEST_TOOLS (worker_kwargs p.1.1 p.1.2) api_key p.2.

Definition judge_result (judge_model : text) api_key (r : reply) : ProbeResult :=
  ended "judge" judge_model None [] (judge_kwargs judge_model) api_key r.

Lemma probe_each_spec {A} (probe : A → list exchange → list exchange * ProbeResult) (request : A → call)
    (result : A * reply → ProbeResult) (l : list A) log :
  (∀ a log, probe a log = (log ++ [(request a, answer log (request a))], result (a, answer log (request a)))) →
  ∃ ps : list (A * reply), ps.*1 = l
    ∧ probe_each probe l log = (log ++ (prod_map request id <$> ps), result <$> ps).
Proof.
  intros Hp. revert log. induction l as [|a l IH]; intros log; simpl; [exists []; by rewrite app_nil_r|].
  rewrite Hp. destruct (IH (log ++ [(request a, answer log (request a))])) as (ps & <- & ->).
  exists ((a, answer log (request a)) :: ps). split; [done|]. by rewrite <- app_assoc.
Qed.

(** The judge is asked at most once; an answer counts only if it came and the service
    was closed. *)
Lemma judge_call_spec judge_model api_key log :
  ∃ asked r, judge_call judge_model api_key log = (log ++ asked, r)
    ∧ (asked = [] ∧ (∃ e, r = inl e)
       ∨ ∃ r0, asked = [(Complete (judge_kwargs judge_model), r0)] ∧ (r = r0 ∨ ∃ e, r = inl e)).
Proof.
  unfold judge_call, ask. destruct (build_judge_llm_service judge_model api_key) as [e|service].
  { exists [], (inl e). rewrite app_nil_r. eauto. }
  destruct service as [m|close].
  { exists [], (inl (plumbing_broke m)). rewrite app_nil_r. simpl. eauto. }
  eexists [(_, _)], _. split; [reflexivity|]. right. eexists. split; [reflexivity|].
  destruct (close_judge_llm_service (inr close)); eauto.
Qed.

Record verified (judge_model : text) log (results : list ProbeResult) : Prop := {
  ve_run : ∃ key pe pr pw asked r,
    pe.*1 = model_existence_ids judge_model ∧ pr.*1 = PHASE0_ROUTER_PROBES ∧ pw.*1 = PHASE0_WORKER_PROBES
    ∧ log = (prod_map Retrieve id <$> pe) ++ (prod_map (λ k, Create (router_kwargs k.1 k.2 router_timeout)) id <$> pr)
            ++ (prod_map (λ k, Create (worker_kwargs k.1 k.2)) id <$> pw) ++ asked
    ∧ results = (existence_result key <$> pe) ++ (router_result key <$> pr) ++ (worker_result key <$> pw)
                ++ [judge_result judge_model key r]
    ∧ (asked = [] ∧ (∃ e, r = inl e)
       ∨ ∃ r0, asked = [(Complete (judge_kwargs judge_model), r0)] ∧ (r = r0 ∨ ∃ e, r = inl e))
}.

Lemma run_verified config judge_model log results timeout :
  run_verification config judge_model = (log, Ret (results, timeout)) → verified judge_model log results.
Proof.
  unfold run_verification. destruct (resolve_openai_api_key config) as [[[|c key]|]|]; try done.
  edestruct (probe_each_spec (probe_model_existence (Some (c :: key))) Retrieve (existence_result (Some (c :: key)))
               (model_existence_ids judge_model) []) as (pe & Epe & ->); [done|]. cbn [app].
  edestruct (probe_each_spec (probe_router (Some (c :: key)) router_timeout) (λ k, Create (router_kwargs k.1 k.2 router_timeout))
               (router_result (Some (c :: key))) PHASE0_ROUTER_PROBES) as (pr & Epr & ->); [by intros []|].
  edestruct (probe_each_spec (probe_worker (Some (c :: key))) (λ k, Create (worker_kwargs k.1 k.2))
               (worker_result (Some (c :: key))) PHASE0_WORKER_PROBES) as (pw & Epw & ->); [by intros []|].
  unfold probe_judge.
  edestruct (judge_call_spec judge_model (Some (c :: key))) as (asked & r & -> & Hr). intros [= <- <- _].
  constructor. exists (Some (c :: key)), pe, pr, pw, asked, r. by rewrite <- !app_assoc.
Qed.

Lemma verified_well judge_model log results : verified judge_model log results → Forall well_probed results.
Proof.
  intros [(key & pe & pr & pw & asked & r & _ & _ & _ & _ & -> & _)].
  rewrite !Forall_app, !Forall_fmap. split_and!; [apply Forall_true; intros p..|].
  - by apply ended_well; [|left].
  - apply ended_well; [|by right; left]. apply router_request_ok, catalogue_prompt_nonempty.
  - apply ended_well; [|by do 2 right; left]. apply worker_request_ok.
  - apply Forall_singleton. apply ended_well; [|by do 3 right; left]. by apply judge_request_ok.
Qed.

(** ** What the manifest then lets through *)

(** The request that production builds for a candidate, with the input and the timeout
    of the probe *)
Definition probe_request (c : Candidate) : dict text json :=
  match cd_role c with
  | RouterRole =>
      build_router_request_kwargs (cd_model c) (cd_effort c) (catalogue_prompt probe_catalogue ROUTER_PROBE_TRANSCRIPT) router_timeout
  | WorkerRole => build_worker_request_kwargs (cd_model c) (cd_effort c) WORKER_PROBE_QUERY WEB_SEARCH_INSTRUCTIONS
  end.

Definition effort_json effort : json := match effort with Some e => JObj [(txt "effort", JStr e)] | None => JNull end.

Lemma effort_json_inj e e' : effort_json e = effort_json e' → e = e'.
Proof. destruct e, e'; simpl; intros E; simplify_eq; done. Qed.

Lemma router_kwargs_inj m e m' e' timeout :
  router_kwargs m e timeout = router_kwargs m' e' timeout →
  m = m' ∧ effective_router_reasoning_effort m e = effective_router_reasoning_effort m' e'.
Proof.
  unfold router_kwargs. set (p := catalogue_prompt _ _). intros E.
  destruct (router_gets m e p timeout) as (_ & E1 & _ & _ & _ & _ & E2).
  destruct (router_gets m' e' p timeout) as (_ & E3 & _ & _ & _ & _ & E4).
  rewrite <- E in E3, E4. rewrite E1 in E3. rewrite E2 in E4. split; [by injection E3 as ->|by apply effort_json_inj].
Qed.

Lemma worker_kwargs_inj m e m' e' : worker_kwargs m e = worker_kwargs m' e' → m = m' ∧ e = e'.
Proof.
  unfold worker_kwargs. intros E. destruct (worker_gets m e WORKER_PROBE_QUERY WEB_SEARCH_INSTRUCTIONS) as (_ & E1 & _ & _ & _ & _ & E2).
  destruct (worker_gets m' e' WORKER_PROBE_QUERY WEB_SEARCH_INSTRUCTIONS) as (_ & E3 & _ & _ & _ & _ & E4).
  rewrite <- E in E3, E4. rewrite E1 in E3. rewrite E2 in E4. split; [by injection E3 as ->|by apply effort_json_inj].
Qed.

Lemma router_not_worker m e timeout m' e' : router_kwargs m e timeout ≠ worker_kwargs m' e'.
Proof.
  intros E. destruct (router_gets m e (catalogue_prompt probe_catalogue ROUTER_PROBE_TRANSCRIPT) timeout) as (_ & _ & _ & _ & _ & E1 & _).
  destruct (worker_gets m' e' WORKER_PROBE_QUERY WEB_SEARCH_INSTRUCTIONS) as (_ & _ & _ & _ & _ & E2 & _).
  unfold router_kwargs, worker_kwargs in E. by rewrite E, E2 in E1.
Qed.

Lemma router_roles : Forall (λ c, cd_role c = RouterRole) ALL_ROUTER_CANDIDATES.
Proof. by repeat constructor. Qed.

Lemma worker_roles : Forall (λ c, cd_role c = WorkerRole) ALL_WORKER_CANDIDATES.
Proof. by repeat constructor. Qed.

Lemma router_probes_resolved m e : (m, e) ∈ PHASE0_ROUTER_PROBES → effective_router_reasoning_effort m e = e.
Proof.
  intros (c & E & Hc)%list_elem_of_fmap. pose proof (proj1 (Forall_forall _ _) router_roles c Hc) as Hr.
  unfold candidate_wire_key, effective_effort_for_manifest_lookup in E. rewrite Hr in E. injection E as -> ->. apply effective_idempotent.
Qed.

Lemma ended_keys kind tools kwargs api_key (ps : list (text * option text * reply)) k m e :
  (k, m, e) ∈ omap key_of ((λ p, ended kind p.1.1 p.1.2 tools (kwargs p) api_key p.2) <$> ps) ↔
  k = txt kind ∧ ∃ id, ((m, e), inr id) ∈ ps.
Proof.
  rewrite list_elem_of_omap. split.
  - intros (r & ([[m' e'] [x|id]] & -> & Hp)%list_elem_of_fmap & E); rewrite ended_key in E; simplify_eq/=. eauto.
  - intros (-> & id & Hp). eexists. split; [apply list_elem_of_fmap; exists ((m, e), inr id); eauto|]. by rewrite ended_key.
Qed.

Lemma router_keys key (pr : list (text * option text * reply)) k m e :
  (k, m, e) ∈ omap key_of (router_result key <$> pr) ↔ k = txt "router" ∧ ∃ id, ((m, e), inr id) ∈ pr.
Proof. exact (ended_keys "router" _ (λ p, router_kwargs p.1.1 p.1.2 router_timeout) key pr k m e). Qed.

Lemma worker_keys key (pw : list (text * option text * reply)) k m e :
  (k, m, e) ∈ omap key_of (worker_result key <$> pw) ↔ k = txt "worker" ∧ ∃ id, ((m, e), inr id) ∈ pw.
Proof. exact (ended_keys "worker" _ (λ p, worker_kwargs p.1.1 p.1.2) key pw k m e). Qed.

Lemma existence_keys key (pe : list (text * reply)) k m e :
  (k, m, e) ∈ omap key_of (existence_result key <$> pe) → k = txt "model_existence".
Proof.
  intros (r & ([a x] & -> & _)%list_elem_of_fmap & E)%list_elem_of_omap. unfold existence_result in E. rewrite ended_key in E.
  by destruct x; simplify_eq/=.
Qed.

Lemma judge_keys judge_model key r k m e :
  (k, m, e) ∈ omap key_of [judge_result judge_model key r] ↔ k = txt "judge" ∧ m = judge_model ∧ e = None ∧ ∃ id, r = inr id.
Proof.
  unfold judge_result. cbn [omap list_omap]. rewrite ended_key. destruct r as [x|id].
  - rewrite elem_of_nil. split; [done|]. by intros (_ & _ & _ & id & [=]).
  - rewrite list_elem_of_singleton. split; [intros [= -> -> ->]; eauto 10|]. by intros (-> & -> & -> & _).
Qed.

(** A role's entry of the manifest for a wire key: its probe was answered. *)
Lemma router_entry judge_model log results m e :
  verified judge_model log results → effective_router_reasoning_effort m e = e →
  (txt "router", m, e) ∈ omap key_of results ↔ ∃ id, (Create (router_kwargs m e router_timeout), inr id) ∈ log.
Proof.
  intros [(key & pe & pr & pw & asked & r & _ & Hpr & _ & -> & -> & Hr)] He. rewrite !omap_app, !elem_of_app. split.
  - intros [Hk|[Hk|[Hk|Hk]]].
    + by apply existence_keys in Hk.
    + apply router_keys in Hk as (_ & id & Ha). exists id. rewrite !elem_of_app. right. left.
      apply list_elem_of_fmap. by exists ((m, e), inr id).
    + by apply worker_keys in Hk as [? _].
    + by apply judge_keys in Hk as [? _].
  - intros [id Hl]. rewrite !elem_of_app in Hl. right. left. apply router_keys. split; [done|].
    destruct Hl as [Hl|[Hl|[Hl|Hl]]].
    + by apply list_elem_of_fmap in Hl as ([] & [=] & _).
    + apply list_elem_of_fmap in Hl as ([[m' e'] x] & [= E <-] & Ha). exists id.
      assert ((m', e') ∈ PHASE0_ROUTER_PROBES) as Hin by (rewrite <- Hpr; apply list_elem_of_fmap; by exists ((m', e'), inr id)).
      apply (router_kwargs_inj m e m' e') in E as [-> E]. rewrite He, (router_probes_resolved _ _ Hin) in E. by subst e'.
    + apply list_elem_of_fmap in Hl as ([a x] & [= E <-] & _). by apply router_not_worker in E.
    + destruct Hr as [[-> _]|(r0 & -> & _)]; [by apply elem_of_nil in Hl|]. by apply list_elem_of_singleton in Hl.
Qed.

Lemma worker_entry judge_model log results m e :
  verified judge_model log results →
  (txt "worker", m, e) ∈ omap key_of results ↔ ∃ id, (Create (worker_kwargs m e), inr id) ∈ log.
Proof.
  intros [(key & pe & pr & pw & asked & r & _ & _ & Hpw & -> & -> & Hr)]. rewrite !omap_app, !elem_of_app. split.
  - intros [Hk|[Hk|[Hk|Hk]]].
    + by apply existence_keys in Hk.
    + by apply router_keys in Hk as [? _].
    + apply worker_keys in Hk as (_ & id & Ha). exists id. rewrite !elem_of_app. right. right. left.
      apply list_elem_of_fmap. by exists ((m, e), inr id).
    + by apply judge_keys in Hk as [? _].
  - intros [id Hl]. rewrite !elem_of_app in Hl. right. right. left. apply worker_keys. split; [done|].
    destruct Hl as [Hl|[Hl|[Hl|Hl]]].
    + by apply list_elem_of_fmap in Hl as ([] & [=] & _).
    + apply list_elem_of_fmap in Hl as ([a x] & [= E <-] & _). by apply eq_sym, router_not_worker in E.
    + apply list_elem_of_fmap in Hl as ([[m' e'] x] & [= E <-] & Ha). exists id.
      by apply (worker_kwargs_inj m e m' e') in E as [-> ->].
    + destruct Hr as [[-> _]|(r0 & -> & _)]; [by apply elem_of_nil in Hl|]. by apply list_elem_of_singleton in Hl.
Qed.

Lemma judge_entry judge_model log results :
  verified judge_model log results → (txt "judge", judge_model, None) ∈ omap key_of results →
  ∃ id, (Complete (judge_kwargs judge_model), inr id) ∈ log.
Proof.
  intros [(key & pe & pr & pw & asked & r & _ & _ & _ & -> & -> & Hr)]. rewrite !omap_app, !elem_of_app.
  intros [Hk|[Hk|[Hk|Hk]]].
  - by apply existence_keys in Hk.
  - by apply router_keys in Hk as [? _].
  - by apply worker_keys in Hk as [? _].
  - apply judge_keys in Hk as (_ & _ & _ & id & ->). destruct Hr as [(_ & e & [=])|(r0 & -> & [<-|(e & [=])])].
    exists id. rewrite !elem_of_app, list_elem_of_singleton. eauto.
Qed.

Lemma candidate_entry judge_model log results c status :
  verified judge_model log results → c ∈ ALL_ROUTER_CANDIDATES ++ ALL_WORKER_CANDIDATES → ms_accepted status = omap key_of results →
  candidate_accepted c status = true ↔ ∃ id, (Create (probe_request c), inr id) ∈ log.
Proof.
  intros Hv Hc Hs. unfold candidate_accepted, probe_request, effective_effort_for_manifest_lookup. rewrite Hs, bool_decide_eq_true.
  apply elem_of_app in Hc as [Hc|Hc].
  - rewrite (proj1 (Forall_forall _ _) router_roles c Hc), <- router_effort_resolved.
    apply (router_entry _ _ _ _ _ Hv), effective_idempotent.
  - rewrite (proj1 (Forall_forall _ _) worker_roles c Hc). apply (worker_entry _ _ _ _ _ Hv).
Qed.

(** Every probe that was made of a registered candidate or of the judge has its entry. *)
Lemma probes_complete judge_model log results :
  verified judge_model log results → Forall (λ r, pr_accepted r = true) results →
  (txt "judge", judge_model, None) ∈ omap key_of results
  ∧ ∀ c, c ∈ ALL_ROUTER_CANDIDATES ++ ALL_WORKER_CANDIDATES →
         (role_text (cd_role c), cd_model c, effective_effort_for_manifest_lookup c) ∈ omap key_of results.
Proof.
  intros [(key & pe & pr & pw & asked & r & _ & Hpr & Hpw & _ & -> & _)] Ha.
  rewrite !Forall_app, !Forall_fmap, !Forall_forall in Ha. destruct Ha as (_ & Har & Haw & Haj).
  rewrite !omap_app. split.
  - rewrite !elem_of_app. right. right. right. apply judge_keys. split_and!; [done..|].
    specialize (Haj _ (list_elem_of_here _ _)). destruct r as [|id]; [done|by exists id].
  - intros c Hc. rewrite !elem_of_app. apply elem_of_app in Hc as [Hc|Hc].
    + rewrite (proj1 (Forall_forall _ _) router_roles c Hc). right. left. apply router_keys. split; [done|].
      apply (list_elem_of_fmap_2 candidate_wire_key) in Hc. fold PHASE0_ROUTER_PROBES in Hc. rewrite <- Hpr in Hc.
      apply list_elem_of_fmap in Hc as ([k [x|id]] & E & Hk); [by apply Har in Hk|]. exists id. simpl in E. by rewrite <- E in Hk.
    + rewrite (proj1 (Forall_forall _ _) worker_roles c Hc). right. right. left. apply worker_keys. split; [done|].
      apply (list_elem_of_fmap_2 candidate_wire_key) in Hc. fold PHASE0_WORKER_PROBES in Hc. rewrite <- Hpw in Hc.
      apply list_elem_of_fmap in Hc as ([k [x|id]] & E & Hk); [by apply Haw in Hk|]. exists id. simpl in E. by rewrite <- E in Hk.
Qed.

Lemma write_manifest_whole out results file manifest :
  write_manifest out results = (file, Some (Ret manifest)) →
  ∃ p, confined_output_path out REPO_ROOT = Ret p ∧ file = Some (p, json_dumps (manifest_of results) ++ [10%N])
       ∧ manifest = manifest_of results.
Proof.
  unfold write_manifest. destruct (confined_output_path out REPO_ROOT) as [p|]; [|done]. unfold write_no_follow.
  destruct (mkdir_parents p); [|done]. unfold write_bytes_no_follow. destruct (_ <? _)%N; [done|].
  destruct (os_open_write p) as [regular steps|[]]; [|done..]. destruct (require_regular_fd regular); [|done].
  destruct (write_loop _ steps) as [content []] eqn:E; intros [= <- <-]. apply write_loop_whole in E as ->. by exists p.
Qed.

Lemma probe_manifest_loads results commit :
  Forall well_probed results → git_head = Some commit →
  load_manifest_status (Some commit) (Some false) (Parsed (manifest_of results))
  = Ret (mkStatus true (Some commit) (Some commit) false (omap key_of results)).
Proof.
  intros Hw Hg. unfold load_manifest_status, manifest_of. rewrite Hg.
  set (d := [_; _; _; _]). change (get d "results") with (JArr (asdict <$> results)).
  change (get d "manifest_version") with (JInt MANIFEST_VERSION). change (get d "source_commit") with (JStr commit).
  cbn [eq_int]. rewrite bool_decide_true by done. cbn [negb]. rewrite (accept_results results Hw). cbn [rbind].
  by rewrite bool_decide_true.
Qed.

Lemma exit_code_zero results : exit_code results = 0%Z → is_Some git_head ∧ Forall (λ r, pr_accepted r = true) results.
Proof.
  unfold exit_code. destruct git_head as [c|]; [|by case_match]. destruct (existsb _ results) eqn:E; [done|]. intros _.
  split; [done|]. apply Forall_forall. intros r Hr. destruct (pr_accepted r) eqn:Ea; [done|]. apply not_true_iff_false in E. destruct E.
  apply existsb_exists. exists r. rewrite Ea. split; [by apply list_elem_of_In|done].
Qed.

(** C13.  What a probe run pays for is what an evaluation run may use.  When the probe ends
    with 0 or 1, the manifest is in the file, confined to the repository, and at the same
    commit with nothing modified it loads.  It then lets a registered candidate through
    exactly if the provider answered the request that production builds for that
    candidate, and the judge only if the judge's request was answered.  When the probe ends
    with 0, a live run of every registered candidate is let through. *)
Theorem manifest_lets_probed_through a config code :
  pa_dry_run a = false → pn_end (probe_main a config) = Some (Exited code) → (code = 0 ∨ code = 1)%Z →
  ∃ p results commit status,
    confined_output_path (pa_out a) REPO_ROOT = Ret p
    ∧ pn_file (probe_main a config) = Some (p, json_dumps (manifest_of results) ++ [10%N])
    ∧ git_head = Some commit
    ∧ load_manifest_status (Some commit) (Some false) (Parsed (manifest_of results)) = Ret status
    ∧ (∀ c, c ∈ ALL_ROUTER_CANDIDATES ++ ALL_WORKER_CANDIDATES →
            candidate_accepted c status = true ↔ ∃ id, (Create (probe_request c), inr id) ∈ pn_log (probe_main a config))
    ∧ (judge_accepted (pa_judge_model a) status = true →
       ∃ id, (Complete (judge_kwargs (pa_judge_model a)), inr id) ∈ pn_log (probe_main a config))
    ∧ (code = 0%Z →
       require_manifest_ok_for_live_run status false (ALL_ROUTER_CANDIDATES ++ ALL_WORKER_CANDIDATES) (pa_judge_model a) = Ret tt).
Proof.
  intros Hd He Hc. unfold probe_main in *. rewrite Hd in *.
  destruct (run_verification config (pa_judge_model a)) as [log [[results timeout]|e]] eqn:Er;
    [|destruct (is_runtime_error e); simplify_eq/=; lia].
  destruct (write_manifest (pa_out a) results) as [file [[manifest|e]|]] eqn:Ew;
    [|destruct (is_value_error e || is_os_error e); simplify_eq/=; lia|done].
  apply run_verified in Er as Hv. apply write_manifest_whole in Ew as (p & Hp & -> & ->). cbn [pn_end pn_file pn_log] in *.
  injection He as Hcode. assert (is_Some git_head) as [commit Hg].
  { unfold exit_code in Hcode. destruct git_head; [done|]. destruct (existsb _ _); simpl in Hcode; lia. }
  exists p, results, commit, (mkStatus true (Some commit) (Some commit) false (omap key_of results)).
  split_and!; [done..|by apply probe_manifest_loads; [by eapply verified_well|]| | |].
  - intros c Hin. by eapply candidate_entry.
  - intros Hj%bool_decide_eq_true. by eapply judge_entry.
  - intros ->. destruct (exit_code_zero _ Hcode) as [_ Ha]. destruct (probes_complete _ _ _ Hv Ha) as [Hj Hall].
    unfold require_manifest_ok_for_live_run. cbn [ms_exists ms_stale negb andb].
    destruct (existsb _ _) eqn:Ex.
    + apply existsb_exists in Ex as (c & Hin%list_elem_of_In & Hn). unfold candidate_accepted in Hn.
      rewrite bool_decide_true in Hn by (by apply Hall). done.
    + unfold judge_accepted. by rewrite bool_decide_true.
Qed.

(** ** The printed plan *)

(** What a printed entry says will be asked *)
Definition plan_call (e : dict text json) : option call :=
  match get e "model", get e "request_kwargs" with
  | JStr model, JNull => Some (Retrieve model)
  | _, JObj kwargs => Some (if eq_str (get e "kind") (txt "judge") then Complete kwargs else Create kwargs)
  | _, _ => None
  end.

Lemma plan_calls judge_model timeout :
  omap plan_call (build_plan judge_model timeout)
  = (Retrieve <$> model_existence_ids judge_model)
    ++ ((λ k, Create (router_kwargs k.1 k.2 timeout)) <$> PHASE0_ROUTER_PROBES)
    ++ ((λ k, Create (worker_kwargs k.1 k.2)) <$> PHASE0_WORKER_PROBES) ++ [Complete (judge_kwargs judge_model)].
Proof.
  unfold build_plan. rewrite !omap_app. f_equal.
  induction (model_existence_ids judge_model) as [|m l IH]; [done|]. by cbn -[plan_entry]; rewrite IH.
Qed.

Lemma asked_calls {A} (f : A → call) (ps : list (A * reply)) : (prod_map f id <$> ps).*1 = f <$> ps.*1.
Proof. rewrite <- !list_fmap_compose. by apply list_fmap_ext. Qed.

(** The plan that a dry run prints, without asking anything, is what a live run asks,
    in that order, whatever the provider answers; only the judge's request may not go out,
    and then the run does not end with 0. *)
Theorem plan_is_sent out judge_model config results timeout log :
  run_verification config judge_model = (log, Ret (results, timeout)) →
  let dry := probe_main (mkProbeArgs out judge_model true) config in
  let live := probe_main (mkProbeArgs out judge_model false) config in
  pn_log dry = [] ∧ ∃ plan unsent,
    pn_plan dry = Some plan ∧ omap plan_call plan = (pn_log live).*1 ++ unsent
    ∧ (unsent = [] ∨ unsent = [Complete (judge_kwargs judge_model)] ∧ pn_end live ≠ Some (Exited 0)).
Proof.
  intros Hr dry live. split; [done|]. destruct (run_verified _ _ _ _ _ Hr) as [(key & pe & pr & pw & asked & r & Epe & Epr & Epw & Hl & Hres & Ha)].
  assert (pn_log live = log) as El by (unfold live, probe_main; simpl; rewrite Hr; by destruct (write_manifest out results)).
  exists (build_plan judge_model router_timeout). rewrite El, plan_calls, Hl, <- Epe, <- Epr, <- Epw, !fmap_app, !asked_calls.
  destruct Ha as [(-> & e & ->)|(r0 & -> & _)].
  - exists [Complete (judge_kwargs judge_model)]. split_and!; [done|by rewrite app_nil_r, !app_assoc|]. right. split; [done|].
    unfold live, probe_main. cbn [pa_dry_run pa_judge_model]. rewrite Hr. destruct (write_manifest _ results) as [file [[m|x]|]]; cbn [pn_end].
    + intros [= [_ Hz]%exit_code_zero]. rewrite Hres, !Forall_app in Hz. by destruct Hz as (_ & _ & _ & Hz%Forall_inv).
    + by destruct (is_value_error x || is_os_error x).
    + done.
  - exists []. split_and!; [done|by rewrite app_nil_r|by left].
Qed.

End facts.

(** ** A run to evaluate *)

#[local] Existing Instance sample_runtime.
#[local] Existing Instance sample_host.

#[local] Instance probe_os : EvidenceOS :=
  {| os_open := λ _, OpenFails ENOENT; os_open_write := λ _, Opened true (replicate 8 (Wrote 5000));
     path_exists := λ _, false; is_symlink := λ _, false; resolve := Ret;
     REPO_ROOT := [txt "r"]; sha256 := λ b, b; json_decode := Ret; utf8_decode := Ret; json_loads := λ _, Raise JSONDecodeError |}.

(** A provider that refuses the requests of one model *)
Definition refusing (model : text) (c : call) : exc + option text :=
  match c with
  | Create kwargs => if eq_str (get kwargs "model") model then inl (txt "BadRequestError", txt "no such effort") else inr (Some (txt "resp"))
  | _ => inr None
  end.

Definition sample_world (refused_model : text) : ProbeWorld :=
  {| entries_repr := λ _, txt "()"; names_repr := λ _, txt "('public_web',)";
     RouterEnvelope_schema := JObj [(txt "properties", JObj [(txt "prose", JObj [(txt "default", JNull)])])];
     WebSearchAnswer_schema := JObj []; answer := λ _, refusing refused_model;
     OpenAILLMService := λ _ _ _, inr (inr (Some None)); rev_parse := Some (0%Z, txt "c0ffee" ++ [10%N]);
     now_utc := txt "2026-01-01T00:00:00Z"; json_dumps := λ _, txt "{}"; mkdir_parents := λ _, Ret tt |}.

Definition sample_args : ProbeArgs := mkProbeArgs (txt "docs/manifest.json") (txt "gpt-5-mini") false.

Lemma all_accepted_ends : pn_end (probe_main (W := sample_world (txt "none")) sample_args (Ret sample_config)) = Some (Exited 0).
Proof. vm_compute. reflexivity. Qed.

Lemma one_refused_ends : pn_end (probe_main (W := sample_world (txt "gpt-5.6-sol")) sample_args (Ret sample_config)) = Some (Exited 1).
Proof. vm_compute. reflexivity. Qed.

(** One candidate is refused: the probe ends with 1, and its manifest keeps the others. *)
Lemma manifest_lets_probed_through_witness :
  ∃ p results commit status,
    confined_output_path (txt "docs/manifest.json") REPO_ROOT = Ret p
    ∧ load_manifest_status (Some commit) (Some false)
        (Parsed (manifest_of (W := sample_world (txt "gpt-5.6-sol")) results)) = Ret status
    ∧ (∀ c, c ∈ ALL_ROUTER_CANDIDATES ++ ALL_WORKER_CANDIDATES →
            candidate_accepted c status = true ↔
            ∃ id, (Create (probe_request (W := sample_world (txt "gpt-5.6-sol")) c), inr id)
                    ∈ pn_log (probe_main (W := sample_world (txt "gpt-5.6-sol")) sample_args (Ret sample_config))).
Proof.
  destruct (manifest_lets_probed_through (W := sample_world (txt "gpt-5.6-sol")) sample_args (Ret sample_config) 1
              eq_refl one_refused_ends (or_intror eq_refl)) as (p & results & commit & status & E1 & _ & _ & E2 & E3 & _).
  exact (ex_intro _ p (ex_intro _ results (ex_intro _ commit (ex_intro _ status (conj E1 (conj E2 E3)))))).
Defined.
